(* ===== verification/_CoqProject ===== *)
-Q . S2P
Prelude.v
Interfaces.v
RamStore.v
Errors.v
Utils.v
AbBoot.v
AbStorage.v
AbRootfs.v
Ivc.v
IvcProtocol.v
Heap.v
HeapSpec.v
Sparse.v
SparseSpec.v
SparseStream.v
BlockDev.v
BlockSpec.v
Gpt.v
GptSpec.v
Partition.v
PartitionSpec.v
MetadataDisk.v
LinkedList.v
Bcache.v
BcacheSpec.v
Clib.v
ClibSpec.v
CString.v
CStringSpec.v
MemSpec.v
Printf.v
PrintfSpec.v
Cmdline.v
CmdlineSpec.v
CmdlineParams.v
FsPath.v
FsPathSpec.v
Fs.v
FsSpec.v
Ext2.v
Ext2Spec.v
Ext4.v
ExtDir.v
ExtDirSpec.v
Ext4Spec.v
ExtStore.v
Lz4.v
Lz4Spec.v
Decompress.v
DecompressSpec.v
BootImage.v
BootImageSpec.v
NvBlob.v
NvBlobSpec.v
Nct.v
BlUpdate.v
BlUpdateSpec.v
