(* ===== verification/Prelude.v ===== *)
(** * Verified model of the cboot common libraries

    This library models parts of the boot loader's common code (src/) as pure
    functions and small state machines, and proves what makes them correct.

    ** Conventions

    A C integer is a [Z]; every operation that can leave its type's range is
    followed by [u8], [u16], [u32], [u64] or [s32], [s64].  A C structure that is
    only reached through its fields is a [Record]; one that is also copied,
    checksummed or read from storage is a byte list ([list Z]), with the field
    offsets of the C layout and little-endian accesses ([ld32], [st32], ...).
    A function that can fail is in [outcome] (this file): [Ret], [Err] with the
    [tegrabl_error_t], [Halt] for a failed assertion or a hang, [Undef] for an
    access outside its object, [Fuel] when the bound on a loop was too small.
    Functions with state are in the monad [M S].  Printing has no effect.

    ** Parts

    - Prelude.v (this file): words, byte buffers, the monad, weakest
      preconditions and the tactics the other files share; the bit-field macros
      of include/lib/tegrabl_utils.h.
    - Interfaces.v: what the components promise each other, as classes with
      laws: scratch registers, access to partitions, the heap and aligned
      buffers.  RamStore.v is the instance the witnesses of the A/B files run on.
    - Errors.v (include/tegrabl_error.h, lib/tegrabl_error): the fields of an
      error code, the text tables, and the expansion of texts into a buffer.
    - Utils.v (lib/utils): crc32, crc8, checksum, strtoul, byte order.
    - AbBoot.v (lib/a_b_boot/tegrabl_a_b_boot_control.c): the slot metadata, the
      scratch registers, slot and root file system selection, loading, flushing
      and updating the two stored copies.  AbStorage.v holds the theorems on the
      stored copies, AbRootfs.v those on the root file systems and the registers.
    - Ivc.v (lib/ipc/tegra-ivc.c): the operations of one end of a channel, as
      state transformers.  IvcProtocol.v is the step relation of two ends that run
      concurrently, in which every load and store of a counter or a state and every
      byte of a frame is a step of its own, and its invariant.
    - Heap.v (lib/malloc/tegrabl_malloc.c): the allocator on a byte-addressed
      memory that holds its own block headers.  HeapSpec.v relates the memory to
      the abstract list of free extents.
    - Sparse.v (lib/sparse): making a sparse image and expanding one, fed in
      pieces.  SparseSpec.v gives the meaning of an image, SparseStream.v treats
      the expansion as a resumable machine.
    - BlockDev.v (lib/blockdev): byte access over block transfers, the checked
      entry points, the registry of devices with its reference counts, background
      transfers.  BlockSpec.v: the class [FlatDevice] of what a driver does, the
      byte string a device then is, and the invariant of the registry.
    - Gpt.v (lib/gpt): reading, checking and publishing a partition table.
      GptSpec.v relates it to the bytes of the device.
    - Partition.v (lib/partition_manager and the A/B names of lib/a_b_boot):
      publishing, opening and access.  PartitionSpec.v proves it an instance of
      [PartitionLaws].
    - LinkedList.v (include/lib/list.h): the circular lists, on nodes linked in
      memory, and the sequences they represent.
    - Bcache.v (lib/bcache): the cache of file system blocks, on those lists.
      BcacheSpec.v: the store of blocks it is to its caller.
    - Clib.v and CString.v (lib/clib/string.c): memory and string functions, access
      by access.  ClibSpec.v and CStringSpec.v: what they do to memory and to the
      sequences of characters in it.
    - Printf.v (lib/clib/printf.c, [tegrabl_snprintf] of lib/debug): the formatter,
      the format character by character, with its digits, widths and paddings.
      PrintfSpec.v: what is left in the buffer.
    - Cmdline.v (lib/linuxboot/cmdline.c): the command line of the kernel, scanned,
      filtered and extended in memory over the functions of Clib.v, CString.v and
      Printf.v; what the board answers is a record, literals are where the linker
      placed them.  CmdlineSpec.v: the scanner, the search and the additions of a
      parameter; CmdlineParams.v: the whole command line, parameter by parameter.
    - FsPath.v (lib/fs/fs.c): the normalisation of paths; FsPathSpec.v: its
      equivalence with splitting and joining.  Fs.v: the rest of fs.c, mounts and
      handles over a driver's hooks; FsSpec.v: the reference counts of the mounts.
    - Ext2.v (lib/fs/ext2/io.c, parts of ext2.c and file.c): superblock, inodes,
      the tables of block pointers, reading an inode, over the class [FsStore] of
      what a file system calls.  Ext4.v (lib/fs/ext4/ext4.c): extents, hashed and
      linear directories.  ExtDir.v (lib/fs/ext2/dir.c, file.c, both mounts):
      directories, paths, handles, mounting.  Ext2Spec.v states what the store
      promises ([ReadStore]) and what reading then gives; ExtDirSpec.v does so for
      directories and paths, Ext4Spec.v for extents.  ExtStore.v puts the block
      cache and the device under them, with a disk image on which the model runs.
    - Lz4.v (lib/external/lz4/lz4.c): the block decoder, pointer by pointer;
      Decompress.v (lib/decompress): LZ4 frames, the LZF and zlib loops and the
      table of methods.  Lz4Spec.v and DecompressSpec.v: where they write and what
      they make of a frame, over the logic of MemSpec.v for computations that
      write in one range.
    - BootImage.v (lib/linuxboot/linux_load.c, linuxboot_utils.c, fixed_boot.c,
      parts of lib/devicetree): the order of carveouts, the header of a boot
      image, extraction and loading from the built-in storage, over Decompress.v.
      BootImageSpec.v: its theorems.
    - NvBlob.v (lib/nvblob, lib/nvblob_bmp): blobs of images and of bitmaps, read
      where they are in memory, opened from a partition and decompressed.  Nct.v
      (lib/nct): the table of the board and the specification in it.  BlUpdate.v
      (lib/bootloader_update): writing the images of a blob to their partitions,
      with the callbacks of the platform.  NvBlobSpec.v and BlUpdateSpec.v hold
      their theorems.
    - MetadataDisk.v puts AbBoot.v on Partition.v on BlockDev.v.

    ** What the theorems show

    - A/B boot: selection is exactly the first slot of highest priority among
      the bootable ones; activation makes a slot the selected one; a flush never
      destroys the last good copy, whatever the storage does; loading falls back
      to the second copy; root file system retries end.
    - IVC: for every interleaving of the accesses, frames arrive in order, at most
      once and never more than fit, if no end resets the channel while one is in
      the ACK state; a schedule with such a reset that breaks the channel; the C
      operations are runs of the steps the safety theorem is about; resets converge.
    - Heap: first fit, coalescing, and what both leave of the free list; round
      trips; calloc's overflow check.
    - Sparse images: what is built expands to what was put in, in one call or
      in two; the loop ends except on a crc chunk.
    - Storage: the byte functions of a block device are reads and writes of one
      byte string, on every alignment and length, errors included; partitions do
      not disturb each other; what is published is what the table on the device
      says; the registry keeps its reference counts.  So the promise of the A/B
      update holds of the bytes of a disk.
    - Lists and cache: pointer operations are operations on sequences; behind
      the cache a caller sees one store of blocks, whatever is evicted.
    - File system layer: paths are normalised in place as if split and joined; a
      mount lives as long as a file or directory is open on it, if none is unmounted
      twice (the example [unmount_twice] does).
    - ext2 and ext4: the position of a block pointer is the block's number in the
      base of the pointers per block; a path is looked up component by component;
      a file opened by its path on a disk reads as its bytes, through the cache, in
      front of the blocks that need a second table.
      Where the code leaves the format (second tables, extents longer than the
      buffer, directories of more than a block) the theorems say what it does.
    - C library: word loops, engines and alignment cases copy and fill exactly the
      bytes asked for, also between overlapping ranges; string functions are
      functions on sequences; bounded copies stay in their bounds; [strtok] splits a
      string into its tokens.
    - Formatted output: the text of a format, truncated to the buffer and ended by
      a zero; numbers printed are read back by the number parser; the paddings
      that come out otherwise than in C.
    - Kernel command line: what is kept of a line of at most 2045 characters, which
      parameters are found in it, what is appended, and where a longer line leaves
      the buffer.
    - Decompression: whatever the input is, a method ends and writes only the
      output buffer; an LZ4 frame gives the contents of its blocks.
    - Boot images: whatever a header says, only the rooms for kernel and ramdisk
      are written; an image that is not compressed lies there byte for byte; the
      carveouts come out in order.
    - Blobs and the bootloader update: a blob put together from images is read back
      image by image; an update writes each partition once and behind what it
      depends on, whatever the single writes do, as long as no callback touches
      the blob, also when it is the first of a start and reads the specification of
      the board on its way; with 256 entries or more it never ends.
    - Utilities and error texts: table-driven against bit-serial crc, number
      parsing with saturation, writes inside the buffer.
    - What the code does not check is stated as theorems too: the slot count,
      the header space between IVC queues, the DMA fallback of the allocator,
      the fill value cut in two, missing texts, partition entries outside the
      checksum, requests whose end wraps, the fallback of the boot partition, a cache
      after a failed read, the second tables of ext2, the buffers of ext4.

    ** Bounds and fuel

    Loops over data recurse on the data.  The free list walks of Heap.v take
    [list_fuel] steps, proved enough for every consistent heap; the fill loop of
    Sparse.v takes its length divided by the local buffer's size and one turn;
    the main loop of [tegrabl_sparse_unsparse] takes its fuel as an argument,
    and twice the buffer's length and two turns are proved enough.  The walk over
    the devices in Partition.v takes as many steps as devices are registered,
    and the walks over lists as many as there are nodes, proved enough for every
    well-formed list.  The search in a directory block takes one step per byte and
    the walk along a path one per character, more than there are entries and
    components.  The formatter takes one step per character of its format and 64
    per number, the digits of the longest in base two.  The block decoder takes two turns more than there are bytes of
    input, as every turn but the last consumes one.

    ** Not modelled

    The list of partition writes to verify (CONFIG_ENABLE_RECOVERY_VERIFY_WRITE):
    no build file sets the option.  When a transfer fails half way the buffer of
    the caller is left as it was in the model, whatever part of it the code has
    filled.

    Drivers (src/drivers): register programming without a software contract
    that could be stated apart from the hardware.  src/lib/external and
    src/lib/libfdt are vendored; of them the LZ4 block decoder is modelled, inflate
    is a parameter of Decompress.v, and the code around libfdt (plugin handling,
    the device tree updates of the Linux boot) does little but call it.  Extlinux,
    network and removable boot are left out of the Linux boot, and the options
    CONFIG_ENABLE_L4T_RECOVERY, CONFIG_ENABLE_A_B_SLOT and CONFIG_ENABLE_DTB_OVERLAY
    of its loading are taken as unset.
    Console, debug and profiler code is output.  Cache maintenance and barriers
    have no effect on the one memory the models have. *)
From stdpp Require Export prelude list.
From Stdlib Require Export ZArith Lia.

#[global] Open Scope Z_scope.

(** ** Machine words

    A [w]-bit unsigned C integer is a [Z]; every operation that can leave the
    range is followed by the conversion the C type performs. *)

Definition wrapw (w x : Z) : Z := x mod 2 ^ w.

Abbreviation u8 := (wrapw 8).
Abbreviation u16 := (wrapw 16).
Abbreviation u32 := (wrapw 32).
Abbreviation u64 := (wrapw 64).

(** Two's complement reading of a [w]-bit pattern. *)
Definition signedw (w x : Z) : Z :=
  let y := wrapw w x in if y <? 2 ^ (w - 1) then y else y - 2 ^ w.

Abbreviation s32 := (signedw 32).
Abbreviation s64 := (signedw 64).

Definition in_word (w x : Z) : Prop := 0 <= x < 2 ^ w.

(** C truth values. *)
Definition truthy (x : Z) : bool := negb (x =? 0).

(** ** Outcomes of C code

    [Ret a]: normal return.  [Err e]: the function returns the error code [e]
    (a [tegrabl_error_t] or a negative errno).  [Halt]: control reaches a
    failed [TEGRABL_ASSERT] or [tegrabl_hang] and never returns.  [Undef]: the
    C code leaves the object it is allowed to access.  [Fuel]: the bound on a
    loop was too small (ruled out by the termination theorems). *)

Inductive outcome (A : Type) : Type :=
| Ret (a : A)
| Err (e : Z)
| Halt
| Undef
| Fuel.
Arguments Ret {A} a.
Arguments Err {A} e.
Arguments Halt {A}.
Arguments Undef {A}.
Arguments Fuel {A}.

(** Stateful computations. *)
Definition M (S A : Type) : Type := S -> outcome A * S.

Definition ret {S A} (a : A) : M S A := fun s => (Ret a, s).
Definition err {S A} (e : Z) : M S A := fun s => (Err e, s).
Definition halt {S A} : M S A := fun s => (Halt, s).
Definition undef {S A} : M S A := fun s => (Undef, s).
Definition nofuel {S A} : M S A := fun s => (Fuel, s).

Definition bind {S A B} (c : M S A) (k : A -> M S B) : M S B := fun s =>
  match c s with
  | (Ret a, s') => k a s'
  | (Err e, s') => (Err e, s')
  | (Halt, s') => (Halt, s')
  | (Undef, s') => (Undef, s')
  | (Fuel, s') => (Fuel, s')
  end.

Definition get {S} : M S S := fun s => (Ret s, s).
Definition put {S} (s : S) : M S unit := fun _ => (Ret tt, s).
Definition gets {S A} (f : S -> A) : M S A := fun s => (Ret (f s), s).
Definition modify {S} (f : S -> S) : M S unit := fun s => (Ret tt, f s).

(** The caller looks at the returned error code: [0] is [TEGRABL_NO_ERROR]. *)
Definition code {S A} (c : M S A) : M S (A + Z) := fun s =>
  match c s with
  | (Ret a, s') => (Ret (inl a), s')
  | (Err e, s') => (Ret (inr e), s')
  | (Halt, s') => (Halt, s')
  | (Undef, s') => (Undef, s')
  | (Fuel, s') => (Fuel, s')
  end.

(** An error code is rewritten on its way up ([TEGRABL_SET_HIGHEST_MODULE]). *)
Definition map_err {S A} (f : Z -> Z) (c : M S A) : M S A := fun s =>
  match c s with
  | (Err e, s') => (Err (f e), s')
  | r => r
  end.

(** A pure fallible result used inside a stateful function. *)
Definition lift {S A} (o : outcome A) : M S A := fun s => (o, s).

Declare Scope cboot_scope.
Delimit Scope cboot_scope with cboot.
#[global] Open Scope cboot_scope.

Notation "'let!' x ':=' c 'in' k" := (bind c (fun x => k))
  (at level 10, x pattern, c at level 100, k at level 200,
   format "'[v' 'let!'  x  ':='  c  'in' '/' k ']'") : cboot_scope.
Notation "c ';;;' k" := (bind c (fun _ => k))
  (at level 199, right associativity, format "'[v' c ';;;' '/' k ']'") : cboot_scope.

Definition when {S} (b : bool) (c : M S unit) : M S unit := if b then c else ret tt.
(** [if (b) { error = e; goto fail; }] *)
Definition fail_if {S} (b : bool) (e : Z) : M S unit := if b then err e else ret tt.
(** [TEGRABL_ASSERT(b)] *)
Definition assert {S} (b : bool) : M S unit := if b then ret tt else halt.

(** Fallible results without a state. *)
Definition obind {A B} (c : outcome A) (k : A -> outcome B) : outcome B :=
  match c with
  | Ret a => k a
  | Err e => Err e
  | Halt => Halt
  | Undef => Undef
  | Fuel => Fuel
  end.
Notation "'let?' x ':=' c 'in' k" := (obind c (fun x => k))
  (at level 10, x pattern, c at level 100, k at level 200) : cboot_scope.

(** ** Byte buffers

    Memory the code overlays with packed structs is a list of bytes; a field
    is read and written at its byte offset, little endian.  Reading past the
    end gives [0] here: accessors that can leave the buffer check first. *)

Definition ld8 (b : list Z) (o : nat) : Z := default 0 (b !! o).

Fixpoint ldn (n : nat) (b : list Z) (o : nat) : Z :=
  match n with
  | O => 0
  | S n' => ld8 b o + 256 * ldn n' b (S o)
  end.

Abbreviation ld16 := (ldn 2).
Abbreviation ld32 := (ldn 4).
Abbreviation ld64 := (ldn 8).

Definition st8 (b : list Z) (o : nat) (v : Z) : list Z := <[o := v mod 256]> b.

Fixpoint stn (n : nat) (b : list Z) (o : nat) (v : Z) : list Z :=
  match n with
  | O => b
  | S n' => stn n' (st8 b o v) (S o) (v / 256)
  end.

Abbreviation st16 := (stn 2).
Abbreviation st32 := (stn 4).
Abbreviation st64 := (stn 8).

Definition is_byte (x : Z) : Prop := 0 <= x < 256.
Definition bytes (b : list Z) : Prop := Forall is_byte b.

(** [memcpy(b + o, src, length src)] *)
Definition blit (b : list Z) (o : nat) (src : list Z) : list Z :=
  take o b ++ src ++ drop (o + length src) b.

(** The [n] bytes at [b + o]. *)
Definition slice (b : list Z) (o n : nat) : list Z := take n (drop o b).

(** ** Bit fields of registers and error codes

    [BITFIELD_ONES], [BITFIELD_MASK], [BITFIELD_SET] and [BITFIELD_GET] of
    include/lib/tegrabl_utils.h: the masks are [unsigned long] and the
    variable that receives the result is 32 bits wide. *)

Definition BITFIELD_ONES (width : Z) : Z := Z.shiftl 1 width - 1.
Definition BITFIELD_MASK (width shift : Z) : Z := Z.shiftl (BITFIELD_ONES width) shift.
Definition BITFIELD_SET (var value width shift : Z) : Z :=
  let var := u32 (Z.land var (Z.lnot (BITFIELD_MASK width shift))) in
  u32 (Z.lor var (Z.shiftl (Z.land value (BITFIELD_ONES width)) shift)).
Definition BITFIELD_GET (value width shift : Z) : Z :=
  Z.shiftr (Z.land value (BITFIELD_MASK width shift)) shift.

(** ** Automation *)

Create HintDb cboot discriminated.
Create Rewrite HintDb cbuf.

Lemma wrapw_range w x : 0 <= w -> in_word w (wrapw w x).
Proof. intros Hw. apply Z.mod_pos_bound, Z.pow_pos_nonneg; lia. Qed.

Lemma wrapw_small w x : in_word w x -> wrapw w x = x.
Proof. apply Z.mod_small. Qed.

Lemma wrapw_idem w x : wrapw w (wrapw w x) = wrapw w x.
Proof.
  unfold wrapw. destruct (decide (2 ^ w = 0)) as [-> | Hn].
  - by rewrite !Z.mod_0_r.
  - by apply Z.mod_mod.
Qed.

Lemma bind_ret_l {S A B} (a : A) (k : A -> M S B) s : bind (ret a) k s = k a s.
Proof. reflexivity. Qed.

(** Running the first call of a sequence. *)
Lemma bind_get {S B} (k : S -> M S B) s : bind get k s = k s s.
Proof. reflexivity. Qed.
Lemma bind_modify {S B} f (k : unit -> M S B) s : bind (modify f) k s = k tt (f s).
Proof. reflexivity. Qed.
Lemma bind_run {S A B} (c : M S A) (k : A -> M S B) s a s' : c s = (Ret a, s') -> bind c k s = k a s'.
Proof. unfold bind. by intros ->. Qed.
Lemma code_run {S A} (c : M S A) s a s' : c s = (Ret a, s') -> code c s = (Ret (inl a), s').
Proof. intros E. unfold code. by rewrite E. Qed.
Lemma bind_assoc {S A B C} (x : M S A) (k : A -> M S B) (k' : B -> M S C) s : bind (bind x k) k' s = bind x (fun a => bind (k a) k') s.
Proof. unfold bind. by destruct (x s) as [[a| | | |] s1]. Qed.
Lemma bind_unit {S} (x : M S unit) s : bind x (fun _ => ret tt) s = x s.
Proof. unfold bind. by destruct (x s) as [[[]| | | |] ?]. Qed.
Lemma bind_same {S A B} (x y : M S A) (k k' : A -> M S B) s : x s = y s -> (forall a s1, y s = (Ret a, s1) -> k a s1 = k' a s1) -> bind x k s = bind y k' s.
Proof. intros E Hk. unfold bind. rewrite E. destruct (y s) as [[a| | | |] s1]; try done. by apply Hk. Qed.
Lemma bind_lift {S A B} (o : outcome A) (k : A -> M S B) s a : o = Ret a -> bind (lift o) k s = k a s.
Proof. by intros ->. Qed.
Lemma bind_fail_if {S B} b e (k : unit -> M S B) s : b = false -> bind (fail_if b e) k s = k tt s.
Proof. by intros ->. Qed.

Lemma bind_inv {S A B} (c : M S A) (k : A -> M S B) s b s' :
  bind c k s = (Ret b, s') ->
  exists a s1, c s = (Ret a, s1) /\ k a s1 = (Ret b, s').
Proof. unfold bind. destruct (c s) as [[] ?]; naive_solver. Qed.

Lemma bind_err_inv {S A B} (c : M S A) (k : A -> M S B) s e s' :
  bind c k s = (Err e, s') ->
  c s = (Err e, s') \/ exists a s1, c s = (Ret a, s1) /\ k a s1 = (Err e, s').
Proof. unfold bind. destruct (c s) as [[] ?]; naive_solver. Qed.

Lemma ld8_st8_same b o v : (o < length b)%nat -> ld8 (st8 b o v) o = v mod 256.
Proof. intros. unfold ld8, st8. by rewrite list_lookup_insert_eq. Qed.

Lemma ld8_st8_ne b o o' v : o <> o' -> ld8 (st8 b o v) o' = ld8 b o'.
Proof. intros. unfold ld8, st8. by rewrite list_lookup_insert_ne. Qed.

Lemma length_st8 b o v : length (st8 b o v) = length b.
Proof. apply length_insert. Qed.

Lemma length_stn n b o v : length (stn n b o v) = length b.
Proof. revert b o v. induction n; intros; simpl; [done|]. by rewrite IHn, length_st8. Qed.

Lemma ld8_stn_ne n b o v o' : (o' < o \/ o + n <= o')%nat -> ld8 (stn n b o v) o' = ld8 b o'.
Proof.
  revert b o v. induction n; intros b o v H; simpl; [done|].
  rewrite IHn by lia. apply ld8_st8_ne. lia.
Qed.

Lemma ldn_ext n b b' o :
  (forall i, (o <= i < o + n)%nat -> ld8 b i = ld8 b' i) -> ldn n b o = ldn n b' o.
Proof.
  revert o. induction n; intros o H; simpl; [done|].
  rewrite H by lia. f_equal. f_equal. apply IHn. intros. apply H. lia.
Qed.

Lemma ldn_stn_ne n m b o v o' :
  (o' + m <= o \/ o + n <= o')%nat -> ldn m (stn n b o v) o' = ldn m b o'.
Proof. intros H. apply ldn_ext. intros. apply ld8_stn_ne. lia. Qed.

Lemma ldn_st8_ne n b o v o' :
  (o' + n <= o \/ o < o')%nat -> ldn n (st8 b o v) o' = ldn n b o'.
Proof. intros H. apply ldn_ext. intros. apply ld8_st8_ne. lia. Qed.

Lemma ldn_stn_same n b o v :
  (o + n <= length b)%nat -> ldn n (stn n b o v) o = v mod 256 ^ Z.of_nat n.
Proof.
  revert b o v. induction n; intros b o v H.
  - simpl. by rewrite Z.mod_1_r.
  - cbn [stn ldn]. rewrite ld8_stn_ne by lia. rewrite ld8_st8_same by lia.
    rewrite IHn by (rewrite length_st8; lia).
    rewrite Nat2Z.inj_succ, Z.pow_succ_r by lia.
    rewrite Z.rem_mul_r by lia. lia.
Qed.

Lemma ld8_ge b o : (length b <= o)%nat -> ld8 b o = 0.
Proof. intros. unfold ld8. by rewrite lookup_ge_None_2. Qed.

Lemma ld8_byte b o : bytes b -> is_byte (ld8 b o).
Proof.
  intros Hb. unfold ld8. destruct (b !! o) as [x|] eqn:E; simpl.
  - by eapply Forall_lookup_1.
  - unfold is_byte. lia.
Qed.

Lemma ldn_range n b o : bytes b -> 0 <= ldn n b o < 256 ^ Z.of_nat n.
Proof.
  intros Hb. revert o. induction n; intros o.
  - simpl. lia.
  - cbn [ldn]. rewrite Nat2Z.inj_succ, Z.pow_succ_r by lia.
    pose proof (ld8_byte b o Hb) as H1. specialize (IHn (S o)). unfold is_byte in H1. lia.
Qed.

Lemma slice_ext b b' o n :
  length b = length b' ->
  (forall i, (o <= i < o + n)%nat -> ld8 b i = ld8 b' i) -> slice b o n = slice b' o n.
Proof.
  intros Hl H. apply list_eq. intros i. unfold slice.
  destruct (decide (i < n)%nat); cycle 1.
  { by rewrite !lookup_take_ge by lia. }
  rewrite !lookup_take_lt, !lookup_drop by lia. specialize (H (o + i)%nat ltac:(lia)).
  unfold ld8 in H. destruct (decide (o + i < length b)%nat).
  - destruct (lookup_lt_is_Some_2 b (o + i)) as [x Hx]; [done|].
    destruct (lookup_lt_is_Some_2 b' (o + i)) as [y Hy]; [lia|].
    rewrite Hx, Hy in *. simpl in H. by f_equal.
  - by rewrite !lookup_ge_None_2 by lia.
Qed.

Lemma length_slice b o n : length (slice b o n) = Nat.min n (length b - o).
Proof. unfold slice. rewrite length_take, length_drop. lia. Qed.

Lemma slice_blit b o src : (o + length src <= length b)%nat -> slice (blit b o src) o (length src) = src.
Proof.
  intros H. unfold slice, blit. rewrite drop_app_ge by (rewrite length_take; lia).
  rewrite length_take, Nat.min_l by lia. rewrite Nat.sub_diag, drop_0. by rewrite take_app_length.
Qed.

Lemma lookup_blit b o src i : (o + length src <= length b)%nat ->
  blit b o src !! i = if decide (o <= i < o + length src)%nat then src !! (i - o)%nat else b !! i.
Proof.
  intros H. unfold blit. destruct (decide (i < o)%nat).
  { rewrite lookup_app_l by (rewrite length_take; lia). rewrite lookup_take_lt by lia.
    by destruct (decide _); [lia|]. }
  rewrite lookup_app_r by (rewrite length_take; lia). rewrite length_take, Nat.min_l by lia.
  destruct (decide _) as [Hi|Hi].
  - by rewrite lookup_app_l by lia.
  - rewrite lookup_app_r by lia. rewrite lookup_drop. f_equal. lia.
Qed.

Lemma lookup_slice b o n i : slice b o n !! i = if decide (i < n)%nat then b !! (o + i)%nat else None.
Proof.
  unfold slice. destruct (decide _).
  - by rewrite lookup_take_lt, lookup_drop by done.
  - by rewrite lookup_take_ge by lia.
Qed.

Lemma slice_blit_other b o src o' n :
  (o + length src <= length b)%nat -> (o' + n <= o \/ o + length src <= o')%nat ->
  slice (blit b o src) o' n = slice b o' n.
Proof.
  intros Hl Ho. apply list_eq. intros i. rewrite !lookup_slice. destruct (decide _); [|done].
  rewrite lookup_blit by done. by destruct (decide _); [lia|].
Qed.

Lemma take_slice b o n m : (m <= n)%nat -> take m (slice b o n) = slice b o m.
Proof. intros. unfold slice. rewrite take_take. f_equal. lia. Qed.

Lemma length_blit b o src : (o + length src <= length b)%nat -> length (blit b o src) = length b.
Proof. intros H. unfold blit. rewrite !length_app, length_take, length_drop. lia. Qed.

(** Little-endian encoding, and stores as copies of it. *)
Fixpoint le (n : nat) (v : Z) : list Z :=
  match n with O => [] | S n' => v mod 256 :: le n' (v / 256) end.

Lemma length_le n v : length (le n v) = n.
Proof. revert v. induction n; intros; simpl; [done|]. by rewrite IHn. Qed.

Lemma bytes_le n v : bytes (le n v).
Proof. revert v. induction n; intros; simpl; constructor; [apply Z.mod_pos_bound; lia|apply IHn]. Qed.

Lemma stn_blit n b o v : (o + n <= length b)%nat -> stn n b o v = blit b o (le n v).
Proof.
  revert b o v. induction n as [|n IH]; intros b o v H; cbn [stn le].
  - unfold blit. simpl. by rewrite Nat.add_0_r, take_drop.
  - rewrite IH by (rewrite length_st8; lia). unfold st8. apply list_eq. intros i.
    rewrite !lookup_blit by (rewrite ?length_insert; simpl; rewrite ?length_le; lia).
    simpl. rewrite length_le. destruct (decide (i = o)) as [->|Hi].
    + destruct (decide (S o <= o < S (o + n))%nat); [lia|]. destruct (decide (o <= o < o + S n)%nat); [|lia].
      rewrite Nat.sub_diag. apply list_lookup_insert_eq. lia.
    + destruct (decide (S o <= i < S (o + n))%nat); destruct (decide (o <= i < o + S n)%nat); try lia.
      * by replace (i - o)%nat with (S (i - S o)) by lia.
      * by rewrite list_lookup_insert_ne by lia.
Qed.

(** Two writes, one behind the other. *)
Lemma blit_blit_next b o x y :
  (o + length x + length y <= length b)%nat -> blit (blit b o x) (o + length x) y = blit b o (x ++ y).
Proof.
  intros H. apply list_eq. intros i.
  rewrite (lookup_blit (blit b o x)) by (rewrite length_blit by lia; lia).
  rewrite (lookup_blit b o x) by lia. rewrite (lookup_blit b o (x ++ y)) by (rewrite length_app; lia).
  rewrite length_app.
  destruct (decide (o <= i < o + (length x + length y))%nat).
  - destruct (decide _).
    + rewrite lookup_app_r by lia. f_equal. lia.
    + destruct (decide _); [|lia]. by rewrite lookup_app_l by lia.
  - destruct (decide _); [lia|]. by destruct (decide _); [lia|].
Qed.

Lemma blit_app a b c src : length b = length src -> blit (a ++ b ++ c) (length a) src = a ++ src ++ c.
Proof.
  intros H. unfold blit. rewrite take_app_length. rewrite <- H.
  rewrite drop_app_ge by lia. replace (length a + length b - length a)%nat with (length b) by lia.
  by rewrite drop_app_length.
Qed.

Lemma stn_app n a b c v : length b = n -> stn n (a ++ b ++ c) (length a) v = a ++ le n v ++ c.
Proof.
  intros H. rewrite stn_blit by (rewrite !length_app; lia). apply blit_app. by rewrite length_le.
Qed.

Lemma ld8_app a b o : ld8 (a ++ b) (length a + o) = ld8 b o.
Proof. unfold ld8. rewrite lookup_app_r by lia. do 2 f_equal. lia. Qed.

Lemma ldn_app n a b o : ldn n (a ++ b) (length a + o) = ldn n b o.
Proof. revert o. induction n; intros o; simpl; [done|]. by rewrite ld8_app, <- Nat.add_succ_r, IHn. Qed.

Lemma ldn_app_l n a b o : (o + n <= length a)%nat -> ldn n (a ++ b) o = ldn n a o.
Proof.
  intros H. apply ldn_ext. intros i Hi. unfold ld8. by rewrite lookup_app_l by lia.
Qed.

Lemma ldn_le n v c : ldn n (le n v ++ c) 0 = v mod 256 ^ Z.of_nat n.
Proof.
  revert v. induction n as [|n IH]; intros v.
  - simpl. by rewrite Z.mod_1_r.
  - cbn [le ldn app]. change (v mod 256 :: le n (v / 256) ++ c) with ([v mod 256] ++ (le n (v / 256) ++ c)).
    change 1%nat with (length [(v mod 256)%Z] + 0)%nat at 1. rewrite ldn_app, IH.
    unfold ld8. cbn [lookup list_lookup app]. simpl.
    rewrite Nat2Z.inj_succ, Z.pow_succ_r by lia. rewrite Z.rem_mul_r by lia. lia.
Qed.

(** A field of a packed struct behind the fields [a]. *)
Lemma ldn_field n a v c : ldn n (a ++ le n v ++ c) (length a) = v mod 256 ^ Z.of_nat n.
Proof. rewrite <- (Nat.add_0_r (length a)) at 1. by rewrite ldn_app, ldn_le. Qed.

Lemma take_blit b o src : (o <= length b)%nat -> take o (blit b o src) = take o b.
Proof. intros H. unfold blit. rewrite take_app_le by (rewrite length_take; lia). by rewrite take_take, Nat.min_id. Qed.

Lemma bytes_slice b o n : bytes b -> bytes (slice b o n).
Proof. intros. by apply Forall_take, Forall_drop. Qed.

Lemma bytes_dec b : forallb (fun x => (0 <=? x) && (x <? 256)) b = true -> bytes b.
Proof.
  intros Hb. apply Forall_forall. intros x Hx. rewrite forallb_forall in Hb.
  specialize (Hb x (proj1 (list_elem_of_In _ _) Hx)). unfold is_byte. lia.
Qed.

Lemma bytes_st8 b o v : bytes b -> bytes (st8 b o v).
Proof.
  intros. apply Forall_insert; [done|]. apply Z.mod_pos_bound. lia.
Qed.

Lemma bytes_stn n b o v : bytes b -> bytes (stn n b o v).
Proof. revert b o v. induction n; intros; simpl; [done|]. apply IHn. by apply bytes_st8. Qed.

#[export] Hint Resolve wrapw_range bytes_st8 bytes_stn ld8_byte : cboot.
#[export] Hint Rewrite length_st8 length_stn @length_app @length_take @length_drop : cbuf.

(** Case analysis on the tests of a definition. *)
Ltac case_if :=
  match goal with
  | |- context [if ?b then _ else _] => let E := fresh "E" in destruct b eqn:E
  | H : context [if ?b then _ else _] |- _ => let E := fresh "E" in destruct b eqn:E
  end.

(** Boolean comparisons of [Z] to propositions. *)
Ltac zbool :=
  repeat match goal with
  | H : (_ =? _) = true |- _ => apply Z.eqb_eq in H
  | H : (_ =? _) = false |- _ => apply Z.eqb_neq in H
  | H : (_ <? _) = true |- _ => apply Z.ltb_lt in H
  | H : (_ <? _) = false |- _ => apply Z.ltb_ge in H
  | H : (_ <=? _) = true |- _ => apply Z.leb_le in H
  | H : (_ <=? _) = false |- _ => apply Z.leb_gt in H
  | H : _ && _ = true |- _ => apply andb_true_iff in H; destruct H
  | H : _ || _ = false |- _ => apply orb_false_iff in H; destruct H
  | H : negb _ = true |- _ => apply negb_true_iff in H
  | H : negb _ = false |- _ => apply negb_false_iff in H
  | H : truthy _ = true |- _ => unfold truthy in H
  | H : truthy _ = false |- _ => unfold truthy in H
  end.

(** ** Bit field lemmas *)

Lemma ones_eq w : BITFIELD_ONES w = Z.ones w.
Proof. unfold BITFIELD_ONES, Z.ones. lia. Qed.

Lemma testbit_mask w s i : 0 <= w -> 0 <= s -> 0 <= i ->
  Z.testbit (BITFIELD_MASK w s) i = (s <=? i) && (i <? s + w).
Proof.
  intros. unfold BITFIELD_MASK. rewrite ones_eq, Z.shiftl_spec by lia.
  destruct (Z.leb_spec s i); simpl.
  - rewrite Z.testbit_ones_nonneg by lia. apply eq_iff_eq_true. rewrite !Z.ltb_lt. lia.
  - apply Z.testbit_neg_r. lia.
Qed.

Lemma testbit_wrapw w x i : 0 <= w -> 0 <= i ->
  Z.testbit (wrapw w x) i = (i <? w) && Z.testbit x i.
Proof.
  intros. unfold wrapw. destruct (Z.ltb_spec i w); simpl.
  - by rewrite Z.mod_pow2_bits_low.
  - rewrite Z.mod_pow2_bits_high by lia. done.
Qed.

Lemma testbit_set var v w s i : 0 <= w -> 0 <= s -> 0 <= i ->
  Z.testbit (BITFIELD_SET var v w s) i =
  (i <? 32) && (if (s <=? i) && (i <? s + w) then Z.testbit v (i - s) else Z.testbit var i).
Proof.
  intros. unfold BITFIELD_SET. rewrite testbit_wrapw, Z.lor_spec, testbit_wrapw by lia.
  rewrite Z.land_spec, Z.lnot_spec, testbit_mask, Z.shiftl_spec, Z.land_spec by lia.
  rewrite ones_eq. destruct (Z.ltb_spec i 32); simpl; [|done].
  destruct (Z.leb_spec s i); simpl.
  - rewrite Z.testbit_ones_nonneg by lia.
    destruct (Z.ltb_spec i (s + w)); destruct (Z.ltb_spec (i - s) w); simpl; try lia.
    + by rewrite andb_false_r, andb_true_r.
    + by rewrite andb_false_r, orb_false_r, andb_true_r.
  - rewrite andb_true_r, (Z.testbit_neg_r v) by lia. by rewrite orb_false_r.
Qed.

Lemma BITFIELD_GET_bits x w s : 0 <= w -> 0 <= s ->
  BITFIELD_GET x w s = Z.shiftr x s mod 2 ^ w.
Proof.
  intros. apply Z.bits_inj'. intros i Hi. unfold BITFIELD_GET.
  rewrite Z.shiftr_spec, Z.land_spec, testbit_mask by lia.
  destruct (Z.ltb_spec i w).
  - rewrite Z.mod_pow2_bits_low, Z.shiftr_spec by lia.
    destruct (Z.leb_spec s (i + s)); destruct (Z.ltb_spec (i + s) (s + w)); try lia.
    by rewrite andb_true_r.
  - rewrite Z.mod_pow2_bits_high by lia.
    destruct (Z.ltb_spec (i + s) (s + w)); lia.
Qed.

Lemma BITFIELD_GET_SET_same var v w s : 0 <= w -> 0 <= s -> s + w <= 32 ->
  BITFIELD_GET (BITFIELD_SET var v w s) w s = v mod 2 ^ w.
Proof.
  intros. rewrite BITFIELD_GET_bits by lia. apply Z.bits_inj'. intros i Hi.
  destruct (Z.ltb_spec i w).
  - rewrite !Z.mod_pow2_bits_low, Z.shiftr_spec, testbit_set by lia.
    destruct (Z.ltb_spec (i + s) 32); [|lia].
    destruct (Z.leb_spec s (i + s)); [|lia]. destruct (Z.ltb_spec (i + s) (s + w)); [|lia].
    simpl. f_equal. lia.
  - by rewrite !Z.mod_pow2_bits_high by lia.
Qed.

Lemma BITFIELD_GET_SET_other var v w s w' s' :
  0 <= w -> 0 <= s -> 0 <= w' -> 0 <= s' -> s' + w' <= 32 ->
  s + w <= s' \/ s' + w' <= s ->
  BITFIELD_GET (BITFIELD_SET var v w s) w' s' = BITFIELD_GET var w' s'.
Proof.
  intros. rewrite !BITFIELD_GET_bits by lia. apply Z.bits_inj'. intros i Hi.
  destruct (Z.ltb_spec i w').
  - rewrite !Z.mod_pow2_bits_low, !Z.shiftr_spec, testbit_set by lia.
    destruct (Z.ltb_spec (i + s') 32); [|lia].
    destruct (Z.leb_spec s (i + s')); destruct (Z.ltb_spec (i + s') (s + w)); simpl; done || lia.
  - by rewrite !Z.mod_pow2_bits_high by lia.
Qed.

Lemma BITFIELD_SET_range var v w s : in_word 32 (BITFIELD_SET var v w s).
Proof. apply wrapw_range. lia. Qed.

Lemma BITFIELD_GET_range x w s : 0 <= w -> 0 <= s -> 0 <= BITFIELD_GET x w s < 2 ^ w.
Proof. intros. rewrite BITFIELD_GET_bits by done. apply Z.mod_pos_bound. apply Z.pow_pos_nonneg; lia. Qed.

(** The [(x >> s) & ones] form of a field read. *)
Lemma field_get_land x w s : 0 <= w -> 0 <= s ->
  Z.land (Z.shiftr x s) (Z.ones w) = BITFIELD_GET x w s.
Proof. intros. by rewrite BITFIELD_GET_bits, Z.land_ones by lia. Qed.

(** The [(x & ~mask) | ((v & ones) << s)] form of a field write, converted to
    32 bits by the assignment. *)
Lemma field_set_land x v w s : 0 <= w -> 0 <= s ->
  u32 (Z.lor (Z.land x (Z.lnot (Z.shiftl (Z.ones w) s))) (Z.shiftl (Z.land v (Z.ones w)) s)) =
  BITFIELD_SET x v w s.
Proof.
  intros. unfold BITFIELD_SET, BITFIELD_MASK. rewrite <- ones_eq. apply Z.bits_inj'. intros i Hi.
  rewrite !testbit_wrapw, !Z.lor_spec, testbit_wrapw by lia.
  destruct (i <? 32); [|done]. reflexivity.
Qed.

Lemma in_word_bits w x : 0 <= w -> in_word w x <-> x = wrapw w x.
Proof.
  intros Hw. split; [intros H; by rewrite wrapw_small|]. intros ->. by apply wrapw_range.
Qed.

Lemma in_word_lxor w a b : 0 <= w -> in_word w a -> in_word w b -> in_word w (Z.lxor a b).
Proof.
  intros Hw Ha Hb. apply in_word_bits in Ha, Hb; [|done..]. apply in_word_bits; [done|].
  apply Z.bits_inj'. intros i Hi. rewrite testbit_wrapw, Z.lxor_spec by lia.
  destruct (Z.ltb_spec i w); [done|]. rewrite Ha, Hb, !testbit_wrapw by lia.
  by destruct (Z.ltb_spec i w); [lia|].
Qed.

Lemma in_word_shiftr w a n : 0 <= w -> 0 <= n -> in_word w a -> in_word w (Z.shiftr a n).
Proof.
  intros Hw Hn Ha. unfold in_word in *. rewrite Z.shiftr_div_pow2 by lia.
  assert (0 < 2 ^ n) by (apply Z.pow_pos_nonneg; lia).
  split; [apply Z.div_pos; lia|]. apply Z.div_lt_upper_bound; nia.
Qed.

(** ** Relations a computation keeps

    [keeps R c]: whatever its outcome, [c] relates the state before to the
    state after by [R]. *)
Definition keeps {S A} (R : S -> S -> Prop) (c : M S A) : Prop := forall s, R s (c s).2.

Create HintDb keeps.

Section Keeps.
Context {S : Type} (R : S -> S -> Prop) `{!PreOrder R}.

Lemma keeps_ret {A} (a : A) : keeps R (ret a).
Proof. intros s. reflexivity. Qed.
Lemma keeps_err {A} e : keeps R (@err S A e).
Proof. intros s. reflexivity. Qed.
Lemma keeps_halt {A} : keeps R (@halt S A).
Proof. intros s. reflexivity. Qed.
Lemma keeps_undef {A} : keeps R (@undef S A).
Proof. intros s. reflexivity. Qed.
Lemma keeps_nofuel {A} : keeps R (@nofuel S A).
Proof. intros s. reflexivity. Qed.
Lemma keeps_get : keeps R get.
Proof. intros s. reflexivity. Qed.
Lemma keeps_gets {A} (f : S -> A) : keeps R (gets f).
Proof. intros s. reflexivity. Qed.
Lemma keeps_lift {A} (o : outcome A) : keeps R (lift o).
Proof. intros s. reflexivity. Qed.
Lemma keeps_modify f : (forall s, R s (f s)) -> keeps R (modify f).
Proof. intros Hf s. apply Hf. Qed.
Lemma keeps_bind {A B} (c : M S A) (k : A -> M S B) :
  keeps R c -> (forall a, keeps R (k a)) -> keeps R (bind c k).
Proof.
  intros Hc Hk s. unfold bind. specialize (Hc s). destruct (c s) as [[a|e| | |] s']; simpl in *; try done.
  etrans; [exact Hc|apply Hk].
Qed.
Lemma keeps_code {A} (c : M S A) : keeps R c -> keeps R (code c).
Proof. intros Hc s. unfold code. specialize (Hc s). by destruct (c s) as [[] ?]. Qed.
Lemma keeps_map_err {A} f (c : M S A) : keeps R c -> keeps R (map_err f c).
Proof. intros Hc s. unfold map_err. specialize (Hc s). by destruct (c s) as [[] ?]. Qed.
Lemma keeps_when b c : keeps R c -> keeps R (when b c).
Proof. intros. destruct b; [done|apply keeps_ret]. Qed.
Lemma keeps_assert b : keeps R (assert b).
Proof. destruct b; [apply keeps_ret|apply keeps_halt]. Qed.
Lemma keeps_fail_if b e : keeps R (fail_if b e).
Proof. destruct b; [apply keeps_err|apply keeps_ret]. Qed.
End Keeps.

#[export] Hint Resolve keeps_ret keeps_err keeps_halt keeps_undef keeps_nofuel keeps_get keeps_gets
  keeps_lift keeps_code keeps_map_err keeps_when keeps_assert keeps_fail_if : keeps.

(** Splits a computation into its calls. *)
Ltac keeps_step :=
  match goal with
  | |- keeps _ (bind _ _) =>
      let a := fresh "a" in
      first [apply keeps_bind; [exact _ | | intros a] | apply keeps_bind; [| intros a]]
  | |- keeps _ (modify _) => apply keeps_modify; intros ?
  | |- keeps _ (let '(_, _) := ?x in _) => destruct x
  | |- keeps _ (match ?x with _ => _ end) => destruct x
  | |- keeps _ (if ?b then _ else _) => destruct b
  | |- keeps _ (let x := _ in _) => cbv zeta
  | |- keeps _ _ => solve [eauto with keeps typeclass_instances]
  | |- keeps _ (code _) => apply keeps_code
  | |- keeps _ (map_err _ _) => apply keeps_map_err
  | |- keeps _ (when _ _) => apply keeps_when; try exact _
  end.
Ltac keeps_tac := repeat keeps_step.

(** ** Postconditions of a computation

    [wp c Q s]: [Q] holds of the outcome and the final state of [c] run from
    [s]. *)
Definition wp {S A} (c : M S A) (Q : outcome A -> S -> Prop) (s : S) : Prop := Q (c s).1 (c s).2.

(** An outcome other than [Ret], at another type. *)
Definition recast {A B} (r : outcome A) : outcome B :=
  match r with Ret _ => Undef | Err e => Err e | Halt => Halt | Undef => Undef | Fuel => Fuel end.

Lemma wp_bind {S A B} (c : M S A) (k : A -> M S B) Q s :
  wp c (fun r s' => match r with Ret a => wp (k a) Q s' | _ => Q (recast r) s' end) s ->
  wp (bind c k) Q s.
Proof. unfold wp, bind. by destruct (c s) as [[] ?]. Qed.

Lemma wp_mono {S A} (c : M S A) (Q Q' : outcome A -> S -> Prop) s :
  wp c Q s -> (forall r s', Q r s' -> Q' r s') -> wp c Q' s.
Proof. unfold wp. auto. Qed.

Lemma wp_elim {S A} (c : M S A) Q s r s' : wp c Q s -> c s = (r, s') -> Q r s'.
Proof. unfold wp. intros Hq E. by rewrite E in Hq. Qed.

Lemma wp_code {S A} (c : M S A) Q s :
  wp c (fun r s' => match r with Ret a => Q (Ret (inl a)) s' | Err e => Q (Ret (inr e)) s'
                    | _ => Q (recast r) s' end) s ->
  wp (code c) Q s.
Proof. unfold wp, code. by destruct (c s) as [[] ?]. Qed.

Lemma wp_map_err {S A} f (c : M S A) Q s :
  wp c (fun r s' => match r with Err e => Q (Err (f e)) s' | _ => Q r s' end) s ->
  wp (map_err f c) Q s.
Proof. unfold wp, map_err. by destruct (c s) as [[] ?]. Qed.

Lemma recast_ret {A B} (r : outcome A) (b : B) : recast r <> Ret b.
Proof. by destruct r. Qed.
