(* ===== verification/Interfaces.v ===== *)
(** * Interfaces between the components

    What one component relies on in another, as classes: the client's
    definitions and theorems are stated against the class.  Code that is not
    part of the repository (the scratch registers of the SoC) appears only
    here, with the documented behaviour of its functions as laws. *)
From S2P Require Import Prelude.

(** ** Scratch registers (SoC code)

    Two 32-bit registers that keep their value over a warm reset. *)
Class SocScratch (W : Type) := {
  tegrabl_get_boot_slot_reg : W -> Z;
  tegrabl_set_boot_slot_reg : Z -> W -> W;
  tegrabl_get_rootfs_slot_reg : W -> Z;
  tegrabl_set_rootfs_slot_reg : Z -> W -> W;
}.

(** A register returns the value last written, and the two registers are
    independent. *)
Class SocScratchLaws (W : Type) `{SocScratch W} := {
  boot_reg_range w : in_word 32 (tegrabl_get_boot_slot_reg w);
  rootfs_reg_range w : in_word 32 (tegrabl_get_rootfs_slot_reg w);
  get_set_boot v w : in_word 32 v -> tegrabl_get_boot_slot_reg (tegrabl_set_boot_slot_reg v w) = v;
  get_set_rootfs v w : in_word 32 v -> tegrabl_get_rootfs_slot_reg (tegrabl_set_rootfs_slot_reg v w) = v;
  get_boot_set_rootfs v w : tegrabl_get_boot_slot_reg (tegrabl_set_rootfs_slot_reg v w) = tegrabl_get_boot_slot_reg w;
  get_rootfs_set_boot v w : tegrabl_get_rootfs_slot_reg (tegrabl_set_boot_slot_reg v w) = tegrabl_get_rootfs_slot_reg w;
}.

(** ** The partition API

    The calls of lib/partition_manager a client uses.  [H] is the
    [struct tegrabl_partition] the caller owns; a call that updates it returns
    the new one. *)
Class PartitionApi (W H : Type) := {
  partition_open : list Z -> M W H;
  partition_seek : H -> Z -> Z -> M W H;
  partition_read : H -> Z -> M W (list Z * H);
  partition_write : H -> list Z -> M W H;
  partition_erase : H -> bool -> M W unit;
  partition_storage_type : H -> Z;
}.

(** What a client relies on, whatever the outcome of a call: an operation on an
    open partition leaves every other partition alone ([part_alias m n]: the two
    names denote the same one); a read that succeeds
    returns the bytes at the offset of the handle, and a write that succeeds
    stores them there.  A call may fail, or the machine may stop inside it, with
    the partition it works on in any state. *)
Class PartitionLaws (W H : Type) `{PartitionApi W H} := {
  part_content : W -> list Z -> option (list Z);
  part_name : H -> list Z;
  part_alias : list Z -> list Z -> Prop;
  part_pos : H -> Z;
  open_law name w r w' : partition_open name w = (r, w') ->
    (forall n, part_content w' n = part_content w n) /\
    (forall p, r = Ret p -> part_name p = name);
  seek_law p off w r w' : partition_seek p off 0 w = (r, w') ->
    (forall n, part_content w' n = part_content w n) /\
    (forall p', r = Ret p' -> part_name p' = part_name p /\ part_pos p' = off);
  read_law p n w r w' : partition_read p n w = (r, w') ->
    (forall m, part_content w' m = part_content w m) /\
    (forall data p', r = Ret (data, p') -> exists b,
       part_content w (part_name p) = Some b /\
       data = slice b (Z.to_nat (part_pos p)) (Z.to_nat n) /\ length data = Z.to_nat n);
  write_law p data w r w' : partition_write p data w = (r, w') ->
    (forall n, ~ part_alias n (part_name p) -> part_content w' n = part_content w n) /\
    (forall p', r = Ret p' -> exists b, part_content w' (part_name p) = Some b /\
       slice b (Z.to_nat (part_pos p)) (length data) = data);
  erase_law p secure w r w' : partition_erase p secure w = (r, w') ->
    forall n, ~ part_alias n (part_name p) -> part_content w' n = part_content w n;
}.

(** ** The heap

    [malloc] returns an address or [NULL]. *)
Class HeapApi (W : Type) := {
  heap_malloc : Z -> M W (option Z);
  heap_free : Z -> M W unit;
}.

(** Aligned buffers for transfers: [tegrabl_alloc_align heap alignment size]
    returns the address and the content of a new block. *)
Class DmaHeap (W : Type) := {
  tegrabl_alloc_align : Z -> Z -> Z -> M W (option (Z * list Z));
  tegrabl_dealloc : Z -> Z -> M W unit;
}.

(** ** Devices that do not disturb each other *)

Section Frames.
Context {W H : Type} `{SocScratch W} `{HeapApi W} `{PartitionLaws W H}.

Definition same_regs (w w' : W) : Prop :=
  tegrabl_get_boot_slot_reg w' = tegrabl_get_boot_slot_reg w /\
  tegrabl_get_rootfs_slot_reg w' = tegrabl_get_rootfs_slot_reg w.

Definition same_parts (w w' : W) : Prop := forall n, part_content w' n = part_content w n.

(** Storage and heap calls leave the scratch registers alone, and heap calls
    and register writes leave the partitions alone. *)
Class DeviceFrames := {
  open_regs n : keeps same_regs (partition_open n);
  seek_regs p off o : keeps same_regs (partition_seek p off o);
  read_regs p n : keeps same_regs (partition_read p n);
  write_regs p d : keeps same_regs (partition_write p d);
  erase_regs p b : keeps same_regs (partition_erase p b);
  malloc_regs n : keeps same_regs (heap_malloc n);
  free_regs a : keeps same_regs (heap_free a);
  malloc_parts n : keeps same_parts (heap_malloc n);
  free_parts a : keeps same_parts (heap_free a);
  set_boot_parts v w : same_parts w (tegrabl_set_boot_slot_reg v w);
  set_rootfs_parts v w : same_parts w (tegrabl_set_rootfs_slot_reg v w);
}.

(** A device that is there and works: calls on an existing partition inside
    its bounds succeed, and memory is available. *)
Class WorkingDevices := {
  open_works n b w : part_content w n = Some b -> exists p w', partition_open n w = (Ret p, w');
  seek_works p w : exists p' w', partition_seek p 0 0 w = (Ret p', w');
  read_works p n b w : part_content w (part_name p) = Some b -> part_pos p = 0 ->
    (Z.to_nat n <= length b)%nat -> exists r w', partition_read p n w = (Ret r, w');
  malloc_works n w : exists a w', heap_malloc n w = (Ret (Some a), w');
  free_works a w : exists w', heap_free a w = (Ret tt, w');
}.

#[export] Instance same_regs_preorder : PreOrder same_regs.
Proof. split; [by intros w|]. intros w1 w2 w3 [Ha Hb] [Hc Hd]. split; congruence. Qed.

#[export] Instance same_parts_preorder : PreOrder same_parts.
Proof. split; [by intros w n|]. intros w1 w2 w3 Ha Hb n. by rewrite Hb. Qed.
End Frames.
Arguments DeviceFrames W H {_ _ _ _}.
Arguments WorkingDevices W H {_ _ _}.

#[export] Hint Resolve open_regs seek_regs read_regs write_regs erase_regs malloc_regs free_regs
  malloc_parts free_parts : keeps.
