(* ===== verification/RamStore.v ===== *)
(** * A storage device in memory

    A concrete instance of the interfaces: partitions are byte strings in a
    finite map, a handle is a name and an offset, and the two scratch registers
    are words.  It shows that the laws of Interfaces.v can hold and lets the
    theorems that assume them be applied to concrete states. *)
From S2P Require Import Prelude Interfaces.
From stdpp Require Import gmap.
#[local] Open Scope Z_scope.

Record ram := mk_ram { ram_boot : Z; ram_rootfs : Z; ram_parts : gmap (list Z) (list Z) }.

#[export] Instance ram_soc : SocScratch ram := {
  tegrabl_get_boot_slot_reg w := u32 (ram_boot w);
  tegrabl_set_boot_slot_reg v w := mk_ram v (ram_rootfs w) (ram_parts w);
  tegrabl_get_rootfs_slot_reg w := u32 (ram_rootfs w);
  tegrabl_set_rootfs_slot_reg v w := mk_ram (ram_boot w) v (ram_parts w);
}.

#[export] Instance ram_soc_laws : SocScratchLaws ram.
Proof.
  split; intros; simpl; try done; try (by apply wrapw_range); by apply wrapw_small.
Qed.

Definition ram_open (name : list Z) : M ram (list Z * Z) := fun w =>
  match ram_parts w !! name with
  | Some _ => (Ret (name, 0), w)
  | None => (Err 1, w)
  end.

Definition ram_seek (p : list Z * Z) (off origin : Z) : M ram (list Z * Z) := ret (p.1, off).

Definition ram_read (p : list Z * Z) (n : Z) : M ram (list Z * (list Z * Z)) := fun w =>
  match ram_parts w !! p.1 with
  | Some b =>
      let data := slice b (Z.to_nat p.2) (Z.to_nat n) in
      if (length data =? Z.to_nat n)%nat then (Ret (data, (p.1, p.2 + n)), w) else (Err 2, w)
  | None => (Err 1, w)
  end.

Definition ram_write (p : list Z * Z) (data : list Z) : M ram (list Z * Z) := fun w =>
  match ram_parts w !! p.1 with
  | Some b =>
      if (Z.to_nat p.2 + length data <=? length b)%nat then
        (Ret (p.1, p.2 + Z.of_nat (length data)),
         mk_ram (ram_boot w) (ram_rootfs w) (<[p.1 := blit b (Z.to_nat p.2) data]> (ram_parts w)))
      else (Err 2, w)
  | None => (Err 1, w)
  end.

Definition ram_erase (p : list Z * Z) (secure : bool) : M ram unit := fun w =>
  (Ret tt, mk_ram (ram_boot w) (ram_rootfs w) (alter (fmap (fun _ => 255)) p.1 (ram_parts w))).

#[export] Instance ram_api : PartitionApi ram (list Z * Z) := {
  partition_open := ram_open;
  partition_seek := ram_seek;
  partition_read := ram_read;
  partition_write := ram_write;
  partition_erase := ram_erase;
  partition_storage_type _ := 0;
}.

#[export] Instance ram_heap : HeapApi ram := {
  heap_malloc n := ret (Some (4096 + n));
  heap_free _ := ret tt;
}.

#[export, refine] Instance ram_laws : PartitionLaws ram (list Z * Z) := {|
  part_content w n := ram_parts w !! n;
  part_name := fst;
  part_alias := eq;
  part_pos := snd;
  open_law := _; seek_law := _; read_law := _; write_law := _; erase_law := _;
|}.
Proof.
  - intros name w r w'. simpl. unfold ram_open. case_match; intros [= <- <-]; split; try done.
    by intros p [= <-].
  - intros p off w r w' [= <- <-]. split; [done|]. by intros p' [= <-].
  - intros p n w r w'. simpl. unfold ram_read.
    destruct (ram_parts w !! p.1) as [b|] eqn:E; [|by intros [= <- <-]].
    case_match eqn:En; intros [= <- <-]; split; try done.
    intros data p' [= <- <-]. exists b. split_and!; [done..|]. by apply Nat.eqb_eq.
  - intros p data w r w'. simpl. unfold ram_write.
    destruct (ram_parts w !! p.1) as [b|] eqn:E; [|by intros [= <- <-]].
    case_match eqn:En; intros [= <- <-]; split; try done.
    + intros n Hn. simpl. by rewrite lookup_insert_ne.
    + intros p' _. simpl. exists (blit b (Z.to_nat p.2) data). rewrite lookup_insert_eq. split; [done|].
      apply Nat.leb_le in En. apply slice_blit. lia.
  - intros p secure w r w' [= <- <-] n Hn. simpl. by rewrite lookup_alter_ne.
Defined.

#[export] Instance ram_frames : DeviceFrames ram (list Z * Z).
Proof.
  split; intros; intros w0; simpl; try done;
    unfold ram_open, ram_read, ram_write; repeat case_match; done.
Qed.

#[export] Instance ram_works : WorkingDevices ram (list Z * Z).
Proof.
  split; simpl.
  - intros n b w Hb. unfold ram_open. rewrite Hb. by eexists _, _.
  - intros p w. by eexists _, _.
  - intros p n b w Hb Hp Hl. unfold ram_read. rewrite Hb, Hp. change (Z.to_nat 0) with O.
    rewrite length_slice, Nat.sub_0_r, Nat.min_l, Nat.eqb_refl by lia. by eexists _, _.
  - intros n w. by eexists _, _.
  - intros a w. by eexists.
Qed.
