(* ===== verification/Errors.v ===== *)
(** * Error codes and their texts

    include/tegrabl_error.h (layout of a [tegrabl_error_t] and the inline
    constructors) and lib/tegrabl_error/tegrabl_error.c (the string tables, the
    expansion of an error text and the accessors). *)
From S2P Require Import Prelude.
From Stdlib Require Import Ascii.
From Stdlib Require String.
Import String.StringSyntax.

(** ** Reasons and modules *)

Definition TEGRABL_NO_ERROR : Z := 0.
Definition TEGRABL_ERR_NOT_SUPPORTED : Z := 0x1.
Definition TEGRABL_ERR_INVALID : Z := 0x2.
Definition TEGRABL_ERR_NO_MEMORY : Z := 0x3.
Definition TEGRABL_ERR_OVERFLOW : Z := 0x4.
Definition TEGRABL_ERR_UNDERFLOW : Z := 0x5.
Definition TEGRABL_ERR_TIMEOUT : Z := 0x6.
Definition TEGRABL_ERR_TOO_LARGE : Z := 0x7.
Definition TEGRABL_ERR_TOO_SMALL : Z := 0x8.
Definition TEGRABL_ERR_BAD_ADDRESS : Z := 0x9.
Definition TEGRABL_ERR_NAME_TOO_LONG : Z := 0xa.
Definition TEGRABL_ERR_OUT_OF_RANGE : Z := 0xb.
Definition TEGRABL_ERR_NO_ACCESS : Z := 0xc.
Definition TEGRABL_ERR_NOT_FOUND : Z := 0xd.
Definition TEGRABL_ERR_BUSY : Z := 0xe.
Definition TEGRABL_ERR_HALT : Z := 0xf.
Definition TEGRABL_ERR_LOCK_FAILED : Z := 0x10.
Definition TEGRABL_ERR_OPEN_FAILED : Z := 0x11.
Definition TEGRABL_ERR_INIT_FAILED : Z := 0x12.
Definition TEGRABL_ERR_RESET_FAILED : Z := 0x13.
Definition TEGRABL_ERR_NOT_STARTED : Z := 0x14.
Definition TEGRABL_ERR_INVALID_STATE : Z := 0x15.
Definition TEGRABL_ERR_UNKNOWN_COMMAND : Z := 0x16.
Definition TEGRABL_ERR_COMMAND_FAILED : Z := 0x17.
Definition TEGRABL_ERR_VERIFY_FAILED : Z := 0x18.
Definition TEGRABL_ERR_READ_FAILED : Z := 0x19.
Definition TEGRABL_ERR_WRITE_FAILED : Z := 0x1a.
Definition TEGRABL_ERR_ERASE_FAILED : Z := 0x1b.
Definition TEGRABL_ERR_INVALID_CONFIG : Z := 0x1c.
Definition TEGRABL_ERR_INVALID_TOKEN : Z := 0x1d.
Definition TEGRABL_ERR_INVALID_VERSION : Z := 0x1e.
Definition TEGRABL_ERR_OUT_OF_SEQUENCE : Z := 0x1f.
Definition TEGRABL_ERR_NOT_INITIALIZED : Z := 0x20.
Definition TEGRABL_ERR_ALREADY_EXISTS : Z := 0x21.
Definition TEGRABL_ERR_ADD_FAILED : Z := 0x22.
Definition TEGRABL_ERR_DEL_FAILED : Z := 0x23.
Definition TEGRABL_ERR_SET_FAILED : Z := 0x24.
Definition TEGRABL_ERR_EXPAND_FAILED : Z := 0x25.
Definition TEGRABL_ERR_NOT_CONNECTED : Z := 0x26.
Definition TEGRABL_ERR_NO_RESOURCE : Z := 0x27.
Definition TEGRABL_ERR_EMPTY : Z := 0x28.
Definition TEGRABL_ERR_STOP_FAILED : Z := 0x29.
Definition TEGRABL_ERR_BAD_PARAMETER : Z := 0x2a.
Definition TEGRABL_ERR_FATAL : Z := 0x2b.
Definition TEGRABL_ERR_NOT_PROGRAMMED : Z := 0x2c.
Definition TEGRABL_ERR_UNKNOWN_STATUS : Z := 0x2d.
Definition TEGRABL_ERR_CONDITION : Z := 0x2e.
Definition TEGRABL_ERR_XFER_IN_PROGRESS : Z := 0x2f.
Definition TEGRABL_ERR_REGISTER_FAILED : Z := 0x30.
Definition TEGRABL_ERR_NOT_DETECTED : Z := 0x31.
Definition TEGRABL_ERR_CLEAR_FAILED : Z := 0x32.
Definition TEGRABL_ERR_SEND_FAILED : Z := 0x33.
Definition TEGRABL_ERR_XFER_FAILED : Z := 0x34.
Definition TEGRABL_ERR_UPDATE_FAILED : Z := 0x35.
Definition TEGRABL_ERR_RECEIVE_FAILED : Z := 0x36.
Definition TEGRABL_ERR_MISMATCH : Z := 0x37.
Definition TEGRABL_ERR_NACK : Z := 0x38.
Definition TEGRABL_ERR_FAILED_GENERIC : Z := 0x39.
Definition TEGRABL_ERR_GET_FAILED : Z := 0x3a.
Definition TEGRABL_ERR_MAP_FAILED : Z := 0x3b.
Definition TEGRABL_ERR_COMPUTE_FAILED : Z := 0x3c.
Definition TEGRABL_ERR_PARSE_FAILED : Z := 0x3d.
Definition TEGRABL_ERR_CONFIG_FAILED : Z := 0x3e.
Definition TEGRABL_ERR_ENABLE_FAILED : Z := 0x3f.
Definition TEGRABL_ERR_DISABLE_FAILED : Z := 0x40.
Definition TEGRABL_ERR_CALIBRATE_FAILED : Z := 0x41.
Definition TEGRABL_ERR_INVALID_MODE : Z := 0x42.
Definition TEGRABL_ERR_NOT_READY : Z := 0x43.
Definition TEGRABL_ERR_CP_MV_FAILED : Z := 0x44.
Definition TEGRABL_ERR_NOT_ALIGNED : Z := 0x45.
Definition TEGRABL_ERR_REASON_END : Z := 0x46.
Definition TEGRABL_ERR_REASON_MAX : Z := 0xff.
Definition TEGRABL_ERR_NO_MODULE : Z := 0x0.
Definition TEGRABL_ERR_TEGRABCT : Z := 0x1.
Definition TEGRABL_ERR_TEGRASIGN : Z := 0x2.
Definition TEGRABL_ERR_TEGRARCM : Z := 0x3.
Definition TEGRABL_ERR_TEGRADEVFLASH : Z := 0x4.
Definition TEGRABL_ERR_TEGRAHOST : Z := 0x5.
Definition TEGRABL_ERR_ARGPARSER : Z := 0x6.
Definition TEGRABL_ERR_XMLPARSER : Z := 0x7.
Definition TEGRABL_ERR_BCTPARSER : Z := 0x8.
Definition TEGRABL_ERR_BRBCT : Z := 0x9.
Definition TEGRABL_ERR_MB1BCT : Z := 0xa.
Definition TEGRABL_ERR_BRBIT : Z := 0xb.
Definition TEGRABL_ERR_FILE_MANAGER : Z := 0xc.
Definition TEGRABL_ERR_PARTITION_MANAGER : Z := 0xd.
Definition TEGRABL_ERR_BLOCK_DEV : Z := 0xe.
Definition TEGRABL_ERR_SDMMC : Z := 0xf.
Definition TEGRABL_ERR_SATA : Z := 0x10.
Definition TEGRABL_ERR_SPI_FLASH : Z := 0x11.
Definition TEGRABL_ERR_SPI : Z := 0x12.
Definition TEGRABL_ERR_GPCDMA : Z := 0x13.
Definition TEGRABL_ERR_BPMP_FW : Z := 0x14.
Definition TEGRABL_ERR_SE_CRYPTO : Z := 0x15.
Definition TEGRABL_ERR_SW_CRYPTO : Z := 0x16.
Definition TEGRABL_ERR_NV3P : Z := 0x17.
Definition TEGRABL_ERR_FASTBOOT : Z := 0x18.
Definition TEGRABL_ERR_OTA : Z := 0x19.
Definition TEGRABL_ERR_HEAP : Z := 0x1a.
Definition TEGRABL_ERR_PAGE_ALLOCATOR : Z := 0x1b.
Definition TEGRABL_ERR_GPT : Z := 0x1c.
Definition TEGRABL_ERR_LOADER : Z := 0x1d.
Definition TEGRABL_ERR_SOCMISC : Z := 0x1e.
Definition TEGRABL_ERR_CARVEOUT : Z := 0x1f.
Definition TEGRABL_ERR_UART : Z := 0x20.
Definition TEGRABL_ERR_CONSOLE : Z := 0x21.
Definition TEGRABL_ERR_DEBUG : Z := 0x22.
Definition TEGRABL_ERR_TOS : Z := 0x23.
Definition TEGRABL_ERR_MB2_PARAMS : Z := 0x24.
Definition TEGRABL_ERR_AON : Z := 0x25.
Definition TEGRABL_ERR_I2C : Z := 0x26.
Definition TEGRABL_ERR_I2C_DEV : Z := 0x27.
Definition TEGRABL_ERR_I2C_DEV_BASIC : Z := 0x28.
Definition TEGRABL_ERR_FUSE : Z := 0x29.
Definition TEGRABL_ERR_TRANSPORT : Z := 0x2a.
Definition TEGRABL_ERR_LINUXBOOT : Z := 0x2b.
Definition TEGRABL_ERR_MB1_PLATFORM_CONFIG : Z := 0x2c.
Definition TEGRABL_ERR_MB1_BCT_LAYOUT : Z := 0x2d.
Definition TEGRABL_ERR_WARMBOOT : Z := 0x2e.
Definition TEGRABL_ERR_XUSBF : Z := 0x2f.
Definition TEGRABL_ERR_CLK_RST : Z := 0x30.
Definition TEGRABL_ERR_FUSE_BYPASS : Z := 0x31.
Definition TEGRABL_ERR_CPUINIT : Z := 0x32.
Definition TEGRABL_ERR_SPARSE : Z := 0x33.
Definition TEGRABL_ERR_NVDEC : Z := 0x34.
Definition TEGRABL_ERR_EEPROM_MANAGER : Z := 0x35.
Definition TEGRABL_ERR_EEPROM : Z := 0x36.
Definition TEGRABL_ERR_POWER : Z := 0x37.
Definition TEGRABL_ERR_SCE : Z := 0x38.
Definition TEGRABL_ERR_APE : Z := 0x39.
Definition TEGRABL_ERR_MB1_WARS : Z := 0x3a.
Definition TEGRABL_ERR_UPHY : Z := 0x3b.
Definition TEGRABL_ERR_AOTAG : Z := 0x3c.
Definition TEGRABL_ERR_DRAM_ECC : Z := 0x3d.
Definition TEGRABL_ERR_NVPT : Z := 0x3e.
Definition TEGRABL_ERR_AST : Z := 0x3f.
Definition TEGRABL_ERR_AUTH : Z := 0x40.
Definition TEGRABL_ERR_PWM : Z := 0x41.
Definition TEGRABL_ERR_ROLLBACK : Z := 0x42.
Definition TEGRABL_ERR_NCT : Z := 0x43.
Definition TEGRABL_ERR_VERIFIED_BOOT : Z := 0x44.
Definition TEGRABL_ERR_PKC_OP : Z := 0x45.
Definition TEGRABL_ERR_DISPLAY : Z := 0x46.
Definition TEGRABL_ERR_GRAPHICS : Z := 0x47.
Definition TEGRABL_ERR_NVDISP : Z := 0x48.
Definition TEGRABL_ERR_DSI : Z := 0x49.
Definition TEGRABL_ERR_HDMI : Z := 0x4a.
Definition TEGRABL_ERR_DPAUX : Z := 0x4b.
Definition TEGRABL_ERR_BOARD_INFO : Z := 0x4c.
Definition TEGRABL_ERR_GPIO : Z := 0x4d.
Definition TEGRABL_ERR_KEYBOARD : Z := 0x4e.
Definition TEGRABL_ERR_MENU : Z := 0x4f.
Definition TEGRABL_ERR_KERNELBOOT : Z := 0x50.
Definition TEGRABL_ERR_PANEL : Z := 0x51.
Definition TEGRABL_ERR_NVBLOB : Z := 0x52.
Definition TEGRABL_ERR_EXIT : Z := 0x53.
Definition TEGRABL_ERR_AB_BOOTCTRL : Z := 0x54.
Definition TEGRABL_ERR_FRP : Z := 0x55.
Definition TEGRABL_ERR_PMIC : Z := 0x56.
Definition TEGRABL_ERR_REGULATOR : Z := 0x57.
Definition TEGRABL_ERR_PWM_BASIC : Z := 0x58.
Definition TEGRABL_ERR_BOOTLOADER_UPDATE : Z := 0x59.
Definition TEGRABL_ERR_UFS : Z := 0x5a.
Definition TEGRABL_ERR_RATCHET : Z := 0x5b.
Definition TEGRABL_ERR_DEVICETREE : Z := 0x5c.
Definition TEGRABL_ERR_SECURITY : Z := 0x5d.
Definition TEGRABL_ERR_ROLLBACK_PREVENTION : Z := 0x5e.
Definition TEGRABL_ERR_CARVEOUT_MAPPER : Z := 0x5f.
Definition TEGRABL_ERR_KEYSLOT : Z := 0x60.
Definition TEGRABL_ERR_DP : Z := 0x61.
Definition TEGRABL_ERR_SOR : Z := 0x62.
Definition TEGRABL_ERR_DISPLAY_PDATA : Z := 0x63.
Definition TEGRABL_ERR_RAMDUMP : Z := 0x64.
Definition TEGRABL_ERR_PLUGIN_MANAGER : Z := 0x65.
Definition TEGRABL_ERR_STORAGE : Z := 0x66.
Definition TEGRABL_ERR_TESTS : Z := 0x67.
Definition TEGRABL_ERR_MPHY : Z := 0x68.
Definition TEGRABL_ERR_SUBCARVEOUT : Z := 0x69.
Definition TEGRABL_ERR_DECOMPRESS : Z := 0x6a.
Definition TEGRABL_ERR_PCI : Z := 0x6b.
Definition TEGRABL_ERR_MAPPER : Z := 0x6c.
Definition TEGRABL_ERR_COMBINED_UART : Z := 0x6d.
Definition TEGRABL_ERR_RCE : Z := 0x6e.
Definition TEGRABL_ERR_IST : Z := 0x6f.
Definition TEGRABL_ERR_QUAL_ENGINE : Z := 0x70.
Definition TEGRABL_ERR_SOFT_FUSE : Z := 0x71.
Definition TEGRABL_ERR_MPU : Z := 0x72.
Definition TEGRABL_ERR_ODM_DATA : Z := 0x73.
Definition TEGRABL_ERR_NV3P_SERVER : Z := 0x74.
Definition TEGRABL_ERR_CCG : Z := 0x75.
Definition TEGRABL_ERR_GR_SUPPORT : Z := 0x76.
Definition TEGRABL_ERR_EQOS : Z := 0x77.
Definition TEGRABL_ERR_PHY : Z := 0x78.
Definition TEGRABL_ERR_USBH : Z := 0x79.
Definition TEGRABL_ERR_DEVICE_PROD : Z := 0x7a.
Definition TEGRABL_ERR_CONFIG_STORAGE : Z := 0x7b.
Definition TEGRABL_ERR_USBMSD : Z := 0x7c.
Definition TEGRABL_ERR_CBO : Z := 0x7d.
Definition TEGRABL_ERR_SHELL : Z := 0x7e.
Definition TEGRABL_ERR_PCIE : Z := 0x7f.
Definition TEGRABL_ERR_NVME : Z := 0x80.
Definition TEGRABL_ERR_MODULE_END : Z := 0x81.
Definition TEGRABL_ERR_MODULE_MAX : Z := 0xff.

(** ** The error word: [highest module | lowest module | aux info | reason] *)

Definition TEGRABL_ERR_MODULE_WIDTH : Z := 8.
Definition TEGRABL_ERR_AUX_INFO_WIDTH : Z := 8.
Definition TEGRABL_ERR_REASON_WIDTH : Z := 8.
Definition TEGRABL_ERR_HIGHEST_MODULE_SHIFT : Z := 24.
Definition TEGRABL_ERR_LOWEST_MODULE_SHIFT : Z := 16.
Definition TEGRABL_ERR_AUX_INFO_SHIFT : Z := 8.
Definition TEGRABL_ERR_REASON_SHIFT : Z := 0.

Definition TEGRABL_ERROR_REASON (error : Z) : Z :=
  Z.land error (BITFIELD_ONES TEGRABL_ERR_REASON_WIDTH).
Definition TEGRABL_ERROR_AUX_INFO (error : Z) : Z :=
  Z.land (Z.shiftr error TEGRABL_ERR_AUX_INFO_SHIFT) (BITFIELD_ONES TEGRABL_ERR_AUX_INFO_WIDTH).
Definition TEGRABL_ERROR_MODULE (error : Z) : Z :=
  Z.land (Z.shiftr error TEGRABL_ERR_LOWEST_MODULE_SHIFT) (BITFIELD_ONES TEGRABL_ERR_MODULE_WIDTH).
Definition TEGRABL_ERROR_HIGHEST_MODULE (error : Z) : Z :=
  Z.land (Z.shiftr error TEGRABL_ERR_HIGHEST_MODULE_SHIFT) (BITFIELD_ONES TEGRABL_ERR_MODULE_WIDTH).

(** [aux_info] is a [uint8_t] parameter. *)
Definition tegrabl_error_value (module aux_info reason : Z) : Z :=
  let aux_info := u8 aux_info in
  let error := TEGRABL_NO_ERROR in
  let error := BITFIELD_SET error module TEGRABL_ERR_MODULE_WIDTH TEGRABL_ERR_HIGHEST_MODULE_SHIFT in
  let error := BITFIELD_SET error module TEGRABL_ERR_MODULE_WIDTH TEGRABL_ERR_LOWEST_MODULE_SHIFT in
  let error := BITFIELD_SET error aux_info TEGRABL_ERR_AUX_INFO_WIDTH TEGRABL_ERR_AUX_INFO_SHIFT in
  BITFIELD_SET error reason TEGRABL_ERR_REASON_WIDTH TEGRABL_ERR_REASON_SHIFT.

Definition tegrabl_err_set_highest_module (error module : Z) : Z :=
  BITFIELD_SET error module TEGRABL_ERR_MODULE_WIDTH TEGRABL_ERR_HIGHEST_MODULE_SHIFT.

Definition tegrabl_err_set_lowest_module (error module : Z) : Z :=
  BITFIELD_SET error module TEGRABL_ERR_MODULE_WIDTH TEGRABL_ERR_LOWEST_MODULE_SHIFT.

Definition tegrabl_err_set_aux_info (error aux_info : Z) : Z :=
  BITFIELD_SET error (u8 aux_info) TEGRABL_ERR_AUX_INFO_WIDTH TEGRABL_ERR_AUX_INFO_SHIFT.

(** ** String tables

    Designated initialisers: an index that is not listed holds [NULL]. *)

#[local] Open Scope string_scope.

(** A text followed by a line feed. *)
Definition line (s : String.string) : String.string :=
  String.append s (String.String "010"%char String.EmptyString).

Definition error_reason_strings : list (Z * String.string) := [
  (TEGRABL_ERR_NOT_SUPPORTED, line "{1} is not supported.");
  (TEGRABL_ERR_INVALID, line "Invalid value {1}.");
  (TEGRABL_ERR_NO_MEMORY, line "Failed to allocate memory of size {1} for {2}.");
  (TEGRABL_ERR_OVERFLOW, line "Accessing {1} after boundary {2}");
  (TEGRABL_ERR_UNDERFLOW, line "Accessing {1} before boundary {2}.");
  (TEGRABL_ERR_TIMEOUT, line "Timeout while polling for {1}. Last value {2}.");
  (TEGRABL_ERR_TOO_LARGE, line "{1} is too large than {2}.");
  (TEGRABL_ERR_TOO_SMALL, line "{1} is too small than {2}.");
  (TEGRABL_ERR_BAD_ADDRESS, line "Bad address {1}.");
  (TEGRABL_ERR_NAME_TOO_LONG, line "{1} name longer than {2}.");
  (TEGRABL_ERR_OUT_OF_RANGE, line "{1} is out of range {2}.");
  (TEGRABL_ERR_NO_ACCESS, line "Access for {1} denied.");
  (TEGRABL_ERR_NOT_FOUND, line "{1} not found in {2}.");
  (TEGRABL_ERR_BUSY, line "{1} is busy.");
  (TEGRABL_ERR_HALT, line "{1} is halted.");
  (TEGRABL_ERR_LOCK_FAILED, line "Failed to lock {1}.");
  (TEGRABL_ERR_OPEN_FAILED, line "Failed to open {1}.");
  (TEGRABL_ERR_INIT_FAILED, line "Failed to initialize {1}.");
  (TEGRABL_ERR_RESET_FAILED, line "Failed to reset {1}.");
  (TEGRABL_ERR_NOT_STARTED, line "{1} has not started.");
  (TEGRABL_ERR_INVALID_STATE, line "{1} is not in {2} state.");
  (TEGRABL_ERR_UNKNOWN_COMMAND, line "Unknown command {1} received.");
  (TEGRABL_ERR_COMMAND_FAILED, line "Failed to execute command {1}.");
  (TEGRABL_ERR_VERIFY_FAILED, line "Failed to verify {1}.");
  (TEGRABL_ERR_READ_FAILED, line "Could not read {1}.");
  (TEGRABL_ERR_WRITE_FAILED, line "Could not write {1}.");
  (TEGRABL_ERR_ERASE_FAILED, line "Could not erase {1}.");
  (TEGRABL_ERR_INVALID_CONFIG, line "{1} has wrong value {2}.");
  (TEGRABL_ERR_INVALID_TOKEN, line "Invalid token {1}.");
  (TEGRABL_ERR_INVALID_VERSION, line "Invalid version {1}.");
  (TEGRABL_ERR_OUT_OF_SEQUENCE, line "{1} went out of sequence. Expected {2} instead of {3}.");
  (TEGRABL_ERR_NOT_INITIALIZED, line "{1} is not initialized.");
  (TEGRABL_ERR_ALREADY_EXISTS, line "{1} already exist.");
  (TEGRABL_ERR_ADD_FAILED, line "Failed to add {1} in {2}.");
  (TEGRABL_ERR_DEL_FAILED, line "Failed to delete {1} from {2}.");
  (TEGRABL_ERR_SET_FAILED, line "Failed to set {1} for {2}.");
  (TEGRABL_ERR_EXPAND_FAILED, line "Failed to expand {1}.");
  (TEGRABL_ERR_NOT_CONNECTED, line "{1} is not connected to {2}.");
  (TEGRABL_ERR_NO_RESOURCE, line "Failed to allocate {1} for {2}.");
  (TEGRABL_ERR_EMPTY, line "{1} is empty in {2}.");
  (TEGRABL_ERR_STOP_FAILED, line "Failed to stop {1}.");
  (TEGRABL_ERR_BAD_PARAMETER, line "Bad parameter {1}.");
  (TEGRABL_ERR_FATAL, line "Fata error {1}.");
  (TEGRABL_ERR_NOT_PROGRAMMED, line "{1} not programmed {2}.");
  (TEGRABL_ERR_UNKNOWN_STATUS, line "Uknown status {1}.");
  (TEGRABL_ERR_CONDITION, line "Condition {1} could not meet.");
  (TEGRABL_ERR_XFER_IN_PROGRESS, line "{1} transfer is still in progress.");
  (TEGRABL_ERR_REGISTER_FAILED, line "Failed to register {1} in {2}.");
  (TEGRABL_ERR_NOT_DETECTED, line "Failed to detect {1}.");
  (TEGRABL_ERR_CLEAR_FAILED, line "Failed to clear {1} for {2}.");
  (TEGRABL_ERR_SEND_FAILED, line "Failed to send {1}.");
  (TEGRABL_ERR_XFER_FAILED, line "Transaction {1} failed.");
  (TEGRABL_ERR_UPDATE_FAILED, line "Failed to update {1}.");
  (TEGRABL_ERR_RECEIVE_FAILED, line "Failed to receive {1}.");
  (TEGRABL_ERR_MISMATCH, line "{1} does not match with expected {2}.");
  (TEGRABL_ERR_NACK, line "Received NACK with error {1}.");
  (TEGRABL_ERR_FAILED_GENERIC, line "Failed {1}.");
  (TEGRABL_ERR_GET_FAILED, line "Failed to get {1} for {2} from {3}.");
  (TEGRABL_ERR_COMPUTE_FAILED, line "{1} computation failed for {2}.");
  (TEGRABL_ERR_PARSE_FAILED, line "Failed to parse {1}.");
  (TEGRABL_ERR_CONFIG_FAILED, line "Failed to configure {1}.");
  (TEGRABL_ERR_ENABLE_FAILED, line "Failed to enable {1}.");
  (TEGRABL_ERR_DISABLE_FAILED, line "Failed to disable {1}.");
  (TEGRABL_ERR_CALIBRATE_FAILED, line "Failed to calibrate {1}.");
  (TEGRABL_ERR_INVALID_MODE, line "{1} is not in {2} mode.");
  (TEGRABL_ERR_NOT_READY, line "{1} is not ready.");
  (TEGRABL_ERR_CP_MV_FAILED, line "Failed to copy/move {1} from {2} to {3}.");
  (TEGRABL_ERR_NOT_ALIGNED, line "{1} is not aligned to {2}.")].

Definition module_strings : list (Z * String.string) := [
  (0, "NONE");
  (TEGRABL_ERR_TEGRABCT, "TEGRABCT");
  (TEGRABL_ERR_TEGRASIGN, "TEGRASIGN");
  (TEGRABL_ERR_TEGRARCM, "TEGRARCM");
  (TEGRABL_ERR_TEGRADEVFLASH, "TEGRADEVFLASH");
  (TEGRABL_ERR_TEGRAHOST, "TEGRAHOST");
  (TEGRABL_ERR_ARGPARSER, "ARGPARSER");
  (TEGRABL_ERR_XMLPARSER, "XMLPARSER");
  (TEGRABL_ERR_BCTPARSER, "BCTPARSER");
  (TEGRABL_ERR_BRBCT, "BRBCT");
  (TEGRABL_ERR_MB1BCT, "MB1BCT");
  (TEGRABL_ERR_BRBIT, "BRBIT");
  (TEGRABL_ERR_FILE_MANAGER, "FILE_MANAGER");
  (TEGRABL_ERR_PARTITION_MANAGER, "PARTITION_MANAGER");
  (TEGRABL_ERR_BLOCK_DEV, "BLOCK_DEV");
  (TEGRABL_ERR_SDMMC, "SDMMC");
  (TEGRABL_ERR_SATA, "SATA");
  (TEGRABL_ERR_SPI_FLASH, "SPI_FLASH");
  (TEGRABL_ERR_SPI, "SPI");
  (TEGRABL_ERR_GPCDMA, "GPCDMA");
  (TEGRABL_ERR_BPMP_FW, "BPMP_FW");
  (TEGRABL_ERR_SE_CRYPTO, "SE_CRYPTO");
  (TEGRABL_ERR_SW_CRYPTO, "SW_CRYPTO");
  (TEGRABL_ERR_NV3P, "NV3P");
  (TEGRABL_ERR_FASTBOOT, "FASTBOOT");
  (TEGRABL_ERR_OTA, "OTA");
  (TEGRABL_ERR_HEAP, "HEAP");
  (TEGRABL_ERR_PAGE_ALLOCATOR, "PAGE_ALLOCATOR");
  (TEGRABL_ERR_GPT, "GPT");
  (TEGRABL_ERR_LOADER, "LOADER");
  (TEGRABL_ERR_SOCMISC, "SOCMISC");
  (TEGRABL_ERR_CARVEOUT, "CARVEOUT");
  (TEGRABL_ERR_UART, "UART");
  (TEGRABL_ERR_CONSOLE, "CONSOLE");
  (TEGRABL_ERR_DEBUG, "DEBUG");
  (TEGRABL_ERR_TOS, "TOS");
  (TEGRABL_ERR_MB2_PARAMS, "MB2_PARAMS");
  (TEGRABL_ERR_AON, "AON");
  (TEGRABL_ERR_I2C, "I2C");
  (TEGRABL_ERR_I2C_DEV, "I2C_DEV");
  (TEGRABL_ERR_I2C_DEV_BASIC, "I2C_DEV_BASIC");
  (TEGRABL_ERR_FUSE, "FUSE");
  (TEGRABL_ERR_TRANSPORT, "TRANSPORT");
  (TEGRABL_ERR_LINUXBOOT, "LINUXBOOT");
  (TEGRABL_ERR_MB1_PLATFORM_CONFIG, "MB1_PLATFORM_CONFIG");
  (TEGRABL_ERR_MB1_BCT_LAYOUT, "MB1_BCT_LAYOUT");
  (TEGRABL_ERR_WARMBOOT, "WARMBOOT");
  (TEGRABL_ERR_XUSBF, "XUSBF");
  (TEGRABL_ERR_CLK_RST, "CLK_RST");
  (TEGRABL_ERR_FUSE_BYPASS, "FUSE_BYPASS");
  (TEGRABL_ERR_CPUINIT, "CPUINIT");
  (TEGRABL_ERR_SPARSE, "SPARSE");
  (TEGRABL_ERR_NVDEC, "NVDEC");
  (TEGRABL_ERR_EEPROM_MANAGER, "EEPROM_MANAGER");
  (TEGRABL_ERR_EEPROM, "EEPROM");
  (TEGRABL_ERR_POWER, "POWER");
  (TEGRABL_ERR_SCE, "SCE");
  (TEGRABL_ERR_APE, "APE");
  (TEGRABL_ERR_MB1_WARS, "MB1_WARS");
  (TEGRABL_ERR_UPHY, "UPHY");
  (TEGRABL_ERR_AOTAG, "AOTAG");
  (TEGRABL_ERR_DRAM_ECC, "DRAM_ECC");
  (TEGRABL_ERR_NVPT, "NVPT");
  (TEGRABL_ERR_AST, "AST");
  (TEGRABL_ERR_AUTH, "AUTH");
  (TEGRABL_ERR_PWM, "PWM");
  (TEGRABL_ERR_ROLLBACK, "ROLLBACK");
  (TEGRABL_ERR_NCT, "NCT");
  (TEGRABL_ERR_VERIFIED_BOOT, "VERIFIED_BOOT");
  (TEGRABL_ERR_PKC_OP, "PKC_OP");
  (TEGRABL_ERR_DISPLAY, "DISPLAY");
  (TEGRABL_ERR_GRAPHICS, "GRAPHICS");
  (TEGRABL_ERR_NVDISP, "NVDISP");
  (TEGRABL_ERR_DSI, "DSI");
  (TEGRABL_ERR_HDMI, "HDMI");
  (TEGRABL_ERR_DPAUX, "DPAUX");
  (TEGRABL_ERR_BOARD_INFO, "BOARD_INFO");
  (TEGRABL_ERR_GPIO, "GPIO");
  (TEGRABL_ERR_KEYBOARD, "KEYBOARD");
  (TEGRABL_ERR_MENU, "MENU");
  (TEGRABL_ERR_KERNELBOOT, "KERNELBOOT");
  (TEGRABL_ERR_PANEL, "PANEL");
  (TEGRABL_ERR_NVBLOB, "NVBLOB");
  (TEGRABL_ERR_EXIT, "EXIT");
  (TEGRABL_ERR_AB_BOOTCTRL, "AB_BOOTCTRL");
  (TEGRABL_ERR_FRP, "FRP");
  (TEGRABL_ERR_PMIC, "PMIC");
  (TEGRABL_ERR_REGULATOR, "REGULATOR");
  (TEGRABL_ERR_PWM_BASIC, "PWM_BASIC");
  (TEGRABL_ERR_BOOTLOADER_UPDATE, "BOOTLOADER_UPDATE");
  (TEGRABL_ERR_UFS, "UFS");
  (TEGRABL_ERR_RATCHET, "RATCHET");
  (TEGRABL_ERR_DEVICETREE, "DEVICETREE");
  (TEGRABL_ERR_SECURITY, "SECURITY");
  (TEGRABL_ERR_ROLLBACK_PREVENTION, "ROLLBACK_PREVENTION");
  (TEGRABL_ERR_CARVEOUT_MAPPER, "CARVEOUT_MAPPER");
  (TEGRABL_ERR_KEYSLOT, "KEYSLOT");
  (TEGRABL_ERR_DP, "DP");
  (TEGRABL_ERR_SOR, "SOR");
  (TEGRABL_ERR_DISPLAY_PDATA, "DISPLAY_PDATA");
  (TEGRABL_ERR_RAMDUMP, "RAMDUMP");
  (TEGRABL_ERR_PLUGIN_MANAGER, "PLUGIN_MANAGER");
  (TEGRABL_ERR_STORAGE, "STORAGE");
  (TEGRABL_ERR_TESTS, "TESTS");
  (TEGRABL_ERR_MPHY, "MPHY");
  (TEGRABL_ERR_SUBCARVEOUT, "SUBCARVEOUT");
  (TEGRABL_ERR_DECOMPRESS, "DECOMPRESS");
  (TEGRABL_ERR_PCI, "PCI");
  (TEGRABL_ERR_MAPPER, "MAPPER");
  (TEGRABL_ERR_COMBINED_UART, "COMBINED_UART");
  (TEGRABL_ERR_RCE, "RCE");
  (TEGRABL_ERR_IST, "IST");
  (TEGRABL_ERR_QUAL_ENGINE, "QUAL_ENGINE");
  (TEGRABL_ERR_SOFT_FUSE, "SOFT_FUSE");
  (TEGRABL_ERR_MPU, "MPU");
  (TEGRABL_ERR_ODM_DATA, "ODM_DATA");
  (TEGRABL_ERR_NV3P_SERVER, "NV3P_SERVER");
  (TEGRABL_ERR_CCG, "CCG");
  (TEGRABL_ERR_USBH, "USBH");
  (TEGRABL_ERR_DEVICE_PROD, "DEVICE_PROD");
  (TEGRABL_ERR_CONFIG_STORAGE, "CONFIG_STORAGE");
  (TEGRABL_ERR_USBMSD, "USBMSD");
  (TEGRABL_ERR_CBO, "CBO")].

#[local] Close Scope string_scope.

(** The entry of a table: [None] is a [NULL] pointer. *)
Fixpoint table_entry (t : list (Z * String.string)) (k : Z) : option String.string :=
  match t with
  | [] => None
  | (k', s) :: t' => if k' =? k then Some s else table_entry t' k
  end.

(** [tegrabl_error_module_str]: [Ret None] is the pointer [NULL] read from a
    hole of the table. *)
Definition tegrabl_error_module_str (module : Z) : option String.string :=
  if module <? TEGRABL_ERR_MODULE_END then table_entry module_strings module
  else Some String.EmptyString.

(** ** Expansion of an error text

    The inner loop copies one argument at [err + index] while there is room. *)
Fixpoint copy_format (size : nat) (format : list ascii) (buf : list ascii) (index : nat)
  : list ascii * nat :=
  match format with
  | [] => (buf, index)
  | c :: format' =>
      if (index <? size)%nat then copy_format size format' (<[index := c]> buf) (S index)
      else (buf, index)
  end.

(** The outer loop over the pattern; [args] is what [va_arg] yields, and
    taking an argument that was not passed is undefined. *)
Fixpoint expand_pattern (size : nat) (err_str : list ascii) (args : list (list ascii))
    (open_bracket : bool) (buf : list ascii) (index : nat) (count : Z)
  : outcome (list ascii * nat * Z) :=
  match err_str with
  | [] => Ret (buf, index, count)
  | c :: err_str' =>
      if (index <? size)%nat then
        if Ascii.eqb c "{" then
          match args with
          | [] => Undef
          | format :: args' =>
              let '(buf, index) := copy_format size format buf index in
              expand_pattern size err_str' args' true buf index (count + 1)
          end
        else if Ascii.eqb c "}" then
          expand_pattern size err_str' args false buf index count
        else if open_bracket then
          expand_pattern size err_str' args open_bracket buf index count
        else
          expand_pattern size err_str' args open_bracket (<[index := c]> buf) (S index) count
      else Ret (buf, index, count)
  end.

(** Returns the buffer and the number of arguments consumed. *)
Definition pre_process_error_string (buf : list ascii) (err_size : nat) (reason : Z)
    (args : list (list ascii)) : outcome (list ascii * Z) :=
  match table_entry error_reason_strings reason with
  | None => Undef
  | Some s =>
      let? (buf, index, count) :=
        expand_pattern err_size (String.list_ascii_of_string s) args false buf 0 0 in
      let at_ := Z.to_nat (Z.min (Z.of_nat index) (u32 (Z.of_nat err_size - 1))) in
      if (at_ <? length buf)%nat then Ret (<[at_ := "000"%char]> buf, count) else Undef
  end.

(** ** What the expansion should be

    The text with every [{n}] replaced by the next argument, without a bound. *)
Fixpoint expansion (err_str : list ascii) (args : list (list ascii)) (open_bracket : bool)
  : option (list ascii) :=
  match err_str with
  | [] => Some []
  | c :: r =>
      if Ascii.eqb c "{" then
        match args with
        | [] => None
        | a :: args' => (fun t => a ++ t) <$> expansion r args' true
        end
      else if Ascii.eqb c "}" then expansion r args false
      else if open_bracket then expansion r args open_bracket
      else (fun t => c :: t) <$> expansion r args open_bracket
  end.

(** ** Lemmas *)

(** The buffer holds as much of [out] as fits. *)
Definition holds_prefix (size : nat) (buf : list ascii) (index : nat) (out : list ascii) : Prop :=
  length buf = size /\ index = Nat.min size (length out) /\ take index buf = take index out.

Lemma holds_prefix_push size buf index out c :
  holds_prefix size buf index out -> (index < size)%nat ->
  holds_prefix size (<[index := c]> buf) (S index) (out ++ [c]).
Proof.
  intros (Hl & Hi & Ht) Hlt. assert (index = length out) as -> by lia.
  split_and!.
  - by rewrite length_insert.
  - rewrite length_app. simpl. lia.
  - rewrite (take_S_r _ _ c) by (apply list_lookup_insert_eq; lia).
    rewrite take_insert_ge by lia. rewrite Ht.
    rewrite (take_S_r (out ++ [c]) _ c) by (by rewrite lookup_app_r, Nat.sub_diag by lia).
    by rewrite take_app_le by lia.
Qed.

Lemma holds_prefix_full size buf index out more :
  holds_prefix size buf index out -> (size <= index)%nat ->
  holds_prefix size buf index (out ++ more).
Proof.
  intros (Hl & Hi & Ht) Hge. split_and!; [done| rewrite length_app; lia |].
  by rewrite take_app_le by lia.
Qed.

Lemma copy_format_spec size format buf index out :
  holds_prefix size buf index out ->
  holds_prefix size (copy_format size format buf index).1
    (copy_format size format buf index).2 (out ++ format).
Proof.
  revert buf index out. induction format as [|c format IH]; intros buf index out H; simpl.
  - by rewrite app_nil_r.
  - destruct (Nat.ltb_spec index size).
    + rewrite cons_middle, app_assoc. apply IH. by apply holds_prefix_push.
    + by apply holds_prefix_full.
Qed.

Lemma expand_pattern_spec size err_str args open buf index count out t :
  expansion err_str args open = Some t ->
  holds_prefix size buf index out ->
  exists buf' index' count',
    expand_pattern size err_str args open buf index count = Ret (buf', index', count') /\
    holds_prefix size buf' index' (out ++ t) /\
    count <= count' <= count + Z.of_nat (length args).
Proof.
  revert args open buf index count out t.
  induction err_str as [|c r IH]; intros args open buf index count out t Ht H; simpl in *.
  { simplify_eq. rewrite app_nil_r. eauto 10 with lia. }
  destruct (Nat.ltb_spec index size); cycle 1.
  { exists buf, index, count. split_and!; [done| by apply holds_prefix_full |lia |lia]. }
  destruct (Ascii.eqb c "{") eqn:E1.
  { destruct args as [|a args]; [done|].
    apply fmap_Some in Ht as (t' & Ht & ->).
    pose proof (copy_format_spec size a buf index out H) as Hc.
    destruct (copy_format size a buf index) as [buf1 index1]; simpl in Hc.
    edestruct (IH args true buf1 index1 (count + 1)) as (? & ? & ? & Heq & ? & ?); eauto.
    rewrite Heq. rewrite app_assoc. eexists _, _, _. split_and!; eauto; simpl length; lia. }
  destruct (Ascii.eqb c "}") eqn:E2; [by eapply IH|].
  destruct open; [by eapply IH|].
  apply fmap_Some in Ht as (t' & Ht & ->).
  rewrite cons_middle, app_assoc. eapply IH; [done|]. by apply holds_prefix_push.
Qed.

Lemma error_field_get e w s : 0 <= w -> 0 <= s -> Z.land (Z.shiftr e s) (BITFIELD_ONES w) = BITFIELD_GET e w s.
Proof. intros. by rewrite BITFIELD_GET_bits, ones_eq, Z.land_ones by lia. Qed.

Lemma reason_get e : TEGRABL_ERROR_REASON e = BITFIELD_GET e 8 0.
Proof.
  unfold TEGRABL_ERROR_REASON. rewrite <- (Z.shiftr_0_r e) at 1. by apply error_field_get.
Qed.

(** Reading a field after a chain of field writes. *)
Ltac field_read :=
  repeat first
    [ rewrite BITFIELD_GET_SET_same by lia
    | rewrite BITFIELD_GET_SET_other by lia ].

(** ** Theorems *)

(** The four fields of an error code can be read back, and a caller that
    overwrites the highest module, the lowest module or the auxiliary
    information keeps the other three. *)
Theorem error_fields module aux reason m :
  let e := tegrabl_error_value module aux reason in
  let e' := tegrabl_err_set_highest_module e m in
  let e1 := tegrabl_err_set_lowest_module e m in
  let e2 := tegrabl_err_set_aux_info e m in
  TEGRABL_ERROR_REASON e = reason mod 256 /\ TEGRABL_ERROR_AUX_INFO e = aux mod 256 /\
  TEGRABL_ERROR_MODULE e = module mod 256 /\ TEGRABL_ERROR_HIGHEST_MODULE e = module mod 256 /\
  TEGRABL_ERROR_HIGHEST_MODULE e' = m mod 256 /\ TEGRABL_ERROR_MODULE e' = module mod 256 /\
  TEGRABL_ERROR_AUX_INFO e' = aux mod 256 /\ TEGRABL_ERROR_REASON e' = reason mod 256 /\
  TEGRABL_ERROR_MODULE e1 = m mod 256 /\ TEGRABL_ERROR_HIGHEST_MODULE e1 = module mod 256 /\
  TEGRABL_ERROR_AUX_INFO e1 = aux mod 256 /\ TEGRABL_ERROR_REASON e1 = reason mod 256 /\
  TEGRABL_ERROR_AUX_INFO e2 = m mod 256 /\ TEGRABL_ERROR_MODULE e2 = module mod 256 /\
  TEGRABL_ERROR_HIGHEST_MODULE e2 = module mod 256 /\ TEGRABL_ERROR_REASON e2 = reason mod 256.
Proof.
  intros e e' e1 e2. unfold e', e1, e2, tegrabl_err_set_highest_module, tegrabl_err_set_lowest_module, tegrabl_err_set_aux_info.
  rewrite !reason_get.
  unfold TEGRABL_ERROR_AUX_INFO, TEGRABL_ERROR_MODULE, TEGRABL_ERROR_HIGHEST_MODULE.
  unfold TEGRABL_ERR_AUX_INFO_SHIFT, TEGRABL_ERR_AUX_INFO_WIDTH, TEGRABL_ERR_MODULE_WIDTH,
    TEGRABL_ERR_LOWEST_MODULE_SHIFT, TEGRABL_ERR_HIGHEST_MODULE_SHIFT.
  rewrite !error_field_get by lia. unfold e, tegrabl_error_value.
  unfold TEGRABL_ERR_AUX_INFO_SHIFT, TEGRABL_ERR_AUX_INFO_WIDTH, TEGRABL_ERR_MODULE_WIDTH,
    TEGRABL_ERR_REASON_WIDTH, TEGRABL_ERR_REASON_SHIFT,
    TEGRABL_ERR_LOWEST_MODULE_SHIFT, TEGRABL_ERR_HIGHEST_MODULE_SHIFT.
  split_and!; field_read; unfold wrapw; change (2 ^ 8) with 256; by rewrite ?Z.mod_mod by lia.
Qed.

(** The expansion writes only inside the buffer it is given, and leaves there
    the text with its arguments substituted, cut to [err_size - 1] characters
    and terminated. *)
Theorem pre_process_expands buf err_size reason args s t :
  table_entry error_reason_strings reason = Some s ->
  expansion (String.list_ascii_of_string s) args false = Some t ->
  length buf = err_size -> (0 < err_size)%nat -> Z.of_nat err_size < 2 ^ 32 ->
  exists buf' count,
    pre_process_error_string buf err_size reason args = Ret (buf', count) /\
    length buf' = err_size /\
    let n := Nat.min (err_size - 1) (length t) in
    take n buf' = take n t /\ buf' !! n = Some "000"%char /\
    0 <= count <= Z.of_nat (length args).
Proof.
  intros Hs Ht Hl Hpos Hlt. unfold pre_process_error_string. rewrite Hs.
  destruct (expand_pattern_spec err_size _ args false buf 0 0 [] t Ht) as (buf' & index & count & Heq & Hp & Hc).
  { unfold holds_prefix. simpl. split_and!; [done|lia|done]. }
  rewrite Heq. cbn [obind app] in Hp |- *. destruct Hp as (Hlen & Hidx & Htk).
  assert (Hw : u32 (Z.of_nat err_size - 1) = Z.of_nat (err_size - 1)).
  { rewrite wrapw_small by (unfold in_word; lia). lia. }
  rewrite Hw. replace (Z.to_nat _) with (Nat.min (err_size - 1) (length t)) by lia.
  set (n := Nat.min (err_size - 1) (length t)).
  destruct (Nat.ltb_spec n (length buf')); [|lia].
  eexists _, count. split_and!; try done; [by rewrite length_insert | | |lia..].
  - rewrite take_insert_ge by lia. apply (f_equal (take n)) in Htk.
    rewrite !take_take in Htk. by replace (Nat.min n index) with n in Htk by lia.
  - by apply list_lookup_insert_eq.
Qed.

Definition not_supported_text : String.string :=
  default String.EmptyString (table_entry error_reason_strings TEGRABL_ERR_NOT_SUPPORTED).

Definition not_supported_expanded : list ascii :=
  default [] (expansion (String.list_ascii_of_string not_supported_text) [["a"%char]] false).

Example pre_process_expands_witness :
  exists buf' count,
    pre_process_error_string (repeat "x"%char 10) 10 TEGRABL_ERR_NOT_SUPPORTED [["a"%char]] = Ret (buf', count) /\
    length buf' = 10%nat /\
    let n := Nat.min (10 - 1) (length not_supported_expanded) in
    take n buf' = take n not_supported_expanded /\ buf' !! n = Some "000"%char /\
    0 <= count <= Z.of_nat (length [["a"%char]]).
Proof.
  apply (pre_process_expands (repeat "x"%char 10) 10 TEGRABL_ERR_NOT_SUPPORTED [["a"%char]]
    not_supported_text not_supported_expanded); reflexivity || lia.
Defined.

(** The reasons that have no text, and the modules that have no name. *)
Definition holes (t : list (Z * String.string)) (n : nat) : list Z :=
  filter (fun k => table_entry t k = None) (seqZ 0 (Z.of_nat n)).

(** The string tables are indexed by designated initialisers.  Every reason
    below [TEGRABL_ERR_REASON_END] has a text except [0] and
    [TEGRABL_ERR_MAP_FAILED], and every module has a name except six of the
    most recently added ones; for those the code prints through [NULL]. *)
Theorem string_tables_holes :
  (forall r, 0 <= r < TEGRABL_ERR_REASON_END ->
     table_entry error_reason_strings r = None <-> r = 0 \/ r = TEGRABL_ERR_MAP_FAILED) /\
  (forall m, 0 <= m < TEGRABL_ERR_MODULE_END ->
     tegrabl_error_module_str m = None <->
     m = TEGRABL_ERR_GR_SUPPORT \/ m = TEGRABL_ERR_EQOS \/ m = TEGRABL_ERR_PHY \/
     m = TEGRABL_ERR_SHELL \/ m = TEGRABL_ERR_PCIE \/ m = TEGRABL_ERR_NVME).
Proof.
  assert (H1 : holes error_reason_strings 0x46 = [0; TEGRABL_ERR_MAP_FAILED]) by reflexivity.
  assert (H2 : holes module_strings 0x81 =
    [TEGRABL_ERR_GR_SUPPORT; TEGRABL_ERR_EQOS; TEGRABL_ERR_PHY; TEGRABL_ERR_SHELL; TEGRABL_ERR_PCIE; TEGRABL_ERR_NVME]) by reflexivity.
  split; intros k Hk.
  - assert (Hin : k ∈ holes error_reason_strings 0x46 <-> table_entry error_reason_strings k = None).
    { unfold holes. rewrite list_elem_of_filter, elem_of_seqZ.
      unfold TEGRABL_ERR_REASON_END in Hk. split; [by intros [? _]|]. intros ?; split; [done|lia]. }
    rewrite <- Hin, H1. rewrite !elem_of_cons, elem_of_nil. tauto.
  - unfold tegrabl_error_module_str. destruct (Z.ltb_spec k TEGRABL_ERR_MODULE_END); [|lia].
    assert (Hin : k ∈ holes module_strings 0x81 <-> table_entry module_strings k = None).
    { unfold holes. rewrite list_elem_of_filter, elem_of_seqZ.
      unfold TEGRABL_ERR_MODULE_END in Hk. split; [by intros [? _]|]. intros ?; split; [done|lia]. }
    rewrite <- Hin, H2. rewrite !elem_of_cons, elem_of_nil. tauto.
Qed.
