(* ===== verification/Utils.v ===== *)
(** * Checksums, number parsing and byte order

    lib/utils/tegrabl_utils.c.  The crc table is copied from the source; the
    theorems relate it to the bit-serial definition of the crc. *)
From S2P Require Import Prelude.

(** ** crc32 *)

Definition tegrabl_crc32_tab : list Z := [
  0x00000000; 0x77073096; 0xee0e612c; 0x990951ba; 0x076dc419; 0x706af48f;
  0xe963a535; 0x9e6495a3; 0x0edb8832; 0x79dcb8a4; 0xe0d5e91e; 0x97d2d988;
  0x09b64c2b; 0x7eb17cbd; 0xe7b82d07; 0x90bf1d91; 0x1db71064; 0x6ab020f2;
  0xf3b97148; 0x84be41de; 0x1adad47d; 0x6ddde4eb; 0xf4d4b551; 0x83d385c7;
  0x136c9856; 0x646ba8c0; 0xfd62f97a; 0x8a65c9ec; 0x14015c4f; 0x63066cd9;
  0xfa0f3d63; 0x8d080df5; 0x3b6e20c8; 0x4c69105e; 0xd56041e4; 0xa2677172;
  0x3c03e4d1; 0x4b04d447; 0xd20d85fd; 0xa50ab56b; 0x35b5a8fa; 0x42b2986c;
  0xdbbbc9d6; 0xacbcf940; 0x32d86ce3; 0x45df5c75; 0xdcd60dcf; 0xabd13d59;
  0x26d930ac; 0x51de003a; 0xc8d75180; 0xbfd06116; 0x21b4f4b5; 0x56b3c423;
  0xcfba9599; 0xb8bda50f; 0x2802b89e; 0x5f058808; 0xc60cd9b2; 0xb10be924;
  0x2f6f7c87; 0x58684c11; 0xc1611dab; 0xb6662d3d; 0x76dc4190; 0x01db7106;
  0x98d220bc; 0xefd5102a; 0x71b18589; 0x06b6b51f; 0x9fbfe4a5; 0xe8b8d433;
  0x7807c9a2; 0x0f00f934; 0x9609a88e; 0xe10e9818; 0x7f6a0dbb; 0x086d3d2d;
  0x91646c97; 0xe6635c01; 0x6b6b51f4; 0x1c6c6162; 0x856530d8; 0xf262004e;
  0x6c0695ed; 0x1b01a57b; 0x8208f4c1; 0xf50fc457; 0x65b0d9c6; 0x12b7e950;
  0x8bbeb8ea; 0xfcb9887c; 0x62dd1ddf; 0x15da2d49; 0x8cd37cf3; 0xfbd44c65;
  0x4db26158; 0x3ab551ce; 0xa3bc0074; 0xd4bb30e2; 0x4adfa541; 0x3dd895d7;
  0xa4d1c46d; 0xd3d6f4fb; 0x4369e96a; 0x346ed9fc; 0xad678846; 0xda60b8d0;
  0x44042d73; 0x33031de5; 0xaa0a4c5f; 0xdd0d7cc9; 0x5005713c; 0x270241aa;
  0xbe0b1010; 0xc90c2086; 0x5768b525; 0x206f85b3; 0xb966d409; 0xce61e49f;
  0x5edef90e; 0x29d9c998; 0xb0d09822; 0xc7d7a8b4; 0x59b33d17; 0x2eb40d81;
  0xb7bd5c3b; 0xc0ba6cad; 0xedb88320; 0x9abfb3b6; 0x03b6e20c; 0x74b1d29a;
  0xead54739; 0x9dd277af; 0x04db2615; 0x73dc1683; 0xe3630b12; 0x94643b84;
  0x0d6d6a3e; 0x7a6a5aa8; 0xe40ecf0b; 0x9309ff9d; 0x0a00ae27; 0x7d079eb1;
  0xf00f9344; 0x8708a3d2; 0x1e01f268; 0x6906c2fe; 0xf762575d; 0x806567cb;
  0x196c3671; 0x6e6b06e7; 0xfed41b76; 0x89d32be0; 0x10da7a5a; 0x67dd4acc;
  0xf9b9df6f; 0x8ebeeff9; 0x17b7be43; 0x60b08ed5; 0xd6d6a3e8; 0xa1d1937e;
  0x38d8c2c4; 0x4fdff252; 0xd1bb67f1; 0xa6bc5767; 0x3fb506dd; 0x48b2364b;
  0xd80d2bda; 0xaf0a1b4c; 0x36034af6; 0x41047a60; 0xdf60efc3; 0xa867df55;
  0x316e8eef; 0x4669be79; 0xcb61b38c; 0xbc66831a; 0x256fd2a0; 0x5268e236;
  0xcc0c7795; 0xbb0b4703; 0x220216b9; 0x5505262f; 0xc5ba3bbe; 0xb2bd0b28;
  0x2bb45a92; 0x5cb36a04; 0xc2d7ffa7; 0xb5d0cf31; 0x2cd99e8b; 0x5bdeae1d;
  0x9b64c2b0; 0xec63f226; 0x756aa39c; 0x026d930a; 0x9c0906a9; 0xeb0e363f;
  0x72076785; 0x05005713; 0x95bf4a82; 0xe2b87a14; 0x7bb12bae; 0x0cb61b38;
  0x92d28e9b; 0xe5d5be0d; 0x7cdcefb7; 0x0bdbdf21; 0x86d3d2d4; 0xf1d4e242;
  0x68ddb3f8; 0x1fda836e; 0x81be16cd; 0xf6b9265b; 0x6fb077e1; 0x18b74777;
  0x88085ae6; 0xff0f6a70; 0x66063bca; 0x11010b5c; 0x8f659eff; 0xf862ae69;
  0x616bffd3; 0x166ccf45; 0xa00ae278; 0xd70dd2ee; 0x4e048354; 0x3903b3c2;
  0xa7672661; 0xd06016f7; 0x4969474d; 0x3e6e77db; 0xaed16a4a; 0xd9d65adc;
  0x40df0b66; 0x37d83bf0; 0xa9bcae53; 0xdebb9ec5; 0x47b2cf7f; 0x30b5ffe9;
  0xbdbdf21c; 0xcabac28a; 0x53b39330; 0x24b4a3a6; 0xbad03605; 0xcdd70693;
  0x54de5729; 0x23d967bf; 0xb3667a2e; 0xc4614ab8; 0x5d681b02; 0x2a6f2b94;
  0xb40bbe37; 0xc30c8ea1; 0x5a05df1b; 0x2d02ef8d].

(** One iteration of the loop of [tegrabl_utils_crc32]. *)
Definition crc32_step (final_crc b : Z) : Z :=
  Z.lxor (default 0 (tegrabl_crc32_tab !! Z.to_nat (Z.land (Z.lxor final_crc b) 0xFF)))
         (Z.shiftr final_crc 8).

(** [~0U] *)
Definition UINT_MAX : Z := 0xFFFFFFFF.

Definition tegrabl_utils_crc32 (val : Z) (buffer : list Z) : Z :=
  Z.lxor (fold_left crc32_step buffer (Z.lxor val UINT_MAX)) UINT_MAX.

(** ** Byte sum and crc8 *)

Definition tegrabl_utils_checksum (buffer : list Z) : Z :=
  fold_left (fun checksum b => u32 (checksum + b)) buffer 0.

(** The inner loop over the bits of one byte. *)
Fixpoint crc8_bits (i : nat) (t crc8 : Z) : Z :=
  match i with
  | O => crc8
  | S i' =>
      let odd := Z.land (Z.lxor t crc8) 1 =? 1 in
      let crc8 := Z.shiftr crc8 1 in
      let t := Z.shiftr t 1 in
      crc8_bits i' t (if odd then Z.lxor crc8 0x8c else crc8)
  end.

Definition tegrabl_utils_crc8 (buffer : list Z) : Z :=
  fold_left (fun crc8 t => crc8_bits 8 t crc8) buffer 0.

(** The decimal number whose digits are the bits of a byte. *)
Fixpoint convert_bits (i : nat) (byte_value byte_num : Z) : Z :=
  match i with
  | O => byte_num
  | S i' =>
      let bit_value := u8 (Z.land byte_value (Z.shiftl 1 (Z.of_nat i'))) in
      let bit_value := Z.shiftr bit_value (Z.of_nat i') in
      convert_bits i' byte_value (u32 (u32 (byte_num * 10) + bit_value))
  end.

Definition tegrabl_utils_convert_to_binary (byte_value : Z) : Z := convert_bits 8 byte_value 0.

(** ** String to number *)

Definition ULONG_MAX : Z := 2 ^ 64 - 1.

Definition check_overflow (acc val base : Z) : bool :=
  let cutoff := ULONG_MAX / base in
  let cutlim := ULONG_MAX mod base in
  (cutoff <? acc) || ((acc =? cutoff) && (cutlim <? val)).

(** [temp1] of the parse loop. *)
Definition digit_value (c base : Z) : Z :=
  if (48 <=? c) && (c <=? 57) then c - 48
  else if (65 <=? c) && (c <=? 90) then c - 65 + 10
  else if (97 <=? c) && (c <=? 122) then c - 97 + 10
  else base.

(** The loop: the string is the list of its characters, and the NUL that ends
    it is not a digit.  [n] counts the characters before the current one. *)
Fixpoint parse_loop (s : list Z) (base acc any : Z) (n : nat) : Z * Z * nat :=
  match s with
  | [] => (acc, any, n)
  | c :: s' =>
      let temp1 := digit_value c base in
      if base <=? temp1 then (acc, any, n)
      else if any <? 0 then parse_loop s' base acc any (S n)
      else if check_overflow acc temp1 base then parse_loop s' base ULONG_MAX (-1) (S n)
      else parse_loop s' base (u64 (u64 (acc * base) + temp1)) 1 (S n)
  end.

(** Returns the value and the offset of [*endptr] from [nptr]; [off] is the
    offset of [s].  Negating [LONG_MIN] overflows a [signed long]. *)
Definition tegrabl_utils_strtoul_parse (s : list Z) (off : nat) (base : Z) (neg : bool)
  : outcome (Z * nat) :=
  let '(acc, any, n) := parse_loop s base 0 0 0 in
  let endptr := if negb (any =? 0) then (off + n)%nat else O in
  if neg && (0 <? any) then
    if s64 acc =? - 2 ^ 63 then Undef else Ret (u64 (s64 acc * -1), endptr)
  else Ret (acc, endptr).

Definition is_valid_base (base : Z) : bool :=
  negb ((base <? 0) || (base =? 1) || (36 <? base)).

Definition has_hex_base_chars (s : list Z) : bool :=
  (default 0 (s !! 0%nat) =? 48) &&
  ((default 0 (s !! 1%nat) =? 120) || (default 0 (s !! 1%nat) =? 88)).

Section Strtoul.
(** [isspace] of the C library. *)
Variable isspace : Z -> Z.

Fixpoint remove_spaces (s : list Z) : list Z * nat :=
  match s with
  | [] => ([], O)
  | c :: s' => if isspace c =? 1 then let '(r, n) := remove_spaces s' in (r, S n) else (s, O)
  end.

Definition tegrabl_utils_strtoul (nptr : list Z) (base : Z) : outcome (Z * nat) :=
  if negb (is_valid_base base) then Ret (0, O)
  else
    let '(s, off) := remove_spaces nptr in
    let '(neg, s, off) :=
      if default 0 (head s) =? 45 then (true, tail s, S off)
      else if default 0 (head s) =? 43 then (false, tail s, S off)
      else (false, s, off) in
    let '(base, s, off) :=
      if ((base =? 0) || (base =? 16)) && has_hex_base_chars s
      then (16, drop 2 s, (off + 2)%nat) else (base, s, off) in
    let base := if base =? 0 then (if default 0 (s !! 0%nat) =? 48 then 8 else 10) else base in
    tegrabl_utils_strtoul_parse s off base neg.
End Strtoul.

(** ** Byte order *)

(** [dptr[i]] on the little-endian target. *)
Definition byte_of (data i : Z) : Z := Z.shiftr data (8 * i) mod 256.

Definition be32tole32 (data : Z) : Z :=
  let result := u32 (Z.shiftl (byte_of data 0) 24) in
  let result := Z.lor result (Z.shiftl (byte_of data 1) 16) in
  let result := Z.lor result (Z.shiftl (byte_of data 2) 8) in
  Z.lor result (byte_of data 3).

Definition le32tobe32 (data : Z) : Z :=
  let b0 := u8 (Z.land (Z.shiftr data 24) 0xFF) in
  let b1 := u8 (Z.land (Z.shiftr data 16) 0xFF) in
  let b2 := u8 (Z.land (Z.shiftr data 8) 0xFF) in
  let b3 := u8 (Z.land data 0xFF) in
  ldn 4 [b0; b1; b2; b3] 0.

(** [tegrabl_utils_range_check] *)
Definition tegrabl_utils_range_check (start size value : Z) : bool :=
  (start <=? value) && (value <? u64 (start + size)).

(** ** The bit-serial crc32 *)

Definition CRC32_POLY : Z := 0xEDB88320.

Definition crc32_bit (c : Z) : Z :=
  Z.lxor (Z.shiftr c 1) (if Z.testbit c 0 then CRC32_POLY else 0).

Definition crc32_byte (c b : Z) : Z := Nat.iter 8 crc32_bit (Z.lxor c b).

Definition crc32_spec (val : Z) (buffer : list Z) : Z :=
  Z.lxor (fold_left crc32_byte buffer (Z.lxor val UINT_MAX)) UINT_MAX.

(** ** Lemmas *)

Ltac xor_bits :=
  apply Z.bits_inj'; intros; rewrite ?Z.lxor_spec;
  repeat match goal with |- context [Z.testbit ?a ?b] => destruct (Z.testbit a b) end; reflexivity.

Lemma lxor_cancel a m : Z.lxor (Z.lxor a m) m = a.
Proof. by rewrite Z.lxor_assoc, Z.lxor_nilpotent, Z.lxor_0_r. Qed.

Lemma crc32_bit_lxor a b : crc32_bit (Z.lxor a b) = Z.lxor (crc32_bit a) (crc32_bit b).
Proof.
  unfold crc32_bit. rewrite Z.shiftr_lxor, Z.lxor_spec.
  generalize (Z.shiftr a 1), (Z.shiftr b 1). intros x y.
  destruct (Z.testbit a 0), (Z.testbit b 0); simpl; rewrite ?Z.lxor_0_r; xor_bits.
Qed.

Lemma iter_bit_lxor n a b :
  Nat.iter n crc32_bit (Z.lxor a b) = Z.lxor (Nat.iter n crc32_bit a) (Nat.iter n crc32_bit b).
Proof. induction n; simpl; [done|]. by rewrite IHn, crc32_bit_lxor. Qed.

Lemma iter_bit_shift n y : Nat.iter n crc32_bit (Z.shiftl y (Z.of_nat n)) = y.
Proof.
  revert y. induction n; intros y; [apply Z.shiftl_0_r|].
  rewrite Nat.iter_succ_r. unfold crc32_bit at 2.
  rewrite Z.shiftl_spec, Z.testbit_neg_r, Z.lxor_0_r by lia.
  rewrite Z.shiftr_shiftl_l by lia. by replace (Z.of_nat (S n) - 1) with (Z.of_nat n) by lia.
Qed.

Lemma land_255 x : Z.land x 255 = x mod 256.
Proof. change 255 with (Z.ones 8). by rewrite Z.land_ones. Qed.

Lemma low_high x : x = Z.lxor (Z.land x 255) (Z.shiftl (Z.shiftr x 8) 8).
Proof.
  apply Z.bits_inj'. intros i Hi. rewrite Z.lxor_spec, Z.land_spec, Z.shiftl_spec by lia.
  change 255 with (Z.ones 8). rewrite Z.testbit_ones_nonneg by lia.
  destruct (Z.ltb_spec i 8).
  - rewrite (Z.testbit_neg_r _ (i - 8)) by lia. by rewrite andb_true_r, xorb_false_r.
  - rewrite Z.shiftr_spec by lia. rewrite andb_false_r, xorb_false_l. f_equal. lia.
Qed.

(** Every entry of the table is the crc of its index. *)
Lemma crc32_tab_correct k : 0 <= k < 256 ->
  tegrabl_crc32_tab !! Z.to_nat k = Some (Nat.iter 8 crc32_bit k).
Proof.
  intros Hk.
  assert (H : forallb (fun n => bool_decide (tegrabl_crc32_tab !! n =
    Some (Nat.iter 8 crc32_bit (Z.of_nat n)))) (seq 0 256) = true) by (vm_compute; reflexivity).
  rewrite forallb_forall in H. specialize (H (Z.to_nat k)).
  rewrite Z2Nat.id in H by lia. apply bool_decide_eq_true in H; [done|].
  apply in_seq. lia.
Qed.

Lemma crc32_step_byte c b : 0 <= c -> is_byte b -> crc32_step c b = crc32_byte c b.
Proof.
  intros Hc Hb. unfold crc32_step, crc32_byte. set (x := Z.lxor c b).
  etransitivity; [|symmetry; apply (f_equal (Nat.iter 8 crc32_bit)), (low_high x)].
  rewrite iter_bit_lxor, (iter_bit_shift 8). rewrite land_255.
  rewrite crc32_tab_correct by (apply Z.mod_pos_bound; lia). cbn [default].
  f_equal. unfold x. rewrite Z.shiftr_lxor. unfold is_byte in Hb.
  rewrite (Z.shiftr_div_pow2 b) by lia. rewrite (Z.div_small b) by (simpl; lia).
  by rewrite Z.lxor_0_r.
Qed.

Lemma iter_bit_nonneg n z : 0 <= z -> 0 <= Nat.iter n crc32_bit z.
Proof.
  intros Hz. induction n; [done|]. cbn [Nat.iter nat_rect]. unfold crc32_bit at 1.
  assert (0 <= CRC32_POLY) by (unfold CRC32_POLY; lia).
  apply Z.lxor_nonneg. split; intros _; [by destruct (Z.testbit _ _)|].
  by apply Z.shiftr_nonneg.
Qed.

Lemma crc32_byte_nonneg c b : 0 <= c -> 0 <= b -> 0 <= crc32_byte c b.
Proof. intros. apply iter_bit_nonneg, Z.lxor_nonneg. lia. Qed.

(** As a rewrite rule, so that the kernel never has to compare two folds. *)
Lemma fold_left_cons {A B} (f : A -> B -> A) x l a :
  fold_left f (x :: l) a = fold_left f l (f a x).
Proof. reflexivity. Qed.

Lemma crc32_fold buf c : 0 <= c -> bytes buf ->
  fold_left crc32_step buf c = fold_left crc32_byte buf c.
Proof.
  revert c. induction buf as [|b buf IH]; intros c Hc Hb; [reflexivity|].
  apply Forall_cons in Hb as [Hb Hbs]. rewrite !fold_left_cons, crc32_step_byte by assumption.
  apply IH; [|done]. apply crc32_byte_nonneg; [done|apply Hb].
Qed.

Lemma crc32_step_range c b : in_word 32 c -> is_byte b -> in_word 32 (crc32_step c b).
Proof.
  intros Hc Hb. unfold crc32_step. apply in_word_lxor; [lia| |apply in_word_shiftr; [lia..|done]].
  rewrite land_255. pose proof (Z.mod_pos_bound (Z.lxor c b) 256 ltac:(lia)) as Hk.
  generalize dependent (Z.lxor c b mod 256). intros k Hk.
  assert (H : forallb (fun x => (0 <=? x) && (x <? 2 ^ 32)) tegrabl_crc32_tab = true)
    by (vm_compute; reflexivity).
  rewrite forallb_forall in H.
  destruct (tegrabl_crc32_tab !! Z.to_nat k) as [x|] eqn:E; simpl; [|unfold in_word; lia].
  apply list_elem_of_lookup_2, list_elem_of_In, H in E. unfold in_word. lia.
Qed.

Lemma crc32_range buffer : bytes buffer -> in_word 32 (tegrabl_utils_crc32 0 buffer).
Proof.
  intros Hb. unfold tegrabl_utils_crc32.
  assert (Hm : in_word 32 UINT_MAX) by (unfold in_word, UINT_MAX; lia).
  apply in_word_lxor; [lia| |done]. change (Z.lxor 0 UINT_MAX) with UINT_MAX.
  revert Hm. generalize UINT_MAX. induction Hb as [|b l Hb _ IH]; intros c Hc; [done|].
  rewrite fold_left_cons. apply IH. by apply crc32_step_range.
Qed.

(** The bits of the xor of a byte with itself are never odd. *)
Lemma crc8_bits_self i c : crc8_bits i c c = Z.shiftr c (Z.of_nat i).
Proof.
  revert c. induction i; intros c; [by rewrite Z.shiftr_0_r|].
  cbn [crc8_bits]. rewrite Z.lxor_nilpotent. change (Z.land 0 1 =? 1) with false. cbn.
  rewrite IHi, Z.shiftr_shiftr by lia. f_equal. lia.
Qed.

Lemma crc8_bits_range i t c : 0 <= t -> is_byte c -> is_byte (crc8_bits i t c).
Proof.
  revert t c. induction i; intros t c Ht Hc; [done|]. cbn [crc8_bits]. unfold is_byte in *.
  assert (Hr : 0 <= Z.shiftr c 1 < 128).
  { rewrite Z.shiftr_div_pow2 by lia. change (2 ^ 1) with 2. Z.div_mod_to_equations. lia. }
  apply IHi; [by apply Z.shiftr_nonneg|]. case_match; [|lia].
  assert (0 <= Z.lxor (Z.shiftr c 1) 0x8c) by (apply Z.lxor_nonneg; lia).
  split; [done|]. destruct (decide (Z.lxor (Z.shiftr c 1) 0x8c = 0)) as [->|]; [lia|].
  apply (Z.log2_lt_pow2 _ 8); [lia|].
  eapply Z.le_lt_trans; [apply Z.log2_lxor; lia|].
  assert (Z.log2 (Z.shiftr c 1) <= Z.log2 127) by (apply Z.log2_le_mono; lia).
  change (Z.log2 127) with 6 in *. change (Z.log2 0x8c) with 7. lia.
Qed.

(** The number denoted by a list of digits. *)
Definition digits_value (base : Z) (ds : list Z) (acc : Z) : Z :=
  fold_left (fun a d => a * base + d) ds acc.

Lemma digits_value_mono base ds acc :
  2 <= base -> 0 <= acc -> Forall (fun d => 0 <= d) ds -> acc <= digits_value base ds acc.
Proof.
  intros Hb Ha Hd. revert acc Ha. induction Hd as [|d ds Hd0 _ IH]; intros acc Ha; simpl; [lia|].
  unfold digits_value in *. simpl. specialize (IH (acc * base + d)). nia.
Qed.

Lemma check_overflow_spec acc v base :
  2 <= base -> 0 <= acc -> 0 <= v < base ->
  check_overflow acc v base = (ULONG_MAX <? acc * base + v).
Proof.
  intros. unfold check_overflow. apply eq_iff_eq_true.
  rewrite orb_true_iff, andb_true_iff, !Z.ltb_lt, Z.eqb_eq.
  pose proof (Z.div_mod ULONG_MAX base). pose proof (Z.mod_pos_bound ULONG_MAX base).
  set (q := ULONG_MAX / base) in *. set (r := ULONG_MAX mod base) in *. nia.
Qed.

(** Once the value has overflowed the remaining digits are only skipped. *)
Lemma parse_loop_overflowed s rest base acc n :
  Forall (fun c => digit_value c base < base) s ->
  base <= digit_value (default 0 (head rest)) base ->
  parse_loop (s ++ rest) base acc (-1) n = (acc, -1, (n + length s)%nat).
Proof.
  intros Hs Hr. revert n. induction Hs as [|c s Hc _ IH]; intros n; simpl.
  - rewrite Nat.add_0_r. destruct rest as [|r rest]; [done|]. simpl in *.
    by destruct (Z.leb_spec base (digit_value r base)); [|lia].
  - destruct (Z.leb_spec base (digit_value c base)); [lia|].
    change (-1 <? 0) with true. cbv iota. rewrite IH. f_equal. lia.
Qed.

Lemma parse_loop_spec s rest base acc any n :
  2 <= base -> 0 <= acc <= ULONG_MAX -> 0 <= any ->
  Forall (fun c => 0 <= digit_value c base < base) s ->
  base <= digit_value (default 0 (head rest)) base ->
  let v := digits_value base ((fun c => digit_value c base) <$> s) acc in
  parse_loop (s ++ rest) base acc any n =
    (Z.min v ULONG_MAX,
     if ULONG_MAX <? v then -1 else match s with [] => any | _ => 1 end, (n + length s)%nat).
Proof.
  intros Hb Hacc Hany Hs Hr. revert acc any n Hacc Hany.
  induction Hs as [|c s Hc Hs IH]; intros acc any n Hacc Hany; cbv zeta.
  - unfold digits_value; simpl. rewrite Nat.add_0_r.
    destruct (Z.ltb_spec ULONG_MAX acc); [lia|]. rewrite Z.min_l by lia.
    destruct rest as [|r rest]; [done|]. simpl in *.
    by destruct (Z.leb_spec base (digit_value r base)); [|lia].
  - unfold digits_value. cbn [fmap list_fmap fold_left].
    change (fold_left _ ?l ?a) with (digits_value base l a). simpl in Hc.
    cbn [app parse_loop]. set (d := digit_value c base) in *.
    destruct (Z.leb_spec base d); [lia|]. destruct (Z.ltb_spec any 0); [lia|].
    rewrite check_overflow_spec by lia.
    assert (Hmono : acc * base + d <= digits_value base ((fun c => digit_value c base) <$> s) (acc * base + d)).
    { apply digits_value_mono; [done|nia|]. rewrite Forall_fmap.
      eapply Forall_impl; [exact Hs|]. simpl. lia. }
    destruct (Z.ltb_spec ULONG_MAX (acc * base + d)).
    + rewrite parse_loop_overflowed; [| |done].
      2: { eapply Forall_impl; [exact Hs|]. simpl. lia. }
      destruct (Z.ltb_spec ULONG_MAX (digits_value base ((fun c => digit_value c base) <$> s) (acc * base + d))); [|lia].
      rewrite Z.min_r by lia. simpl length. f_equal. lia.
    + assert (0 <= acc * base) by nia.
      rewrite (wrapw_small 64 (acc * base)) by (unfold in_word, ULONG_MAX in *; lia).
      rewrite (wrapw_small 64 (acc * base + d)) by (unfold in_word, ULONG_MAX in *; lia).
      rewrite IH by nia. cbv zeta. cbn [length]. f_equal; [|lia].
      f_equal. by destruct s; case_match.
Qed.

Lemma remove_spaces_none isspace s :
  isspace (default 0 (head s)) <> 1 -> remove_spaces isspace s = (s, O).
Proof. destruct s as [|c s]; [done|]. simpl. intros H. by destruct (Z.eqb_spec (isspace c) 1). Qed.

Lemma digit_value_digit c base :
  48 <= c <= 57 -> digit_value c base = c - 48.
Proof.
  intros. unfold digit_value.
  by replace ((48 <=? c) && (c <=? 57)) with true by lia.
Qed.

Lemma digit_value_bound c base : 0 <= digit_value c base \/ digit_value c base = base.
Proof. unfold digit_value. repeat case_match; zbool; lia. Qed.

(** ** Theorems *)

(** The table-driven crc is the bit-serial crc with the reflected polynomial
    0xEDB88320. *)
Theorem crc32_table_driven val buffer :
  in_word 32 val -> bytes buffer ->
  tegrabl_utils_crc32 val buffer = crc32_spec val buffer.
Proof.
  intros Hv Hb. unfold tegrabl_utils_crc32, crc32_spec. f_equal.
  apply crc32_fold; [|done]. apply Z.lxor_nonneg. unfold in_word, UINT_MAX in *. lia.
Qed.

Example crc32_table_driven_witness :
  in_word 32 0 /\ bytes [0x31; 0x32] /\
  tegrabl_utils_crc32 0 [0x31; 0x32] = crc32_spec 0 [0x31; 0x32].
Proof.
  assert (H1 : in_word 32 0) by (unfold in_word; lia).
  assert (H2 : bytes [0x31; 0x32]) by (repeat constructor; unfold is_byte; lia).
  split; [exact H1|]. split; [exact H2|]. exact (crc32_table_driven 0 [0x31; 0x32] H1 H2).
Defined.

(** The crc of a buffer can be computed piecewise, passing the crc of the
    first part as the initial value for the second. *)
Theorem crc32_chain val a b :
  tegrabl_utils_crc32 (tegrabl_utils_crc32 val a) b = tegrabl_utils_crc32 val (a ++ b).
Proof. unfold tegrabl_utils_crc32. by rewrite lxor_cancel, fold_left_app. Qed.

(** Appending its own crc8 to a buffer makes the crc8 zero, and the crc8 is a
    byte. *)
Theorem crc8_self_check buffer :
  bytes buffer ->
  is_byte (tegrabl_utils_crc8 buffer) /\
  tegrabl_utils_crc8 (buffer ++ [tegrabl_utils_crc8 buffer]) = 0.
Proof.
  intros Hb.
  assert (Hr : is_byte (tegrabl_utils_crc8 buffer)).
  { unfold tegrabl_utils_crc8. assert (H0 : is_byte 0) by (unfold is_byte; lia).
    revert H0. generalize 0. induction Hb as [|b l Hb _ IH]; intros c Hc; [done|].
    rewrite fold_left_cons. apply IH. apply crc8_bits_range; [apply Hb|done]. }
  split; [done|]. unfold tegrabl_utils_crc8 at 1. rewrite fold_left_app.
  change (fold_left _ buffer 0) with (tegrabl_utils_crc8 buffer). cbn [fold_left].
  rewrite crc8_bits_self, Z.shiftr_div_pow2 by lia. apply Z.div_small. exact Hr.
Qed.

Example crc8_self_check_witness :
  is_byte (tegrabl_utils_crc8 [1; 2; 200]) /\
  tegrabl_utils_crc8 ([1; 2; 200] ++ [tegrabl_utils_crc8 [1; 2; 200]]) = 0.
Proof. apply (crc8_self_check [1; 2; 200]). repeat constructor; unfold is_byte; lia. Defined.

(** A run of digits of the base, ended by a character that is not one, is read
    as the number it denotes, saturated at [ULONG_MAX], and [endptr] is left
    at the first character that is not a digit.  The number may not start with
    a space, a sign or a base prefix.  [isspace] is only assumed not to
    recognise the first digit. *)
Theorem strtoul_reads_number isspace base s rest :
  2 <= base <= 36 -> s <> [] ->
  Forall (fun c => 0 <= digit_value c base < base) s ->
  base <= digit_value (default 0 (head rest)) base ->
  isspace (default 0 (head s)) <> 1 ->
  (base = 16 -> has_hex_base_chars (s ++ rest) = false) ->
  tegrabl_utils_strtoul isspace (s ++ rest) base =
    Ret (Z.min (digits_value base ((fun c => digit_value c base) <$> s) 0) ULONG_MAX, length s).
Proof.
  intros Hb Hne Hs Hr Hsp Hhex. unfold tegrabl_utils_strtoul.
  assert (Hv : is_valid_base base = true).
  { unfold is_valid_base. apply negb_true_iff, orb_false_iff. split; [apply orb_false_iff; split|]; lia. }
  rewrite Hv. cbn [negb]. destruct s as [|c s]; [done|].
  rewrite remove_spaces_none by done. cbn [app head default].
  assert (Hc : 0 <= digit_value c base < base) by (by inversion Hs).
  assert (Hn : (c =? 45) = false /\ (c =? 43) = false).
  { unfold digit_value in Hc. split; apply Z.eqb_neq; intros ->; simpl in Hc; lia. }
  unfold id; destruct Hn as [-> ->].
  assert (Hx : ((base =? 0) || (base =? 16)) && has_hex_base_chars (c :: s ++ rest) = false).
  { destruct (Z.eqb_spec base 16) as [E|].
    - assert (has_hex_base_chars (c :: s ++ rest) = false) as -> by exact (Hhex E). apply andb_false_r.
    -
    by replace (base =? 0) with false by lia. }
  rewrite Hx. replace (base =? 0) with false by lia. unfold tegrabl_utils_strtoul_parse.
  change (c :: s ++ rest) with ((c :: s) ++ rest).
  rewrite (parse_loop_spec (c :: s) rest base 0 0 0) by (unfold ULONG_MAX; lia || done).
  cbn [andb]. by destruct (Z.ltb_spec ULONG_MAX (digits_value base ((fun c => digit_value c base) <$> c :: s) 0)).
Qed.

Example strtoul_reads_number_witness :
  tegrabl_utils_strtoul (fun c => if c =? 32 then 1 else 0) ([0x34; 0x32] ++ [0x3b]) 10 =
    Ret (Z.min (digits_value 10 ((fun c => digit_value c 10) <$> [0x34; 0x32]) 0) ULONG_MAX, 2%nat).
Proof.
  apply (strtoul_reads_number (fun c => if c =? 32 then 1 else 0) 10 [0x34; 0x32] [0x3b]).
  - lia.
  - discriminate.
  - repeat constructor; vm_compute; congruence.
  - vm_compute. congruence.
  - vm_compute. discriminate.
  - discriminate.
Defined.
