(* ===== verification/AbBoot.v ===== *)
(** * A/B boot control

    lib/a_b_boot/tegrabl_a_b_boot_control.c with the macros and the packed
    structs of include/lib/tegrabl_a_b_boot_control.h.

    The slot metadata (SMD) buffer is the list of its bytes, with the offsets
    of the packed structs; the library's static variables are the record [ab];
    the scratch registers, the partition API and the heap are used through the
    classes of Interfaces.v.  A [void *smd] that the code compares with [NULL]
    is an [option]; out-parameters are results. *)
From S2P Require Import Prelude Errors Utils Interfaces.

(** ** Layout of [struct slot_meta_data_v2] *)

Definition SMD_MAGIC_OFF : nat := 0.
Definition SMD_VERSION_OFF : nat := 4.
Definition SMD_NUM_SLOTS_OFF : nat := 6.
Definition SMD_SLOT_INFO_OFF : nat := 8.
Definition SMD_CRC32_OFF : nat := 18.
(** [sizeof(struct slot_meta_data)] *)
Definition SMD_LEN : nat := 22.
Definition EXT_CRC32_OFF : nat := 22.
Definition EXT_CRC32_LEN_OFF : nat := 26.
Definition EXT_ROOTFS_SELECT_OFF : nat := 38.
Definition EXT_ROOTFS_STATUS_OFF : nat := 39.
Definition EXT_ROOTFS_MISC_OFF : nat := 43.
Definition EXT_MAX_BL_RETRY_OFF : nat := 46.
(** [sizeof(struct slot_meta_data_ext)] *)
Definition SMD_EXT_LEN : nat := 169.
(** [sizeof(struct slot_meta_data_v2)] *)
Definition SMD_V2_LEN : nat := 191.

(** [struct boot_slot_info] is 5 bytes: priority, suffix[2], retry_count,
    boot_successful. *)
Definition SLOT_INFO_LEN : nat := 5.
Definition slot_field (slot : Z) (field : nat) : nat :=
  (SMD_SLOT_INFO_OFF + SLOT_INFO_LEN * Z.to_nat slot + field)%nat.
Definition PRIORITY_OFF (slot : Z) : nat := slot_field slot 0.
Definition SUFFIX_OFF (slot : Z) : nat := slot_field slot 1.
Definition RETRY_COUNT_OFF (slot : Z) : nat := slot_field slot 3.
Definition BOOT_SUCC_OFF (slot : Z) : nat := slot_field slot 4.

(** A byte at an offset that may be outside the buffer. *)
Definition rd8 (smd : list Z) (off : nat) : outcome Z :=
  if (off <? length smd)%nat then Ret (ld8 smd off) else Undef.

(** ** Constants *)

Definition MODULE : Z := TEGRABL_ERR_AB_BOOTCTRL.
Definition TEGRABL_ERROR (reason aux : Z) : Z := tegrabl_error_value MODULE aux reason.
Definition SET_HIGHEST_MODULE (e : Z) : Z := tegrabl_err_set_highest_module e MODULE.

Definition BOOT_CHAIN_MAGIC : Z := 0x43424E00.
Definition BOOT_CHAIN_SUFFIX_A : list Z := [95; 97].
Definition BOOT_CHAIN_SUFFIX_B : list Z := [95; 98].
Definition BOOT_CHAIN_VERSION_ONE : Z := 1.
Definition BOOT_CHAIN_VERSION_ROOTFS_AB : Z := 4.
Definition BOOT_CHAIN_VERSION_UNIFY_RF_BL_AB : Z := 5.
Definition BOOT_CHAIN_VERSION : Z := BOOT_CHAIN_VERSION_UNIFY_RF_BL_AB.
Definition BOOT_CHAIN_VERSION_GET (version : Z) : Z := Z.land version 0xFF.

Definition BOOTCTRL_SUPPORT_REDUNDANCY (v : Z) : bool := truthy (Z.land v (Z.shiftl 1 8)).
Definition BOOTCTRL_SUPPORT_REDUNDANCY_USER (v : Z) : bool := truthy (Z.land v (Z.shiftl 1 9)).
Definition BOOTCTRL_SUPPORT_ROOTFS_AB (v : Z) : bool := truthy (Z.land v (Z.shiftl 1 10)).
Definition BOOTCTRL_SUPPORT_UNIFIED_AB (v : Z) : bool := truthy (Z.land v (Z.shiftl 1 13)).
Definition BOOTCTRL_FEATURE_UNIFIED_AB (v : Z) : bool :=
  BOOT_CHAIN_VERSION_UNIFY_RF_BL_AB <=? BOOT_CHAIN_VERSION_GET v.
Definition BOOTCTRL_IS_UNIFIED_AB_ENABLED (v : Z) : bool :=
  BOOTCTRL_SUPPORT_UNIFIED_AB v && BOOTCTRL_SUPPORT_ROOTFS_AB v && BOOTCTRL_FEATURE_UNIFIED_AB v.

Definition SLOT_RETRY_COUNT_DEFAULT : Z := 7.
Definition SLOT_PRIORITY_DEFAULT : Z := 15.
Definition BOOT_SLOT_A : Z := 0.
Definition BOOT_SLOT_B : Z := 1.
Definition MAX_SLOTS : Z := 2.
Definition ROOTFS_A : Z := 0.
Definition ROOTFS_B : Z := 1.
Definition ROOTFS_INVALID : Z := 3.
Definition ROOTFS_RETRY_COUNT_DEFAULT : Z := 3.
Definition ROOTFS_AB_ROTATE_COUNT : Z := 4.
Definition ROOTFS_STATUS_NORMAL : Z := 0.
Definition ROOTFS_STATUS_BOOT_FAILED : Z := 3.
Definition ROOTFS_STATUS_END : Z := ROOTFS_STATUS_BOOT_FAILED.

Definition GET_ROOTFS_ACTIVE (rf_sel : Z) : Z := Z.shiftr (Z.land rf_sel 12) 2.
Definition SET_ROOTFS_ACTIVE (slot rf_sel : Z) : Z :=
  Z.lor (Z.land rf_sel (Z.lnot 12)) (Z.shiftl slot 2).
Definition GET_ROOTFS_RETRY_COUNT (rf_sel : Z) : Z := Z.land rf_sel 3.
Definition SET_ROOTFS_RETRY_COUNT (cnt rf_sel : Z) : Z := Z.lor (Z.land rf_sel (Z.lnot 3)) cnt.
Definition GET_MAX_ROOTFS_RETRY_COUNT (rf_misc : Z) : Z := Z.land rf_misc 3.

(** Fields of the boot chain scratch register; an assignment to the 32-bit
    variable truncates the [unsigned long] expression. *)
Definition REG_SET (reg v ones shift : Z) : Z :=
  u32 (Z.lor (Z.land reg (Z.lnot (Z.shiftl ones shift))) (Z.shiftl (Z.land v ones) shift)).
Definition REG_GET (reg ones shift : Z) : Z := Z.land (Z.shiftr reg shift) ones.

Definition BOOT_CHAIN_REG_MAGIC : Z := 0xCAFE.
Definition BOOT_CHAIN_REG_MAGIC_SET (reg : Z) : Z :=
  u32 (Z.lor (Z.land reg (Z.lnot 0xFFFF)) BOOT_CHAIN_REG_MAGIC).
Definition BOOT_CHAIN_REG_MAGIC_GET (reg : Z) : Z := Z.land reg 0xFFFF.
Definition BOOT_CHAIN_REG_SLOT_NUM_SET (slot reg : Z) : Z := REG_SET reg slot 0x07 16.
Definition BOOT_CHAIN_REG_SLOT_NUM_GET (reg : Z) : Z := REG_GET reg 0x07 16.
Definition BOOT_CHAIN_REG_MAX_SLOTS_SET (max_slots reg : Z) : Z := REG_SET reg max_slots 0x07 19.
Definition BOOT_CHAIN_REG_MAX_SLOTS_GET (reg : Z) : Z := REG_GET reg 0x07 19.
Definition BOOT_CHAIN_REG_B_RETRY_COUNT_SET (count reg : Z) : Z := REG_SET reg count 0x0F 22.
Definition BOOT_CHAIN_REG_B_RETRY_COUNT_GET (reg : Z) : Z := REG_GET reg 0x0F 22.
Definition BOOT_CHAIN_REG_A_RETRY_COUNT_SET (count reg : Z) : Z := REG_SET reg count 0x0F 26.
Definition BOOT_CHAIN_REG_A_RETRY_COUNT_GET (reg : Z) : Z := REG_GET reg 0x0F 26.
Definition BOOT_CHAIN_REG_UPDATE_FLAG_SET (flag reg : Z) : Z := REG_SET reg flag 0x03 30.
Definition BOOT_CHAIN_REG_UPDATE_FLAG_GET (reg : Z) : Z := REG_GET reg 0x03 30.
Definition BC_FLAG_REDUNDANCY_BOOT : Z := 1.
Definition BC_FLAG_OTA_ON : Z := 3.

(** [FROM_SMD_TO_REG] and [FROM_REG_TO_SMD] *)
Definition FROM_SMD_TO_REG : Z := 0.
Definition FROM_REG_TO_SMD : Z := 1.

(** Fields of the rootfs scratch register. *)
Definition ROOTFS_AB_REG_MAGIC : Z := 0xFACE.
Definition ROOTFS_AB_REG_MAGIC_SET (reg : Z) : Z :=
  u32 (Z.lor (Z.land reg (Z.lnot 0xFFFF)) ROOTFS_AB_REG_MAGIC).
Definition ROOTFS_AB_REG_MAGIC_GET (reg : Z) : Z := Z.land reg 0xFFFF.
Definition ROOTFS_AB_REG_ROTATE_COUNT_SET (count reg : Z) : Z := REG_SET reg count 0x0F 16.
Definition ROOTFS_AB_REG_ROTATE_COUNT_GET (reg : Z) : Z :=
  Z.shiftr (Z.land reg (Z.shiftl 0x0F 16)) 16.
Definition ROOTFS_AB_REG_RETRY_COUNT_SET (count reg : Z) : Z := REG_SET reg count 0x03 20.
Definition ROOTFS_AB_REG_RETRY_COUNT_GET (reg : Z) : Z :=
  Z.shiftr (Z.land reg (Z.shiftl 0x03 20)) 20.

(** C's [!x] on an integer. *)
Definition lnot_c (x : Z) : Z := if x =? 0 then 1 else 0.

(** ** Operations on the SMD buffer *)

Definition tegrabl_a_b_get_version (smd : list Z) : Z := ld16 smd SMD_VERSION_OFF.

Definition tegrabl_a_b_init (smd : list Z) : list Z :=
  let smd := st8 smd (PRIORITY_OFF 0) 15 in
  let smd := st8 smd (RETRY_COUNT_OFF 0) 7 in
  let smd := st8 smd (BOOT_SUCC_OFF 0) 1 in
  let smd := blit smd (SUFFIX_OFF 0) BOOT_CHAIN_SUFFIX_A in
  let smd := st8 smd (PRIORITY_OFF 1) 0 in
  let smd := st8 smd (RETRY_COUNT_OFF 1) 0 in
  let smd := st8 smd (BOOT_SUCC_OFF 1) 0 in
  let smd := blit smd (SUFFIX_OFF 1) BOOT_CHAIN_SUFFIX_B in
  let smd := st32 smd SMD_MAGIC_OFF BOOT_CHAIN_MAGIC in
  let smd := st16 smd SMD_VERSION_OFF BOOT_CHAIN_VERSION in
  st16 smd SMD_NUM_SLOTS_OFF 1.

Definition tegrabl_a_b_get_max_num_slots (smd : list Z) : Z := ld16 smd SMD_NUM_SLOTS_OFF.

(** The scan of [boot_chain_get_bootslot_from_smd]: [n] iterations from [i].
    The retry count is read first; the priority only when it is not zero. *)
Fixpoint scan_slots (n : nat) (i : Z) (smd : list Z) (max_priority slot : Z) : outcome (Z * Z) :=
  match n with
  | O => Ret (max_priority, slot)
  | S n' =>
      let? retry_count := rd8 smd (RETRY_COUNT_OFF i) in
      if truthy retry_count then
        let? priority := rd8 smd (PRIORITY_OFF i) in
        if truthy priority && (max_priority <? priority)
        then scan_slots n' (i + 1) smd priority i
        else scan_slots n' (i + 1) smd max_priority slot
      else scan_slots n' (i + 1) smd max_priority slot
  end.

Definition boot_chain_get_bootslot_from_smd (smd : list Z) : outcome Z :=
  if negb (ld32 smd SMD_MAGIC_OFF =? BOOT_CHAIN_MAGIC) then
    Err (TEGRABL_ERROR TEGRABL_ERR_INVALID 0)
  else
    let? (max_priority, slot) :=
      scan_slots (Z.to_nat (tegrabl_a_b_get_max_num_slots smd)) 0 smd 0 0 in
    if max_priority =? 0 then Err (TEGRABL_ERROR TEGRABL_ERR_INVALID 1) else Ret slot.

Definition tegrabl_a_b_copy_retry_count (smd : list Z) (reg direct : Z) : list Z * Z :=
  if direct =? FROM_REG_TO_SMD then
    let smd := st8 smd (RETRY_COUNT_OFF BOOT_SLOT_A) (u8 (BOOT_CHAIN_REG_A_RETRY_COUNT_GET reg)) in
    let smd := st8 smd (RETRY_COUNT_OFF BOOT_SLOT_B) (u8 (BOOT_CHAIN_REG_B_RETRY_COUNT_GET reg)) in
    (smd, reg)
  else if direct =? FROM_SMD_TO_REG then
    let reg := BOOT_CHAIN_REG_A_RETRY_COUNT_SET (ld8 smd (RETRY_COUNT_OFF BOOT_SLOT_A)) reg in
    let reg := BOOT_CHAIN_REG_B_RETRY_COUNT_SET (ld8 smd (RETRY_COUNT_OFF BOOT_SLOT_B)) reg in
    (smd, reg)
  else (smd, reg).

Definition tegrabl_a_b_get_retry_count_reg (slot reg : Z) : outcome Z :=
  if slot =? BOOT_SLOT_A then Ret (u8 (BOOT_CHAIN_REG_A_RETRY_COUNT_GET reg))
  else if slot =? BOOT_SLOT_B then Ret (u8 (BOOT_CHAIN_REG_B_RETRY_COUNT_GET reg))
  else Halt.

Definition tegrabl_a_b_check_and_update_retry_count (smd : list Z) (slot : Z) : outcome (list Z) :=
  let? boot_successful :=
    (if BOOTCTRL_SUPPORT_REDUNDANCY (tegrabl_a_b_get_version smd) then Ret 0
     else rd8 smd (BOOT_SUCC_OFF slot)) in
  if BOOTCTRL_SUPPORT_REDUNDANCY (tegrabl_a_b_get_version smd) || (boot_successful =? 0) then
    let? retry_count := rd8 smd (RETRY_COUNT_OFF slot) in
    if retry_count =? 0 then Halt
    else Ret (st8 smd (RETRY_COUNT_OFF slot) (u8 (retry_count - 1)))
  else Ret smd.

(** ** Accessors with argument checks *)

Definition INVALID_0 : Z := TEGRABL_ERROR TEGRABL_ERR_INVALID 0.

Definition tegrabl_a_b_get_slot_num (smd_addr : option (list Z)) : outcome Z :=
  match smd_addr with
  | None => Err INVALID_0
  | Some smd => Ret (u8 (tegrabl_a_b_get_max_num_slots smd))
  end.

Definition tegrabl_a_b_get_successful (smd_addr : option (list Z)) (slot : Z) : outcome Z :=
  match smd_addr with
  | None => Err INVALID_0
  | Some smd => if MAX_SLOTS <=? slot then Err INVALID_0 else Ret (ld8 smd (BOOT_SUCC_OFF slot))
  end.

Definition tegrabl_a_b_get_retry_count (smd_addr : option (list Z)) (slot : Z) : outcome Z :=
  match smd_addr with
  | None => Err INVALID_0
  | Some smd => if MAX_SLOTS <=? slot then Err INVALID_0 else Ret (ld8 smd (RETRY_COUNT_OFF slot))
  end.

Definition tegrabl_a_b_get_priority (smd_addr : option (list Z)) (slot : Z) : outcome Z :=
  match smd_addr with
  | None => Err INVALID_0
  | Some smd => if MAX_SLOTS <=? slot then Err INVALID_0 else Ret (ld8 smd (PRIORITY_OFF slot))
  end.

(** [TEGRABL_SET_HIGHEST_MODULE] on the error of a pure call. *)
Definition up {A} (o : outcome A) : outcome A :=
  match o with Err e => Err (SET_HIGHEST_MODULE e) | r => r end.

Definition tegrabl_a_b_is_unbootable (smd_addr : option (list Z)) (slot : Z) : outcome bool :=
  match smd_addr with
  | None => Err INVALID_0
  | Some smd =>
      if MAX_SLOTS <=? slot then Err INVALID_0
      else
        let? priority := up (tegrabl_a_b_get_priority (Some smd) slot) in
        let? retry_count := up (tegrabl_a_b_get_retry_count (Some smd) slot) in
        Ret ((priority =? 0) || (retry_count =? 0))
  end.

Definition tegrabl_a_b_set_successful (smd_addr : option (list Z)) (slot successful : Z) : outcome (list Z) :=
  match smd_addr with
  | None => Err INVALID_0
  | Some smd => if MAX_SLOTS <=? slot then Err INVALID_0 else Ret (st8 smd (BOOT_SUCC_OFF slot) successful)
  end.

Definition tegrabl_a_b_set_retry_count (smd_addr : option (list Z)) (slot retry_count : Z) : outcome (list Z) :=
  match smd_addr with
  | None => Err INVALID_0
  | Some smd => if MAX_SLOTS <=? slot then Err INVALID_0 else Ret (st8 smd (RETRY_COUNT_OFF slot) retry_count)
  end.

Definition tegrabl_a_b_set_priority (smd_addr : option (list Z)) (slot priority : Z) : outcome (list Z) :=
  match smd_addr with
  | None => Err INVALID_0
  | Some smd => if MAX_SLOTS <=? slot then Err INVALID_0 else Ret (st8 smd (PRIORITY_OFF slot) priority)
  end.

Definition tegrabl_get_max_retry_count (smd : list Z) : Z :=
  let max_bl_retry_count :=
    if BOOT_CHAIN_VERSION_GET (tegrabl_a_b_get_version smd) <? BOOT_CHAIN_VERSION_ROOTFS_AB
    then SLOT_RETRY_COUNT_DEFAULT else ld8 smd EXT_MAX_BL_RETRY_OFF in
  if (max_bl_retry_count =? 0) || (SLOT_RETRY_COUNT_DEFAULT <? max_bl_retry_count)
  then SLOT_RETRY_COUNT_DEFAULT else max_bl_retry_count.

Definition get_max_rotate_count (smd : list Z) : Z :=
  let max_bl_retry_count := u8 (tegrabl_get_max_retry_count smd) in
  if max_bl_retry_count * 2 <? ROOTFS_AB_ROTATE_COUNT
  then u8 (max_bl_retry_count * 2) else ROOTFS_AB_ROTATE_COUNT.

(** One iteration of the loop that lowers the priorities. *)
Definition lower_priority (smd : list Z) (i : Z) : list Z :=
  let p := ld8 smd (PRIORITY_OFF i) in
  if 1 <? p then st8 smd (PRIORITY_OFF i) (p - 1) else smd.

Definition tegrabl_a_b_set_active_slot (smd_addr : option (list Z)) (slot_id : Z) : outcome (list Z) :=
  match smd_addr with
  | None => Err INVALID_0
  | Some smd =>
      if MAX_SLOTS <=? slot_id then Err INVALID_0
      else
        let smd := lower_priority (lower_priority smd 0) 1 in
        let? smd := up (tegrabl_a_b_set_priority (Some smd) slot_id SLOT_PRIORITY_DEFAULT) in
        let? smd := up (tegrabl_a_b_set_retry_count (Some smd) slot_id (tegrabl_get_max_retry_count smd)) in
        up (tegrabl_a_b_set_successful (Some smd) slot_id 0)
  end.

(** ** Root file system state in the SMD extension *)

Definition tegrabl_get_rootfs_max_retry_count (smd : list Z) : Z :=
  let max_rf_retry_count :=
    if BOOT_CHAIN_VERSION_GET (tegrabl_a_b_get_version smd) <? BOOT_CHAIN_VERSION_UNIFY_RF_BL_AB
    then ROOTFS_RETRY_COUNT_DEFAULT
    else GET_MAX_ROOTFS_RETRY_COUNT (ld8 smd EXT_ROOTFS_MISC_OFF) in
  if (ROOTFS_RETRY_COUNT_DEFAULT <? max_rf_retry_count) || (max_rf_retry_count =? 0)
  then ROOTFS_RETRY_COUNT_DEFAULT else max_rf_retry_count.

Definition tegrabl_a_b_set_active_rootfs (smd : option (list Z)) (rootfs_id : Z) : outcome (list Z) :=
  match smd with
  | None => Err INVALID_0
  | Some smd =>
      if negb (rootfs_id =? ROOTFS_A) && negb (rootfs_id =? ROOTFS_B) && negb (rootfs_id =? ROOTFS_INVALID)
      then Err INVALID_0
      else
        let val := u8 (SET_ROOTFS_ACTIVE rootfs_id (ld8 smd EXT_ROOTFS_SELECT_OFF)) in
        let smd := st8 smd EXT_ROOTFS_SELECT_OFF val in
        let val := u8 (SET_ROOTFS_RETRY_COUNT (tegrabl_get_rootfs_max_retry_count smd)
                         (ld8 smd EXT_ROOTFS_SELECT_OFF)) in
        Ret (st8 smd EXT_ROOTFS_SELECT_OFF val)
  end.

Definition tegrabl_a_b_get_rootfs_retry_count (smd : option (list Z)) : outcome Z :=
  match smd with
  | None => Err INVALID_0
  | Some smd => Ret (GET_ROOTFS_RETRY_COUNT (ld8 smd EXT_ROOTFS_SELECT_OFF))
  end.

Definition tegrabl_a_b_set_rootfs_retry_count (smd : option (list Z)) (rootfs_retry_count : Z) : outcome (list Z) :=
  match smd with
  | None => Err INVALID_0
  | Some smd =>
      if tegrabl_get_rootfs_max_retry_count smd <? rootfs_retry_count then Err INVALID_0
      else
        let val := u8 (SET_ROOTFS_RETRY_COUNT rootfs_retry_count (ld8 smd EXT_ROOTFS_SELECT_OFF)) in
        Ret (st8 smd EXT_ROOTFS_SELECT_OFF val)
  end.

Definition ROOTFS_STATUS_OFF (slot_id : Z) : nat := (EXT_ROOTFS_STATUS_OFF + Z.to_nat slot_id)%nat.

Definition tegrabl_a_b_get_rootfs_status (smd : option (list Z)) (slot_id : Z) : outcome Z :=
  match smd with
  | None => Err INVALID_0
  | Some smd => if MAX_SLOTS <=? slot_id then Err INVALID_0 else Ret (ld8 smd (ROOTFS_STATUS_OFF slot_id))
  end.

Definition tegrabl_a_b_set_rootfs_status (smd : option (list Z)) (slot_id rootfs_status : Z) : outcome (list Z) :=
  match smd with
  | None => Err INVALID_0
  | Some smd =>
      if MAX_SLOTS <=? slot_id then Err INVALID_0
      else if ROOTFS_STATUS_END <? rootfs_status then Err INVALID_0
      else Ret (st8 smd (ROOTFS_STATUS_OFF slot_id) rootfs_status)
  end.

(** A call whose error code is dropped: the buffer stays as it was. *)
Definition ignore (smd : list Z) (o : outcome (list Z)) : list Z :=
  match o with Ret smd' => smd' | _ => smd end.

(** ** Suffixes *)

Definition tegrabl_a_b_set_bootslot_suffix (slot : Z) (partition : list Z) (full_suffix : bool) : list Z :=
  if negb full_suffix && (slot =? BOOT_SLOT_A) then partition
  else partition ++ (if slot =? BOOT_SLOT_A then BOOT_CHAIN_SUFFIX_A else BOOT_CHAIN_SUFFIX_B).

Definition tegrabl_a_b_get_slot_via_suffix (suffix : list Z) : outcome Z :=
  if (default 0 (head suffix) =? 0) || (default 0 (head suffix) =? 97)
     || bool_decide (suffix = BOOT_CHAIN_SUFFIX_A) then Ret BOOT_SLOT_A
  else if (default 0 (head suffix) =? 98) || bool_decide (suffix = BOOT_CHAIN_SUFFIX_B)
  then Ret BOOT_SLOT_B
  else Err INVALID_0.

(** ** Operations on the scratch registers *)

Section WithSoc.
Context {W : Type} `{SocScratch W}.

Definition get_boot_reg : M W Z := gets tegrabl_get_boot_slot_reg.
Definition set_boot_reg (v : Z) : M W unit := modify (tegrabl_set_boot_slot_reg v).
Definition get_rootfs_reg : M W Z := gets tegrabl_get_rootfs_slot_reg.
Definition set_rootfs_reg (v : Z) : M W unit := modify (tegrabl_set_rootfs_slot_reg v).

Definition tegrabl_a_b_is_valid (smd : option (list Z)) : M W bool :=
  match smd with
  | None =>
      let! reg := get_boot_reg in
      ret ((BOOT_CHAIN_REG_MAGIC_GET reg =? BOOT_CHAIN_REG_MAGIC)
           && (1 <? BOOT_CHAIN_REG_MAX_SLOTS_GET reg))
  | Some smd =>
      ret ((ld32 smd SMD_MAGIC_OFF =? BOOT_CHAIN_MAGIC)
           && (1 <? tegrabl_a_b_get_max_num_slots smd))
  end.

(** The error code together with the slot written: the slot is written on
    the error path as well. *)
Definition boot_chain_get_bootslot_from_reg : M W (Z * Z) :=
  let! reg := get_boot_reg in
  let! valid := tegrabl_a_b_is_valid None in
  if negb valid then ret (TEGRABL_ERROR TEGRABL_ERR_NOT_FOUND 0, BOOT_SLOT_A)
  else ret (TEGRABL_NO_ERROR, BOOT_CHAIN_REG_SLOT_NUM_GET reg).

(** The error code and the slot, when it was written. *)
Definition tegrabl_a_b_get_active_slot (smd : option (list Z)) : M W (Z * option Z) :=
  match smd with
  | None =>
      let! (e, slot) := boot_chain_get_bootslot_from_reg in ret (e, Some slot)
  | Some smd =>
      match boot_chain_get_bootslot_from_smd smd with
      | Ret slot => ret (TEGRABL_NO_ERROR, Some slot)
      | Err e => ret (e, None)
      | Halt => halt
      | Undef => undef
      | Fuel => nofuel
      end
  end.

Definition tegrabl_a_b_set_retry_count_reg (slot retry_count : Z) : M W unit :=
  let! reg := get_boot_reg in
  let reg :=
    if slot =? BOOT_SLOT_A then BOOT_CHAIN_REG_A_RETRY_COUNT_SET retry_count reg
    else if slot =? BOOT_SLOT_B then BOOT_CHAIN_REG_B_RETRY_COUNT_SET retry_count reg
    else reg in
  set_boot_reg reg.

Definition tegrabl_a_b_save_boot_slot_reg (smd : option (list Z)) (slot : Z) : M W unit :=
  match smd with
  | None => halt
  | Some smd =>
      let! reg := get_boot_reg in
      let reg := BOOT_CHAIN_REG_SLOT_NUM_SET slot reg in
      let reg := BOOT_CHAIN_REG_MAX_SLOTS_SET (tegrabl_a_b_get_max_num_slots smd) reg in
      let reg := (tegrabl_a_b_copy_retry_count smd reg FROM_SMD_TO_REG).2 in
      let! boot_successful := lift (rd8 smd (BOOT_SUCC_OFF slot)) in
      let reg :=
        if boot_successful =? 0 then BOOT_CHAIN_REG_UPDATE_FLAG_SET BC_FLAG_OTA_ON reg
        else if BOOTCTRL_SUPPORT_REDUNDANCY (tegrabl_a_b_get_version smd)
        then BOOT_CHAIN_REG_UPDATE_FLAG_SET BC_FLAG_REDUNDANCY_BOOT reg
        else reg in
      set_boot_reg reg
  end.

Definition tegrabl_a_b_init_boot_slot_reg (smd : option (list Z)) : M W unit :=
  let! reg := get_boot_reg in
  if BOOT_CHAIN_REG_MAGIC_GET reg =? BOOT_CHAIN_REG_MAGIC then ret tt
  else
    set_boot_reg (BOOT_CHAIN_REG_MAGIC_SET 0) ;;;
    let! (e, slot) := tegrabl_a_b_get_active_slot smd in
    if negb (e =? TEGRABL_NO_ERROR) then err e
    else tegrabl_a_b_save_boot_slot_reg smd (default 0 slot).

Definition tegrabl_a_b_init_rootfs_slot_reg (smd : list Z) : M W unit :=
  let version := tegrabl_a_b_get_version smd in
  if negb (BOOTCTRL_SUPPORT_REDUNDANCY_USER version) && negb (BOOTCTRL_SUPPORT_ROOTFS_AB version)
  then ret tt
  else
    let! rf_reg := get_rootfs_reg in
    if ROOTFS_AB_REG_MAGIC_GET rf_reg =? ROOTFS_AB_REG_MAGIC then ret tt
    else
      let rf_reg := ROOTFS_AB_REG_MAGIC_SET 0 in
      let rf_reg :=
        if BOOTCTRL_SUPPORT_ROOTFS_AB version && negb (BOOTCTRL_SUPPORT_UNIFIED_AB version) then
          let retry_count :=
            match tegrabl_a_b_get_rootfs_retry_count (Some smd) with Ret c => c | _ => 0 end in
          ROOTFS_AB_REG_RETRY_COUNT_SET retry_count rf_reg
        else rf_reg in
      set_rootfs_reg rf_reg.

(** The suffix string of the active slot. *)
Definition tegrabl_a_b_get_bootslot_suffix (full_suffix : bool) : M W (list Z) :=
  let! (e, slot) := tegrabl_a_b_get_active_slot None in
  let slot := default 0 slot in
  if negb (e =? TEGRABL_NO_ERROR) && negb (TEGRABL_ERROR_REASON e =? TEGRABL_ERR_NOT_FOUND)
  then err INVALID_0
  else if negb full_suffix && (slot =? BOOT_SLOT_A) then ret []
  else ret (if slot =? BOOT_SLOT_A then BOOT_CHAIN_SUFFIX_A else BOOT_CHAIN_SUFFIX_B).

(** Returns the SMD buffer; the scratch register carries the retry count. *)
Definition tegrabl_a_b_select_active_rootfs (smd : option (list Z)) : M W (list Z) :=
  match smd with
  | None => err INVALID_0
  | Some smd =>
      let version := tegrabl_a_b_get_version smd in
      if negb (BOOTCTRL_SUPPORT_ROOTFS_AB version) || BOOTCTRL_IS_UNIFIED_AB_ENABLED version
      then ret smd
      else
        let rfs_id := GET_ROOTFS_ACTIVE (ld8 smd EXT_ROOTFS_SELECT_OFF) in
        let! rf_reg := get_rootfs_reg in
        let retry_count := u8 (ROOTFS_AB_REG_RETRY_COUNT_GET rf_reg) in
        if retry_count =? 0 then
          let smd := ignore smd (tegrabl_a_b_set_rootfs_status (Some smd) rfs_id ROOTFS_STATUS_BOOT_FAILED) in
          let rfs_status :=
            match tegrabl_a_b_get_rootfs_status (Some smd) (lnot_c rfs_id) with
            | Ret s => s | _ => ROOTFS_STATUS_NORMAL end in
          if rfs_status =? ROOTFS_STATUS_NORMAL then
            let smd := ignore smd (tegrabl_a_b_set_active_rootfs (Some smd) (lnot_c rfs_id)) in
            let retry_count :=
              match tegrabl_a_b_get_rootfs_retry_count (Some smd) with Ret c => c | _ => retry_count end in
            set_rootfs_reg (ROOTFS_AB_REG_RETRY_COUNT_SET (retry_count - 1) rf_reg) ;;;
            ret smd
          else ret (ignore smd (tegrabl_a_b_set_active_rootfs (Some smd) ROOTFS_INVALID))
        else
          set_rootfs_reg (ROOTFS_AB_REG_RETRY_COUNT_SET (retry_count - 1) rf_reg) ;;;
          ret smd
  end.

Definition check_non_user_redundancy_status (reg : Z) (smd : list Z) : M W (list Z) :=
  let current_slot := BOOT_CHAIN_REG_SLOT_NUM_GET reg in
  let retry_count := u8 (tegrabl_get_max_retry_count smd) in
  tegrabl_a_b_set_retry_count_reg current_slot retry_count ;;;
  ret smd.

Definition check_rootfs_ab_status (reg : Z) (smd : list Z) : M W (list Z) :=
  let current_slot := BOOT_CHAIN_REG_SLOT_NUM_GET reg in
  let retry_count := u8 (tegrabl_get_max_retry_count smd) in
  tegrabl_a_b_set_retry_count_reg current_slot retry_count ;;;
  ret smd.

(** [bl_reg] is re-read after the retry count has been restored in it. *)
Definition check_user_redundancy_status (bl_reg : Z) (smd : list Z) : M W (list Z) :=
  let current_slot := BOOT_CHAIN_REG_SLOT_NUM_GET bl_reg in
  let retry_count := u8 (tegrabl_get_max_retry_count smd) in
  tegrabl_a_b_set_retry_count_reg current_slot retry_count ;;;
  let! bl_reg := get_boot_reg in
  let! slot1_priority := lift (tegrabl_a_b_get_priority (Some smd) current_slot) in
  let! slot2_priority := lift (tegrabl_a_b_get_priority (Some smd) (lnot_c current_slot)) in
  let! rf_reg := get_rootfs_reg in
  assert (ROOTFS_AB_REG_MAGIC_GET rf_reg =? ROOTFS_AB_REG_MAGIC) ;;;
  let rotate_count := u8 (u8 (ROOTFS_AB_REG_ROTATE_COUNT_GET rf_reg) + 1) in
  let max_rotate_count := get_max_rotate_count smd in
  let! smd :=
    (if (rotate_count =? max_rotate_count / 2) || (rotate_count =? max_rotate_count) then
       let! other_retry := lift (tegrabl_a_b_get_retry_count_reg (lnot_c current_slot) bl_reg) in
       if truthy other_retry && truthy slot1_priority && truthy slot2_priority then
         assert (slot2_priority <=? slot1_priority) ;;;
         let smd := ignore smd (tegrabl_a_b_set_priority (Some smd) current_slot 14) in
         ret (ignore smd (tegrabl_a_b_set_priority (Some smd) (lnot_c current_slot) 15))
       else ret smd
     else ret smd) in
  set_rootfs_reg (ROOTFS_AB_REG_ROTATE_COUNT_SET rotate_count rf_reg) ;;;
  ret smd.

Definition check_redundancy_status (reg : Z) (smd : list Z) : M W (list Z) :=
  let version := tegrabl_a_b_get_version smd in
  if negb (BOOTCTRL_SUPPORT_REDUNDANCY_USER version) && negb (BOOTCTRL_SUPPORT_ROOTFS_AB version)
  then check_non_user_redundancy_status reg smd
  else if BOOTCTRL_SUPPORT_REDUNDANCY_USER version || BOOTCTRL_IS_UNIFIED_AB_ENABLED version
  then check_user_redundancy_status reg smd
  else if BOOTCTRL_SUPPORT_ROOTFS_AB version then check_rootfs_ab_status reg smd
  else err INVALID_0.
End WithSoc.

(** ** The library's state *)

Definition SMD_COPY_PRIMARY : Z := 0.
Definition SMD_COPY_SECONDARY : Z := 1.
Definition SMD_INVALID : Z := 2.

(** The static variables; a buffer is the address [tegrabl_malloc] returned
    together with its contents. *)
Record ab (W : Type) := mk_ab {
  world : W;
  current_smd : Z;
  smd_loadaddress : option Z;
  smd_mem : list Z;
  smd_backup : option Z;
  backup_mem : list Z;
}.
Arguments mk_ab {W}. Arguments world {W}. Arguments current_smd {W}.
Arguments smd_loadaddress {W}. Arguments smd_mem {W}.
Arguments smd_backup {W}. Arguments backup_mem {W}.

Definition upd_world {W} (w : W) (s : ab W) : ab W :=
  mk_ab w (current_smd s) (smd_loadaddress s) (smd_mem s) (smd_backup s) (backup_mem s).
Definition upd_current {W} (c : Z) (s : ab W) : ab W :=
  mk_ab (world s) c (smd_loadaddress s) (smd_mem s) (smd_backup s) (backup_mem s).
Definition upd_load {W} (p : option Z) (s : ab W) : ab W :=
  mk_ab (world s) (current_smd s) p (smd_mem s) (smd_backup s) (backup_mem s).
Definition upd_smd {W} (b : list Z) (s : ab W) : ab W :=
  mk_ab (world s) (current_smd s) (smd_loadaddress s) b (smd_backup s) (backup_mem s).
Definition upd_backup {W} (p : option Z) (s : ab W) : ab W :=
  mk_ab (world s) (current_smd s) (smd_loadaddress s) (smd_mem s) p (backup_mem s).
Definition upd_backup_mem {W} (b : list Z) (s : ab W) : ab W :=
  mk_ab (world s) (current_smd s) (smd_loadaddress s) (smd_mem s) (smd_backup s) b.

(** A computation on the outside world. *)
Definition ext {W A} (c : M W A) : M (ab W) A := fun s =>
  let '(o, w) := c (world s) in (o, upd_world w s).

Definition PART_SMD : list Z := [83; 77; 68].
Definition PART_SMD_B : list Z := [83; 77; 68; 95; 98].
Definition smd_part (bin_copy : Z) : list Z :=
  if bin_copy =? SMD_COPY_PRIMARY then PART_SMD else PART_SMD_B.
Definition TEGRABL_PARTITION_SEEK_SET : Z := 0.
Definition TEGRABL_STORAGE_QSPI_FLASH : Z := 3.

(** The sanity checks of [load_smd_bin_copy] on the bytes that were read. *)
Definition smd_check (smd : list Z) : outcome unit :=
  let version := tegrabl_a_b_get_version smd in
  let? _ :=
    (if BOOT_CHAIN_VERSION_GET version =? BOOT_CHAIN_VERSION_ONE then
       if negb (ld32 smd SMD_MAGIC_OFF =? BOOT_CHAIN_MAGIC)
       then Err (TEGRABL_ERROR TEGRABL_ERR_VERIFY_FAILED 0) else Ret tt
     else
       let crc32 := tegrabl_utils_crc32 0 (slice smd 0 (SMD_LEN - 4)) in
       if negb (crc32 =? ld32 smd SMD_CRC32_OFF)
       then Err (TEGRABL_ERROR TEGRABL_ERR_VERIFY_FAILED 0) else Ret tt) in
  if BOOT_CHAIN_VERSION_ROOTFS_AB <=? BOOT_CHAIN_VERSION_GET version then
    let crc32 := tegrabl_utils_crc32 0 (slice smd EXT_CRC32_LEN_OFF (SMD_EXT_LEN - 4)) in
    if negb (crc32 =? ld32 smd EXT_CRC32_OFF)
    then Err (TEGRABL_ERROR TEGRABL_ERR_VERIFY_FAILED 0) else Ret tt
  else Ret tt.

(** The crc fields as [tegrabl_a_b_flush_smd] updates them. *)
Definition smd_update_crc (smd : list Z) : list Z :=
  let smd := st32 smd SMD_CRC32_OFF (tegrabl_utils_crc32 0 (slice smd 0 (SMD_LEN - 4))) in
  if BOOT_CHAIN_VERSION_ROOTFS_AB <=? BOOT_CHAIN_VERSION_GET (tegrabl_a_b_get_version smd)
  then st32 smd EXT_CRC32_OFF (tegrabl_utils_crc32 0 (slice smd EXT_CRC32_LEN_OFF (SMD_EXT_LEN - 4)))
  else smd.

Section WithStorage.
Context {W H : Type} `{SocScratch W} `{PartitionApi W H} `{HeapApi W}.
(** [CONFIG_ENABLE_QSPI] *)
Variable config_qspi : bool.

(** An error of another module, with this module as the highest one. *)
Definition ext_up {A} (c : M W A) : M (ab W) A := map_err SET_HIGHEST_MODULE (ext c).

Definition load_smd_bin_copy (bin_copy : Z) : M (ab W) unit :=
  modify (upd_current SMD_INVALID) ;;;
  let! part := ext_up (partition_open (smd_part bin_copy)) in
  let! part := ext_up (partition_seek part 0 TEGRABL_PARTITION_SEEK_SET) in
  let! (data, part) := ext_up (partition_read part (Z.of_nat SMD_V2_LEN)) in
  modify (upd_smd data) ;;;
  lift (smd_check data) ;;;
  modify (upd_current bin_copy).

(** After a copy has been loaded: back it up, initialise the rootfs scratch
    register and select the rootfs.  The two error codes are dropped. *)
Definition get_smd_init : M (ab W) unit :=
  let! s := get in
  modify (upd_backup_mem (smd_mem s)) ;;;
  let! _ := code (ext (tegrabl_a_b_init_rootfs_slot_reg (smd_mem s))) in
  let! r := code (ext (tegrabl_a_b_select_active_rootfs (Some (smd_mem s)))) in
  match r with
  | inl smd => modify (upd_smd smd)
  | inr _ => ret tt
  end.

(** On success [*smd] is the address of the loaded buffer. *)
Definition tegrabl_a_b_get_smd : M (ab W) unit :=
  let! s := get in
  match smd_loadaddress s with
  | Some _ => ret tt
  | None =>
      let! p := ext (heap_malloc (Z.of_nat SMD_V2_LEN)) in
      modify (upd_load p) ;;;
      match p with
      | None => err (TEGRABL_ERROR TEGRABL_ERR_NO_MEMORY 0)
      | Some a =>
          let! q := ext (heap_malloc (Z.of_nat SMD_V2_LEN)) in
          modify (upd_backup q) ;;;
          match q with
          | None =>
              ext (heap_free a) ;;;
              modify (upd_load None) ;;;
              err (TEGRABL_ERROR TEGRABL_ERR_NO_MEMORY 0)
          | Some b =>
              let! r := code (load_smd_bin_copy SMD_COPY_PRIMARY) in
              match r with
              | inl _ => get_smd_init
              | inr _ =>
                  let! r := code (load_smd_bin_copy SMD_COPY_SECONDARY) in
                  match r with
                  | inl _ => get_smd_init
                  | inr e =>
                      ext (heap_free a) ;;;
                      modify (upd_load None) ;;;
                      ext (heap_free b) ;;;
                      modify (upd_backup None) ;;;
                      err e
                  end
              end
          end
      end
  end.

(** [smd == NULL] means the buffer [tegrabl_a_b_get_smd] loads. *)
Definition smd_or_loaded (smd : option (list Z)) : M (ab W) (list Z) :=
  match smd with
  | Some smd => ret smd
  | None => map_err SET_HIGHEST_MODULE tegrabl_a_b_get_smd ;;; gets smd_mem
  end.

Definition tegrabl_a_b_get_current_rootfs_id (smd : option (list Z)) : M (ab W) Z :=
  let! smd := smd_or_loaded smd in
  let version := tegrabl_a_b_get_version smd in
  if negb (BOOTCTRL_SUPPORT_ROOTFS_AB version) then err INVALID_0
  else if BOOTCTRL_IS_UNIFIED_AB_ENABLED version then
    let! (e, bl_slot) := ext (tegrabl_a_b_get_active_slot (Some smd)) in
    if negb (e =? TEGRABL_NO_ERROR) then err e else ret (u8 (default 0 bl_slot))
  else ret (GET_ROOTFS_ACTIVE (ld8 smd EXT_ROOTFS_SELECT_OFF)).

Definition tegrabl_a_b_rootfs_is_all_unbootable (smd : option (list Z)) : M (ab W) bool :=
  let! r := code (smd_or_loaded smd) in
  match r with
  | inr _ => ret false
  | inl smd =>
      let version := tegrabl_a_b_get_version smd in
      if BOOTCTRL_IS_UNIFIED_AB_ENABLED version || BOOTCTRL_SUPPORT_REDUNDANCY_USER version then
        let! rf_reg := ext get_rootfs_reg in
        assert (ROOTFS_AB_REG_MAGIC_GET rf_reg =? ROOTFS_AB_REG_MAGIC) ;;;
        let rotate_count := u8 (ROOTFS_AB_REG_ROTATE_COUNT_GET rf_reg) in
        if get_max_rotate_count smd <=? rotate_count then
          ext (set_rootfs_reg (ROOTFS_AB_REG_ROTATE_COUNT_SET 0 rf_reg)) ;;;
          ret true
        else ret false
      else
        let! r := code (tegrabl_a_b_get_current_rootfs_id (Some smd)) in
        match r with
        | inr _ => ret false
        | inl rootfs_id => ret (rootfs_id =? ROOTFS_INVALID)
        end
  end.

Definition tegrabl_a_b_get_rootfs_suffix (full_suffix : bool) : M (ab W) (list Z) :=
  let! r := code (tegrabl_a_b_get_current_rootfs_id None) in
  let rootfs_id := match r with inl id => id | inr _ => ROOTFS_A end in
  if negb full_suffix && (rootfs_id =? ROOTFS_A) then ret []
  else if rootfs_id =? ROOTFS_A then ret BOOT_CHAIN_SUFFIX_A
  else if rootfs_id =? ROOTFS_B then ret BOOT_CHAIN_SUFFIX_B
  else err INVALID_0.

Definition flush_smd_bin_copy (smd : list Z) (bin_copy : Z) : M (ab W) unit :=
  let! part := ext_up (partition_open (smd_part bin_copy)) in
  when (config_qspi && (partition_storage_type part =? TEGRABL_STORAGE_QSPI_FLASH))
    (ext_up (partition_erase part false)) ;;;
  let! part := ext_up (partition_seek part 0 TEGRABL_PARTITION_SEEK_SET) in
  let! part := ext_up (partition_write part (slice smd 0 SMD_V2_LEN)) in
  ret tt.

(** [smd] is [NULL] or the loaded buffer. *)
Definition tegrabl_a_b_flush_smd (smd : option Z) : M (ab W) unit :=
  match smd with
  | None => err INVALID_0
  | Some _ =>
      let! s := get in
      let data := smd_update_crc (smd_mem s) in
      modify (upd_smd data) ;;;
      flush_smd_bin_copy data
        (if current_smd s =? SMD_COPY_PRIMARY then SMD_COPY_SECONDARY else SMD_COPY_PRIMARY) ;;;
      flush_smd_bin_copy data
        (if current_smd s =? SMD_COPY_PRIMARY then SMD_COPY_PRIMARY else SMD_COPY_SECONDARY)
  end.

(** The body of [tegrabl_a_b_update_smd] up to the label [done]: the error
    and the value of the variable [reg] there. *)
Definition update_smd_body : M (ab W) (Z * Z) :=
  let! reg := ext get_boot_reg in
  let bc_flag := u8 (BOOT_CHAIN_REG_UPDATE_FLAG_GET reg) in
  let! r := code tegrabl_a_b_get_smd in
  match r with
  | inr e => ret (SET_HIGHEST_MODULE e, reg)
  | inl _ =>
      let! smd := gets smd_mem in
      let version := tegrabl_a_b_get_version smd in
      if (BOOT_CHAIN_REG_MAGIC_GET reg =? BOOT_CHAIN_REG_MAGIC)
         && ((bc_flag =? BC_FLAG_OTA_ON) || (bc_flag =? BC_FLAG_REDUNDANCY_BOOT)) then
        let! r :=
          (if (bc_flag =? BC_FLAG_REDUNDANCY_BOOT) && BOOTCTRL_SUPPORT_REDUNDANCY version
           then code (ext (check_redundancy_status reg smd)) else ret (inl smd)) in
        match r with
        | inr e => ret (e, reg)
        | inl smd =>
            let! reg := ext get_boot_reg in
            let smd := (tegrabl_a_b_copy_retry_count smd reg FROM_REG_TO_SMD).1 in
            modify (upd_smd smd) ;;;
            let! s := get in
            if negb (bool_decide (slice smd 0 SMD_V2_LEN = slice (backup_mem s) 0 SMD_V2_LEN)) then
              let! r := code (tegrabl_a_b_flush_smd (smd_loadaddress s)) in
              match r with
              | inr e => ret (SET_HIGHEST_MODULE e, reg)
              | inl _ => ret (TEGRABL_NO_ERROR, reg)
              end
            else ret (TEGRABL_NO_ERROR, reg)
        end
      else ret (TEGRABL_NO_ERROR, reg)
  end.

Definition tegrabl_a_b_update_smd : M (ab W) unit :=
  let! (error, reg) := update_smd_body in
  when (BOOT_CHAIN_REG_MAGIC_GET reg =? BOOT_CHAIN_REG_MAGIC) (ext (set_boot_reg 0)) ;;;
  if negb (error =? TEGRABL_NO_ERROR) then err (SET_HIGHEST_MODULE error) else ret tt.
End WithStorage.

(** ** Lemmas on the buffer *)

Lemma rd8_ok smd off : (off < length smd)%nat -> rd8 smd off = Ret (ld8 smd off).
Proof. intros. unfold rd8. by destruct (Nat.ltb_spec off (length smd)); [|lia]. Qed.

(** Arithmetic on the offsets of the layout. *)
Ltac off :=
  unfold PRIORITY_OFF, RETRY_COUNT_OFF, BOOT_SUCC_OFF, SUFFIX_OFF, slot_field, ROOTFS_STATUS_OFF,
    SMD_MAGIC_OFF, SMD_VERSION_OFF, SMD_NUM_SLOTS_OFF, SMD_SLOT_INFO_OFF, SLOT_INFO_LEN,
    SMD_CRC32_OFF, SMD_LEN, SMD_V2_LEN, EXT_CRC32_OFF, EXT_CRC32_LEN_OFF, EXT_ROOTFS_SELECT_OFF,
    EXT_ROOTFS_STATUS_OFF, EXT_ROOTFS_MISC_OFF, EXT_MAX_BL_RETRY_OFF, SMD_EXT_LEN, MAX_SLOTS in *; lia.

(** Reads of the buffer after writes at other or the same offsets. *)
Ltac smd_reads :=
  repeat first
    [ rewrite ld8_st8_same by (rewrite ?length_st8, ?length_stn; off)
    | rewrite ld8_st8_ne by off
    | rewrite ld8_stn_ne by off
    | rewrite ldn_st8_ne by off
    | rewrite ldn_stn_ne by off ].

Lemma slot_cases slot : 0 <= slot < MAX_SLOTS -> slot = 0 \/ slot = 1.
Proof. unfold MAX_SLOTS. lia. Qed.

Lemma length_lower smd i : length (lower_priority smd i) = length smd.
Proof. unfold lower_priority. case_match; [apply length_st8|done]. Qed.

Lemma length_update_crc smd : length (smd_update_crc smd) = length smd.
Proof. unfold smd_update_crc. case_match; by rewrite !length_stn. Qed.

(** ** Slot selection *)

Definition slot_priority (smd : list Z) (t : Z) : Z := ld8 smd (PRIORITY_OFF t).
Definition bootable (smd : list Z) (t : Z) : Prop :=
  0 < slot_priority smd t /\ 0 < ld8 smd (RETRY_COUNT_OFF t).

(** [sl] is the first slot of highest priority among the bootable slots
    below [k]. *)
Definition best_slot (smd : list Z) (k sl : Z) : Prop :=
  0 <= sl < k /\ bootable smd sl /\
  forall t, 0 <= t < k -> bootable smd t ->
    slot_priority smd t < slot_priority smd sl \/
    slot_priority smd t = slot_priority smd sl /\ sl <= t.

(** What the scan has found after the slots below [k]. *)
Definition scanned (smd : list Z) (k max_priority slot : Z) : Prop :=
  (max_priority = 0 /\ forall t, 0 <= t < k -> ~ bootable smd t) \/
  (max_priority = slot_priority smd slot /\ best_slot smd k slot).

Lemma scanned_pos smd k m sl : scanned smd k m sl -> 0 <= m.
Proof. intros [[-> _] | [-> (_ & [? _] & _)]]; lia. Qed.

Lemma scan_step smd i m sl m' sl' :
  0 <= i -> scanned smd i m sl ->
  (bootable smd i /\ m < slot_priority smd i /\ m' = slot_priority smd i /\ sl' = i) \/
  ((~ bootable smd i \/ slot_priority smd i <= m) /\ m' = m /\ sl' = sl) ->
  scanned smd (i + 1) m' sl'.
Proof.
  intros Hi Hs [(Hb & Hlt & -> & ->) | (Hb & -> & ->)].
  - right. split; [done|]. split_and!; [lia|lia|done|]. intros t Ht Hbt.
    destruct (decide (t = i)) as [->|]; [right; lia|].
    destruct Hs as [[_ Hn] | [-> (_ & _ & Hall)]]; [destruct (Hn t); [lia|done]|].
    destruct (Hall t) as [|[]]; try done; lia.
  - destruct Hs as [[-> Hn] | [-> (Hr & Hbs & Hall)]].
    + left. split; [done|]. intros t Ht Hbt. destruct (decide (t = i)) as [->|].
      * destruct Hb as [|Hle]; [done|]. destruct Hbt. lia.
      * destruct (Hn t); [lia|done].
    + right. split; [done|]. split_and!; [lia|lia|done|]. intros t Ht Hbt.
      destruct (decide (t = i)) as [->|]; [|apply Hall; [lia|done]].
      destruct Hb as [|Hle]; [done|]. lia.
Qed.

Lemma scan_slots_spec n i smd m sl :
  bytes smd -> 0 <= i ->
  (SMD_SLOT_INFO_OFF + SLOT_INFO_LEN * (Z.to_nat i + n) <= length smd)%nat ->
  scanned smd i m sl ->
  exists m' sl', scan_slots n i smd m sl = Ret (m', sl') /\ scanned smd (i + Z.of_nat n) m' sl'.
Proof.
  intros Hb. revert i m sl. induction n as [|n IH]; intros i m sl Hi Hlen Hs; cbn [scan_slots].
  { exists m, sl. by rewrite Z.add_0_r. }
  unfold SMD_SLOT_INFO_OFF, SLOT_INFO_LEN in Hlen.
  assert (Hr : rd8 smd (RETRY_COUNT_OFF i) = Ret (ld8 smd (RETRY_COUNT_OFF i))).
  { apply rd8_ok. unfold RETRY_COUNT_OFF, slot_field, SMD_SLOT_INFO_OFF, SLOT_INFO_LEN. lia. }
  assert (Hp : rd8 smd (PRIORITY_OFF i) = Ret (slot_priority smd i)).
  { apply rd8_ok. unfold PRIORITY_OFF, slot_field, SMD_SLOT_INFO_OFF, SLOT_INFO_LEN. lia. }
  rewrite Hr, Hp. cbn [obind]. replace (i + Z.of_nat (S n)) with (i + 1 + Z.of_nat n) by lia.
  pose proof (ld8_byte smd (RETRY_COUNT_OFF i) Hb) as Hrb.
  pose proof (ld8_byte smd (PRIORITY_OFF i) Hb) as Hpb.
  change (ld8 smd (PRIORITY_OFF i)) with (slot_priority smd i) in Hpb. unfold is_byte in *.
  assert (HL : (SMD_SLOT_INFO_OFF + SLOT_INFO_LEN * (Z.to_nat (i + 1) + n) <= length smd)%nat)
    by (unfold SMD_SLOT_INFO_OFF, SLOT_INFO_LEN; lia).
  pose proof (scanned_pos _ _ _ _ Hs) as Hm.
  destruct (truthy (ld8 smd (RETRY_COUNT_OFF i))) eqn:E1; zbool.
  - destruct (truthy (slot_priority smd i) && (m <? slot_priority smd i)) eqn:E2; zbool.
    + apply IH; [lia|done|]. eapply scan_step; [done|done|]. left. unfold bootable. lia.
    + apply IH; [lia|done|]. eapply scan_step; [done|done|]. right. split; [|done].
      apply andb_false_iff in E2 as [E2|E2]; zbool; [left; unfold bootable; lia|right; lia].
  - apply IH; [lia|done|]. eapply scan_step; [done|done|]. right. split; [|done].
    left. unfold bootable. lia.
Qed.

Lemma best_slot_unique smd k a b : best_slot smd k a -> best_slot smd k b -> a = b.
Proof.
  intros (Ha & Hba & HA) (Hb & Hbb & HB).
  specialize (HA b Hb Hbb). specialize (HB a Ha Hba). lia.
Qed.

(** The result of the scan on a buffer that holds all the slots it reads. *)
Lemma bootslot_cases smd :
  bytes smd -> ld32 smd SMD_MAGIC_OFF = BOOT_CHAIN_MAGIC ->
  (SMD_SLOT_INFO_OFF + SLOT_INFO_LEN * Z.to_nat (tegrabl_a_b_get_max_num_slots smd) <= length smd)%nat ->
  let n := tegrabl_a_b_get_max_num_slots smd in
  (boot_chain_get_bootslot_from_smd smd = Err (TEGRABL_ERROR TEGRABL_ERR_INVALID 1) /\
    forall t, 0 <= t < n -> ~ bootable smd t) \/
  (exists s, boot_chain_get_bootslot_from_smd smd = Ret s /\ best_slot smd n s).
Proof.
  intros Hb Hmagic Hlen n. unfold boot_chain_get_bootslot_from_smd. rewrite Hmagic.
  replace (BOOT_CHAIN_MAGIC =? BOOT_CHAIN_MAGIC) with true by reflexivity. cbn [negb]. fold n.
  pose proof (ldn_range 2 smd SMD_NUM_SLOTS_OFF Hb) as Hn0.
  change (ldn 2 smd SMD_NUM_SLOTS_OFF) with n in Hn0.
  destruct (scan_slots_spec (Z.to_nat n) 0 smd 0 0 Hb) as (m & sl & Heq & Hs); [lia|done| |].
  { left. split; [done|]. intros. lia. }
  rewrite Heq. cbn [obind]. rewrite Z2Nat.id, Z.add_0_l in Hs by lia.
  destruct Hs as [[-> Hnone] | [-> Hbest]]; [by left|right].
  assert (slot_priority smd sl =? 0 = false) as ->; [|by eauto].
  destruct Hbest as (_ & [Hp _] & _). lia.
Qed.

Lemma bootslot_best smd s :
  bytes smd -> ld32 smd SMD_MAGIC_OFF = BOOT_CHAIN_MAGIC ->
  (SMD_SLOT_INFO_OFF + SLOT_INFO_LEN * Z.to_nat (tegrabl_a_b_get_max_num_slots smd) <= length smd)%nat ->
  best_slot smd (tegrabl_a_b_get_max_num_slots smd) s ->
  boot_chain_get_bootslot_from_smd smd = Ret s.
Proof.
  intros Hb Hm Hl Hs. destruct (bootslot_cases smd Hb Hm Hl) as [[_ Hn] | (s' & -> & Hs')].
  - destruct Hs as (Hr & Hbs & _). by destruct (Hn s).
  - f_equal. by eapply best_slot_unique.
Qed.

Lemma ld8_lower smd i o : o <> PRIORITY_OFF i -> ld8 (lower_priority smd i) o = ld8 smd o.
Proof. intros. unfold lower_priority. case_match; [by apply ld8_st8_ne|done]. Qed.

Lemma ldn_lower n smd i o :
  (o + n <= PRIORITY_OFF i \/ PRIORITY_OFF i < o)%nat -> ldn n (lower_priority smd i) o = ldn n smd o.
Proof. intros. unfold lower_priority. case_match; [by apply ldn_st8_ne|done]. Qed.

Lemma bytes_lower smd i : bytes smd -> bytes (lower_priority smd i).
Proof. intros. unfold lower_priority. case_match; [by apply bytes_st8|done]. Qed.

Lemma lowered_priority smd i :
  bytes smd -> (PRIORITY_OFF i < length smd)%nat -> slot_priority smd i <= 15 ->
  slot_priority (lower_priority smd i) i <= 14.
Proof.
  intros Hb Hl Hp. unfold lower_priority, slot_priority in *.
  pose proof (ld8_byte smd (PRIORITY_OFF i) Hb) as Hr. unfold is_byte in Hr.
  destruct (Z.ltb_spec 1 (ld8 smd (PRIORITY_OFF i))); [|lia].
  rewrite ld8_st8_same, Z.mod_small by lia. lia.
Qed.

Lemma max_retry_range smd : bytes smd -> 0 < tegrabl_get_max_retry_count smd <= SLOT_RETRY_COUNT_DEFAULT.
Proof.
  intros Hb. unfold tegrabl_get_max_retry_count, SLOT_RETRY_COUNT_DEFAULT.
  pose proof (ld8_byte smd EXT_MAX_BL_RETRY_OFF Hb) as Hr. unfold is_byte in Hr.
  repeat case_match; zbool; lia.
Qed.

Lemma max_retry_ext smd smd' :
  ldn 2 smd SMD_VERSION_OFF = ldn 2 smd' SMD_VERSION_OFF ->
  ld8 smd EXT_MAX_BL_RETRY_OFF = ld8 smd' EXT_MAX_BL_RETRY_OFF ->
  tegrabl_get_max_retry_count smd = tegrabl_get_max_retry_count smd'.
Proof. intros H1 H2. unfold tegrabl_get_max_retry_count, tegrabl_a_b_get_version. by rewrite H1, H2. Qed.

(** The buffer [tegrabl_a_b_set_active_slot] leaves. *)
Definition activated (smd : list Z) (slot : Z) : list Z :=
  st8 (st8 (st8 (lower_priority (lower_priority smd 0) 1) (PRIORITY_OFF slot) 15)
    (RETRY_COUNT_OFF slot) (tegrabl_get_max_retry_count smd)) (BOOT_SUCC_OFF slot) 0.

Ltac act_reads :=
  repeat first [ rewrite ld8_st8_same by (rewrite ?length_st8, !length_lower; off)
               | rewrite ld8_st8_ne by off
               | rewrite ld8_lower by off ].

Ltac slot_01 H := destruct (slot_cases _ H) as [-> | ->].

Lemma set_active_slot_eq smd slot :
  0 <= slot < MAX_SLOTS ->
  tegrabl_a_b_set_active_slot (Some smd) slot = Ret (activated smd slot).
Proof.
  intros Hs. unfold tegrabl_a_b_set_active_slot, tegrabl_a_b_set_priority, tegrabl_a_b_set_retry_count,
    tegrabl_a_b_set_successful, activated.
  replace (MAX_SLOTS <=? slot) with false by lia. cbn [up obind].
  unfold SLOT_PRIORITY_DEFAULT. do 3 f_equal.
  apply max_retry_ext; slot_01 Hs;
    first [rewrite ldn_st8_ne by off | rewrite ld8_st8_ne by off];
    rewrite ?ldn_lower by off; rewrite ?ld8_lower by off; done.
Qed.

Lemma activated_priority smd slot :
  bytes smd -> (SMD_V2_LEN <= length smd)%nat -> 0 <= slot < MAX_SLOTS ->
  slot_priority smd (1 - slot) <= 15 ->
  slot_priority (activated smd slot) slot = 15 /\ slot_priority (activated smd slot) (1 - slot) <= 14.
Proof.
  intros Hb Hl Hs Hp. unfold activated, slot_priority, SMD_V2_LEN in *.
  assert (H0 : (PRIORITY_OFF 0 < length smd)%nat) by off.
  assert (H1 : (PRIORITY_OFF 1 < length smd)%nat) by off.
  slot_01 Hs; [change (1 - 0) with 1 in * | change (1 - 1) with 0 in *]; split; act_reads; try done.
  - apply lowered_priority; [by apply bytes_lower|by rewrite length_lower|].
    unfold slot_priority. by rewrite ld8_lower by off.
  - by apply lowered_priority.
Qed.

Lemma activated_retry smd slot :
  bytes smd -> (SMD_V2_LEN <= length smd)%nat -> 0 <= slot < MAX_SLOTS ->
  ld8 (activated smd slot) (RETRY_COUNT_OFF slot) = tegrabl_get_max_retry_count smd /\
  ld8 (activated smd slot) (BOOT_SUCC_OFF slot) = 0 /\
  ld8 (activated smd slot) (RETRY_COUNT_OFF (1 - slot)) = ld8 smd (RETRY_COUNT_OFF (1 - slot)).
Proof.
  intros Hb Hl Hs. unfold activated, SMD_V2_LEN in *. pose proof (max_retry_range smd Hb) as Hm.
  unfold SLOT_RETRY_COUNT_DEFAULT in Hm.
  slot_01 Hs; split_and!; act_reads; rewrite ?Z.mod_small by lia; done.
Qed.

Lemma activated_header n smd slot o :
  (o + n <= SMD_SLOT_INFO_OFF)%nat -> 0 <= slot < MAX_SLOTS ->
  ldn n (activated smd slot) o = ldn n smd o.
Proof.
  intros Ho Hs. unfold activated, SMD_SLOT_INFO_OFF in *.
  slot_01 Hs; rewrite !ldn_st8_ne, !ldn_lower; done || off.
Qed.

Lemma bytes_activated smd slot : bytes smd -> bytes (activated smd slot).
Proof. intros. unfold activated. do 3 apply bytes_st8. by do 2 apply bytes_lower. Qed.

Lemma length_activated smd slot : length (activated smd slot) = length smd.
Proof. unfold activated. by rewrite !length_st8, !length_lower. Qed.

(** ** Theorems: slots *)

(** C16.  Slot selection picks exactly the first bootable slot (priority and
    retry count both positive) of highest priority, and fails exactly when no
    slot is bootable. *)
Theorem active_slot_spec smd :
  bytes smd -> ld32 smd SMD_MAGIC_OFF = BOOT_CHAIN_MAGIC ->
  (SMD_SLOT_INFO_OFF + SLOT_INFO_LEN * Z.to_nat (tegrabl_a_b_get_max_num_slots smd) <= length smd)%nat ->
  let n := tegrabl_a_b_get_max_num_slots smd in
  (forall s, boot_chain_get_bootslot_from_smd smd = Ret s <-> best_slot smd n s) /\
  (boot_chain_get_bootslot_from_smd smd = Err (TEGRABL_ERROR TEGRABL_ERR_INVALID 1) <->
     forall t, 0 <= t < n -> ~ bootable smd t).
Proof.
  intros Hb Hm Hl n. split.
  - intros s. split; [|by apply bootslot_best].
    intros Hs. destruct (bootslot_cases smd Hb Hm Hl) as [[He _] | (s1 & He & Hs1)]; [congruence|].
    rewrite He in Hs. by injection Hs as <-.
  - destruct (bootslot_cases smd Hb Hm Hl) as [[He Hn] | (s' & He & Hr & Hbs & _)]; [done|].
    split; [congruence|]. intros Hn. by destruct (Hn s').
Qed.

(** A buffer as written by [tegrabl_a_b_init], made a two-slot one. *)
Definition sample_smd : list Z := st16 (tegrabl_a_b_init (repeat 0 SMD_V2_LEN)) SMD_NUM_SLOTS_OFF 2.

Example active_slot_spec_witness :
  (forall s, boot_chain_get_bootslot_from_smd sample_smd = Ret s <-> best_slot sample_smd 2 s) /\
  (boot_chain_get_bootslot_from_smd sample_smd = Err (TEGRABL_ERROR TEGRABL_ERR_INVALID 1) <->
     forall t, 0 <= t < 2 -> ~ bootable sample_smd t).
Proof.
  apply (active_slot_spec sample_smd).
  - apply bytes_dec. vm_compute. reflexivity.
  - vm_compute. reflexivity.
  - vm_compute. lia.
Defined.

(** The number of slots is taken from the medium without a bound: with three
    slots the scan reads the crc as a third [slot_info] and selects a slot that
    [slot_info[MAX_SLOTS]] does not have. *)
Definition three_slot_smd : list Z :=
  st32 (st8 (st16 sample_smd SMD_NUM_SLOTS_OFF 3) (PRIORITY_OFF 0) 1) SMD_CRC32_OFF 0x010000FF.

(** A buffer of the right length for which the selection returns a slot
    outside [slot_info]. *)
Theorem num_slots_unchecked :
  length three_slot_smd = SMD_V2_LEN /\
  exists s, boot_chain_get_bootslot_from_smd three_slot_smd = Ret s /\ MAX_SLOTS <= s.
Proof. split; [reflexivity|]. exists 2. vm_compute. split; [done|discriminate]. Qed.

(** Making a slot active: afterwards the selection returns that slot,
    with the retry count at its maximum and the boot marked unsuccessful, and
    the other slot keeps its retry count.  Priorities are in their documented
    range [0:15]. *)
Theorem set_active_slot_selects smd slot :
  bytes smd -> (SMD_V2_LEN <= length smd)%nat ->
  ld32 smd SMD_MAGIC_OFF = BOOT_CHAIN_MAGIC -> tegrabl_a_b_get_max_num_slots smd = 2 ->
  slot_priority smd 0 <= 15 -> slot_priority smd 1 <= 15 -> 0 <= slot < MAX_SLOTS ->
  exists smd',
    tegrabl_a_b_set_active_slot (Some smd) slot = Ret smd' /\
    boot_chain_get_bootslot_from_smd smd' = Ret slot /\
    tegrabl_a_b_get_successful (Some smd') slot = Ret 0 /\
    tegrabl_a_b_get_retry_count (Some smd') slot = Ret (tegrabl_get_max_retry_count smd) /\
    tegrabl_a_b_get_retry_count (Some smd') (1 - slot) = tegrabl_a_b_get_retry_count (Some smd) (1 - slot) /\
    0 < tegrabl_get_max_retry_count smd <= SLOT_RETRY_COUNT_DEFAULT.
Proof.
  intros Hb Hlen Hmagic Hn Hp0 Hp1 Hslot. exists (activated smd slot).
  destruct (activated_retry smd slot Hb Hlen Hslot) as (Hr & Hbs & Ho).
  assert (Hpo : slot_priority smd (1 - slot) <= 15) by (slot_01 Hslot; assumption).
  destruct (activated_priority smd slot Hb Hlen Hslot Hpo) as [Hp Hq].
  pose proof (max_retry_range smd Hb) as Hmax.
  assert (Hge : MAX_SLOTS <=? slot = false) by lia.
  assert (Hge' : MAX_SLOTS <=? 1 - slot = false) by (unfold MAX_SLOTS in *; lia).
  assert (Hnum : tegrabl_a_b_get_max_num_slots (activated smd slot) = 2).
  { unfold tegrabl_a_b_get_max_num_slots. rewrite activated_header; [done|off|done]. }
  unfold tegrabl_a_b_get_successful, tegrabl_a_b_get_retry_count. rewrite Hge, Hge', Hr, Hbs, Ho.
  split_and!; try done; try lia; [by apply set_active_slot_eq|].
  apply bootslot_best.
  - by apply bytes_activated.
  - rewrite activated_header; [done|off|done].
  - rewrite Hnum, length_activated. off.
  - rewrite Hnum. unfold best_slot, bootable. unfold MAX_SLOTS in Hslot. split_and!; [lia..|].
    intros t Ht _. destruct (decide (t = slot)) as [->|]; [right; lia|left].
    replace t with (1 - slot) by lia. lia.
Qed.

Example set_active_slot_selects_witness :
  exists smd',
    tegrabl_a_b_set_active_slot (Some sample_smd) 1 = Ret smd' /\
    boot_chain_get_bootslot_from_smd smd' = Ret 1 /\
    tegrabl_a_b_get_successful (Some smd') 1 = Ret 0 /\
    tegrabl_a_b_get_retry_count (Some smd') 1 = Ret (tegrabl_get_max_retry_count sample_smd) /\
    tegrabl_a_b_get_retry_count (Some smd') (1 - 1) = tegrabl_a_b_get_retry_count (Some sample_smd) (1 - 1) /\
    0 < tegrabl_get_max_retry_count sample_smd <= SLOT_RETRY_COUNT_DEFAULT.
Proof.
  apply (set_active_slot_selects sample_smd 1).
  - apply bytes_dec. vm_compute. reflexivity.
  - vm_compute. lia.
  - vm_compute. reflexivity.
  - vm_compute. reflexivity.
  - vm_compute. discriminate.
  - vm_compute. discriminate.
  - unfold MAX_SLOTS. lia.
Defined.
