(* ===== verification/AbStorage.v ===== *)
(** * A/B boot control: the metadata on the storage device

    The behaviour of lib/a_b_boot/tegrabl_a_b_boot_control.c towards the two
    copies of the slot metadata: what loading accepts, that flushing never
    destroys the last good copy, and that the scratch register is handed over
    cleared.  The storage is any one that satisfies [PartitionLaws]. *)
From S2P Require Import Prelude Errors Utils Interfaces RamStore AbBoot.

(** ** Checks and crc fields *)


Lemma bytes_update_crc smd : bytes smd -> bytes (smd_update_crc smd).
Proof. intros. unfold smd_update_crc. case_match; repeat apply bytes_stn; done. Qed.

Lemma version_st32 smd o v :
  (6 <= o)%nat -> tegrabl_a_b_get_version (st32 smd o v) = tegrabl_a_b_get_version smd.
Proof. intros. unfold tegrabl_a_b_get_version, SMD_VERSION_OFF. by rewrite ldn_stn_ne by lia. Qed.

Lemma slice_st32 smd o v k n :
  (k + n <= o \/ o + 4 <= k)%nat -> slice (st32 smd o v) k n = slice smd k n.
Proof.
  intros. apply slice_ext; [by rewrite length_stn|]. intros i Hi. apply ld8_stn_ne. lia.
Qed.

(** A buffer whose crc fields have just been updated passes the checks, when
    its magic number is right (the only check of version one). *)
Lemma smd_check_update_crc smd :
  bytes smd -> (SMD_V2_LEN <= length smd)%nat -> ld32 smd SMD_MAGIC_OFF = BOOT_CHAIN_MAGIC ->
  smd_check (smd_update_crc smd) = Ret tt.
Proof.
  intros Hb Hl Hm. unfold smd_check, smd_update_crc. unfold SMD_V2_LEN in Hl.
  set (c := tegrabl_utils_crc32 0 (slice smd 0 (SMD_LEN - 4))).
  assert (Hc : in_word 32 c) by (apply crc32_range, bytes_slice, Hb).
  set (smd1 := st32 smd SMD_CRC32_OFF c).
  assert (Hl1 : length smd1 = length smd) by apply length_stn.
  set (d := tegrabl_utils_crc32 0 (slice smd1 EXT_CRC32_LEN_OFF (SMD_EXT_LEN - 4))).
  assert (Hd : in_word 32 d) by (apply crc32_range, bytes_slice, bytes_stn, Hb).
  assert (Hv1 : tegrabl_a_b_get_version smd1 = tegrabl_a_b_get_version smd) by (apply version_st32; off).
  set (smd2 := if BOOT_CHAIN_VERSION_ROOTFS_AB <=? BOOT_CHAIN_VERSION_GET (tegrabl_a_b_get_version smd1)
               then st32 smd1 EXT_CRC32_OFF d else smd1).
  assert (Hv2 : tegrabl_a_b_get_version smd2 = tegrabl_a_b_get_version smd).
  { unfold smd2. case_match; [|done]. rewrite version_st32 by off. done. }
  assert (Hs2 : slice smd2 0 (SMD_LEN - 4) = slice smd 0 (SMD_LEN - 4)).
  { unfold smd2. case_match; rewrite ?slice_st32 by off; unfold smd1; by rewrite slice_st32 by off. }
  assert (Hc2 : ld32 smd2 SMD_CRC32_OFF = c).
  { unfold smd2. case_match; rewrite ?ldn_stn_ne by off; unfold smd1;
      (rewrite ldn_stn_same by off); by apply Z.mod_small. }
  assert (Hm2 : ld32 smd2 SMD_MAGIC_OFF = BOOT_CHAIN_MAGIC).
  { unfold smd2. case_match; rewrite ?ldn_stn_ne by off; unfold smd1; by rewrite ldn_stn_ne by off. }
  rewrite Hv2, Hs2, Hc2, Hm2, !Z.eqb_refl. cbn [negb].
  assert (forall b : bool, (if b then Ret tt else Ret tt) = @Ret unit tt) as -> by (by intros []).
  cbn [obind]. unfold smd2. rewrite Hv1. case_match; [|done].
  rewrite slice_st32 by off. fold d. rewrite ldn_stn_same by off.
  change (256 ^ Z.of_nat 4) with (2 ^ 32). rewrite Z.mod_small by exact Hd. by rewrite Z.eqb_refl.
Qed.

(** ** The copies on the device *)

Section Storage.
Context {W H : Type} `{SocScratch W} `{HeapApi W} `{PartitionLaws W H}.
Variable config_qspi : bool.

(** The first bytes of copy [c] on the device are those of [data]. *)
Definition holds_copy (w : W) (c : Z) (data : list Z) : Prop :=
  exists b, part_content w (smd_part c) = Some b /\ slice b 0 SMD_V2_LEN = slice data 0 SMD_V2_LEN.

(** Copy [c] passes the checks of [load_smd_bin_copy]. *)
Definition good_copy (w : W) (c : Z) : Prop :=
  exists b, part_content w (smd_part c) = Some b /\ smd_check (slice b 0 SMD_V2_LEN) = Ret tt.

Lemma ext_up_wp {A} (c : M W A) (Q : outcome A -> ab W -> Prop) s :
  (forall r w', c (world s) = (r, w') ->
     Q (match r with Err e => Err (SET_HIGHEST_MODULE e) | _ => r end) (upd_world w' s)) ->
  wp (ext_up c) Q s.
Proof.
  intros Hq. unfold ext_up. apply wp_map_err. unfold wp, ext.
  destruct (c (world s)) as [r w'] eqn:E. specialize (Hq r w' eq_refl). by destruct r.
Qed.

(** The state after a computation that only talks to the outside world. *)
Definition same_state (s s' : ab W) : Prop := upd_world (world s) s' = s.

Lemma same_upd s w : same_state s (upd_world w s).
Proof. by destruct s. Qed.

Lemma upd_world_id (s : ab W) : upd_world (world s) s = s.
Proof. by destruct s. Qed.

Lemma same_trans s s1 s2 : same_state s s1 -> same_state s1 s2 -> same_state s s2.
Proof. unfold same_state. intros <- <-. by destruct s2. Qed.

Definition other_parts (n : list Z) (w w' : W) : Prop :=
  forall m, ~ part_alias m n -> part_content w' m = part_content w m.

Lemma other_trans n w w1 w2 : other_parts n w w1 -> other_parts n w1 w2 -> other_parts n w w2.
Proof. intros Ha Hb m Hm. by rewrite Hb, Ha. Qed.

(** What writing copy [c] promises, whatever the outcome. *)
Definition copy_written (data : list Z) (c : Z) (s : ab W) (r : outcome unit) (s' : ab W) : Prop :=
  same_state s s' /\ other_parts (smd_part c) (world s) (world s') /\
  (r = Ret tt -> holds_copy (world s') c data).

Lemma seek_write_wp p data c s s2 :
  (SMD_V2_LEN <= length data)%nat -> part_name p = smd_part c ->
  same_state s s2 -> other_parts (smd_part c) (world s) (world s2) ->
  wp (let! part := ext_up (partition_seek p 0 TEGRABL_PARTITION_SEEK_SET) in
      let! part := ext_up (partition_write part (slice data 0 SMD_V2_LEN)) in ret tt)
    (copy_written data c s) s2.
Proof.
  intros Hl P1 S2 O2. apply wp_bind, ext_up_wp. intros r w3 E3. apply seek_law in E3 as [F3 P3].
  assert (O3 : other_parts (smd_part c) (world s) w3).
  { eapply other_trans; [exact O2|]. intros m _. apply F3. }
  assert (S3 : same_state s (upd_world w3 s2)) by (eapply same_trans; [exact S2|apply same_upd]).
  destruct r as [p'|e| | |]; try (split; [exact S3|done]).
  destruct (P3 p' eq_refl) as [N3 Pos3]. apply wp_bind, ext_up_wp. intros r w4 E4.
  apply write_law in E4 as [F4 P4].
  assert (O4 : other_parts (smd_part c) (world s) w4).
  { eapply other_trans; [exact O3|]. intros m Hm. apply F4. by rewrite N3, P1. }
  assert (S4 : same_state s (upd_world w4 (upd_world w3 s2))) by (eapply same_trans; [exact S3|apply same_upd]).
  destruct r as [p4|e| | |]; try (split; [exact S4|done]).
  split; [exact S4|]. split; [exact O4|]. intros _.
  destruct (P4 p4 eq_refl) as (b & Hb & Hsl). exists b. rewrite N3, P1 in Hb. split; [done|].
  rewrite Pos3, length_slice in Hsl. by rewrite Nat.sub_0_r, Nat.min_l in Hsl by done.
Qed.

(** Writing one copy: the other partitions are untouched whatever happens, and
    when the call succeeds the copy holds the buffer. *)
Lemma flush_copy_wp data c s :
  (SMD_V2_LEN <= length data)%nat ->
  wp (flush_smd_bin_copy config_qspi data c) (copy_written data c s) s.
Proof.
  intros Hl. unfold flush_smd_bin_copy. apply wp_bind, ext_up_wp. intros r w1 E1.
  apply open_law in E1 as [F1 P1].
  assert (O1 : other_parts (smd_part c) (world s) w1) by (intros m _; apply F1).
  destruct r as [p|e| | |]; try (split; [apply same_upd|done]). specialize (P1 p eq_refl).
  unfold when. apply wp_bind. destruct (config_qspi && _).
  - apply ext_up_wp. intros r w2 E2. pose proof (erase_law _ _ _ _ _ E2) as F2. rewrite P1 in F2.
    assert (O2 : other_parts (smd_part c) (world s) w2) by (eapply other_trans; [exact O1|exact F2]).
    assert (S2 : same_state s (upd_world w2 (upd_world w1 s))) by (eapply same_trans; apply same_upd).
    destruct r as [[]|e| | |]; try (split; [exact S2|done]). by apply seek_write_wp.
  - apply seek_write_wp; [done..|apply same_upd|done].
Qed.

Lemma good_other c c' w w' :
  ~ part_alias (smd_part c) (smd_part c') -> other_parts (smd_part c') w w' -> good_copy w c -> good_copy w' c.
Proof. intros Hn Ho (b & Hb & Hc). exists b. by rewrite Ho. Qed.

Lemma holds_other c c' w w' data :
  ~ part_alias (smd_part c) (smd_part c') -> other_parts (smd_part c') w w' ->
  holds_copy w c data -> holds_copy w' c data.
Proof. intros Hn Ho (b & Hb & Hc). exists b. by rewrite Ho. Qed.

Lemma slice_all (b : list Z) n : length b = n -> slice b 0 n = b.
Proof. intros <-. unfold slice. by rewrite drop_0, take_ge. Qed.

Lemma holds_good w c data :
  length data = SMD_V2_LEN -> smd_check data = Ret tt -> holds_copy w c data -> good_copy w c.
Proof. intros Hl Hc (b & Hb & Hs). exists b. rewrite Hs, slice_all by done. done. Qed.

(** The copy written first and the copy written second. *)
Definition first_copy (s : ab W) : Z :=
  if current_smd s =? SMD_COPY_PRIMARY then SMD_COPY_SECONDARY else SMD_COPY_PRIMARY.
Definition second_copy (s : ab W) : Z :=
  if current_smd s =? SMD_COPY_PRIMARY then SMD_COPY_PRIMARY else SMD_COPY_SECONDARY.

(** The two copies lie in different partitions. *)
Definition two_copies : Prop :=
  ~ part_alias (smd_part SMD_COPY_PRIMARY) (smd_part SMD_COPY_SECONDARY) /\
  ~ part_alias (smd_part SMD_COPY_SECONDARY) (smd_part SMD_COPY_PRIMARY).

Lemma copies_ne s : two_copies ->
  ~ part_alias (smd_part (first_copy s)) (smd_part (second_copy s)) /\
  ~ part_alias (smd_part (second_copy s)) (smd_part (first_copy s)).
Proof. intros []. unfold first_copy, second_copy. by case_match. Qed.

(** The two writes: [Q] is any property that holds once the first write has
    been attempted with the second copy intact, and once the second has been
    attempted with the first one holding the data. *)
Lemma flush_wp a s (Q : outcome unit -> ab W -> Prop) :
  two_copies -> length (smd_mem s) = SMD_V2_LEN ->
  (forall r s', same_state (upd_smd (smd_update_crc (smd_mem s)) s) s' ->
     other_parts (smd_part (first_copy s)) (world s) (world s') -> r <> Ret tt -> Q r s') ->
  (forall r s', same_state (upd_smd (smd_update_crc (smd_mem s)) s) s' ->
     holds_copy (world s') (first_copy s) (smd_update_crc (smd_mem s)) ->
     (r = Ret tt -> holds_copy (world s') (second_copy s) (smd_update_crc (smd_mem s))) -> Q r s') ->
  wp (tegrabl_a_b_flush_smd config_qspi (Some a)) Q s.
Proof.
  intros Hdis Hl Q1 Q2. destruct (copies_ne s Hdis) as [Hne _]. unfold tegrabl_a_b_flush_smd. apply wp_bind. unfold wp at 1. cbn [get fst snd].
  apply wp_bind. unfold wp at 1. cbn [modify fst snd].
  set (data := smd_update_crc (smd_mem s)) in *. set (s1 := upd_smd data s) in *.
  assert (Hd : (SMD_V2_LEN <= length data)%nat) by (unfold data; rewrite length_update_crc; lia).
  apply wp_bind. eapply wp_mono; [apply (flush_copy_wp data (first_copy s) s1 Hd)|].
  intros r s2 (S2 & O2 & P2).
  destruct r as [[]|e| | |]; try (apply Q1; done).
  specialize (P2 eq_refl). eapply wp_mono; [apply (flush_copy_wp data (second_copy s) s2 Hd)|].
  intros r s3 (S3 & O3 & P3). apply Q2; [by eapply same_trans| |done].
  eapply holds_other; [exact Hne|exact O3|exact P2].
Qed.
End Storage.

(** ** Loading *)

Section Loading.
Context {W H : Type} `{SocScratch W} `{HeapApi W} `{PartitionLaws W H}.
Context `{!DeviceFrames W H, !WorkingDevices W H}.

Lemma ext_wp {A} (c : M W A) (Q : outcome A -> ab W -> Prop) s :
  wp c (fun r w' => Q r (upd_world w' s)) (world s) -> wp (ext c) Q s.
Proof. unfold wp, ext. by destruct (c (world s)). Qed.

Lemma keeps_wp {S A} (R : S -> S -> Prop) (c : M S A) (Q : outcome A -> S -> Prop) s :
  keeps R c -> (forall r s', c s = (r, s') -> R s s' -> Q r s') -> wp c Q s.
Proof. intros Hk Hq. specialize (Hk s). unfold wp. destruct (c s) as [r s']. by apply Hq. Qed.

Lemma good_dec (d : list Z) :
  smd_check d = Ret tt \/ smd_check d = Err (TEGRABL_ERROR TEGRABL_ERR_VERIFY_FAILED 0).
Proof.
  unfold smd_check. destruct (_ =? BOOT_CHAIN_VERSION_ONE); destruct (negb _); simpl;
    try (by right); case_match; try (by left); case_match; auto.
Qed.

(** The 191 bytes of copy [c] the loader reads. *)
Definition copy_bytes (w : W) (c : Z) : list Z :=
  slice (default [] (part_content w (smd_part c))) 0 SMD_V2_LEN.

Definition copy_present (w : W) (c : Z) : Prop :=
  exists b, part_content w (smd_part c) = Some b /\ (SMD_V2_LEN <= length b)%nat.

(** A heap call in front of the loading. *)
Definition unchanged (w w' : W) : Prop := same_parts w w' /\ same_regs w w'.

Lemma unchanged_trans w1 w2 w3 : unchanged w1 w2 -> unchanged w2 w3 -> unchanged w1 w3.
Proof. intros [] []. split; by etrans. Qed.

Lemma copy_bytes_same w w' c : same_parts w w' -> copy_bytes w' c = copy_bytes w c.
Proof. intros Hs. unfold copy_bytes. by rewrite Hs. Qed.

Lemma present_same w w' c : same_parts w w' -> copy_present w c -> copy_present w' c.
Proof. intros Hs (b & Hb & Hl). exists b. by rewrite Hs. Qed.

Lemma malloc_wp n s (Q : outcome (option Z) -> ab W -> Prop) :
  (forall a w', unchanged (world s) w' -> Q (Ret (Some a)) (upd_world w' s)) -> wp (ext (heap_malloc n)) Q s.
Proof.
  intros Hq. apply ext_wp. destruct (malloc_works n (world s)) as (a & w' & E).
  pose proof (malloc_parts n (world s)) as Hp. pose proof (malloc_regs n (world s)) as Hr.
  unfold wp. rewrite E in *. by apply Hq.
Qed.

Lemma free_wp a s (Q : outcome unit -> ab W -> Prop) :
  (forall w', unchanged (world s) w' -> Q (Ret tt) (upd_world w' s)) -> wp (ext (heap_free a)) Q s.
Proof.
  intros Hq. apply ext_wp. destruct (free_works a (world s)) as (w' & E).
  pose proof (free_parts a (world s)) as Hp. pose proof (free_regs a (world s)) as Hr.
  unfold wp. rewrite E in *. by apply Hq.
Qed.

(** Loading one copy: it is read, checked, and becomes the current one only
    when it passes. *)
Lemma load_copy_wp c s (Q : outcome unit -> ab W -> Prop) :
  copy_present (world s) c ->
  (forall w', unchanged (world s) w' ->
     let d := copy_bytes (world s) c in
     let s' := upd_smd d (upd_world w' s) in
     (smd_check d = Ret tt -> Q (Ret tt) (upd_current c s')) /\
     (smd_check d = Err (TEGRABL_ERROR TEGRABL_ERR_VERIFY_FAILED 0) ->
      Q (Err (TEGRABL_ERROR TEGRABL_ERR_VERIFY_FAILED 0)) (upd_current SMD_INVALID s'))) ->
  wp (load_smd_bin_copy c) Q s.
Proof.
  intros (b & Hb & Hl) Hq. unfold load_smd_bin_copy.
  apply wp_bind. unfold wp at 1. cbn [modify fst snd].
  apply wp_bind, ext_up_wp. intros r w1 E1. destruct (open_works _ b (world s) Hb) as (p & w1' & E1').
  cbn [upd_current world] in E1. rewrite E1' in E1. injection E1 as <- <-.
  pose proof (open_regs (smd_part c) (world s)) as R1. rewrite E1' in R1.
  apply open_law in E1' as [F1 P1]. specialize (P1 p eq_refl).
  apply wp_bind, ext_up_wp. intros r w2 E2. destruct (seek_works p w1') as (p2 & w2' & E2').
  cbn [upd_world world] in E2. unfold TEGRABL_PARTITION_SEEK_SET in E2. rewrite E2' in E2. injection E2 as <- <-.
  pose proof (seek_regs p 0 0 w1') as R2. rewrite E2' in R2.
  apply seek_law in E2' as [F2 P2]. destruct (P2 p2 eq_refl) as [N2 Pos2].
  assert (Hb2 : part_content w2' (part_name p2) = Some b) by (by rewrite F2, F1, N2, P1).
  apply wp_bind, ext_up_wp. intros r w3 E3. cbn [upd_world world] in E3.
  destruct (read_works p2 (Z.of_nat SMD_V2_LEN) b w2' Hb2 Pos2) as ([d p3] & w3' & E3').
  { by rewrite Nat2Z.id. }
  rewrite E3' in E3. injection E3 as <- <-.
  pose proof (read_regs p2 (Z.of_nat SMD_V2_LEN) w2') as R3. rewrite E3' in R3.
  apply read_law in E3' as [F3 P3]. destruct (P3 d p3 eq_refl) as (b' & Hb' & Hd & _).
  assert (Hdc : d = copy_bytes (world s) c).
  { unfold copy_bytes. rewrite Hb. simpl. rewrite Hd, Pos2, Nat2Z.id. by simplify_eq. }
  assert (Hun : unchanged (world s) w3').
  { split; [by intros n; rewrite F3, F2, F1|]. simpl in *. etrans; [exact R1|]. by etrans. }
  specialize (Hq w3' Hun). cbv zeta in Hq. rewrite <- Hdc in Hq. destruct Hq as [Qok Qbad].
  apply wp_bind. unfold wp at 1. cbn [modify fst snd]. apply wp_bind. unfold wp at 1. cbn [lift fst snd].
  destruct (good_dec d) as [E | E]; rewrite E; [by apply Qok|by apply Qbad].
Qed.

(** The initialisation that follows a successful load returns, keeps the
    backup of what was loaded and touches no partition. *)
Lemma select_rootfs_returns d w :
  exists d' w', tegrabl_a_b_select_active_rootfs (Some d) w = (Ret d', w') /\ same_parts w w'.
Proof.
  unfold tegrabl_a_b_select_active_rootfs, bind, get_rootfs_reg, gets, set_rootfs_reg, modify, ret.
  repeat case_match; simplify_eq; eexists _, _; (split; [reflexivity|]); done || apply set_rootfs_parts.
Qed.

Lemma init_rootfs_returns d w :
  exists w', tegrabl_a_b_init_rootfs_slot_reg d w = (Ret tt, w') /\ same_parts w w'.
Proof.
  unfold tegrabl_a_b_init_rootfs_slot_reg, bind, get_rootfs_reg, gets, set_rootfs_reg, modify, ret.
  repeat case_match; simplify_eq; eexists; (split; [reflexivity|]); done || apply set_rootfs_parts.
Qed.

Lemma get_smd_init_wp s (Q : outcome unit -> ab W -> Prop) :
  (forall w' d', same_parts (world s) w' ->
     Q (Ret tt) (upd_smd d' (upd_backup_mem (smd_mem s) (upd_world w' s)))) ->
  wp get_smd_init Q s.
Proof.
  intros Hq. unfold get_smd_init. apply wp_bind. unfold wp at 1. cbn [get fst snd].
  apply wp_bind. unfold wp at 1. cbn [modify fst snd].
  apply wp_bind, wp_code, ext_wp. destruct (init_rootfs_returns (smd_mem s) (world s)) as (w1 & E1 & S1).
  unfold wp at 1. cbn [upd_backup_mem world]. rewrite E1. cbn [fst snd].
  apply wp_bind, wp_code, ext_wp. destruct (select_rootfs_returns (smd_mem s) w1) as (d' & w2 & E2 & S2).
  unfold wp at 1. cbn [upd_world world]. rewrite E2. cbn [fst snd]. apply (Hq w2 d'). by etrans.
Qed.
(** The result of loading from the state [s]. *)
Definition smd_loaded (s : ab W) (r : outcome unit) (s' : ab W) : Prop :=
  let primary := copy_bytes (world s) SMD_COPY_PRIMARY in
  let secondary := copy_bytes (world s) SMD_COPY_SECONDARY in
  same_parts (world s) (world s') /\
  match smd_check primary, smd_check secondary with
  | Ret _, _ => r = Ret tt /\ current_smd s' = SMD_COPY_PRIMARY /\
                backup_mem s' = primary /\ is_Some (smd_loadaddress s')
  | _, Ret _ => r = Ret tt /\ current_smd s' = SMD_COPY_SECONDARY /\
                backup_mem s' = secondary /\ is_Some (smd_loadaddress s')
  | _, _ => r = Err (TEGRABL_ERROR TEGRABL_ERR_VERIFY_FAILED 0) /\
            current_smd s' = SMD_INVALID /\ smd_loadaddress s' = None /\ smd_backup s' = None
  end.
End Loading.

(** ** The scratch register at handover *)

Section Handover.
Context {W H : Type} `{SocScratchLaws W} `{HeapApi W} `{PartitionLaws W H} `{!DeviceFrames W H}.
Variable config_qspi : bool.

Definition same_boot (s s' : ab W) : Prop :=
  tegrabl_get_boot_slot_reg (world s') = tegrabl_get_boot_slot_reg (world s).
Definition boot_magic (s : ab W) : Z := BOOT_CHAIN_REG_MAGIC_GET (tegrabl_get_boot_slot_reg (world s)).
Definition same_magic (s s' : ab W) : Prop := boot_magic s' = boot_magic s.

#[local] Instance same_boot_preorder : PreOrder same_boot.
Proof. split; [by intros s|]. intros s1 s2 s3 Ha Hb. unfold same_boot in *. congruence. Qed.

#[local] Instance same_magic_preorder : PreOrder same_magic.
Proof. split; [by intros s|]. intros s1 s2 s3 Ha Hb. unfold same_magic in *. congruence. Qed.

Lemma boot_same_magic s s' : same_boot s s' -> same_magic s s'.
Proof. unfold same_boot, same_magic, boot_magic. by intros ->. Qed.

Lemma keeps_weaken {S A} (R R' : S -> S -> Prop) (c : M S A) :
  (forall s s', R s s' -> R' s s') -> keeps R c -> keeps R' c.
Proof. intros Hi Hk s. apply Hi, Hk. Qed.

(** Calls to the outside that leave the register alone. *)
Lemma ext_regs_boot {A} (c : M W A) : keeps same_regs c -> keeps same_boot (ext c).
Proof. intros Hk s. specialize (Hk (world s)). unfold ext. destruct (c (world s)). apply Hk. Qed.

Lemma ext_up_boot {A} (c : M W A) : keeps same_regs c -> keeps same_boot (ext_up c).
Proof. intros Hk. apply keeps_map_err. by apply ext_regs_boot. Qed.

Lemma set_rootfs_boot v : keeps same_boot (ext (set_rootfs_reg v)).
Proof. intros s. unfold same_boot. simpl. apply get_boot_set_rootfs. Qed.

(** A computation on the world that only writes the rootfs register. *)
Definition boot_kept (w w' : W) : Prop := tegrabl_get_boot_slot_reg w' = tegrabl_get_boot_slot_reg w.

#[local] Instance boot_kept_preorder : PreOrder boot_kept.
Proof. split; [by intros w|]. intros w1 w2 w3 Ha Hb. unfold boot_kept in *. congruence. Qed.

Lemma ext_boot_kept {A} (c : M W A) : keeps boot_kept c -> keeps same_boot (ext c).
Proof. intros Hk s. specialize (Hk (world s)). unfold ext. destruct (c (world s)). apply Hk. Qed.

Lemma set_rootfs_kept v : keeps boot_kept (set_rootfs_reg v).
Proof. intros w. apply get_boot_set_rootfs. Qed.
#[local] Hint Resolve ext_regs_boot ext_up_boot ext_boot_kept set_rootfs_kept : keeps.

Lemma init_rootfs_boot d : keeps boot_kept (tegrabl_a_b_init_rootfs_slot_reg d).
Proof. unfold tegrabl_a_b_init_rootfs_slot_reg, get_rootfs_reg. keeps_tac. Qed.

Lemma select_rootfs_boot d : keeps boot_kept (tegrabl_a_b_select_active_rootfs d).
Proof. unfold tegrabl_a_b_select_active_rootfs, get_rootfs_reg. keeps_tac. Qed.
#[local] Hint Resolve init_rootfs_boot select_rootfs_boot : keeps.

Lemma load_copy_boot c : keeps same_boot (load_smd_bin_copy c).
Proof. unfold load_smd_bin_copy. keeps_tac; done. Qed.

Lemma get_smd_init_boot : keeps same_boot get_smd_init.
Proof. unfold get_smd_init. keeps_tac; done. Qed.
#[local] Hint Resolve load_copy_boot get_smd_init_boot : keeps.

Lemma get_smd_boot : keeps same_boot tegrabl_a_b_get_smd.
Proof. unfold tegrabl_a_b_get_smd. keeps_tac; done. Qed.
Lemma magic_reg_set reg v ones w sh :
  ones = Z.ones w -> 0 <= w -> 16 <= sh ->
  BOOT_CHAIN_REG_MAGIC_GET (REG_SET reg v ones sh) = BOOT_CHAIN_REG_MAGIC_GET reg.
Proof.
  intros -> Hw Hs. unfold REG_SET, BOOT_CHAIN_REG_MAGIC_GET. rewrite field_set_land by lia.
  pose proof (BITFIELD_GET_SET_other reg v w sh 16 0) as Hk.
  rewrite <- !field_get_land, !Z.shiftr_0_r in Hk by lia. apply Hk; lia.
Qed.

Lemma set_boot_magic v s :
  in_word 32 v -> BOOT_CHAIN_REG_MAGIC_GET v = boot_magic s ->
  same_magic s (upd_world (tegrabl_set_boot_slot_reg v (world s)) s).
Proof. intros Hv Hm. unfold same_magic, boot_magic. simpl. rewrite get_set_boot by done. done. Qed.

Definition magic_kept (w w' : W) : Prop :=
  BOOT_CHAIN_REG_MAGIC_GET (tegrabl_get_boot_slot_reg w') =
  BOOT_CHAIN_REG_MAGIC_GET (tegrabl_get_boot_slot_reg w).

#[local] Instance magic_kept_preorder : PreOrder magic_kept.
Proof. split; [by intros w|]. intros w1 w2 w3 Ha Hb. unfold magic_kept in *. congruence. Qed.

Lemma set_retry_magic slot n : keeps magic_kept (tegrabl_a_b_set_retry_count_reg slot n).
Proof.
  intros w. unfold tegrabl_a_b_set_retry_count_reg, get_boot_reg, set_boot_reg, bind, gets, modify, magic_kept. simpl.
  set (r := tegrabl_get_boot_slot_reg w).
  assert (in_word 32 r) by apply boot_reg_range.
  assert (Hr : forall v ones sh, in_word 32 (REG_SET r v ones sh)) by (intros; apply wrapw_range; lia).
  unfold BOOT_CHAIN_REG_A_RETRY_COUNT_SET, BOOT_CHAIN_REG_B_RETRY_COUNT_SET.
  repeat case_match; rewrite get_set_boot by auto; try done; apply (magic_reg_set _ _ _ 4); done.
Qed.

Lemma set_rootfs_magic v : keeps magic_kept (set_rootfs_reg v).
Proof. intros w. unfold magic_kept. simpl. by rewrite get_boot_set_rootfs. Qed.
#[local] Hint Resolve set_retry_magic set_rootfs_magic : keeps.

Lemma check_user_magic reg d : keeps magic_kept (check_user_redundancy_status reg d).
Proof. unfold check_user_redundancy_status, get_boot_reg, get_rootfs_reg. keeps_tac. Qed.

Lemma check_magic reg d : keeps magic_kept (check_redundancy_status reg d).
Proof.
  unfold check_redundancy_status, check_non_user_redundancy_status, check_rootfs_ab_status.
  pose proof check_user_magic. keeps_tac.
Qed.

Lemma wp_any {S A} (c : M S A) (Q : outcome A -> S -> Prop) s : (forall r s', Q r s') -> wp c Q s.
Proof. intros Hq. apply Hq. Qed.

(** The value of the variable [reg] at the label [done] has the magic number
    the register had at the start; without the magic number nothing has written
    the register. *)
Definition handed_over (s : ab W) (r : outcome (Z * Z)) (s' : ab W) : Prop :=
  match r with
  | Ret (e, reg) =>
      BOOT_CHAIN_REG_MAGIC_GET reg = boot_magic s /\ (boot_magic s <> BOOT_CHAIN_REG_MAGIC -> same_boot s s')
  | Err _ => False
  | _ => True
  end.

(** A call whose error code, if any, is in its result. *)
Definition no_err {S A} (c : M S A) : Prop := forall s e, (c s).1 <> Err e.

Lemma no_err_code {S A} (c : M S A) : no_err (code c).
Proof. intros s e. unfold code. by destruct (c s) as [[] ?]. Qed.

Lemma handed_any {A} (c : M (ab W) A) (k : A -> M (ab W) (Z * Z)) s s0 :
  no_err c -> (forall a s1, wp (k a) (handed_over s) s1) -> wp (bind c k) (handed_over s) s0.
Proof.
  intros Hc Hk. apply wp_bind. unfold wp at 1. specialize (Hc s0).
  destruct (c s0) as [[a|e| | |] s1]; try done; [apply Hk|by destruct (Hc e)].
Qed.

Lemma handed_ret e reg s s0 :
  boot_magic s = BOOT_CHAIN_REG_MAGIC -> BOOT_CHAIN_REG_MAGIC_GET reg = boot_magic s ->
  wp (ret (e, reg)) (handed_over s) s0.
Proof. intros Hm Hr. split; [done|]. intros Hn. by destruct Hn. Qed.

Lemma update_body_wp s : wp (update_smd_body config_qspi) (handed_over s) s.
Proof.
  unfold update_smd_body. apply wp_bind. unfold wp at 1. cbn [ext get_boot_reg gets fst snd].
  set (reg := tegrabl_get_boot_slot_reg (world s)).
  rewrite upd_world_id. apply wp_bind, wp_code.
  eapply keeps_wp; [apply get_smd_boot|]. intros r s1 _ B.
  destruct r as [[]|e| | |]; try done.
  apply wp_bind. unfold wp at 1. cbn [gets fst snd]. case_match eqn:E; [|split; done].
  apply andb_true_iff in E as [E _]. apply Z.eqb_eq in E.
  assert (Hm : boot_magic s = BOOT_CHAIN_REG_MAGIC) by exact E.
  apply wp_bind.
  apply (keeps_wp (fun s s' => magic_kept (world s) (world s'))).
  { intros s2. case_match; [|reflexivity]. pose proof (check_magic reg (smd_mem s1) (world s2)) as Hk.
    unfold code, ext. destruct (check_redundancy_status _ _ _) as [[] ?]; exact Hk. }
  intros r s2 E2 M2.
  assert (He : forall e, r <> Err e).
  { intros e ->. case_match; [|done]. by apply (f_equal fst), no_err_code in E2. }
  assert (Hm2 : boot_magic s2 = boot_magic s).
  { unfold boot_magic. rewrite M2. by apply boot_same_magic. }
  destruct r as [[smd|e]|e| | |]; try done; [|by destruct (He e)].
  apply wp_bind. unfold wp at 1. cbn [ext get_boot_reg gets fst snd].
  apply handed_any; [done|]. intros _ s3. apply handed_any; [done|]. intros s4 s5.
  destruct (negb _); [|by apply handed_ret]. apply handed_any; [apply no_err_code|].
  intros [[]|e] s6; by apply handed_ret.
Qed.
End Handover.

(** ** Theorems *)

(** The metadata survives a flush. *)
Definition survives {W H : Type} `{PartitionLaws W H} (s : ab W) (r : outcome unit)
    (s' : ab W) : Prop :=
  (good_copy (world s') SMD_COPY_PRIMARY \/ good_copy (world s') SMD_COPY_SECONDARY) /\
  (r = Ret tt ->
   smd_mem s' = smd_update_crc (smd_mem s) /\
   forall c, c = SMD_COPY_PRIMARY \/ c = SMD_COPY_SECONDARY ->
     holds_copy (world s') c (smd_mem s') /\ good_copy (world s') c).

Lemma flush_survives {W H : Type} `{PartitionLaws W H}
    (config_qspi : bool) (a : Z) (s : ab W) r s' :
  two_copies ->
  bytes (smd_mem s) -> length (smd_mem s) = SMD_V2_LEN -> ld32 (smd_mem s) SMD_MAGIC_OFF = BOOT_CHAIN_MAGIC ->
  current_smd s = SMD_COPY_PRIMARY \/ current_smd s = SMD_COPY_SECONDARY ->
  good_copy (world s) (current_smd s) ->
  tegrabl_a_b_flush_smd config_qspi (Some a) s = (r, s') ->
  survives s r s'.
Proof.
  intros Hdis Hb Hl Hm Hcur Hgood Hrun.
  set (data := smd_update_crc (smd_mem s)).
  assert (Hck : smd_check data = Ret tt) by (apply smd_check_update_crc; [done|lia|done]).
  assert (Hld : length data = SMD_V2_LEN) by (unfold data; by rewrite length_update_crc).
  assert (Hsec : second_copy s = current_smd s) by (unfold second_copy; by destruct Hcur as [-> | ->]).
  assert (Hone : forall w, good_copy w (first_copy s) \/ good_copy w (second_copy s) ->
    good_copy w SMD_COPY_PRIMARY \/ good_copy w SMD_COPY_SECONDARY)
    by (intros w; unfold first_copy, second_copy; destruct Hcur as [-> | ->]; simpl; tauto).
  refine (wp_elim _ (fun r s' => _) s r s' _ Hrun). apply flush_wp; [done|done| |]; clear r s' Hrun.
  - intros r s' _ O Hr. split; [|done]. apply Hone. right. eapply good_other; [|exact O|by rewrite Hsec].
    by destruct (copies_ne s Hdis).
  - intros r s' S F P. split; [apply Hone; left; by apply (holds_good _ _ data)|].
    intros Hr. specialize (P Hr).
    assert (Hmem : smd_mem s' = data) by (unfold same_state in S; by apply (f_equal smd_mem) in S).
    split; [done|]. intros c Hc. rewrite Hmem.
    assert (holds_copy (world s') c data) as Hh.
    { unfold first_copy in F. unfold second_copy in P. destruct Hcur as [E|E], Hc as [-> | ->]; by rewrite E in F, P. }
    split; [done|]. by apply (holds_good _ _ data).
Qed.

(** C10.  Flushing the metadata never destroys the last good copy.  When the
    copy the metadata was loaded from is good, then after
    [tegrabl_a_b_flush_smd] - whatever its outcome, so also when a storage call
    fails or the machine stops inside one with the partition being written in
    any state - one of the two copies still passes the checks of the loader;
    and when the call returns success both copies hold the buffer with its crc
    fields updated, and both pass. *)
Theorem flush_keeps_a_good_copy {W H : Type} `{PartitionLaws W H}
    (config_qspi : bool) (a : Z) (s : ab W) r s' :
  two_copies ->
  bytes (smd_mem s) -> length (smd_mem s) = SMD_V2_LEN -> ld32 (smd_mem s) SMD_MAGIC_OFF = BOOT_CHAIN_MAGIC ->
  current_smd s = SMD_COPY_PRIMARY \/ current_smd s = SMD_COPY_SECONDARY ->
  good_copy (world s) (current_smd s) ->
  tegrabl_a_b_flush_smd config_qspi (Some a) s = (r, s') ->
  survives s r s'.
Proof. apply flush_survives. Qed.

(** A device whose two copies hold the sample metadata. *)
Definition good_smd : list Z := smd_update_crc sample_smd.
Definition sample_ram (p q : list Z) : ram := mk_ram 0 0 (<[PART_SMD := p]> (<[PART_SMD_B := q]> ∅)).
Definition sample_state (p q : list Z) : ab ram :=
  mk_ab (sample_ram p q) SMD_COPY_PRIMARY (Some 4096) sample_smd (Some 8192) sample_smd.

Example flush_keeps_a_good_copy_witness :
  let s := sample_state good_smd [] in
  survives s (tegrabl_a_b_flush_smd false (Some 4096) s).1 (tegrabl_a_b_flush_smd false (Some 4096) s).2.
Proof.
  apply (flush_keeps_a_good_copy false 4096 (sample_state good_smd [])
    (tegrabl_a_b_flush_smd false (Some 4096) (sample_state good_smd [])).1
    (tegrabl_a_b_flush_smd false (Some 4096) (sample_state good_smd [])).2).
  - split; vm_compute; discriminate.
  - apply bytes_dec. vm_compute. reflexivity.
  - vm_compute. reflexivity.
  - vm_compute. reflexivity.
  - by left.
  - exists good_smd. split; vm_compute; reflexivity.
  - apply surjective_pairing.
Defined.

(** C12.  Loading the metadata: on a working device the primary copy is taken
    when it passes the checks, else the secondary copy when that one does, else
    the call fails and both buffers have been released.  A successful load keeps
    a backup equal to the 191 bytes of the copy that was taken, and loading
    changes no partition. *)
Theorem get_smd_falls_back {W H : Type} `{SocScratch W} `{HeapApi W} `{PartitionLaws W H}
    `{!DeviceFrames W H, !WorkingDevices W H} (s : ab W) :
  smd_loadaddress s = None ->
  copy_present (world s) SMD_COPY_PRIMARY -> copy_present (world s) SMD_COPY_SECONDARY ->
  exists r s', tegrabl_a_b_get_smd s = (r, s') /\ smd_loaded s r s'.
Proof.
  intros Hnone HP HS. eexists _, _. split; [apply surjective_pairing|].
  change (wp tegrabl_a_b_get_smd (smd_loaded s) s). unfold tegrabl_a_b_get_smd, smd_loaded. cbv zeta.
  set (primary := copy_bytes (world s) SMD_COPY_PRIMARY).
  set (secondary := copy_bytes (world s) SMD_COPY_SECONDARY).
  apply wp_bind. unfold wp at 1. cbn [get fst snd]. rewrite Hnone.
  apply wp_bind, malloc_wp. intros a w1 [P1 _]. apply wp_bind. unfold wp at 1. cbn [modify fst snd].
  apply wp_bind, malloc_wp. intros b w2 [P2 _]. apply wp_bind. unfold wp at 1. cbn [modify fst snd].
  cbn [upd_load upd_world world] in P2. assert (P12 : same_parts (world s) w2) by (by etrans).
  apply wp_bind, wp_code, load_copy_wp; [by eapply present_same|]. intros w3 [P3 _] d s3.
  cbn [upd_backup upd_world world] in P3. assert (P13 : same_parts (world s) w3) by (by etrans).
  assert (Hd : d = primary) by (unfold d; by apply copy_bytes_same). split; intros E1; rewrite Hd in E1.
  - apply get_smd_init_wp. intros w4 d4 P4. split; [by etrans|]. rewrite E1. simpl. by rewrite Hd.
  - apply wp_bind, wp_code, load_copy_wp; [by eapply present_same|]. intros w4 [P4 _] d' s4.
    cbn in P4. assert (P14 : same_parts (world s) w4) by (by etrans).
    assert (Hd' : d' = secondary) by (unfold d'; by apply copy_bytes_same).
    split; intros E2; rewrite Hd' in E2.
    + apply get_smd_init_wp. intros w5 d5 P5. split; [by etrans|]. rewrite E1, E2. simpl. by rewrite Hd'.
    + apply wp_bind, free_wp. intros w5 [P5 _]. apply wp_bind. unfold wp at 1. cbn [modify fst snd].
      apply wp_bind, free_wp. intros w6 [P6 _]. apply wp_bind. unfold wp at 1. cbn [modify fst snd].
      cbn in P5, P6. split; [by repeat (etrans; [eassumption|])|]. by rewrite E1, E2.
Qed.

Example get_smd_falls_back_witness :
  let s := mk_ab (sample_ram (repeat 0 200) good_smd) SMD_INVALID None [] None [] in
  exists r s', tegrabl_a_b_get_smd s = (r, s') /\ smd_loaded s r s'.
Proof.
  apply (get_smd_falls_back (mk_ab (sample_ram (repeat 0 200) good_smd) SMD_INVALID None [] None [])).
  - reflexivity.
  - exists (repeat 0 200). split; [vm_compute; reflexivity|vm_compute; lia].
  - exists good_smd. split; [vm_compute; reflexivity|vm_compute; lia].
Defined.

(** [tegrabl_a_b_update_smd] hands the boot chain register over: when it
    returns, with success or with an error, a register that carried the magic
    number has been cleared, and one that did not is unchanged. *)
Theorem update_smd_hands_over {W H : Type} `{SocScratchLaws W} `{HeapApi W} `{PartitionLaws W H}
    `{!DeviceFrames W H} (config_qspi : bool) (s : ab W) r s' :
  tegrabl_a_b_update_smd config_qspi s = (r, s') ->
  (r = Ret tt \/ exists e, r = Err e) ->
  tegrabl_get_boot_slot_reg (world s') =
    (if BOOT_CHAIN_REG_MAGIC_GET (tegrabl_get_boot_slot_reg (world s)) =? BOOT_CHAIN_REG_MAGIC
     then 0 else tegrabl_get_boot_slot_reg (world s)).
Proof.
  intros Hrun. refine (wp_elim _ (fun r s' => _ -> _) s r s' _ Hrun). clear r s' Hrun.
  unfold tegrabl_a_b_update_smd. apply wp_bind. eapply wp_mono; [apply update_body_wp|].
  intros r s1 Hr. destruct r as [[e reg]|e| | |]; try done; try (by intros [|[]]).
  destruct Hr as [Hm Hb]. unfold boot_magic in *. rewrite Hm.
  destruct (_ =? BOOT_CHAIN_REG_MAGIC) eqn:E; zbool.
  - apply wp_bind. unfold wp at 1. simpl. case_match; intros _; simpl; by apply get_set_boot.
  - apply wp_bind. unfold wp at 1. simpl. case_match; intros _; by apply Hb.
Qed.

(** A boot of slot A with an update in progress. *)
Definition ota_reg : Z := BOOT_CHAIN_REG_UPDATE_FLAG_SET BC_FLAG_OTA_ON (BOOT_CHAIN_REG_MAGIC_SET 0).
Definition ota_state : ab ram :=
  mk_ab (mk_ram ota_reg 0 (ram_parts (sample_ram good_smd good_smd))) SMD_INVALID None [] None [].

Example update_smd_hands_over_witness :
  tegrabl_get_boot_slot_reg (world (tegrabl_a_b_update_smd false ota_state).2) =
    (if BOOT_CHAIN_REG_MAGIC_GET (tegrabl_get_boot_slot_reg (world ota_state)) =? BOOT_CHAIN_REG_MAGIC
     then 0 else tegrabl_get_boot_slot_reg (world ota_state)).
Proof.
  apply (update_smd_hands_over false ota_state (tegrabl_a_b_update_smd false ota_state).1).
  - apply surjective_pairing.
  - left. vm_compute. reflexivity.
Defined.
