(* ===== verification/AbRootfs.v ===== *)
(** * A/B boot control: the scratch registers and the root file system

    Theorems on the register operations of
    lib/a_b_boot/tegrabl_a_b_boot_control.c: what the boot chain register
    remembers of the slot metadata, and the sequence of root file systems tried
    by consecutive boots that never reach user space. *)
From S2P Require Import Prelude Errors Utils Interfaces RamStore AbBoot.

(** ** Register fields *)

Lemma reg_set_field reg v ones w sh : 0 <= w -> 0 <= sh -> ones = Z.ones w ->
  REG_SET reg v ones sh = BITFIELD_SET reg v w sh.
Proof. intros ? ? ->. by apply field_set_land. Qed.

Lemma reg_get_field reg ones w sh : 0 <= w -> 0 <= sh -> ones = Z.ones w ->
  REG_GET reg ones sh = BITFIELD_GET reg w sh.
Proof. intros ? ? ->. by apply field_get_land. Qed.

(** The fields of the boot chain register as bit fields. *)
Ltac reg_fields :=
  unfold BOOT_CHAIN_REG_SLOT_NUM_SET, BOOT_CHAIN_REG_SLOT_NUM_GET,
    BOOT_CHAIN_REG_MAX_SLOTS_SET, BOOT_CHAIN_REG_MAX_SLOTS_GET,
    BOOT_CHAIN_REG_A_RETRY_COUNT_SET, BOOT_CHAIN_REG_A_RETRY_COUNT_GET,
    BOOT_CHAIN_REG_B_RETRY_COUNT_SET, BOOT_CHAIN_REG_B_RETRY_COUNT_GET,
    BOOT_CHAIN_REG_UPDATE_FLAG_SET, BOOT_CHAIN_REG_UPDATE_FLAG_GET in *;
  rewrite ?(reg_set_field _ _ 0x07 3), ?(reg_set_field _ _ 0x0F 4), ?(reg_set_field _ _ 0x03 2) by done;
  rewrite ?(reg_get_field _ 0x07 3), ?(reg_get_field _ 0x0F 4), ?(reg_get_field _ 0x03 2) by done.

(** Reading a field after a chain of field writes. *)
Ltac field_reads :=
  repeat first [rewrite BITFIELD_GET_SET_same by lia | rewrite BITFIELD_GET_SET_other by lia].

Lemma magic_field reg : BOOT_CHAIN_REG_MAGIC_GET reg = BITFIELD_GET reg 16 0.
Proof. rewrite <- field_get_land by lia. by rewrite Z.shiftr_0_r. Qed.

(** ** One-byte fields of the metadata, by enumeration *)

Lemma byte_forall (P : Z -> bool) :
  forallb P (seqZ 0 256) = true -> forall x, is_byte x -> P x = true.
Proof.
  intros Hall x Hx. rewrite forallb_forall in Hall. apply Hall, list_elem_of_In, elem_of_seqZ.
  unfold is_byte in Hx. lia.
Qed.

Lemma select_fields x slot cnt :
  is_byte x -> 0 <= slot < 4 -> 0 <= cnt < 4 ->
  let y := u8 (SET_ROOTFS_RETRY_COUNT cnt (u8 (SET_ROOTFS_ACTIVE slot x))) in
  GET_ROOTFS_ACTIVE y = slot /\ GET_ROOTFS_RETRY_COUNT y = cnt /\ is_byte y.
Proof.
  intros Hx Hs Hc.
  pose proof (byte_forall (fun x => forallb (fun s => forallb (fun c =>
    let y := u8 (SET_ROOTFS_RETRY_COUNT c (u8 (SET_ROOTFS_ACTIVE s x))) in
    (GET_ROOTFS_ACTIVE y =? s) && (GET_ROOTFS_RETRY_COUNT y =? c) && (0 <=? y) && (y <? 256))
      (seqZ 0 4)) (seqZ 0 4)) ltac:(vm_compute; reflexivity) x Hx) as Hall.
  cbv beta in Hall. rewrite forallb_forall in Hall.
  specialize (Hall slot ltac:(apply list_elem_of_In, elem_of_seqZ; lia)). rewrite forallb_forall in Hall.
  specialize (Hall cnt ltac:(apply list_elem_of_In, elem_of_seqZ; lia)).
  cbv zeta in *. zbool. unfold is_byte. split_and!; done.
Qed.

Lemma land_3_range x : 0 <= Z.land x 3 < 4.
Proof. change 3 with (Z.ones 2). rewrite Z.land_ones by lia. by apply Z.mod_pos_bound. Qed.

Lemma rootfs_max_range d : 1 <= tegrabl_get_rootfs_max_retry_count d <= 3.
Proof.
  unfold tegrabl_get_rootfs_max_retry_count, ROOTFS_RETRY_COUNT_DEFAULT, GET_MAX_ROOTFS_RETRY_COUNT.
  pose proof (land_3_range (ld8 d EXT_ROOTFS_MISC_OFF)). repeat case_match; zbool; lia.
Qed.

(** ** One boot attempt *)

Section Attempts.
Context {W : Type} `{SocScratchLaws W}.

(** Rootfs A/B is in use and is not tied to the boot slots. *)
Definition rootfs_ab (d : list Z) : Prop :=
  bytes d /\ length d = SMD_V2_LEN /\
  BOOTCTRL_SUPPORT_ROOTFS_AB (tegrabl_a_b_get_version d) = true /\
  BOOTCTRL_IS_UNIFIED_AB_ENABLED (tegrabl_a_b_get_version d) = false.

Definition active_rootfs (d : list Z) : Z := GET_ROOTFS_ACTIVE (ld8 d EXT_ROOTFS_SELECT_OFF).
Definition rootfs_status (d : list Z) (id : Z) : Z := ld8 d (ROOTFS_STATUS_OFF id).
Definition tries_left (w : W) : Z := ROOTFS_AB_REG_RETRY_COUNT_GET (tegrabl_get_rootfs_slot_reg w).

Lemma tries_range w : 0 <= tries_left w < 4.
Proof. apply (BITFIELD_GET_range _ 2 20); lia. Qed.

Lemma tries_set v w :
  tries_left (tegrabl_set_rootfs_slot_reg
    (ROOTFS_AB_REG_RETRY_COUNT_SET v (tegrabl_get_rootfs_slot_reg w)) w) = v mod 4.
Proof.
  unfold tries_left. unfold ROOTFS_AB_REG_RETRY_COUNT_SET. rewrite (reg_set_field _ _ _ 2) by done.
  rewrite get_set_rootfs by apply BITFIELD_SET_range. by apply (BITFIELD_GET_SET_same _ _ 2 20).
Qed.

(** The buffer after the active root file system has been set. *)
Definition with_active (d : list Z) (id : Z) : list Z :=
  ignore d (tegrabl_a_b_set_active_rootfs (Some d) id).

Lemma with_active_spec d id :
  rootfs_ab d -> id = ROOTFS_A \/ id = ROOTFS_B \/ id = ROOTFS_INVALID ->
  rootfs_ab (with_active d id) /\ active_rootfs (with_active d id) = id /\
  tegrabl_a_b_get_rootfs_retry_count (Some (with_active d id)) = Ret (tegrabl_get_rootfs_max_retry_count d) /\
  (forall k, 0 <= k < MAX_SLOTS -> rootfs_status (with_active d id) k = rootfs_status d k).
Proof.
  intros (Hb & Hl & Hv & Hu) Hid. unfold with_active, tegrabl_a_b_set_active_rootfs.
  rewrite (proj2 (andb_false_iff _ _)) by (destruct Hid as [-> | [-> | ->]]; auto).
  cbn [ignore]. set (x := ld8 d EXT_ROOTFS_SELECT_OFF). unfold SMD_V2_LEN in Hl.
  assert (Hx : is_byte x) by (by apply ld8_byte).
  set (d1 := st8 d EXT_ROOTFS_SELECT_OFF (u8 (SET_ROOTFS_ACTIVE id x))).
  assert (Hmax : tegrabl_get_rootfs_max_retry_count d1 = tegrabl_get_rootfs_max_retry_count d).
  { unfold tegrabl_get_rootfs_max_retry_count, tegrabl_a_b_get_version, d1. smd_reads. done. }
  rewrite Hmax. pose proof (rootfs_max_range d) as Hr.
  assert (Hx1 : ld8 d1 EXT_ROOTFS_SELECT_OFF = u8 (SET_ROOTFS_ACTIVE id x)).
  { unfold d1. smd_reads. apply wrapw_idem. }
  rewrite Hx1. set (y := u8 (SET_ROOTFS_RETRY_COUNT _ _)).
  assert (Hid4 : 0 <= id < 4) by (unfold ROOTFS_A, ROOTFS_B, ROOTFS_INVALID in Hid; lia).
  destruct (select_fields x id (tegrabl_get_rootfs_max_retry_count d) Hx Hid4 ltac:(lia)) as (Ha & Hc & Hy).
  assert (Hy2 : ld8 (st8 d1 EXT_ROOTFS_SELECT_OFF y) EXT_ROOTFS_SELECT_OFF = y).
  { rewrite ld8_st8_same by (unfold d1; rewrite length_st8; off). by apply Z.mod_small. }
  split_and!.
  - split_and!; [by do 2 apply bytes_st8|by unfold d1; rewrite !length_st8| |];
      unfold tegrabl_a_b_get_version, d1 in *; smd_reads; done.
  - unfold active_rootfs. by rewrite Hy2.
  - unfold tegrabl_a_b_get_rootfs_retry_count. rewrite Hy2. by f_equal.
  - intros k Hk. unfold rootfs_status, d1. by smd_reads.
Qed.

Definition with_failed (d : list Z) (id : Z) : list Z :=
  ignore d (tegrabl_a_b_set_rootfs_status (Some d) id ROOTFS_STATUS_BOOT_FAILED).

Lemma with_failed_spec d id :
  rootfs_ab d -> 0 <= id < MAX_SLOTS ->
  rootfs_ab (with_failed d id) /\ active_rootfs (with_failed d id) = active_rootfs d /\
  rootfs_status (with_failed d id) id = ROOTFS_STATUS_BOOT_FAILED /\
  rootfs_status (with_failed d id) (1 - id) = rootfs_status d (1 - id) /\
  tegrabl_get_rootfs_max_retry_count (with_failed d id) = tegrabl_get_rootfs_max_retry_count d.
Proof.
  intros (Hb & Hl & Hv & Hu) Hid. unfold with_failed, tegrabl_a_b_set_rootfs_status.
  replace (MAX_SLOTS <=? id) with false by lia. cbn [ignore Z.ltb].
  change (ROOTFS_STATUS_END <? ROOTFS_STATUS_BOOT_FAILED) with false. cbn [ignore].
  unfold SMD_V2_LEN in Hl. split_and!.
  - split_and!; [by apply bytes_st8|by rewrite length_st8| |];
      unfold tegrabl_a_b_get_version in *; smd_reads; done.
  - unfold active_rootfs. by smd_reads.
  - unfold rootfs_status. rewrite ld8_st8_same by off. done.
  - unfold rootfs_status. by smd_reads.
  - unfold tegrabl_get_rootfs_max_retry_count, tegrabl_a_b_get_version. by smd_reads.
Qed.

(** One boot attempt as [tegrabl_a_b_get_smd] makes it; the error code is
    dropped there. *)
Definition attempt (s : list Z * W) : list Z * W :=
  match tegrabl_a_b_select_active_rootfs (Some s.1) s.2 with
  | (Ret d, w) => (d, w)
  | (_, w) => (s.1, w)
  end.

Lemma attempt_eq d w :
  rootfs_ab d ->
  attempt (d, w) =
    if tries_left w =? 0 then
      let id := active_rootfs d in
      let d1 := with_failed d id in
      if match tegrabl_a_b_get_rootfs_status (Some d1) (lnot_c id) with
         | Ret st => st | _ => ROOTFS_STATUS_NORMAL end =? ROOTFS_STATUS_NORMAL then
        let d2 := with_active d1 (lnot_c id) in
        (d2, tegrabl_set_rootfs_slot_reg
               (ROOTFS_AB_REG_RETRY_COUNT_SET
                  (match tegrabl_a_b_get_rootfs_retry_count (Some d2) with Ret c => c | _ => 0 end - 1)
                  (tegrabl_get_rootfs_slot_reg w)) w)
      else (with_active d1 ROOTFS_INVALID, w)
    else (d, tegrabl_set_rootfs_slot_reg
               (ROOTFS_AB_REG_RETRY_COUNT_SET (tries_left w - 1) (tegrabl_get_rootfs_slot_reg w)) w).
Proof.
  intros (Hb & Hl & Hv & Hu). unfold attempt, tegrabl_a_b_select_active_rootfs. cbn [fst snd].
  rewrite Hv, Hu. cbn [negb orb]. unfold bind, get_rootfs_reg, gets, set_rootfs_reg, modify, ret.
  assert (Ht : u8 (ROOTFS_AB_REG_RETRY_COUNT_GET (tegrabl_get_rootfs_slot_reg w)) = tries_left w).
  { apply wrapw_small. pose proof (tries_range w). unfold in_word, tries_left in *. lia. }
  rewrite Ht. fold (active_rootfs d). destruct (tries_left w =? 0) eqn:E; [|done].
  cbv zeta. unfold with_active, with_failed. case_if; done.
Qed.

(** What the attempts that are left can still try. *)
Definition other_normal (d : list Z) : bool := rootfs_status d (1 - active_rootfs d) =? ROOTFS_STATUS_NORMAL.
Definition attempts_left (s : list Z * W) : Z := tries_left s.2 + (if other_normal s.1 then 4 else 0).

Definition exhausted (d : list Z) : Prop :=
  active_rootfs d = ROOTFS_INVALID /\ rootfs_status d ROOTFS_A <> ROOTFS_STATUS_NORMAL.

(** One attempt with a valid root file system: either the same or the other
    one is tried with fewer attempts left, or none is left. *)
Lemma attempt_valid d w :
  rootfs_ab d -> 0 <= active_rootfs d < MAX_SLOTS ->
  let '(d', w') := attempt (d, w) in
  rootfs_ab d' /\
  ((0 <= active_rootfs d' < MAX_SLOTS /\ attempts_left (d', w') < attempts_left (d, w)) \/
   (exhausted d' /\ tries_left w' = 0 /\ attempts_left (d, w) = 0)).
Proof.
  intros Hd Hid. rewrite attempt_eq by done. unfold attempts_left. cbn [fst snd].
  destruct (tries_left w =? 0) eqn:E; zbool.
  - set (id := active_rootfs d) in *.
    destruct (with_failed_spec d id Hd Hid) as (Hd1 & Ha1 & Hs1 & Ho1 & Hm1). cbv zeta.
    set (d1 := with_failed d id) in *.
    assert (Hn : lnot_c id = 1 - id) by (destruct (slot_cases _ Hid) as [-> | ->]; reflexivity).
    assert (Ho : 0 <= 1 - id < MAX_SLOTS) by (unfold MAX_SLOTS in *; lia).
    rewrite Hn. unfold tegrabl_a_b_get_rootfs_status. replace (MAX_SLOTS <=? 1 - id) with false by lia.
    change (ld8 d1 (ROOTFS_STATUS_OFF (1 - id))) with (rootfs_status d1 (1 - id)). rewrite Ho1.
    unfold other_normal. fold id. destruct (rootfs_status d (1 - id) =? ROOTFS_STATUS_NORMAL) eqn:En; zbool.
    + assert (Hone : 1 - id = ROOTFS_A \/ 1 - id = ROOTFS_B \/ 1 - id = ROOTFS_INVALID)
        by (unfold ROOTFS_A, ROOTFS_B, MAX_SLOTS in *; lia).
      destruct (with_active_spec d1 (1 - id) Hd1 Hone) as (Hd2 & Ha2 & Hr2 & Hs2).
      set (d2 := with_active d1 (1 - id)) in *. rewrite Hr2, tries_set, Ha2.
      split; [done|]. left. split; [done|]. replace (1 - (1 - id)) with id by lia.
      rewrite Hs2, Hs1 by done. cbn. pose proof (rootfs_max_range d1) as Hr.
      rewrite Z.mod_small by lia. lia.
    + destruct (with_active_spec d1 ROOTFS_INVALID Hd1 ltac:(auto)) as (Hd2 & Ha2 & Hr2 & Hs2).
      split; [done|]. right. unfold exhausted. rewrite Ha2, Hs2 by (unfold MAX_SLOTS, ROOTFS_A; lia).
      split_and!; try done; try lia.
      destruct (slot_cases _ Hid) as [Hi | Hi]; unfold ROOTFS_A in *.
      * rewrite Hi in Hs1. by rewrite Hs1.
      * rewrite Hi in Ho1, En. change (1 - 1) with 0 in *. by rewrite Ho1.
  - split; [done|]. left. split; [done|]. rewrite tries_set. pose proof (tries_range w).
    rewrite Z.mod_small by lia. lia.
Qed.

(** With none left, nothing changes any more. *)
Lemma attempt_exhausted d w :
  rootfs_ab d -> exhausted d -> tries_left w = 0 ->
  let '(d', w') := attempt (d, w) in rootfs_ab d' /\ exhausted d' /\ tries_left w' = 0.
Proof.
  intros Hd [Ha Hs] Ht. rewrite attempt_eq by done. rewrite Ht, Ha. cbn [Z.eqb]. cbv zeta.
  assert (Hf : with_failed d ROOTFS_INVALID = d) by reflexivity. rewrite Hf.
  change (lnot_c ROOTFS_INVALID) with 0. cbn [tegrabl_a_b_get_rootfs_status].
  replace (MAX_SLOTS <=? 0) with false by reflexivity.
  change (ld8 d (ROOTFS_STATUS_OFF 0)) with (rootfs_status d ROOTFS_A).
  destruct (Z.eqb_spec (rootfs_status d ROOTFS_A) ROOTFS_STATUS_NORMAL) as [|_]; [done|].
  destruct (with_active_spec d ROOTFS_INVALID Hd ltac:(auto)) as (Hd2 & Ha2 & _ & Hs2).
  split_and!; [done| |done]. split; [done|]. by rewrite Hs2.
Qed.

Lemma attempts_exhaust n d w :
  rootfs_ab d -> 0 <= active_rootfs d < MAX_SLOTS -> attempts_left (d, w) < Z.of_nat n ->
  let '(d', w') := Nat.iter n attempt (d, w) in rootfs_ab d' /\ exhausted d' /\ tries_left w' = 0.
Proof.
  revert d w. induction n as [|n IH]; intros d w Hd Hid Hn.
  { exfalso. unfold attempts_left in Hn. pose proof (tries_range w). simpl in Hn. case_if; lia. }
  rewrite Nat.iter_succ_r. pose proof (attempt_valid d w Hd Hid) as Hstep.
  destruct (attempt (d, w)) as [d1 w1]. destruct Hstep as [Hd1 [[Hid1 Hlt] | (He & Ht & _)]].
  - apply IH; [done..|lia].
  - clear IH Hn. revert d1 w1 Hd1 He Ht. induction n as [|n IH]; intros d1 w1 Hd1 He Ht; [done|].
    rewrite Nat.iter_succ_r. pose proof (attempt_exhausted d1 w1 Hd1 He Ht) as Hs.
    destruct (attempt (d1, w1)) as [d2 w2]. destruct Hs as (Hd2 & He2 & Ht2). by apply IH.
Qed.
End Attempts.

(** ** Saving the slot in the register *)

(** The register [tegrabl_a_b_save_boot_slot_reg] writes. *)
Definition saved_reg (smd : list Z) (slot reg : Z) : Z :=
  let reg := BOOT_CHAIN_REG_SLOT_NUM_SET slot reg in
  let reg := BOOT_CHAIN_REG_MAX_SLOTS_SET (tegrabl_a_b_get_max_num_slots smd) reg in
  let reg := (tegrabl_a_b_copy_retry_count smd reg FROM_SMD_TO_REG).2 in
  if ld8 smd (BOOT_SUCC_OFF slot) =? 0 then BOOT_CHAIN_REG_UPDATE_FLAG_SET BC_FLAG_OTA_ON reg
  else if BOOTCTRL_SUPPORT_REDUNDANCY (tegrabl_a_b_get_version smd)
  then BOOT_CHAIN_REG_UPDATE_FLAG_SET BC_FLAG_REDUNDANCY_BOOT reg
  else reg.

Definition saved_flag (smd : list Z) (slot : Z) : Z :=
  if ld8 smd (BOOT_SUCC_OFF slot) =? 0 then BC_FLAG_OTA_ON
  else if BOOTCTRL_SUPPORT_REDUNDANCY (tegrabl_a_b_get_version smd) then BC_FLAG_REDUNDANCY_BOOT
  else 0.

Lemma saved_reg_fields smd slot reg :
  BOOT_CHAIN_REG_UPDATE_FLAG_GET reg = 0 ->
  let r := saved_reg smd slot reg in
  in_word 32 r /\
  BOOT_CHAIN_REG_MAGIC_GET r = BOOT_CHAIN_REG_MAGIC_GET reg /\
  BOOT_CHAIN_REG_SLOT_NUM_GET r = slot mod 8 /\
  BOOT_CHAIN_REG_MAX_SLOTS_GET r = tegrabl_a_b_get_max_num_slots smd mod 8 /\
  BOOT_CHAIN_REG_A_RETRY_COUNT_GET r = ld8 smd (RETRY_COUNT_OFF BOOT_SLOT_A) mod 16 /\
  BOOT_CHAIN_REG_B_RETRY_COUNT_GET r = ld8 smd (RETRY_COUNT_OFF BOOT_SLOT_B) mod 16 /\
  BOOT_CHAIN_REG_UPDATE_FLAG_GET r = saved_flag smd slot.
Proof.
  intros Hf r. subst r. unfold BOOT_CHAIN_REG_UPDATE_FLAG_GET in Hf. rewrite (reg_get_field _ _ 2) in Hf by done.
  unfold saved_reg, saved_flag, tegrabl_a_b_copy_retry_count.
  change (FROM_SMD_TO_REG =? FROM_REG_TO_SMD) with false. rewrite Z.eqb_refl. cbn [snd].
  rewrite !magic_field. repeat case_if; reg_fields; field_reads;
    rewrite ?Hf; repeat split; try apply BITFIELD_SET_range.
Qed.

Lemma best_slot_bound smd s : best_slot smd 2 s -> 0 <= s < MAX_SLOTS.
Proof. intros [Hs _]. exact Hs. Qed.

(** ** Theorems *)

(** C17.  Root file system fallback terminates.  With rootfs A/B enabled and a
    valid active root file system, boots that never reach user space try the
    root file systems at most seven times; from the eighth attempt on the active
    one is [ROOTFS_INVALID] (boot to recovery) and stays so. *)
Theorem rootfs_fallback_terminates {W : Type} `{SocScratchLaws W} (d : list Z) (w : W) (n : nat) :
  bytes d -> length d = SMD_V2_LEN ->
  BOOTCTRL_SUPPORT_ROOTFS_AB (tegrabl_a_b_get_version d) = true ->
  BOOTCTRL_IS_UNIFIED_AB_ENABLED (tegrabl_a_b_get_version d) = false ->
  0 <= GET_ROOTFS_ACTIVE (ld8 d EXT_ROOTFS_SELECT_OFF) < MAX_SLOTS -> (8 <= n)%nat ->
  GET_ROOTFS_ACTIVE (ld8 (Nat.iter n attempt (d, w)).1 EXT_ROOTFS_SELECT_OFF) = ROOTFS_INVALID.
Proof.
  intros Hb Hl Hv Hu Hid Hn. assert (Hd : rootfs_ab d) by done.
  pose proof (attempts_exhaust n d w Hd Hid) as He.
  assert (Hlt : attempts_left (d, w) < Z.of_nat n).
  { unfold attempts_left. pose proof (tries_range w). simpl. case_if; lia. }
  specialize (He Hlt). destruct (Nat.iter n attempt (d, w)) as [d' w']. by destruct He as (_ & [Ha _] & _).
Qed.

Definition rootfs_ab_smd : list Z := st16 sample_smd SMD_VERSION_OFF 0x0405.

Example rootfs_fallback_terminates_witness :
  GET_ROOTFS_ACTIVE (ld8 (Nat.iter 8 attempt (rootfs_ab_smd, mk_ram 0 0xFACE ∅)).1 EXT_ROOTFS_SELECT_OFF) = ROOTFS_INVALID.
Proof.
  apply (rootfs_fallback_terminates rootfs_ab_smd (mk_ram 0 0xFACE ∅) 8).
  - apply bytes_dec. vm_compute. reflexivity.
  - reflexivity.
  - reflexivity.
  - reflexivity.
  - vm_compute. split; [discriminate|reflexivity].
  - lia.
Defined.

(** The first boot after power on saves its slot selection: when the
    register does not carry the magic number, [tegrabl_a_b_init_boot_slot_reg]
    leaves a register from which the active slot is read back as the one the
    metadata selects, with both retry counts (four bits of each), and with the
    update flag on exactly when the slot has not booted successfully yet. *)
Theorem init_saves_active_slot {W : Type} `{SocScratchLaws W} (smd : list Z) (w : W) (slot : Z) :
  bytes smd -> length smd = SMD_V2_LEN -> ld32 smd SMD_MAGIC_OFF = BOOT_CHAIN_MAGIC ->
  tegrabl_a_b_get_max_num_slots smd = 2 -> best_slot smd 2 slot ->
  BOOT_CHAIN_REG_MAGIC_GET (tegrabl_get_boot_slot_reg w) <> BOOT_CHAIN_REG_MAGIC ->
  exists w', tegrabl_a_b_init_boot_slot_reg (Some smd) w = (Ret tt, w') /\
    tegrabl_a_b_get_active_slot None w' = (Ret (TEGRABL_NO_ERROR, Some slot), w') /\
    let reg := tegrabl_get_boot_slot_reg w' in
    tegrabl_a_b_get_retry_count_reg BOOT_SLOT_A reg = Ret (ld8 smd (RETRY_COUNT_OFF BOOT_SLOT_A) mod 16) /\
    tegrabl_a_b_get_retry_count_reg BOOT_SLOT_B reg = Ret (ld8 smd (RETRY_COUNT_OFF BOOT_SLOT_B) mod 16) /\
    (BOOT_CHAIN_REG_UPDATE_FLAG_GET reg = BC_FLAG_OTA_ON <-> ld8 smd (BOOT_SUCC_OFF slot) = 0).
Proof.
  intros Hb Hl Hm Hn Hbest Hreg. unfold tegrabl_a_b_init_boot_slot_reg, get_boot_reg, set_boot_reg, bind, gets, modify.
  destruct (Z.eqb_spec (BOOT_CHAIN_REG_MAGIC_GET (tegrabl_get_boot_slot_reg w)) BOOT_CHAIN_REG_MAGIC) as [|_]; [done|].
  assert (Hsel : boot_chain_get_bootslot_from_smd smd = Ret slot).
  { apply bootslot_best; try done; rewrite Hn; [off|done]. }
  unfold tegrabl_a_b_get_active_slot, ret. rewrite Hsel. cbn [Z.eqb negb TEGRABL_NO_ERROR default id].
  set (reg0 := BOOT_CHAIN_REG_MAGIC_SET 0). set (w1 := tegrabl_set_boot_slot_reg reg0 w).
  pose proof (best_slot_bound _ _ Hbest) as Hslot.
  assert (Hr1 : tegrabl_get_boot_slot_reg w1 = reg0) by (apply get_set_boot; vm_compute; split; done).
  destruct (saved_reg_fields smd slot reg0 ltac:(reflexivity)) as (Hw & Hmg & Hsl & Hmx & HA & HB & Hfl).
  set (r := saved_reg smd slot reg0) in *. set (w2 := tegrabl_set_boot_slot_reg r w1).
  assert (Hr2 : tegrabl_get_boot_slot_reg w2 = r) by (by apply get_set_boot).
  exists w2. split.
  { unfold tegrabl_a_b_save_boot_slot_reg, get_boot_reg, set_boot_reg, bind, gets, modify, lift.
    rewrite Hr1. rewrite rd8_ok; [reflexivity|]. unfold SMD_V2_LEN in Hl. slot_01 Hslot; off. }
  split.
  { unfold boot_chain_get_bootslot_from_reg, tegrabl_a_b_is_valid, get_boot_reg, bind, gets, ret.
    rewrite Hr2, Hmg, Hmx, Hn, Hsl. rewrite (Z.mod_small slot) by (unfold MAX_SLOTS in Hslot; lia). reflexivity. }
  cbv zeta. rewrite Hr2. unfold tegrabl_a_b_get_retry_count_reg. cbn [Z.eqb BOOT_SLOT_A BOOT_SLOT_B].
  rewrite HA, HB, Hfl. split_and!.
  - apply (f_equal Ret), wrapw_small. unfold in_word. change (2 ^ 8) with 256. pose proof (Z.mod_pos_bound (ld8 smd (RETRY_COUNT_OFF BOOT_SLOT_A)) 16 ltac:(lia)). lia.
  - apply (f_equal Ret), wrapw_small. unfold in_word. change (2 ^ 8) with 256. pose proof (Z.mod_pos_bound (ld8 smd (RETRY_COUNT_OFF BOOT_SLOT_B)) 16 ltac:(lia)). lia.
  - unfold saved_flag. destruct (Z.eqb_spec (ld8 smd (BOOT_SUCC_OFF slot)) 0); [done|].
    split; [|done]. by case_if.
Qed.

Lemma sample_best : best_slot sample_smd 2 0.
Proof.
  split_and!; [lia..| |].
  - vm_compute. split; reflexivity.
  - intros t Ht [Hp _]. assert (t = 0 \/ t = 1) as [-> | ->] by lia; [right; lia|]. by vm_compute in Hp.
Qed.

Example init_saves_active_slot_witness :
  exists w', tegrabl_a_b_init_boot_slot_reg (Some sample_smd) (mk_ram 0 0 ∅) = (Ret tt, w') /\
    tegrabl_a_b_get_active_slot None w' = (Ret (TEGRABL_NO_ERROR, Some 0), w') /\
    let reg := tegrabl_get_boot_slot_reg w' in
    tegrabl_a_b_get_retry_count_reg BOOT_SLOT_A reg = Ret (ld8 sample_smd (RETRY_COUNT_OFF BOOT_SLOT_A) mod 16) /\
    tegrabl_a_b_get_retry_count_reg BOOT_SLOT_B reg = Ret (ld8 sample_smd (RETRY_COUNT_OFF BOOT_SLOT_B) mod 16) /\
    (BOOT_CHAIN_REG_UPDATE_FLAG_GET reg = BC_FLAG_OTA_ON <-> ld8 sample_smd (BOOT_SUCC_OFF 0) = 0).
Proof.
  apply (init_saves_active_slot sample_smd (mk_ram 0 0 ∅) 0).
  - apply bytes_dec. vm_compute. reflexivity.
  - vm_compute. reflexivity.
  - vm_compute. reflexivity.
  - vm_compute. reflexivity.
  - exact sample_best.
  - vm_compute. discriminate.
Defined.

(** Retry counts survive the trip through the scratch register: copied
    from one buffer to the register and from there to another buffer, each
    arrives modulo 16 (unchanged in its documented range), and no other byte of
    the second buffer changes. *)
Theorem retry_count_round_trip (smd smd2 : list Z) (reg : Z) :
  length smd2 = SMD_V2_LEN ->
  let reg' := (tegrabl_a_b_copy_retry_count smd reg FROM_SMD_TO_REG).2 in
  let smd' := (tegrabl_a_b_copy_retry_count smd2 reg' FROM_REG_TO_SMD).1 in
  ld8 smd' (RETRY_COUNT_OFF BOOT_SLOT_A) = ld8 smd (RETRY_COUNT_OFF BOOT_SLOT_A) mod 16 /\
  ld8 smd' (RETRY_COUNT_OFF BOOT_SLOT_B) = ld8 smd (RETRY_COUNT_OFF BOOT_SLOT_B) mod 16 /\
  length smd' = length smd2 /\
  forall o, o <> RETRY_COUNT_OFF BOOT_SLOT_A -> o <> RETRY_COUNT_OFF BOOT_SLOT_B -> ld8 smd' o = ld8 smd2 o.
Proof.
  intros Hl reg' smd'. subst reg' smd'. unfold tegrabl_a_b_copy_retry_count.
  change (FROM_SMD_TO_REG =? FROM_REG_TO_SMD) with false. rewrite !Z.eqb_refl. cbn [fst snd].
  reg_fields. field_reads. unfold SMD_V2_LEN in Hl.
  set (a := ld8 smd (RETRY_COUNT_OFF BOOT_SLOT_A)). set (b := ld8 smd (RETRY_COUNT_OFF BOOT_SLOT_B)).
  assert (Hsmall : forall x, u8 (x mod 2 ^ 4) mod 256 = x mod 16).
  { intros x. unfold wrapw. change (2 ^ 8) with 256. change (2 ^ 4) with 16.
    pose proof (Z.mod_pos_bound x 16 ltac:(lia)). by rewrite !(Z.mod_small (x mod 16) 256) by lia. }
  unfold BOOT_SLOT_A, BOOT_SLOT_B. split_and!.
  - smd_reads. apply Hsmall.
  - smd_reads. apply Hsmall.
  - by rewrite !length_st8.
  - intros o HA HB. by rewrite !ld8_st8_ne.
Qed.

Example retry_count_round_trip_witness :
  let reg' := (tegrabl_a_b_copy_retry_count sample_smd 0 FROM_SMD_TO_REG).2 in
  let smd' := (tegrabl_a_b_copy_retry_count (repeat 0 SMD_V2_LEN) reg' FROM_REG_TO_SMD).1 in
  ld8 smd' (RETRY_COUNT_OFF BOOT_SLOT_A) = ld8 sample_smd (RETRY_COUNT_OFF BOOT_SLOT_A) mod 16 /\
  ld8 smd' (RETRY_COUNT_OFF BOOT_SLOT_B) = ld8 sample_smd (RETRY_COUNT_OFF BOOT_SLOT_B) mod 16 /\
  length smd' = length (repeat 0 SMD_V2_LEN) /\
  forall o, o <> RETRY_COUNT_OFF BOOT_SLOT_A -> o <> RETRY_COUNT_OFF BOOT_SLOT_B ->
    ld8 smd' o = ld8 (repeat 0 SMD_V2_LEN) o.
Proof. apply (retry_count_round_trip sample_smd (repeat 0 SMD_V2_LEN) 0). reflexivity. Defined.
