(* ===== verification/Ivc.v ===== *)
(** * Inter-VM / inter-processor communication channels

    lib/ipc/tegra-ivc.c with struct ivc of include/lib/tegra-ivc-instance.h.

    A channel is a header of counters in shared memory followed by its frames.
    The record [ivc] is one end's view: the two channels it points to and its
    private positions; [notifies] counts the calls of the notify callback.  The
    cache operations are the empty weak functions of the file and the barriers
    order the accesses, so an access is to the one shared memory. *)
From S2P Require Import Prelude.

(** ** Data *)

(** [ivc_state_t] *)
Definition ivc_state_established : Z := 0.
Definition ivc_state_sync : Z := 1.
Definition ivc_state_ack : Z := 2.

(** [errno] values of the C library. *)
Definition E2BIG : Z := 7.
Definition EAGAIN : Z := 11.
Definition ENOMEM : Z := 12.
Definition EINVAL : Z := 22.
Definition ECONNRESET : Z := 104.

Definition IVC_ALIGN : Z := 64.

(** [struct ivc_channel_header] and the frames behind it. *)
Record ivc_channel_header := mk_ch {
  w_count : Z;
  state : Z;
  r_count : Z;
  frames : list Z;
}.

(** [sizeof(struct ivc_channel_header)]: two cache lines. *)
Definition IVC_HEADER_SIZE : Z := 128.

Record ivc := mk_ivc {
  rx_channel : ivc_channel_header;
  tx_channel : ivc_channel_header;
  w_pos : Z;
  r_pos : Z;
  nframes : Z;
  frame_size : Z;
  notifies : nat;
}.

Definition set_w_count (v : Z) (ch : ivc_channel_header) : ivc_channel_header :=
  mk_ch v (state ch) (r_count ch) (frames ch).
Definition set_state (v : Z) (ch : ivc_channel_header) : ivc_channel_header :=
  mk_ch (w_count ch) v (r_count ch) (frames ch).
Definition set_r_count (v : Z) (ch : ivc_channel_header) : ivc_channel_header :=
  mk_ch (w_count ch) (state ch) v (frames ch).
Definition set_frames (v : list Z) (ch : ivc_channel_header) : ivc_channel_header :=
  mk_ch (w_count ch) (state ch) (r_count ch) v.

Definition upd_rx (f : ivc_channel_header -> ivc_channel_header) (i : ivc) : ivc :=
  mk_ivc (f (rx_channel i)) (tx_channel i) (w_pos i) (r_pos i) (nframes i) (frame_size i) (notifies i).
Definition upd_tx (f : ivc_channel_header -> ivc_channel_header) (i : ivc) : ivc :=
  mk_ivc (rx_channel i) (f (tx_channel i)) (w_pos i) (r_pos i) (nframes i) (frame_size i) (notifies i).
Definition set_w_pos (v : Z) (i : ivc) : ivc :=
  mk_ivc (rx_channel i) (tx_channel i) v (r_pos i) (nframes i) (frame_size i) (notifies i).
Definition set_r_pos (v : Z) (i : ivc) : ivc :=
  mk_ivc (rx_channel i) (tx_channel i) (w_pos i) v (nframes i) (frame_size i) (notifies i).
(** [ivc->notify(ivc)] *)
Definition notify (i : ivc) : ivc :=
  mk_ivc (rx_channel i) (tx_channel i) (w_pos i) (r_pos i) (nframes i) (frame_size i) (S (notifies i)).

(** ** Counters *)

Definition ivc_channel_empty (i : ivc) (ch : ivc_channel_header) : bool :=
  if nframes i <? u32 (w_count ch - r_count ch) then true else w_count ch =? r_count ch.

Definition ivc_channel_full (i : ivc) (ch : ivc_channel_header) : bool :=
  nframes i <=? u32 (w_count ch - r_count ch).

Definition ivc_channel_avail_count (ch : ivc_channel_header) : Z := u32 (w_count ch - r_count ch).

Definition ivc_advance_tx (i : ivc) : ivc :=
  let i := upd_tx (fun ch => set_w_count (u32 (w_count ch + 1)) ch) i in
  if w_pos i =? u32 (nframes i - 1) then set_w_pos 0 i else set_w_pos (u32 (w_pos i + 1)) i.

Definition ivc_advance_rx (i : ivc) : ivc :=
  let i := upd_rx (fun ch => set_r_count (u32 (r_count ch + 1)) ch) i in
  if r_pos i =? u32 (nframes i - 1) then set_r_pos 0 i else set_r_pos (u32 (r_pos i + 1)) i.

(** The second test follows the cache invalidation. *)
Definition ivc_check_read (i : ivc) : Z :=
  if negb (state (tx_channel i) =? ivc_state_established) then - ECONNRESET
  else if negb (ivc_channel_empty i (rx_channel i)) then 0
  else if ivc_channel_empty i (rx_channel i) then - ENOMEM else 0.

Definition ivc_check_write (i : ivc) : Z :=
  if negb (state (tx_channel i) =? ivc_state_established) then - ECONNRESET
  else if negb (ivc_channel_full i (tx_channel i)) then 0
  else if ivc_channel_full i (tx_channel i) then - ENOMEM else 0.

Definition tegra_ivc_can_read (i : ivc) : bool := ivc_check_read i =? 0.
Definition tegra_ivc_can_write (i : ivc) : bool := ivc_check_write i =? 0.
Definition tegra_ivc_tx_empty (i : ivc) : bool := ivc_channel_empty i (tx_channel i).

(** ** Frames *)

(** The offset behind the header: [frame_size * frame] is computed in 32 bits. *)
Definition ivc_frame_pointer (i : ivc) (frame : Z) : Z := u32 (frame_size i * frame).

(** [n] bytes at an offset of the frames. *)
Definition frame_read (ch : ivc_channel_header) (off n : Z) : outcome (list Z) :=
  if off + n <=? Z.of_nat (length (frames ch))
  then Ret (slice (frames ch) (Z.to_nat off) (Z.to_nat n)) else Undef.

Definition frame_write (ch : ivc_channel_header) (off : Z) (data : list Z) : outcome ivc_channel_header :=
  if off + Z.of_nat (length data) <=? Z.of_nat (length (frames ch))
  then Ret (set_frames (blit (frames ch) (Z.to_nat off) data) ch) else Undef.

(** The data copied out by a read. *)
Definition ivc_read_copy (i : ivc) (off n : Z) : outcome (list Z) :=
  frame_read (rx_channel i) (ivc_frame_pointer i (r_pos i) + off) n.

(** [memcpy] into the frame at [w_pos], at [off]. *)
Definition ivc_write_copy (i : ivc) (off : Z) (data : list Z) : outcome ivc :=
  let? ch := frame_write (tx_channel i) (ivc_frame_pointer i (w_pos i) + off) data in
  Ret (upd_tx (fun _ => ch) i).

(** The end of a read: the counter is advanced, and the writer is notified
    when the queue was full before. *)
Definition ivc_read_finish (i : ivc) : ivc :=
  let i := ivc_advance_rx i in
  if ivc_channel_avail_count (rx_channel i) =? u32 (nframes i - 1) then notify i else i.

Definition ivc_write_finish (i : ivc) : ivc :=
  let i := ivc_advance_tx i in
  if ivc_channel_avail_count (tx_channel i) =? 1 then notify i else i.

(** ** Operations

    The result of a successful read is the data; the code returns its length. *)

Definition tegra_ivc_read (max_read : Z) : M ivc (list Z) :=
  let! i := get in
  fail_if (frame_size i <? max_read) (- E2BIG) ;;;
  let result := ivc_check_read i in
  fail_if (truthy result) result ;;;
  let! data := lift (ivc_read_copy i 0 max_read) in
  put (ivc_read_finish i) ;;;
  ret data.

Definition tegra_ivc_read_peek (off count : Z) : M ivc (list Z) :=
  let! i := get in
  fail_if ((frame_size i <? off) || (frame_size i <? u64 (off + count))) (- E2BIG) ;;;
  let result := ivc_check_read i in
  fail_if (truthy result) result ;;;
  lift (ivc_read_copy i off count).

(** The offset of the frame, or [NULL]. *)
Definition tegra_ivc_read_get_next_frame (i : ivc) : option Z :=
  if truthy (ivc_check_read i) then None else Some (ivc_frame_pointer i (r_pos i)).

Definition tegra_ivc_read_advance : M ivc unit :=
  let! i := get in
  let result := ivc_check_read i in
  fail_if (truthy result) result ;;;
  put (ivc_read_finish i).

(** The bytes stored in the frame: the data, then zeroes. *)
Definition padded (i : ivc) (buf : list Z) : list Z :=
  buf ++ repeat 0 (Z.to_nat (frame_size i) - length buf).

Definition tegra_ivc_write (buf : list Z) : M ivc Z :=
  let! i := get in
  fail_if (frame_size i <? Z.of_nat (length buf)) (- E2BIG) ;;;
  let result := ivc_check_write i in
  fail_if (truthy result) result ;;;
  let! i := lift (ivc_write_copy i 0 (padded i buf)) in
  put (ivc_write_finish i) ;;;
  ret (Z.of_nat (length buf)).

Definition tegra_ivc_write_poke (buf : list Z) (off : Z) : M ivc Z :=
  let! i := get in
  let count := Z.of_nat (length buf) in
  fail_if ((frame_size i <? off) || (frame_size i <? u64 (off + count))) (- E2BIG) ;;;
  let result := ivc_check_write i in
  fail_if (truthy result) result ;;;
  let! i := lift (ivc_write_copy i off buf) in
  put i ;;;
  ret count.

Definition tegra_ivc_write_get_next_frame (i : ivc) : option Z :=
  if truthy (ivc_check_write i) then None else Some (ivc_frame_pointer i (w_pos i)).

Definition tegra_ivc_write_advance : M ivc unit :=
  let! i := get in
  let result := ivc_check_write i in
  fail_if (truthy result) result ;;;
  put (ivc_write_finish i).

(** ** Reset protocol *)

Definition tegra_ivc_channel_reset (i : ivc) : ivc :=
  notify (upd_tx (set_state ivc_state_sync) i).

(** Clearing of the counters this end owns. *)
Definition clear_counters (i : ivc) : ivc :=
  let i := upd_tx (set_w_count 0) i in
  let i := upd_rx (set_r_count 0) i in
  set_r_pos 0 (set_w_pos 0 i).

Definition tegra_ivc_channel_notified (i : ivc) : Z * ivc :=
  let peer_state := state (rx_channel i) in
  let i :=
    if peer_state =? ivc_state_sync then
      notify (upd_tx (set_state ivc_state_ack) (clear_counters i))
    else if (state (tx_channel i) =? ivc_state_sync) && (peer_state =? ivc_state_ack) then
      notify (upd_tx (set_state ivc_state_established) (clear_counters i))
    else if state (tx_channel i) =? ivc_state_ack then
      notify (upd_tx (set_state ivc_state_established) i)
    else i in
  (if state (tx_channel i) =? ivc_state_established then 0 else - EAGAIN, i).

Definition tegra_ivc_channel_sync (i : option ivc) : outcome ivc :=
  match i with
  | None => Err (- EINVAL)
  | Some i =>
      if nframes i =? 0 then Err (- EINVAL)
      else Ret (set_r_pos (r_count (rx_channel i) mod nframes i)
                 (set_w_pos (w_count (tx_channel i) mod nframes i) i))
  end.

(** ** Initialisation *)

Definition tegra_ivc_align (size : Z) : Z :=
  Z.land (u64 (size + (IVC_ALIGN - 1))) (Z.lnot (IVC_ALIGN - 1)).

Definition tegra_ivc_total_queue_size (queue_size : Z) : Z :=
  if truthy (Z.land queue_size (IVC_ALIGN - 1)) then 0 else u32 (queue_size + IVC_HEADER_SIZE).

Definition check_ivc_params (queue_base1 queue_base2 nframes frame_size : Z) : Z :=
  if 0x100000000 <=? u64 (nframes * frame_size) then - EINVAL
  else if truthy (Z.land queue_base1 (IVC_ALIGN - 1)) then - EINVAL
  else if truthy (Z.land queue_base2 (IVC_ALIGN - 1)) then - EINVAL
  else if truthy (Z.land frame_size (IVC_ALIGN - 1)) then - EINVAL
  else if queue_base1 <? queue_base2 then
    if queue_base2 <? u64 (queue_base1 + u32 (frame_size * nframes)) then - EINVAL else 0
  else
    if queue_base1 <? u64 (queue_base2 + u32 (frame_size * nframes)) then - EINVAL else 0.

(** [mem] gives the channel found at a base address. *)
Definition tegra_ivc_init (mem : Z -> ivc_channel_header) (rx_base tx_base nframes frame_size : Z)
  : outcome ivc :=
  let result := check_ivc_params rx_base tx_base nframes frame_size in
  if truthy result then Err result
  else if 2 ^ 31 <? frame_size then Err (- E2BIG)
  else Ret (mk_ivc (mem rx_base) (mem tx_base) 0 0 nframes frame_size 0).
