(* ===== verification/IvcProtocol.v ===== *)
(** * The two ends of a channel

    Both ends of lib/ipc/tegra-ivc.c run against the shared memory at once.  A call
    is a sequence of accesses - a load or a store of a counter or a state, a byte of
    a frame - in the order of the code, and the accesses of the two ends interleave
    in any order.  Between two accesses only what the end keeps to itself changes.
    Each end is a single thread; memory is sequentially consistent, which the
    barriers of the code are there for. *)
From S2P Require Import Prelude Ivc.

(** ** The system *)

(** What an end is about to do: the access, and what it has read so far. *)
Inductive pc : Type :=
| Idle
(** [tegra_ivc_write]: the counters of the test for a full queue, whether it is the
    second one; the frame, of which [k] bytes are stored; [ivc_advance_tx]; the
    counters of the notification. *)
| WCount (buf : list Z) (again : bool)
| WFull (buf : list Z) (again : bool) (w : Z)
| WCopy (buf : list Z) (k : nat)
| WStore (buf : list Z) (w : Z)
| WAvail
| WNotify (w : Z)
(** [tegra_ivc_read], alike; [data] is what is copied of the frame. *)
| RCount (m : Z) (again : bool)
| REmpty (m : Z) (again : bool) (w : Z)
| RCopy (m : Z) (data : list Z)
| RStore (data : list Z) (r : Z)
| RAvail
| RNotify (w : Z)
(** [tegra_ivc_channel_notified]: the own state, with the state of the peer read or
    for the last branch; the two counters and the state [st] to move to; the own
    state for the result. *)
| NOwn (peer_state : Z)
| NAck
| NClearW (st : Z)
| NClearR (st : Z)
| NState (st : Z)
| NReturn.

(** The private state of an end; [sent] and [recvd] record the frames published
    and the data taken since this end last cleared the counter in question. *)
Record endpoint := mk_end {
  wp : Z;
  rp : Z;
  notified : nat;
  at_pc : pc;
  sent : list (list Z);
  recvd : list (list Z);
}.

(** [ch_a] is the transmit channel of end [a], [ch_b] that of end [b]. *)
Record system := mk_sys {
  ch_a : ivc_channel_header;
  ch_b : ivc_channel_header;
  end_a : endpoint;
  end_b : endpoint;
}.

Definition swap (s : system) : system := mk_sys (ch_b s) (ch_a s) (end_b s) (end_a s).

(** The calls an end makes. *)
Inductive call := Write (buf : list Z) | Read (m : Z) | Reset | Notified.

Section Protocol.
Variables (n fs : Z).

(** End [a]'s [struct ivc]. *)
Definition view (s : system) : ivc :=
  mk_ivc (ch_b s) (ch_a s) (wp (end_a s)) (rp (end_a s)) n fs (notified (end_a s)).

(** The system after end [a] has run on its view. *)
Definition after (s : system) (i : ivc) (p : pc) (snt rcv : list (list Z)) : system :=
  mk_sys (tx_channel i) (rx_channel i) (mk_end (w_pos i) (r_pos i) (notifies i) p snt rcv) (end_b s).

(** The same with the records as they are, and after a load. *)
Definition store (s : system) (i : ivc) (p : pc) : system := after s i p (sent (end_a s)) (recvd (end_a s)).
Definition goto (s : system) (p : pc) : system := store s (view s) p.

(** Counters as they were read. *)
Definition sampled (w r : Z) : ivc_channel_header := mk_ch w 0 r [].

(** The next access of [tegra_ivc_write]. *)
Definition write_next (s : system) : option system :=
  let i := view s in
  match at_pc (end_a s) with
  | WCount buf again => Some (goto s (WFull buf again (w_count (tx_channel i))))
  | WFull buf again w =>
      Some (goto s
        (if negb (ivc_channel_full i (sampled w (r_count (tx_channel i)))) then WCopy buf 0
         else if again then Idle else WCount buf true))
  | WCopy buf k =>
      match padded i buf !! k with
      | Some b => match ivc_write_copy i (Z.of_nat k) [b] with Ret i => Some (store s i (WCopy buf (S k))) | _ => None end
      | None => Some (goto s (WStore buf (w_count (tx_channel i))))
      end
  | WStore buf w =>
      Some (after s (ivc_advance_tx (upd_tx (set_w_count w) i)) WAvail (sent (end_a s) ++ [padded i buf]) (recvd (end_a s)))
  | WAvail => Some (goto s (WNotify (w_count (tx_channel i))))
  | WNotify w =>
      Some (store s (if ivc_channel_avail_count (sampled w (r_count (tx_channel i))) =? 1 then notify i else i) Idle)
  | _ => None
  end.

(** The next access of [tegra_ivc_read]. *)
Definition read_next (s : system) : option system :=
  let i := view s in
  match at_pc (end_a s) with
  | RCount m again => Some (goto s (REmpty m again (w_count (rx_channel i))))
  | REmpty m again w =>
      Some (goto s
        (if negb (ivc_channel_empty i (sampled w (r_count (rx_channel i)))) then RCopy m []
         else if again then Idle else RCount m true))
  | RCopy m data =>
      if Z.of_nat (length data) <? m then
        match ivc_read_copy i (Z.of_nat (length data)) 1 with Ret b => Some (goto s (RCopy m (data ++ b))) | _ => None end
      else Some (goto s (RStore data (r_count (rx_channel i))))
  | RStore data r =>
      Some (after s (ivc_advance_rx (upd_rx (set_r_count r) i)) RAvail (sent (end_a s)) (recvd (end_a s) ++ [data]))
  | RAvail => Some (goto s (RNotify (w_count (rx_channel i))))
  | RNotify w =>
      Some (store s (if ivc_channel_avail_count (sampled w (r_count (rx_channel i))) =? u32 (nframes i - 1) then notify i else i) Idle)
  | _ => None
  end.

(** The next access of [tegra_ivc_channel_notified]. *)
Definition notified_next (s : system) : option system :=
  let i := view s in
  match at_pc (end_a s) with
  | NOwn peer_state =>
      Some (goto s (if (state (tx_channel i) =? ivc_state_sync) && (peer_state =? ivc_state_ack)
                    then NClearW ivc_state_established else NAck))
  | NAck => Some (goto s (if state (tx_channel i) =? ivc_state_ack then NState ivc_state_established else NReturn))
  | NClearW st => Some (after s (upd_tx (set_w_count 0) i) (NClearR st) [] (recvd (end_a s)))
  | NClearR st => Some (after s (set_r_pos 0 (set_w_pos 0 (upd_rx (set_r_count 0) i))) (NState st) (sent (end_a s)) [])
  | NState st => Some (store s (notify (upd_tx (set_state st) i)) NReturn)
  | NReturn => Some (goto s Idle)
  | _ => None
  end.

(** The next access of a call that has begun. *)
Definition next (s : system) : option system :=
  match at_pc (end_a s) with
  | Idle => None
  | WCount _ _ | WFull _ _ _ | WCopy _ _ | WStore _ _ | WAvail | WNotify _ => write_next s
  | RCount _ _ | REmpty _ _ _ | RCopy _ _ | RStore _ _ | RAvail | RNotify _ => read_next s
  | _ => notified_next s
  end.

(** The first access of a call; a size that is too large is refused before. *)
Definition enter (c : call) (s : system) : option system :=
  match at_pc (end_a s), c with
  | Idle, Write buf =>
      if fs <? Z.of_nat (length buf) then None
      else Some (goto s (if negb (state (ch_a s) =? ivc_state_established) then Idle else WCount buf false))
  | Idle, Read m =>
      if (fs <? m) || (m <? 0) then None
      else Some (goto s (if negb (state (ch_a s) =? ivc_state_established) then Idle else RCount m false))
  | Idle, Reset => Some (store s (tegra_ivc_channel_reset (view s)) Idle)
  | Idle, Notified => Some (goto s (if state (ch_b s) =? ivc_state_sync then NClearW ivc_state_ack else NOwn (state (ch_b s))))
  | _, _ => None
  end.

(** When an end may call [tegra_ivc_channel_reset], given its state and that of
    the peer. *)
Variable may_reset : Z -> Z -> Prop.

Inductive step_a (s s' : system) : Prop :=
| a_enter c : (c = Reset -> may_reset (state (ch_a s)) (state (ch_b s))) -> enter c s = Some s' -> step_a s s'
| a_next : next s = Some s' -> step_a s s'.

Definition step (s s' : system) : Prop := step_a s s' \/ step_a (swap s) (swap s').

Inductive reachable (s0 : system) : system -> Prop :=
| reach_refl : reachable s0 s0
| reach_step s s' : reachable s0 s -> step s s' -> reachable s0 s'.
End Protocol.

(** Resets at any time; and none while one of the ends is in the ACK state. *)
Definition always : Z -> Z -> Prop := fun _ _ => True.
Definition no_ack : Z -> Z -> Prop := fun own peer => own <> ivc_state_ack /\ peer <> ivc_state_ack.

(** In a write or a read. *)
Definition transfers (p : pc) : bool :=
  match p with
  | WCount _ _ | WFull _ _ _ | WCopy _ _ | WStore _ _ | WAvail | WNotify _
  | RCount _ _ | REmpty _ _ _ | RCopy _ _ | RStore _ _ | RAvail | RNotify _ => true
  | _ => false
  end.

(** The end about to do [p]. *)
Definition with_pc (p : pc) (e : endpoint) : endpoint := mk_end (wp e) (rp e) (notified e) p (sent e) (recvd e).

Ltac projs := cbn [with_pc IvcProtocol.view after store goto ch_a ch_b end_a end_b rx_channel tx_channel w_pos r_pos nframes frame_size
  notifies wp rp notified at_pc sent recvd w_count state r_count frames upd_tx upd_rx set_w_count
  set_r_count set_state set_frames set_w_pos set_r_pos notify transfers] in *.

Section Invariants.
Variables (n fs : Z).
Abbreviation view := (view n fs).

(** The state [tegra_ivc_init] leaves on zeroed memory. *)
Definition fresh_channel : ivc_channel_header :=
  mk_ch 0 ivc_state_established 0 (repeat 0 (Z.to_nat (n * fs))).
Definition fresh_end : endpoint := mk_end 0 0 0 Idle [] [].
Definition fresh : system := mk_sys fresh_channel fresh_channel fresh_end fresh_end.

(** ** The invariants *)

Definition frame_at (ch : ivc_channel_header) (k : Z) : list Z :=
  slice (frames ch) (Z.to_nat (fs * k)) (Z.to_nat fs).

Definition len (l : list (list Z)) : Z := Z.of_nat (length l).
Definition padding (buf : list Z) : list Z := buf ++ repeat 0 (Z.to_nat fs - length buf).

Definition cleared (e : endpoint) : Prop := sent e = [] /\ recvd e = [].

(** The counters and positions an end owns agree with what it has done. *)
Definition owned (tx rx : ivc_channel_header) (e : endpoint) : Prop :=
  w_count tx = u32 (len (sent e)) /\ r_count rx = u32 (len (recvd e)) /\
  ((forall st, at_pc e <> NClearR st) -> wp e = len (sent e) mod n /\ rp e = len (recvd e) mod n).

(** What an end in the middle of a call knows of what is its own. *)
Definition local_ok (tx rx : ivc_channel_header) (e : endpoint) : Prop :=
  match at_pc e with
  | WCount buf _ | WCopy buf _ => Z.of_nat (length buf) <= fs
  | WFull buf _ w => Z.of_nat (length buf) <= fs /\ w = w_count tx
  | WStore buf w => Z.of_nat (length buf) <= fs /\ w = w_count tx
  | RCount m _ | REmpty m _ _ => 0 <= m <= fs
  | RCopy m data => 0 <= m <= fs /\ Z.of_nat (length data) <= m
  | RStore data r => Z.of_nat (length data) <= fs /\ r = r_count rx
  | NClearR _ => sent e = []
  | NState _ => cleared e
  | _ => True
  end.

(** What holds of one end alone. *)
Definition side_ok (tx rx : ivc_channel_header) (e : endpoint) : Prop :=
  owned tx rx e /\ Z.of_nat (length (frames tx)) = n * fs /\
  (transfers (at_pc e) = true -> state tx = ivc_state_established) /\
  (state tx = ivc_state_ack -> cleared e) /\ local_ok tx rx e.

Definition sides (s : system) : Prop := side_ok (ch_a s) (ch_b s) (end_a s) /\ side_ok (ch_b s) (ch_a s) (end_b s).

(** What an end that handles a notification knows of the states, its own and the
    peer's, however long ago it looked. *)
Definition shake_ok (own peer : Z) (p : pc) : Prop :=
  let to_ack := peer = ivc_state_sync \/ own = ivc_state_sync /\ peer = ivc_state_ack \/ own = ivc_state_ack in
  let to_established := own = ivc_state_sync /\ peer = ivc_state_ack in
  match p with
  | NOwn q => (q = ivc_state_ack -> own = ivc_state_sync -> peer = ivc_state_ack) /\ (own = ivc_state_ack -> peer <> ivc_state_sync)
  | NAck => own = ivc_state_ack -> peer <> ivc_state_sync
  | NClearW st | NClearR st => st = ivc_state_ack /\ to_ack \/ st = ivc_state_established /\ to_established
  | NState st =>
      st = ivc_state_ack /\ to_ack \/
      st = ivc_state_established /\ (to_established \/ own = ivc_state_ack /\ peer <> ivc_state_sync)
  | _ => True
  end.

(** The frames in flight on a channel. *)
Definition flow (ch : ivc_channel_header) (snt rcv : list (list Z)) : Prop :=
  len rcv <= len snt <= len rcv + n /\
  Forall2 (fun d f => d `prefix_of` f) rcv (take (length rcv) snt) /\
  forall k f, len rcv <= k < len snt -> snt !! Z.to_nat k = Some f -> frame_at ch (k mod n) = f.

(** What an end in the middle of a transfer knows of the other. *)
Definition busy_ok (tx : ivc_channel_header) (e peer : endpoint) : Prop :=
  match at_pc e with
  | WCopy buf k => len (sent e) < len (recvd peer) + n /\
      take k (frame_at tx (len (sent e) mod n)) = take k (padding buf)
  | WStore buf _ => len (sent e) < len (recvd peer) + n /\ frame_at tx (len (sent e) mod n) = padding buf
  | REmpty _ _ w => exists k, w = u32 k /\ len (recvd e) <= k <= len (sent peer)
  | RCopy _ data | RStore data _ => exists f, sent peer !! length (recvd e) = Some f /\ data `prefix_of` f
  | _ => True
  end.

Definition linked (s : system) : Prop :=
  flow (ch_a s) (sent (end_a s)) (recvd (end_b s)) /\
  flow (ch_b s) (sent (end_b s)) (recvd (end_a s)) /\
  busy_ok (ch_a s) (end_a s) (end_b s) /\ busy_ok (ch_b s) (end_b s) (end_a s).

Definition handshake (s : system) : Prop :=
  shake_ok (state (ch_a s)) (state (ch_b s)) (at_pc (end_a s)) /\
  shake_ok (state (ch_b s)) (state (ch_a s)) (at_pc (end_b s)).

Definition inv (s : system) : Prop :=
  sides s /\ handshake s /\ (state (ch_a s) <> ivc_state_sync -> state (ch_b s) <> ivc_state_sync -> linked s).

Lemma sides_swap s : sides s -> sides (swap s).
Proof. intros [Ha Hb]. by split. Qed.
Lemma inv_swap s : inv s -> inv (swap s).
Proof. intros ([Ha Hb] & [Ka Kb] & Hl). split; [by split|]. split; [by split|]. intros H1 H2. destruct (Hl H2 H1) as (?&?&?&?). by split_and!. Qed.

Hypothesis n_range : 0 < n < 2 ^ 32.
Hypothesis fs_range : 0 <= fs.
Hypothesis size_range : n * fs < 2 ^ 32.

(** ** Counters, positions and frames *)

Lemma u32_diff a b : 0 <= a - b < 2 ^ 32 -> u32 (u32 a - u32 b) = a - b.
Proof. intros H. unfold wrapw. rewrite <- Zminus_mod. by apply Z.mod_small. Qed.

Lemma u32_succ a : u32 (u32 a + 1) = u32 (a + 1).
Proof. unfold wrapw. by rewrite Zplus_mod_idemp_l. Qed.

Lemma pos_next a : (if a mod n =? u32 (n - 1) then 0 else u32 (a mod n + 1)) = (a + 1) mod n.
Proof.
  pose proof (Z.mod_pos_bound a n ltac:(lia)) as Ha.
  rewrite (wrapw_small 32 (n - 1)) by (unfold in_word; lia).
  rewrite (wrapw_small 32 (a mod n + 1)) by (unfold in_word; lia).
  rewrite <- Zplus_mod_idemp_l. destruct (Z.eqb_spec (a mod n) (n - 1)) as [-> | Hn].
  - replace (n - 1 + 1) with n by lia. symmetry. apply Z.mod_same. lia.
  - symmetry. apply Z.mod_small. lia.
Qed.

Lemma mod_zero : 0 mod n = 0.
Proof. apply Z.mod_0_l. lia. Qed.

Lemma len_snoc l x : len (l ++ [x]) = len l + 1.
Proof. unfold len. rewrite length_app. simpl. lia. Qed.

(** Distinct frames in flight are at distinct positions. *)
Lemma mod_ne a b : a <= b < a + n -> a <> b -> a mod n <> b mod n.
Proof.
  intros H Hne Heq.
  assert (Hd : (b - a) mod n = 0) by (rewrite Zminus_mod, Heq, Z.sub_diag; apply Z.mod_0_l; lia).
  rewrite Z.mod_small in Hd by lia. lia.
Qed.

Lemma frame_bound k : 0 <= k < n -> 0 <= fs * k /\ fs * k + fs <= n * fs.
Proof. nia. Qed.

Lemma pointer_eq i k : frame_size i = fs -> 0 <= k < n -> ivc_frame_pointer i k = fs * k.
Proof.
  intros Hf Hk. unfold ivc_frame_pointer. rewrite Hf. apply wrapw_small.
  pose proof (frame_bound k Hk). unfold in_word. nia.
Qed.

Lemma length_frame ch k : Z.of_nat (length (frames ch)) = n * fs -> 0 <= k < n -> length (frame_at ch k) = Z.to_nat fs.
Proof. intros Hl Hk. pose proof (frame_bound k Hk). unfold frame_at. rewrite length_slice. lia. Qed.

(** Bytes inside a frame are replaced; the other frames stay. *)
Lemma frame_write_spec ch k off data ch' :
  Z.of_nat (length (frames ch)) = n * fs -> 0 <= k < n -> 0 <= off -> off + Z.of_nat (length data) <= fs ->
  frame_write ch (fs * k + off) data = Ret ch' ->
  w_count ch' = w_count ch /\ state ch' = state ch /\ r_count ch' = r_count ch /\
  Z.of_nat (length (frames ch')) = n * fs /\ frame_at ch' k = blit (frame_at ch k) (Z.to_nat off) data /\
  forall j, 0 <= j < n -> j <> k -> frame_at ch' j = frame_at ch j.
Proof.
  intros Hl Hk Ho Hd. unfold frame_write. case_if; [|done]. intros [= <-]. simpl.
  pose proof (frame_bound k Hk) as Hb. unfold frame_at. simpl. zbool.
  assert (Hin : (Z.to_nat (fs * k + off) + length data <= length (frames ch))%nat) by lia.
  split_and!; try done.
  - by rewrite length_blit.
  - apply list_eq. intros i. rewrite lookup_slice, lookup_blit by done. rewrite lookup_blit by (rewrite length_slice; lia). rewrite lookup_slice.
    rewrite Z2Nat.inj_add by lia. repeat case_decide; try done; try lia; try (f_equal; lia); symmetry; apply lookup_ge_None_2; lia.
  - intros j Hj Hne. pose proof (frame_bound j Hj). apply slice_blit_other; [done|].
    destruct (decide (j < k)); [left|right]; nia.
Qed.

Lemma take_blit_one (l : list Z) k b : (k < length l)%nat -> take (S k) (blit l k [b]) = take k l ++ [b].
Proof.
  intros Hk. unfold blit. rewrite app_assoc. rewrite take_app_le by (rewrite length_app, length_take; cbn; lia).
  apply take_ge. rewrite length_app, length_take. cbn. lia.
Qed.

Lemma length_padding buf : Z.of_nat (length buf) <= fs -> length (padding buf) = Z.to_nat fs.
Proof. intros H. unfold padding. rewrite length_app, repeat_length. lia. Qed.

Lemma padded_view s buf : padded (view s) buf = padding buf.
Proof. done. Qed.

(** One byte stored in the frame. *)
Lemma write_byte s buf k b i : Z.of_nat (length (frames (ch_a s))) = n * fs -> 0 <= wp (end_a s) < n -> Z.of_nat (length buf) <= fs ->
  padding buf !! k = Some b -> ivc_write_copy (view s) (Z.of_nat k) [b] = Ret i ->
  exists ch, i = upd_tx (fun _ => ch) (view s) /\ w_count ch = w_count (ch_a s) /\ state ch = state (ch_a s) /\ r_count ch = r_count (ch_a s) /\
    Z.of_nat (length (frames ch)) = n * fs /\
    (take k (frame_at (ch_a s) (wp (end_a s))) = take k (padding buf) -> take (S k) (frame_at ch (wp (end_a s))) = take (S k) (padding buf)) /\
    forall j, 0 <= j < n -> j <> wp (end_a s) -> frame_at ch j = frame_at (ch_a s) j.
Proof.
  intros Hl Hw Hb Hk. unfold ivc_write_copy. cbn [IvcProtocol.view tx_channel w_pos]. rewrite pointer_eq by done.
  destruct (frame_write _ _ _) as [ch| | | |] eqn:E; try done. intros [= <-].
  pose proof (lookup_lt_Some _ _ _ Hk) as Hlt. rewrite length_padding in Hlt by done.
  apply frame_write_spec in E as (W1 & W2 & W3 & W4 & W5 & W6); [|done|done|lia|cbn [length]; lia].
  exists ch. split; [done|]. split_and!; try done. intros Ht. rewrite W5, Nat2Z.id.
  rewrite take_blit_one by (rewrite length_frame by done; lia). by rewrite Ht, (take_S_r _ _ b).
Qed.

(** One byte of the frame at the position to read. *)
Lemma read_byte s k b : Z.of_nat (length (frames (ch_b s))) = n * fs -> 0 <= rp (end_a s) < n -> Z.of_nat k < fs ->
  ivc_read_copy (view s) (Z.of_nat k) 1 = Ret b -> exists x, b = [x] /\ frame_at (ch_b s) (rp (end_a s)) !! k = Some x.
Proof.
  intros Hl Hr Hk. unfold ivc_read_copy, frame_read. cbn [IvcProtocol.view rx_channel r_pos]. rewrite pointer_eq by done. case_if; [|done]. intros [= <-].
  pose proof (frame_bound _ Hr). unfold frame_at.
  destruct (lookup_lt_is_Some_2 (frames (ch_b s)) (Z.to_nat (fs * rp (end_a s)) + k)) as [x Hx]; [lia|]. exists x. split.
  - apply list_eq. intros i. rewrite lookup_slice. rewrite Z2Nat.inj_add, Nat2Z.id by lia. change (Z.to_nat 1) with 1%nat.
    destruct i as [|i]; [by rewrite Nat.add_0_r, decide_True by lia|]. by rewrite decide_False by lia.
  - rewrite lookup_slice, decide_True by lia. done.
Qed.

(** The copies find their frame. *)
Lemma write_byte_runs s k b : Z.of_nat (length (frames (ch_a s))) = n * fs -> 0 <= wp (end_a s) < n -> Z.of_nat k < fs ->
  exists i, ivc_write_copy (view s) (Z.of_nat k) [b] = Ret i.
Proof.
  intros Hl Hw Hk. unfold ivc_write_copy, frame_write. cbn [IvcProtocol.view tx_channel w_pos]. rewrite pointer_eq by done.
  pose proof (frame_bound _ Hw). cbn [length]. case_if; [by eexists|]. zbool. lia.
Qed.
Lemma read_byte_runs s k : Z.of_nat (length (frames (ch_b s))) = n * fs -> 0 <= rp (end_a s) < n -> Z.of_nat k < fs ->
  exists b, ivc_read_copy (view s) (Z.of_nat k) 1 = Ret b.
Proof.
  intros Hl Hr Hk. unfold ivc_read_copy, frame_read. cbn [IvcProtocol.view rx_channel r_pos]. rewrite pointer_eq by done.
  pose proof (frame_bound _ Hr). case_if; [by eexists|]. zbool. lia.
Qed.

(** What the tests establish. *)
Lemma not_full i rcv snt : nframes i = n -> len rcv <= len snt <= len rcv + n ->
  ivc_channel_full i (sampled (u32 (len snt)) (u32 (len rcv))) = false -> len snt < len rcv + n.
Proof. intros Hn Hl. unfold ivc_channel_full, sampled. cbn [w_count r_count]. rewrite Hn, u32_diff by lia. intros. zbool. lia. Qed.

Lemma not_empty i rcv k : nframes i = n -> rcv <= k <= rcv + n ->
  ivc_channel_empty i (sampled (u32 k) (u32 rcv)) = false -> rcv < k.
Proof.
  intros Hn Hl. unfold ivc_channel_empty, sampled. cbn [w_count r_count]. rewrite Hn, u32_diff by lia. case_if; [done|].
  intros Hne. zbool. destruct (Z.eq_dec rcv k) as [->|]; [done|lia].
Qed.

(** The flow after a publication and after a consumption. *)
Lemma flow_ext ch ch' snt rcv : frames ch' = frames ch -> flow ch snt rcv -> flow ch' snt rcv.
Proof.
  intros Hf (H1 & H2 & H3). split_and!; [lia|lia|done|]. intros k f Hk Hs.
  unfold frame_at. rewrite Hf. by apply H3.
Qed.

Lemma flow_snoc ch snt rcv f :
  flow ch snt rcv -> len snt < len rcv + n -> frame_at ch (len snt mod n) = f ->
  flow ch (snt ++ [f]) rcv.
Proof.
  intros (H1 & H2 & H3) Hlt Hf. rewrite <- (take_app_le snt [f]) in H2 by (unfold len in *; lia).
  split_and!; [|rewrite len_snoc; lia|done|].
  - rewrite len_snoc. lia.
  - rewrite len_snoc. intros k g Hk Hs. destruct (decide (k = len snt)) as [->|].
    + unfold len in Hs. rewrite Nat2Z.id, lookup_app_r, Nat.sub_diag in Hs by done. simpl in Hs. injection Hs as <-. exact Hf.
    + rewrite lookup_app_l in Hs by (unfold len in *; lia). apply H3; [lia|done].
Qed.

Lemma flow_take ch snt rcv d f :
  flow ch snt rcv -> snt !! length rcv = Some f -> d `prefix_of` f -> flow ch snt (rcv ++ [d]).
Proof.
  intros (H1 & H2 & H3) Hs Hd. pose proof (lookup_lt_Some _ _ _ Hs) as Hlt.
  split_and!; [|rewrite len_snoc; lia| |].
  - rewrite len_snoc. unfold len in *. lia.
  - rewrite length_app. simpl. rewrite Nat.add_1_r, (take_S_r _ _ f) by done.
    apply Forall2_app; [done|]. by repeat constructor.
  - rewrite len_snoc. intros k g Hk. apply H3. lia.
Qed.

Lemma flow_empty ch : flow ch [] [].
Proof. split; [unfold len; simpl; lia|]. split; [done|]. unfold len. simpl. intros k f Hk. lia. Qed.

(** ** Each end alone *)

(** The conjuncts of [side_ok]. *)
Ltac side := unfold side_ok, owned; split_and!; projs; try done.

(** What the peer writes does not concern it. *)
Lemma side_peer tx rx tx' rx' e : side_ok tx rx e ->
  w_count tx' = w_count tx -> state tx' = state tx -> frames tx' = frames tx -> r_count rx' = r_count rx -> side_ok tx' rx' e.
Proof.
  intros ((O1 & O2 & O3) & HF & He & Hk & Hm) Hw Hs Hf Hr. unfold side_ok, owned, local_ok in *. rewrite Hw, Hs, Hf, Hr. by split_and!.
Qed.

(** Nothing shared changes. *)
Lemma sides_goto s p : sides s -> (forall st, at_pc (end_a s) <> NClearR st) ->
  (transfers p = true -> state (ch_a s) = ivc_state_established) -> local_ok (ch_a s) (ch_b s) (with_pc p (end_a s)) ->
  sides (goto n fs s p).
Proof.
  intros [(HO & HF & He & Hk & Hm) Hb] Hn Ht Hl. destruct HO as (O1 & O2 & O3). split; [|exact Hb].
  side. intros _. by apply O3.
Qed.

(** The view after the last store of a write or a read. *)
Lemma advance_tx_eq s w : ivc_advance_tx (upd_tx (set_w_count w) (view s)) =
  mk_ivc (ch_b s) (set_w_count (u32 (w + 1)) (ch_a s))
    (if wp (end_a s) =? u32 (n - 1) then 0 else u32 (wp (end_a s) + 1)) (rp (end_a s)) n fs (notified (end_a s)).
Proof. unfold ivc_advance_tx. projs. by case_if. Qed.
Lemma advance_rx_eq s r : ivc_advance_rx (upd_rx (set_r_count r) (view s)) =
  mk_ivc (set_r_count (u32 (r + 1)) (ch_b s)) (ch_a s) (wp (end_a s))
    (if rp (end_a s) =? u32 (n - 1) then 0 else u32 (rp (end_a s) + 1)) n fs (notified (end_a s)).
Proof. unfold ivc_advance_rx. projs. by case_if. Qed.

Lemma sides_enter c s s' : sides s -> enter n fs c s = Some s' -> sides s'.
Proof using n_range fs_range.
  intros Hs E. unfold enter in E. destruct (at_pc (end_a s)) eqn:Hpc; try done. assert (Hn : forall st, at_pc (end_a s) <> NClearR st) by (by rewrite Hpc).
  destruct c as [buf|m| |].
  - case_if; [done|]. injection E as <-. zbool. destruct (Z.eqb_spec (state (ch_a s)) ivc_state_established); apply sides_goto; done.
  - case_if; [done|]. injection E as <-. zbool. destruct (Z.eqb_spec (state (ch_a s)) ivc_state_established); apply sides_goto; try done; cbn; lia.
  - injection E as <-. destruct Hs as [(HO & HF & He & Hk & Hm) Hb]. split; [|by eapply side_peer].
    destruct HO as (O1 & O2 & O3). side. intros _. by apply O3.
  - injection E as <-. by case_if; apply sides_goto.
Qed.

(** The positions of an end that transfers. *)
Lemma positions tx rx e : owned tx rx e -> (forall st, at_pc e <> NClearR st) -> 0 <= wp e < n /\ 0 <= rp e < n.
Proof using n_range. intros (_ & _ & Ho) Hn. destruct (Ho Hn) as [-> ->]. split; apply Z.mod_pos_bound; lia. Qed.

Lemma sides_write s s' : sides s -> write_next n fs s = Some s' -> sides s'.
Proof using n_range fs_range size_range.
  intros Hs E. unfold write_next in E. pose proof Hs as [(HO & HF & He & Hk & Hm) Hb]. unfold local_ok in Hm. destruct (at_pc (end_a s)) eqn:Hpc; try done;
    (assert (Hn : forall st, at_pc (end_a s) <> NClearR st) by (by rewrite Hpc)); pose proof (He eq_refl) as Hst.
  - injection E as <-. by apply sides_goto.
  - destruct Hm as [Hm _]. repeat case_if; injection E as <-; by apply sides_goto.
  - destruct (padded (IvcProtocol.view n fs s) buf !! k) as [b|] eqn:Eb.
    + destruct (ivc_write_copy _ _ _) as [i| | | |] eqn:Ei; try done. injection E as <-.
      apply (write_byte s buf k b i) in Ei as (ch & -> & W1 & W2 & W3 & W4 & _); [|done|by apply (positions _ _ _ HO)|done|done].
      split; [|by eapply side_peer]. destruct HO as (O1 & O2 & O3). side; rewrite ?W1, ?W2, ?Hst; try done. intros _. by apply O3.
    + injection E as <-. by apply sides_goto.
  - destruct Hm as [Hm ->]. injection E as <-. rewrite advance_tx_eq. split; [|by eapply side_peer]. destruct HO as (O1 & O2 & O3). destruct (O3 Hn) as [O4 O5].
    side; [by rewrite len_snoc, O1, u32_succ| |by rewrite Hst]. intros _. split; [|done]. by rewrite len_snoc, O4, pos_next.
  - injection E as <-. by apply sides_goto.
  - injection E as <-. destruct HO as (O1 & O2 & O3). split; [|by case_if].
    case_if; side; try (by rewrite Hst); intros _; by apply O3.
Qed.

Lemma sides_read s s' : sides s -> read_next n fs s = Some s' -> sides s'.
Proof using n_range fs_range size_range.
  intros Hs E. unfold read_next in E. pose proof Hs as [(HO & HF & He & Hk & Hm) Hb]. unfold local_ok in Hm. destruct (at_pc (end_a s)) eqn:Hpc; try done;
    (assert (Hn : forall st, at_pc (end_a s) <> NClearR st) by (by rewrite Hpc)); pose proof (He eq_refl) as Hst.
  - injection E as <-. by apply sides_goto.
  - repeat case_if; injection E as <-; apply sides_goto; try done; cbn; lia.
  - destruct Hm as [Hm Hd]. case_if; zbool.
    + destruct (ivc_read_copy _ _ _) as [b| | | |] eqn:Ei; try done. injection E as <-.
      apply (read_byte s) in Ei as (x & -> & _); [|apply Hb|by apply (positions _ _ _ HO)|lia]. apply sides_goto; try done; cbn; rewrite length_app; cbn; lia.
    + injection E as <-. apply sides_goto; try done; cbn; lia.
  - destruct Hm as [Hm ->]. injection E as <-. rewrite advance_rx_eq. split; [|by eapply side_peer]. destruct HO as (O1 & O2 & O3). destruct (O3 Hn) as [O4 O5].
    side; [by rewrite len_snoc, O2, u32_succ| |by rewrite Hst]. intros _. split; [done|]. by rewrite len_snoc, O5, pos_next.
  - injection E as <-. by apply sides_goto.
  - injection E as <-. destruct HO as (O1 & O2 & O3). split; [|by case_if].
    case_if; side; try (by rewrite Hst); intros _; by apply O3.
Qed.

Lemma sides_notified s s' : sides s -> notified_next n fs s = Some s' -> sides s'.
Proof using n_range fs_range.
  intros Hs E. unfold notified_next in E. pose proof Hs as [(HO & HF & He & Hk & Hm) Hb]. unfold local_ok in Hm. destruct (at_pc (end_a s)) eqn:Hpc; try done;
    injection E as <-; destruct HO as (O1 & O2 & O3).
  - case_if; apply sides_goto; try done; by rewrite Hpc.
  - case_if; apply sides_goto; try done; try (by rewrite Hpc). zbool. cbn. by apply Hk.
  - split; [|by eapply side_peer]. side; [intros Hn; by destruct (Hn st)|intros Ha; by destruct (Hk Ha)].
  - split; [|by eapply side_peer]. side. intros _. rewrite Hm. change (len []) with 0. by rewrite mod_zero.
  - split; [|by eapply side_peer]. side. intros _. apply O3. by rewrite Hpc.
  - apply sides_goto; try done. by rewrite Hpc.
Qed.

Lemma sides_next s s' : sides s -> next n fs s = Some s' -> sides s'.
Proof using n_range fs_range size_range.
  intros Hs E. unfold next in E. destruct (at_pc (end_a s)); try done;
    first [by apply (sides_write s)|by apply (sides_read s)|by apply (sides_notified s)].
Qed.

Lemma swap_swap s : swap (swap s) = s.
Proof. by destruct s. Qed.

Lemma sides_step R s s' : sides s -> step n fs R s s' -> sides s'.
Proof using n_range fs_range size_range.
  assert (Ha : forall s s', sides s -> step_a n fs R s s' -> sides s').
  { intros t t' Ht [c _ E|E]; [by eapply sides_enter|by eapply sides_next]. }
  intros Hs [E|E]; [by eapply Ha|]. rewrite <- (swap_swap s'). eapply sides_swap, Ha; [|exact E]. by apply sides_swap.
Qed.

Lemma cleared_owned tx rx k p : w_count tx = 0 -> r_count rx = 0 -> owned tx rx (mk_end 0 0 k p [] []).
Proof using n_range. intros Hw Hr. split_and!; projs; rewrite ?mod_zero; done. Qed.

Lemma sides_fresh : sides fresh.
Proof using n_range fs_range.
  assert (Hside : side_ok fresh_channel fresh_channel fresh_end); [|by split].
  split; [by apply cleared_owned|]. split_and!; try done. unfold fresh_channel. projs. rewrite repeat_length. nia.
Qed.

Lemma sides_reachable R s : reachable n fs R fresh s -> sides s.
Proof using n_range fs_range size_range. induction 1; [apply sides_fresh|]. by eapply sides_step. Qed.

(** A call that has begun goes on: no access is out of the frames. *)
Lemma sides_progress s : sides s -> at_pc (end_a s) <> Idle -> exists s', next n fs s = Some s'.
Proof using n_range fs_range size_range.
  intros [(HO & HF & He & Hk & Hm) (_ & HFb & _)] Hpc. unfold next, write_next, read_next, notified_next, local_ok in *.
  destruct (at_pc (end_a s)) eqn:E; try (eexists; reflexivity); try done; (assert (Hn : forall st, at_pc (end_a s) <> NClearR st) by (by rewrite E));
    destruct (positions _ _ _ HO Hn) as [Hwp Hrp].
  - destruct (padded (IvcProtocol.view n fs s) buf !! k) as [b|] eqn:Eb; [|by eexists]. pose proof (lookup_lt_Some _ _ _ Eb) as Hlt.
    rewrite padded_view, length_padding in Hlt by done. destruct (write_byte_runs s k b HF Hwp ltac:(lia)) as [i ->]. by eexists.
  - case_if; [|by eexists]. zbool. destruct (read_byte_runs s (length data) HFb Hrp ltac:(lia)) as [b ->]. by eexists.
Qed.

(** ** The handshake *)

Ltac states := unfold shake_ok, no_ack, tegra_ivc_channel_reset in *; projs; unfold ivc_state_sync, ivc_state_ack, ivc_state_established in *; cbn [state] in *.

(** Of an end that transfers nothing is to be shown, nor of the other while the
    states stay. *)
Lemma shake_keep s s' : handshake s -> state (ch_a s') = state (ch_a s) -> state (ch_b s') = state (ch_b s) -> at_pc (end_b s') = at_pc (end_b s) ->
  shake_ok (state (ch_a s)) (state (ch_b s)) (at_pc (end_a s')) -> handshake s'.
Proof using. intros [Ha Hb] E1 E2 E3 Hs. unfold handshake. by rewrite E1, E2, E3. Qed.

(** A write or a read leaves the states alone. *)
Lemma transfer_keeps s s' : write_next n fs s = Some s' \/ read_next n fs s = Some s' ->
  state (ch_a s') = state (ch_a s) /\ state (ch_b s') = state (ch_b s) /\ end_b s' = end_b s /\
  forall own peer, shake_ok own peer (at_pc (end_a s')).
Proof using.
  unfold write_next, read_next. intros [E|E]; destruct (at_pc (end_a s)) eqn:Hpc; try done;
    repeat match type of E with
    | context [match padded ?i ?b !! ?k with _ => _ end] => destruct (padded i b !! k)
    | context [match ivc_write_copy ?i ?k ?b with _ => _ end] => unfold ivc_write_copy in E; destruct (frame_write _ _ _) eqn:Ew; try done; cbn in E
    | context [match ivc_read_copy ?i ?k ?b with _ => _ end] => destruct (ivc_read_copy i k b); try done
    end; try (case_if; [|]); try (injection E as <-); rewrite ?advance_tx_eq, ?advance_rx_eq; try (split_and!; projs; repeat case_if; done).
  - revert Ew. unfold frame_write. case_if; [|done]. intros [= <-]. done.
Qed.

Lemma shake_transfer s s' : handshake s -> write_next n fs s = Some s' \/ read_next n fs s = Some s' -> handshake s'.
Proof using. intros Hh E. destruct (transfer_keeps s s' E) as (E1 & E2 & E3 & E4). apply (shake_keep s); try done. by rewrite E3. Qed.

Lemma shake_notified s s' : handshake s -> notified_next n fs s = Some s' -> handshake s'.
Proof using.
  intros Hh E. pose proof Hh as [Ha Hb]. unfold notified_next in E. destruct (at_pc (end_a s)) eqn:Hpc; try done; injection E as <-.
  - apply (shake_keep s); try done. projs. destruct ((state (ch_a s) =? _) && _) eqn:E; [apply andb_true_iff in E as [E1 E2]|]; zbool; states; lia.
  - apply (shake_keep s); try done. projs. case_if; zbool; states; lia.
  - by apply (shake_keep s).
  - apply (shake_keep s); try done. projs. states. lia.
  - split; [done|]. projs. states. destruct (at_pc (end_b s)); lia || done.
  - by apply (shake_keep s).
Qed.

Lemma shake_enter c s s' : handshake s -> (c = Reset -> no_ack (state (ch_a s)) (state (ch_b s))) -> enter n fs c s = Some s' -> handshake s'.
Proof using.
  intros Hh Hr E. pose proof Hh as [Ha Hb]. unfold enter in E. destruct (at_pc (end_a s)) eqn:Hpc; try done. destruct c as [buf|m| |].
  - case_if; [done|]. injection E as <-. apply (shake_keep s); try done. projs. case_if; exact I.
  - case_if; [done|]. injection E as <-. apply (shake_keep s); try done. projs. case_if; exact I.
  - injection E as <-. destruct (Hr eq_refl) as [R1 R2]. split; [done|]. projs. states. destruct (at_pc (end_b s)); lia || done.
  - injection E as <-. apply (shake_keep s); try done. projs. case_if; zbool; states; lia.
Qed.

(** ** The frames in flight *)

(** Nothing shared changes. *)
Lemma linked_goto s p : linked s -> busy_ok (ch_a s) (with_pc p (end_a s)) (end_b s) -> linked (goto n fs s p).
Proof using. intros (F1 & F2 & B1 & B2) Hp. by split_and!. Qed.

(** Nor when the frames and the records stay. *)
Lemma linked_same s s' : linked s -> frames (ch_a s') = frames (ch_a s) -> frames (ch_b s') = frames (ch_b s) -> end_b s' = end_b s ->
  sent (end_a s') = sent (end_a s) -> recvd (end_a s') = recvd (end_a s) -> transfers (at_pc (end_a s')) = false -> linked s'.
Proof using.
  intros (F1 & F2 & B1 & B2) Ea Eb Ee Es Er Hp. unfold linked. rewrite Ee, Es, Er. split; [by eapply flow_ext|]. split; [by eapply flow_ext|].
  split; [unfold busy_ok; by destruct (at_pc (end_a s'))|]. unfold busy_ok, frame_at in *. by rewrite Es, Er, Eb.
Qed.

Lemma linked_cleared s : cleared (end_a s) -> cleared (end_b s) ->
  transfers (at_pc (end_a s)) = false -> transfers (at_pc (end_b s)) = false -> linked s.
Proof using n_range.
  intros [Hsa Hra] [Hsb Hrb] Ha Hb. unfold linked. rewrite Hsa, Hra, Hsb, Hrb. split_and!; try apply flow_empty.
  - unfold busy_ok. by destruct (at_pc (end_a s)).
  - unfold busy_ok. by destruct (at_pc (end_b s)).
Qed.

Lemma linked_write s s' : linked s -> sides s -> write_next n fs s = Some s' -> linked s'.
Proof using n_range fs_range size_range.
  intros Hl [(HO & HF & He & Hk & Hm) (HOb & _)] E. pose proof Hl as (F1 & F2 & B1 & B2). unfold write_next in E. unfold local_ok in Hm. unfold busy_ok in B1. destruct (at_pc (end_a s)) eqn:Hpc; try done;
    (assert (Hn : forall st, at_pc (end_a s) <> NClearR st) by (by rewrite Hpc)).
  - injection E as <-. by apply linked_goto.
  - destruct Hm as [Hm ->]. destruct (ivc_channel_full _ _) eqn:Ef; cbn [negb] in E; [by case_if; injection E as <-; apply linked_goto|].
    injection E as <-. apply linked_goto; [done|]. split; [|done]. projs. destruct HO as (O1 & _), HOb as (_ & O2 & _), F1 as (F1 & _).
    rewrite O1, O2 in Ef. by apply (not_full (IvcProtocol.view n fs s)) in Ef.
  - destruct HO as (O1 & O2 & O3). destruct (O3 Hn) as [O4 O5]. destruct (padded (IvcProtocol.view n fs s) buf !! k) as [b|] eqn:Eb.
    + destruct (ivc_write_copy _ _ _) as [i| | | |] eqn:Ei; try done. injection E as <-.
      apply (write_byte s buf k b i) in Ei as (ch & -> & W1 & W2 & W3 & W4 & W5 & W6); [|done|rewrite O4; apply Z.mod_pos_bound; lia|done|done].
      destruct B1 as [B1 B1']. rewrite O4 in W5, W6. split; [|split; [exact F2|split; [|exact B2]]]; projs.
      * destruct F1 as (H1 & H2 & H3). split; [exact H1|]. split; [exact H2|]. intros j f Hj Hf. rewrite W6; [by apply H3|apply Z.mod_pos_bound; lia|].
        apply mod_ne; lia.
      * split; [exact B1|]. projs. by apply W5.
    + injection E as <-. apply linked_goto; [done|]. destruct B1 as [B1 B1']. split; [exact B1|]. projs.
      apply lookup_ge_None_1 in Eb. rewrite padded_view, length_padding in Eb by done.
      rewrite !take_ge in B1' by (rewrite ?length_padding, ?length_frame; try lia; apply Z.mod_pos_bound; lia). exact B1'.
  - injection E as <-. rewrite advance_tx_eq. destruct B1 as [B1 B1'].
    assert (F1' : flow (set_w_count (u32 (w + 1)) (ch_a s)) (sent (end_a s) ++ [padding buf]) (recvd (end_b s)))
      by (apply (flow_ext (ch_a s)); [done|]; by apply flow_snoc).
    split; [exact F1'|]. split; [exact F2|]. split; [done|]. unfold busy_ok in *. projs. destruct (at_pc (end_b s)); try done.
    + destruct B2 as (k & Ek & Hk'). exists k. split; [done|]. rewrite len_snoc. lia.
    + destruct B2 as (f & Hf & Hd). exists f. split; [|done]. rewrite lookup_app_l; [done|]. by eapply lookup_lt_Some.
    + destruct B2 as (f & Hf & Hd). exists f. split; [|done]. rewrite lookup_app_l; [done|]. by eapply lookup_lt_Some.
  - injection E as <-. by apply linked_goto.
  - injection E as <-. by case_if; apply (linked_same s).
Qed.

Lemma prefix_snoc_lookup (d f : list Z) x : d `prefix_of` f -> f !! length d = Some x -> d ++ [x] `prefix_of` f.
Proof using.
  intros [r ->] Hx. rewrite lookup_app_r, Nat.sub_diag in Hx by done. destruct r as [|y r]; [done|]. injection Hx as <-. exists r. by rewrite <- app_assoc.
Qed.

Lemma linked_read s s' : linked s -> sides s -> read_next n fs s = Some s' -> linked s'.
Proof using n_range fs_range size_range.
  intros Hl [(HO & HF & He & Hk & Hm) (HOb & HFb & _)] E. pose proof Hl as (F1 & F2 & B1 & B2). unfold read_next in E. unfold local_ok in Hm. unfold busy_ok in B1. destruct (at_pc (end_a s)) eqn:Hpc; try done;
    (assert (Hn : forall st, at_pc (end_a s) <> NClearR st) by (by rewrite Hpc)).
  - injection E as <-. apply linked_goto; [done|]. exists (len (sent (end_b s))). split; [apply HOb|]. projs. destruct F2 as [F2 _]. lia.
  - destruct B1 as (k & -> & B1). destruct (ivc_channel_empty _ _) eqn:Ef; cbn [negb] in E; [by case_if; injection E as <-; apply linked_goto|].
    injection E as <-. apply linked_goto; [done|]. projs. destruct HO as (_ & O1 & _), F2 as (F2 & _).
    rewrite O1 in Ef. apply (not_empty (IvcProtocol.view n fs s)) in Ef; [|done|lia].
    destruct (lookup_lt_is_Some_2 (sent (end_b s)) (length (recvd (end_a s)))) as [f Hf]; [unfold len in *; lia|]. exists f. split; [done|]. apply prefix_nil.
  - destruct HO as (O1 & O2 & O3). destruct (O3 Hn) as [O4 O5]. destruct B1 as (f & Hf & Hd). case_if; zbool.
    + destruct (ivc_read_copy _ _ _) as [b| | | |] eqn:Ei; try done. injection E as <-.
      apply (read_byte s) in Ei as (x & -> & Hx); [|done|rewrite O5; apply Z.mod_pos_bound; lia|lia].
      apply linked_goto; [done|]. exists f. split; [done|]. projs. apply prefix_snoc_lookup; [done|].
      destruct F2 as (H1 & H2 & H3). rewrite <- (H3 (len (recvd (end_a s))) f), <- O5; [done| |unfold len; by rewrite Nat2Z.id].
      pose proof (lookup_lt_Some _ _ _ Hf). unfold len in *. lia.
    + injection E as <-. apply linked_goto; [done|]. by exists f.
  - injection E as <-. rewrite advance_rx_eq. destruct B1 as (f & Hf & Hd).
    assert (F2' : flow (set_r_count (u32 (r + 1)) (ch_b s)) (sent (end_b s)) (recvd (end_a s) ++ [data]))
      by (apply (flow_ext (ch_b s)); [done|]; by eapply flow_take).
    split; [exact F1|]. split; [exact F2'|]. split; [done|]. unfold busy_ok in *. projs.
    destruct (at_pc (end_b s)); try done; rewrite len_snoc; (destruct B2 as [? B2']; split; [lia|done]).
  - injection E as <-. by apply linked_goto.
  - injection E as <-. by case_if; apply (linked_same s).
Qed.

Lemma inv_notified s s' : inv s -> notified_next n fs s = Some s' -> state (ch_a s') <> ivc_state_sync -> state (ch_b s') <> ivc_state_sync -> linked s'.
Proof using n_range.
  intros ([(HO & HF & He & Hk & Hm) (HOb & HFb & Heb & Hkb & Hmb)] & [Ha Hb] & Hl) E Na Nb. unfold notified_next in E. unfold local_ok in Hm.
  destruct (at_pc (end_a s)) eqn:Hpc; try done; injection E as <-; projs.
  - by case_if; apply linked_goto; auto.
  - by case_if; apply linked_goto; auto.
  - assert (Hack : state (ch_a s) = ivc_state_ack) by (states; lia). destruct (Hk Hack) as [Es Er]. apply (linked_same s); auto.
  - assert (Hack : state (ch_a s) = ivc_state_ack) by (states; lia). destruct (Hk Hack) as [Es Er]. apply (linked_same s); auto.
  - destruct (Z.eq_dec (state (ch_a s)) ivc_state_ack) as [Hack|Hnack].
    + apply (linked_same s); auto. apply Hl; [by rewrite Hack|done].
    + assert (Hack : state (ch_b s) = ivc_state_ack) by (states; lia). apply linked_cleared; projs; auto.
      destruct (transfers (at_pc (end_b s))) eqn:Et; [|done]. by rewrite Heb in Hack.
  - apply linked_goto; auto.
Qed.

Lemma inv_step_a s s' : inv s -> step_a n fs no_ack s s' -> inv s'.
Proof using n_range fs_range size_range.
  intros Hi Hs. pose proof Hi as (Hsd & Hh & Hl). split; [|split].
  - eapply (sides_step no_ack); [done|]. by left.
  - destruct Hs as [c Hc E|E]; [by eapply shake_enter|]. unfold next in E.
    destruct (at_pc (end_a s)); try done; first [by apply (shake_notified s)|apply (shake_transfer s); auto].
  - intros Na Nb. destruct Hs as [c Hc E|E].
    + unfold enter in E. destruct (at_pc (end_a s)) eqn:Hpc; try done. destruct c as [buf|m| |].
      * case_if; [done|]. injection E as <-. projs. by case_if; apply linked_goto; auto.
      * case_if; [done|]. injection E as <-. projs. by case_if; apply linked_goto; auto.
      * injection E as <-. by destruct Na.
      * injection E as <-. projs. by case_if; apply linked_goto; auto.
    + unfold next in E. destruct (at_pc (end_a s)) eqn:Hpc; try done; first [by apply (inv_notified s)|idtac].
      all: destruct (transfer_keeps s s') as (E1 & E2 & _); [auto|]; rewrite E1 in Na; rewrite E2 in Nb; specialize (Hl Na Nb);
        first [by apply (linked_write s)|by apply (linked_read s)].
Qed.

Lemma inv_step s s' : inv s -> step n fs no_ack s s' -> inv s'.
Proof using n_range fs_range size_range.
  intros Hi [Ha | Hb]; [by eapply inv_step_a|].
  rewrite <- (swap_swap s'). eapply inv_swap, inv_step_a; [|exact Hb]. by apply inv_swap.
Qed.

Lemma inv_fresh : inv fresh.
Proof using n_range fs_range. split; [apply sides_fresh|]. split; [by split|]. intros _ _. by apply linked_cleared. Qed.

Lemma inv_reachable s : reachable n fs no_ack fresh s -> inv s.
Proof using n_range fs_range size_range. induction 1; [apply inv_fresh|]. by eapply inv_step. Qed.

(** The copies of a whole frame stay inside the channel. *)
Lemma write_runs s buf : sides s -> at_pc (end_a s) = Idle -> Z.of_nat (length buf) <= fs -> exists i, ivc_write_copy (view s) 0 (padded (view s) buf) = Ret i.
Proof using n_range fs_range size_range.
  intros [(HO & HF & _) _] Hpc Hb. destruct (positions _ _ _ HO ltac:(by rewrite Hpc)) as [Hw _].
  unfold ivc_write_copy, frame_write. projs. rewrite pointer_eq by done.
  pose proof (frame_bound _ Hw). rewrite padded_view, length_padding by done. case_if; [by eexists|]. zbool. nia.
Qed.
Lemma read_runs s m : sides s -> at_pc (end_a s) = Idle -> 0 <= m <= fs -> exists d, ivc_read_copy (view s) 0 m = Ret d.
Proof using n_range fs_range size_range.
  intros [(HO & _) (_ & HFb & _)] Hpc Hm. destruct (positions _ _ _ HO ltac:(by rewrite Hpc)) as [_ Hr].
  unfold ivc_read_copy, frame_read. projs. rewrite pointer_eq by done.
  pose proof (frame_bound _ Hr). case_if; [by eexists|]. zbool. nia.
Qed.
End Invariants.

(** ** Calls that nothing interrupts *)

Section Alone.
Variables (n fs : Z) (R : Z -> Z -> Prop).
Abbreviation view := (view n fs).
Abbreviation reachable := (reachable n fs R).

Lemma steps_trans s0 s1 s2 : reachable s0 s1 -> reachable s1 s2 -> reachable s0 s2.
Proof using. intros H1. induction 1; [done|]. by eapply reach_step. Qed.

Lemma step_on s s1 s' : next n fs s = Some s1 -> reachable s1 s' -> reachable s s'.
Proof using. intros E. apply steps_trans. eapply reach_step; [apply reach_refl|]. left. by apply a_next. Qed.

Lemma enter_on c s s1 s' : (c = Reset -> R (state (ch_a s)) (state (ch_b s))) -> enter n fs c s = Some s1 -> reachable s1 s' -> reachable s s'.
Proof using. intros Hc E. apply steps_trans. eapply reach_step; [apply reach_refl|]. left. by eapply a_enter. Qed.

Lemma step_swap s s' : step n fs R s s' -> step n fs R (swap s) (swap s').
Proof using. intros [Ha | Hb]; [right; by rewrite !swap_swap|by left]. Qed.

Lemma reachable_swap s s' : reachable (swap s) (swap s') -> reachable s s'.
Proof using.
  intros Hr. rewrite <- (swap_swap s), <- (swap_swap s'). revert Hr.
  generalize (swap s), (swap s'). induction 1 as [|t t' _ IH Hs]; [constructor|].
  eapply reach_step; [exact IH|]. by apply step_swap.
Qed.

Lemma view_after s i p snt rcv : nframes i = n -> frame_size i = fs -> view (after s i p snt rcv) = i.
Proof using. destruct i; cbn. by intros -> ->. Qed.

Lemma view_store s i p : nframes i = n -> frame_size i = fs -> view (store s i p) = i.
Proof using. apply view_after. Qed.

(** The frame is stored byte by byte. *)
Lemma copy_steps s buf i : at_pc (end_a s) = WCopy buf 0 -> ivc_write_copy (view s) 0 (padded (view s) buf) = Ret i ->
  0 <= ivc_frame_pointer (view s) (w_pos (view s)) ->
  reachable s (store s i (WCopy buf (length (padded (view s) buf)))).
Proof using.
  intros Hpc Hi Hp0. unfold ivc_write_copy, frame_write in Hi. destruct (_ <=? _) eqn:Hlt in Hi; [|done]. injection Hi as <-. zbool.
  set (p := ivc_frame_pointer (view s) (w_pos (view s))) in *. rewrite Z.add_0_r in *. set (data := padded (view s) buf) in *.
  set (at_ k := store s (upd_tx (fun _ => set_frames (blit (frames (ch_a s)) (Z.to_nat p) (take k data)) (ch_a s)) (view s)) (WCopy buf k)).
  assert (Hk : forall k, (k <= length data)%nat -> reachable s (at_ k)).
  { induction k as [|k IH]; intros Hk.
    - assert (E : at_ 0%nat = s); [|rewrite E; apply reach_refl]. unfold at_. rewrite take_0. destruct s as [[] ? [] ?]. cbn in Hpc. subst.
      unfold store, after, blit. cbn. by rewrite Nat.add_0_r, take_drop.
    - eapply steps_trans; [apply IH; lia|]. destruct (lookup_lt_is_Some_2 data k) as [b Hb]; [lia|].
      apply (step_on _ (at_ (S k))); [|apply reach_refl]. unfold next, write_next, at_. cbn [store after end_a at_pc].
      change (padded (view (store _ _ _)) buf) with data. rewrite Hb. unfold ivc_write_copy, frame_write.
      cbn [IvcProtocol.view store after tx_channel ch_a ch_b upd_tx set_frames frames w_pos end_a wp length].
      change (ivc_frame_pointer _ _) with p.
      cbn [IvcProtocol.view tx_channel] in Hlt. assert (Hl : (Z.to_nat p + length data <= length (frames (ch_a s)))%nat) by lia.
      rewrite length_blit by (rewrite length_take; lia). rewrite (proj2 (Z.leb_le _ _)) by lia. cbn [obind].
      unfold store, after. cbn. rewrite (take_S_r _ _ b) by done. rewrite <- blit_blit_next by (rewrite length_take; cbn; lia).
      rewrite length_take, Nat.min_l, Z2Nat.inj_add, Nat2Z.id by lia. done. }
  specialize (Hk (length data) (le_n _)). unfold at_ in Hk. by rewrite take_ge in Hk.
Qed.

(** A whole write is a run of the steps of one end, and so are a read and a
    notification. *)
Lemma write_steps s buf i : at_pc (end_a s) = Idle -> Z.of_nat (length buf) <= fs -> ivc_check_write (view s) = 0 ->
  ivc_write_copy (view s) 0 (padded (view s) buf) = Ret i ->
  reachable s (after s (ivc_write_finish i) Idle (sent (end_a s) ++ [padded (view s) buf]) (recvd (end_a s))).
Proof using.
  intros Hpc Hb Hc Hi. unfold ivc_check_write in Hc. destruct (negb _) eqn:Hst in Hc; [done|]. cbn [IvcProtocol.view tx_channel] in Hst.
  destruct (ivc_channel_full (view s) _) eqn:Hf in Hc; [done|]. clear Hc.
  apply (enter_on (Write buf) _ (goto n fs s (WCount buf false))); [done|unfold enter; by rewrite Hpc, (proj2 (Z.ltb_ge _ _)), Hst by lia|].
  apply (step_on _ (goto n fs s (WFull buf false (w_count (ch_a s))))); [done|].
  apply (step_on _ (goto n fs s (WCopy buf 0))).
  { unfold next, write_next. cbn [goto store after end_a at_pc]. cbv zeta.
    change (ivc_channel_full _ _) with (ivc_channel_full (view s) (tx_channel (view s))). by rewrite Hf. }
  eapply steps_trans; [apply (copy_steps _ buf i); [done|exact Hi|apply wrapw_range; lia]|].
  assert (Hni : nframes i = n /\ frame_size i = fs /\ rx_channel i = ch_b s /\ r_pos i = rp (end_a s)).
  { unfold ivc_write_copy in Hi. destruct (frame_write _ _ _); try done. by injection Hi as <-. }
  clear Hi. destruct i as [rx tx w r nf sz nt], Hni as (Hn & Hfs & Hrx & Hr). cbn in Hn, Hfs, Hrx, Hr. subst nf sz rx r.
  set (i := mk_ivc _ _ _ _ _ _ _). set (k := length _).
  apply (step_on _ (store s i (WStore buf (w_count tx)))).
  { unfold next, write_next. cbn [store after end_a at_pc]. cbv zeta. by rewrite lookup_ge_None_2 by done. }
  set (i' := ivc_advance_tx i). assert (Hi' : nframes i' = n /\ frame_size i' = fs) by (unfold i', ivc_advance_tx; by case_if). destruct Hi' as [Hn' Hfs'].
  set (snt := sent (end_a s) ++ [padded (view s) buf]).
  apply (step_on _ (after s i' WAvail snt (recvd (end_a s)))).
  { unfold next, write_next. cbn [store after end_a at_pc]. cbv zeta. unfold i', i. by destruct tx. }
  apply (step_on _ (after s i' (WNotify (w_count (tx_channel i'))) snt (recvd (end_a s)))).
  { unfold next, write_next. cbn [after end_a at_pc]. cbv zeta. unfold goto. by rewrite view_after. }
  apply (step_on _ (after s (ivc_write_finish i) Idle snt (recvd (end_a s)))); [|apply reach_refl].
  unfold next, write_next. cbn [after end_a at_pc]. cbv zeta. by rewrite view_after.
Qed.

(** The frame is read byte by byte. *)
Lemma fetch_steps s m d : at_pc (end_a s) = RCopy m [] -> 0 <= m -> ivc_read_copy (view s) 0 m = Ret d ->
  0 <= ivc_frame_pointer (view s) (r_pos (view s)) -> length d = Z.to_nat m /\ reachable s (goto n fs s (RCopy m d)).
Proof using.
  intros Hpc Hm Hd Hp0. unfold ivc_read_copy, frame_read in Hd. destruct (_ <=? _) eqn:Hlt in Hd; [|done]. injection Hd as <-. zbool.
  change (r_pos (view s)) with (rp (end_a s)) in *. change (rx_channel (view s)) with (ch_b s) in *. set (p := ivc_frame_pointer (view s) (rp (end_a s))) in *. rewrite Z.add_0_r in *.
  set (data := slice _ _ _). assert (Hl : length data = Z.to_nat m) by (unfold data; rewrite length_slice; lia). split; [done|].
  assert (Hk : forall k, (k <= length data)%nat -> reachable s (goto n fs s (RCopy m (take k data)))).
  { induction k as [|k IH]; intros Hk.
    - assert (E : goto n fs s (RCopy m (take 0 data)) = s); [|rewrite E; apply reach_refl]. rewrite take_0. destruct s as [? ? [] ?]. cbn in Hpc. by subst.
    - eapply steps_trans; [apply IH; lia|]. destruct (lookup_lt_is_Some_2 data k) as [b Hb]; [lia|].
      apply (step_on _ (goto n fs s (RCopy m (take (S k) data)))); [|apply reach_refl]. unfold next, read_next. cbn [goto store after end_a at_pc]. cbv zeta.
      rewrite length_take, Nat.min_l, (proj2 (Z.ltb_lt _ _)) by lia.
      unfold ivc_read_copy, frame_read. change (ivc_frame_pointer _ _) with p.
      cbn [IvcProtocol.view store goto after rx_channel ch_b]. rewrite (proj2 (Z.leb_le _ _)) by lia. cbn [obind].
      rewrite (take_S_r _ _ b) by done. assert (Hs : slice (frames (ch_b s)) (Z.to_nat (p + Z.of_nat k)) (Z.to_nat 1) = [b]); [|by rewrite Hs].
      unfold data in Hb. rewrite lookup_slice, decide_True in Hb by lia. apply list_eq. intros j. rewrite lookup_slice. rewrite Z2Nat.inj_add, Nat2Z.id by lia.
      change (Z.to_nat 1) with 1%nat. destruct j as [|j]; [by rewrite decide_True, Nat.add_0_r by lia|by rewrite decide_False by lia]. }
  specialize (Hk (length data) (le_n _)). by rewrite take_ge in Hk.
Qed.

Lemma read_steps s m d : at_pc (end_a s) = Idle -> 0 <= m <= fs -> ivc_check_read (view s) = 0 -> ivc_read_copy (view s) 0 m = Ret d ->
  reachable s (after s (ivc_read_finish (view s)) Idle (sent (end_a s)) (recvd (end_a s) ++ [d])).
Proof using.
  intros Hpc Hm Hc Hd. unfold ivc_check_read in Hc. destruct (negb _) eqn:Hst in Hc; [done|]. cbn [IvcProtocol.view tx_channel] in Hst.
  destruct (ivc_channel_empty (view s) _) eqn:Hf in Hc; [done|]. clear Hc.
  apply (enter_on (Read m) _ (goto n fs s (RCount m false))); [done|unfold enter; by rewrite Hpc, (proj2 (Z.ltb_ge fs m)), (proj2 (Z.ltb_ge m 0)), Hst by lia|].
  apply (step_on _ (goto n fs s (REmpty m false (w_count (ch_b s))))); [done|].
  apply (step_on _ (goto n fs s (RCopy m []))).
  { unfold next, read_next. cbn [goto store after end_a at_pc]. cbv zeta.
    change (ivc_channel_empty _ _) with (ivc_channel_empty (view s) (rx_channel (view s))). by rewrite Hf. }
  destruct (fetch_steps (goto n fs s (RCopy m [])) m d) as [Hl Hr]; [done|lia|exact Hd|apply wrapw_range; lia|]. eapply steps_trans; [exact Hr|].
  apply (step_on _ (goto n fs s (RStore d (r_count (ch_b s))))).
  { unfold next, read_next. cbn [goto store after end_a at_pc]. cbv zeta. by rewrite (proj2 (Z.ltb_ge _ _)) by lia. }
  set (i' := ivc_advance_rx (view s)). assert (Hi' : nframes i' = n /\ frame_size i' = fs) by (unfold i', ivc_advance_rx; by case_if). destruct Hi' as [Hn' Hfs'].
  set (rcv := recvd (end_a s) ++ [d]).
  apply (step_on _ (after s i' RAvail (sent (end_a s)) rcv)).
  { assert (E : upd_rx (set_r_count (r_count (ch_b s))) (view s) = view s) by (unfold upd_rx, IvcProtocol.view; cbn; by destruct (ch_b s)).
    change (Some (after s (ivc_advance_rx (upd_rx (set_r_count (r_count (ch_b s))) (view s))) RAvail (sent (end_a s)) rcv) = Some (after s i' RAvail (sent (end_a s)) rcv)).
    by rewrite E. }
  apply (step_on _ (after s i' (RNotify (w_count (rx_channel i'))) (sent (end_a s)) rcv)).
  { unfold next, read_next. cbn [after end_a at_pc]. cbv zeta. unfold goto. by rewrite view_after. }
  apply (step_on _ (after s (ivc_read_finish (view s)) Idle (sent (end_a s)) rcv)); [|apply reach_refl].
  unfold next, read_next. cbn [after end_a at_pc]. cbv zeta. rewrite view_after by done. unfold ivc_read_finish. fold i'. by rewrite Hn'.
Qed.

(** [tegra_ivc_channel_notified] run by one end or the other without interruption. *)
Definition clears (i : ivc) : bool :=
  (state (rx_channel i) =? ivc_state_sync)
  || ((state (tx_channel i) =? ivc_state_sync) && (state (rx_channel i) =? ivc_state_ack)).
Definition notified_a (s : system) : system :=
  after s (tegra_ivc_channel_notified (view s)).2 Idle
    (if clears (view s) then [] else sent (end_a s)) (if clears (view s) then [] else recvd (end_a s)).
Definition notified_b (s : system) : system := swap (notified_a (swap s)).

(** The counters are cleared and the state is stored. *)
Lemma clear_steps s st : at_pc (end_a s) = NClearW st -> reachable s (after s (notify (upd_tx (set_state st) (clear_counters (view s)))) Idle [] []).
Proof using.
  intros Hpc. eapply step_on; [unfold next, notified_next; rewrite Hpc; reflexivity|]. do 3 (eapply step_on; [reflexivity|]). apply reach_refl.
Qed.

Lemma notified_steps s : at_pc (end_a s) = Idle -> reachable s (notified_a s).
Proof using.
  intros Hpc. unfold notified_a, tegra_ivc_channel_notified, clears. cbn [IvcProtocol.view rx_channel tx_channel].
  eapply (enter_on Notified); [done|unfold enter; rewrite Hpc; reflexivity|].
  destruct (state (ch_b s) =? ivc_state_sync); cbn [orb snd]; [by apply (clear_steps (goto n fs s (NClearW ivc_state_ack)))|].
  eapply step_on; [reflexivity|]. cbn [IvcProtocol.view goto store after tx_channel ch_a].
  destruct ((state (ch_a s) =? ivc_state_sync) && (state (ch_b s) =? ivc_state_ack)); cbn [snd]; [by apply (clear_steps (goto n fs s (NClearW ivc_state_established)))|].
  eapply step_on; [reflexivity|]. cbn [IvcProtocol.view goto store after tx_channel ch_a].
  destruct (state (ch_a s) =? ivc_state_ack); cbn [snd]; do 2 (try (eapply step_on; [reflexivity|])); apply reach_refl.
Qed.
End Alone.

(** ** The handshake without interruption *)

Section Handshake.
Variables (n fs : Z).
Abbreviation view := (view n fs).
Abbreviation notified_a := (notified_a n fs).

(** The system after a notification that cleared the counters and moved to
    the state [st]. *)
Definition moved (s : system) (st : Z) : system :=
  mk_sys (set_state st (set_w_count 0 (ch_a s))) (set_r_count 0 (ch_b s))
    (mk_end 0 0 (S (notified (end_a s))) Idle [] []) (end_b s).

Lemma notified_sync s : state (ch_b s) = ivc_state_sync -> notified_a s = moved s ivc_state_ack.
Proof.
  intros Hb. unfold notified_a, tegra_ivc_channel_notified, clears. projs. by rewrite Hb.
Qed.

Lemma notified_ack s :
  state (ch_a s) = ivc_state_sync -> state (ch_b s) = ivc_state_ack ->
  notified_a s = moved s ivc_state_established.
Proof.
  intros Ha Hb. unfold notified_a, tegra_ivc_channel_notified, clears. projs. by rewrite Ha, Hb.
Qed.

Lemma notified_done s :
  state (ch_a s) = ivc_state_ack -> state (ch_b s) = ivc_state_established ->
  notified_a s = mk_sys (set_state ivc_state_established (ch_a s)) (ch_b s)
    (mk_end (wp (end_a s)) (rp (end_a s)) (S (notified (end_a s))) Idle (sent (end_a s)) (recvd (end_a s))) (end_b s).
Proof.
  intros Ha Hb. unfold notified_a, tegra_ivc_channel_notified, clears. projs. by rewrite Ha, Hb.
Qed.

Definition zeroed (s : system) : Prop :=
  w_count (ch_a s) = 0 /\ r_count (ch_a s) = 0 /\ w_count (ch_b s) = 0 /\ r_count (ch_b s) = 0 /\
  wp (end_a s) = 0 /\ rp (end_a s) = 0 /\ wp (end_b s) = 0 /\ rp (end_b s) = 0.
End Handshake.

(** ** Theorems *)

(** C13.  In order, at most once, unaltered.  Two ends start on zeroed memory and
    run concurrently: their writes, reads, resets and notifications interleave at
    every access to the shared memory, each load and store of a counter or a state
    and each byte of a frame, and an end resets the channel only when neither end
    is in the ACK state.  Whenever neither end is in the SYNC state, what an end
    has received since the counters were last cleared is, in order, the beginnings
    of the first frames the other end has published since then, and no more than
    [nframes] published frames are still unread.  The condition on resets is
    needed: see [reset_races]. *)
Theorem ivc_delivers_in_order n fs s :
  0 < n < 2 ^ 32 -> 0 <= fs -> n * fs < 2 ^ 32 ->
  reachable n fs no_ack (fresh n fs) s ->
  state (ch_a s) <> ivc_state_sync -> state (ch_b s) <> ivc_state_sync ->
  (Forall2 (fun d f => d `prefix_of` f) (recvd (end_b s)) (take (length (recvd (end_b s))) (sent (end_a s))) /\
   (length (recvd (end_b s)) <= length (sent (end_a s)))%nat /\
   len (sent (end_a s)) - len (recvd (end_b s)) <= n) /\
  (Forall2 (fun d f => d `prefix_of` f) (recvd (end_a s)) (take (length (recvd (end_a s))) (sent (end_b s))) /\
   (length (recvd (end_a s)) <= length (sent (end_b s)))%nat /\
   len (sent (end_b s)) - len (recvd (end_a s)) <= n).
Proof.
  intros Hn Hfs Hsz Hr Ha Hb.
  assert (Hi : inv n fs s) by (by apply inv_reachable).
  destruct Hi as (_ & _ & Hl). destruct (Hl Ha Hb) as ((L1 & P1 & _) & (L2 & P2 & _) & _).
  unfold len in *. split_and!; done || lia.
Qed.

(** No access leaves the channel.  In every reachable state, whenever the ends
    reset the channel, the next access of a call that has begun is inside it. *)
Theorem ivc_copies_in_bounds n fs R s :
  0 < n < 2 ^ 32 -> 0 <= fs -> n * fs < 2 ^ 32 ->
  reachable n fs R (fresh n fs) s -> forall t, t = s \/ t = swap s ->
  at_pc (end_a t) <> Idle -> exists t', next n fs t = Some t'.
Proof.
  intros Hn Hfs Hsz Hr t Ht. assert (Hs : sides n fs s) by (by eapply sides_reachable).
  apply sides_progress; try done. destruct Ht as [-> | ->]; [done|]. by apply sides_swap.
Qed.

(** C19.  The handshake converges.  When an end has reset the channel, then
    whatever state the other end is in and whatever the counters hold, one
    notification at each end and a second one at the other leave both ends
    established with every counter and position zero. *)
Theorem ivc_reset_converges n fs s :
  state (ch_a s) = ivc_state_sync ->
  let s3 := notified_b n fs (notified_a n fs (notified_b n fs s)) in
  state (ch_a s3) = ivc_state_established /\ state (ch_b s3) = ivc_state_established /\ zeroed s3 /\
  (tegra_ivc_channel_notified (view n fs s3)).1 = 0 /\ (tegra_ivc_channel_notified (view n fs (swap s3))).1 = 0.
Proof.
  intros Ha. unfold notified_b. rewrite (notified_sync n fs (swap s)) by exact Ha.
  rewrite (notified_ack n fs (swap (moved (swap s) ivc_state_ack))) by (exact Ha || reflexivity).
  rewrite (notified_done n fs) by reflexivity. by split_and!.
Qed.

(** Schedules: which end moves, and the call it begins or goes on with. *)
Definition move (n fs : Z) (e : bool * option call) (s : system) : option system :=
  let act s := match e.2 with Some c => enter n fs c s | None => next n fs s end in
  if e.1 then option_map swap (act (swap s)) else act s.
Fixpoint run (n fs : Z) (l : list (bool * option call)) (s : system) : option system :=
  match l with
  | [] => Some s
  | e :: l => match move n fs e s with Some s => run n fs l s | None => None end
  end.

(** Schedules with resets only where [R] allows them. *)
Fixpoint allowed (n fs : Z) (R : Z -> Z -> Prop) (l : list (bool * option call)) (s : system) : Prop :=
  match l with
  | [] => True
  | e :: l =>
      (e.2 = Some Reset -> if e.1 then R (state (ch_b s)) (state (ch_a s)) else R (state (ch_a s)) (state (ch_b s))) /\
      match move n fs e s with Some s => allowed n fs R l s | None => True end
  end.

Lemma run_reachable n fs R l : forall s s', run n fs l s = Some s' -> allowed n fs R l s -> reachable n fs R s s'.
Proof.
  induction l as [|[w c] l IH]; intros s s' E Ha; cbn [run allowed] in *; [injection E as <-; apply reach_refl|].
  destruct Ha as [Hr Ha]. destruct (move n fs (w, c) s) as [s1|] eqn:Em; [|done]. eapply steps_trans; [|by apply IH]. eapply reach_step; [apply reach_refl|].
  assert (Hact : forall t t', (c = Some Reset -> R (state (ch_a t)) (state (ch_b t))) -> match c with Some c => enter n fs c t | None => next n fs t end = Some t' -> step_a n fs R t t').
  { intros t t' Ht Et. destruct c as [c|]; [|by apply a_next]. eapply a_enter; [|exact Et]. intros ->. by apply Ht. }
  unfold move in Em. cbn [fst snd] in *. destruct w; [right|left]; cbn beta iota in *.
  - destruct (match c with Some c => enter n fs c (swap s) | None => next n fs (swap s) end) as [t|] eqn:Et; [|done].
    injection Em as <-. rewrite swap_swap. by apply Hact.
  - by apply Hact.
Qed.

Lemma allowed_always n fs l : forall s, allowed n fs always l s.
Proof.
  induction l as [|[[] c] l IH]; intros s; cbn [allowed]; [done|..]; (split; [intros _; exact I|]);
    match goal with |- context [move n fs ?e s] => destruct (move n fs e s) end; done || apply IH.
Qed.

(** A reset while the other end is in the ACK state.  Here [b] resets the channel
    twice; [a] answers the first reset, looks at the state of [b] and is delayed before it
    leaves ACK; [b] resets again, sees the ACK that is on its way out and finishes
    the handshake with it, while [a] publishes a frame and then answers the second
    reset too: it clears a counter behind which [b] has read. *)
Definition racing : list (bool * option call) :=
  let go w k := repeat (w, None) k in
  let a := false in let b := true in
  [(b, Some Reset); (a, Some Notified)] ++ go a 4%nat ++ [(b, Some Notified)] ++ go b 5%nat ++
  [(a, Some Notified)] ++ go a 2%nat ++ [(b, Some Reset); (b, Some Notified)] ++ go a 2%nat ++
  [(a, Some (Write [7]))] ++ go a 7%nat ++ [(a, Some Notified)] ++ go b 5%nat ++ [(b, Some (Read 1))] ++ go b 7%nat ++
  go a 4%nat ++ [(a, Some Notified)] ++ go a 4%nat.

(** Both ends are idle and established, and the channel is broken: [b] has taken one
    frame more than [a] has published since the clearing, and does not see the next one. *)
Theorem reset_races : exists s,
  reachable 2 1 always (fresh 2 1) s /\ at_pc (end_a s) = Idle /\ at_pc (end_b s) = Idle /\
  state (ch_a s) = ivc_state_established /\ state (ch_b s) = ivc_state_established /\
  sent (end_a s) = [] /\ recvd (end_b s) = [[7]] /\ w_count (ch_a s) = 0 /\ r_count (ch_a s) = 1 /\
  ivc_check_read (view 2 1 (swap s)) = - ENOMEM /\
  forall i, (tegra_ivc_write [8] (view 2 1 s)).2 = i -> ivc_check_read (view 2 1 (swap (after s i Idle [] []))) = - ENOMEM.
Proof.
  destruct (run 2 1 racing (fresh 2 1)) as [s|] eqn:E; [|by vm_compute in E]. exists s. split.
  - eapply run_reachable; [exact E|]. apply allowed_always.
  - vm_compute in E. injection E as <-. split_and!; try reflexivity. intros i <-. reflexivity.
Qed.

(** Two ends with two frames of 64 bytes: [a] has written one frame of which
    [b] has read the first two bytes. *)
Definition demo0 : system := fresh 2 64.
Definition demo1 : system :=
  after demo0 (tegra_ivc_write [1; 2; 3] (view 2 64 demo0)).2 Idle ([] ++ [padded (view 2 64 demo0) [1; 2; 3]]) [].
Definition demo2 : system :=
  swap (after (swap demo1) (tegra_ivc_read 2 (view 2 64 (swap demo1))).2 Idle [] ([] ++ [[1; 2]])).

Lemma demo_reachable R : reachable 2 64 R demo0 demo2.
Proof.
  apply (steps_trans 2 64 R _ demo1).
  - unfold demo1. eapply (write_steps 2 64 R demo0 [1; 2; 3]); [done|simpl; lia|reflexivity|reflexivity].
  - apply reachable_swap. unfold demo2. rewrite swap_swap.
    eapply (read_steps 2 64 R (swap demo1) 2 [1; 2]); [done|lia|reflexivity|vm_compute; reflexivity].
Qed.

Example ivc_delivers_in_order_witness :
  (Forall2 (fun d f => d `prefix_of` f) (recvd (end_b demo2)) (take (length (recvd (end_b demo2))) (sent (end_a demo2))) /\
   (length (recvd (end_b demo2)) <= length (sent (end_a demo2)))%nat /\
   len (sent (end_a demo2)) - len (recvd (end_b demo2)) <= 2) /\
  (Forall2 (fun d f => d `prefix_of` f) (recvd (end_a demo2)) (take (length (recvd (end_a demo2))) (sent (end_b demo2))) /\
   (length (recvd (end_a demo2)) <= length (sent (end_b demo2)))%nat /\
   len (sent (end_b demo2)) - len (recvd (end_a demo2)) <= 2).
Proof.
  apply (ivc_delivers_in_order 2 64 demo2); [lia|lia|lia|exact (demo_reachable no_ack)| |]; vm_compute; discriminate.
Defined.

Example ivc_copies_in_bounds_witness : exists t', next 2 64 (goto 2 64 demo0 (WCount [7] false)) = Some t'.
Proof.
  apply (ivc_copies_in_bounds 2 64 always (goto 2 64 demo0 (WCount [7] false))); [lia|lia|lia| |by left|done].
  eapply reach_step; [apply reach_refl|]. left. by apply (a_enter 2 64 always demo0 _ (Write [7])).
Defined.

(** Ends with arbitrary counters, the first of which has reset the channel. *)
Definition after_reset : system :=
  mk_sys (mk_ch 17 ivc_state_sync 4 []) (mk_ch 3 ivc_state_established 900 [])
    (mk_end 1 0 0 Idle [] []) (mk_end 1 1 0 Idle [] []).

Example ivc_reset_converges_witness :
  let s3 := notified_b 2 64 (notified_a 2 64 (notified_b 2 64 after_reset)) in
  state (ch_a s3) = ivc_state_established /\ state (ch_b s3) = ivc_state_established /\ zeroed s3 /\
  (tegra_ivc_channel_notified (view 2 64 s3)).1 = 0 /\ (tegra_ivc_channel_notified (view 2 64 (swap s3))).1 = 0.
Proof. apply (ivc_reset_converges 2 64 after_reset). reflexivity. Defined.

(** C18.  [tegra_ivc_write] of an end that is not in the middle of an operation,
    in any reachable state: a frame that is too large, a channel that is not
    established and a full queue are reported with nothing changed; otherwise
    the call succeeds, and it is a run of the end's steps that publishes exactly
    the buffer followed by zeroes. *)
Theorem ivc_write_refines n fs s buf :
  0 < n < 2 ^ 32 -> 0 <= fs -> n * fs < 2 ^ 32 ->
  reachable n fs always (fresh n fs) s -> at_pc (end_a s) = Idle ->
  let '(r, i) := tegra_ivc_write buf (view n fs s) in
  match r with
  | Ret k => k = Z.of_nat (length buf) /\
      reachable n fs always s (after s i Idle
        (sent (end_a s) ++ [buf ++ repeat 0 (Z.to_nat fs - length buf)]) (recvd (end_a s)))
  | Err e => i = view n fs s /\
      ((e = - E2BIG /\ fs < Z.of_nat (length buf)) \/
       (e = - ECONNRESET /\ state (ch_a s) <> ivc_state_established) \/
       (e = - ENOMEM /\ ivc_channel_full (view n fs s) (ch_a s) = true))
  | _ => False
  end.
Proof.
  intros Hn Hfs Hsz Hr Hpc.
  assert (Hi : sides n fs s) by (by eapply sides_reachable).
  unfold tegra_ivc_write, bind, get, fail_if, lift, put, ret, err. cbn [view frame_size].
  destruct (fs <? Z.of_nat (length buf)) eqn:E1; zbool; [by split; [|left]|].
  destruct (truthy (ivc_check_write (view n fs s))) eqn:E2; zbool.
  { split; [done|]. right. revert E2. unfold ivc_check_write. cbn [view tx_channel].
    repeat case_if; zbool; intros; tauto. }
  assert (Hw : exists i, ivc_write_copy (view n fs s) 0 (padded (view n fs s) buf) = Ret i) by (by apply write_runs).
  destruct Hw as [i Hw]. rewrite Hw. split; [done|]. by apply (write_steps n fs always s buf).
Qed.

Example ivc_write_refines_witness :
  let '(r, i) := tegra_ivc_write [1; 2; 3] (view 2 64 demo0) in
  match r with
  | Ret k => k = 3 /\
      reachable 2 64 always demo0 (after demo0 i Idle
        (sent (end_a demo0) ++ [[1; 2; 3] ++ repeat 0 (Z.to_nat 64 - length [1; 2; 3])]) (recvd (end_a demo0)))
  | Err e => i = view 2 64 demo0 /\
      ((e = - E2BIG /\ 64 < 3) \/
       (e = - ECONNRESET /\ state (ch_a demo0) <> ivc_state_established) \/
       (e = - ENOMEM /\ ivc_channel_full (view 2 64 demo0) (ch_a demo0) = true))
  | _ => False
  end.
Proof. apply (ivc_write_refines 2 64 demo0 [1; 2; 3]); [lia|lia|lia|apply reach_refl|reflexivity]. Defined.

(** [tegra_ivc_read] of an end that is not in the middle of an operation,
    in any reachable state: the errors leave everything unchanged; otherwise
    the call succeeds, returns [max_read] bytes and is a run of the end's
    steps that takes exactly one frame. *)
Theorem ivc_read_refines n fs s m :
  0 < n < 2 ^ 32 -> 0 <= fs -> n * fs < 2 ^ 32 -> 0 <= m ->
  reachable n fs always (fresh n fs) s -> at_pc (end_a s) = Idle ->
  let '(r, i) := tegra_ivc_read m (view n fs s) in
  match r with
  | Ret d => Z.of_nat (length d) = m /\
      reachable n fs always s (after s i Idle (sent (end_a s)) (recvd (end_a s) ++ [d]))
  | Err e => i = view n fs s /\
      ((e = - E2BIG /\ fs < m) \/
       (e = - ECONNRESET /\ state (ch_a s) <> ivc_state_established) \/
       (e = - ENOMEM /\ ivc_channel_empty (view n fs s) (ch_b s) = true))
  | _ => False
  end.
Proof.
  intros Hn Hfs Hsz Hm Hr Hpc.
  assert (Hi : sides n fs s) by (by eapply sides_reachable).
  unfold tegra_ivc_read, bind, get, fail_if, lift, put, ret, err. cbn [view frame_size].
  destruct (fs <? m) eqn:E1; zbool; [by split; [|left]|].
  destruct (truthy (ivc_check_read (view n fs s))) eqn:E2; zbool.
  { split; [done|]. right. revert E2. unfold ivc_check_read. cbn [view tx_channel rx_channel].
    repeat case_if; zbool; intros; tauto. }
  assert (Hd : exists d, ivc_read_copy (view n fs s) 0 m = Ret d) by (by apply read_runs).
  destruct Hd as [d Hd]. rewrite Hd. split; [|by apply (read_steps n fs always s m)].
  unfold ivc_read_copy, frame_read in Hd. destruct (_ <=? _) eqn:E3; [|done]. injection Hd as <-. zbool.
  rewrite length_slice. unfold ivc_frame_pointer in *. pose proof (wrapw_range 32 (frame_size (view n fs s) * r_pos (view n fs s)) ltac:(lia)).
  unfold in_word in *. cbn [view r_pos rx_channel frame_size] in *. lia.
Qed.

Example ivc_read_refines_witness :
  let '(r, i) := tegra_ivc_read 2 (view 2 64 demo0) in
  match r with
  | Ret d => Z.of_nat (length d) = 2 /\
      reachable 2 64 always demo0 (after demo0 i Idle (sent (end_a demo0)) (recvd (end_a demo0) ++ [d]))
  | Err e => i = view 2 64 demo0 /\
      ((e = - E2BIG /\ 64 < 2) \/
       (e = - ECONNRESET /\ state (ch_a demo0) <> ivc_state_established) \/
       (e = - ENOMEM /\ ivc_channel_empty (view 2 64 demo0) (ch_b demo0) = true))
  | _ => False
  end.
Proof. apply (ivc_read_refines 2 64 demo0 2); [lia|lia|lia|lia|apply reach_refl|reflexivity]. Defined.

(** Parameters that [tegra_ivc_init] accepts: all sizes stay below 2^32,
    bases and frame size are aligned and the frame areas, taken from the queue
    bases, do not overlap.  The check leaves the channel headers out: it accepts
    two queues of one frame 64 bytes apart, so that the first frame of one
    channel is written over the header of the other. *)
Theorem ivc_params_checked mem rx_base tx_base nf fsz i :
  0 <= rx_base -> rx_base + 2 ^ 32 < 2 ^ 64 -> 0 <= tx_base -> tx_base + 2 ^ 32 < 2 ^ 64 ->
  in_word 32 nf -> in_word 32 fsz ->
  tegra_ivc_init mem rx_base tx_base nf fsz = Ret i ->
  (nf * fsz < 2 ^ 32 /\ fsz <= 2 ^ 31 /\ fsz mod 64 = 0 /\ rx_base mod 64 = 0 /\ tx_base mod 64 = 0 /\
   (rx_base + nf * fsz <= tx_base \/ tx_base + nf * fsz <= rx_base) /\ w_pos i = 0 /\ r_pos i = 0) /\
  check_ivc_params 0 64 1 64 = 0.
Proof.
  intros Hr1 Hr2 Ht1 Ht2 Hn Hf. unfold tegra_ivc_init, check_ivc_params, IVC_ALIGN, in_word in *.
  change (64 - 1) with (Z.ones 6). rewrite !Z.land_ones by lia. change (2 ^ 6) with 64.
  rewrite (wrapw_small 64) by (unfold in_word; nia).
  destruct (Z.leb_spec 4294967296 (nf * fsz)); [done|].
  rewrite (Z.mul_comm fsz nf), (wrapw_small 32) by (unfold in_word; nia).
  rewrite !(wrapw_small 64) by (unfold in_word; nia).
  unfold truthy, EINVAL. intros Hi. repeat case_if; zbool; try done; injection Hi as <-; split_and!; done || lia.
Qed.

Example ivc_params_checked_witness :
  (2 * 64 < 2 ^ 32 /\ 64 <= 2 ^ 31 /\ 64 mod 64 = 0 /\ 0 mod 64 = 0 /\ 4096 mod 64 = 0 /\
   (0 + 2 * 64 <= 4096 \/ 4096 + 2 * 64 <= 0) /\
   w_pos (view 2 64 demo0) = 0 /\ r_pos (view 2 64 demo0) = 0) /\
  check_ivc_params 0 64 1 64 = 0.
Proof.
  apply (ivc_params_checked (fun _ => fresh_channel 2 64) 0 4096 2 64 (view 2 64 demo0));
    try lia; try (unfold in_word; lia); reflexivity.
Defined.
