(* ===== verification/Heap.v ===== *)
(** * The heap

    lib/malloc/tegrabl_malloc.c.  Memory is a function from addresses to
    bytes; the block headers are read and written in it at the offsets of the
    64-bit structs, so that what the code finds there is what was last stored.
    [NULL] is the address 0.  A call of [tegrabl_hang] and the endless loops on
    a corrupted list are [Halt]. *)
From S2P Require Import Prelude Errors.

(** ** Memory *)

Definition memory : Type := Z -> Z.

Fixpoint ldm (n : nat) (m : memory) (a : Z) : Z :=
  match n with
  | O => 0
  | S n' => m a + 256 * ldm n' m (a + 1)
  end.

Fixpoint stm (n : nat) (m : memory) (a v : Z) : memory :=
  match n with
  | O => m
  | S n' => stm n' (fun x => if x =? a then v mod 256 else m x) (a + 1) (v / 256)
  end.

(** ** Data *)

Definition MODULE : Z := TEGRABL_ERR_HEAP.
Definition FREE_MAGIC : Z := 0xDEEFBEEE.
Definition ALLOC_MAGIC : Z := 0xDEADBEEE.
(** [sizeof(tegrabl_heap_free_block_t)] and [sizeof(tegrabl_heap_alloc_block_t)] *)
Definition MIN_SIZE : Z := 32.
Definition ALLOC_HDR : Z := 24.

(** The fields of the two headers; [magic] and [size] are at the same offsets
    in both. *)
Definition get_magic (m : memory) (b : Z) : Z := ldm 4 m b.
Definition get_size (m : memory) (b : Z) : Z := ldm 8 m (b + 8).
Definition get_prev (m : memory) (b : Z) : Z := ldm 8 m (b + 16).
Definition get_next (m : memory) (b : Z) : Z := ldm 8 m (b + 24).
Definition get_start (m : memory) (b : Z) : Z := ldm 8 m (b + 16).
Definition set_magic (b v : Z) (m : memory) : memory := stm 4 m b v.
Definition set_size (b v : Z) (m : memory) : memory := stm 8 m (b + 8) v.
Definition set_prev (b v : Z) (m : memory) : memory := stm 8 m (b + 16) v.
Definition set_next (b v : Z) (m : memory) : memory := stm 8 m (b + 24) v.
Definition set_start (b v : Z) (m : memory) : memory := stm 8 m (b + 16) v.

Definition is_null (b : Z) : bool := b =? 0.

(** [struct tegrabl_heap_info] *)
Record tegrabl_heap_info := mk_info {
  max_size : Z;
  free_size : Z;
  start : Z;
  end_ : Z;
  free_list : Z;
}.

Definition TEGRABL_HEAP_DEFAULT : Z := 0.
Definition TEGRABL_HEAP_DMA : Z := 1.
Definition TEGRABL_HEAP_TYPE_MAX : Z := 2.

(** Memory and the array [heap_info]. *)
Record heap := mk_heap { mem : memory; heap_info : Z -> tegrabl_heap_info }.

Definition set_mem (m : memory) (h : heap) : heap := mk_heap m (heap_info h).
Definition set_info (t : Z) (i : tegrabl_heap_info) (h : heap) : heap :=
  mk_heap (mem h) (fun u => if u =? t then i else heap_info h u).
Definition set_free_list (t b : Z) (h : heap) : heap :=
  let i := heap_info h t in set_info t (mk_info (max_size i) (free_size i) (start i) (end_ i) b) h.
Definition set_free_size (t v : Z) (h : heap) : heap :=
  let i := heap_info h t in set_info t (mk_info (max_size i) v (start i) (end_ i) (free_list i)) h.

Definition ROUND_UP (n w : Z) : Z := u64 (u64 (u64 (n + w) - 1) / w * w).

(** ** Initialisation *)

Definition tegrabl_heap_init (heap_type start size : Z) : M heap unit :=
  let! h := get in
  fail_if (size <? MIN_SIZE) (tegrabl_error_value MODULE 0 TEGRABL_ERR_TOO_SMALL) ;;;
  fail_if (TEGRABL_HEAP_TYPE_MAX <=? heap_type) (tegrabl_error_value MODULE 0 TEGRABL_ERR_INVALID) ;;;
  fail_if (negb (is_null (free_list (heap_info h heap_type))))
    (tegrabl_error_value MODULE 0 TEGRABL_ERR_ALREADY_EXISTS) ;;;
  let m := set_magic start FREE_MAGIC (set_size start size (set_next start 0 (set_prev start 0 (mem h)))) in
  put (set_info heap_type (mk_info size size start (u64 (start + size)) start) (set_mem m h)).

(** ** Consistency checks *)

(** [true] when the code goes on, [false] when it hangs. *)
Definition check_link (m : memory) (i : tegrabl_heap_info) (cur_block prev_block next_block : Z) : bool :=
  let start_ := cur_block in
  let end' := u64 (start_ + get_size m cur_block) in
  negb (end' <? start_)
  && negb ((start_ <? start i) || (end_ i <? end'))
  && negb (negb (is_null prev_block) && negb (get_next m prev_block =? cur_block))
  && negb (negb (is_null next_block) && negb (get_prev m next_block =? cur_block)).

Definition validate_allocated_block (m : memory) (i : tegrabl_heap_info) (alloc_block : Z) : bool :=
  let start_ := get_start m alloc_block in
  let size := get_size m alloc_block in
  let end' := u64 (start_ + size) in
  let total_free_size := u64 (size + free_size i) in
  negb ((end' <? start_) || (alloc_block <? start_) || (end' <? alloc_block))
  && (get_magic m alloc_block =? ALLOC_MAGIC)
  && negb ((start_ <? start i) || (end_ i <? end'))
  && negb ((total_free_size <? free_size i) || (max_size i <? total_free_size)).

(** ** Allocation *)

Definition on (c : bool) (f : memory -> memory) (m : memory) : memory := if c then f m else m.

Definition tegrabl_heap_split_block (t free_block size : Z) : M heap Z :=
  assert (negb (is_null free_block)) ;;;
  let! h := get in
  let m := mem h in
  let remaining_size := u64 (get_size m free_block - size) in
  let prev_block := get_prev m free_block in
  let next_block := get_next m free_block in
  assert (check_link m (heap_info h t) free_block prev_block next_block) ;;;
  let m := set_next free_block 0 (set_prev free_block 0 m) in
  (if remaining_size <=? MIN_SIZE then
     let m := on (negb (is_null next_block)) (set_prev next_block prev_block) m in
     let m := on (negb (is_null prev_block)) (set_next prev_block next_block) m in
     modify (set_mem m) ;;;
     when (free_block =? free_list (heap_info h t)) (modify (set_free_list t next_block))
   else
     let new_free := u64 (free_block + size) in
     let m := set_next new_free next_block (set_prev new_free prev_block m) in
     let m := on (negb (is_null prev_block)) (set_next prev_block new_free) m in
     let m := on (negb (is_null next_block)) (set_prev next_block new_free) m in
     let m := set_magic new_free FREE_MAGIC (set_size new_free remaining_size m) in
     let m := set_size free_block size m in
     modify (set_mem m) ;;;
     assert (negb (free_size (heap_info h t) <? size)) ;;;
     when (free_block =? free_list (heap_info h t)) (modify (set_free_list t new_free))) ;;;
  modify (fun h => set_free_size t (u64 (free_size (heap_info h t) - get_size (mem h) free_block)) h) ;;;
  ret free_block.

(** The search of [tegrabl_generic_malloc]: the first free block that is
    larger than [alloc_size]. *)
Fixpoint first_larger (fuel : nat) (m : memory) (free_block alloc_size : Z) : outcome Z :=
  match fuel with
  | O => Fuel
  | S fuel =>
      if is_null free_block then Ret 0
      else if negb (get_magic m free_block =? FREE_MAGIC) then Halt
      else if alloc_size <? get_size m free_block then Ret free_block
      else first_larger fuel m (get_next m free_block) alloc_size
  end.

(** A list of blocks of at least [MIN_SIZE] bytes inside the heap is not
    longer than this. *)
Definition list_fuel (i : tegrabl_heap_info) : nat := S (Z.to_nat (max_size i / MIN_SIZE)).

Definition tegrabl_generic_malloc (t size : Z) : M heap Z :=
  let! h := get in
  if (size =? 0) || (free_size (heap_info h t) <? size) then ret 0
  else
    let alloc_size := u64 (ROUND_UP size 8 + ALLOC_HDR) in
    if alloc_size <? size then ret 0
    else
      let alloc_size := Z.max alloc_size MIN_SIZE in
      let! free_block := lift (first_larger (list_fuel (heap_info h t)) (mem h)
                                 (free_list (heap_info h t)) alloc_size) in
      if is_null free_block then ret 0
      else
        let! alloc_block := tegrabl_heap_split_block t free_block alloc_size in
        modify (fun h => set_mem (set_magic alloc_block ALLOC_MAGIC
                                   (set_start alloc_block alloc_block (mem h))) h) ;;;
        ret (alloc_block + ALLOC_HDR).

Definition tegrabl_malloc (size : Z) : M heap Z := tegrabl_generic_malloc TEGRABL_HEAP_DEFAULT size.

(** The heap a request for [heap_type] is served from. *)
Definition served_by (h : heap) (heap_type : Z) : Z :=
  if is_null (free_list (heap_info h TEGRABL_HEAP_DMA)) then TEGRABL_HEAP_DEFAULT else heap_type.

Definition tegrabl_alloc (heap_type size : Z) : M heap Z :=
  let! h := get in
  if TEGRABL_HEAP_TYPE_MAX <=? heap_type then ret 0
  else tegrabl_generic_malloc (served_by h heap_type) size.

(** ** Release *)

Definition tegrabl_heap_merge_with_next (cur_block next_block : Z) (m : memory) : outcome memory :=
  let cur_mem_end := u64 (cur_block + get_size m cur_block) in
  if (cur_mem_end <? cur_block) || (next_block <? cur_mem_end) then Halt
  else if cur_mem_end =? next_block then
    let m := set_size cur_block (u64 (get_size m cur_block + get_size m next_block)) m in
    let m := set_next cur_block (get_next m next_block) m in
    let after := get_next m next_block in
    Ret (on (negb (is_null after)) (set_prev after cur_block) m)
  else Ret m.

(** Returns the previous block whenever there is one. *)
Definition tegrabl_heap_merge_blocks (free_block : Z) (m : memory) : outcome (Z * memory) :=
  let next := get_next m free_block in
  let prev := get_prev m free_block in
  let? m := (if is_null next then Ret m else tegrabl_heap_merge_with_next free_block next m) in
  if is_null prev then Ret (free_block, m)
  else let? m := tegrabl_heap_merge_with_next prev free_block m in Ret (prev, m).

(** The loop of [tegrabl_generic_free]. *)
Fixpoint merge_loop (fuel : nat) (tmp_free : Z) (m : memory) : outcome (Z * memory) :=
  match fuel with
  | O => Fuel
  | S fuel =>
      let? (free_block, m) := tegrabl_heap_merge_blocks tmp_free m in
      if free_block =? tmp_free then Ret (tmp_free, m) else merge_loop fuel free_block m
  end.

(** The free blocks around [ptr]. *)
Fixpoint find_place (fuel : nat) (m : memory) (ptr prev_block free_block : Z) : outcome (Z * Z) :=
  match fuel with
  | O => Fuel
  | S fuel =>
      if negb (is_null free_block) && (free_block <? ptr)
      then find_place fuel m ptr free_block (get_next m free_block)
      else Ret (prev_block, free_block)
  end.

Definition tegrabl_generic_free (t ptr : Z) : M heap Z :=
  if is_null ptr then ret 0
  else
    let! h := get in
    let alloc_block := ptr - ALLOC_HDR in
    assert (validate_allocated_block (mem h) (heap_info h t) alloc_block) ;;;
    let tmp_free := get_start (mem h) alloc_block in
    let free_size_ := get_size (mem h) alloc_block in
    let m := set_size tmp_free free_size_ (mem h) in
    let! (prev_block, free_block) :=
      lift (find_place (list_fuel (heap_info h t)) m ptr 0 (free_list (heap_info h t))) in
    let m := on (negb (is_null prev_block)) (set_next prev_block tmp_free) m in
    let m := set_magic tmp_free FREE_MAGIC (set_next tmp_free free_block (set_prev tmp_free prev_block m)) in
    let m := on (negb (is_null free_block)) (set_prev free_block tmp_free) m in
    let! (tmp_free, m) := lift (merge_loop (S (list_fuel (heap_info h t))) tmp_free m) in
    modify (set_mem m) ;;;
    modify (fun h => set_free_size t (u64 (free_size (heap_info h t) + free_size_)) h) ;;;
    ret tmp_free.

Definition update_free_list_head (t free_block : Z) : M heap unit :=
  let! h := get in
  let head := free_list (heap_info h t) in
  when (is_null head || (free_block <? head)) (modify (set_free_list t free_block)).

Definition tegrabl_dealloc (heap_type ptr : Z) : M heap unit :=
  let! h := get in
  if TEGRABL_HEAP_TYPE_MAX <=? heap_type then ret tt
  else
    let type := served_by h heap_type in
    let! tmp_free := tegrabl_generic_free type ptr in
    if is_null tmp_free then ret tt else update_free_list_head type tmp_free.

Definition tegrabl_free (ptr : Z) : M heap unit := tegrabl_dealloc TEGRABL_HEAP_DEFAULT ptr.

(** [memset(mem, 0, n)] *)
Definition zero_fill (a n : Z) (m : memory) : memory :=
  fun x => if (a <=? x) && (x <? a + n) then 0 else m x.

Definition tegrabl_calloc (nmemb size : Z) : M heap Z :=
  let total_size := u64 (size * nmemb) in
  if size =? 0 then ret 0
  else
    let! h := get in
    if max_size (heap_info h TEGRABL_HEAP_DEFAULT) / size <? nmemb then ret 0
    else
      assert (total_size / size =? nmemb) ;;;
      let! p := tegrabl_malloc total_size in
      when (negb (is_null p)) (modify (fun h => set_mem (zero_fill p total_size (mem h)) h)) ;;;
      ret p.

(** ** Aligned allocation *)

Fixpoint find_aligned (fuel : nat) (m : memory) (free_block alignment alloc_size : Z) : outcome Z :=
  match fuel with
  | O => Fuel
  | S fuel =>
      if is_null free_block then Ret 0
      else if negb (get_magic m free_block =? FREE_MAGIC) then Halt
      else
        let block_size := get_size m free_block in
        if block_size <? alloc_size then find_aligned fuel m (get_next m free_block) alignment alloc_size
        else if alignment =? 0 then Undef
        else
          let address := u64 (free_block + ALLOC_HDR) in
          let align_size := alignment - address mod alignment in
          if block_size <? u64 (align_size + alloc_size)
          then find_aligned fuel m (get_next m free_block) alignment alloc_size
          else Ret free_block
  end.

Definition get_free_block (h : heap) (t alignment alloc_size : Z) : outcome Z :=
  find_aligned (list_fuel (heap_info h t)) (mem h) (free_list (heap_info h t)) alignment alloc_size.

Definition tegrabl_memalign_generic (t alignment size : Z) : M heap Z :=
  if size =? 0 then ret 0
  else
    let size := ROUND_UP size 8 in
    let alloc_size := Z.max (u64 (size + ALLOC_HDR)) MIN_SIZE in
    let! h := get in
    let! free_block := lift (get_free_block h t alignment alloc_size) in
    if is_null free_block then ret 0
    else
      let prev_block := get_prev (mem h) free_block in
      let next_block := get_next (mem h) free_block in
      let address := u64 (free_block + ALLOC_HDR) in
      let align_size := alignment - address mod alignment in
      let! ptr := tegrabl_heap_split_block t free_block (u64 (alloc_size + align_size)) in
      assert (ptr =? free_block) ;;;
      let! h := get in
      let orig_size := get_size (mem h) ptr in
      let found := ptr + ALLOC_HDR + align_size in
      let alloc_block := ptr + align_size in
      modify (fun h => set_mem (set_start alloc_block ptr
                        (set_magic alloc_block ALLOC_MAGIC (set_size alloc_block orig_size (mem h)))) h) ;;;
      (if align_size <? MIN_SIZE then ret tt
       else
         let! h := get in
         let next_block :=
           if is_null prev_block && is_null next_block then free_list (heap_info h t)
           else if is_null next_block then get_next (mem h) prev_block
           else if negb (get_prev (mem h) next_block =? prev_block) then get_prev (mem h) next_block
           else next_block in
         let m := set_start alloc_block (ptr + align_size) (set_size alloc_block alloc_size (mem h)) in
         let m := set_magic free_block FREE_MAGIC (set_size free_block align_size
                    (set_prev free_block prev_block (set_next free_block next_block m))) in
         modify (set_mem m) ;;;
         modify (fun h => set_free_size t (u64 (free_size (heap_info h t) + align_size)) h) ;;;
         assert (is_null next_block || (get_prev m next_block =? prev_block)) ;;;
         let m := on (negb (is_null next_block)) (set_prev next_block free_block) m in
         assert (is_null prev_block || (get_next m prev_block =? next_block)) ;;;
         let m := on (negb (is_null prev_block)) (set_next prev_block free_block) m in
         modify (set_mem m) ;;;
         update_free_list_head t free_block) ;;;
      assert (found mod alignment =? 0) ;;;
      ret found.

Definition is_size_alignment_valid (i : tegrabl_heap_info) (alignment size : Z) : bool :=
  let max_size_ := u64 (size + alignment) in
  negb (max_size i <? size) && negb (max_size i <? alignment) && negb (max_size i <? max_size_)
  && negb (max_size_ <? size) && negb (max_size_ <? alignment).

Definition tegrabl_alloc_align (heap_type alignment size : Z) : M heap Z :=
  let! h := get in
  if TEGRABL_HEAP_TYPE_MAX <=? heap_type then ret 0
  else
    let type := served_by h heap_type in
    if negb (is_size_alignment_valid (heap_info h type) alignment size) then ret 0
    else tegrabl_memalign_generic type alignment size.

Definition tegrabl_memalign (alignment size : Z) : M heap Z :=
  let! h := get in
  if negb (is_size_alignment_valid (heap_info h TEGRABL_HEAP_DEFAULT) alignment size) then ret 0
  else tegrabl_memalign_generic TEGRABL_HEAP_DEFAULT alignment size.
