(* ===== verification/HeapSpec.v ===== *)
(** * The heap: free lists and their operations

    The free list of lib/malloc/tegrabl_malloc.c as a sorted list of extents
    kept in memory as a doubly linked list, and what allocation and release do
    to it. *)
From S2P Require Import Prelude Errors Heap.

(** ** Reading what was stored *)

Lemma stm_out n m a v x : (x < a \/ a + Z.of_nat n <= x) -> stm n m a v x = m x.
Proof.
  revert m a v. induction n as [|n IH]; intros m a v H; cbn [stm]; [done|].
  rewrite IH by lia. by destruct (Z.eqb_spec x a); [lia|].
Qed.

Lemma ldm_ext n m m' a : (forall x, a <= x < a + Z.of_nat n -> m' x = m x) -> ldm n m' a = ldm n m a.
Proof.
  revert a. induction n as [|n IH]; intros a H; cbn [ldm]; [done|].
  rewrite H by lia. do 2 f_equal. apply IH. intros. apply H. lia.
Qed.

Lemma ldm_stm_same n m a v : ldm n (stm n m a v) a = v mod 256 ^ Z.of_nat n.
Proof.
  revert m a v. induction n as [|n IH]; intros m a v.
  - simpl. by rewrite Z.mod_1_r.
  - cbn [stm ldm]. rewrite stm_out by lia. rewrite Z.eqb_refl, IH.
    rewrite Nat2Z.inj_succ, Z.pow_succ_r by lia. rewrite Z.rem_mul_r by lia. lia.
Qed.

Lemma ldm_stm_ne k n m a v b :
  (b + Z.of_nat k <= a \/ a + Z.of_nat n <= b) -> ldm k (stm n m a v) b = ldm k m b.
Proof. intros H. apply ldm_ext. intros x Hx. apply stm_out. lia. Qed.

Lemma ldm8_same m a v : 0 <= v < 2 ^ 64 -> ldm 8 (stm 8 m a v) a = v.
Proof. intros H. rewrite ldm_stm_same. by apply Z.mod_small. Qed.

Lemma ldm4_same m a v : 0 <= v < 2 ^ 32 -> ldm 4 (stm 4 m a v) a = v.
Proof. intros H. rewrite ldm_stm_same. by apply Z.mod_small. Qed.

Ltac fields := unfold get_magic, get_size, get_prev, get_next, get_start,
  set_magic, set_size, set_prev, set_next, set_start in *.

(** Reads after stores, the addresses compared by [lia]. *)
Ltac reads := fields;
  repeat first
    [ rewrite ldm8_same by lia
    | rewrite ldm4_same by (unfold FREE_MAGIC, ALLOC_MAGIC; lia)
    | rewrite ldm_stm_ne by lia ].

(** A byte outside everything that was stored. *)
Ltac outs := fields; repeat rewrite stm_out by lia.

(** ** Free lists *)

(** A free block and its size. *)
Definition extent : Type := Z * Z.

Definition head_or (l : list extent) (d : Z) : Z := match l with [] => d | (b, _) :: _ => b end.
Fixpoint last_or (l : list extent) (d : Z) : Z :=
  match l with [] => d | (b, _) :: l' => last_or l' b end.

(** The blocks of [l], linked from [prev] to [nxt]. *)
Fixpoint seg (m : memory) (prev : Z) (l : list extent) (nxt : Z) : Prop :=
  match l with
  | [] => True
  | (b, z) :: l' =>
      get_magic m b = FREE_MAGIC /\ get_size m b = z /\ get_prev m b = prev /\
      get_next m b = head_or l' nxt /\ seg m b l' nxt
  end.

(** Blocks in ascending order between [lo] and [hi], no two adjacent. *)
Fixpoint packed (lo : Z) (l : list extent) (hi : Z) : Prop :=
  match l with
  | [] => True
  | (b, z) :: l' => lo <= b /\ MIN_SIZE <= z /\ b + z <= hi /\ packed (b + z + 1) l' hi
  end.

Definition total (l : list extent) : Z := foldr (fun e s => e.2 + s) 0 l.

Lemma last_or_snoc l b z d : last_or (l ++ [(b, z)]) d = b.
Proof. revert d. induction l as [|[c y] l IH]; intros d; [done|]. apply IH. Qed.

Lemma head_or_app l1 l2 d : head_or (l1 ++ l2) d = head_or l1 (head_or l2 d).
Proof. by destruct l1 as [|[]]. Qed.

Lemma total_app l1 l2 : total (l1 ++ l2) = total l1 + total l2.
Proof. induction l1 as [|e l IH]; simpl; [done|]. unfold total in *. simpl. lia. Qed.

Lemma total_cons b z l : total ((b, z) :: l) = z + total l.
Proof. reflexivity. Qed.

Lemma seg_app m p l1 l2 n :
  seg m p (l1 ++ l2) n <-> seg m p l1 (head_or l2 n) /\ seg m (last_or l1 p) l2 n.
Proof.
  revert p. induction l1 as [|[b z] l1 IH]; intros p; simpl; [tauto|].
  rewrite IH, head_or_app. tauto.
Qed.

Lemma packed_weaken lo lo' l hi hi' : lo' <= lo -> hi <= hi' -> packed lo l hi -> packed lo' l hi'.
Proof.
  revert lo lo'. induction l as [|[b z] l IH]; intros lo lo' Hlo Hhi; simpl; [done|].
  intros (H1 & H2 & H3 & H4). split_and!; try lia. eapply IH; [..|exact H4]; lia.
Qed.

Lemma packed_app lo l1 b z l2 hi :
  packed lo (l1 ++ (b, z) :: l2) hi <->
  packed lo l1 (b - 1) /\ lo <= b /\ MIN_SIZE <= z /\ b + z <= hi /\ packed (b + z + 1) l2 hi.
Proof.
  unfold MIN_SIZE. revert lo. induction l1 as [|[c y] l1 IH]; intros lo; cbn [app packed].
  - unfold MIN_SIZE. tauto.
  - rewrite IH. unfold MIN_SIZE. split; intros; split_and!; try tauto; lia.
Qed.

Lemma packed_total lo l hi : packed lo l hi -> l <> [] -> total l <= hi - lo.
Proof.
  revert lo. induction l as [|[b z] l IH]; intros lo Hp Hne; [done|].
  destruct Hp as (H1 & H2 & H3 & H4). rewrite total_cons. unfold MIN_SIZE in *.
  destruct l as [|e l]; [cbn; lia|]. specialize (IH _ H4 ltac:(done)). lia.
Qed.

(** The elements of a packed list are inside its bounds. *)
Lemma packed_in lo l hi b z : packed lo l hi -> (b, z) ∈ l -> lo <= b /\ MIN_SIZE <= z /\ b + z <= hi.
Proof.
  revert lo. induction l as [|[c y] l IH]; intros lo Hp Hin; [by apply elem_of_nil in Hin|].
  destruct Hp as (H1 & H2 & H3 & H4). apply elem_of_cons in Hin as [[= -> ->] | Hin]; [lia|].
  destruct (IH _ H4 Hin) as (?&?&?). unfold MIN_SIZE in *. lia.
Qed.

Lemma packed_length lo l hi : packed lo l hi -> l <> [] -> MIN_SIZE * Z.of_nat (length l) <= hi - lo.
Proof.
  revert lo. induction l as [|[b z] l IH]; intros lo Hp Hne; [done|].
  destruct Hp as (H1 & H2 & H3 & H4). unfold MIN_SIZE in *. simpl.
  destruct l as [|e l]; [simpl; lia|]. specialize (IH _ H4 ltac:(done)). lia.
Qed.

Lemma last_in l b d : last_or l d = b -> l <> [] -> exists z l0, l = l0 ++ [(b, z)].
Proof.
  intros Hl Hne. destruct l as [|e l _] using rev_ind; [done|]. destruct e as [c z].
  rewrite last_or_snoc in Hl. subst. by exists z, l.
Qed.

(** Stores outside the region of a list leave it alone. *)
Lemma seg_region m m' p l n lo hi :
  packed lo l hi -> (forall x, lo <= x < hi -> m' x = m x) -> seg m p l n -> seg m' p l n.
Proof.
  revert p lo. induction l as [|[b z] l IH]; intros p lo Hp Hx; cbn [seg packed] in *; [done|].
  destruct Hp as (H1 & H2 & H3 & H4). unfold MIN_SIZE in *. intros (S1 & S2 & S3 & S4 & S5). fields.
  rewrite !(ldm_ext _ m m') by (intros; apply Hx; lia). split_and!; try done.
  eapply IH; [exact H4| |exact S5]. intros. apply Hx. lia.
Qed.

(** Redirecting the link behind the last block, if there is one. *)
Definition link_next (b v : Z) (m : memory) : memory := on (negb (is_null b)) (set_next b v) m.
Definition link_prev (b v : Z) (m : memory) : memory := on (negb (is_null b)) (set_prev b v) m.

Lemma link_next_out b v m x : (b = 0 \/ x < b + 24 \/ b + 32 <= x) -> link_next b v m x = m x.
Proof. intros H. unfold link_next, on, is_null. case_if; zbool; [|done]. by outs. Qed.

Lemma link_prev_out b v m x : (b = 0 \/ x < b + 16 \/ b + 24 <= x) -> link_prev b v m x = m x.
Proof. intros H. unfold link_prev, on, is_null. case_if; zbool; [|done]. by outs. Qed.

Lemma seg_link_next m p l n lo hi v :
  packed lo l hi -> 0 < lo -> 0 <= v < 2 ^ 64 -> seg m p l n -> seg (link_next (last_or l 0) v m) p l v.
Proof.
  intros Hp Hlo Hv Hs. destruct l as [|[b z] l0 _] using rev_ind; [done|].
  rewrite last_or_snoc. apply packed_app in Hp as (Hp & Hb & Hz & Hh & _).
  apply seg_app in Hs as [Hs1 Hs2]. cbn [seg head_or] in Hs1, Hs2. destruct Hs2 as (S1 & S2 & S3 & _).
  apply seg_app. split.
  - eapply (seg_region m); [exact Hp| |exact Hs1]. intros. apply link_next_out. lia.
  - cbn [seg head_or]. unfold link_next, on, is_null. case_if; zbool; [|lia].
    split_and!; try done; reads; done.
Qed.

Lemma seg_link_prev m p l n lo hi v :
  packed lo l hi -> 0 < lo -> 0 <= v < 2 ^ 64 -> seg m p l n -> seg (link_prev (head_or l 0) v m) v l n.
Proof.
  intros Hp Hlo Hv Hs. destruct l as [|[b z] l]; [done|]. cbn [head_or].
  destruct Hp as (Hb & Hz & Hh & Hp). cbn [seg] in Hs. destruct Hs as (S1 & S2 & S3 & S4 & S5).
  unfold MIN_SIZE in *. cbn [seg]. unfold link_prev, on, is_null. case_if; zbool; [|lia].
  split_and!; try (reads; done). eapply (seg_region m); [exact Hp| |exact S5]. intros. outs. done.
Qed.

(** ** A consistent heap *)

(** [l] are the free blocks of the heap [t]. *)
Record heap_ok (h : heap) (t : Z) (l : list extent) : Prop := {
  ok_start : 0 < start (heap_info h t);
  ok_end : end_ (heap_info h t) = start (heap_info h t) + max_size (heap_info h t);
  ok_size : 0 <= max_size (heap_info h t);
  ok_word : end_ (heap_info h t) < 2 ^ 64;
  ok_head : free_list (heap_info h t) = head_or l 0;
  ok_seg : seg (mem h) 0 l 0;
  ok_packed : packed (start (heap_info h t)) l (end_ (heap_info h t));
  ok_free : free_size (heap_info h t) = total l;
}.

(** The first block larger than [k], with the blocks before and after it. *)
Fixpoint first_fit (k : Z) (l : list extent) : option (list extent * extent * list extent) :=
  match l with
  | [] => None
  | (b, z) :: l' =>
      if k <? z then Some ([], (b, z), l')
      else match first_fit k l' with
           | Some (l1, e, l2) => Some ((b, z) :: l1, e, l2)
           | None => None
           end
  end.

Lemma first_fit_spec k l l1 e l2 :
  first_fit k l = Some (l1, e, l2) -> l = l1 ++ e :: l2 /\ k < e.2 /\ Forall (fun e => e.2 <= k) l1.
Proof.
  revert l1. induction l as [|[b z] l IH]; intros l1; cbn [first_fit]; [done|].
  destruct (k <? z) eqn:E; zbool.
  - intros [= <- <- <-]. by split_and!.
  - destruct (first_fit k l) as [[[l1' e'] l2']|] eqn:F; [|done]. intros [= <- <- <-].
    destruct (IH l1' eq_refl) as (-> & He & Hf). split_and!; try done. by constructor.
Qed.

Lemma first_larger_spec fuel m p l k lo hi :
  (length l < fuel)%nat -> packed lo l hi -> 0 < lo -> seg m p l 0 ->
  first_larger fuel m (head_or l 0) k =
    Ret (match first_fit k l with Some (_, (b, _), _) => b | None => 0 end).
Proof.
  revert fuel p lo. induction l as [|[b z] l IH]; intros fuel p lo Hf Hp Hlo Hs;
    (destruct fuel as [|fuel]; [simpl in Hf; lia|]); cbn [first_larger head_or first_fit]; [done|].
  destruct Hp as (Hb & Hz & Hh & Hp). destruct Hs as (S1 & S2 & S3 & S4 & S5). unfold MIN_SIZE in *.
  unfold is_null. destruct (Z.eqb_spec b 0); [lia|]. rewrite S1, S2, Z.eqb_refl. cbn [negb].
  destruct (k <? z) eqn:E; [done|]. rewrite S4, (IH fuel b (b + z + 1)); [|simpl in Hf; lia|done|lia|done].
  by destruct (first_fit k l) as [[[? []] ?]|].
Qed.

Lemma fuel_enough h t l : heap_ok h t l -> (length l < list_fuel (heap_info h t))%nat.
Proof.
  intros Hok. unfold list_fuel. destruct l as [|e l]; [simpl; lia|].
  pose proof (packed_length _ _ _ (ok_packed _ _ _ Hok) ltac:(done)) as Hl.
  rewrite (ok_end _ _ _ Hok) in Hl. apply Nat.lt_succ_r. apply Nat2Z.inj_le.
  rewrite Z2Nat.id; [apply Z.div_le_lower_bound; unfold MIN_SIZE in *; lia|].
  apply Z.div_pos; [apply (ok_size _ _ _ Hok)|unfold MIN_SIZE; lia].
Qed.

Lemma head_bound lo l hi : packed lo l hi -> 0 < lo -> hi < 2 ^ 64 -> 0 <= head_or l 0 < 2 ^ 64.
Proof. destruct l as [|[b z] l]; simpl; [lia|]. intros (?&?&?&?) ? ?. unfold MIN_SIZE in *. lia. Qed.

Lemma last_bound lo l hi : packed lo l hi -> 0 < lo -> hi < 2 ^ 64 -> 0 <= last_or l 0 < 2 ^ 64.
Proof.
  intros Hp Hlo Hhi. destruct l as [|[b z] l _] using rev_ind; [simpl; lia|]. rewrite last_or_snoc.
  apply (packed_in _ _ _ b z) in Hp; [|apply elem_of_app; right; by constructor]. unfold MIN_SIZE in *. lia.
Qed.

(** The links around a block of a list. *)
Lemma block_links m l1 b z l2 n :
  seg m 0 (l1 ++ (b, z) :: l2) n ->
  get_magic m b = FREE_MAGIC /\ get_size m b = z /\
  get_prev m b = last_or l1 0 /\ get_next m b = head_or l2 n /\
  seg m 0 l1 b /\ seg m b l2 n.
Proof. rewrite seg_app. cbn [seg head_or]. tauto. Qed.

Lemma next_of_last m p l n : seg m p l n -> l <> [] -> get_next m (last_or l 0) = n.
Proof.
  intros Hs Hne. destruct l as [|[b z] l _] using rev_ind; [done|]. rewrite last_or_snoc.
  apply seg_app in Hs as [_ (_ & _ & _ & Hn & _)]. exact Hn.
Qed.

Lemma prev_of_head m p l n : seg m p l n -> l <> [] -> get_prev m (head_or l 0) = p.
Proof. destruct l as [|[b z] l]; [done|]. by intros (_ & _ & Hp & _). Qed.

Lemma check_link_ok h t l1 b z l2 :
  heap_ok h t (l1 ++ (b, z) :: l2) ->
  check_link (mem h) (heap_info h t) b (last_or l1 0) (head_or l2 0) = true.
Proof.
  intros [H1 H2 H3 H4 H5 Hs Hp H8]. apply block_links in Hs as (S1 & S2 & S3 & S4 & Sl & Sr).
  apply packed_app in Hp as (P1 & P2 & P3 & P4 & P5). unfold MIN_SIZE in *.
  unfold check_link. rewrite S2. rewrite wrapw_small by (unfold in_word; lia).
  replace (b + z <? b) with false by lia. replace (b <? start (heap_info h t)) with false by lia.
  replace (end_ (heap_info h t) <? b + z) with false by lia. cbn [negb andb orb].
  apply andb_true_iff. split; apply negb_true_iff.
  - destruct (is_null (last_or l1 0)) eqn:E; [done|]. cbn [negb andb].
    rewrite (next_of_last _ _ _ _ Sl), Z.eqb_refl; [done|]. by intros ->.
  - destruct (is_null (head_or l2 0)) eqn:E; [done|]. cbn [negb andb].
    rewrite (prev_of_head _ _ _ _ Sr), Z.eqb_refl; [done|]. by intros ->.
Qed.

(** ** Splitting a block *)

(** What is granted for a request of [size] from a block of [z] bytes, and
    what remains of the list. *)
Definition granted (z size : Z) : Z := if z - size <=? MIN_SIZE then z else size.
Definition rest_of (b z size : Z) : list extent :=
  if z - size <=? MIN_SIZE then [] else [(b + size, z - size)].

(** Nothing outside the free blocks changes. *)
Definition untouched (m m' : memory) (l : list extent) : Prop :=
  forall x, (forall b z, (b, z) ∈ l -> x < b \/ b + z <= x) -> m' x = m x.

Lemma total_pos lo l hi : packed lo l hi -> 0 <= total l.
Proof.
  revert lo. induction l as [|[b z] l IH]; intros lo; [simpl; lia|]. intros (H1 & H2 & H3 & H4).
  specialize (IH _ H4). unfold MIN_SIZE, total in *. simpl. lia.
Qed.

Lemma out_last l b z l2 (x : Z) :
  (forall b' z', (b', z') ∈ l ++ (b, z) :: l2 -> x < b' \/ b' + z' <= x) ->
  x < b \/ b + z <= x.
Proof. intros H. apply H. apply elem_of_app. right. by constructor. Qed.

Lemma link_next_untouched lo l hi rest v m x :
  packed lo l hi -> (forall b z, (b, z) ∈ l ++ rest -> x < b \/ b + z <= x) ->
  link_next (last_or l 0) v m x = m x.
Proof.
  intros Hp Hx. destruct l as [|[b z] l _] using rev_ind; [done|]. rewrite last_or_snoc.
  assert (Hin : (b, z) ∈ l ++ [(b, z)]) by (apply elem_of_app; right; by constructor).
  destruct (packed_in _ _ _ _ _ Hp Hin) as (_ & Hz & _). unfold MIN_SIZE in *.
  apply link_next_out. destruct (Hx b z) as [?|?]; [apply elem_of_app; by left|lia..].
Qed.

Lemma link_prev_untouched lo l hi rest v m x :
  packed lo l hi -> (forall b z, (b, z) ∈ rest ++ l -> x < b \/ b + z <= x) ->
  link_prev (head_or l 0) v m x = m x.
Proof.
  intros Hp Hx. destruct l as [|[b z] l]; [done|]. cbn [head_or].
  assert (Hin : (b, z) ∈ (b, z) :: l) by constructor.
  destruct (packed_in _ _ _ _ _ Hp Hin) as (_ & Hz & _). unfold MIN_SIZE in *.
  apply link_prev_out. destruct (Hx b z) as [?|?]; [apply elem_of_app; by right|lia..].
Qed.

(** The other heap and the bounds of this one stay as they are. *)
Definition same_bounds (h h' : heap) (t : Z) : Prop :=
  (forall u, u <> t -> heap_info h' u = heap_info h u) /\
  start (heap_info h' t) = start (heap_info h t) /\ end_ (heap_info h' t) = end_ (heap_info h t) /\
  max_size (heap_info h' t) = max_size (heap_info h t).

(** A consistent heap from its parts. *)
Lemma heap_ok_intro h h' t l l' :
  heap_ok h t l -> same_bounds h h' t -> seg (mem h') 0 l' 0 ->
  packed (start (heap_info h t)) l' (end_ (heap_info h t)) ->
  free_size (heap_info h' t) = total l' -> free_list (heap_info h' t) = head_or l' 0 ->
  heap_ok h' t l'.
Proof.
  intros [H1 H2 H3 H4 H5 H6 H7 H8] (_ & E1 & E2 & E3) Hs Hp Hf Hl.
  constructor; rewrite ?E1, ?E2, ?E3; done.
Qed.

Lemma same_bounds_trans h1 h2 h3 t : same_bounds h1 h2 t -> same_bounds h2 h3 t -> same_bounds h1 h3 t.
Proof.
  intros (U1 & A1 & A2 & A3) (U2 & B1 & B2 & B3). split; [intros u Hu; by rewrite U2, U1|].
  rewrite B1, B2, B3. done.
Qed.

(** Updates of the heap's record that keep its bounds. *)
Lemma bounds_set_mem m h t : same_bounds h (set_mem m h) t.
Proof. by split_and!. Qed.

Lemma bounds_free_list b h t : same_bounds h (set_free_list t b h) t.
Proof. split; [intros u Hu|]; cbn; [by destruct (Z.eqb_spec u t)|by rewrite Z.eqb_refl]. Qed.

Lemma bounds_free_size v h t : same_bounds h (set_free_size t v h) t.
Proof. split; [intros u Hu|]; cbn; [by destruct (Z.eqb_spec u t)|by rewrite Z.eqb_refl]. Qed.
#[local] Hint Resolve bounds_set_mem bounds_free_list bounds_free_size : core.

(** The memory [tegrabl_heap_split_block] leaves. *)
Definition split_mem (m : memory) (b z size pb nb : Z) : memory :=
  let m := set_next b 0 (set_prev b 0 m) in
  if z - size <=? MIN_SIZE then link_next pb nb (link_prev nb pb m)
  else
    let m := set_next (b + size) nb (set_prev (b + size) pb m) in
    let m := link_prev nb (b + size) (link_next pb (b + size) m) in
    set_size b size (set_magic (b + size) FREE_MAGIC (set_size (b + size) (z - size) m)).

Section Split.
Context (m : memory) (lo hi : Z) (l1 l2 : list extent) (b z size : Z).
Context (Hlo : 0 < lo) (Hhi : hi < 2 ^ 64) (Hsize : MIN_SIZE <= size <= z).
Context (Hseg : seg m 0 (l1 ++ (b, z) :: l2) 0) (Hpk : packed lo (l1 ++ (b, z) :: l2) hi).

Let pb := last_or l1 0.
Let nb := head_or l2 0.
Let m' := split_mem m b z size pb nb.

Lemma split_facts :
  (packed lo l1 (b - 1) /\ lo <= b /\ 32 <= z /\ b + z <= hi /\ packed (b + z + 1) l2 hi) /\
  0 <= pb < 2 ^ 64 /\ 0 <= nb < 2 ^ 64 /\ (pb = 0 \/ pb + 32 < b) /\ (nb = 0 \/ b + z < nb).
Proof.
  pose proof Hpk as Hp. apply packed_app in Hp as (P1 & P2 & P3 & P4 & P5). unfold MIN_SIZE in *.
  split; [done|]. split; [eapply last_bound; [exact P1|lia..]|]. split; [eapply head_bound; [exact P5|lia..]|].
  split.
  - unfold pb. destruct l1 as [|[c y] l _] using rev_ind; [by left|right]. rewrite last_or_snoc.
    apply (packed_in _ _ _ c y) in P1; [unfold MIN_SIZE in *; lia|]. apply elem_of_app. right. by constructor.
  - unfold nb. destruct l2 as [|[c y] l]; [by left|right]. simpl in P5. simpl. lia.
Qed.

Lemma split_seg : seg m' 0 (l1 ++ rest_of b z size ++ l2) 0.
Proof.
  destruct split_facts as ((P1 & P2 & P3 & P4 & P5) & Hpb & Hnb & Dp & Dn).
  pose proof (block_links _ _ _ _ _ _ Hseg) as (S1 & S2 & S3 & S4 & Sl & Sr).
  unfold m', split_mem, rest_of, MIN_SIZE in *. destruct (Z.leb_spec (z - size) 32); cbn [app].
  - apply seg_app. fold nb pb. split.
    + eapply seg_link_next; [exact P1|lia|done|]. eapply (seg_region m); [exact P1| |exact Sl].
      intros x Hx. rewrite link_prev_out by lia. by outs.
    + eapply (seg_region (link_prev nb pb (set_next b 0 (set_prev b 0 m)))); [exact P5| |].
      { intros x Hx. apply link_next_out. lia. }
      eapply seg_link_prev; [exact P5|lia|done|]. eapply (seg_region m); [exact P5| |exact Sr].
      intros x Hx. by outs.
  - apply seg_app. cbn [head_or]. set (c := b + size) in *.
    set (m0 := set_next c nb (set_prev c pb (set_next b 0 (set_prev b 0 m)))).
    split.
    + eapply (seg_region (link_next pb c m0)); [exact P1| |].
      { intros x Hx. outs. apply link_prev_out. lia. }
      eapply seg_link_next; [exact P1|lia|lia|]. eapply (seg_region m); [exact P1| |exact Sl].
      intros x Hx. unfold m0. by outs.
    + assert (Hfr : forall x, c <= x < c + 32 -> link_prev nb c (link_next pb c m0) x = m0 x).
      { intros x Hx. rewrite link_prev_out, link_next_out by lia. done. }
      split_and!; try (reads; done).
      * reads. rewrite (ldm_ext 8 m0) by (intros; apply Hfr; lia). unfold m0. reads. done.
      * reads. rewrite (ldm_ext 8 m0) by (intros; apply Hfr; lia). unfold m0. reads. done.
      * eapply (seg_region (link_prev nb c (link_next pb c m0))); [exact P5| |].
        { intros x Hx. by outs. }
        eapply seg_link_prev; [exact P5|lia|lia|]. eapply (seg_region m); [exact P5| |exact Sr].
        intros x Hx. rewrite link_next_out by lia. unfold m0. by outs.
Qed.

Lemma split_packed : packed lo (l1 ++ rest_of b z size ++ l2) hi.
Proof.
  destruct split_facts as ((P1 & P2 & P3 & P4 & P5) & _). unfold rest_of, MIN_SIZE in *.
  destruct (Z.leb_spec (z - size) 32); cbn [app].
  - destruct l2 as [|[c y] l]; [rewrite app_nil_r; eapply packed_weaken; [..|exact P1]; lia|].
    cbn [packed] in P5. unfold MIN_SIZE in P5. apply packed_app. unfold MIN_SIZE.
    split_and!; try lia; try tauto. eapply packed_weaken; [..|exact P1]; lia.
  - apply packed_app. unfold MIN_SIZE. split_and!; try lia.
    + eapply packed_weaken; [..|exact P1]; lia.
    + eapply packed_weaken; [..|exact P5]; lia.
Qed.

Lemma split_size : get_size m' b = granted z size.
Proof.
  destruct split_facts as ((P1 & P2 & P3 & P4 & P5) & Hpb & Hnb & Dp & Dn).
  pose proof (block_links _ _ _ _ _ _ Hseg) as (S1 & S2 & _).
  unfold m', split_mem, granted, MIN_SIZE in *. destruct (Z.leb_spec (z - size) 32).
  - fields. rewrite (ldm_ext 8 m); [done|]. intros x Hx. rewrite link_next_out, link_prev_out by lia. by outs.
  - reads. done.
Qed.

Lemma split_untouched : untouched m m' (l1 ++ (b, z) :: l2).
Proof.
  destruct split_facts as ((P1 & P2 & P3 & P4 & P5) & _). intros x Hx.
  pose proof (out_last _ _ _ _ _ Hx) as Hb. unfold m', split_mem, MIN_SIZE in *.
  assert (Hp : forall v m0, link_next pb v m0 x = m0 x) by (intros; by eapply link_next_untouched).
  assert (Hn : forall v m0, link_prev nb v m0 x = m0 x).
  { intros. eapply (link_prev_untouched _ l2 _ (l1 ++ [(b, z)])); [exact P5|]. by rewrite <- app_assoc. }
  destruct (Z.leb_spec (z - size) 32).
  - rewrite Hp, Hn. by outs.
  - outs. rewrite Hn, Hp. by outs.
Qed.
End Split.

Lemma total_rest b z size : z = granted z size + total (rest_of b z size).
Proof. unfold granted, rest_of. destruct (_ <=? _); unfold total; simpl; lia. Qed.

(** The head of the list moves with its first block. *)
Lemma head_is_block lo l1 b z l2 hi :
  packed lo (l1 ++ (b, z) :: l2) hi -> (b =? head_or (l1 ++ (b, z) :: l2) 0) = bool_decide (l1 = []).
Proof.
  intros Hp. destruct l1 as [|[c y] l1]; cbn [app head_or].
  - by rewrite Z.eqb_refl.
  - apply (packed_app _ ((c, y) :: l1)) in Hp as (Hp & _). cbn [packed] in Hp. unfold MIN_SIZE in *.
    rewrite bool_decide_eq_false_2 by done. lia.
Qed.

(** The record of the heap after a split. *)
Definition split_heap (h : heap) (t b z size : Z) (l1 l2 : list extent) : heap :=
  let h1 := set_mem (split_mem (mem h) b z size (last_or l1 0) (head_or l2 0)) h in
  let h2 := if b =? free_list (heap_info h t) then set_free_list t (head_or (rest_of b z size ++ l2) 0) h1 else h1 in
  set_free_size t (u64 (free_size (heap_info h2 t) - get_size (mem h2) b)) h2.

Lemma split_block_eq h t l1 b z l2 size :
  heap_ok h t (l1 ++ (b, z) :: l2) -> MIN_SIZE <= size <= z ->
  tegrabl_heap_split_block t b size h = (Ret b, split_heap h t b z size l1 l2).
Proof.
  intros Hok Hsz. pose proof (check_link_ok _ _ _ _ _ _ Hok) as Hck.
  pose proof Hok as [H1 H2 H3 H4 H5 Hs Hp H8].
  pose proof (block_links _ _ _ _ _ _ Hs) as (S1 & S2 & S3 & S4 & Sl & Sr).
  destruct (split_facts _ _ _ _ _ _ _ _ H1 H4 Hsz Hs Hp) as ((P1 & P2 & P3 & P4 & P5) & _).
  assert (Htot : total l1 + (z + total l2) = free_size (heap_info h t)).
  { rewrite H8, total_app. unfold total. simpl. lia. }
  assert (Hpos : 0 <= total l1 /\ 0 <= total l2) by (split; eapply total_pos; eassumption).
  unfold tegrabl_heap_split_block, bind, assert, get, modify, when, is_null, MIN_SIZE in *.
  destruct (Z.eqb_spec b 0); [lia|]. cbn [negb ret]. rewrite S2, S3, S4, Hck.
  rewrite (wrapw_small 64 (z - size)) by (unfold in_word; lia).
  rewrite (wrapw_small 64 (b + size)) by (unfold in_word; lia).
  unfold split_heap, split_mem, rest_of, MIN_SIZE.
  destruct (z - size <=? 32); cbn [ret app].
  - unfold set_mem at 1. cbn [heap_info]. by destruct (b =? free_list (heap_info h t)).
  - cbn [heap_info set_mem]. replace (free_size (heap_info h t) <? size) with false by lia. cbn [negb ret].
    by destruct (b =? free_list (heap_info h t)).
Qed.

Lemma split_ok h t l1 b z l2 size :
  heap_ok h t (l1 ++ (b, z) :: l2) -> MIN_SIZE <= size <= z ->
  let h' := split_heap h t b z size l1 l2 in
  heap_ok h' t (l1 ++ rest_of b z size ++ l2) /\ same_bounds h h' t /\
  get_size (mem h') b = granted z size /\ untouched (mem h) (mem h') (l1 ++ (b, z) :: l2).
Proof.
  intros Hok Hsz h'. pose proof Hok as [H1 H2 H3 H4 H5 Hs Hp H8].
  pose proof (split_seg _ _ _ _ _ _ _ _ H1 H4 Hsz Hs Hp) as Hseg.
  pose proof (split_packed _ _ _ _ _ _ _ _ H1 H4 Hsz Hs Hp) as Hpk.
  pose proof (split_size _ _ _ _ _ _ _ _ H1 H4 Hsz Hs Hp) as Hgs.
  pose proof (split_untouched _ _ _ _ _ _ _ _ H1 H4 Hsz Hs Hp) as Hun.
  assert (Hmem : mem h' = split_mem (mem h) b z size (last_or l1 0) (head_or l2 0)).
  { unfold h', split_heap. by destruct (b =? _). }
  assert (Hsb : same_bounds h h' t).
  { unfold h', split_heap. destruct (b =? _); eauto 6 using same_bounds_trans. }
  split; [|split; [exact Hsb|by rewrite Hmem]].
  apply (heap_ok_intro h h' t _ _ Hok Hsb); [by rewrite Hmem|exact Hpk| |].
  - unfold h', split_heap. cbn [set_free_size set_info heap_info free_size]. rewrite Z.eqb_refl. cbn [free_size].
    assert (Hfs : forall h2, free_size (heap_info (if b =? free_list (heap_info h t)
        then set_free_list t h2 (set_mem (split_mem (mem h) b z size (last_or l1 0) (head_or l2 0)) h)
        else set_mem (split_mem (mem h) b z size (last_or l1 0) (head_or l2 0)) h) t) = free_size (heap_info h t)).
    { intros h2. destruct (b =? _); cbn; by rewrite ?Z.eqb_refl. }
    rewrite Hfs, H8. replace (mem (if b =? free_list (heap_info h t) then _ else _))
      with (split_mem (mem h) b z size (last_or l1 0) (head_or l2 0)) by (by destruct (b =? _)).
    rewrite Hgs. pose proof (total_rest b z size) as Ht. pose proof (total_pos _ _ _ Hpk) as Hpos.
    assert (Hbound : total (l1 ++ (b, z) :: l2) < 2 ^ 64).
    { pose proof (packed_total _ _ _ Hp) as Hle. specialize (Hle ltac:(by destruct l1)). lia. }
    assert (Hg : 0 <= granted z size) by (unfold granted, MIN_SIZE in *; case_if; lia).
    rewrite !total_app, total_cons in *.
    rewrite wrapw_small by (unfold in_word; lia). lia.
  - unfold h', split_heap. cbn. rewrite !Z.eqb_refl. cbn. rewrite H5.
    rewrite (head_is_block _ _ _ _ _ _ Hp). rewrite head_or_app.
    destruct (bool_decide_reflect (l1 = [])) as [->|Hne]; cbn; rewrite ?Z.eqb_refl.
    + by rewrite head_or_app.
    + rewrite H5. by destruct l1 as [|[]].
Qed.

(** ** Allocation *)

(** The number of bytes taken for a request. *)
Definition raw_need (size : Z) : Z := u64 (ROUND_UP size 8 + ALLOC_HDR).
Definition need (size : Z) : Z := Z.max (raw_need size) MIN_SIZE.

Lemma raw_need_spec size :
  0 < size < 2 ^ 64 ->
  (size + 32 <= 2 ^ 64 -> size + 24 <= raw_need size <= size + 31) /\
  (size <= raw_need size -> size + 24 <= raw_need size <= size + 31).
Proof.
  intros Hs. unfold raw_need, ROUND_UP, ALLOC_HDR, wrapw.
  destruct (decide (size + 8 < 2 ^ 64)) as [Hc|Hc].
  - rewrite (Z.mod_small (size + 8)) by lia. rewrite (Z.mod_small (size + 8 - 1)) by lia.
    pose proof (Z.mul_div_le (size + 8 - 1) 8 ltac:(lia)).
    pose proof (Z.mul_succ_div_gt (size + 8 - 1) 8 ltac:(lia)).
    set (q := (size + 8 - 1) / 8) in *. rewrite (Z.mod_small (q * 8)) by lia.
    destruct (decide (q * 8 + 24 < 2 ^ 64)); [rewrite Z.mod_small by lia; lia|].
    replace (q * 8 + 24) with (q * 8 + 24 - 2 ^ 64 + 1 * 2 ^ 64) by lia.
    rewrite Z_mod_plus_full, Z.mod_small by lia. lia.
  - replace (size + 8) with (size + 8 - 2 ^ 64 + 1 * 2 ^ 64) by lia.
    rewrite Z_mod_plus_full, (Z.mod_small (size + 8 - 2 ^ 64)) by lia.
    destruct (decide (size = 2 ^ 64 - 8)) as [-> | Hne]; [vm_compute; split; intros []; done|].
    rewrite (Z.mod_small (size + 8 - 2 ^ 64 - 1)) by lia.
    assert ((size + 8 - 2 ^ 64 - 1) / 8 = 0) as -> by (apply Z.div_small; lia).
    change (((0 * 8) mod 2 ^ 64 + 24) mod 2 ^ 64) with 24. lia.
Qed.

(** The header in front of an allocated pointer. *)
Definition allocated (m : memory) (p s z : Z) : Prop :=
  get_magic m (p - ALLOC_HDR) = ALLOC_MAGIC /\ get_start m (p - ALLOC_HDR) = s /\ get_size m (p - ALLOC_HDR) = z.

(** The regions on both sides of a block of the list. *)
Lemma around lo l1 b z l2 hi size :
  packed lo (l1 ++ (b, z) :: l2) hi -> MIN_SIZE <= size <= z ->
  packed lo l1 (b - 1) /\ packed (b + granted z size) (rest_of b z size ++ l2) hi.
Proof.
  intros Hp Hs. apply packed_app in Hp as (P1 & P2 & P3 & P4 & P5). split; [done|].
  unfold granted, rest_of, MIN_SIZE in *. destruct (Z.leb_spec (z - size) 32); cbn [app].
  - eapply packed_weaken; [..|exact P5]; lia.
  - cbn [packed]. unfold MIN_SIZE. split_and!; try lia. eapply packed_weaken; [..|exact P5]; lia.
Qed.

(** The heap after a successful allocation from a block of the list. *)
Definition malloc_heap (h : heap) (t b z size : Z) (l1 l2 : list extent) : heap :=
  let h1 := split_heap h t b z size l1 l2 in
  set_mem (set_magic b ALLOC_MAGIC (set_start b b (mem h1))) h1.

Lemma malloc_heap_ok h t l1 b z l2 size :
  heap_ok h t (l1 ++ (b, z) :: l2) -> MIN_SIZE <= size <= z ->
  let h' := malloc_heap h t b z size l1 l2 in
  heap_ok h' t (l1 ++ rest_of b z size ++ l2) /\ same_bounds h h' t /\
  allocated (mem h') (b + ALLOC_HDR) b (granted z size) /\ untouched (mem h) (mem h') (l1 ++ (b, z) :: l2).
Proof.
  intros Hok Hsz h'. destruct (split_ok _ _ _ _ _ _ _ Hok Hsz) as (Hok1 & Hsb & Hgs & Hun).
  set (h1 := split_heap h t b z size l1 l2) in *.
  destruct (around _ _ _ _ _ _ _ (ok_packed _ _ _ Hok) Hsz) as [R1 R2].
  destruct (split_facts _ _ _ _ _ _ _ _ (ok_start _ _ _ Hok) (ok_word _ _ _ Hok) Hsz (ok_seg _ _ _ Hok)
    (ok_packed _ _ _ Hok)) as ((P1 & P2 & P3 & P4 & P5) & _).
  assert (Hg : 32 <= granted z size <= z) by (unfold granted, MIN_SIZE in *; case_if; lia).
  pose proof (ok_start _ _ _ Hok) as Hst. pose proof (ok_word _ _ _ Hok) as Hw.
  split; [|split; [|split]].
  - apply (heap_ok_intro h1 h' t _ _ Hok1); [by apply bounds_set_mem| |exact (ok_packed _ _ _ Hok1)|exact (ok_free _ _ _ Hok1)|exact (ok_head _ _ _ Hok1)].
    pose proof (ok_seg _ _ _ Hok1) as Hs1. apply seg_app in Hs1 as [Sa Sb]. apply seg_app. split.
    + eapply (seg_region (mem h1)); [exact R1| |exact Sa]. intros x Hx. unfold h', malloc_heap. fold h1. cbn [mem set_mem]. by outs.
    + eapply (seg_region (mem h1)); [exact R2| |exact Sb]. intros x Hx. unfold h', malloc_heap. fold h1. cbn [mem set_mem]. by outs.
  - eapply same_bounds_trans; [exact Hsb|apply bounds_set_mem].
  - unfold allocated, ALLOC_HDR. replace (b + 24 - 24) with b by lia. unfold h', malloc_heap. fold h1. cbn [mem set_mem].
    split_and!; reads; done.
  - intros x Hx. unfold h', malloc_heap. fold h1. cbn [mem set_mem]. pose proof (out_last _ _ _ _ _ Hx) as Hb.
    outs. by apply Hun.
Qed.

(** What [tegrabl_generic_malloc] does to the list. *)
Lemma malloc_cases h t (l : list extent) size :
  heap_ok h t l -> 0 <= size < 2 ^ 64 ->
  (tegrabl_generic_malloc t size h = (Ret 0, h) /\ (size = 0 \/ Forall (fun e => e.2 <= size + 31) l)) \/
  (exists (l1 : list extent) b z (l2 : list extent), l = l1 ++ (b, z) :: l2 /\ 0 < size /\ size + 24 <= need size < z /\
     Forall (fun e => e.2 <= need size) l1 /\
     tegrabl_generic_malloc t size h = (Ret (b + ALLOC_HDR), malloc_heap h t b z (need size) l1 l2)).
Proof.
  intros Hok Hs. pose proof Hok as [H1 H2 H3 H4 H5 Hseg Hp H8].
  unfold tegrabl_generic_malloc, bind, get, lift, ret.
  destruct (size =? 0) eqn:E0; zbool; [by left; split; [|left]|]. cbn [orb].
  assert (Hall : Forall (fun e => e.2 <= total l) l).
  { apply Forall_forall. intros [b z] Hin. apply list_elem_of_split in Hin as (la & lb & ->).
    rewrite total_app, total_cons. apply packed_app in Hp as (Pa & Pb & Pc & Pd & Pe).
    pose proof (total_pos _ _ _ Pa). pose proof (total_pos _ _ _ Pe). simpl. lia. }
  destruct (free_size (heap_info h t) <? size) eqn:E1; zbool.
  { left. split; [done|right]. eapply Forall_impl; [exact Hall|]. simpl. intros e He. lia. }
  fold (raw_need size). destruct (raw_need_spec size ltac:(lia)) as [Hn1 Hn2].
  destruct (raw_need size <? size) eqn:E2; zbool.
  { left. split; [done|right]. apply Forall_forall. intros [b z] Hin.
    destruct (packed_in _ _ _ _ _ Hp Hin) as (?&?&?). cbn [snd]. lia. }
  specialize (Hn2 E2). fold (need size).
  rewrite H5, (first_larger_spec _ _ 0 _ _ _ _ (fuel_enough _ _ _ Hok) Hp H1 Hseg).
  destruct (first_fit (need size) l) as [[[l1 [b z]] l2]|] eqn:F.
  - apply first_fit_spec in F as (-> & Hz & Hfa). simpl in Hz. right.
    apply packed_app in Hp as (P1 & P2 & P3 & P4 & P5). unfold is_null.
    destruct (Z.eqb_spec b 0); [lia|]. exists l1, b, z, l2.
    assert (Hm : MIN_SIZE <= need size <= z).
    { pose proof (Z.le_max_r (raw_need size) MIN_SIZE). unfold need in *. lia. }
    rewrite (split_block_eq _ _ _ _ _ _ _ Hok Hm). split_and!; try done; unfold need; lia.
  - left. split; [done|right]. assert (Hnb : need size <= size + 31) by (unfold need, MIN_SIZE; lia).
    clear -F Hnb. induction l as [|[b z] l IH]; [by constructor|]. cbn [first_fit] in F.
    destruct (need size <? z) eqn:E; zbool; [done|].
    destruct (first_fit (need size) l) as [[[]]|]; [done|]. constructor; [simpl; lia|by apply IH].
Qed.

(** ** Release *)

(** Insertion in address order, with adjacent extents joined. *)
Fixpoint release (s z : Z) (l : list extent) : list extent :=
  match l with
  | [] => [(s, z)]
  | (b, y) :: l' =>
      if s + z <? b then (s, z) :: l
      else if s + z =? b then (s, z + y) :: l'
      else if b + y =? s then release b (y + z) l'
      else (b, y) :: release s z l'
  end.

(** What follows a freed block: its size and the list after it when it is
    joined with the next block. *)
Definition joined (s z : Z) (l2 : list extent) : Z * list extent :=
  match l2 with
  | (c, y) :: l => if s + z =? c then (z + y, l) else (z, l2)
  | [] => (z, [])
  end.

Lemma release_last lo s z l2 hi :
  packed lo l2 hi -> s + z <= lo -> 0 <= z ->
  release s z l2 = (s, (joined s z l2).1) :: (joined s z l2).2.
Proof.
  destruct l2 as [|[c y] l2]; intros Hp Hlo Hz; [done|]. cbn [release joined].
  destruct Hp as (H1 & H2 & H3 & H4). unfold MIN_SIZE in *.
  destruct (Z.ltb_spec (s + z) c); [|]; (destruct (Z.eqb_spec (s + z) c); cbn [fst snd]; [done || lia|done || lia]).
Qed.

Lemma joined_packed lo s z l2 hi :
  packed lo l2 hi -> s + z <= lo -> MIN_SIZE <= z -> s + z <= hi ->
  packed s ((s, (joined s z l2).1) :: (joined s z l2).2) hi.
Proof.
  unfold MIN_SIZE. destruct l2 as [|[c y] l2]; intros Hp Hlo Hz Hhi; cbn [joined packed] in *; unfold MIN_SIZE in *.
  - cbn. unfold MIN_SIZE. lia.
  - destruct Hp as (H1 & H2 & H3 & H4). destruct (Z.eqb_spec (s + z) c); cbn [fst snd packed]; unfold MIN_SIZE; split_and!; try lia.
    + eapply packed_weaken; [..|exact H4]; lia.
    + exact H4.
Qed.

(** The list after a release, with the blocks before the freed one apart. *)
Lemma release_app lo l1 s z l2 hi :
  packed lo l1 s -> packed (s + z) l2 hi -> 32 <= z ->
  release s z (l1 ++ l2) =
    match last l1 with
    | Some (c, y) =>
        if c + y =? s then removelast l1 ++ (c, y + (joined s z l2).1) :: (joined s z l2).2
        else l1 ++ (s, (joined s z l2).1) :: (joined s z l2).2
    | None => (s, (joined s z l2).1) :: (joined s z l2).2
    end.
Proof.
  intros H1 H2 Hz. revert lo H1. induction l1 as [|[c y] l1 IH]; intros lo H1.
  - cbn [app last]. eapply release_last; [exact H2|lia..].
  - cbn [packed] in H1. unfold MIN_SIZE in *. destruct H1 as (A1 & A2 & A3 & A4).
    cbn [app release]. destruct (Z.ltb_spec (s + z) c); [lia|]. destruct (Z.eqb_spec (s + z) c); [lia|].
    destruct l1 as [|e l1].
    + cbn [last removelast app]. destruct (Z.eqb_spec (c + y) s) as [Hj|Hj].
      * rewrite (release_last (s + z) c (y + z) l2 hi); [|done|lia..]. unfold joined.
        destruct l2 as [|[d w] l2]; [done|]. replace (c + (y + z) =? d) with (s + z =? d) by lia.
        destruct (s + z =? d); cbn [fst snd]; [do 2 f_equal; lia|done].
      * f_equal. eapply release_last; [exact H2|lia..].
    + destruct (Z.eqb_spec (c + y) s) as [Hj|Hj].
      { destruct e as [d w]. cbn [packed] in A4. unfold MIN_SIZE in A4. lia. }
      rewrite (IH _ A4). change (last ((c, y) :: e :: l1)) with (last (e :: l1)).
      destruct (last (e :: l1)) as [[d w]|] eqn:El; [|by apply last_None in El].
      by destruct (d + w =? s).
Qed.

Lemma merge_next_spec m l1 a x c y l2 lo hi :
  seg m 0 (l1 ++ (a, x) :: (c, y) :: l2) 0 ->
  packed lo l1 a -> packed (a + x) [(c, y)] hi -> packed (c + y) l2 hi ->
  0 < lo <= a -> hi < 2 ^ 64 -> 32 <= x ->
  exists m', tegrabl_heap_merge_with_next a c m = Ret m' /\
    seg m' 0 (l1 ++ (a, (joined a x ((c, y) :: l2)).1) :: (joined a x ((c, y) :: l2)).2) 0 /\
    untouched m m' (l1 ++ (a, x) :: (c, y) :: l2).
Proof.
  intros Hs P1 Pc P2 Hlo Hhi Hx. pose proof (block_links _ _ _ _ _ _ Hs) as (S1 & S2 & S3 & S4 & Sl & Sr).
  cbn [seg head_or] in Sr, S4. destruct Sr as (C1 & C2 & C3 & C4 & Cr).
  cbn [packed] in Pc. unfold MIN_SIZE in Pc. destruct Pc as (Q1 & Q2 & Q3 & _).
  pose proof (head_bound _ _ _ P2 ltac:(lia) Hhi) as Hnb.
  assert (Hn : head_or l2 0 = 0 \/ c + y <= head_or l2 0).
  { destruct l2 as [|[d w] l2]; [by left|right]. cbn [packed head_or] in *. lia. }
  unfold tegrabl_heap_merge_with_next. rewrite S2, wrapw_small by (unfold in_word; lia).
  replace (a + x <? a) with false by lia. replace (c <? a + x) with false by lia. cbn [orb joined].
  destruct (Z.eqb_spec (a + x) c) as [Hj|Hj]; cbn [fst snd]; [|by exists m; split_and!].
  rewrite C2, wrapw_small by (unfold in_word; lia).
  set (m1 := set_size a (x + y) m). assert (E1 : get_next m1 c = head_or l2 0) by (unfold m1; reads; exact C4).
  rewrite E1. set (m2 := set_next a (head_or l2 0) m1).
  assert (E2 : get_next m2 c = head_or l2 0) by (unfold m2, m1; reads; exact C4). rewrite E2.
  fold (link_prev (head_or l2 0) a m2). eexists. split; [reflexivity|]. split.
  - apply seg_app. cbn [head_or]. split.
    + eapply (seg_region m); [exact P1| |exact Sl]. intros k Hk. rewrite link_prev_out by lia. unfold m2, m1. by outs.
    + assert (Hfr : forall k, a <= k < a + 32 -> link_prev (head_or l2 0) a m2 k = m2 k).
      { intros k Hk. apply link_prev_out. lia. }
      cbn [seg]. fields. rewrite !(ldm_ext _ m2 (link_prev _ _ m2)) by (intros; apply Hfr; lia). unfold m2, m1.
      split_and!; try (reads; done).
      eapply seg_link_prev; [exact P2|lia|lia|]. eapply (seg_region m); [exact P2| |exact Cr].
      intros k Hk. by outs.
  - intros k Hk. pose proof (out_last _ _ _ _ _ Hk) as Ha.
    rewrite (link_prev_untouched _ l2 _ (l1 ++ [(a, x); (c, y)]) _ _ k P2).
    + unfold m2, m1. by outs.
    + by rewrite <- app_assoc.
Qed.

(** On a list without adjacent blocks merging does nothing. *)
Lemma merge_apart m lo l1 b z l2 hi :
  packed lo (l1 ++ (b, z) :: l2) hi -> 0 < lo -> hi < 2 ^ 64 -> seg m 0 (l1 ++ (b, z) :: l2) 0 ->
  l2 <> [] -> tegrabl_heap_merge_with_next b (head_or l2 0) m = Ret m.
Proof.
  intros Hp Hlo Hhi Hs Hne. pose proof (block_links _ _ _ _ _ _ Hs) as (_ & S2 & _).
  apply packed_app in Hp as (P1 & P2 & P3 & P4 & P5). unfold MIN_SIZE in *.
  destruct l2 as [|[c y] l2]; [done|]. cbn [packed head_or] in *. unfold tegrabl_heap_merge_with_next.
  rewrite S2, wrapw_small by (unfold in_word; lia).
  replace (b + z <? b) with false by lia. replace (c <? b + z) with false by lia.
  by replace (b + z =? c) with false by lia.
Qed.

Lemma is_null_last lo l hi : packed lo l hi -> 0 < lo -> is_null (last_or l 0) = bool_decide (l = []).
Proof.
  intros Hp Hlo. destruct l as [|[b z] l _] using rev_ind; [done|]. rewrite last_or_snoc.
  rewrite bool_decide_eq_false_2 by (by destruct l). unfold is_null.
  destruct (packed_in _ _ _ b z Hp) as (?&?&?); [apply elem_of_app; right; by constructor|]. lia.
Qed.

Lemma is_null_head lo l hi : packed lo l hi -> 0 < lo -> is_null (head_or l 0) = bool_decide (l = []).
Proof. destruct l as [|[b z] l]; [done|]. intros (?&?) ?. cbn. unfold is_null. lia. Qed.

Lemma merge_blocks_apart m lo (l1 : list extent) b z (l2 : list extent) hi :
  packed lo (l1 ++ (b, z) :: l2) hi -> 0 < lo -> hi < 2 ^ 64 -> seg m 0 (l1 ++ (b, z) :: l2) 0 ->
  tegrabl_heap_merge_blocks b m = Ret (last_or l1 b, m).
Proof.
  intros Hp Hlo Hhi Hs. pose proof (block_links _ _ _ _ _ _ Hs) as (S1 & S2 & S3 & S4 & Sl & Sr).
  pose proof Hp as Hp'. apply packed_app in Hp' as (P1 & P2 & P3 & P4 & P5). unfold MIN_SIZE in *.
  unfold tegrabl_heap_merge_blocks. rewrite S3, S4, (is_null_head _ _ _ P5), (is_null_last _ _ _ P1) by lia.
  assert (En : (if bool_decide (l2 = []) then Ret m else tegrabl_heap_merge_with_next b (head_or l2 0) m) = Ret m).
  { case_bool_decide; [done|]. by eapply (merge_apart m lo l1). }
  rewrite En. destruct l1 as [|[c y] l1 _] using rev_ind; [done|].
  rewrite bool_decide_eq_false_2 by (by destruct l1). rewrite !last_or_snoc.
  rewrite <- app_assoc in Hp, Hs. cbn [app] in Hp, Hs.
  pose proof (merge_apart m lo l1 c y _ hi Hp Hlo Hhi Hs ltac:(done)) as Em. cbn [head_or] in Em.
  cbn [obind]. by rewrite Em.
Qed.

(** The loop walks back to the first block. *)
Lemma merge_loop_apart m lo l1 b z l2 hi fuel :
  packed lo (l1 ++ (b, z) :: l2) hi -> 0 < lo -> hi < 2 ^ 64 -> seg m 0 (l1 ++ (b, z) :: l2) 0 ->
  (length l1 < fuel)%nat -> merge_loop fuel b m = Ret (head_or (l1 ++ [(b, z)]) 0, m).
Proof.
  intros Hp Hlo Hhi Hs. revert b z l2 Hp Hs fuel.
  induction l1 as [|[c y] l1 IH] using rev_ind; intros b z l2 Hp Hs fuel Hf;
    (destruct fuel as [|fuel]; [simpl in Hf; lia|]); cbn [merge_loop].
  - rewrite (merge_blocks_apart _ _ [] _ _ _ _ Hp Hlo Hhi Hs). cbn [obind last_or]. by rewrite Z.eqb_refl.
  - rewrite (merge_blocks_apart _ _ _ _ _ _ _ Hp Hlo Hhi Hs), last_or_snoc. cbn [obind].
    apply packed_app in Hp as Hp'. destruct Hp' as (P1 & P2 & P3 & P4 & P5).
    destruct (packed_in _ _ _ c y P1) as (?&?&?); [apply elem_of_app; right; by constructor|].
    unfold MIN_SIZE in *. destruct (Z.eqb_spec c b); [lia|]. rewrite <- app_assoc in Hp, Hs. cbn [app] in Hp, Hs.
    rewrite (IH c y _ Hp Hs); [|rewrite length_app in Hf; simpl in Hf; lia].
    by rewrite !head_or_app.
Qed.

(** The situation right after the block [(s, z)] was linked between [l1] and
    [l2], possibly adjacent to both. *)
Section Release.
Context (lo hi s z : Z) (l1 l2 : list extent).
Context (Hlo : 0 < lo <= s) (Hhi : s + z <= hi < 2 ^ 64) (Hz : 32 <= z).
Context (P1 : packed lo l1 s) (P2 : packed (s + z) l2 hi).

Lemma release_packed : packed lo (release s z (l1 ++ l2)) hi.
Proof.
  rewrite (release_app _ _ _ _ _ _ P1 P2 Hz).
  assert (Hj : packed s ((s, (joined s z l2).1) :: (joined s z l2).2) hi)
    by (eapply joined_packed; [exact P2|unfold MIN_SIZE; lia..]).
  destruct l1 as [|[c y] l0 _] using rev_ind; [eapply packed_weaken; [..|exact Hj]; lia|].
  rewrite last_snoc. pose proof P1 as Q. apply packed_app in Q as (Q1 & Q2 & Q3 & Q4 & _). unfold MIN_SIZE in *.
  pose proof Hj as (J1 & J2 & J3 & J4). unfold MIN_SIZE in *.
  destruct (Z.eqb_spec (c + y) s).
  - rewrite removelast_last. apply packed_app. unfold MIN_SIZE. split_and!; try done; try lia.
    eapply packed_weaken; [..|exact J4]; lia.
  - rewrite <- app_assoc. apply packed_app. cbn [app]. unfold MIN_SIZE. split_and!; try done; try lia.
    eapply packed_weaken; [..|exact Hj]; lia.
Qed.

Lemma release_shape :
  exists la w lb, release s z (l1 ++ l2) = la ++ (last_or l1 s, w) :: lb /\ (length la <= length l1)%nat.
Proof.
  rewrite (release_app _ _ _ _ _ _ P1 P2 Hz).
  destruct l1 as [|[c y] l0 _] using rev_ind; [by eexists [], _, _|].
  rewrite last_snoc, last_or_snoc, removelast_last.
  destruct (Z.eqb_spec (c + y) s); [|rewrite <- app_assoc; cbn [app]];
    (eexists l0, _, _; split; [reflexivity|rewrite length_app; apply Nat.le_add_r]).
Qed.

Lemma merge_first m :
  seg m 0 (l1 ++ (s, z) :: l2) 0 ->
  exists m', tegrabl_heap_merge_blocks s m = Ret (last_or l1 s, m') /\
    seg m' 0 (release s z (l1 ++ l2)) 0 /\ untouched m m' (l1 ++ (s, z) :: l2).
Proof.
  intros Hs. pose proof (block_links _ _ _ _ _ _ Hs) as (S1 & S2 & S3 & S4 & Sl & Sr).
  rewrite (release_app _ _ _ _ _ _ P1 P2 Hz). unfold tegrabl_heap_merge_blocks.
  rewrite S3, S4, (is_null_head _ _ _ P2), (is_null_last _ _ _ P1) by lia.
  assert (Hn : exists m1, (if bool_decide (l2 = []) then Ret m else tegrabl_heap_merge_with_next s (head_or l2 0) m)
      = Ret m1 /\ seg m1 0 (l1 ++ (s, (joined s z l2).1) :: (joined s z l2).2) 0 /\
      untouched m m1 (l1 ++ (s, z) :: l2)).
  { destruct l2 as [|[d w] l3]; [by exists m|]. rewrite bool_decide_eq_false_2 by done.
    cbn [packed] in P2. destruct P2 as (Q1 & Q2 & Q3 & Q4). unfold MIN_SIZE in *.
    apply (merge_next_spec m l1 s z d w l3 lo hi Hs P1); [| |lia..].
    - cbn [packed]. unfold MIN_SIZE. lia.
    - eapply packed_weaken; [..|exact Q4]; lia. }
  destruct Hn as (m1 & -> & Hs1 & Hu1). cbn [obind].
  assert (Hj : packed s ((s, (joined s z l2).1) :: (joined s z l2).2) hi)
    by (eapply joined_packed; [exact P2|unfold MIN_SIZE; lia..]).
  set (w := (joined s z l2).1) in *. set (l3 := (joined s z l2).2) in *.
  destruct l1 as [|[c y] l0 _] using rev_ind; [by exists m1|].
  rewrite bool_decide_eq_false_2 by (by destruct l0). rewrite last_snoc, !last_or_snoc.
  pose proof P1 as Q. apply packed_app in Q as (Q1 & Q2 & Q3 & Q4 & _). destruct Hj as (J1 & J2 & J3 & J4).
  unfold MIN_SIZE in *. rewrite <- app_assoc in Hs1. cbn [app] in Hs1.
  destruct (merge_next_spec m1 l0 c y s w l3 lo hi Hs1) as (m2 & -> & Hs2 & Hu2).
  { eapply packed_weaken; [..|exact Q1]; lia. }
  { cbn [packed]. unfold MIN_SIZE. lia. }
  { eapply packed_weaken; [..|exact J4]; lia. }
  1-3: lia.
  exists m2. cbn [obind]. split; [done|]. rewrite removelast_last. cbn [joined] in Hs2. split.
  - destruct (c + y =? s); [exact Hs2|]. by rewrite <- app_assoc.
  - intros k Hk. rewrite Hu2; [by apply Hu1|]. intros b' z' Hin.
    apply elem_of_app in Hin as [Hin|Hin]; [apply Hk; rewrite <- app_assoc; apply elem_of_app; by left|].
    apply elem_of_cons in Hin as [[= -> ->]|Hin].
    { apply Hk. rewrite <- app_assoc. apply elem_of_app. right. by constructor. }
    assert (Hin' : (b', z') ∈ (s, w) :: l3) by done. clear Hin. unfold w, l3, joined in Hin'.
    pose proof (Hk s z ltac:(apply elem_of_app; right; by constructor)) as Hks.
    destruct l2 as [|[d v] l4]; cbn in Hin'.
    + apply elem_of_cons in Hin' as [[= -> ->]|Hin']; [done|by apply elem_of_nil in Hin'].
    + destruct (Z.eqb_spec (s + z) d); cbn in Hin'.
      * pose proof (Hk d v ltac:(apply elem_of_app; right; do 2 constructor)) as Hkd.
        apply elem_of_cons in Hin' as [[= -> ->]|Hin']; [lia|].
        apply Hk. apply elem_of_app. right. by do 2 constructor.
      * apply elem_of_cons in Hin' as [[= -> ->]|Hin']; [lia|].
        apply Hk. apply elem_of_app. right. by constructor.
Qed.

Lemma merge_loop_spec m fuel :
  seg m 0 (l1 ++ (s, z) :: l2) 0 -> (length l1 < fuel)%nat ->
  exists m', merge_loop (S fuel) s m = Ret (head_or (release s z (l1 ++ l2)) 0, m') /\
    seg m' 0 (release s z (l1 ++ l2)) 0 /\ untouched m m' (l1 ++ (s, z) :: l2).
Proof.
  intros Hs Hf. destruct (merge_first _ Hs) as (m' & E & Hs' & Hu). exists m'. split; [|done].
  cbn [merge_loop]. rewrite E. cbn [obind]. destruct release_shape as (la & w & lb & Er & Hla).
  pose proof release_packed as Hp. rewrite Er in *.
  destruct (Z.eqb_spec (last_or l1 s) s) as [Hl|Hl].
  - assert (l1 = []) as ->.
    { destruct l1 as [|[c y] l0 _] using rev_ind; [done|]. rewrite last_or_snoc in Hl.
      apply packed_app in P1 as (_ & _ & Q3 & Q4 & _). unfold MIN_SIZE in *. lia. }
    destruct la; [done|simpl in Hla; lia].
  - rewrite (merge_loop_apart m' lo la _ w lb hi); try done; try lia. by rewrite !head_or_app.
Qed.
End Release.

Lemma find_place_spec m lo p l1 l2 s ptr hi prev fuel :
  (length (l1 ++ l2) < fuel)%nat -> seg m p (l1 ++ l2) 0 -> 0 < lo <= s ->
  packed lo l1 s -> packed hi l2 (2 ^ 64) -> s < ptr <= hi ->
  find_place fuel m ptr prev (head_or (l1 ++ l2) 0) = Ret (last_or l1 prev, head_or l2 0).
Proof.
  intros Hf Hs Hlo P1 P2 Hp. revert p prev fuel lo Hf Hs Hlo P1.
  induction l1 as [|[b z] l1 IH]; intros p prev fuel lo Hf Hs Hlo P1;
    (destruct fuel as [|fuel]; [simpl in Hf; lia|]); cbn [find_place last_or app head_or].
  - unfold is_null. destruct l2 as [|[c y] l2]; [done|]. cbn [packed head_or] in *.
    replace (c <? ptr) with false by lia. by rewrite andb_false_r.
  - cbn [packed app seg] in *. destruct P1 as (Q1 & Q2 & Q3 & Q4). unfold MIN_SIZE in *.
    destruct Hs as (S1 & S2 & S3 & S4 & S5). unfold is_null. destruct (Z.eqb_spec b 0); [lia|].
    replace (b <? ptr) with true by lia. cbn [negb andb]. rewrite S4.
    destruct l1 as [|e l1].
    + cbn [app last_or]. apply (IH b b fuel s); [simpl in *; lia|done|lia|done].
    + apply (IH b b fuel (b + z + 1)); [simpl in *; lia|done| |done].
      destruct e as [d w]. cbn [packed] in Q4. unfold MIN_SIZE in Q4. lia.
Qed.

(** A block of the heap [h] that is not on its free list [l1 ++ l2]. *)
Record outside (h : heap) (t s z : Z) (l1 l2 : list extent) : Prop := {
  out_range : start (heap_info h t) <= s /\ s + z <= end_ (heap_info h t);
  out_size : 32 <= z;
  out_before : packed (start (heap_info h t)) l1 s;
  out_after : packed (s + z) l2 (end_ (heap_info h t));
}.

Lemma outside_total h t s z l1 l2 :
  heap_ok h t (l1 ++ l2) -> outside h t s z l1 l2 -> 0 <= total (l1 ++ l2) /\ total (l1 ++ l2) + z <= max_size (heap_info h t).
Proof.
  intros [H1 H2 H3 H4 H5 Hs Hp H8] [[R1 R2] Rz P1 P2]. rewrite total_app.
  pose proof (total_pos _ _ _ P1). pose proof (total_pos _ _ _ P2).
  assert (total l1 <= s - start (heap_info h t)).
  { destruct l1; [simpl; lia|]. by apply packed_total. }
  assert (total l2 <= end_ (heap_info h t) - (s + z)).
  { destruct l2; [simpl; lia|]. by apply packed_total. }
  lia.
Qed.

Lemma validate_ok h t s z l1 l2 p :
  heap_ok h t (l1 ++ l2) -> outside h t s z l1 l2 -> allocated (mem h) p s z -> s <= p - ALLOC_HDR -> p <= s + z ->
  validate_allocated_block (mem h) (heap_info h t) (p - ALLOC_HDR) = true.
Proof.
  intros Hok Hout (A1 & A2 & A3) Hp1 Hp2. pose proof (outside_total _ _ _ _ _ _ Hok Hout) as [T0 T1].
  pose proof Hok as [H1 H2 H3 H4 H5 Hs Hp H8]. pose proof Hout as [[R1 R2] Rz P1 P2]. unfold ALLOC_HDR in *.
  unfold validate_allocated_block. rewrite A1, A2, A3, H8, Z.eqb_refl.
  rewrite !wrapw_small by (unfold in_word; lia). cbn [andb].
  rewrite !andb_true_iff, !negb_true_iff, !orb_false_iff, !Z.ltb_ge. lia.
Qed.

(** The memory when the block was linked in. *)
Definition linked (m : memory) (s z pb nb : Z) : memory :=
  link_prev nb s (set_magic s FREE_MAGIC (set_next s nb (set_prev s pb (link_next pb s (set_size s z m))))).

Lemma linked_spec m lo hi s z l1 l2 :
  seg m 0 (l1 ++ l2) 0 -> 0 < lo <= s -> s + z <= hi < 2 ^ 64 -> 32 <= z ->
  packed lo l1 s -> packed (s + z) l2 hi ->
  let m' := linked m s z (last_or l1 0) (head_or l2 0) in
  seg m' 0 (l1 ++ (s, z) :: l2) 0 /\ untouched m m' (l1 ++ (s, z) :: l2).
Proof.
  intros Hs Hlo Hhi Hz P1 P2 m'. apply seg_app in Hs as [Sl Sr].
  pose proof (last_bound _ _ _ P1 ltac:(lia) ltac:(lia)) as Hpb.
  pose proof (head_bound _ _ _ P2 ltac:(lia) ltac:(lia)) as Hnb.
  assert (Dp : last_or l1 0 = 0 \/ last_or l1 0 + 32 <= s).
  { destruct l1 as [|[c y] l _] using rev_ind; [by left|right]. rewrite last_or_snoc.
    destruct (packed_in _ _ _ c y P1) as (?&?&?); [apply elem_of_app; right; by constructor|unfold MIN_SIZE in *; lia]. }
  assert (Dn : head_or l2 0 = 0 \/ s + z <= head_or l2 0).
  { destruct l2 as [|[c y] l]; [by left|right]. cbn [packed head_or] in *. lia. }
  unfold m', linked. set (pb := last_or l1 0) in *. set (nb := head_or l2 0) in *.
  set (m1 := link_next pb s (set_size s z m)). set (m2 := set_magic s FREE_MAGIC (set_next s nb (set_prev s pb m1))).
  assert (F1 : forall k, s <= k -> m1 k = set_size s z m k) by (intros k Hk; apply link_next_out; lia).
  assert (F2 : forall k, k < s + z -> link_prev nb s m2 k = m2 k) by (intros k Hk; apply link_prev_out; lia).
  split.
  - apply seg_app. cbn [head_or]. split.
    + eapply (seg_region m1); [exact P1| |].
      { intros k Hk. rewrite F2 by lia. unfold m2. by outs. }
      eapply (seg_link_next _ _ _ (head_or l2 0)); [exact P1|lia|lia|]. eapply (seg_region m); [exact P1| |exact Sl].
      intros k Hk. by outs.
    + cbn [seg]. fields. rewrite !(ldm_ext _ m2 (link_prev nb s m2)) by (intros; apply F2; lia).
      unfold m2. split_and!; try (reads; done).
      * reads. rewrite (ldm_ext 8 (set_size s z m)) by (intros; apply F1; lia). reads. done.
      * eapply (seg_link_prev _ (last_or l1 0)); [exact P2|lia|lia|]. eapply (seg_region m); [exact P2| |exact Sr].
        intros k Hk. outs. rewrite F1 by lia. by outs.
  - intros k Hk. pose proof (out_last _ _ _ _ _ Hk) as Hb.
    rewrite (link_prev_untouched _ l2 _ (l1 ++ [(s, z)]) _ _ k P2) by (by rewrite <- app_assoc).
    unfold m2. outs. unfold m1. rewrite (link_next_untouched _ l1 _ ((s, z) :: l2) _ _ k P1 Hk). by outs.
Qed.

Lemma total_release s z l : total (release s z l) = total l + z.
Proof.
  revert s z. induction l as [|[b y] l IH]; intros s z; cbn [release]; [unfold total; simpl; lia|].
  repeat case_if; rewrite ?total_cons, ?IH, ?total_cons; lia.
Qed.

Lemma head_release lo hi s z l1 l2 :
  packed lo l1 s -> packed (s + z) l2 hi -> 32 <= z ->
  head_or (release s z (l1 ++ l2)) 0 = head_or (l1 ++ [(s, z)]) 0.
Proof.
  intros P1 P2 Hz. rewrite (release_app _ _ _ _ _ _ P1 P2 Hz).
  destruct l1 as [|[c y] l0 _] using rev_ind; [done|]. rewrite last_snoc, removelast_last.
  destruct (c + y =? s); rewrite !head_or_app; done.
Qed.

Lemma generic_free_spec h t l1 l2 s z p :
  heap_ok h t (l1 ++ l2) -> outside h t s z l1 l2 -> allocated (mem h) p s z ->
  s <= p - ALLOC_HDR -> p <= s + z ->
  exists m', tegrabl_generic_free t p h =
      (Ret (head_or (release s z (l1 ++ l2)) 0), set_free_size t (total (l1 ++ l2) + z) (set_mem m' h)) /\
    seg m' 0 (release s z (l1 ++ l2)) 0 /\ untouched (mem h) m' (l1 ++ (s, z) :: l2).
Proof.
  intros Hok Hout Hal Hp1 Hp2. pose proof (validate_ok _ _ _ _ _ _ _ Hok Hout Hal Hp1 Hp2) as Hv.
  pose proof (outside_total _ _ _ _ _ _ Hok Hout) as [T0 T1]. pose proof (fuel_enough _ _ _ Hok) as Hfu.
  pose proof Hok as [H1 H2 H3 H4 H5 Hs Hp H8]. pose proof Hout as [[R1 R2] Rz P1 P2]. destruct Hal as (A1 & A2 & A3).
  destruct (linked_spec _ _ _ _ _ _ _ Hs (conj H1 R1) (conj R2 H4) Rz P1 P2) as [Hs1 Hu1].
  destruct (merge_loop_spec _ _ _ _ _ _ (conj H1 R1) (conj R2 H4) Rz P1 P2 _ (list_fuel (heap_info h t)) Hs1)
    as (m' & Em & Hs' & Hu'); [rewrite length_app in Hfu; unfold extent in *; lia|].
  exists m'. split; [|split; [exact Hs'|]].
  - unfold tegrabl_generic_free, bind, get, assert, lift, modify, ret. unfold ALLOC_HDR in *.
    assert (is_null p = false) as -> by (unfold is_null; lia).
    rewrite Hv, A2, A3, H5. cbn [andb].
    rewrite (find_place_spec _ (start (heap_info h t)) 0 l1 l2 s p (s + z)); try lia; try done.
    2:{ apply seg_app in Hs as [Sl Sr]. apply seg_app. split; (eapply (seg_region (mem h)); [..|eassumption]; [eassumption|]; intros k Hk; by outs). }
    2:{ eapply packed_weaken; [..|exact P2]; lia. }
    unfold linked, link_prev, link_next in Em. rewrite Em. cbn [heap_info set_mem].
    rewrite H8, wrapw_small by (unfold in_word; lia). done.
  - intros k Hk. rewrite Hu', Hu1; done.
Qed.

(** What [release] covers: the bytes of the list and of the released block. *)
Definition covers (l : list extent) (x : Z) : Prop := exists b z, (b, z) ∈ l /\ b <= x < b + z.

Lemma covers_cons b z l x : covers ((b, z) :: l) x <-> (b <= x < b + z) \/ covers l x.
Proof.
  split.
  - intros (c & y & Hin & Hx). apply elem_of_cons in Hin as [[= -> ->]|Hin]; [by left|right; by exists c, y].
  - intros [Hx|(c & y & Hin & Hx)]; [exists b, z|exists c, y]; split; try done; [by constructor|by right].
Qed.

Lemma covers_nil x : covers [] x <-> False.
Proof. split; [|done]. intros (c & y & Hin & _). by apply elem_of_nil in Hin. Qed.

Lemma covers_release s z l x :
  0 <= z -> Forall (fun e => 0 <= e.2) l -> covers (release s z l) x <-> (s <= x < s + z) \/ covers l x.
Proof.
  intros Hz Hl. revert s z Hz. induction l as [|[b y] l IH]; intros s z Hz; cbn [release]; [by rewrite covers_cons|].
  inversion Hl as [|? ? Hy Hl']; subst. simpl in Hy. specialize (IH Hl').
  repeat case_if; zbool; rewrite ?covers_cons; try tauto.
  - assert (s <= x < s + (z + y) <-> (s <= x < s + z) \/ (b <= x < b + y)) by lia. tauto.
  - rewrite IH by lia.
    assert (b <= x < b + (y + z) <-> (s <= x < s + z) \/ (b <= x < b + y)) by lia. tauto.
  - rewrite IH by done. tauto.
Qed.

Lemma packed_sizes lo l hi : packed lo l hi -> Forall (fun e => 0 <= e.2) l.
Proof.
  revert lo. induction l as [|[b z] l IH]; intros lo Hp; [by constructor|]. destruct Hp as (?&?&?&Hp).
  unfold MIN_SIZE in *. constructor; [simpl; lia|by eapply IH].
Qed.

Lemma release_granted lo (l1 : list extent) b z (l2 : list extent) hi size :
  packed lo (l1 ++ (b, z) :: l2) hi -> MIN_SIZE <= size <= z ->
  release b (granted z size) (l1 ++ rest_of b z size ++ l2) = l1 ++ (b, z) :: l2.
Proof.
  intros Hp Hs. destruct (around _ _ _ _ _ _ _ Hp Hs) as [P1 P2].
  apply packed_app in Hp as (_ & Q2 & Q3 & Q4 & Q5). unfold MIN_SIZE in *.
  assert (32 <= granted z size) by (unfold granted, MIN_SIZE; case_if; lia).
  rewrite (release_app lo l1 b (granted z size) _ hi); [|eapply packed_weaken; [..|exact P1]; lia|exact P2|done].
  assert (joined b (granted z size) (rest_of b z size ++ l2) = (z, l2)) as ->.
  { unfold granted, rest_of, MIN_SIZE in *. destruct (Z.leb_spec (z - size) 32); cbn [app joined].
    - destruct l2 as [|[c y] l2]; [done|]. cbn [packed joined] in *. by destruct (Z.eqb_spec (b + z) c); [lia|].
    - rewrite Z.eqb_refl. f_equal. lia. }
  cbn [fst snd]. destruct l1 as [|[c y] l0 _] using rev_ind; [done|]. rewrite last_snoc.
  apply packed_app in P1 as (_ & _ & _ & ? & _). by destruct (Z.eqb_spec (c + y) b); [lia|].
Qed.

Lemma set_free_list_fields t b h :
  free_size (heap_info (set_free_list t b h) t) = free_size (heap_info h t) /\
  free_list (heap_info (set_free_list t b h) t) = b.
Proof. cbn. by rewrite Z.eqb_refl. Qed.

Lemma dealloc_spec h t u (l1 l2 : list extent) s z p :
  heap_ok h t (l1 ++ l2) -> outside h t s z l1 l2 -> allocated (mem h) p s z ->
  s <= p - ALLOC_HDR -> p <= s + z -> u < TEGRABL_HEAP_TYPE_MAX -> served_by h u = t ->
  exists h', tegrabl_dealloc u p h = (Ret tt, h') /\ heap_ok h' t (release s z (l1 ++ l2)) /\
    same_bounds h h' t /\ untouched (mem h) (mem h') (l1 ++ (s, z) :: l2).
Proof.
  intros Hok Hout Hal Hp1 Hp2 Hu Hsv.
  destruct (generic_free_spec _ _ _ _ _ _ _ Hok Hout Hal Hp1 Hp2) as (m' & E & Hs' & Hun).
  pose proof Hok as [H1 H2 H3 H4 H5 Hs Hp H8]. pose proof Hout as [[R1 R2] Rz P1 P2].
  pose proof (release_packed _ _ _ _ _ _ (conj H1 R1) (conj R2 H4) Rz P1 P2) as Hpk.
  pose proof (head_release _ _ _ _ _ _ P1 P2 Rz) as Hh.
  set (h1 := set_free_size t (total (l1 ++ l2) + z) (set_mem m' h)) in *.
  set (r := head_or (release s z (l1 ++ l2)) 0) in *.
  assert (Hb1 : same_bounds h h1 t) by (unfold h1; eapply same_bounds_trans; [apply bounds_set_mem|apply bounds_free_size]).
  assert (Hfl : free_list (heap_info h1 t) = head_or (l1 ++ l2) 0) by (unfold h1; cbn; by rewrite Z.eqb_refl).
  assert (Hfs : free_size (heap_info h1 t) = total (release s z (l1 ++ l2))).
  { unfold h1. cbn. rewrite Z.eqb_refl. cbn. by rewrite total_release. }
  assert (Hr : is_null r = false).
  { rewrite Hh. unfold is_null. destruct l1 as [|[c y] l0]; cbn [app head_or]; [lia|].
    cbn [packed] in P1. lia. }
  unfold tegrabl_dealloc, bind, get. destruct (Z.leb_spec TEGRABL_HEAP_TYPE_MAX u); [lia|].
  rewrite Hsv, E, Hr. unfold update_free_list_head, bind, get, when, modify, ret. rewrite Hfl.
  destruct (is_null (head_or (l1 ++ l2) 0) || (r <? head_or (l1 ++ l2) 0)) eqn:Ec.
  - eexists. split; [reflexivity|]. split; [|split; [eapply same_bounds_trans; [exact Hb1|apply bounds_free_list]|exact Hun]].
    apply (heap_ok_intro h _ t _ _ Hok); try done.
    + eapply same_bounds_trans; [exact Hb1|apply bounds_free_list].
    + rewrite <- Hfs. by apply (set_free_list_fields t r h1).
    + by apply (set_free_list_fields t r h1).
  - eexists. split; [reflexivity|]. split; [|split; [exact Hb1|exact Hun]].
    apply (heap_ok_intro h _ t _ _ Hok); try done. rewrite Hfl.
    apply orb_false_iff in Ec as [En Er]. fold r. rewrite Hh in *. unfold is_null in En.
    destruct l1 as [|[c y] l0]; [|done]. cbn [app head_or] in *. destruct l2 as [|[c y] l2]; [done|].
    cbn [head_or packed] in *. lia.
Qed.

(** ** The contract of the heap *)

(** A heap of at least 32 bytes is initialised to a single free block
    that fills it, every other heap staying as it is; a smaller region, an
    unknown heap type and a heap that already has free blocks are refused. *)
Theorem heap_init_single_block h t s z :
  0 < s -> 0 <= z -> s + z < 2 ^ 64 ->
  if z <? MIN_SIZE then exists e, tegrabl_heap_init t s z h = (Err e, h)
  else if (TEGRABL_HEAP_TYPE_MAX <=? t) || negb (is_null (free_list (heap_info h t)))
  then exists e, tegrabl_heap_init t s z h = (Err e, h)
  else exists h', tegrabl_heap_init t s z h = (Ret tt, h') /\ heap_ok h' t [(s, z)] /\
    untouched (mem h) (mem h') [(s, z)] /\ (forall u, u <> t -> heap_info h' u = heap_info h u).
Proof.
  intros Hs Hz Hw. unfold tegrabl_heap_init, bind, get, fail_if, err, put, ret.
  destruct (Z.ltb_spec z MIN_SIZE); [by eexists|].
  destruct (TEGRABL_HEAP_TYPE_MAX <=? t); [by eexists|]. cbn [orb].
  destruct (is_null (free_list (heap_info h t))); cbn [negb]; [|by eexists].
  unfold MIN_SIZE in *. eexists. split; [reflexivity|]. split; [|split].
  - constructor; cbn [heap_info set_info set_mem mem]; rewrite ?Z.eqb_refl; cbn [start end_ max_size free_size free_list];
      rewrite ?wrapw_small by (unfold in_word; lia); try lia; try done.
    + cbn [seg head_or]. split_and!; try (reads; done).
    + unfold total. simpl. lia.
  - intros x Hx. specialize (Hx s z ltac:(constructor)). cbn [mem set_mem set_info]. outs. done.
  - intros u Hu. cbn. by destruct (Z.eqb_spec u t).
Qed.

(** Memory and heaps before initialisation, and a heap with a block on it. *)
Definition blank : heap := mk_heap (fun _ => 0) (fun _ => mk_info 0 0 0 0 0).
Definition heap_4k : heap := (tegrabl_heap_init 0 0x1000 0x1000 blank).2.
Definition heap_used : heap := (tegrabl_malloc 100 heap_4k).2.

(** The heap [heap_4k] is a single block. *)
Ltac heap_by_computing :=
  constructor; try (vm_compute; done); cbn [seg packed head_or]; repeat split; vm_compute; congruence.

Lemma heap_init_single_block_witness :
  0 < 0x1000 /\
  exists h', tegrabl_heap_init 0 0x1000 0x1000 blank = (Ret tt, h') /\ heap_ok h' 0 [(0x1000, 0x1000)].
Proof.
  split; [done|]. destruct (heap_init_single_block blank 0 0x1000 0x1000 ltac:(lia) ltac:(lia) ltac:(lia)) as (h' & ? & ? & _).
  by exists h'.
Defined.

(** C15.  Allocation is first fit: a request is refused (and nothing changes)
    only if it is for 0 bytes or no free block exceeds it by more than 31
    bytes; otherwise the first sufficiently large block is taken, whole or
    split, so that the list stays consistent, at least [size] bytes follow the
    header, the header records what was granted, and no byte outside the free
    blocks is written. *)
Theorem malloc_first_fit h t l size :
  heap_ok h t l -> 0 <= size < 2 ^ 64 ->
  (tegrabl_generic_malloc t size h = (Ret 0, h) /\ (size = 0 \/ Forall (fun e => e.2 <= size + 31) l)) \/
  (exists l1 b z l2 k h',
     l = l1 ++ (b, z) :: l2 /\ size + 24 <= k < z /\ Forall (fun e => e.2 <= k) l1 /\
     tegrabl_generic_malloc t size h = (Ret (b + ALLOC_HDR), h') /\
     heap_ok h' t (l1 ++ rest_of b z k ++ l2) /\ same_bounds h h' t /\
     allocated (mem h') (b + ALLOC_HDR) b (granted z k) /\ untouched (mem h) (mem h') l).
Proof.
  intros Hok Hs. destruct (malloc_cases _ _ _ _ Hok Hs) as [H|(l1 & b & z & l2 & -> & Hp & Hn & Hf & E)]; [by left|right].
  assert (Hm : MIN_SIZE <= need size <= z).
  { pose proof (Z.le_max_r (raw_need size) MIN_SIZE). unfold need in *. lia. }
  destruct (malloc_heap_ok _ _ _ _ _ _ _ Hok Hm) as (A & B & C & D).
  exists l1, b, z, l2, (need size), (malloc_heap h t b z (need size) l1 l2). split_and!; try done; try apply B; lia.
Qed.

Lemma malloc_first_fit_witness :
  heap_ok heap_4k 0 [(0x1000, 0x1000)] /\ 0 <= 100 < 2 ^ 64 /\
  (tegrabl_generic_malloc 0 100 heap_4k).1 = Ret 0x1018 /\
  ((tegrabl_generic_malloc 0 100 heap_4k = (Ret 0, heap_4k) /\ (100 = 0 \/ Forall (fun e => e.2 <= 131) [(0x1000, 0x1000)])) \/
   exists b h', tegrabl_generic_malloc 0 100 heap_4k = (Ret (b + ALLOC_HDR), h')).
Proof.
  assert (Hok : heap_ok heap_4k 0 [(0x1000, 0x1000)]) by heap_by_computing.
  split; [exact Hok|]. split; [lia|]. split; [reflexivity|].
  destruct (malloc_first_fit heap_4k 0 _ 100 Hok ltac:(lia)) as [H|(l1 & b & z & l2 & k & h' & _ & _ & _ & E & _)]; [by left|].
  right. by exists b, h'.
Defined.

(** C14.  Releasing a valid block inserts it in address order and joins it
    with the free blocks next to it: the list stays consistent, covers the
    bytes it covered and those of the block, and no other byte is written. *)
Theorem free_coalesces h t u l1 l2 s z p :
  heap_ok h t (l1 ++ l2) -> outside h t s z l1 l2 -> allocated (mem h) p s z ->
  s <= p - ALLOC_HDR -> p <= s + z -> u < TEGRABL_HEAP_TYPE_MAX -> served_by h u = t ->
  exists h', tegrabl_dealloc u p h = (Ret tt, h') /\ heap_ok h' t (release s z (l1 ++ l2)) /\
    (forall x, covers (release s z (l1 ++ l2)) x <-> (s <= x < s + z) \/ covers (l1 ++ l2) x) /\
    same_bounds h h' t /\ untouched (mem h) (mem h') (l1 ++ (s, z) :: l2).
Proof.
  intros Hok Hout Hal Hp1 Hp2 Hu Hsv.
  destruct (dealloc_spec _ _ _ _ _ _ _ _ Hok Hout Hal Hp1 Hp2 Hu Hsv) as (h' & E & A & B & C).
  exists h'. split_and!; try done; try apply B. intros x. apply covers_release.
  - pose proof (out_size _ _ _ _ _ _ Hout). lia.
  - eapply packed_sizes, (ok_packed _ _ _ Hok).
Qed.

Lemma free_coalesces_witness :
  exists h', heap_ok heap_used 0 [(0x1080, 0xf80)] /\ allocated (mem heap_used) 0x1018 0x1000 0x80 /\
    tegrabl_dealloc 0 0x1018 heap_used = (Ret tt, h') /\ heap_ok h' 0 [(0x1000, 0x1000)].
Proof.
  assert (Hok : heap_ok heap_used 0 ([] ++ [(0x1080, 0xf80)])) by heap_by_computing.
  assert (Hout : outside heap_used 0 0x1000 0x80 [] [(0x1080, 0xf80)]).
  { constructor; change (end_ (heap_info heap_used 0)) with 0x2000; change (start (heap_info heap_used 0)) with 0x1000;
    cbn [packed]; unfold MIN_SIZE; lia. }
  assert (Hal : allocated (mem heap_used) 0x1018 0x1000 0x80) by (vm_compute; split_and!; done).
  destruct (free_coalesces heap_used 0 0 [] [(0x1080, 0xf80)] 0x1000 0x80 0x1018 Hok Hout Hal
    ltac:(vm_compute; congruence) ltac:(lia) ltac:(vm_compute; done) ltac:(vm_compute; done)) as (h' & E & A & _).
  exists h'. split; [exact Hok|split; [exact Hal|split; [exact E|exact A]]].
Defined.

(** Allocating and releasing again restores the free list: the heap is
    consistent with the blocks it had before, and the same number of free
    bytes. *)
Theorem malloc_free_restores h t u l size p h1 :
  heap_ok h t l -> 0 < size < 2 ^ 64 -> u < TEGRABL_HEAP_TYPE_MAX ->
  tegrabl_generic_malloc t size h = (Ret p, h1) -> p <> 0 -> served_by h1 u = t ->
  exists h2, tegrabl_dealloc u p h1 = (Ret tt, h2) /\ heap_ok h2 t l /\ same_bounds h h2 t /\
    untouched (mem h) (mem h2) l.
Proof.
  intros Hok Hs Hu E Hp Hsv.
  destruct (malloc_cases h t l size Hok ltac:(lia)) as [[E' _]|(l1 & b & z & l2 & -> & _ & Hn & _ & E')];
    rewrite E in E'; [by injection E' as ->|]. injection E' as -> ->.
  assert (Hm : MIN_SIZE <= need size <= z).
  { pose proof (Z.le_max_r (raw_need size) MIN_SIZE). unfold need in *. lia. }
  destruct (malloc_heap_ok _ _ _ _ _ _ _ Hok Hm) as (A & B & C & D).
  set (h1 := malloc_heap h t b z (need size) l1 l2) in *.
  destruct (around _ _ _ _ _ _ _ (ok_packed _ _ _ Hok) Hm) as [R1 R2].
  pose proof (ok_packed _ _ _ Hok) as Q. apply packed_app in Q as (Q1 & Q2 & Q3 & Q4 & Q5). unfold MIN_SIZE in *.
  pose proof B as (_ & B1 & B2 & _).
  assert (Hg : 32 <= granted z (need size) <= z) by (unfold granted, MIN_SIZE; case_if; lia).
  assert (Hout : outside h1 t b (granted z (need size)) l1 (rest_of b z (need size) ++ l2)).
  { constructor; rewrite ?B1, ?B2; try lia; [eapply packed_weaken; [..|exact R1]; lia|exact R2]. }
  destruct (dealloc_spec h1 t u l1 _ _ _ (b + ALLOC_HDR) A Hout C) as (h2 & E2 & A2 & B2' & D2);
    try done; try (unfold ALLOC_HDR; lia).
  exists h2. rewrite (release_granted _ _ _ _ _ _ _ (ok_packed _ _ _ Hok) Hm) in A2.
  split_and!; try done; try (eapply same_bounds_trans; eassumption).
  intros x Hx. rewrite D2; [by apply D|]. intros c y Hin. pose proof (out_last _ _ _ _ _ Hx) as Hb.
  apply elem_of_app in Hin as [Hin|Hin]; [apply Hx, elem_of_app; by left|].
  apply elem_of_cons in Hin as [[= -> ->]|Hin]; [lia|].
  apply elem_of_app in Hin as [Hin|Hin]; [|apply Hx, elem_of_app; right; by right].
  unfold rest_of, granted, MIN_SIZE in *. destruct (Z.leb_spec (z - need size) 32); [by apply elem_of_nil in Hin|].
  apply elem_of_cons in Hin as [[= -> ->]|Hin]; [lia|by apply elem_of_nil in Hin].
Qed.

Lemma malloc_free_restores_witness :
  heap_ok heap_4k 0 [(0x1000, 0x1000)] /\ tegrabl_generic_malloc 0 100 heap_4k = (Ret 0x1018, heap_used) /\
  exists h2, tegrabl_dealloc 0 0x1018 heap_used = (Ret tt, h2) /\ heap_ok h2 0 [(0x1000, 0x1000)].
Proof.
  assert (Hok : heap_ok heap_4k 0 [(0x1000, 0x1000)]) by heap_by_computing.
  assert (E : tegrabl_generic_malloc 0 100 heap_4k = (Ret 0x1018, heap_used)) by reflexivity.
  split; [exact Hok|]. split; [exact E|].
  destruct (malloc_free_restores heap_4k 0 0 _ 100 0x1018 heap_used Hok ltac:(lia)
    ltac:(vm_compute; done) E ltac:(lia) ltac:(vm_compute; done)) as (h2 & F & A & _).
  exists h2. split; [exact F|exact A].
Defined.

(** [tegrabl_calloc] multiplies without overflow: when it returns a
    block, [nmemb * size] bytes behind the header belong to it and are zero,
    and the list is consistent; otherwise it returns [NULL] and changes
    nothing.  The assertion on the product never fails. *)
Theorem calloc_zeroes h l nmemb size :
  heap_ok h TEGRABL_HEAP_DEFAULT l -> 0 <= size < 2 ^ 64 -> 0 <= nmemb < 2 ^ 64 ->
  tegrabl_calloc nmemb size h = (Ret 0, h) \/
  (exists p z l' h', tegrabl_calloc nmemb size h = (Ret p, h') /\ heap_ok h' TEGRABL_HEAP_DEFAULT l' /\
     allocated (mem h') p (p - ALLOC_HDR) z /\ ALLOC_HDR + nmemb * size <= z /\
     (forall x, p <= x < p + nmemb * size -> mem h' x = 0)).
Proof.
  intros Hok Hs Hn. unfold tegrabl_calloc, bind, get, assert, ret.
  destruct (Z.eqb_spec size 0); [by left|].
  destruct (Z.ltb_spec (max_size (heap_info h TEGRABL_HEAP_DEFAULT) / size) nmemb) as [|Hd]; [by left|].
  assert (Hm : size * nmemb <= max_size (heap_info h TEGRABL_HEAP_DEFAULT)).
  { etransitivity; [|apply (Z.mul_div_le _ size); lia]. nia. }
  pose proof Hok as [H1 H2 H3 H4 _ _ _ _].
  rewrite wrapw_small by (unfold in_word; nia). rewrite (Z.mul_comm size), Z.div_mul, Z.eqb_refl by done.
  unfold tegrabl_malloc.
  destruct (malloc_cases h _ l (nmemb * size) Hok ltac:(nia)) as [[-> _]|(l1 & b & z & l2 & -> & Hp & Hk & _ & ->)]; [by left|].
  right. assert (Hg : MIN_SIZE <= need (nmemb * size) <= z).
  { pose proof (Z.le_max_r (raw_need (nmemb * size)) MIN_SIZE). unfold need in *. lia. }
  destruct (malloc_heap_ok _ _ _ _ _ _ _ Hok Hg) as (A & B & C & D).
  destruct (around _ _ _ _ _ _ _ (ok_packed _ _ _ Hok) Hg) as [R1 R2].
  pose proof (ok_packed _ _ _ Hok) as Q. apply packed_app in Q as (Q1 & Q2 & Q3 & Q4 & Q5).
  set (h1 := malloc_heap h TEGRABL_HEAP_DEFAULT b z (need (nmemb * size)) l1 l2) in *. unfold ALLOC_HDR in *.
  assert (is_null (b + 24) = false) as -> by (unfold is_null; lia).
  assert (Hgr : 24 + nmemb * size <= granted z (need (nmemb * size))) by (unfold granted; case_if; zbool; lia).
  unfold when, modify. eexists (b + 24), _, _, _. split; [reflexivity|]. split; [|split; [|split; [exact Hgr|]]].
  - apply (heap_ok_intro h1 _ _ _ _ A (bounds_set_mem _ _ _)); [|exact (ok_packed _ _ _ A)|exact (ok_free _ _ _ A)|exact (ok_head _ _ _ A)].
    pose proof (ok_seg _ _ _ A) as S. apply seg_app in S as [Sa Sb]. apply seg_app.
    split; (eapply (seg_region (mem h1)); [..|eassumption]; [eassumption|]); intros x Hx;
      cbn [mem set_mem]; unfold zero_fill; case_if; zbool; lia || done.
  - destruct C as (C1 & C2 & C3). unfold allocated, ALLOC_HDR in *. replace (b + 24 - 24) with b in * by lia.
    fields. cbn [mem set_mem]. rewrite !(ldm_ext _ (mem h1) (zero_fill _ _ (mem h1))); [by split_and!|..];
      intros x Hx; unfold zero_fill; case_if; zbool; lia || done.
  - intros x Hx. cbn [mem set_mem]. unfold zero_fill. case_if; zbool; lia || done.
Qed.

Lemma calloc_zeroes_witness :
  heap_ok heap_4k TEGRABL_HEAP_DEFAULT [(0x1000, 0x1000)] /\ (tegrabl_calloc 10 16 heap_4k).1 = Ret 0x1018 /\
  (tegrabl_calloc 10 16 heap_4k = (Ret 0, heap_4k) \/
   exists p h', tegrabl_calloc 10 16 heap_4k = (Ret p, h') /\ (forall x, p <= x < p + 160 -> mem h' x = 0)).
Proof.
  assert (Hok : heap_ok heap_4k TEGRABL_HEAP_DEFAULT [(0x1000, 0x1000)]) by heap_by_computing.
  split; [exact Hok|]. split; [reflexivity|].
  destruct (calloc_zeroes heap_4k _ 10 16 Hok ltac:(lia) ltac:(lia)) as [H|(p & z & l' & h' & E & _ & _ & _ & Z)]; [by left|].
  right. exists p, h'. split; [exact E|exact Z].
Defined.

(** Once the free list of the DMA heap is empty, releasing one of its
    blocks is attempted on the default heap, where the block is out of bounds:
    the program hangs. *)
Theorem dealloc_exhausted_dma_hangs h s z p :
  free_list (heap_info h TEGRABL_HEAP_DMA) = 0 -> allocated (mem h) p s z -> p <> 0 ->
  0 <= s -> 0 <= z -> s + z < 2 ^ 64 ->
  s < start (heap_info h TEGRABL_HEAP_DEFAULT) \/ end_ (heap_info h TEGRABL_HEAP_DEFAULT) < s + z ->
  tegrabl_dealloc TEGRABL_HEAP_DMA p h = (Halt, h).
Proof.
  intros Hf (A1 & A2 & A3) Hp Hs Hz Hw Hout. unfold tegrabl_dealloc, bind, get. cbn [Z.leb].
  change (TEGRABL_HEAP_TYPE_MAX <=? TEGRABL_HEAP_DMA) with false. cbn iota.
  unfold served_by. rewrite Hf. cbn [is_null Z.eqb]. unfold tegrabl_generic_free, bind, get, assert.
  assert (is_null p = false) as -> by (unfold is_null; lia).
  assert (validate_allocated_block (mem h) (heap_info h TEGRABL_HEAP_DEFAULT) (p - ALLOC_HDR) = false) as ->; [|done].
  unfold validate_allocated_block. rewrite A1, A2, A3, wrapw_small by (unfold in_word; lia).
  replace ((s <? start (heap_info h TEGRABL_HEAP_DEFAULT)) || (end_ (heap_info h TEGRABL_HEAP_DEFAULT) <? s + z))
    with true by (symmetry; apply orb_true_iff; rewrite !Z.ltb_lt; done).
  cbn [negb]. by rewrite andb_false_r.
Qed.

(** A heap of 64 bytes for DMA, all of it allocated. *)
Definition heap_dma : heap :=
  (tegrabl_alloc TEGRABL_HEAP_DMA 16 (tegrabl_heap_init TEGRABL_HEAP_DMA 0x3000 64 heap_4k).2).2.

Lemma dealloc_exhausted_dma_hangs_witness :
  tegrabl_alloc TEGRABL_HEAP_DMA 16 (tegrabl_heap_init TEGRABL_HEAP_DMA 0x3000 64 heap_4k).2 = (Ret 0x3018, heap_dma) /\
  tegrabl_dealloc TEGRABL_HEAP_DMA 0x3018 heap_dma = (Halt, heap_dma).
Proof.
  split; [reflexivity|]. apply (dealloc_exhausted_dma_hangs heap_dma 0x3000 64 0x3018); try lia.
  - reflexivity.
  - vm_compute. split_and!; done.
  - right. vm_compute. done.
Defined.

(** A heap of one block, before and after an aligned block was taken and
    given back. *)
Definition heap_256 : heap := (tegrabl_heap_init 0 0x1000 256 blank).2.

(** An aligned allocation loses the bytes that were too few to be split
    off: a block aligned to 128 bytes taken and released again leaves a free
    list that is 24 bytes shorter. *)
Theorem memalign_loses_remainder :
  let '(o, h1) := tegrabl_memalign 128 104 heap_256 in
  let '(o', h2) := tegrabl_free 0x1080 h1 in
  o = Ret 0x1080 /\ o' = Ret tt /\ free_size (heap_info heap_256 0) = 256 /\
  free_list (heap_info h2 0) = 0x1000 /\ get_size (mem h2) 0x1000 = 232 /\
  get_next (mem h2) 0x1000 = 0 /\ free_size (heap_info h2 0) = 232.
Proof. vm_compute. split_and!; done. Qed.
