(* ===== verification/Sparse.v ===== *)
(** * Sparse images

    lib/sparse/tegrabl_sparse.c (making an image) and
    lib/sparse/tegrabl_unsparse.c (the state machine that expands one, fed with
    the image in pieces).

    Headers are byte lists with the offsets of the C structs.  The writer and
    the seeker are the function pointers of the state; what they act on is the
    world [W].  [TEGRABL_CONFIG_ENABLE_SPARSE_CRC32] is not set by any build
    file, so its code is left out. *)
From S2P Require Import Prelude Errors.

(** ** Data *)

Definition MODULE : Z := TEGRABL_ERR_SPARSE.
Definition TEGRABL_ERROR (reason aux_info : Z) : Z := tegrabl_error_value MODULE aux_info reason.
Definition SET_HIGHEST_MODULE (e : Z) : Z := tegrabl_err_set_highest_module e MODULE.

Definition TEGRABL_SPARSE_HEADER_MAGIC : Z := 0xED26FF3A.
Definition TEGRABL_SPARSE_HEADER_MAJOR_VERSION : Z := 1.
Definition SPARSE_MAX_LOCAL_BUFFER : Z := 1024.

Definition TEGRABL_SPARSE_CHUNK_TYPE_RAW : Z := 0xCAC1.
Definition TEGRABL_SPARSE_CHUNK_TYPE_FILL : Z := 0xCAC2.
Definition TEGRABL_SPARSE_CHUNK_TYPE_DONT_CARE : Z := 0xCAC3.
Definition TEGRABL_SPARSE_CHUNK_TYPE_CRC : Z := 0xCAC4.

Definition TEGRABL_UNSPARSE_PARTIAL_IMAGE_HEADER : Z := 1.
Definition TEGRABL_UNSPARSE_PARTIAL_CHUNK_HEADER : Z := 2.
Definition TEGRABL_UNSPARSE_PARTIAL_CHUNK_RAW : Z := 3.
Definition TEGRABL_UNSPARSE_PARTIAL_CHUNK_FILL : Z := 4.
Definition TEGRABL_UNSPARSE_PARTIAL_CHUNK_DONT_CARE : Z := 5.
Definition TEGRABL_UNSPARSE_PARTIAL_CHUNK_CRC : Z := 6.

(** [struct tegrabl_sparse_image_header] *)
Definition IMAGE_HEADER_LEN : nat := 28.
Definition magic (h : list Z) : Z := ld32 h 0.
Definition major_version (h : list Z) : Z := ld16 h 4.
Definition chunk_hdr_sz (h : list Z) : Z := ld16 h 10.
Definition blk_sz (h : list Z) : Z := ld32 h 12.
Definition total_blks (h : list Z) : Z := ld32 h 16.
Definition total_chunks (h : list Z) : Z := ld32 h 20.

(** [struct tegrabl_sparse_chunk_header] *)
Definition CHUNK_HEADER_LEN : nat := 12.
Definition chunk_type (h : list Z) : Z := ld16 h 0.
Definition chunk_sz (h : list Z) : Z := ld32 h 4.
Definition total_sz (h : list Z) : Z := ld32 h 8.

Definition tegrabl_sparse_image_check (buffer : list Z) : bool :=
  if Z.of_nat (length buffer) <? 4 then false else ld32 buffer 0 =? TEGRABL_SPARSE_HEADER_MAGIC.

(** [struct tegrabl_unsparse_state] *)
Record unsparse_state (W : Type) := mk_us {
  state : Z;
  image_header : list Z;
  chunk_header : list Z;
  offset : Z;
  remaining : Z;
  max_unsparse_size : Z;
  fill_value : list Z;
  chunks_processed : Z;
  writer : option (list Z -> M W unit);
  seeker : option (Z -> M W unit);
}.
Arguments mk_us {W}. Arguments state {W}. Arguments image_header {W}. Arguments chunk_header {W}.
Arguments offset {W}. Arguments remaining {W}. Arguments max_unsparse_size {W}.
Arguments fill_value {W}. Arguments chunks_processed {W}. Arguments writer {W}. Arguments seeker {W}.

Section Unsparse.
Context {W : Type}.

(** The state handle and the world behind the callbacks. *)
Record machine := mk_machine { us : unsparse_state W; world : W }.

Definition set_us (f : unsparse_state W -> unsparse_state W) (s : machine) : machine := mk_machine (f (us s)) (world s).
Definition set_image_header (b : list Z) (u : unsparse_state W) : unsparse_state W :=
  mk_us (state u) b (chunk_header u) (offset u) (remaining u) (max_unsparse_size u) (fill_value u)
    (chunks_processed u) (writer u) (seeker u).
Definition set_chunk_header (b : list Z) (u : unsparse_state W) : unsparse_state W :=
  mk_us (state u) (image_header u) b (offset u) (remaining u) (max_unsparse_size u) (fill_value u)
    (chunks_processed u) (writer u) (seeker u).
Definition set_fill_value (b : list Z) (u : unsparse_state W) : unsparse_state W :=
  mk_us (state u) (image_header u) (chunk_header u) (offset u) (remaining u) (max_unsparse_size u) b
    (chunks_processed u) (writer u) (seeker u).

(** A call of a callback: its error is passed on with this module's number. *)
Definition call (c : M W unit) : M machine unit := fun s =>
  let '(o, w) := map_err SET_HIGHEST_MODULE c (world s) in (o, mk_machine (us s) w).

Definition tegrabl_sparse_init_unsparse_state (present : bool) (max_unsparse_size : Z)
    (writer : option (list Z -> M W unit)) (seeker : option (Z -> M W unit)) : outcome (unsparse_state W) :=
  match present, writer, seeker with
  | true, Some _, Some _ =>
      if max_unsparse_size =? 0 then Err (TEGRABL_ERROR TEGRABL_ERR_BAD_PARAMETER 0)
      else Ret (mk_us TEGRABL_UNSPARSE_PARTIAL_IMAGE_HEADER (repeat 0 IMAGE_HEADER_LEN)
                  (repeat 0 CHUNK_HEADER_LEN) 0 (Z.of_nat IMAGE_HEADER_LEN) max_unsparse_size (repeat 0 4) 0
                  writer seeker)
  | _, _, _ => Err (TEGRABL_ERROR TEGRABL_ERR_BAD_PARAMETER 0)
  end.

(** ** Validation *)

Definition tegrabl_sparse_validate_header (h : list Z) (max_unsparse_size : Z) : outcome unit :=
  if negb (major_version h =? TEGRABL_SPARSE_HEADER_MAJOR_VERSION)
  then Err (TEGRABL_ERROR TEGRABL_ERR_INVALID_VERSION 0)
  else if max_unsparse_size <? u64 (blk_sz h * total_blks h) then Err (TEGRABL_ERROR TEGRABL_ERR_OVERFLOW 0)
  else Ret tt.

Definition tegrabl_sparse_validate_chunk_header (ih ch : list Z) : outcome unit :=
  if chunk_type ch =? TEGRABL_SPARSE_CHUNK_TYPE_RAW then
    if negb (total_sz ch =? u32 (chunk_hdr_sz ih + u32 (chunk_sz ch * blk_sz ih)))
    then Err (TEGRABL_ERROR TEGRABL_ERR_INVALID_CONFIG 0) else Ret tt
  else if chunk_type ch =? TEGRABL_SPARSE_CHUNK_TYPE_DONT_CARE then
    if negb (total_sz ch =? chunk_hdr_sz ih) then Err (TEGRABL_ERROR TEGRABL_ERR_INVALID_CONFIG 1) else Ret tt
  else if chunk_type ch =? TEGRABL_SPARSE_CHUNK_TYPE_FILL then
    if negb (total_sz ch =? chunk_hdr_sz ih + 4) then Err (TEGRABL_ERROR TEGRABL_ERR_INVALID_CONFIG 2) else Ret tt
  else if chunk_type ch =? TEGRABL_SPARSE_CHUNK_TYPE_CRC then Ret tt
  else Err (TEGRABL_ERROR TEGRABL_ERR_INVALID 0).

(** ** The state machine *)

(** The local variables of [tegrabl_sparse_unsparse]; [length] is the length of
    the rest of the buffer. *)
Record locals := mk_locals {
  l_state : Z;
  l_remaining : Z;
  l_offset : Z;
  l_chunks : Z;
  sparse_buffer : list Z;
}.

(** [memcpy] of [size] bytes into a field of the state. *)
Definition copy_in (dst : list Z) (off size : Z) (src : list Z) : outcome (list Z) :=
  if off + size <=? Z.of_nat (length dst)
  then Ret (blit dst (Z.to_nat off) (take (Z.to_nat size) src)) else Undef.

(** The locals after [size] bytes were taken. *)
Definition consume (l : locals) (size : Z) : locals :=
  mk_locals (l_state l) (u64 (l_remaining l - size)) (u64 (l_offset l + size)) (l_chunks l)
    (drop (Z.to_nat size) (sparse_buffer l)).

(** Back to the start of a chunk header. *)
Definition next_chunk (l : locals) : M machine locals :=
  modify (set_us (set_chunk_header (repeat 0 CHUNK_HEADER_LEN))) ;;;
  ret (mk_locals TEGRABL_UNSPARSE_PARTIAL_CHUNK_HEADER (Z.of_nat CHUNK_HEADER_LEN) 0 (l_chunks l) (sparse_buffer l)).

Definition len (l : locals) : Z := Z.of_nat (length (sparse_buffer l)).

Definition step_image_header (l : locals) : M machine locals :=
  let size := Z.min (len l) (l_remaining l) in
  let! s := get in
  let! h := lift (copy_in (image_header (us s)) (l_offset l) size (sparse_buffer l)) in
  modify (set_us (set_image_header h)) ;;;
  let l := consume l size in
  if negb (l_remaining l =? 0) then ret l
  else
    lift (tegrabl_sparse_validate_header h (max_unsparse_size (us s))) ;;;
    modify (set_us (set_chunk_header (repeat 0 CHUNK_HEADER_LEN))) ;;;
    ret (mk_locals TEGRABL_UNSPARSE_PARTIAL_CHUNK_HEADER (chunk_hdr_sz h) 0 (l_chunks l) (sparse_buffer l)).

Definition step_chunk_header (l : locals) : M machine locals :=
  let size := Z.min (len l) (l_remaining l) in
  let! s := get in
  let! h := (if l_offset l <? Z.of_nat CHUNK_HEADER_LEN
             then lift (copy_in (chunk_header (us s)) (l_offset l) size (sparse_buffer l))
             else ret (chunk_header (us s))) in
  modify (set_us (set_chunk_header h)) ;;;
  let l := consume l size in
  if negb (l_remaining l =? 0) then ret l
  else
    lift (tegrabl_sparse_validate_chunk_header (image_header (us s)) h) ;;;
    let chunks := u64 (l_chunks l + 1) in
    fail_if (total_chunks (image_header (us s)) <? chunks) (TEGRABL_ERROR TEGRABL_ERR_OUT_OF_RANGE 0) ;;;
    ret (mk_locals (u32 (chunk_type h - TEGRABL_SPARSE_CHUNK_TYPE_RAW + TEGRABL_UNSPARSE_PARTIAL_CHUNK_RAW))
           (u64 (chunk_sz h * blk_sz (image_header (us s)))) 0 chunks (sparse_buffer l)).

Definition step_raw (wr : list Z -> M W unit) (l : locals) : M machine locals :=
  let size := Z.min (len l) (l_remaining l) in
  call (wr (take (Z.to_nat size) (sparse_buffer l))) ;;;
  let l := consume l size in
  if l_remaining l =? 0 then next_chunk l else ret l.

(** The local array holds the fill value over and over. *)
Fixpoint fill_buffer (n : nat) (v : list Z) : list Z :=
  match n with O => [] | S n' => v ++ fill_buffer n' v end.

(** [while (remaining)] *)
Fixpoint write_fill (fuel : nat) (wr : list Z -> M W unit) (buffer : list Z) (remaining : Z) : M machine unit :=
  if remaining =? 0 then ret tt
  else match fuel with
  | O => nofuel
  | S fuel =>
      let size := Z.min remaining SPARSE_MAX_LOCAL_BUFFER in
      call (wr (take (Z.to_nat size) buffer)) ;;;
      write_fill fuel wr buffer (remaining - size)
  end.

Definition fill_fuel (remaining : Z) : nat := S (Z.to_nat (remaining / SPARSE_MAX_LOCAL_BUFFER)).

Definition step_fill (wr : list Z -> M W unit) (l : locals) : M machine locals :=
  let! s := get in
  let! l :=
    (if l_offset l <? 4 then
       let size := Z.min (len l) 4 in
       let! v := lift (copy_in (fill_value (us s)) (l_offset l) size (sparse_buffer l)) in
       modify (set_us (set_fill_value v)) ;;;
       ret (mk_locals (l_state l) (l_remaining l) (u64 (l_offset l + size)) (l_chunks l)
              (drop (Z.to_nat size) (sparse_buffer l)))
     else ret l) in
  if l_offset l <? 4 then ret l
  else
    let! s := get in
    let buffer := fill_buffer (Z.to_nat (SPARSE_MAX_LOCAL_BUFFER / 4)) (fill_value (us s)) in
    write_fill (fill_fuel (l_remaining l)) wr buffer (l_remaining l) ;;;
    next_chunk l.

Definition step_dont_care (sk : Z -> M W unit) (l : locals) : M machine locals :=
  call (sk (l_remaining l)) ;;;
  next_chunk l.

(** One turn of the loop.  A crc chunk only prints a message. *)
Definition unsparse_step (wr : list Z -> M W unit) (sk : Z -> M W unit) (l : locals) : M machine locals :=
  if l_state l =? TEGRABL_UNSPARSE_PARTIAL_IMAGE_HEADER then step_image_header l
  else if l_state l =? TEGRABL_UNSPARSE_PARTIAL_CHUNK_HEADER then step_chunk_header l
  else if l_state l =? TEGRABL_UNSPARSE_PARTIAL_CHUNK_RAW then step_raw wr l
  else if l_state l =? TEGRABL_UNSPARSE_PARTIAL_CHUNK_FILL then step_fill wr l
  else if l_state l =? TEGRABL_UNSPARSE_PARTIAL_CHUNK_DONT_CARE then step_dont_care sk l
  else if l_state l =? TEGRABL_UNSPARSE_PARTIAL_CHUNK_CRC then ret l
  else err (TEGRABL_ERROR TEGRABL_ERR_INVALID_STATE 0).

(** The condition of the loop. *)
Definition more (l : locals) : bool :=
  truthy (len l) || (l_state l =? TEGRABL_UNSPARSE_PARTIAL_CHUNK_DONT_CARE).

Fixpoint unsparse_loop (fuel : nat) (wr : list Z -> M W unit) (sk : Z -> M W unit) (l : locals) : M machine locals :=
  if negb (more l) then ret l
  else match fuel with
  | O => nofuel
  | S fuel => let! l := unsparse_step wr sk l in unsparse_loop fuel wr sk l
  end.

(** The locals at the start, and what is stored at the end. *)
Definition load_locals (u : unsparse_state W) (buff : list Z) : locals :=
  mk_locals (state u) (remaining u) (offset u) (chunks_processed u) buff.
Definition store_locals (l : locals) (u : unsparse_state W) : unsparse_state W :=
  mk_us (l_state l) (image_header u) (chunk_header u) (l_offset l) (l_remaining l) (max_unsparse_size u)
    (fill_value u) (l_chunks l) (writer u) (seeker u).

(** [None] for a null [buff]; [fuel] bounds the turns of the loop. *)
Definition tegrabl_sparse_unsparse (fuel : nat) (buff : option (list Z)) : M machine unit :=
  match buff with
  | None | Some [] => err (TEGRABL_ERROR TEGRABL_ERR_BAD_PARAMETER 1)
  | Some buff =>
      let! s := get in
      match writer (us s), seeker (us s) with
      | Some wr, Some sk =>
          let! l := unsparse_loop fuel wr sk (load_locals (us s) buff) in
          modify (set_us (store_locals l))
      | _, _ => err (TEGRABL_ERROR TEGRABL_ERR_NOT_INITIALIZED 0)
      end
  end.
End Unsparse.
Arguments machine : clear implicits.

(** ** Making an image *)

(** The allocator's calls.  [buf_malloc n] returns the content of a new block of
    [n] bytes or [NULL]; [tegrabl_realloc] is declared but not defined in the
    repository. *)
Class BufferApi (W : Type) := {
  tegrabl_malloc_buf : Z -> W -> option (list Z) * W;
  tegrabl_realloc : list Z -> Z -> W -> option (list Z) * W;
}.

Class BufferLaws (W : Type) `{BufferApi W} := {
  malloc_length n w b w' : tegrabl_malloc_buf n w = (Some b, w') -> length b = Z.to_nat n;
  realloc_length b n w b' w' : tegrabl_realloc b n w = (Some b', w') -> length b' = Z.to_nat n;
  realloc_prefix b n w b' w' : tegrabl_realloc b n w = (Some b', w') ->
    take (Nat.min (length b) (Z.to_nat n)) b' = take (Nat.min (length b) (Z.to_nat n)) b;
}.

(** [struct tegrabl_sparse_state] *)
Record sparse_state := mk_sparse {
  buffer : option (list Z);
  buffer_size : Z;
  image_size : Z;
}.

(** [DIV_CEIL] and [ROUND_UP] on 32-bit operands. *)
Definition DIV_CEIL (n d : Z) : outcome Z := if d =? 0 then Undef else Ret (u32 (u32 (n + d) - 1) / d).
Definition ROUND_UP (n d : Z) : outcome Z := let? q := DIV_CEIL n d in Ret (u32 (q * d)).

Section Make.
Context {W : Type} `{BufferApi W}.

Definition alloc (c : W -> option (list Z) * W) : M W (option (list Z)) := fun w =>
  let '(b, w) := c w in (Ret b, w).

Definition tegrabl_sparse_init (present : bool) (block_size : Z) : M W sparse_state :=
  fail_if (negb present || truthy (block_size mod 4096)) (TEGRABL_ERROR TEGRABL_ERR_INVALID 0) ;;;
  let size := Z.of_nat IMAGE_HEADER_LEN in
  let! b := alloc (tegrabl_malloc_buf size) in
  match b with
  | None => err (TEGRABL_ERROR TEGRABL_ERR_NO_MEMORY 0)
  | Some b =>
      let header := blit b 0 (repeat 0 IMAGE_HEADER_LEN) in
      let header := st32 header 0 TEGRABL_SPARSE_HEADER_MAGIC in
      let header := st16 header 4 1 in
      let header := st16 header 8 size in
      let header := st16 header 10 (Z.of_nat CHUNK_HEADER_LEN) in
      let header := st32 header 12 block_size in
      ret (mk_sparse (Some header) size 0)
  end.

(** The [switch] on the type: the size of the chunk in the image. *)
Definition chunk_buffer_size (header : list Z) (type data_size write_size : Z) : outcome Z :=
  let invalid := TEGRABL_ERROR TEGRABL_ERR_INVALID 0 in
  let size := chunk_hdr_sz header in
  if type =? TEGRABL_SPARSE_CHUNK_TYPE_RAW then
    let? r := ROUND_UP write_size (blk_sz header) in
    if negb (data_size =? write_size) then Err invalid else Ret (u32 (size + r))
  else if (type =? TEGRABL_SPARSE_CHUNK_TYPE_FILL) || (type =? TEGRABL_SPARSE_CHUNK_TYPE_CRC) then
    if negb (data_size =? 4) then Err invalid else Ret (u32 (size + 4))
  else if type =? TEGRABL_SPARSE_CHUNK_TYPE_DONT_CARE then
    if negb (data_size =? 0) then Err invalid else Ret size
  else Err invalid.

(** The new chunk is cleared and its header filled in, and the image header
    counts it; [q] is its number of blocks. *)
Definition put_chunk_header (b : list Z) (at_ : nat) (type q size : Z) : list Z :=
  let b := blit b at_ (repeat 0 (Z.to_nat size)) in
  let b := st16 b at_ type in
  let b := st32 b (at_ + 4) q in
  let b := st32 b (at_ + 8) size in
  let b := st32 b 16 (u32 (total_blks b + ld32 b (at_ + 4))) in
  st32 b 20 (u32 (total_chunks b + 1)).

(** [data_size] bytes are read from [data]. *)
Definition tegrabl_sparse_add_chunk (st : option sparse_state) (type : Z) (data : list Z)
    (data_size write_size : Z) : M W sparse_state :=
  let invalid := TEGRABL_ERROR TEGRABL_ERR_INVALID 0 in
  match st with
  | None => err invalid
  | Some st =>
      match buffer st with
      | None => err invalid
      | Some buf =>
          fail_if ((write_size =? 0) || (buffer_size st =? 0)) invalid ;;;
          let! size := lift (chunk_buffer_size buf type data_size write_size) in
          let total_buffer_size := u64 (buffer_size st + size) in
          let! b := alloc (tegrabl_realloc buf total_buffer_size) in
          match b with
          | None => err (TEGRABL_ERROR TEGRABL_ERR_NO_MEMORY 0)
          | Some b =>
              let at_ := Z.to_nat (buffer_size st) in
              let! q := lift (DIV_CEIL write_size (blk_sz b)) in
              let! r := lift (ROUND_UP write_size (blk_sz b)) in
              let b := put_chunk_header b at_ type q size in
              let dst := (at_ + Z.to_nat (chunk_hdr_sz b))%nat in
              if (Z.of_nat (length data) <? data_size)
                 || (Z.of_nat (length b) <? Z.of_nat dst + data_size) then undef
              else
                let b := blit b dst (take (Z.to_nat data_size) data) in
                ret (mk_sparse (Some b) total_buffer_size (u64 (image_size st + r)))
          end
      end
  end.

Definition tegrabl_sparse_get_buffer (st : option sparse_state) (buffer_ptr size_ptr : bool) : outcome (list Z * Z) :=
  match st with
  | Some (mk_sparse (Some b) size _) =>
      if negb (size =? 0) && buffer_ptr && size_ptr then Ret (b, size) else Err (TEGRABL_ERROR TEGRABL_ERR_INVALID 0)
  | _ => Err (TEGRABL_ERROR TEGRABL_ERR_INVALID 0)
  end.
End Make.
