(* ===== verification/SparseSpec.v ===== *)
(** * Sparse images: what is written

    An image made of chunks, what expanding it writes, and feeding it in
    pieces. *)
From S2P Require Import Prelude Errors Sparse.

(** ** Images as lists of chunks *)

Inductive chunk : Type :=
| Raw (data : list Z)
| Fill (v : list Z) (n : Z)
| DontCare (n : Z).

Definition type_of (c : chunk) : Z :=
  match c with
  | Raw _ => TEGRABL_SPARSE_CHUNK_TYPE_RAW
  | Fill _ _ => TEGRABL_SPARSE_CHUNK_TYPE_FILL
  | DontCare _ => TEGRABL_SPARSE_CHUNK_TYPE_DONT_CARE
  end.

Definition write_size (c : chunk) : Z :=
  match c with Raw d => Z.of_nat (length d) | Fill _ n => n | DontCare n => n end.

(** The blocks a chunk takes in the expanded image, and their size. *)
Definition blocks (bs : Z) (c : chunk) : Z := (write_size c + bs - 1) / bs.
Definition full_size (bs : Z) (c : chunk) : Z := blocks bs c * bs.

Definition chunk_ok (bs : Z) (c : chunk) : Prop :=
  0 < write_size c /\ full_size bs c + 12 < 2 ^ 32 /\
  match c with Fill v _ => length v = 4%nat | _ => True end.

(** The data of a raw chunk is padded to whole blocks. *)
Definition padded_data (bs : Z) (d : list Z) : list Z :=
  d ++ repeat 0 (Z.to_nat (full_size bs (Raw d)) - length d).

Definition payload (bs : Z) (c : chunk) : list Z :=
  match c with Raw d => padded_data bs d | Fill v _ => v | DontCare _ => [] end.

Definition chunk_head (bs : Z) (c : chunk) : list Z :=
  le 2 (type_of c) ++ [0; 0] ++ le 4 (blocks bs c) ++ le 4 (12 + Z.of_nat (length (payload bs c))).

Definition encode (bs : Z) (c : chunk) : list Z := chunk_head bs c ++ payload bs c.

Definition image_head (bs blks chunks : Z) : list Z :=
  le 4 TEGRABL_SPARSE_HEADER_MAGIC ++ le 2 1 ++ [0; 0] ++ le 2 28 ++ le 2 12 ++ le 4 bs ++
  le 4 blks ++ le 4 chunks ++ le 4 0.

Definition all_blocks (bs : Z) (cs : list chunk) : Z := foldr (fun c n => blocks bs c + n) 0 cs.

Definition encode_all (bs : Z) (cs : list chunk) : list Z := concat (map (encode bs) cs).

Definition image (bs : Z) (cs : list chunk) : list Z :=
  image_head bs (all_blocks bs cs) (Z.of_nat (length cs)) ++ encode_all bs cs.

(** Fields of the headers. *)
Lemma head_type bs c : chunk_type (chunk_head bs c) = type_of c.
Proof. unfold chunk_type. etransitivity; [exact (ldn_field 2 [] (type_of c) _)|]. by destruct c. Qed.

Lemma head_chunk_sz bs c : chunk_sz (chunk_head bs c) = u32 (blocks bs c).
Proof. exact (ldn_field 4 (le 2 (type_of c) ++ [0; 0]) (blocks bs c) _). Qed.

Lemma head_total_sz bs c : total_sz (chunk_head bs c) = u32 (12 + Z.of_nat (length (payload bs c))).
Proof.
  rewrite <- (app_nil_r (chunk_head bs c)).
  exact (ldn_field 4 (le 2 (type_of c) ++ [0; 0] ++ le 4 (blocks bs c)) _ []).
Qed.

Lemma image_major bs q n r : major_version (image_head bs q n ++ r) = 1.
Proof. exact (ldn_field 2 (le 4 TEGRABL_SPARSE_HEADER_MAGIC) 1 _). Qed.

Lemma image_chunk_hdr bs q n r : chunk_hdr_sz (image_head bs q n ++ r) = 12.
Proof. exact (ldn_field 2 (le 4 TEGRABL_SPARSE_HEADER_MAGIC ++ le 2 1 ++ [0; 0] ++ le 2 28) 12 _). Qed.

Lemma image_blk bs q n r : blk_sz (image_head bs q n ++ r) = u32 bs.
Proof. exact (ldn_field 4 (le 4 TEGRABL_SPARSE_HEADER_MAGIC ++ le 2 1 ++ [0; 0] ++ le 2 28 ++ le 2 12) bs _). Qed.

Lemma image_blks bs q n r : total_blks (image_head bs q n ++ r) = u32 q.
Proof.
  exact (ldn_field 4 (le 4 TEGRABL_SPARSE_HEADER_MAGIC ++ le 2 1 ++ [0; 0] ++ le 2 28 ++ le 2 12 ++ le 4 bs) q _).
Qed.

Lemma image_chunks bs q n r : total_chunks (image_head bs q n ++ r) = u32 n.
Proof.
  exact (ldn_field 4 (le 4 TEGRABL_SPARSE_HEADER_MAGIC ++ le 2 1 ++ [0; 0] ++ le 2 28 ++ le 2 12 ++ le 4 bs ++ le 4 q) n _).
Qed.

(** Sizes. *)
Lemma full_size_bounds bs c :
  0 < bs -> 0 < write_size c -> write_size c <= full_size bs c < write_size c + bs /\ 0 < blocks bs c.
Proof.
  intros Hb Hw. unfold full_size, blocks. pose proof (Z.mul_div_le (write_size c + bs - 1) bs Hb).
  pose proof (Z.mul_succ_div_gt (write_size c + bs - 1) bs Hb).
  split; [lia|]. apply Z.div_str_pos. lia.
Qed.

Lemma length_padded bs d : 0 < bs -> 0 < Z.of_nat (length d) ->
  Z.of_nat (length (padded_data bs d)) = full_size bs (Raw d).
Proof.
  intros Hb Hd. unfold padded_data. rewrite length_app, repeat_length.
  pose proof (full_size_bounds bs (Raw d) Hb Hd) as [Hf _]. cbn [write_size] in Hf. lia.
Qed.

Lemma length_payload bs c : 0 < bs -> chunk_ok bs c ->
  12 + Z.of_nat (length (payload bs c)) =
  match c with Raw _ => 12 + full_size bs c | Fill _ _ => 16 | DontCare _ => 12 end.
Proof.
  intros Hb (Hw & Hf & Hk). destruct c as [d|v n|n]; cbn [payload].
  - by rewrite length_padded.
  - by rewrite Hk.
  - done.
Qed.

(** [fill_buffer] in pieces. *)
Lemma length_fill n v : length v = 4%nat -> length (fill_buffer n v) = (4 * n)%nat.
Proof. intros Hv. induction n; simpl; [done|]. rewrite length_app, IHn, Hv. lia. Qed.

Lemma fill_buffer_app m n v : fill_buffer (m + n) v = fill_buffer m v ++ fill_buffer n v.
Proof. induction m; simpl; [done|]. by rewrite IHm, app_assoc. Qed.

Lemma take_fill m n v : length v = 4%nat -> (m <= n)%nat -> take (4 * m) (fill_buffer n v) = fill_buffer m v.
Proof.
  intros Hv Hm. replace n with (m + (n - m))%nat by lia.
  rewrite fill_buffer_app. rewrite take_app_le by (rewrite length_fill; lia).
  apply take_ge. rewrite length_fill; [lia|done].
Qed.

(** ** Expanding a whole image *)

Section Expand.
Context {W : Type} (wr : list Z -> M W unit) (sk : Z -> M W unit).
(** The writer may be given its bytes in pieces. *)
Context (wr_app : forall a b w, wr (a ++ b) w = (wr a ;;; wr b) w).

Definition effect (bs : Z) (c : chunk) : M W unit :=
  match c with
  | Raw d => wr (padded_data bs d)
  | Fill v _ => wr (fill_buffer (Z.to_nat (full_size bs c / 4)) v)
  | DontCare _ => sk (full_size bs c)
  end.

Fixpoint effects (bs : Z) (cs : list chunk) : M W unit :=
  match cs with [] => ret tt | c :: cs => effect bs c ;;; effects bs cs end.

Lemma call_ok (c : M W unit) (u : unsparse_state W) w w' :
  c w = (Ret tt, w') -> call c (mk_machine u w) = (Ret tt, mk_machine u w').
Proof. intros E. unfold call, map_err. cbn [Sparse.world us]. by rewrite E. Qed.

Lemma write_fill_ok fuel n v u w w' :
  length v = 4%nat -> (0 < n)%nat -> (n < 256 * fuel)%nat ->
  wr (fill_buffer n v) w = (Ret tt, w') ->
  write_fill fuel wr (fill_buffer 256 v) (4 * Z.of_nat n) (mk_machine u w) = (Ret tt, mk_machine u w').
Proof.
  intros Hv. revert n w. induction fuel as [|fuel IH]; intros n w Hn Hf E; [lia|].
  cbn [write_fill]. destruct (Z.eqb_spec (4 * Z.of_nat n) 0); [lia|]. unfold bind at 1, SPARSE_MAX_LOCAL_BUFFER.
  destruct (decide (n <= 256)%nat) as [Hs|Hs].
  - rewrite Z.min_l by lia. replace (Z.to_nat (4 * Z.of_nat n)) with (4 * n)%nat by lia.
    rewrite take_fill by done. rewrite (call_ok _ _ _ _ E). rewrite Z.sub_diag. by destruct fuel.
  - rewrite Z.min_r by lia. change (Z.to_nat 1024) with (4 * 256)%nat. rewrite take_fill by done.
    replace n with (256 + (n - 256))%nat in E by lia. rewrite fill_buffer_app, wr_app in E.
    apply bind_inv in E as ([] & w1 & E1 & E2). rewrite (call_ok _ _ _ _ E1).
    replace (4 * Z.of_nat n - 1024) with (4 * Z.of_nat (n - 256)) by lia. apply IH; try done; lia.
Qed.

(** Between two chunks. *)
Definition at_chunk (k : Z) (buf : list Z) : locals :=
  mk_locals TEGRABL_UNSPARSE_PARTIAL_CHUNK_HEADER 12 0 k buf.

Definition ready (u : unsparse_state W) (bs q n : Z) : Prop :=
  image_header u = image_head bs q n /\ chunk_header u = repeat 0 12 /\ length (fill_value u) = 4%nat.

Lemma image_head_fields bs q n :
  chunk_hdr_sz (image_head bs q n) = 12 /\ blk_sz (image_head bs q n) = u32 bs /\
  total_chunks (image_head bs q n) = u32 n.
Proof. rewrite <- (app_nil_r (image_head bs q n)). by rewrite image_chunk_hdr, image_blk, image_chunks. Qed.

Lemma validate_head bs q n c :
  0 < bs < 2 ^ 32 -> chunk_ok bs c ->
  tegrabl_sparse_validate_chunk_header (image_head bs q n) (chunk_head bs c) = Ret tt.
Proof.
  intros Hb Hc. destruct (image_head_fields bs q n) as (E1 & E2 & _).
  pose proof Hc as (Hw & Hf & _). pose proof (full_size_bounds bs c ltac:(lia) Hw) as [Hfs Hbl].
  unfold tegrabl_sparse_validate_chunk_header. rewrite head_type, head_chunk_sz, head_total_sz, E1, E2.
  rewrite (length_payload bs c) by (done || lia). unfold full_size in *.
  rewrite !(wrapw_small 32 (blocks bs c)) by (unfold in_word; nia). rewrite (wrapw_small 32 bs) by (unfold in_word; lia).
  rewrite (wrapw_small 32 (blocks bs c * bs)) by (unfold in_word; lia).
  destruct c as [d|v m|m]; cbn [type_of]; [|reflexivity..].
  cbn [TEGRABL_SPARSE_CHUNK_TYPE_RAW Z.eqb Pos.eqb]. rewrite Z.eqb_refl. done.
Qed.

(** The turn that reads a chunk header. *)
Lemma header_turn bs q n k c rest u w :
  0 < bs < 2 ^ 32 -> chunk_ok bs c -> ready u bs q n -> 0 <= k < n -> n < 2 ^ 32 ->
  step_chunk_header (at_chunk k (encode bs c ++ rest)) (mk_machine u w) =
  (Ret (mk_locals (type_of c - TEGRABL_SPARSE_CHUNK_TYPE_RAW + TEGRABL_UNSPARSE_PARTIAL_CHUNK_RAW)
          (full_size bs c) 0 (k + 1) (payload bs c ++ rest)),
   mk_machine (set_chunk_header (chunk_head bs c) u) w).
Proof.
  intros Hb Hc (Hih & Hch & _) Hk Hn. destruct (image_head_fields bs q n) as (E1 & E2 & E3).
  pose proof Hc as (Hw & Hf & _). pose proof (full_size_bounds bs c ltac:(lia) Hw) as [Hfs Hbl].
  set (buf := encode bs c ++ rest).
  assert (Hbuf : buf = chunk_head bs c ++ payload bs c ++ rest) by (unfold buf, encode; by rewrite app_assoc).
  assert (Hlen : length (chunk_head bs c) = 12%nat) by done.
  unfold step_chunk_header. rewrite bind_get. cbn [us Sparse.world l_offset at_chunk]. rewrite Hch, Hih.
  replace (Z.min (len (at_chunk k buf)) (l_remaining (at_chunk k buf))) with 12
    by (unfold len; cbn [sparse_buffer at_chunk l_remaining]; rewrite Hbuf, length_app, Hlen; lia).
  change (0 <? Z.of_nat CHUNK_HEADER_LEN) with true. cbn iota.
  rewrite (bind_lift _ _ _ (chunk_head bs c)).
  2:{ cbn [sparse_buffer at_chunk]. rewrite Hbuf. unfold copy_in. change (Z.to_nat 12) with (length (chunk_head bs c)).
      by rewrite take_app_length. }
  rewrite bind_modify. cbv zeta.
  replace (consume (at_chunk k buf) 12) with (mk_locals TEGRABL_UNSPARSE_PARTIAL_CHUNK_HEADER 0 12 k (payload bs c ++ rest)).
  2:{ unfold consume. cbn [l_state l_remaining l_offset l_chunks sparse_buffer at_chunk]. rewrite Hbuf.
      change (Z.to_nat 12) with (length (chunk_head bs c)). by rewrite drop_app_length. }
  cbn [l_remaining l_chunks sparse_buffer negb Z.eqb].
  rewrite (bind_lift _ _ _ tt) by (by apply validate_head). rewrite E2, E3, head_type, head_chunk_sz.
  unfold full_size in *. rewrite !(wrapw_small 32 bs), !(wrapw_small 32 n), !(wrapw_small 64 (k + 1)),
    !(wrapw_small 32 (blocks bs c)), !(wrapw_small 64 (blocks bs c * bs)) by (unfold in_word; nia).
  rewrite bind_fail_if by lia. rewrite wrapw_small; [reflexivity|destruct c; vm_compute; done].
Qed.

(** The state after a chunk: only the fill value may have changed. *)
Definition after_chunk (c : chunk) (u : unsparse_state W) : unsparse_state W :=
  let u := set_chunk_header (repeat 0 12) u in
  match c with Fill v _ => set_fill_value v u | _ => u end.

Lemma ready_after bs q n c u : chunk_ok bs c -> ready u bs q n -> ready (after_chunk c u) bs q n.
Proof. intros (_ & _ & Hk) (H1 & H2 & H3). unfold ready. by destruct c. Qed.

Definition body_locals (bs k : Z) (c : chunk) (rest : list Z) : locals :=
  mk_locals (type_of c - TEGRABL_SPARSE_CHUNK_TYPE_RAW + TEGRABL_UNSPARSE_PARTIAL_CHUNK_RAW)
    (full_size bs c) 0 k (payload bs c ++ rest).

(** The turn that does the work of a chunk. *)
Lemma body_turn bs q n k c rest u w w' :
  0 < bs < 2 ^ 32 -> (4 | bs) -> chunk_ok bs c -> ready u bs q n ->
  effect bs c w = (Ret tt, w') ->
  unsparse_step wr sk (body_locals bs k c rest) (mk_machine (set_chunk_header (chunk_head bs c) u) w) =
  (Ret (at_chunk k rest), mk_machine (after_chunk c u) w').
Proof.
  intros Hb H4 Hc (_ & _ & Hv) E. pose proof Hc as (Hw & Hf & Hk).
  pose proof (full_size_bounds bs c ltac:(lia) Hw) as [Hfs Hbl].
  destruct c as [d|v m|m]; cbn [effect] in E; unfold body_locals, unsparse_step.
  - change (type_of (Raw d) - _ + _) with TEGRABL_UNSPARSE_PARTIAL_CHUNK_RAW. cbn [l_state]. change (_ =? _) with false at 1.
    change (_ =? _) with false at 1. change (_ =? _) with true at 1. cbn iota.
    pose proof (length_padded bs d ltac:(lia) Hw) as Hlp.
    set (l := mk_locals _ _ _ _ _). cbn [payload] in *.
    assert (Hsz : Z.min (len l) (l_remaining l) = full_size bs (Raw d)).
    { unfold len, l. cbn [sparse_buffer l_remaining]. rewrite length_app. lia. }
    unfold step_raw. rewrite Hsz. rewrite (bind_run _ _ _ tt (mk_machine (set_chunk_header (chunk_head bs (Raw d)) u) w')).
    2:{ apply call_ok. rewrite <- E. do 2 f_equal. unfold l. cbn [sparse_buffer].
        rewrite <- Hlp, Nat2Z.id. apply take_app_length. }
    cbv zeta. unfold consume at 1. cbn [l_remaining l]. rewrite Z.sub_diag. change (u64 0 =? 0) with true. cbn iota.
    unfold next_chunk. rewrite bind_modify. unfold ret, at_chunk, consume, l. cbn [l_chunks sparse_buffer].
    rewrite <- Hlp, Nat2Z.id, drop_app_length. reflexivity.
  - change (type_of (Fill v m) - _ + _) with TEGRABL_UNSPARSE_PARTIAL_CHUNK_FILL. cbn [l_state]. do 3 change (_ =? _) with false at 1.
    change (_ =? _) with true at 1. cbn iota. unfold step_fill. rewrite bind_get. cbn [l_offset payload].
    change (0 <? 4) with true. cbn iota. set (l := mk_locals _ _ _ _ _).
    assert (Hsz : Z.min (len l) 4 = 4) by (unfold len, l; cbn [sparse_buffer]; rewrite length_app, Hk; lia).
    rewrite Hsz. set (u1 := set_fill_value v (set_chunk_header (chunk_head bs (Fill v m)) u)).
    rewrite (bind_run _ _ _ (mk_locals TEGRABL_UNSPARSE_PARTIAL_CHUNK_FILL (full_size bs (Fill v m)) 4 k rest) (mk_machine u1 w)).
    2:{ rewrite (bind_lift _ _ _ v).
        2:{ unfold copy_in. cbn [us fill_value set_chunk_header]. rewrite Hv. cbn [Z.of_nat Z.add Pos.of_succ_nat Pos.succ Z.leb Z.compare Pos.compare Pos.compare_cont].
            f_equal. unfold l. cbn [sparse_buffer]. change (Z.to_nat 4) with 4%nat. rewrite <- Hk, take_app_length.
            unfold blit. change (Z.to_nat 0) with 0%nat. rewrite Hk. cbn [take app Nat.add].
            rewrite drop_ge by (cbn [us fill_value set_chunk_header]; lia). by rewrite app_nil_r. }
        rewrite bind_modify. unfold ret, l. cbn [l_state l_remaining l_chunks sparse_buffer].
        change (Z.to_nat 4) with 4%nat. rewrite <- Hk, drop_app_length. reflexivity. }
    cbn [l_offset]. change (4 <? 4) with false. cbn iota. rewrite bind_get. cbn [us l_remaining].
    change (Z.to_nat (SPARSE_MAX_LOCAL_BUFFER / 4)) with 256%nat. change (fill_value u1) with v.
    rewrite (bind_run _ _ _ tt (mk_machine u1 w')).
    2:{ destruct H4 as [z Hz]. assert (Hdiv : full_size bs (Fill v m) = 4 * Z.of_nat (Z.to_nat (full_size bs (Fill v m) / 4))).
        { unfold full_size. rewrite Hz. replace (blocks (z * 4) (Fill v m) * (z * 4)) with (blocks (z * 4) (Fill v m) * z * 4) by lia.
          rewrite Z.div_mul by done. rewrite <- Hz. nia. }
        set (nn := Z.to_nat (full_size bs (Fill v m) / 4)) in *. rewrite Hdiv.
        apply write_fill_ok; [done|lia| |exact E]. unfold fill_fuel, SPARSE_MAX_LOCAL_BUFFER.
        pose proof (Z.mul_succ_div_gt (4 * Z.of_nat nn) 1024 ltac:(lia)).
        assert (0 <= 4 * Z.of_nat nn / 1024) by (apply Z.div_pos; lia). lia. }
    reflexivity.
  - change (type_of (DontCare m) - _ + _) with TEGRABL_UNSPARSE_PARTIAL_CHUNK_DONT_CARE. cbn [l_state].
    do 4 change (_ =? _) with false at 1. change (_ =? _) with true at 1. cbn iota. unfold step_dont_care. cbn [l_remaining].
    rewrite (bind_run _ _ _ tt (mk_machine (set_chunk_header (chunk_head bs (DontCare m)) u) w')) by (by apply call_ok).
    reflexivity.
Qed.

Definition after_all (cs : list chunk) (u : unsparse_state W) : unsparse_state W := foldl (fun u c => after_chunk c u) u cs.

Lemma more_body bs k c rest : chunk_ok bs c -> more (body_locals bs k c rest) = true.
Proof.
  intros (Hw & _ & Hk). unfold more, len, body_locals. cbn [sparse_buffer l_state].
  destruct c as [d|v m|m]; cbn [payload write_size] in *; [| |by rewrite orb_true_r].
  - unfold padded_data. destruct d as [|x d]; [simpl in Hw; lia|done].
  - by destruct v.
Qed.

Lemma expand_chunks bs q n cs k u w w' fuel :
  0 < bs < 2 ^ 32 -> (4 | bs) -> Forall (chunk_ok bs) cs -> ready u bs q n -> n < 2 ^ 32 ->
  0 <= k -> k + Z.of_nat (length cs) <= n -> (2 * length cs <= fuel)%nat ->
  effects bs cs w = (Ret tt, w') ->
  unsparse_loop fuel wr sk (at_chunk k (encode_all bs cs)) (mk_machine u w) =
  (Ret (at_chunk (k + Z.of_nat (length cs)) []), mk_machine (after_all cs u) w').
Proof.
  intros Hb H4 Hcs. revert k u w fuel. induction Hcs as [|c cs Hc Hcs IH]; intros k u w fuel Hr Hn Hk Hkn Hfu E.
  - injection E as <-. rewrite Z.add_0_r. by destruct fuel.
  - apply bind_inv in E as ([] & w1 & E1 & E2). cbn [length] in *.
    destruct fuel as [|[|fuel]]; [lia|lia|]. change (encode_all bs (c :: cs)) with (encode bs c ++ encode_all bs cs).
    cbn [unsparse_loop]. assert (Hm : more (at_chunk k (encode bs c ++ encode_all bs cs)) = true) by done.
    rewrite Hm. cbn [negb]. change (unsparse_step wr sk (at_chunk ?k ?b)) with (step_chunk_header (W:=W) (at_chunk k b)).
    rewrite (bind_run _ _ _ _ _ (header_turn bs q n k c (encode_all bs cs) u w Hb Hc Hr ltac:(lia) Hn)).
    fold (body_locals bs (k + 1) c (encode_all bs cs)). rewrite (more_body _ _ _ _ Hc). cbn [negb].
    rewrite (bind_run _ _ _ _ _ (body_turn bs q n (k + 1) c (encode_all bs cs) u w w1 Hb H4 Hc Hr E1)).
    rewrite (IH (k + 1) _ w1 fuel); [|by apply ready_after|done|lia|lia|lia|exact E2].
    do 3 f_equal; lia.
Qed.

(** The state [tegrabl_sparse_init_unsparse_state] leaves. *)
Definition start_state (max : Z) : unsparse_state W :=
  mk_us TEGRABL_UNSPARSE_PARTIAL_IMAGE_HEADER (repeat 0 28) (repeat 0 12) 0 28 max (repeat 0 4) 0 (Some wr) (Some sk).

Lemma init_start max : 0 < max -> tegrabl_sparse_init_unsparse_state true max (Some wr) (Some sk) = Ret (start_state max).
Proof. intros Hm. unfold tegrabl_sparse_init_unsparse_state. by destruct (Z.eqb_spec max 0); [lia|]. Qed.

(** The turn that reads the image header. *)
Lemma image_turn bs q n max rest w :
  0 < bs < 2 ^ 32 -> 0 <= q < 2 ^ 32 -> q * bs <= max ->
  step_image_header (load_locals (start_state max) (image_head bs q n ++ rest)) (mk_machine (start_state max) w) =
  (Ret (at_chunk 0 rest), mk_machine (set_image_header (image_head bs q n) (start_state max)) w).
Proof.
  intros Hb Hq Hm. set (buf := image_head bs q n ++ rest). set (l := load_locals (start_state max) buf).
  assert (Hlen : length (image_head bs q n) = 28%nat) by done.
  unfold step_image_header. replace (Z.min (len l) (l_remaining l)) with 28
    by (unfold len, l, buf; cbn [sparse_buffer load_locals l_remaining start_state remaining]; rewrite length_app, Hlen; lia).
  rewrite bind_get. rewrite (bind_lift _ _ _ (image_head bs q n)).
  2:{ unfold l, load_locals, buf. cbn [sparse_buffer]. unfold copy_in. change (Z.to_nat 28) with (length (image_head bs q n)).
      by rewrite take_app_length. }
  rewrite bind_modify. cbv zeta.
  replace (consume l 28) with (mk_locals TEGRABL_UNSPARSE_PARTIAL_IMAGE_HEADER 0 28 0 rest).
  2:{ unfold consume, l, load_locals, buf. cbn [l_state l_remaining l_offset l_chunks sparse_buffer].
      change (Z.to_nat 28) with (length (image_head bs q n)). by rewrite drop_app_length. }
  cbn [l_remaining l_chunks sparse_buffer negb Z.eqb]. rewrite (bind_lift _ _ _ tt).
  2:{ unfold tegrabl_sparse_validate_header. rewrite <- (app_nil_r (image_head bs q n)).
      rewrite image_major, image_blk, image_blks. change (negb (1 =? TEGRABL_SPARSE_HEADER_MAJOR_VERSION)) with false.
      cbn [us max_unsparse_size start_state].
      rewrite (wrapw_small 32 bs), (wrapw_small 32 q), (wrapw_small 64 (bs * q)) by (unfold in_word; nia).
      destruct (Z.ltb_spec max (bs * q)); [nia|done]. }
  rewrite bind_modify. unfold ret, at_chunk.
  replace (chunk_hdr_sz (image_head bs q n)) with 12
    by (rewrite <- (app_nil_r (image_head bs q n)); by rewrite image_chunk_hdr).
  reflexivity.
Qed.

Lemma all_blocks_pos bs cs : 0 < bs -> Forall (chunk_ok bs) cs -> 0 <= all_blocks bs cs.
Proof.
  intros Hb. induction 1 as [|c cs (Hw & _) _ IH]; cbn [all_blocks foldr]; [lia|].
  pose proof (full_size_bounds bs c Hb Hw). unfold all_blocks in IH. lia.
Qed.

Lemma unsparse_run bs cs max fuel w w' :
  0 < bs < 2 ^ 32 -> (4 | bs) -> Forall (chunk_ok bs) cs ->
  all_blocks bs cs < 2 ^ 32 -> Z.of_nat (length cs) < 2 ^ 32 -> all_blocks bs cs * bs <= max ->
  (2 * length cs < fuel)%nat -> effects bs cs w = (Ret tt, w') ->
  exists u', tegrabl_sparse_unsparse fuel (Some (image bs cs)) (mk_machine (start_state max) w) = (Ret tt, mk_machine u' w') /\
    state u' = TEGRABL_UNSPARSE_PARTIAL_CHUNK_HEADER /\ remaining u' = 12 /\ offset u' = 0 /\
    chunks_processed u' = Z.of_nat (length cs).
Proof.
  intros Hb H4 Hcs Hq Hl Hm Hf E. pose proof (all_blocks_pos bs cs ltac:(lia) Hcs) as Hpos.
  destruct fuel as [|fuel]; [lia|]. eexists. split.
  - unfold tegrabl_sparse_unsparse. destruct (image bs cs) as [|x img] eqn:Ei; [done|]. rewrite <- Ei. clear x img Ei.
    rewrite bind_get. cbn [us writer seeker start_state]. cbn [unsparse_loop].
    assert (Hmo : more (load_locals (start_state max) (image bs cs)) = true) by done.
    assert (Es : unsparse_step wr sk (load_locals (start_state max) (image bs cs)) (mk_machine (start_state max) w) =
      (Ret (at_chunk 0 (encode_all bs cs)), mk_machine (set_image_header (image_head bs (all_blocks bs cs) (Z.of_nat (length cs))) (start_state max)) w)).
    { by apply image_turn. }
    rewrite Hmo. cbn [negb].
    erewrite bind_run; [|erewrite bind_run; [|exact Es]; apply (expand_chunks bs (all_blocks bs cs) (Z.of_nat (length cs)) cs 0 _ w w'); try done; lia].
    reflexivity.
  - by split_and!.
Qed.
End Expand.

(** ** Building an image *)

Definition chunk_data (c : chunk) : list Z := match c with Raw d => d | Fill v _ => v | DontCare _ => [] end.

Section Build.
Context {W : Type} `{BufferLaws W}.

Definition add (c : chunk) (st : sparse_state) : M W sparse_state :=
  tegrabl_sparse_add_chunk (Some st) (type_of c) (chunk_data c) (Z.of_nat (length (chunk_data c))) (write_size c).

Fixpoint add_all (cs : list chunk) (st : sparse_state) : M W sparse_state :=
  match cs with [] => ret st | c :: cs => let! st := add c st in add_all cs st end.

Definition build (bs : Z) (cs : list chunk) : M W sparse_state :=
  let! st := tegrabl_sparse_init true bs in add_all cs st.

Definition no_memory : Z := TEGRABL_ERROR TEGRABL_ERR_NO_MEMORY 0.

(** The state after [cs] were added. *)
Definition built (bs : Z) (cs : list chunk) (st : sparse_state) : Prop :=
  buffer st = Some (image bs cs) /\ buffer_size st = Z.of_nat (length (image bs cs)).

Lemma init_builds bs w :
  0 < bs < 2 ^ 32 -> bs mod 4096 = 0 ->
  match (tegrabl_sparse_init true bs w).1 with Ret st => built bs [] st | Err e => e = no_memory | _ => False end.
Proof.
  intros Hb Hm. unfold tegrabl_sparse_init, fail_if, bind, alloc, ret, err. rewrite Hm. cbn [negb orb truthy Z.eqb].
  destruct (tegrabl_malloc_buf _ w) as [[b|] w'] eqn:E; [|done]. apply malloc_length in E.
  change (Z.to_nat (Z.of_nat IMAGE_HEADER_LEN)) with 28%nat in E.
  cbn [fst]. unfold built. cbn [buffer buffer_size]. split; [|done].
  assert (blit b 0 (repeat 0 IMAGE_HEADER_LEN) = repeat 0 28) as ->; [|reflexivity].
  unfold blit. cbn [take app]. rewrite drop_ge by (rewrite repeat_length; unfold IMAGE_HEADER_LEN; lia). done.
Qed.

Lemma encode_all_snoc bs cs c : encode_all bs (cs ++ [c]) = encode_all bs cs ++ encode bs c.
Proof. unfold encode_all. rewrite map_app, concat_app. cbn [map concat]. by rewrite app_nil_r. Qed.

Lemma all_blocks_snoc bs cs c : all_blocks bs (cs ++ [c]) = all_blocks bs cs + blocks bs c.
Proof. induction cs as [|c' cs IH]; cbn [all_blocks foldr app]; [lia|]. unfold all_blocks in *. cbn. lia. Qed.

(** The bounds under which adding a chunk does not wrap. *)
Definition fits (bs : Z) (c : chunk) : Prop := chunk_ok bs c /\ write_size c + bs < 2 ^ 32.

Lemma div_ceil_blocks bs c : 0 < bs < 2 ^ 32 -> fits bs c -> DIV_CEIL (write_size c) bs = Ret (blocks bs c).
Proof.
  intros Hb [(Hw & _) Hf]. unfold DIV_CEIL, blocks. destruct (Z.eqb_spec bs 0); [lia|].
  by rewrite !wrapw_small by (rewrite ?wrapw_small; unfold in_word; lia).
Qed.

Lemma round_up_full bs c : 0 < bs < 2 ^ 32 -> fits bs c -> ROUND_UP (write_size c) bs = Ret (full_size bs c).
Proof.
  intros Hb Hf. unfold ROUND_UP. rewrite (div_ceil_blocks _ _ Hb Hf). cbn [obind].
  destruct Hf as [(Hw & Hs & _) _]. pose proof (full_size_bounds bs c ltac:(lia) Hw) as [? _].
  unfold full_size in *. by rewrite wrapw_small by (unfold in_word; lia).
Qed.

(** The bytes of a chunk in the image. *)
Definition chunk_len (bs : Z) (c : chunk) : Z := 12 + Z.of_nat (length (payload bs c)).

Lemma chunk_buffer_ok bs c q n rest :
  0 < bs < 2 ^ 32 -> fits bs c ->
  chunk_buffer_size (image_head bs q n ++ rest) (type_of c) (Z.of_nat (length (chunk_data c))) (write_size c) =
  Ret (chunk_len bs c).
Proof.
  intros Hb Hf. unfold chunk_buffer_size. rewrite image_chunk_hdr, image_blk, (wrapw_small 32 bs) by (unfold in_word; lia).
  pose proof Hf as [Hc _]. unfold chunk_len. rewrite (length_payload bs c ltac:(lia) Hc).
  pose proof (round_up_full _ _ Hb Hf) as Er. pose proof Hc as (Hw & Hs & Hk).
  pose proof (full_size_bounds bs c ltac:(lia) Hw) as [? _].
  destruct c as [d|v m|m]; cbn [type_of chunk_data write_size length] in *.
  - cbn [TEGRABL_SPARSE_CHUNK_TYPE_RAW Z.eqb Pos.eqb]. rewrite Er. cbn [obind]. rewrite Z.eqb_refl. cbn [negb].
    by rewrite wrapw_small by (unfold in_word; lia).
  - rewrite Hk. reflexivity.
  - reflexivity.
Qed.

Lemma write_head buf type q size extra :
  st32 (st32 (st16 (buf ++ repeat 0 (12 + extra)) (length buf) type) (length buf + 4) q) (length buf + 8) size =
  buf ++ (le 2 type ++ [0; 0] ++ le 4 q ++ le 4 size) ++ repeat 0 extra.
Proof.
  change (repeat 0 (12 + extra)) with ([0; 0] ++ [0; 0] ++ [0; 0; 0; 0] ++ [0; 0; 0; 0] ++ repeat 0 extra).
  rewrite stn_app by done.
  replace (buf ++ le 2 type ++ [0; 0] ++ [0; 0; 0; 0] ++ [0; 0; 0; 0] ++ repeat 0 extra)
    with ((buf ++ le 2 type ++ [0; 0]) ++ [0; 0; 0; 0] ++ [0; 0; 0; 0] ++ repeat 0 extra) by (by rewrite <- !app_assoc).
  replace (length buf + 4)%nat with (length (buf ++ le 2 type ++ [0; 0])) by (rewrite !length_app, length_le; done).
  rewrite stn_app by done.
  replace ((buf ++ le 2 type ++ [0; 0]) ++ le 4 q ++ [0; 0; 0; 0] ++ repeat 0 extra)
    with ((buf ++ le 2 type ++ [0; 0] ++ le 4 q) ++ [0; 0; 0; 0] ++ repeat 0 extra) by (by rewrite <- !app_assoc).
  replace (length buf + 8)%nat with (length (buf ++ le 2 type ++ [0; 0] ++ le 4 q)) by (rewrite !length_app, !length_le; done).
  rewrite stn_app by done. by rewrite <- !app_assoc.
Qed.

Lemma bump_blks bs q n q' rest : st32 (image_head bs q n ++ rest) 16 q' = image_head bs q' n ++ rest.
Proof.
  exact (stn_app 4 (le 4 TEGRABL_SPARSE_HEADER_MAGIC ++ le 2 1 ++ [0; 0] ++ le 2 28 ++ le 2 12 ++ le 4 bs) (le 4 q)
    (le 4 n ++ le 4 0 ++ rest) q' eq_refl).
Qed.

Lemma bump_chunks bs q n n' rest : st32 (image_head bs q n ++ rest) 20 n' = image_head bs q n' ++ rest.
Proof.
  exact (stn_app 4 (le 4 TEGRABL_SPARSE_HEADER_MAGIC ++ le 2 1 ++ [0; 0] ++ le 2 28 ++ le 2 12 ++ le 4 bs ++ le 4 q) (le 4 n)
    (le 4 0 ++ rest) n' eq_refl).
Qed.

(** The payload is the data followed by zeroes. *)
Lemma payload_padded bs c : chunk_ok bs c -> 0 < bs ->
  payload bs c = chunk_data c ++ repeat 0 (length (payload bs c) - length (chunk_data c)) /\
  (length (chunk_data c) <= length (payload bs c))%nat.
Proof.
  intros (Hw & _) Hb. destruct c as [d|v m|m]; cbn [payload chunk_data].
  - unfold padded_data. rewrite length_app, repeat_length. split; [|lia]. do 2 f_equal. lia.
  - rewrite Nat.sub_diag, app_nil_r. split; [done|lia].
  - done.
Qed.

Lemma put_chunk_header_image bs q n body junk c :
  0 < bs -> chunk_ok bs c -> length junk = Z.to_nat (chunk_len bs c) ->
  0 <= q -> q + blocks bs c < 2 ^ 32 -> 0 <= n -> n + 1 < 2 ^ 32 ->
  put_chunk_header (image_head bs q n ++ body ++ junk) (length (image_head bs q n ++ body)) (type_of c) (blocks bs c) (chunk_len bs c) =
  image_head bs (q + blocks bs c) (n + 1) ++ body ++ chunk_head bs c ++ repeat 0 (length (payload bs c)).
Proof.
  intros Hb Hc Hj Hq Hq' Hn Hn'. pose proof Hc as (Hw & _). pose proof (full_size_bounds bs c Hb Hw) as [_ Hbl].
  unfold put_chunk_header. rewrite app_assoc. set (img := image_head bs q n ++ body).
  assert (E1 : blit (img ++ junk) (length img) (repeat 0 (Z.to_nat (chunk_len bs c))) = img ++ repeat 0 (12 + length (payload bs c))).
  { rewrite <- (app_nil_r junk). rewrite blit_app by (by rewrite repeat_length). rewrite app_nil_r. do 2 f_equal. unfold chunk_len. lia. }
  rewrite E1, write_head. fold (chunk_head bs c). fold (chunk_len bs c). set (head := le 2 (type_of c) ++ _).
  assert (head = chunk_head bs c) as -> by done.
  rewrite (ldn_app 4 img). rewrite (ldn_app_l 4 (chunk_head bs c)) by (change (length (chunk_head bs c)) with 12%nat; lia).
  fold (chunk_sz (chunk_head bs c)). rewrite head_chunk_sz, (wrapw_small 32 (blocks bs c)) by (unfold in_word; lia).
  unfold img. rewrite <- !app_assoc. rewrite image_blks, (wrapw_small 32 q), wrapw_small by (unfold in_word; lia).
  rewrite bump_blks, image_chunks, (wrapw_small 32 n), wrapw_small by (unfold in_word; lia).
  by rewrite bump_chunks.
Qed.

Lemma add_builds bs cs c st w :
  0 < bs < 2 ^ 32 -> fits bs c -> built bs cs st ->
  0 <= all_blocks bs cs -> all_blocks bs (cs ++ [c]) < 2 ^ 32 -> Z.of_nat (length (cs ++ [c])) < 2 ^ 32 ->
  Z.of_nat (length (image bs (cs ++ [c]))) < 2 ^ 64 ->
  match (add c st w).1 with Ret st' => built bs (cs ++ [c]) st' | Err e => e = no_memory | _ => False end.
Proof.
  intros Hb Hf (Hbuf & Hsz) Hp Hq Hn Hlen. pose proof Hf as [Hc Hf2]. pose proof Hc as (Hw & Hs & Hk).
  rewrite all_blocks_snoc in Hq. rewrite length_app in Hn. cbn [length] in Hn.
  assert (Hfin : image bs (cs ++ [c]) = image_head bs (all_blocks bs cs + blocks bs c) (Z.of_nat (length cs) + 1) ++ encode_all bs cs ++ encode bs c).
  { unfold image. rewrite encode_all_snoc, all_blocks_snoc, length_app. cbn [length]. do 2 f_equal. lia. }
  set (q := all_blocks bs cs) in *. set (n := Z.of_nat (length cs)) in *. set (body := encode_all bs cs) in *.
  assert (Hl : Z.of_nat (length (image bs (cs ++ [c]))) = Z.of_nat (length (image bs cs)) + chunk_len bs c).
  { rewrite Hfin. unfold image, chunk_len. fold body. unfold encode. rewrite !length_app.
    change (length (chunk_head bs c)) with 12%nat. change (length (image_head _ _ _)) with 28%nat. lia. }
  rewrite Hl in Hlen. assert (Hpos : (0 < length (image bs cs))%nat) by apply Nat.lt_0_succ.
  unfold add, tegrabl_sparse_add_chunk. rewrite Hbuf, Hsz.
  rewrite bind_fail_if by (apply orb_false_iff; split; apply Z.eqb_neq; lia).
  rewrite (bind_lift _ _ _ (chunk_len bs c)) by (by apply chunk_buffer_ok).
  rewrite (wrapw_small 64) by (unfold in_word, chunk_len in *; lia).
  unfold bind at 1, alloc. destruct (tegrabl_realloc (image bs cs) _ w) as [[b|] w1] eqn:Er; [|done].
  pose proof (realloc_length _ _ _ _ _ Er) as Hlb. pose proof (realloc_prefix _ _ _ _ _ Er) as Hpb.
  rewrite Nat.min_l, firstn_all in Hpb by (unfold chunk_len; lia).
  rewrite <- (take_drop (length (image bs cs)) b), Hpb. set (junk := drop (length (image bs cs)) b).
  assert (Hj : length junk = Z.to_nat (chunk_len bs c)) by (unfold junk; rewrite length_drop; unfold chunk_len in *; lia).
  assert (Ebs : blk_sz (image bs cs ++ junk) = bs).
  { unfold image. by rewrite <- app_assoc, image_blk, wrapw_small by (unfold in_word; lia). }
  rewrite Nat2Z.id, Ebs.
  rewrite (bind_lift _ _ _ (blocks bs c)) by (by apply div_ceil_blocks).
  rewrite (bind_lift _ _ _ (full_size bs c)) by (by apply round_up_full).
  assert (Eput := put_chunk_header_image bs q n body junk c ltac:(lia) Hc Hj Hp Hq ltac:(lia) ltac:(lia)).
  change (image_head bs q n ++ body) with (image bs cs) in Eput. rewrite app_assoc in Eput.
  change (image_head bs q n ++ body) with (image bs cs) in Eput. rewrite Eput, image_chunk_hdr.
  destruct (payload_padded bs c Hc ltac:(lia)) as [Hpay Hle].
  set (img := image_head bs (q + blocks bs c) (n + 1) ++ body).
  assert (Hli : length (image bs cs) = length img) by (unfold img, image; rewrite !length_app; done).
  assert (Hlh : (length (image bs cs) + Z.to_nat 12)%nat = length (img ++ chunk_head bs c)).
  { rewrite length_app, Hli. done. }
  rewrite app_assoc. fold img. rewrite app_assoc, Hlh.
  replace (_ || _) with false.
  2:{ symmetry. apply orb_false_iff. split; apply Z.ltb_ge; [lia|]. rewrite !length_app, repeat_length. lia. }
  rewrite Nat2Z.id, firstn_all. unfold ret. cbn [fst]. unfold built. cbn [buffer buffer_size].
  rewrite Hl. split; [|done]. f_equal. rewrite Hfin.
  replace (repeat 0 (length (payload bs c))) with
    (repeat 0 (length (chunk_data c)) ++ repeat 0 (length (payload bs c) - length (chunk_data c)))
    by (rewrite <- repeat_app; f_equal; lia).
  rewrite blit_app by (by rewrite repeat_length).
  rewrite <- Hpay. unfold encode, img. by rewrite <- !app_assoc.
Qed.

Lemma all_blocks_app bs cs1 cs2 : all_blocks bs (cs1 ++ cs2) = all_blocks bs cs1 + all_blocks bs cs2.
Proof. induction cs1 as [|c cs IH]; cbn [all_blocks foldr app]; [done|]. unfold all_blocks in *. lia. Qed.

Lemma length_image_app bs cs1 cs2 : (length (image bs cs1) <= length (image bs (cs1 ++ cs2)))%nat.
Proof.
  unfold image, encode_all. rewrite map_app, concat_app, !length_app.
  change (length (image_head _ _ _)) with 28%nat. lia.
Qed.

(** The bounds on a whole image. *)
Definition image_fits (bs : Z) (cs : list chunk) : Prop :=
  all_blocks bs cs < 2 ^ 32 /\ Z.of_nat (length cs) < 2 ^ 32 /\ Z.of_nat (length (image bs cs)) < 2 ^ 64.

Lemma image_fits_prefix bs cs1 cs2 :
  0 < bs -> Forall (fits bs) cs2 -> image_fits bs (cs1 ++ cs2) -> image_fits bs cs1.
Proof.
  intros Hb Hf (A & B & C). rewrite all_blocks_app in A. rewrite length_app in B.
  pose proof (length_image_app bs cs1 cs2).
  pose proof (all_blocks_pos bs cs2 Hb (Forall_impl _ _ _ Hf (fun c h => proj1 h))). split_and!; lia.
Qed.

Lemma add_all_builds bs cs2 cs1 st w :
  0 < bs < 2 ^ 32 -> Forall (fits bs) cs1 -> Forall (fits bs) cs2 -> built bs cs1 st -> image_fits bs (cs1 ++ cs2) ->
  match (add_all cs2 st w).1 with Ret st' => built bs (cs1 ++ cs2) st' | Err e => e = no_memory | _ => False end.
Proof.
  intros Hb H1 H2. revert cs1 st w H1. induction H2 as [|c cs2 Hc H2 IH]; intros cs1 st w H1 Hst Hfit.
  - by rewrite app_nil_r.
  - replace (cs1 ++ c :: cs2) with ((cs1 ++ [c]) ++ cs2) in * by (by rewrite <- app_assoc).
    pose proof (image_fits_prefix bs (cs1 ++ [c]) cs2 ltac:(lia) H2 Hfit) as (F1 & F2 & F3).
    pose proof (all_blocks_pos bs cs1 ltac:(lia) (Forall_impl _ _ _ H1 (fun c h => proj1 h))) as Hpos.
    pose proof (add_builds bs cs1 c st w Hb Hc Hst Hpos F1 F2 F3) as Ha.
    cbn [add_all]. unfold bind. destruct (add c st w) as [[st'|e| | |] w']; try done.
    apply IH; try done. apply Forall_app. split; [done|]. by constructor.
Qed.

Lemma build_spec bs cs w :
  0 < bs < 2 ^ 32 -> bs mod 4096 = 0 -> Forall (fits bs) cs -> image_fits bs cs ->
  match (build bs cs w).1 with Ret st => built bs cs st | Err e => e = no_memory | _ => False end.
Proof.
  intros Hb Hm Hf Hfit. pose proof (init_builds bs w Hb Hm) as Hi. unfold build, bind.
  destruct (tegrabl_sparse_init true bs w) as [[st|e| | |] w']; try done.
  by apply (add_all_builds bs cs []).
Qed.
End Build.

(** ** Theorems *)

(** C20.  Making an image and expanding it.  If memory is available,
    [tegrabl_sparse_init] and [tegrabl_sparse_add_chunk] build an image which
    [tegrabl_sparse_unsparse] accepts in one call, and expanding it gives the
    writer the data of every chunk in order, padded with zeroes to whole
    blocks, repeated for a fill chunk and skipped by the seeker for a don't
    care chunk. *)
Theorem sparse_round_trip {A W} `{BufferLaws A} (wr : list Z -> M W unit) (sk : Z -> M W unit) bs cs max fuel (a : A) w w' :
  (forall d1 d2 v, wr (d1 ++ d2) v = (wr d1 ;;; wr d2) v) ->
  0 < bs < 2 ^ 32 -> bs mod 4096 = 0 -> Forall (fits bs) cs -> image_fits bs cs ->
  0 < max -> all_blocks bs cs * bs <= max -> (2 * length cs < fuel)%nat -> effects wr sk bs cs w = (Ret tt, w') ->
  match (build bs cs a).1 with
  | Ret st => exists img n u u',
      tegrabl_sparse_get_buffer (Some st) true true = Ret (img, n) /\ n = Z.of_nat (length img) /\
      tegrabl_sparse_image_check img = true /\
      tegrabl_sparse_init_unsparse_state true max (Some wr) (Some sk) = Ret u /\
      tegrabl_sparse_unsparse fuel (Some img) (mk_machine u w) = (Ret tt, mk_machine u' w') /\
      chunks_processed u' = Z.of_nat (length cs)
  | Err e => e = TEGRABL_ERROR TEGRABL_ERR_NO_MEMORY 0
  | _ => False
  end.
Proof.
  intros Hwr Hb Hm Hf Hfit Hmax Hsz Hfu E. pose proof (build_spec bs cs a Hb Hm Hf Hfit) as Hbuild.
  destruct (build bs cs a) as [[st|e| | |] a']; try done. destruct st as [[img|] n i]; destruct Hbuild as [Eb En]; [|done].
  cbn [buffer buffer_size] in Eb, En. injection Eb as ->. cbn [fst].
  assert (H4 : (4 | bs)) by (exists (1024 * (bs / 4096)); pose proof (Z.div_mod bs 4096 ltac:(lia)); lia).
  destruct Hfit as (F1 & F2 & F3).
  destruct (unsparse_run wr sk Hwr bs cs max fuel w w') as (u' & Eu & _ & _ & _ & Ek); try done.
  { eapply Forall_impl; [exact Hf|]. by intros c []. }
  exists (image bs cs), n, (start_state wr sk max), u'. split_and!; try done.
  - unfold tegrabl_sparse_get_buffer. rewrite En. by change (Z.of_nat (length (image bs cs)) =? 0) with false.
  - assert (Hl : (28 <= length (image bs cs))%nat) by (unfold image; rewrite length_app; apply Nat.le_add_r).
    unfold tegrabl_sparse_image_check. destruct (Z.ltb_spec (Z.of_nat (length (image bs cs))) 4); [lia|].
    apply Z.eqb_eq. exact (ldn_field 4 [] TEGRABL_SPARSE_HEADER_MAGIC _).
  - by apply init_start.
Qed.

(** A writer that collects the output, and an allocator that never fails. *)
Definition collect (d : list Z) : M (list Z) unit := fun w => (Ret tt, w ++ d).
Definition skip (n : Z) : M (list Z) unit := fun w => (Ret tt, w ++ repeat 0 (Z.to_nat n)).

#[export] Instance plenty : BufferApi unit := {
  tegrabl_malloc_buf n _ := (Some (repeat 255 (Z.to_nat n)), tt);
  tegrabl_realloc b n _ := (Some (take (Z.to_nat n) b ++ repeat 255 (Z.to_nat n - length b)), tt);
}.

#[export] Instance plenty_laws : BufferLaws unit.
Proof.
  split; simpl.
  - intros n w b w' [= <- _]. by rewrite repeat_length.
  - intros b n w b' w' [= <- _]. rewrite length_app, length_take, repeat_length. lia.
  - intros b n w b' w' [= <- _]. destruct (decide (Z.to_nat n <= length b)%nat).
    + rewrite take_app_le by (rewrite length_take; lia). rewrite Nat.min_r by lia. by rewrite take_take, Nat.min_id.
    + rewrite Nat.min_l by lia. rewrite (take_ge b (Z.to_nat n)) by lia. by rewrite take_app_length, firstn_all.
Qed.

Lemma sparse_round_trip_witness :
  let cs := [Raw [1; 2; 3]; DontCare 1; Fill [7; 7; 7; 7] 4096] in
  (build (W:=unit) 4096 cs tt).1 <> Err (TEGRABL_ERROR TEGRABL_ERR_NO_MEMORY 0) /\
  match (build (W:=unit) 4096 cs tt).1 with
  | Ret st => exists img u u', tegrabl_sparse_unsparse 7 (Some img) (mk_machine u []) =
      (Ret tt, mk_machine u' ([1; 2; 3] ++ repeat 0 (Z.to_nat 8189) ++ repeat 7 (Z.to_nat 4096)))
  | Err e => e = TEGRABL_ERROR TEGRABL_ERR_NO_MEMORY 0
  | _ => False
  end.
Proof.
  intros cs. split; [vm_compute; discriminate|].
  assert (Hf : Forall (fits 4096) cs).
  { repeat constructor; vm_compute; congruence || done. }
  assert (Hfit : image_fits 4096 cs) by (vm_compute; split_and!; done).
  pose proof (sparse_round_trip (A:=unit) collect skip 4096 cs 12288 7 tt [] ([1; 2; 3] ++ repeat 0 (Z.to_nat 8189) ++ repeat 7 (Z.to_nat 4096))
    ltac:(intros; unfold collect, bind; by rewrite app_assoc) ltac:(lia) ltac:(done) Hf Hfit ltac:(lia)
    ltac:(vm_compute; done) ltac:(simpl; lia) ltac:(vm_compute; done)) as Hr.
  destruct (build 4096 cs tt).1 as [st|e| | |]; try exact Hr.
  destruct Hr as (img & n & u & u' & _ & _ & _ & _ & E & _). by exists img, u, u'.
Defined.
