(* ===== verification/SparseStream.v ===== *)
(** * Sparse images: the loop and images in pieces

    When the loop of [tegrabl_sparse_unsparse] ends, and feeding an image in
    two calls instead of one. *)
From S2P Require Import Prelude Errors Sparse SparseSpec.

(** ** States the machine can be in *)

Record good {W} (l : locals) (u : unsparse_state W) : Prop := {
  good_rem : in_word 64 (l_remaining l);
  good_off : 0 <= l_offset l;
  good_sum : l_state l = TEGRABL_UNSPARSE_PARTIAL_IMAGE_HEADER \/ l_state l = TEGRABL_UNSPARSE_PARTIAL_CHUNK_HEADER ->
    l_offset l + l_remaining l < 2 ^ 64;
  good_hdr : l_state l = TEGRABL_UNSPARSE_PARTIAL_CHUNK_HEADER -> l_remaining l = 0 -> chunk_type (chunk_header u) = 0;
  good_crc : l_state l = TEGRABL_UNSPARSE_PARTIAL_CHUNK_CRC -> chunk_type (chunk_header u) = TEGRABL_SPARSE_CHUNK_TYPE_CRC;
  good_img : bytes (image_header u);
  good_buf : bytes (sparse_buffer l);
}.

Lemma bytes_blit b o src : bytes b -> bytes src -> bytes (blit b o src).
Proof. intros. unfold blit, bytes. rewrite !Forall_app. split_and!; [by apply Forall_take|done|by apply Forall_drop]. Qed.

Lemma copy_in_ret dst off size src r :
  copy_in dst off size src = Ret r ->
  off + size <= Z.of_nat (length dst) /\ r = blit dst (Z.to_nat off) (take (Z.to_nat size) src).
Proof. unfold copy_in. case_if; zbool; [|done]. intros [= <-]. by split. Qed.

(** The last steps of the turns. *)
Ltac runs :=
  repeat match goal with
  | H : bind get _ _ = _ |- _ => rewrite bind_get in H
  | H : bind (modify _) _ _ = _ |- _ => rewrite bind_modify in H
  | H : bind (lift ?o) _ _ = (Ret _, _) |- _ =>
      let E := fresh "E" in destruct o eqn:E; [cbn [bind lift] in H; unfold bind at 1, lift in H|discriminate..]
  end.

Section Loop.
Context {W : Type} (wr : list Z -> M W unit) (sk : Z -> M W unit).

Lemma call_us (c : M W unit) m r m' : call c m = (r, m') -> us m' = us m.
Proof. unfold call. destruct (map_err _ _ _) as [o w]. by intros [= <- <-]. Qed.

Lemma write_fill_us fuel b n m r m' : write_fill fuel wr b n m = (r, m') -> us m' = us m.
Proof.
  revert n m. induction fuel as [|fuel IH]; intros n m; cbn [write_fill]; (destruct (n =? 0); [by intros [= <- <-]|]).
  - by intros [= <- <-].
  - unfold bind. destruct (call _ m) as [[[]|e| | |] m1] eqn:E; apply call_us in E; try (by intros [= <- <-]).
    intros H. by rewrite (IH _ _ H).
Qed.

(** Back at a chunk header. *)
Lemma next_chunk_good l (m : machine W) l' (m' : machine W) :
  bytes (image_header (us m)) -> bytes (sparse_buffer l) -> next_chunk l m = (Ret l', m') ->
  good l' (us m') /\ l_state l' = TEGRABL_UNSPARSE_PARTIAL_CHUNK_HEADER /\ sparse_buffer l' = sparse_buffer l.
Proof.
  intros Hi Hb [= <- <-]. split; [|done]. by constructor; cbn; try done.
Qed.

Lemma consume_good l size (u : unsparse_state W) :
  good l u -> 0 <= size <= l_remaining l ->
  in_word 64 (l_remaining (consume l size)) /\ l_remaining (consume l size) = l_remaining l - size /\
  0 <= l_offset (consume l size) /\ bytes (sparse_buffer (consume l size)).
Proof.
  intros [[R1 R2] O _ _ _ _ B] Hs. cbn [consume l_remaining l_offset sparse_buffer].
  rewrite wrapw_small by (unfold in_word; lia). pose proof (wrapw_range 64 (l_offset l + size) ltac:(lia)) as [? _].
  split_and!; try done; try (unfold in_word; lia). by apply Forall_drop.
Qed.

Lemma consume_sum l size (u : unsparse_state W) :
  good l u -> l_state l = TEGRABL_UNSPARSE_PARTIAL_IMAGE_HEADER \/ l_state l = TEGRABL_UNSPARSE_PARTIAL_CHUNK_HEADER ->
  0 <= size <= l_remaining l -> l_offset (consume l size) + l_remaining (consume l size) < 2 ^ 64.
Proof.
  intros Hg Hst Hs. pose proof (good_sum _ _ Hg Hst). pose proof (good_off _ _ Hg). pose proof (good_rem _ _ Hg) as [].
  cbn [l_offset l_remaining consume]. rewrite !wrapw_small by (unfold in_word; lia). lia.
Qed.

Lemma step_image_good l (m : machine W) l' (m' : machine W) :
  good l (us m) -> l_state l = TEGRABL_UNSPARSE_PARTIAL_IMAGE_HEADER -> step_image_header l m = (Ret l', m') -> good l' (us m').
Proof.
  intros Hg Hst. unfold step_image_header. set (size := Z.min (len l) (l_remaining l)).
  assert (Hsz : 0 <= size <= l_remaining l) by (unfold size, len; pose proof (good_rem _ _ Hg) as []; lia).
  destruct (consume_good l size (us m) Hg Hsz) as (C1 & C2 & C3 & C4).
  rewrite bind_get. unfold bind at 1, lift. destruct (copy_in _ _ _ _) as [h|e| | |] eqn:Eh; try done.
  apply copy_in_ret in Eh as [_ Eh]. rewrite bind_modify. cbv zeta.
  assert (Hh : bytes h).
  { rewrite Eh. apply bytes_blit; [apply Hg|]. apply Forall_take, Hg. }
  destruct (l_remaining (consume l size) =? 0) eqn:Er; cbn [negb].
  - unfold bind at 1, lift. destruct (tegrabl_sparse_validate_header _ _); try done. rewrite bind_modify.
    intros [= <- <-]. pose proof (ldn_range 2 h 10 Hh) as Hc. fold (chunk_hdr_sz h) in Hc.
    change (256 ^ Z.of_nat 2) with 65536 in Hc.
    constructor; cbn [l_remaining l_offset l_state sparse_buffer us set_us set_chunk_header set_image_header image_header chunk_header];
      try done; unfold in_word; lia.
  - intros [= <- <-]. constructor; try done; cbn [l_state consume]; rewrite ?Hst; try done.
    intros _. by apply (consume_sum l size (us m)); [|rewrite Hst; left|].
Qed.

Lemma step_chunk_good l (m : machine W) l' (m' : machine W) :
  good l (us m) -> l_state l = TEGRABL_UNSPARSE_PARTIAL_CHUNK_HEADER -> step_chunk_header l m = (Ret l', m') -> good l' (us m').
Proof.
  intros Hg Hst. unfold step_chunk_header. set (size := Z.min (len l) (l_remaining l)).
  assert (Hsz : 0 <= size <= l_remaining l) by (unfold size, len; pose proof (good_rem _ _ Hg) as []; lia).
  destruct (consume_good l size (us m) Hg Hsz) as (C1 & C2 & C3 & C4).
  rewrite bind_get. unfold bind at 1.
  set (o := if l_offset l <? Z.of_nat CHUNK_HEADER_LEN
            then lift (copy_in (chunk_header (us m)) (l_offset l) size (sparse_buffer l))
            else ret (chunk_header (us m)) : M (machine W) (list Z)).
  assert (Ho : snd (o m) = m) by (unfold o; by destruct (_ <? _)).
  destruct (o m) as [[h|e| | |] m1] eqn:Eh; try done. cbn [snd] in Ho. subst m1.
  rewrite bind_modify. cbv zeta. destruct (l_remaining (consume l size) =? 0) eqn:Er; cbn [negb].
  - unfold bind at 1, lift. destruct (tegrabl_sparse_validate_chunk_header _ _) as [[]|e| | |] eqn:Ev; try done.
    unfold bind, fail_if. case_if; [done|]. intros [= <- <-].
    assert (Ht : chunk_type h = 0xCAC1 \/ chunk_type h = 0xCAC2 \/ chunk_type h = 0xCAC3 \/ chunk_type h = 0xCAC4).
    { unfold tegrabl_sparse_validate_chunk_header, TEGRABL_SPARSE_CHUNK_TYPE_RAW, TEGRABL_SPARSE_CHUNK_TYPE_DONT_CARE,
        TEGRABL_SPARSE_CHUNK_TYPE_FILL, TEGRABL_SPARSE_CHUNK_TYPE_CRC in Ev.
      repeat (case_if; [zbool; tauto|]). done. }
    constructor; cbn [l_remaining l_offset l_state sparse_buffer us set_us set_chunk_header image_header chunk_header];
      try done; try (by apply wrapw_range); try apply Hg.
    + destruct Ht as [-> | [-> | [-> | ->]]]; by intros [].
    + destruct Ht as [-> | [-> | [-> | ->]]]; done.
    + destruct Ht as [Ht | [Ht | [Ht | Ht]]]; rewrite Ht; done.
  - intros [= <- <-]. constructor; try done; cbn [l_state consume]; rewrite ?Hst; try done; try apply Hg.
    + intros _. by apply (consume_sum l size (us m)); [|rewrite Hst; right|].
    + intros _ E0. rewrite E0 in Er. done.
Qed.

Lemma step_raw_good l (m : machine W) l' (m' : machine W) :
  good l (us m) -> l_state l = TEGRABL_UNSPARSE_PARTIAL_CHUNK_RAW -> step_raw wr l m = (Ret l', m') -> good l' (us m').
Proof.
  intros Hg Hst. unfold step_raw. set (size := Z.min (len l) (l_remaining l)).
  assert (Hsz : 0 <= size <= l_remaining l) by (unfold size, len; pose proof (good_rem _ _ Hg) as []; lia).
  destruct (consume_good l size (us m) Hg Hsz) as (C1 & C2 & C3 & C4).
  unfold bind at 1. destruct (call _ m) as [[[]|e| | |] m1] eqn:Ec; try done. apply call_us in Ec.
  cbv zeta. destruct (l_remaining (consume l size) =? 0).
  - intros H. apply next_chunk_good in H as [H _]; [done|rewrite Ec; apply Hg|done].
  - intros [= <- <-]. rewrite Ec. constructor; try done; try apply Hg; cbn [l_state consume]; rewrite Hst; try done; by intros [].
Qed.

(** The locals and the state after the fill value was read. *)
Lemma step_fill_good l (m : machine W) l' (m' : machine W) :
  good l (us m) -> l_state l = TEGRABL_UNSPARSE_PARTIAL_CHUNK_FILL -> step_fill wr l m = (Ret l', m') -> good l' (us m').
Proof.
  intros Hg Hst. unfold step_fill. rewrite bind_get. unfold bind at 1.
  destruct (l_offset l <? 4) eqn:Eo.
  - unfold bind at 1, lift. destruct (copy_in _ _ _ _) as [v|e| | |] eqn:Ev; try done. rewrite bind_modify.
    unfold ret at 1. set (l1 := mk_locals _ _ _ _ _). set (m1 := set_us (set_fill_value v) m).
    assert (Hg1 : good l1 (us m1)).
    { constructor; cbn; try apply Hg; rewrite ?Hst; try done; [by apply wrapw_range|by intros []|]. apply Forall_drop, Hg. }
    destruct (l_offset l1 <? 4); [by intros [= <- <-]|]. rewrite bind_get. unfold bind.
    destruct (write_fill _ _ _ _ m1) as [[[]|e| | |] m2] eqn:Ew; try done. apply write_fill_us in Ew.
    intros H. apply next_chunk_good in H as [H _]; [done|rewrite Ew; apply Hg1|apply Hg1].
  - unfold ret at 1. rewrite Eo. rewrite bind_get. unfold bind.
    destruct (write_fill _ _ _ _ m) as [[[]|e| | |] m2] eqn:Ew; try done. apply write_fill_us in Ew.
    intros H. apply next_chunk_good in H as [H _]; [done|rewrite Ew; apply Hg|apply Hg].
Qed.

Lemma step_dont_care_good l (m : machine W) l' (m' : machine W) :
  good l (us m) -> step_dont_care sk l m = (Ret l', m') -> good l' (us m').
Proof.
  intros Hg. unfold step_dont_care, bind. destruct (call _ m) as [[[]|e| | |] m1] eqn:Ec; try done. apply call_us in Ec.
  intros H. apply next_chunk_good in H as [H _]; [done|rewrite Ec; apply Hg|apply Hg].
Qed.

Lemma step_good l (m : machine W) l' (m' : machine W) :
  good l (us m) -> unsparse_step wr sk l m = (Ret l', m') -> good l' (us m').
Proof.
  intros Hg. unfold unsparse_step.
  case_if; zbool; [by apply step_image_good|]. case_if; zbool; [by apply step_chunk_good|].
  case_if; zbool; [by apply step_raw_good|]. case_if; zbool; [by apply step_fill_good|].
  case_if; zbool; [by apply step_dont_care_good|]. case_if; zbool; [|done]. by intros [= <- <-].
Qed.

(** ** The loop ends *)

(** Every turn takes a byte or returns to a chunk header. *)
Definition weight (l : locals) : Z :=
  2 * len l + (if l_state l =? TEGRABL_UNSPARSE_PARTIAL_CHUNK_HEADER then 0 else 1).

Lemma len_consume l size : 0 <= size <= len l -> len (consume l size) = len l - size.
Proof. intros Hs. unfold len, consume in *. cbn [sparse_buffer]. rewrite length_drop. lia. Qed.

Lemma weight_bounds l : 2 * len l <= weight l <= 2 * len l + 1.
Proof. unfold weight. case_if; lia. Qed.

Lemma weight_header l :
  l_state l = TEGRABL_UNSPARSE_PARTIAL_CHUNK_HEADER -> weight l = 2 * len l.
Proof. intros H. unfold weight. rewrite H, Z.eqb_refl. lia. Qed.

Lemma weight_other l :
  l_state l <> TEGRABL_UNSPARSE_PARTIAL_CHUNK_HEADER -> weight l = 2 * len l + 1.
Proof. intros H. unfold weight. by destruct (Z.eqb_spec (l_state l) TEGRABL_UNSPARSE_PARTIAL_CHUNK_HEADER). Qed.

Lemma next_chunk_weight l (m : machine W) l' m' : next_chunk l m = (Ret l', m') -> weight l' = 2 * len l.
Proof. intros [= <- <-]. by rewrite weight_header. Qed.

Lemma step_image_weight l (m : machine W) l' m' :
  good l (us m) -> l_state l = TEGRABL_UNSPARSE_PARTIAL_IMAGE_HEADER -> 0 < len l ->
  step_image_header l m = (Ret l', m') -> weight l' < weight l.
Proof.
  intros Hg Hst Hl. rewrite (weight_other l) by (by rewrite Hst). unfold step_image_header.
  set (size := Z.min (len l) (l_remaining l)). pose proof (good_rem _ _ Hg) as [].
  assert (Hsz : 0 <= size <= len l) by (unfold size; lia). pose proof (len_consume l size Hsz) as Hlc.
  rewrite bind_get. unfold bind at 1, lift. destruct (copy_in _ _ _ _) as [h|e| | |]; try done. rewrite bind_modify. cbv zeta.
  destruct (consume_good l size (us m) Hg ltac:(unfold size; lia)) as (_ & C2 & _).
  destruct (Z.eqb_spec (l_remaining (consume l size)) 0) as [Er|Er]; cbn [negb].
  - unfold bind at 1, lift. destruct (tegrabl_sparse_validate_header _ _); try done. rewrite bind_modify.
    intros [= <- <-]. rewrite weight_header by done.
    match goal with |- 2 * len ?x < _ => change (len x) with (len (consume l size)) end. lia.
  - intros [= <- <-]. pose proof (weight_bounds (consume l size)). unfold size in *. lia.
Qed.

Lemma step_chunk_weight l (m : machine W) l' m' :
  good l (us m) -> l_state l = TEGRABL_UNSPARSE_PARTIAL_CHUNK_HEADER -> 0 < len l ->
  step_chunk_header l m = (Ret l', m') -> weight l' < weight l.
Proof.
  intros Hg Hst Hl. rewrite (weight_header l) by done. unfold step_chunk_header.
  set (size := Z.min (len l) (l_remaining l)). pose proof (good_rem _ _ Hg) as [].
  assert (Hsz : 0 <= size <= len l) by (unfold size; lia). pose proof (len_consume l size Hsz) as Hlc.
  destruct (consume_good l size (us m) Hg ltac:(unfold size; lia)) as (_ & C2 & _).
  rewrite bind_get. unfold bind at 1.
  set (o := if l_offset l <? Z.of_nat CHUNK_HEADER_LEN
            then lift (copy_in (chunk_header (us m)) (l_offset l) size (sparse_buffer l))
            else ret (chunk_header (us m)) : M (machine W) (list Z)).
  assert (Ho : forall h m1, o m = (Ret h, m1) -> m1 = m /\ (size = 0 -> l_remaining l = 0 -> chunk_type h = 0)).
  { intros h m1. unfold o. case_if; unfold lift, ret.
    - destruct (copy_in _ _ _ _) as [h'|e| | |] eqn:Ec; try done. intros [= <- <-]. split; [done|]. intros -> Hr.
      apply copy_in_ret in Ec as [_ ->]. unfold blit. cbn [take]. rewrite app_nil_l. cbn [length].
      rewrite Nat.add_0_r, take_drop. by apply (good_hdr _ _ Hg).
    - intros [= <- <-]. split; [done|]. intros _ Hr. by apply (good_hdr _ _ Hg). }
  destruct (o m) as [[h|e| | |] m1] eqn:Eh; try done. destruct (Ho h m1 eq_refl) as [-> Hz]. rewrite bind_modify. cbv zeta.
  destruct (Z.eqb_spec (l_remaining (consume l size)) 0) as [Er|Er]; cbn [negb].
  - unfold bind at 1, lift. destruct (tegrabl_sparse_validate_chunk_header _ _) as [[]|e| | |] eqn:Ev; try done.
    unfold bind, fail_if. case_if; [done|]. intros [= <- <-].
    destruct (decide (size = 0)) as [Hs0|Hs0].
    { unfold tegrabl_sparse_validate_chunk_header in Ev. rewrite Hz in Ev by lia. done. }
    match goal with |- weight ?x < _ => pose proof (weight_bounds x) as Hw; assert (len x = len (consume l size)) by done end. lia.
  - intros [= <- <-]. pose proof (weight_bounds (consume l size)). unfold size in *. lia.
Qed.

Lemma step_raw_weight l (m : machine W) l' m' :
  good l (us m) -> l_state l = TEGRABL_UNSPARSE_PARTIAL_CHUNK_RAW -> 0 < len l ->
  step_raw wr l m = (Ret l', m') -> weight l' < weight l.
Proof.
  intros Hg Hst Hl. rewrite (weight_other l) by (by rewrite Hst). unfold step_raw.
  set (size := Z.min (len l) (l_remaining l)). pose proof (good_rem _ _ Hg) as [].
  assert (Hsz : 0 <= size <= len l) by (unfold size; lia). pose proof (len_consume l size Hsz) as Hlc.
  destruct (consume_good l size (us m) Hg ltac:(unfold size; lia)) as (_ & C2 & _).
  unfold bind at 1. destruct (call _ m) as [[[]|e| | |] m1]; try done. cbv zeta.
  destruct (Z.eqb_spec (l_remaining (consume l size)) 0) as [Er|Er].
  - intros E. apply next_chunk_weight in E. lia.
  - intros [= <- <-]. pose proof (weight_bounds (consume l size)). unfold size in *. lia.
Qed.

Lemma step_fill_weight l (m : machine W) l' m' :
  l_state l = TEGRABL_UNSPARSE_PARTIAL_CHUNK_FILL -> 0 < len l ->
  step_fill wr l m = (Ret l', m') -> weight l' < weight l.
Proof.
  intros Hst Hl. rewrite (weight_other l) by (by rewrite Hst). unfold step_fill. rewrite bind_get. unfold bind at 1.
  destruct (l_offset l <? 4) eqn:Eo.
  - unfold bind at 1, lift. destruct (copy_in _ _ _ _) as [v|e| | |] eqn:Ev; try done. rewrite bind_modify.
    unfold ret at 1. set (l1 := mk_locals _ _ _ _ _).
    assert (H1 : len l1 = len l - Z.min (len l) 4).
    { unfold l1, len at 1. cbn [sparse_buffer]. rewrite length_drop. unfold len. lia. }
    destruct (l_offset l1 <? 4); [intros [= <- <-]; pose proof (weight_bounds l1); lia|].
    rewrite bind_get. unfold bind. destruct (write_fill _ _ _ _ _) as [[[]|e| | |] m2]; try done.
    intros E. apply next_chunk_weight in E. lia.
  - unfold ret at 1. rewrite Eo, bind_get. unfold bind. destruct (write_fill _ _ _ _ m) as [[[]|e| | |] m2]; try done.
    intros E. apply next_chunk_weight in E. lia.
Qed.

Lemma step_weight l (m : machine W) l' m' :
  good l (us m) -> more l = true -> l_state l <> TEGRABL_UNSPARSE_PARTIAL_CHUNK_CRC ->
  unsparse_step wr sk l m = (Ret l', m') -> weight l' < weight l.
Proof.
  intros Hg Hm Hcrc. unfold more in Hm. apply orb_true_iff in Hm.
  assert (Hl : l_state l <> TEGRABL_UNSPARSE_PARTIAL_CHUNK_DONT_CARE -> 0 < len l).
  { intros Hn. destruct Hm as [Hm|Hm]; zbool; [|done]. unfold len in *. zbool. lia. }
  unfold unsparse_step.
  case_if; zbool; [apply step_image_weight; try done; apply Hl; by rewrite E|].
  case_if; zbool; [apply step_chunk_weight; try done; apply Hl; by rewrite E0|].
  case_if; zbool; [apply step_raw_weight; try done; apply Hl; by rewrite E1|].
  case_if; zbool; [apply step_fill_weight; try done; apply Hl; by rewrite E2|].
  case_if; zbool; [|case_if; zbool; done].
  unfold step_dont_care, bind. destruct (call _ m) as [[[]|e| | |] m1]; try done.
  intros H. apply next_chunk_weight in H. rewrite H, weight_other by (by rewrite E3). lia.
Qed.

(** The callbacks return. *)
Definition returns (c : M W unit) : Prop := forall w, (c w).1 <> Fuel.

Lemma call_returns (c : M W unit) m : returns c -> (call c m).1 <> Fuel.
Proof. intros Hc. unfold call, map_err. specialize (Hc (world m)). by destruct (c (world m)) as [[] ?]. Qed.

Lemma write_fill_returns fuel b n m :
  (forall d, returns (wr d)) -> 0 <= n < 1024 * Z.of_nat fuel -> (write_fill fuel wr b n m).1 <> Fuel.
Proof.
  intros Hw. revert n m. induction fuel as [|fuel IH]; intros n m Hn; [lia|]. cbn [write_fill].
  destruct (n =? 0) eqn:E; [done|]. zbool. unfold bind.
  pose proof (call_returns (wr (take (Z.to_nat (Z.min n SPARSE_MAX_LOCAL_BUFFER)) b)) m (Hw _)) as Hc.
  destruct (call _ m) as [[[]|e| | |] m1]; try done. unfold SPARSE_MAX_LOCAL_BUFFER.
  destruct (decide (n <= 1024)); [rewrite Z.min_l, Z.sub_diag by lia; by destruct fuel|]. apply IH. lia.
Qed.

Lemma fill_fuel_enough n : 0 <= n -> 0 <= n < 1024 * Z.of_nat (fill_fuel n).
Proof.
  intros Hn. unfold fill_fuel, SPARSE_MAX_LOCAL_BUFFER. pose proof (Z.mul_succ_div_gt n 1024 ltac:(lia)).
  assert (0 <= n / 1024) by (apply Z.div_pos; lia). lia.
Qed.

Lemma copy_in_returns dst off size src : copy_in dst off size src <> Fuel.
Proof. unfold copy_in. by case_if. Qed.

Lemma validate_chunk_returns ih ch : tegrabl_sparse_validate_chunk_header ih ch <> Fuel.
Proof. unfold tegrabl_sparse_validate_chunk_header. repeat case_if; done. Qed.

Lemma validate_header_returns h m : tegrabl_sparse_validate_header h m <> Fuel.
Proof. unfold tegrabl_sparse_validate_header. repeat case_if; done. Qed.

Lemma step_fill_returns l (m : machine W) :
  (forall d, returns (wr d)) -> 0 <= l_remaining l -> (step_fill wr l m).1 <> Fuel.
Proof.
  intros Hw Hr. unfold step_fill. rewrite bind_get. unfold bind at 1. destruct (l_offset l <? 4) eqn:Eo.
  - unfold bind at 1, lift. pose proof (copy_in_returns (fill_value (us m)) (l_offset l) (Z.min (len l) 4) (sparse_buffer l)).
    destruct (copy_in _ _ _ _) as [v|e| | |]; try done. rewrite bind_modify. unfold ret at 1.
    case_if; [done|]. rewrite bind_get. unfold bind. set (m1 := set_us _ _).
    pose proof (write_fill_returns _ (fill_buffer (Z.to_nat (SPARSE_MAX_LOCAL_BUFFER / 4)) (fill_value (us m1))) _ m1 Hw (fill_fuel_enough _ Hr)) as Hf.
    cbn [l_remaining]. by destruct (write_fill _ _ _ _ _) as [[[]|e| | |] m2].
  - unfold ret at 1. rewrite Eo, bind_get. unfold bind.
    pose proof (write_fill_returns _ (fill_buffer (Z.to_nat (SPARSE_MAX_LOCAL_BUFFER / 4)) (fill_value (us m))) _ m Hw (fill_fuel_enough _ Hr)) as Hf.
    by destruct (write_fill _ _ _ _ _) as [[[]|e| | |] m2].
Qed.

Lemma step_returns l (m : machine W) :
  (forall d, returns (wr d)) -> (forall n, returns (sk n)) -> 0 <= l_remaining l -> (unsparse_step wr sk l m).1 <> Fuel.
Proof.
  intros Hw Hs Hr. unfold unsparse_step. case_if; [|case_if; [|case_if; [|case_if; [|case_if; [|by case_if]]]]].
  - unfold step_image_header. rewrite bind_get. unfold bind, lift.
    pose proof (copy_in_returns (image_header (us m)) (l_offset l) (Z.min (len l) (l_remaining l)) (sparse_buffer l)).
    destruct (copy_in _ _ _ _) as [h|e| | |]; try done. cbv zeta. unfold modify at 1. case_if; [done|].
    pose proof (validate_header_returns h (max_unsparse_size (us m))).
    by destruct (tegrabl_sparse_validate_header _ _) as [[]|e| | |].
  - unfold step_chunk_header. rewrite bind_get. unfold bind at 1. set (size := Z.min _ _).
    pose proof (copy_in_returns (chunk_header (us m)) (l_offset l) size (sparse_buffer l)).
    destruct (l_offset l <? _); unfold lift at 1, ret at 1; [destruct (copy_in _ _ _ _) as [h|e| | |]; try done|];
      rewrite bind_modify; cbv zeta; (case_if; [done|]); unfold bind at 1, lift;
      (match goal with |- context [tegrabl_sparse_validate_chunk_header ?a ?b] => pose proof (validate_chunk_returns a b) end);
      destruct (tegrabl_sparse_validate_chunk_header _ _) as [[]|e| | |]; try done; unfold bind, fail_if; by case_if.
  - unfold step_raw, bind at 1. set (d := take _ _). pose proof (call_returns _ m (Hw d)).
    destruct (call (wr d) m) as [[[]|e| | |] m1]; try done. cbv zeta. by case_if.
  - by apply step_fill_returns.
  - unfold step_dont_care, bind. pose proof (call_returns _ m (Hs (l_remaining l))).
    by destruct (call (sk (l_remaining l)) m) as [[[]|e| | |] m1].
Qed.

Lemma loop_ends fuel l (m : machine W) :
  (forall d, returns (wr d)) -> (forall n, returns (sk n)) -> good l (us m) -> weight l < Z.of_nat fuel ->
  match unsparse_loop fuel wr sk l m with
  | (Ret l', m') => good l' (us m')
  | (Fuel, m') => chunk_type (chunk_header (us m')) = TEGRABL_SPARSE_CHUNK_TYPE_CRC
  | _ => True
  end.
Proof.
  intros Hw Hs. revert l m. induction fuel as [|fuel IH]; intros l m Hg Hwt.
  { pose proof (weight_bounds l). unfold len in *. lia. }
  cbn [unsparse_loop]. destruct (more l) eqn:Em; cbn [negb]; [|exact Hg].
  destruct (decide (l_state l = TEGRABL_UNSPARSE_PARTIAL_CHUNK_CRC)) as [Ec|Ec].
  - (* the turn changes nothing *)
    assert (Hstep : unsparse_step wr sk l m = (Ret l, m)) by (unfold unsparse_step; by rewrite Ec).
    clear IH Hwt. unfold bind. rewrite Hstep. induction fuel as [|fuel IH]; cbn [unsparse_loop]; rewrite Em; cbn [negb].
    + by apply (good_crc _ _ Hg).
    + unfold bind. rewrite Hstep. exact IH.
  - unfold bind. pose proof (step_returns l m Hw Hs (proj1 (good_rem _ _ Hg))) as Hf.
    destruct (unsparse_step wr sk l m) as [[l1|e| | |] m1] eqn:E; try done.
    apply IH; [by eapply step_good|]. pose proof (step_weight _ _ _ _ Hg Em Ec E). lia.
Qed.
End Loop.

(** C21.  The loop of [tegrabl_sparse_unsparse] ends.  From every state the
    machine can be in, twice the length of the buffer and two more turns are
    enough, unless the machine is in a crc chunk: then the call never returns,
    because the loop has no way out of that state.  A call that succeeds leaves
    a state the next call can go on from. *)
Theorem unsparse_ends_unless_crc {W} (wr : list Z -> M W unit) (sk : Z -> M W unit) buff (m : machine W) fuel :
  (forall d, returns (wr d)) -> (forall n, returns (sk n)) ->
  writer (us m) = Some wr -> seeker (us m) = Some sk -> buff <> [] ->
  good (load_locals (us m) buff) (us m) -> 2 * Z.of_nat (length buff) + 1 < Z.of_nat fuel ->
  match tegrabl_sparse_unsparse fuel (Some buff) m with
  | (Ret _, m') => forall next, bytes next -> good (load_locals (us m') next) (us m')
  | (Fuel, m') => chunk_type (chunk_header (us m')) = TEGRABL_SPARSE_CHUNK_TYPE_CRC
  | _ => True
  end /\
  (state (us m) = TEGRABL_UNSPARSE_PARTIAL_CHUNK_CRC -> forall f, tegrabl_sparse_unsparse f (Some buff) m = (Fuel, m)).
Proof.
  intros Hw Hs Ewr Esk Hne Hg Hf. destruct buff as [|x b]; [done|]. set (buff := x :: b) in *.
  split.
  - unfold tegrabl_sparse_unsparse, buff. fold buff. rewrite bind_get, Ewr, Esk. unfold bind.
    pose proof (loop_ends wr sk fuel _ m Hw Hs Hg) as Hl.
    specialize (Hl ltac:(pose proof (weight_bounds (load_locals (us m) buff)); unfold len in *; cbn [sparse_buffer load_locals] in *; lia)).
    destruct (unsparse_loop _ _ _ _ m) as [[l|e| | |] m1]; try done.
    unfold modify. intros next Hnext. destruct Hl as [G1 G2 G3 G4 G5 G6 G7]. by constructor.
  - intros Ec f. unfold tegrabl_sparse_unsparse, buff. fold buff. rewrite bind_get, Ewr, Esk.
    set (l := load_locals (us m) buff).
    assert (Hstep : unsparse_step wr sk l m = (Ret l, m)) by (unfold unsparse_step, l; cbn [l_state load_locals]; by rewrite Ec).
    assert (Hl : unsparse_loop f wr sk l m = (Fuel, m)).
    { induction f as [|f IH]; cbn [unsparse_loop]; [done|]. change (more l) with true. cbn [negb].
      unfold bind. by rewrite Hstep. }
    unfold bind. by rewrite Hl.
Qed.

(** ** An image in two pieces *)

Definition with_buf (b : list Z) (l : locals) : locals :=
  mk_locals (l_state l) (l_remaining l) (l_offset l) (l_chunks l) b.

(** Not in the middle of a fill value. *)
Definition resumable (l : locals) : Prop :=
  l_state l = TEGRABL_UNSPARSE_PARTIAL_CHUNK_FILL -> l_offset l = 0.

Lemma consume_with b l s : consume (with_buf b l) s = with_buf (drop (Z.to_nat s) b) (consume l s).
Proof. reflexivity. Qed.

Lemma consume_twice b l s1 s2 : 0 <= s1 -> 0 <= s2 ->
  with_buf b (consume (consume l s1) s2) = with_buf b (consume l (s1 + s2)).
Proof.
  intros H1 H2. unfold with_buf, consume. cbn [l_state l_remaining l_offset l_chunks]. unfold wrapw. f_equal.
  - rewrite Zminus_mod_idemp_l. f_equal. lia.
  - rewrite Zplus_mod_idemp_l. f_equal. lia.
Qed.

Lemma rem_twice l s1 s2 : 0 <= s1 -> 0 <= s2 ->
  l_remaining (consume (consume l s1) s2) = l_remaining (consume l (s1 + s2)).
Proof. intros H1 H2. exact (f_equal l_remaining (consume_twice [] l s1 s2 H1 H2)). Qed.

Lemma consume_rem l n : 0 <= l_remaining l < 2 ^ 64 -> 0 <= n <= l_remaining l -> l_remaining (consume l n) = l_remaining l - n.
Proof. intros. cbn [l_remaining consume]. apply wrapw_small. unfold in_word. lia. Qed.

Lemma consume_off l n : 0 <= l_offset l -> 0 <= n -> l_offset l + n < 2 ^ 64 -> l_offset (consume l n) = l_offset l + n.
Proof. intros. cbn [l_offset consume]. apply wrapw_small. unfold in_word. lia. Qed.

Lemma len_with b l : len (with_buf b l) = Z.of_nat (length b).
Proof. reflexivity. Qed.

Lemma take_app_z (x y : list Z) s : 0 <= s <= Z.of_nat (length x) -> take (Z.to_nat s) (x ++ y) = take (Z.to_nat s) x.
Proof. intros. apply take_app_le. lia. Qed.

Lemma drop_app_z (x y : list Z) s : 0 <= s <= Z.of_nat (length x) -> drop (Z.to_nat s) (x ++ y) = drop (Z.to_nat s) x ++ y.
Proof. intros. apply drop_app_le. lia. Qed.

Lemma copy_in_app dst off s x y : 0 <= s <= Z.of_nat (length x) -> copy_in dst off s (x ++ y) = copy_in dst off s x.
Proof. intros H. unfold copy_in. by rewrite take_app_z. Qed.

Lemma take_app_more (x y : list Z) s : 0 <= s -> take (Z.to_nat (Z.of_nat (length x) + s)) (x ++ y) = x ++ take (Z.to_nat s) y.
Proof. intros. replace (Z.to_nat (Z.of_nat (length x) + s)) with (length x + Z.to_nat s)%nat by lia. apply take_app_add'. done. Qed.

Lemma drop_app_more (x y : list Z) s : 0 <= s -> drop (Z.to_nat (Z.of_nat (length x) + s)) (x ++ y) = drop (Z.to_nat s) y.
Proof. intros. replace (Z.to_nat (Z.of_nat (length x) + s)) with (length x + Z.to_nat s)%nat by lia. apply drop_app_add'. done. Qed.

(** A copy in two parts. *)
Lemma copy_in_split dst off s x y h :
  0 <= off -> 0 <= s <= Z.of_nat (length y) ->
  copy_in dst off (Z.of_nat (length x) + s) (x ++ y) = Ret h ->
  exists h1, copy_in dst off (Z.of_nat (length x)) x = Ret h1 /\
    copy_in h1 (off + Z.of_nat (length x)) s y = Ret h /\ off + Z.of_nat (length x) + s <= Z.of_nat (length dst).
Proof.
  intros Ho Hs Hc. apply copy_in_ret in Hc as [Hle Hh]. rewrite take_app_more in Hh by lia.
  exists (blit dst (Z.to_nat off) x). unfold copy_in. split; [|split].
  - destruct (Z.leb_spec (off + Z.of_nat (length x)) (Z.of_nat (length dst))); [|lia].
    by rewrite Nat2Z.id, firstn_all.
  - rewrite length_blit by lia.
    destruct (Z.leb_spec (off + Z.of_nat (length x) + s) (Z.of_nat (length dst))); [|lia].
    rewrite Hh. f_equal. replace (Z.to_nat (off + Z.of_nat (length x))) with (Z.to_nat off + length x)%nat by lia.
    apply blit_blit_next. rewrite length_take. lia.
  - lia.
Qed.

Section Split.
Context {W : Type} (wr : list Z -> M W unit) (sk : Z -> M W unit).
Context (wr_app : forall a b w, wr (a ++ b) w = (wr a ;;; wr b) w).

Lemma call_split a b (m : machine W) m' :
  call (wr (a ++ b)) m = (Ret tt, m') -> exists m1, call (wr a) m = (Ret tt, m1) /\ call (wr b) m1 = (Ret tt, m') /\ us m1 = us m.
Proof.
  unfold call, map_err. rewrite wr_app. unfold bind.
  destruct (wr a (world m)) as [[[]|e| | |] w1] eqn:E1; try done. cbn [us Sparse.world].
  intros H. exists (mk_machine (us m) w1). by split_and!.
Qed.

(** How the turn on [x ++ y] relates to the turn on [x]: [x] is enough, or it
    is used up and a turn on [y] completes the work. *)
Definition splits (step : locals -> M (machine W) locals) (l : locals) (x y : list Z) (m : machine W)
    (l' : locals) (m' : machine W) : Prop :=
  (exists l'' z, step (with_buf x l) m = (Ret (with_buf z l''), m') /\ l' = with_buf (z ++ y) l'') \/
  (exists l1 m1, step (with_buf x l) m = (Ret (with_buf [] l1), m1) /\
     (l_state l1 = l_state l /\ l_state l <> TEGRABL_UNSPARSE_PARTIAL_CHUNK_DONT_CARE) /\ (resumable l1 -> step (with_buf y l1) m1 = (Ret l', m'))).

Lemma split_raw l x y m l' m' :
  good (with_buf (x ++ y) l) (us m) -> y <> [] -> l_state l = TEGRABL_UNSPARSE_PARTIAL_CHUNK_RAW ->
  step_raw wr (with_buf (x ++ y) l) m = (Ret l', m') -> splits (step_raw wr) l x y m l' m'.
Proof.
  intros Hg Hy Hst. pose proof (good_rem _ _ Hg) as [R1 R2]. cbn [l_remaining with_buf] in R1, R2.
  assert (Hly : 0 < Z.of_nat (length y)) by (destruct y; simpl; [done|lia]).
  unfold splits, step_raw. rewrite !len_with, !consume_with. cbn [sparse_buffer with_buf l_remaining].
  rewrite length_app, Nat2Z.inj_add.
  destruct (decide (l_remaining l <= Z.of_nat (length x))) as [Hle|Hgt].
  - rewrite !Z.min_r by lia. rewrite take_app_z, drop_app_z by lia. unfold bind.
    destruct (call _ m) as [[[]|e| | |] m1] eqn:Ec; try done. intros E. left.
    cbn [l_remaining with_buf consume] in *. rewrite Z.sub_diag in *. change (u64 0) with 0 in *. change (0 =? 0) with true in *. cbn iota in *. unfold next_chunk in *.
    rewrite bind_modify in *. injection E as <- <-.
    by eexists (mk_locals _ _ _ _ []), (drop (Z.to_nat (l_remaining l)) x).
  - rewrite (Z.min_l (Z.of_nat (length x))) by lia.
    set (s := Z.min (Z.of_nat (length y)) (l_remaining l - Z.of_nat (length x))).
    replace (Z.min (Z.of_nat (length x) + Z.of_nat (length y)) (l_remaining l)) with (Z.of_nat (length x) + s) by lia.
    rewrite take_app_more, drop_app_more by lia. unfold bind at 1. intros E.
    destruct (call (wr (x ++ _)) m) as [[[]|e| | |] m2] eqn:Ec; try done.
    apply call_split in Ec as (m1 & E1 & E2 & Eu). right. exists (consume l (Z.of_nat (length x))), m1.
    split; [|split; [split; [done|by rewrite Hst]|]].
    + rewrite Nat2Z.id, firstn_all. unfold bind. rewrite E1. cbv zeta. cbn [l_remaining with_buf consume].
      rewrite wrapw_small by (unfold in_word; lia).
      destruct (Z.eqb_spec (l_remaining l - Z.of_nat (length x)) 0); [lia|]. by rewrite drop_all.
    + intros _. rewrite len_with, consume_with. cbn [sparse_buffer with_buf l_remaining].
      rewrite consume_rem by lia. fold s.
      unfold bind. rewrite E2, consume_twice, rem_twice by lia. exact E.
Qed.

Lemma split_image l x y m l' m' :
  good (with_buf (x ++ y) l) (us m) -> y <> [] -> l_state l = TEGRABL_UNSPARSE_PARTIAL_IMAGE_HEADER ->
  step_image_header (with_buf (x ++ y) l) m = (Ret l', m') -> splits step_image_header l x y m l' m'.
Proof.
  intros Hg Hy Hst. pose proof (good_rem _ _ Hg) as [R1 R2]. pose proof (good_off _ _ Hg) as Ho.
  cbn [l_remaining l_offset with_buf] in R1, R2, Ho.
  assert (Hly : 0 < Z.of_nat (length y)) by (destruct y; simpl; [done|lia]).
  unfold splits, step_image_header. rewrite !len_with, !consume_with, !bind_get.
  cbn [sparse_buffer with_buf l_remaining l_offset]. rewrite length_app, Nat2Z.inj_add.
  destruct (decide (l_remaining l <= Z.of_nat (length x))) as [Hle|Hgt].
  - rewrite !Z.min_r by lia. rewrite copy_in_app, drop_app_z by lia. unfold bind, lift.
    destruct (copy_in _ _ _ _) as [h|e| | |] eqn:Ec; try done. intros E. left.
    cbn [l_remaining l_chunks with_buf] in *. unfold modify at 1 in E. unfold modify at 1. case_if.
    + injection E as <- <-. by eexists (consume l (l_remaining l)), _.
    + destruct (tegrabl_sparse_validate_header _ _) as [[]|e| | |]; try done. injection E as <- <-.
      by eexists (mk_locals _ _ _ _ []), (drop (Z.to_nat (l_remaining l)) x).
  - rewrite (Z.min_l (Z.of_nat (length x))) by lia.
    set (s := Z.min (Z.of_nat (length y)) (l_remaining l - Z.of_nat (length x))).
    replace (Z.min (Z.of_nat (length x) + Z.of_nat (length y)) (l_remaining l)) with (Z.of_nat (length x) + s) by lia.
    rewrite drop_app_more by lia. unfold bind at 1, lift. intros E.
    destruct (copy_in (image_header (us m)) (l_offset l) (Z.of_nat (length x) + s) (x ++ y)) as [h|e| | |] eqn:Ec; try done.
    apply copy_in_split in Ec as (h1 & E1 & E2 & Hb); [|lia..]. right.
    exists (consume l (Z.of_nat (length x))), (set_us (set_image_header h1) m).
    split; [|split; [split; [done|by rewrite Hst]|]].
    + rewrite E1. unfold bind at 1. cbv zeta. rewrite bind_modify. cbn [l_remaining with_buf consume].
      rewrite wrapw_small by (unfold in_word; lia).
      destruct (Z.eqb_spec (l_remaining l - Z.of_nat (length x)) 0); [lia|]. by rewrite Nat2Z.id, drop_all.
    + intros _. rewrite bind_get, len_with, consume_with. cbn [sparse_buffer with_buf l_remaining l_offset].
      pose proof (good_sum _ _ Hg (or_introl Hst)) as Hsum. cbn [l_offset l_remaining with_buf] in Hsum.
      rewrite consume_rem, consume_off by lia. fold s.
      cbn [us set_us set_image_header image_header max_unsparse_size]. rewrite E2.
      unfold bind at 1. cbv zeta. rewrite consume_twice by lia. cbn [l_remaining with_buf] in E |- *. rewrite rem_twice by lia. exact E.
Qed.

(** The copy of a chunk header, which is skipped behind its 12 bytes. *)
Definition head_copy (ch : list Z) (off size : Z) (buf : list Z) : outcome (list Z) :=
  if off <? Z.of_nat CHUNK_HEADER_LEN then copy_in ch off size buf else Ret ch.

Lemma head_copy_split ch off s x y h :
  0 <= off -> 0 < s <= Z.of_nat (length y) ->
  head_copy ch off (Z.of_nat (length x) + s) (x ++ y) = Ret h -> length ch = 12%nat ->
  exists h1, head_copy ch off (Z.of_nat (length x)) x = Ret h1 /\
    head_copy h1 (off + Z.of_nat (length x)) s y = Ret h.
Proof.
  intros Ho Hs Hc Hl. unfold head_copy in *. change (Z.of_nat CHUNK_HEADER_LEN) with 12 in *.
  destruct (Z.ltb_spec off 12).
  - apply copy_in_split in Hc as (h1 & E1 & E2 & Hb); [|lia..]. exists h1. split; [done|].
    destruct (Z.ltb_spec (off + Z.of_nat (length x)) 12); [done|lia].
  - injection Hc as <-. exists ch. split; [done|]. by destruct (Z.ltb_spec (off + Z.of_nat (length x)) 12); [lia|].
Qed.

Lemma step_chunk_header_eq l (m : machine W) :
  step_chunk_header l m =
  match head_copy (chunk_header (us m)) (l_offset l) (Z.min (len l) (l_remaining l)) (sparse_buffer l) with
  | Ret h =>
      let m := set_us (set_chunk_header h) m in
      let l := consume l (Z.min (len l) (l_remaining l)) in
      if negb (l_remaining l =? 0) then (Ret l, m)
      else
        match tegrabl_sparse_validate_chunk_header (image_header (us m)) h with
        | Ret _ =>
            let chunks := u64 (l_chunks l + 1) in
            if total_chunks (image_header (us m)) <? chunks then (Err (TEGRABL_ERROR TEGRABL_ERR_OUT_OF_RANGE 0), m)
            else (Ret (mk_locals (u32 (chunk_type h - TEGRABL_SPARSE_CHUNK_TYPE_RAW + TEGRABL_UNSPARSE_PARTIAL_CHUNK_RAW))
                   (u64 (chunk_sz h * blk_sz (image_header (us m)))) 0 chunks (sparse_buffer l)), m)
        | e => (recast e, m)
        end
  | e => (recast e, m)
  end.
Proof.
  unfold step_chunk_header, head_copy. rewrite bind_get. unfold bind at 1.
  destruct (l_offset l <? Z.of_nat CHUNK_HEADER_LEN); unfold lift at 1, ret at 1;
    [destruct (copy_in _ _ _ _) as [h|e| | |]; try done|]; rewrite bind_modify; cbv zeta; (case_if; [done|]);
    unfold bind at 1, lift; cbn [us set_us set_chunk_header image_header];
    destruct (tegrabl_sparse_validate_chunk_header _ _) as [[]|e| | |]; try done; unfold bind, fail_if; by case_if.
Qed.

Lemma split_chunk l x y m l' m' :
  good (with_buf (x ++ y) l) (us m) -> length (chunk_header (us m)) = 12%nat -> y <> [] ->
  l_state l = TEGRABL_UNSPARSE_PARTIAL_CHUNK_HEADER ->
  step_chunk_header (with_buf (x ++ y) l) m = (Ret l', m') -> splits step_chunk_header l x y m l' m'.
Proof.
  intros Hg Hch Hy Hst. pose proof (good_rem _ _ Hg) as [R1 R2]. pose proof (good_off _ _ Hg) as Ho.
  cbn [l_remaining l_offset with_buf] in R1, R2, Ho.
  assert (Hly : 0 < Z.of_nat (length y)) by (destruct y; simpl; [done|lia]).
  unfold splits. rewrite !step_chunk_header_eq, !len_with, !consume_with.
  cbn [sparse_buffer with_buf l_remaining l_offset l_chunks]. rewrite length_app, Nat2Z.inj_add.
  destruct (decide (l_remaining l <= Z.of_nat (length x))) as [Hle|Hgt].
  - rewrite !Z.min_r by lia. rewrite drop_app_z by lia.
    assert (Hc : head_copy (chunk_header (us m)) (l_offset l) (l_remaining l) (x ++ y) =
      head_copy (chunk_header (us m)) (l_offset l) (l_remaining l) x) by (unfold head_copy; by rewrite copy_in_app by lia).
    rewrite Hc. clear Hc. destruct (head_copy _ _ _ _) as [h|e| | |]; try done. cbv zeta. unfold negb.
    destruct (l_remaining (consume l (l_remaining l)) =? 0).
    + destruct (tegrabl_sparse_validate_chunk_header _ _) as [[]|e| | |]; try done.
      destruct (_ <? _); [done|]. intros [= <- <-]. left.
      by eexists (mk_locals _ _ _ _ []), (drop (Z.to_nat (l_remaining l)) x).
    + intros [= <- <-]. left. by eexists (consume l (l_remaining l)), _.
  - rewrite (Z.min_l (Z.of_nat (length x))) by lia.
    set (s := Z.min (Z.of_nat (length y)) (l_remaining l - Z.of_nat (length x))).
    replace (Z.min (Z.of_nat (length x) + Z.of_nat (length y)) (l_remaining l)) with (Z.of_nat (length x) + s) by lia.
    rewrite drop_app_more by lia. intros E.
    destruct (head_copy (chunk_header (us m)) (l_offset l) (Z.of_nat (length x) + s) (x ++ y)) as [h|e| | |] eqn:Ec; try done.
    apply head_copy_split in Ec as (h1 & E1 & E2); [|lia|lia|done]. right.
    exists (consume l (Z.of_nat (length x))), (set_us (set_chunk_header h1) m).
    split; [|split; [split; [done|by rewrite Hst]|]].
    + rewrite E1. cbv zeta. rewrite consume_rem by lia.
      destruct (Z.eqb_spec (l_remaining l - Z.of_nat (length x)) 0); [lia|]. by rewrite Nat2Z.id, drop_all.
    + intros _. rewrite step_chunk_header_eq, len_with, consume_with. cbn [sparse_buffer with_buf l_remaining l_offset l_chunks].
      pose proof (good_sum _ _ Hg (or_intror Hst)) as Hsum. cbn [l_offset l_remaining with_buf] in Hsum.
      rewrite consume_rem, consume_off by lia. fold s. cbn [us set_us set_chunk_header chunk_header image_header]. rewrite E2.
      cbv zeta in *. rewrite consume_twice by lia. rewrite rem_twice by lia. exact E.
Qed.

Lemma split_fill l x y m l' m' :
  good (with_buf (x ++ y) l) (us m) -> length (fill_value (us m)) = 4%nat -> x <> [] -> y <> [] ->
  l_state l = TEGRABL_UNSPARSE_PARTIAL_CHUNK_FILL ->
  step_fill wr (with_buf (x ++ y) l) m = (Ret l', m') -> splits (step_fill wr) l x y m l' m'.
Proof.
  intros Hg Hv Hx Hy Hst. pose proof (good_off _ _ Hg) as Ho. cbn [l_offset with_buf] in Ho.
  assert (Hly : 0 < Z.of_nat (length y)) by (destruct y; simpl; [done|lia]).
  assert (Hlx : 0 < Z.of_nat (length x)) by (destruct x; simpl; [done|lia]).
  unfold splits, step_fill. rewrite !bind_get, !len_with. cbn [sparse_buffer with_buf l_remaining l_offset l_chunks l_state].
  destruct (l_offset l <? 4) eqn:Eo; zbool.
  2:{ unfold ret at 1. rewrite bind_run with (a := with_buf (x ++ y) l) (s' := m) by done. cbn [l_offset with_buf].
      replace (l_offset l <? 4) with false by lia. rewrite bind_get. unfold bind at 1. cbn [l_remaining with_buf].
      destruct (write_fill _ _ _ _ m) as [[[]|e| | |] m2] eqn:Ew; try done. unfold next_chunk. rewrite bind_modify.
      intros [= <- <-]. left. eexists (mk_locals _ _ _ _ []), x. split; [|reflexivity].
      rewrite bind_run with (a := with_buf x l) (s' := m) by done. cbn [l_offset with_buf].
      replace (l_offset l <? 4) with false by lia. rewrite bind_get. unfold bind at 1. cbn [l_remaining with_buf].
      rewrite Ew. reflexivity. }
  rewrite length_app, Nat2Z.inj_add. destruct (decide (4 <= Z.of_nat (length x))) as [Hle|Hgt].
  - rewrite !(Z.min_r _ 4) by lia. rewrite copy_in_app, drop_app_z by lia. unfold bind at 1 2, lift.
    destruct (copy_in _ _ _ _) as [v|e| | |] eqn:Ec; try done. rewrite bind_modify. unfold ret at 1.
    intros E. left. cbn [l_offset] in E.
    unfold bind at 1. unfold bind at 1. unfold bind at 1. unfold modify at 1. unfold ret at 1. cbn [l_offset].
    case_if.
    + injection E as <- <-. by eexists (mk_locals _ _ _ _ []), (drop (Z.to_nat 4) x).
    + rewrite bind_get in *. cbn [l_remaining] in *. unfold bind at 1 in E. unfold bind at 1.
      destruct (write_fill _ _ _ _ _) as [[[]|e| | |] m2]; try done. unfold next_chunk in *. rewrite bind_modify in *.
      injection E as <- <-. by eexists (mk_locals _ _ _ _ []), (drop (Z.to_nat 4) x).
  - set (s := Z.min (Z.of_nat (length y)) (4 - Z.of_nat (length x))).
    replace (Z.min (Z.of_nat (length x) + Z.of_nat (length y)) 4) with (Z.of_nat (length x) + s) by lia.
    unfold bind at 1 2, lift. intros E.
    destruct (copy_in (fill_value (us m)) (l_offset l) (Z.of_nat (length x) + s) (x ++ y)) as [v|e| | |] eqn:Ec; try done.
    apply copy_in_split in Ec as (v1 & E1 & E2 & Hb); [|lia..]. rewrite Hv in Hb. right.
    set (l1 := mk_locals (l_state l) (l_remaining l) (l_offset l + Z.of_nat (length x)) (l_chunks l) []).
    exists l1, (set_us (set_fill_value v1) m). split; [|split; [split; [done|by rewrite Hst]|]].
    + rewrite (Z.min_l (Z.of_nat (length x))) by lia. unfold bind at 1. unfold bind at 1. rewrite E1. rewrite bind_modify.
      unfold ret at 1. cbn [l_offset]. rewrite wrapw_small by (unfold in_word; lia).
      replace (l_offset l + Z.of_nat (length x) <? 4) with true by lia. by rewrite Nat2Z.id, drop_all.
    + intros Hres. specialize (Hres Hst). cbn [l_offset l1] in Hres. lia.
Qed.

Lemma split_dont_care l x y m l' m' :
  step_dont_care sk (with_buf (x ++ y) l) m = (Ret l', m') -> splits (step_dont_care sk) l x y m l' m'.
Proof.
  unfold splits, step_dont_care, bind. cbn [l_remaining with_buf].
  destruct (call (sk (l_remaining l)) m) as [[[]|e| | |] m1]; try done. intros E. left.
  unfold next_chunk in *. rewrite bind_modify in *. injection E as <- <-. by eexists (mk_locals _ _ _ _ []), x.
Qed.

(** The fields the copies go to have their sizes. *)
Definition sized (u : unsparse_state W) : Prop :=
  length (chunk_header u) = 12%nat /\ length (fill_value u) = 4%nat.

Lemma copy_in_length dst off s src h : 0 <= off -> 0 <= s -> copy_in dst off s src = Ret h -> length h = length dst.
Proof.
  intros Ho Hs Hc. apply copy_in_ret in Hc as [Hle ->]. apply length_blit. rewrite length_take. lia.
Qed.

Lemma next_chunk_sized l (m : machine W) l' m' : sized (us m) -> next_chunk l m = (Ret l', m') -> sized (us m').
Proof. intros [H1 H2] [= <- <-]. by split. Qed.

Lemma step_fill_sized l (m : machine W) l' m' :
  0 <= l_offset l -> sized (us m) -> step_fill wr l m = (Ret l', m') -> sized (us m').
Proof.
  intros Ho Hs. unfold step_fill. rewrite bind_get. unfold bind at 1. destruct (l_offset l <? 4) eqn:Eo.
  - unfold bind at 1, lift. destruct (copy_in _ _ _ _) as [v|e| | |] eqn:Ev; try done. apply copy_in_length in Ev; [|done|unfold len; lia].
    rewrite bind_modify. unfold ret at 1. set (m1 := set_us _ m).
    assert (H1 : sized (us m1)) by (destruct Hs as [Hs1 Hs2]; split; [done|]; by rewrite <- Hs2).
    case_if; [by intros [= <- <-]|]. rewrite bind_get. unfold bind.
    destruct (write_fill _ _ _ _ m1) as [[[]|e| | |] m2] eqn:Ew; try done. apply write_fill_us in Ew.
    apply next_chunk_sized. by rewrite Ew.
  - unfold ret at 1. rewrite Eo, bind_get. unfold bind.
    destruct (write_fill _ _ _ _ m) as [[[]|e| | |] m2] eqn:Ew; try done. apply write_fill_us in Ew.
    apply next_chunk_sized. by rewrite Ew.
Qed.

Lemma step_sized l (m : machine W) l' m' :
  good l (us m) -> sized (us m) -> unsparse_step wr sk l m = (Ret l', m') -> sized (us m').
Proof.
  intros Hg Hs. pose proof Hs as [Hs1 Hs2]. unfold unsparse_step. case_if; [|case_if; [|case_if; [|case_if; [|case_if; [|case_if; [|done]]]]]].
  - unfold step_image_header. rewrite bind_get. unfold bind at 1, lift. destruct (copy_in _ _ _ _) as [h|e| | |]; try done.
    rewrite bind_modify. cbv zeta. case_if; [by intros [= <- <-]|]. unfold bind at 1, lift.
    destruct (tegrabl_sparse_validate_header _ _); try done. rewrite bind_modify. by intros [= <- <-].
  - rewrite step_chunk_header_eq. destruct (head_copy _ _ _ _) as [h|e| | |] eqn:Eh; try done. cbv zeta.
    assert (Hl : length h = 12%nat).
    { unfold head_copy in Eh. destruct (l_offset l <? _); [|by injection Eh as <-]. apply copy_in_length in Eh; [by rewrite Eh|apply Hg|].
      pose proof (good_rem _ _ Hg) as []. unfold len. lia. }
    case_if; [by intros [= <- <-]|]. destruct (tegrabl_sparse_validate_chunk_header _ _); try done.
    case_if; [done|]. by intros [= <- <-].
  - unfold step_raw, bind at 1. destruct (call _ m) as [[[]|e| | |] m1] eqn:Ec; try done. apply call_us in Ec. cbv zeta.
    rewrite <- Ec in Hs. case_if; [by apply next_chunk_sized|by intros [= <- <-]].
  - apply step_fill_sized; [apply Hg|done].
  - unfold step_dont_care, bind. destruct (call _ m) as [[[]|e| | |] m1] eqn:Ec; try done. apply call_us in Ec.
    rewrite <- Ec in Hs. by apply next_chunk_sized.
  - by intros [= <- <-].
Qed.

Lemma step_split l x y m l' m' :
  good (with_buf (x ++ y) l) (us m) -> sized (us m) -> y <> [] -> more (with_buf x l) = true ->
  unsparse_step wr sk (with_buf (x ++ y) l) m = (Ret l', m') -> splits (unsparse_step wr sk) l x y m l' m'.
Proof.
  intros Hg [Hs1 Hs2] Hy Hm.
  (* the turn only depends on the state, which both pieces have *)
  assert (Hlift : forall st, (forall b, unsparse_step wr sk (with_buf b l) = st (with_buf b l)) ->
    (forall l1 b, l_state l1 = l_state l -> unsparse_step wr sk (with_buf b l1) = st (with_buf b l1)) ->
    (st (with_buf (x ++ y) l) m = (Ret l', m') -> splits st l x y m l' m') ->
    unsparse_step wr sk (with_buf (x ++ y) l) m = (Ret l', m') -> splits (unsparse_step wr sk) l x y m l' m').
  { intros st E1 E2 Hst H. rewrite E1 in H. destruct (Hst H) as [(l'' & z & A & B)|(l1 & m1 & A & [B1 B2] & C)].
    - left. exists l'', z. by rewrite E1.
    - right. exists l1, m1. rewrite E1. split_and!; try done. intros Hr. rewrite E2 by done. by apply C. }
  assert (Hx : l_state l <> TEGRABL_UNSPARSE_PARTIAL_CHUNK_DONT_CARE -> x <> []).
  { intros Hn ->. apply Hn. apply Z.eqb_eq. exact Hm. }
  destruct (decide (l_state l = TEGRABL_UNSPARSE_PARTIAL_IMAGE_HEADER)) as [E|N1].
  { apply (Hlift step_image_header); [..|by apply split_image]; intros; unfold unsparse_step; cbn [l_state with_buf];
      rewrite ?H, ?E; done. }
  destruct (decide (l_state l = TEGRABL_UNSPARSE_PARTIAL_CHUNK_HEADER)) as [E|N2].
  { apply (Hlift step_chunk_header); [..|by apply split_chunk]; intros; unfold unsparse_step; cbn [l_state with_buf];
      rewrite ?H, ?E; done. }
  destruct (decide (l_state l = TEGRABL_UNSPARSE_PARTIAL_CHUNK_RAW)) as [E|N3].
  { apply (Hlift (step_raw wr)); [..|by apply split_raw]; intros; unfold unsparse_step; cbn [l_state with_buf];
      rewrite ?H, ?E; done. }
  destruct (decide (l_state l = TEGRABL_UNSPARSE_PARTIAL_CHUNK_FILL)) as [E|N4].
  { apply (Hlift (step_fill wr)); [..|apply split_fill; try done; apply Hx; by rewrite E]; intros; unfold unsparse_step;
      cbn [l_state with_buf]; rewrite ?H, ?E; done. }
  destruct (decide (l_state l = TEGRABL_UNSPARSE_PARTIAL_CHUNK_DONT_CARE)) as [E|N5].
  { apply (Hlift (step_dont_care sk)); [..|by apply split_dont_care]; intros; unfold unsparse_step; cbn [l_state with_buf];
      rewrite ?H, ?E; done. }
  unfold splits, unsparse_step. cbn [l_state with_buf].
  apply Z.eqb_neq in N1, N2, N3, N4, N5. rewrite N1, N2, N3, N4, N5. case_if; [|done].
  intros [= <- <-]. left. by exists l, x.
Qed.

Lemma loop_more f l (m : machine W) r m' :
  unsparse_loop f wr sk l m = (Ret r, m') -> unsparse_loop (S f) wr sk l m = (Ret r, m').
Proof.
  revert l m. induction f as [|f IH]; intros l m H.
  - cbn [unsparse_loop] in *. by destruct (negb (more l)).
  - change (unsparse_loop (S (S f)) wr sk l) with
      (if negb (more l) then ret l else let! l := unsparse_step wr sk l in unsparse_loop (S f) wr sk l).
    cbn [unsparse_loop] in H. destruct (negb (more l)); [done|].
    apply bind_inv in H as (l1 & m1 & E1 & E2). rewrite (bind_run _ _ _ _ _ E1). by apply IH.
Qed.

Lemma with_buf_self l : with_buf (sparse_buffer l) l = l.
Proof. by destruct l. Qed.

(** The loop on [x ++ y] goes through the state the loop on [x] stops in. *)
Lemma loop_split f l x y m le me :
  good (with_buf (x ++ y) l) (us m) -> sized (us m) -> y <> [] ->
  unsparse_loop f wr sk (with_buf (x ++ y) l) m = (Ret le, me) ->
  exists l1 m1, unsparse_loop f wr sk (with_buf x l) m = (Ret (with_buf [] l1), m1) /\
    (resumable l1 -> unsparse_loop f wr sk (with_buf y l1) m1 = (Ret le, me)).
Proof.
  revert l x m. induction f as [|f IH]; intros l x m Hg Hs Hy H.
  - cbn [unsparse_loop] in *. destruct (more (with_buf x l)) eqn:Em; cbn [negb] in *.
    + exfalso. unfold more in *. cbn [l_state with_buf] in *. rewrite len_with in *.
      apply orb_true_iff in Em as [Em|Em]; [|by rewrite Em, orb_true_r in H].
      replace (truthy (Z.of_nat (length (x ++ y)))) with true in H; [done|].
      unfold truthy in *. rewrite length_app. zbool. symmetry. apply negb_true_iff, Z.eqb_neq. lia.
    + assert (x = []) as ->.
      { unfold more in Em. apply orb_false_iff in Em as [Em _]. rewrite len_with in Em. zbool. by destruct x. }
      exists l, m. by split.
  - destruct (more (with_buf x l)) eqn:Em.
    + assert (Em2 : more (with_buf (x ++ y) l) = true).
      { unfold more in *. cbn [l_state with_buf] in *. rewrite len_with in *. apply orb_true_iff in Em as [Em|Em];
          [|by rewrite Em, orb_true_r]. apply orb_true_iff. left. unfold truthy in *. rewrite length_app. zbool.
        apply negb_true_iff, Z.eqb_neq. lia. }
      cbn [unsparse_loop] in H. rewrite Em2 in H. cbn [negb] in H.
      apply bind_inv in H as (l' & m' & E1 & E2).
      pose proof (step_good wr sk _ _ _ _ Hg E1) as Hg'. pose proof (step_sized _ _ _ _ Hg Hs E1) as Hs'.
      destruct (step_split l x y m l' m' Hg Hs Hy Em E1) as [(l'' & z & A & ->)|(l1 & m1 & A & [B1 B2] & C)].
      * destruct (IH l'' z m' Hg' Hs' Hy E2) as (l1 & m1 & F1 & F2). exists l1, m1. split.
        -- cbn [unsparse_loop]. rewrite Em. cbn [negb]. by rewrite (bind_run _ _ _ _ _ A).
        -- intros Hr. by apply loop_more, F2.
      * exists l1, m1. split.
        -- cbn [unsparse_loop]. rewrite Em. cbn [negb]. rewrite (bind_run _ _ _ _ _ A).
           assert (En : more (with_buf [] l1) = false).
           { unfold more. cbn [l_state with_buf]. rewrite B1. cbn. by apply Z.eqb_neq. }
           destruct f; cbn [unsparse_loop]; by rewrite En.
        -- intros Hr. cbn [unsparse_loop].
           assert (Ey : more (with_buf y l1) = true) by (by destruct y). rewrite Ey. cbn [negb].
           by rewrite (bind_run _ _ _ _ _ (C Hr)).
    + assert (x = []) as ->.
      { unfold more in Em. apply orb_false_iff in Em as [Em' _]. rewrite len_with in Em'. zbool. by destruct x. }
      exists l, m. split; [|done]. cbn [unsparse_loop]. by rewrite Em.
Qed.

(** The callbacks of the state never change. *)
Definition same_callbacks (m m' : machine W) : Prop :=
  writer (us m') = writer (us m) /\ seeker (us m') = seeker (us m).

#[local] Instance same_callbacks_preorder : PreOrder same_callbacks.
Proof. split; [by split|]. intros m1 m2 m3 [A B] [C D]. split; congruence. Qed.

Lemma call_callbacks (c : M W unit) : keeps same_callbacks (call c).
Proof. intros m. unfold call. by destruct (map_err _ _ _). Qed.
#[local] Hint Resolve call_callbacks : keeps.

Lemma next_chunk_callbacks l : keeps same_callbacks (next_chunk (W:=W) l).
Proof. by intros m. Qed.
#[local] Hint Resolve next_chunk_callbacks : keeps.

Lemma write_fill_callbacks f b n : keeps same_callbacks (write_fill f wr b n).
Proof. revert n. induction f as [|f IH]; intros n; cbn [write_fill]; keeps_tac. Qed.
#[local] Hint Resolve write_fill_callbacks : keeps.

Lemma step_callbacks l : keeps same_callbacks (unsparse_step wr sk l).
Proof.
  unfold unsparse_step, step_image_header, step_chunk_header, step_raw, step_fill, step_dont_care.
  keeps_tac; by split.
Qed.

Lemma loop_callbacks f l : keeps same_callbacks (unsparse_loop f wr sk l).
Proof.
  revert l. induction f as [|f IH]; intros l; cbn [unsparse_loop]; keeps_tac. apply step_callbacks.
Qed.

(** What is stored in the state of the machine does not matter to the turns. *)
Definition stored (L : locals) (m : machine W) : machine W := set_us (store_locals L) m.

Definition blind {A} (L : locals) (c : M (machine W) A) : Prop :=
  forall m, c (stored L m) = ((c m).1, stored L (c m).2).

Lemma blind_bind {A B} L (c : M (machine W) A) (k : A -> M (machine W) B) :
  blind L c -> (forall a, blind L (k a)) -> blind L (bind c k).
Proof.
  intros Hc Hk m. unfold bind. rewrite Hc. destruct (c m) as [[a|e| | |] m1]; cbn [fst snd]; try done. apply Hk.
Qed.

Lemma blind_get {A} L (k : machine W -> M (machine W) A) :
  (forall m, blind L (k m)) -> (forall m, k (stored L m) = k m) -> blind L (bind get k).
Proof. intros Hk Hs m. rewrite !bind_get, Hs. apply Hk. Qed.

Lemma blind_call L c : blind L (call c).
Proof. intros m. unfold call, stored. cbn [Sparse.world us set_us]. by destruct (map_err _ _ _). Qed.

Lemma write_fill_blind L f b n : blind L (write_fill f wr b n).
Proof.
  revert n. induction f as [|f IH]; intros n; cbn [write_fill]; (case_if; [done|]); [done|].
  apply blind_bind; [apply blind_call|by intros].
Qed.

Lemma step_blind L l : blind L (unsparse_step wr sk l).
Proof.
  unfold unsparse_step. case_if; [|case_if; [|case_if; [|case_if; [|case_if; [|by case_if]]]]].
  - apply blind_get; [|done]. intros s. apply blind_bind; [by intros m|]. intros h. apply blind_bind; [by intros m|]. intros _.
    cbv zeta. case_if; [by intros m|]. apply blind_bind; [by intros m|]. intros _. by apply blind_bind.
  - apply blind_get; [|done]. intros s. apply blind_bind; [case_if; by intros m|]. intros h. apply blind_bind; [by intros m|]. intros _.
    cbv zeta. case_if; [by intros m|]. apply blind_bind; [by intros m|]. intros _.
    apply blind_bind; [|by intros]. intros m. unfold fail_if. by case_if.
  - apply blind_bind; [apply blind_call|]. intros _. cbv zeta. case_if; by intros m.
  - apply blind_get; [|done]. intros s. apply blind_bind.
    { case_if; [|by intros m]. apply blind_bind; [by intros m|]. intros v. by apply blind_bind. }
    intros l1. case_if; [by intros m|]. apply blind_get; [|done]. intros s1. apply blind_bind; [apply write_fill_blind|]. by intros.
  - apply blind_bind; [apply blind_call|]. by intros.
Qed.

Lemma loop_blind L f l : blind L (unsparse_loop f wr sk l).
Proof.
  revert l. induction f as [|f IH]; intros l; cbn [unsparse_loop]; (case_if; [by intros m|]); [by intros m|].
  apply blind_bind; [apply step_blind|done].
Qed.
End Split.

(** An image can be fed in pieces.  If one call expands [b1 ++ b2], then a
    call with [b1] succeeds and, unless it stopped inside the value of a fill
    chunk, a second call with [b2] leaves the same state and has written the
    same. *)
Theorem unsparse_in_pieces {W} (wr : list Z -> M W unit) (sk : Z -> M W unit) b1 b2 (m m' : machine W) fuel :
  (forall d1 d2 v, wr (d1 ++ d2) v = (wr d1 ;;; wr d2) v) ->
  writer (us m) = Some wr -> seeker (us m) = Some sk -> b1 <> [] -> b2 <> [] ->
  good (load_locals (us m) (b1 ++ b2)) (us m) -> sized (us m) ->
  tegrabl_sparse_unsparse fuel (Some (b1 ++ b2)) m = (Ret tt, m') ->
  exists m1, tegrabl_sparse_unsparse fuel (Some b1) m = (Ret tt, m1) /\
    ((state (us m1) = TEGRABL_UNSPARSE_PARTIAL_CHUNK_FILL -> offset (us m1) = 0) ->
     tegrabl_sparse_unsparse fuel (Some b2) m1 = (Ret tt, m')).
Proof.
  intros Hwr Ewr Esk H1 H2 Hg Hs E.
  assert (Eun : forall b (n : machine W), b <> [] -> writer (us n) = Some wr -> seeker (us n) = Some sk ->
    tegrabl_sparse_unsparse fuel (Some b) n =
    (let! l := unsparse_loop fuel wr sk (load_locals (us n) b) in modify (set_us (store_locals l))) n).
  { intros [|x b] n Hb En1 En2; [done|]. unfold tegrabl_sparse_unsparse. by rewrite bind_get, En1, En2. }
  rewrite Eun in E by (done || by destruct b1). apply bind_inv in E as (le & me & E1 & [= <-]).
  set (l := load_locals (us m) []) in *. change (load_locals (us m) (b1 ++ b2)) with (with_buf (b1 ++ b2) l) in *.
  destruct (loop_split wr sk Hwr fuel l b1 b2 m le me Hg Hs H2 E1) as (l1 & m1 & F1 & F2).
  pose proof (loop_callbacks wr sk fuel (with_buf b1 l) m) as [C1 C2]. rewrite F1 in C1, C2. cbn [snd] in C1, C2.
  exists (stored (with_buf [] l1) m1). split.
  - rewrite Eun by done. change (load_locals (us m) b1) with (with_buf b1 l). by rewrite (bind_run _ _ _ _ _ F1).
  - intros Hr. rewrite Eun; [|done|cbn; congruence|cbn; congruence].
    change (load_locals (us (stored (with_buf [] l1) m1)) b2) with (with_buf b2 l1).
    pose proof (loop_blind wr sk (with_buf [] l1) fuel (with_buf b2 l1) m1) as Hb. rewrite (F2 Hr) in Hb. cbn [fst snd] in Hb.
    by rewrite (bind_run _ _ _ _ _ Hb).
Qed.

(** A machine that has just been initialised. *)
Definition fresh_machine (max : Z) : machine (list Z) := mk_machine (start_state collect skip max) [].

Lemma fresh_good max b : bytes b -> good (load_locals (us (fresh_machine max)) b) (us (fresh_machine max)).
Proof. intros Hb. constructor; try done. cbn. by repeat constructor. Qed.

Lemma collect_app d1 d2 v : collect (d1 ++ d2) v = (collect d1 ;;; collect d2) v.
Proof. unfold collect, bind. by rewrite app_assoc. Qed.

(** An image of two chunks, cut in the header of the second one. *)
Definition sample_image : list Z := image 4 [Raw [1; 2; 3]; Fill [7; 7; 7; 7] 8].

Lemma sample_bytes : bytes sample_image.
Proof. apply bytes_dec. vm_compute. reflexivity. Qed.

(** The first three bytes of an image, and a machine that is in a crc chunk. *)
Definition three_bytes : list Z := take 3 sample_image.
Definition crc_machine : machine (list Z) :=
  mk_machine (mk_us TEGRABL_UNSPARSE_PARTIAL_CHUNK_CRC (image_head 4 1 1)
    (blit (repeat 0 CHUNK_HEADER_LEN) 0 [0xC4; 0xCA]) 0 4 12 (repeat 0 4) 1 (Some collect) (Some skip)) [].

Lemma crc_good b : bytes b -> good (load_locals (us crc_machine) b) (us crc_machine).
Proof. intros Hb. constructor; try done. apply bytes_dec. vm_compute. reflexivity. Qed.

Lemma unsparse_ends_unless_crc_witness :
  (forall f, tegrabl_sparse_unsparse f (Some three_bytes) crc_machine = (Fuel, crc_machine)) /\
  match tegrabl_sparse_unsparse 8 (Some three_bytes) (fresh_machine 12) with
  | (Ret _, m') => forall next, bytes next -> good (load_locals (us m') next) (us m')
  | (Fuel, m') => chunk_type (chunk_header (us m')) = TEGRABL_SPARSE_CHUNK_TYPE_CRC
  | _ => True
  end.
Proof.
  assert (Hb : bytes three_bytes) by (apply bytes_dec; vm_compute; reflexivity).
  assert (Hne : three_bytes <> []) by (vm_compute; discriminate).
  assert (Hw : forall d, returns (collect d)) by (intros d w; discriminate).
  assert (Hs : forall n, returns (skip n)) by (intros n w; discriminate).
  assert (Hf : 2 * Z.of_nat (length three_bytes) + 1 < Z.of_nat 8) by (vm_compute; reflexivity).
  pose proof (unsparse_ends_unless_crc collect skip three_bytes (fresh_machine 12) 8 Hw Hs eq_refl eq_refl Hne
    (fresh_good 12 _ Hb) Hf) as [H1 _].
  pose proof (unsparse_ends_unless_crc collect skip three_bytes crc_machine 8 Hw Hs eq_refl eq_refl Hne
    (crc_good _ Hb) Hf) as [_ H2].
  exact (conj (H2 eq_refl) H1).
Defined.

Lemma unsparse_in_pieces_witness :
  let b1 := take 50 sample_image in let b2 := drop 50 sample_image in
  exists m1 m', tegrabl_sparse_unsparse 200 (Some b1) (fresh_machine 12) = (Ret tt, m1) /\
    tegrabl_sparse_unsparse 200 (Some b2) m1 = (Ret tt, m').
Proof.
  intros b1 b2. set (m' := (tegrabl_sparse_unsparse 200 (Some sample_image) (fresh_machine 12)).2).
  assert (Eb : b1 ++ b2 = sample_image) by apply take_drop.
  assert (Hg : good (load_locals (us (fresh_machine 12)) (b1 ++ b2)) (us (fresh_machine 12)))
    by (rewrite Eb; apply fresh_good, sample_bytes).
  assert (Er : tegrabl_sparse_unsparse 200 (Some (b1 ++ b2)) (fresh_machine 12) = (Ret tt, m'))
    by (rewrite Eb; vm_compute; reflexivity).
  assert (H1 : b1 <> []) by (vm_compute; discriminate). assert (H2 : b2 <> []) by (vm_compute; discriminate).
  assert (Hsz : sized (us (fresh_machine 12))) by (by split).
  destruct (unsparse_in_pieces collect skip b1 b2 (fresh_machine 12) m' 200 collect_app eq_refl eq_refl H1 H2 Hg Hsz Er)
    as (m1 & E1 & E2).
  exists m1, m'. split; [exact E1|]. apply E2.
  assert (Es : state (us (tegrabl_sparse_unsparse 200 (Some b1) (fresh_machine 12)).2) = TEGRABL_UNSPARSE_PARTIAL_CHUNK_HEADER)
    by (vm_compute; reflexivity).
  rewrite E1 in Es. cbn [snd] in Es. intros Ec. rewrite Es in Ec. discriminate.
Defined.

(** What the machine does not check.  An image that is accepted in one
    call makes the second of two calls write past the fill value in the state
    when it is cut inside a fill value; and the limit on the expanded size is
    only compared with the block count in the image header, so that an image
    whose header counts no block is expanded to 4096 bytes although one byte is
    allowed. *)
Theorem unsparse_unchecked :
  let img := image 4 [Fill [7; 7; 7; 7] 8; Fill [9; 9; 9; 9] 4] in
  let first := tegrabl_sparse_unsparse 20 (Some (take 42 img)) (fresh_machine 12) in
  let lying := image_head 4096 0 1 ++ encode 4096 (Fill [7; 7; 7; 7] 4096) in
  let expanded := tegrabl_sparse_unsparse 20 (Some lying) (fresh_machine 1) in
  (tegrabl_sparse_unsparse 20 (Some img) (fresh_machine 12)).1 = Ret tt /\
  first.1 = Ret tt /\ (tegrabl_sparse_unsparse 20 (Some (drop 42 img)) first.2).1 = Undef /\
  expanded.1 = Ret tt /\ Z.of_nat (length (world expanded.2)) = 4096.
Proof. vm_compute. split_and!; reflexivity. Qed.
