(* ===== verification/BlockDev.v ===== *)
(** * Block devices

    lib/blockdev/tegrabl_blockdev.c: byte-granular reads and writes made of
    block transfers, the checked entry points, and the list of registered
    devices.

    A buffer is its address and its content; a function that fills a buffer
    returns the new content.  The hooks of a device are the code of its driver
    and act on the world [W].  What a transfer that fails has left in the
    caller's buffer is not modelled. *)
From S2P Require Import Prelude Interfaces Errors.
From stdpp Require Import gmap.
#[local] Open Scope Z_scope.

Definition MODULE : Z := TEGRABL_ERR_BLOCK_DEV.
Definition TEGRABL_ERROR (reason aux_info : Z) : Z := tegrabl_error_value MODULE aux_info reason.
Definition SET_HIGHEST_MODULE (e : Z) : Z := tegrabl_err_set_highest_module e MODULE.

Definition TEGRABL_IOCTL_BLOCK_SIZE : Z := 0.
Definition TEGRABL_IOCTL_DEVICE_CACHE_FLUSH : Z := 4.
Definition TEGRABL_IOCTL_INVALID : Z := 9.
Definition TEGRABL_BLOCKDEV_READ : Z := 2.
Definition TEGRABL_BLOCKDEV_MEM_ALIGN_SIZE : Z := 8.
Definition TEGRABL_STORAGE_SDMMC_RPMB : Z := 2.
Definition TEGRABL_STORAGE_INVALID : Z := 11.
Definition TEGRABL_HEAP_DMA : Z := 1.

(** Arithmetic on powers of two, on 64-bit operands. *)
Definition MOD_LOG2 (n logd : Z) : Z := Z.land n (u64 (Z.shiftl 1 logd) - 1).
Definition DIV_FLOOR_LOG2 (n logd : Z) : Z := Z.shiftr n logd.
Definition DIV_CEIL_LOG2 (n logd : Z) : Z := Z.shiftr (u64 (u64 (n + u64 (Z.shiftl 1 logd)) - 1)) logd.
(** [d] is 32 bits wide. *)
Definition MOD_POW2 (n d : Z) : Z := Z.land n (u32 (d - 1)).

Definition TEGRABL_BLOCK_DEVICE_ID (storage_type instance : Z) : Z :=
  u32 (Z.lor (Z.shiftl storage_type 16) instance).

(** [struct tegrabl_blockdev_xfer_info]; the device is passed beside it. *)
Record xfer_info := mk_xfer {
  xfer_type : Z;
  xfer_buf : Z;
  start_block : Z;
  xfer_block_count : Z;
  is_non_blocking : bool;
  x_id : Z;
}.

(** Byte-granular access is left to the default functions or done by the
    driver. *)
Inductive hook (A : Type) := default_hook | driver_hook (f : A).
Arguments default_hook {A}. Arguments driver_hook {A} f.

(** [struct tegrabl_bdev].  [read_block block count] returns the bytes of the
    blocks.  A null function pointer is [None]. *)
Record bdev (W : Type) := mk_bdev {
  ref : Z;
  device_id : Z;
  size : Z;
  block_size_log2 : Z;
  block_count : Z;
  published : bool;
  buf_align_size : Z;
  read : hook (Z -> list Z -> Z -> Z -> M W (list Z));
  write : hook (Z -> list Z -> Z -> Z -> M W unit);
  read_block : Z -> Z -> M W (list Z);
  write_block : list Z -> Z -> Z -> M W unit;
  xfer : option (xfer_info -> M W unit);
  xfer_wait : option (xfer_info -> Z -> M W Z);
  erase : Z -> Z -> bool -> M W unit;
  ioctl : option (Z -> Z -> M W unit);
  close : option (M W unit);
}.
Arguments mk_bdev {W}. Arguments ref {W}. Arguments device_id {W}. Arguments size {W}.
Arguments block_size_log2 {W}. Arguments block_count {W}. Arguments published {W}.
Arguments buf_align_size {W}. Arguments read {W}. Arguments write {W}. Arguments read_block {W}.
Arguments write_block {W}. Arguments xfer {W}. Arguments xfer_wait {W}. Arguments erase {W}.
Arguments ioctl {W}. Arguments close {W}.

Definition TEGRABL_BLOCKDEV_BLOCK_SIZE {W} (d : bdev W) : Z := u64 (Z.shiftl 1 (block_size_log2 d)).

Definition tegrabl_blockdev_get_storage_type {W} (d : option (bdev W)) : Z :=
  match d with
  | Some d => u16 (Z.min (Z.land (Z.shiftr (device_id d) 16) 0xFF) TEGRABL_STORAGE_INVALID)
  | None => TEGRABL_STORAGE_INVALID
  end.

Definition tegrabl_blockdev_get_instance {W} (d : option (bdev W)) : Z :=
  match d with Some d => u16 (Z.land (device_id d) 0xFF) | None => 0xFF end.

(** [goto fail] behind a call: what is at the label is run before the error is
    returned. *)
Definition or_do {S A} (h : M S unit) (c : M S A) : M S A := fun s =>
  match c s with
  | (Err e, s') => (h ;;; err e) s'
  | r => r
  end.

(** [memcpy] to and from a buffer. *)
Definition copy_to (buf : list Z) (off : Z) (src : list Z) : outcome (list Z) :=
  if off + Z.of_nat (length src) <=? Z.of_nat (length buf) then Ret (blit buf (Z.to_nat off) src) else Undef.
Definition copy_from (buf : list Z) (off n : Z) : outcome (list Z) :=
  if off + n <=? Z.of_nat (length buf) then Ret (slice buf (Z.to_nat off) (Z.to_nat n)) else Undef.

Section Transfers.
Context {W : Type} `{DmaHeap W}.

Definition tegrabl_blockdev_buffer_aligned (d : bdev W) (addr : Z) : bool :=
  MOD_POW2 addr (buf_align_size d) =? 0.

(** ** Block transfers *)

Definition tegrabl_blockdev_read_block (dev : option (bdev W)) (addr : Z) (buf : list Z) (block count : Z) :
    M W (list Z) :=
  match dev with
  | None => err (TEGRABL_ERROR TEGRABL_ERR_INVALID 8)
  | Some d =>
      fail_if (count =? 0) (TEGRABL_ERROR TEGRABL_ERR_INVALID 8) ;;;
      fail_if (negb (tegrabl_blockdev_buffer_aligned d addr)) (TEGRABL_ERROR TEGRABL_ERR_INVALID 25) ;;;
      fail_if (ref d <=? 0) (TEGRABL_ERROR TEGRABL_ERR_INVALID 9) ;;;
      fail_if ((block_count d <? block) || (block_count d <? u32 (block + count)))
        (TEGRABL_ERROR TEGRABL_ERR_OVERFLOW 1) ;;;
      let! data := map_err SET_HIGHEST_MODULE (read_block d block count) in
      lift (copy_to buf 0 data)
  end.

Definition tegrabl_blockdev_write_block (dev : option (bdev W)) (addr : Z) (buf : list Z) (block count : Z) :
    M W unit :=
  match dev with
  | None => err (TEGRABL_ERROR TEGRABL_ERR_INVALID 12)
  | Some d =>
      fail_if ((count =? 0) || (addr =? 0)) (TEGRABL_ERROR TEGRABL_ERR_INVALID 12) ;;;
      fail_if (negb (tegrabl_blockdev_buffer_aligned d addr)) (TEGRABL_ERROR TEGRABL_ERR_INVALID 26) ;;;
      fail_if ((block_count d <? block) || (block_count d <? u32 (block + count)))
        (TEGRABL_ERROR TEGRABL_ERR_OVERFLOW 3) ;;;
      fail_if (ref d <=? 0) (TEGRABL_ERROR TEGRABL_ERR_INVALID 13) ;;;
      map_err SET_HIGHEST_MODULE (write_block d buf block count)
  end.

(** ** Byte-granular access *)

Definition release (b : option (Z * list Z)) : M W unit :=
  match b with Some (a, _) => tegrabl_dealloc TEGRABL_HEAP_DMA a | None => ret tt end.

(** The buffer for the blocks that are only used in part. *)
Definition alloc_partial (d : bdev W) (offset len : Z) : M W (option (Z * list Z)) :=
  if truthy (MOD_LOG2 offset (block_size_log2 d)) || truthy (MOD_LOG2 len (block_size_log2 d)) then
    let! p := tegrabl_alloc_align TEGRABL_HEAP_DMA TEGRABL_BLOCKDEV_MEM_ALIGN_SIZE (TEGRABL_BLOCKDEV_BLOCK_SIZE d) in
    match p with None => err (TEGRABL_ERROR TEGRABL_ERR_NO_MEMORY 0) | Some p => ret (Some p) end
  else ret None.

(** The local variables of the two functions: [moved] is [bytes_read]
    or [bytes_written], [out] the content of the caller's buffer. *)
Record progress := mk_progress { moved : Z; len : Z; block : Z; out : list Z }.

Definition advance (p : progress) (n blocks : Z) (out : list Z) : progress :=
  mk_progress (u64 (moved p + n)) (u64 (len p - n)) (u32 (block p + blocks)) out.

(** The first block, when the range starts inside it. *)
Definition read_first (d : bdev W) (partial : option (Z * list Z)) (offset : Z) (p : progress) :
    M W (progress * option (Z * list Z)) :=
  let block_offset := MOD_LOG2 offset (block_size_log2 d) in
  if truthy block_offset then
    match partial with
    | None => undef
    | Some (a, c) =>
        let! c := or_do (release partial) (tegrabl_blockdev_read_block (Some d) a c (block p) 1) in
        let tocopy := Z.min (u64 (TEGRABL_BLOCKDEV_BLOCK_SIZE d - block_offset)) (len p) in
        let! src := lift (copy_from c block_offset tocopy) in
        let! o := lift (copy_to (out p) (moved p) src) in
        ret (advance p tocopy 1 o, Some (a, c))
    end
  else ret (p, partial).

(** The whole blocks, through [temp_buf] when the caller's buffer is not
    aligned for the device; [temp_buf] is released by the caller. *)
Definition read_middle (d : bdev W) (partial : option (Z * list Z)) (addr : Z) (p : progress) :
    M W (progress * option (Z * list Z)) :=
  if u32 (Z.shiftl 1 (block_size_log2 d)) <=? len p then
    let count := DIV_FLOOR_LOG2 (len p) (block_size_log2 d) in
    let bytes := u64 (Z.shiftl count (block_size_log2 d)) in
    or_do (release partial) (fail_if (len p <? bytes) (TEGRABL_ERROR TEGRABL_ERR_INVALID 1)) ;;;
    if negb (tegrabl_blockdev_buffer_aligned d (addr + moved p)) then
      let! t := tegrabl_alloc_align TEGRABL_HEAP_DMA TEGRABL_BLOCKDEV_MEM_ALIGN_SIZE
                  (u64 (count * TEGRABL_BLOCKDEV_BLOCK_SIZE d)) in
      match t with
      | None => release partial ;;; err (TEGRABL_ERROR TEGRABL_ERR_NO_MEMORY 1)
      | Some (ta, tc) =>
          let! c := or_do (release partial ;;; release t)
                      (map_err SET_HIGHEST_MODULE
                         (tegrabl_blockdev_read_block (Some d) ta tc (block p) (u32 count))) in
          let! src := lift (copy_from c 0 bytes) in
          let! o := lift (copy_to (out p) (moved p) src) in
          ret (advance p bytes count o, t)
      end
    else
      let! c := or_do (release partial)
                  (map_err SET_HIGHEST_MODULE
                     (tegrabl_blockdev_read_block (Some d) (addr + moved p) (drop (Z.to_nat (moved p)) (out p))
                        (block p) (u32 count))) in
      ret (advance p bytes count (take (Z.to_nat (moved p)) (out p) ++ c), None)
  else ret (p, None).

(** The last block, when the range ends inside it. *)
Definition read_last (d : bdev W) (partial temp : option (Z * list Z)) (p : progress) : M W progress :=
  if 0 <? len p then
    match partial with
    | None => release temp ;;; err (TEGRABL_ERROR TEGRABL_ERR_NO_MEMORY 0)
    | Some (a, c) =>
        let! c := or_do (release partial ;;; release temp)
                    (map_err SET_HIGHEST_MODULE (tegrabl_blockdev_read_block (Some d) a c (block p) 1)) in
        let! src := lift (copy_from c 0 (len p)) in
        let! o := lift (copy_to (out p) (moved p) src) in
        ret (mk_progress (u64 (moved p + len p)) (len p) (block p) o)
    end
  else ret p.

Definition tegrabl_blockdev_default_read (dev : option (bdev W)) (addr : Z) (buf : list Z) (offset len : Z) :
    M W (list Z) :=
  match dev with
  | None => err (TEGRABL_ERROR TEGRABL_ERR_INVALID 0)
  | Some d =>
      fail_if (addr =? 0) (TEGRABL_ERROR TEGRABL_ERR_INVALID 0) ;;;
      let! partial := alloc_partial d offset len in
      let p := mk_progress 0 len (u32 (DIV_FLOOR_LOG2 offset (block_size_log2 d))) buf in
      let! (p, partial) := read_first d partial offset p in
      let! (p, temp) := read_middle d partial addr p in
      let! p := read_last d partial temp p in
      release partial ;;; release temp ;;;
      ret (out p)
  end.

(** A block that is written in part is read, changed and written back. *)
Definition rewrite_block (d : bdev W) (fail : M W unit) (a : Z) (c : list Z) (block off : Z) (src : list Z) :
    M W (list Z) :=
  let! c := or_do fail (map_err SET_HIGHEST_MODULE (tegrabl_blockdev_read_block (Some d) a c block 1)) in
  let! c := lift (copy_to c off src) in
  or_do fail (map_err SET_HIGHEST_MODULE (tegrabl_blockdev_write_block (Some d) a c block 1)) ;;;
  ret c.

Definition write_first (d : bdev W) (partial : option (Z * list Z)) (offset : Z) (p : progress) :
    M W (progress * option (Z * list Z)) :=
  let block_offset := MOD_LOG2 offset (block_size_log2 d) in
  if truthy block_offset then
    match partial with
    | None => undef
    | Some (a, c) =>
        let tocopy := Z.min (u64 (TEGRABL_BLOCKDEV_BLOCK_SIZE d - block_offset)) (len p) in
        let! src := lift (copy_from (out p) (moved p) tocopy) in
        let! c := rewrite_block d (release partial) a c (block p) block_offset src in
        ret (advance p tocopy 1 (out p), Some (a, c))
    end
  else ret (p, partial).

Definition write_middle (d : bdev W) (partial : option (Z * list Z)) (addr : Z) (p : progress) :
    M W (progress * option (Z * list Z)) :=
  if u32 (Z.shiftl 1 (block_size_log2 d)) <=? len p then
    let count := DIV_FLOOR_LOG2 (len p) (block_size_log2 d) in
    let bytes := u64 (Z.shiftl count (block_size_log2 d)) in
    or_do (release partial) (fail_if (len p <? bytes) (TEGRABL_ERROR TEGRABL_ERR_INVALID 3)) ;;;
    if negb (tegrabl_blockdev_buffer_aligned d (addr + moved p)) then
      let! t := tegrabl_alloc_align TEGRABL_HEAP_DMA TEGRABL_BLOCKDEV_MEM_ALIGN_SIZE
                  (u64 (count * TEGRABL_BLOCKDEV_BLOCK_SIZE d)) in
      match t with
      | None => release partial ;;; err (TEGRABL_ERROR TEGRABL_ERR_NO_MEMORY 2)
      | Some (ta, tc) =>
          let! src := lift (copy_from (out p) (moved p) bytes) in
          let! tc := lift (copy_to tc 0 src) in
          or_do (release t ;;; release partial)
            (map_err SET_HIGHEST_MODULE
               (tegrabl_blockdev_write_block (Some d) ta tc (block p) (u32 count))) ;;;
          ret (advance p bytes count (out p), t)
      end
    else
      or_do (release partial)
        (map_err SET_HIGHEST_MODULE
           (tegrabl_blockdev_write_block (Some d) (addr + moved p) (drop (Z.to_nat (moved p)) (out p))
              (block p) (u32 count))) ;;;
      ret (advance p bytes count (out p), None)
  else ret (p, None).

Definition write_last (d : bdev W) (partial temp : option (Z * list Z)) (p : progress) : M W progress :=
  if 0 <? len p then
    match partial with
    | None => release temp ;;; err (TEGRABL_ERROR TEGRABL_ERR_NO_MEMORY 0)
    | Some (a, c) =>
        let! src := lift (copy_from (out p) (moved p) (len p)) in
        rewrite_block d (release temp ;;; release partial) a c (block p) 0 src ;;;
        ret (mk_progress (u64 (moved p + len p)) (len p) (block p) (out p))
    end
  else ret p.

(** [buf] holds the data. *)
Definition tegrabl_blockdev_default_write (dev : option (bdev W)) (addr : Z) (buf : list Z) (offset len : Z) :
    M W unit :=
  match dev with
  | None => err (TEGRABL_ERROR TEGRABL_ERR_INVALID 2)
  | Some d =>
      fail_if (addr =? 0) (TEGRABL_ERROR TEGRABL_ERR_INVALID 2) ;;;
      let! partial := alloc_partial d offset len in
      let p := mk_progress 0 len (u32 (DIV_FLOOR_LOG2 offset (block_size_log2 d))) buf in
      let! (p, partial) := write_first d partial offset p in
      let! (p, temp) := write_middle d partial addr p in
      let! _ := write_last d partial temp p in
      release temp ;;; release partial
  end.

Definition tegrabl_blockdev_read (dev : option (bdev W)) (addr : Z) (buf : list Z) (offset len : Z) :
    M W (list Z) :=
  match dev with
  | None => err (TEGRABL_ERROR TEGRABL_ERR_INVALID 6)
  | Some d =>
      fail_if (len =? 0) (TEGRABL_ERROR TEGRABL_ERR_INVALID 6) ;;;
      fail_if (ref d <=? 0) (TEGRABL_ERROR TEGRABL_ERR_INVALID 7) ;;;
      fail_if ((size d <=? offset) || (size d <? u64 (offset + len))) (TEGRABL_ERROR TEGRABL_ERR_OVERFLOW 0) ;;;
      map_err SET_HIGHEST_MODULE
        (match read d with
         | default_hook => tegrabl_blockdev_default_read dev addr buf offset len
         | driver_hook f => f addr buf offset len
         end)
  end.

Definition tegrabl_blockdev_write (dev : option (bdev W)) (addr : Z) (buf : list Z) (offset len : Z) : M W unit :=
  match dev with
  | None => err (TEGRABL_ERROR TEGRABL_ERR_INVALID 10)
  | Some d =>
      fail_if (len =? 0) (TEGRABL_ERROR TEGRABL_ERR_INVALID 10) ;;;
      fail_if (ref d <=? 0) (TEGRABL_ERROR TEGRABL_ERR_INVALID 11) ;;;
      fail_if ((size d <=? offset) || (size d <? u64 (offset + len))) (TEGRABL_ERROR TEGRABL_ERR_OVERFLOW 2) ;;;
      map_err SET_HIGHEST_MODULE
        (match write d with
         | default_hook => tegrabl_blockdev_default_write dev addr buf offset len
         | driver_hook f => f addr buf offset len
         end)
  end.

Definition tegrabl_blockdev_erase (dev : option (bdev W)) (block count : Z) (is_secure : bool) : M W unit :=
  match dev with
  | None => err (TEGRABL_ERROR TEGRABL_ERR_INVALID 14)
  | Some d =>
      fail_if (count =? 0) (TEGRABL_ERROR TEGRABL_ERR_INVALID 14) ;;;
      fail_if ((block_count d <? block) || (block_count d <? u32 (block + count)))
        (TEGRABL_ERROR TEGRABL_ERR_OVERFLOW 4) ;;;
      fail_if (ref d <=? 0) (TEGRABL_ERROR TEGRABL_ERR_INVALID 15) ;;;
      map_err SET_HIGHEST_MODULE (erase d block count is_secure)
  end.

Definition tegrabl_blockdev_erase_all (dev : option (bdev W)) (is_secure : bool) : M W unit :=
  match dev with
  | None => err (TEGRABL_ERROR TEGRABL_ERR_INVALID 16)
  | Some d => tegrabl_blockdev_erase dev 0 (block_count d) is_secure
  end.

(** [args]: the address of the argument; the block size is stored there. *)
Definition tegrabl_blockdev_ioctl (dev : option (bdev W)) (request args : Z) : M W (option Z) :=
  match dev with
  | None => err (TEGRABL_ERROR TEGRABL_ERR_INVALID 17)
  | Some d =>
      fail_if ((TEGRABL_IOCTL_INVALID <=? request) || (args =? 0)) (TEGRABL_ERROR TEGRABL_ERR_INVALID 17) ;;;
      if request =? TEGRABL_IOCTL_BLOCK_SIZE then ret (Some (TEGRABL_BLOCKDEV_BLOCK_SIZE d))
      else match ioctl d with
           | None => undef
           | Some f => map_err SET_HIGHEST_MODULE (f request args) ;;; ret None
           end
  end.

Definition tegrabl_blockdev_xfer_wait (x : option (bdev W * xfer_info)) (timeout : Z) : M W Z :=
  match x with
  | None => err (TEGRABL_ERROR TEGRABL_ERR_INVALID 24)
  | Some (d, x) =>
      match xfer_wait d with
      | None => undef
      | Some f => map_err SET_HIGHEST_MODULE (f x timeout)
      end
  end.

(** ** The default hooks *)

Definition tegrabl_blockdev_default_erase (block count : Z) (is_secure : bool) : M W unit :=
  err (TEGRABL_ERROR TEGRABL_ERR_NOT_SUPPORTED 0).
Definition tegrabl_blockdev_default_read_block (block count : Z) : M W (list Z) :=
  err (TEGRABL_ERROR TEGRABL_ERR_NOT_SUPPORTED 1).
Definition tegrabl_blockdev_default_write_block (buf : list Z) (block count : Z) : M W unit :=
  err (TEGRABL_ERROR TEGRABL_ERR_NOT_SUPPORTED 2).

(** [old]: the structure before the call; the hooks without a default, the
    alignment and the publication flag are kept. *)
Definition tegrabl_blockdev_initialize_bdev (old : option (bdev W)) (id log2 count : Z) : outcome (bdev W) :=
  match old with
  | None => Err (TEGRABL_ERROR TEGRABL_ERR_INVALID 18)
  | Some d =>
      Ret (mk_bdev 0 id (u64 (Z.shiftl count log2)) log2 count (published d) (buf_align_size d)
             default_hook default_hook tegrabl_blockdev_default_read_block tegrabl_blockdev_default_write_block
             (xfer d) (xfer_wait d) tegrabl_blockdev_default_erase (ioctl d) None)
  end.
End Transfers.

(** ** The registered devices *)

(** [bdevs]: the list of registered devices, [None] before the initialisation;
    [devices]: the device structures by address. *)
Record framework (W : Type) := mk_framework {
  bdevs : option (list Z);
  devices : gmap Z (bdev W);
  xfer_id : Z;
  bd_world : W;
}.
Arguments mk_framework {W}. Arguments bdevs {W}. Arguments devices {W}. Arguments xfer_id {W}.
Arguments bd_world {W}.

Section Registry.
Context {W : Type}.

Definition set_list (l : list Z) (s : framework W) : framework W :=
  mk_framework (Some l) (devices s) (xfer_id s) (bd_world s).
Definition set_device (a : Z) (d : bdev W) (s : framework W) : framework W :=
  mk_framework (bdevs s) (<[a := d]> (devices s)) (xfer_id s) (bd_world s).
Definition free_device (a : Z) (s : framework W) : framework W :=
  mk_framework (bdevs s) (delete a (devices s)) (xfer_id s) (bd_world s).

(** Access through a pointer. *)
Definition the_list : M (framework W) (list Z) := fun s =>
  match bdevs s with Some l => (Ret l, s) | None => (Undef, s) end.
Definition deref (a : Z) : M (framework W) (bdev W) := fun s =>
  match devices s !! a with Some d => (Ret d, s) | None => (Undef, s) end.

(** A call that acts on the world only. *)
Definition on_world {A} (c : M W A) : M (framework W) A := fun s =>
  let '(o, w) := c (bd_world s) in (o, mk_framework (bdevs s) (devices s) (xfer_id s) w).

Definition set_ref (r : Z) (d : bdev W) : bdev W :=
  mk_bdev r (device_id d) (size d) (block_size_log2 d) (block_count d) (published d) (buf_align_size d)
    (read d) (write d) (read_block d) (write_block d) (xfer d) (xfer_wait d) (erase d) (ioctl d) (close d).

Definition tegrabl_blockdev_init (malloc : M W bool) : M (framework W) unit :=
  let! s := get in
  match bdevs s with
  | Some _ => ret tt
  | None =>
      let! ok := on_world malloc in
      fail_if (negb ok) (TEGRABL_ERROR TEGRABL_ERR_NO_MEMORY 2) ;;;
      modify (set_list [])
  end.

(** [list_delete]: the node of a device that is in no list is null on both
    sides. *)
Definition list_delete (a : Z) : M (framework W) unit :=
  let! l := the_list in
  if decide (a ∈ l) then modify (set_list (filter (fun x => x <> a) l)) else undef.

Definition list_in_list (a : Z) : M (framework W) bool :=
  let! l := the_list in ret (bool_decide (a ∈ l)).

Definition bdev_inc_ref (a : Z) : M (framework W) unit :=
  let! d := deref a in modify (set_device a (set_ref (u32 (ref d + 1)) d)).

Definition bdev_dec_ref (a : Z) : M (framework W) unit :=
  let! d := deref a in
  let oldval := ref d in
  when (0 <? ref d) (modify (set_device a (set_ref (ref d - 1) d))) ;;;
  if oldval =? 1 then
    let! linked := list_in_list a in
    fail_if (negb linked) (TEGRABL_ERROR TEGRABL_ERR_INVALID 4) ;;;
    list_delete a ;;;
    match close d with
    | Some f => on_world (let! _ := code f in ret tt)
    | None => ret tt
    end ;;;
    modify (free_device a)
  else ret tt.

(** The walk of [tegrabl_blockdev_open]. *)
Fixpoint find_device (l : list Z) (id : Z) : M (framework W) (option Z) :=
  match l with
  | [] => ret None
  | a :: l =>
      let! d := deref a in
      if ref d <=? 0 then ret None
      else if device_id d =? id then bdev_inc_ref a ;;; ret (Some a)
      else find_device l id
  end.

Definition tegrabl_blockdev_open (storage_type instance : Z) : M (framework W) (option Z) :=
  if TEGRABL_STORAGE_INVALID <=? storage_type then ret None
  else let! l := the_list in find_device l (TEGRABL_BLOCK_DEVICE_ID storage_type instance).

Definition tegrabl_blockdev_close (dev : option Z) : M (framework W) unit :=
  match dev with
  | None => err (TEGRABL_ERROR TEGRABL_ERR_INVALID 5)
  | Some a => let! _ := code (bdev_dec_ref a) in ret tt
  end.

(** The element behind [a]; the links of a device that is in no list are
    null. *)
Fixpoint next_in (a : Z) (l : list Z) : option Z :=
  match l with
  | [] => None
  | x :: l => if x =? a then head l else next_in a l
  end.

Definition tegrabl_blockdev_next_device (curr_bdev : option Z) : M (framework W) (option Z) :=
  let! l := the_list in
  match curr_bdev with
  | None => ret (head l)
  | Some a => let! _ := deref a in ret (next_in a l)
  end.

(** The search for a device of the same id. *)
Fixpoint registered (l : list Z) (id : Z) : M (framework W) bool :=
  match l with
  | [] => ret false
  | a :: l => let! d := deref a in if device_id d =? id then ret true else registered l id
  end.

Definition tegrabl_blockdev_register_device (dev : option Z) : M (framework W) unit :=
  match dev with
  | None => err (TEGRABL_ERROR TEGRABL_ERR_INVALID 20)
  | Some a =>
      let! d := deref a in
      bdev_inc_ref a ;;;
      let! l := the_list in
      let! duplicate := registered l (device_id d) in
      when (negb duplicate) (modify (set_list (l ++ [a]))) ;;;
      if duplicate then err (TEGRABL_ERROR TEGRABL_ERR_ALREADY_EXISTS 0) else ret tt
  end.

Definition tegrabl_blockdev_unregister_device (dev : option Z) : M (framework W) unit :=
  match dev with
  | None => err (TEGRABL_ERROR TEGRABL_ERR_INVALID 21)
  | Some a =>
      list_delete a ;;;
      let! _ := code (bdev_dec_ref a) in ret tt
  end.

(** A transfer in the background: the structure gets its number when the
    driver has taken it. *)
Definition tegrabl_blockdev_xfer (x : option (Z * xfer_info)) : M (framework W) xfer_info :=
  match x with
  | None => err (TEGRABL_ERROR TEGRABL_ERR_INVALID 22)
  | Some (a, x) =>
      let! d := deref a in
      fail_if ((block_count d <? start_block x) || (block_count d <? u32 (start_block x + xfer_block_count x)))
        (TEGRABL_ERROR TEGRABL_ERR_OVERFLOW 5) ;;;
      fail_if (ref d <=? 0) (TEGRABL_ERROR TEGRABL_ERR_INVALID 23) ;;;
      match xfer d with
      | None => undef
      | Some f =>
          on_world (map_err SET_HIGHEST_MODULE (f x)) ;;;
          let! s := get in
          modify (fun s => mk_framework (bdevs s) (devices s) (u32 (xfer_id s + 1)) (bd_world s)) ;;;
          ret (mk_xfer (xfer_type x) (xfer_buf x) (start_block x) (xfer_block_count x) (is_non_blocking x) (xfer_id s))
      end
  end.
End Registry.
