(* ===== verification/BlockSpec.v ===== *)
(** * Block devices: correctness

    A driver that stores the blocks it is given makes the byte-granular
    functions of BlockDev.v read and write the device as one byte string. *)
From stdpp Require Import gmap.
From S2P Require Import Prelude Interfaces Errors BlockDev.
#[local] Open Scope Z_scope.

(** ** Buffers *)

Lemma slice_next (C : list Z) o n m : slice C o n ++ slice C (o + n) m = slice C o (n + m) \/ (length C < o + n)%nat.
Proof.
  destruct (decide (o + n <= length C)%nat); [left|lia].
  unfold slice. rewrite <- drop_drop. set (D := drop o C).
  rewrite <- (take_drop n (take (n + m) D)). rewrite take_take, Nat.min_l by lia. f_equal.
  by rewrite skipn_firstn_comm, Nat.add_comm, Nat.add_sub.
Qed.

Lemma blit_full (b x : list Z) : length x = length b -> blit b 0 x = x.
Proof. intros H. unfold blit. rewrite take_0. cbn [app]. by rewrite H, Nat.add_0_l, drop_all, app_nil_r. Qed.

Lemma blit_nil (b : list Z) o : blit b o [] = b.
Proof. unfold blit. cbn [app length]. by rewrite Nat.add_0_r, take_drop. Qed.

Lemma blit_inner (C src : list Z) q n off :
  (off + length src <= n)%nat -> (q + n <= length C)%nat ->
  blit C q (blit (slice C q n) off src) = blit C (q + off) src.
Proof.
  intros H1 H2. assert (Hs : length (slice C q n) = n) by (rewrite length_slice; lia).
  assert (Hb : length (blit (slice C q n) off src) = n) by (rewrite length_blit; lia).
  apply list_eq. intros i. rewrite (lookup_blit C q), Hb, (lookup_blit C (q + off)) by lia.
  destruct (decide (q <= i < q + n)%nat).
  - rewrite lookup_blit by lia. destruct (decide (off <= i - q < _)%nat).
    + destruct (decide _); [|lia]. f_equal. lia.
    + destruct (decide (q + off <= _ < _)%nat); [lia|]. rewrite lookup_slice.
      destruct (decide _); [|lia]. f_equal. lia.
  - by destruct (decide _); [lia|].
Qed.

Lemma blit_drop (b x : list Z) o : (o + length x <= length b)%nat -> take o b ++ blit (drop o b) 0 x = blit b o x.
Proof. intros H. unfold blit. by rewrite take_0, drop_drop, Nat.add_0_l. Qed.

Lemma copy_to_ret buf off src : 0 <= off -> (Z.to_nat off + length src <= length buf)%nat ->
  copy_to buf off src = Ret (blit buf (Z.to_nat off) src).
Proof. intros H0 H. unfold copy_to. destruct (Z.leb_spec (off + Z.of_nat (length src)) (Z.of_nat (length buf))); [done|lia]. Qed.

Lemma copy_from_ret buf off n : 0 <= off -> 0 <= n -> off + n <= Z.of_nat (length buf) ->
  copy_from buf off n = Ret (slice buf (Z.to_nat off) (Z.to_nat n)).
Proof. intros H0 H1 H. unfold copy_from. by destruct (Z.leb_spec (off + n) (Z.of_nat (length buf))); [|lia]. Qed.

(** ** Arithmetic of the macros *)

Lemma pow2_small lg w : 0 <= lg < w -> in_word w (2 ^ lg).
Proof. intros H. split; [apply Z.pow_nonneg; lia|]. apply Z.pow_lt_mono_r; lia. Qed.

Lemma MOD_LOG2_mod n lg : 0 <= lg < 64 -> MOD_LOG2 n lg = n mod 2 ^ lg.
Proof.
  intros H. unfold MOD_LOG2. rewrite Z.shiftl_1_l, wrapw_small by (by apply pow2_small).
  rewrite Z.sub_1_r, <- Z.ones_equiv. apply Z.land_ones; lia.
Qed.

Lemma DIV_FLOOR_LOG2_div n lg : 0 <= lg -> DIV_FLOOR_LOG2 n lg = n / 2 ^ lg.
Proof. intros. by apply Z.shiftr_div_pow2. Qed.

Lemma MOD_POW2_mod n k : 0 <= k < 32 -> MOD_POW2 n (2 ^ k) = n mod 2 ^ k.
Proof.
  intros H. unfold MOD_POW2. assert (1 <= 2 ^ k) by (apply (Z.pow_le_mono_r 2 0); lia).
  pose proof (pow2_small k 32 H) as [_ ?]. rewrite wrapw_small by (unfold in_word; lia).
  rewrite Z.sub_1_r, <- Z.ones_equiv. apply Z.land_ones. lia.
Qed.

(** ** What a driver and the DMA heap do

    [content]: the bytes of the device.  [elsewhere]: what no call on this
    device changes.  [may_fail] is false for a device and a heap that always
    serve a valid request. *)
Class FlatDevice {W : Type} `{DmaHeap W} (d : bdev W) := {
  content : W -> list Z;
  elsewhere : W -> W -> Prop;
  elsewhere_preorder :: PreOrder elsewhere;
  may_fail : Prop;
  dev_log2 : 0 <= block_size_log2 d < 32;
  dev_count : in_word 32 (block_count d);
  dev_size : size d = block_count d * 2 ^ block_size_log2 d;
  dev_ref : 0 < ref d;
  dev_align : exists k, 0 <= k <= 3 /\ buf_align_size d = 2 ^ k;
  dev_length w : Z.of_nat (length (content w)) = size d;
  dev_read w b n : 0 <= b -> 0 < n -> b + n <= block_count d ->
    let '(r, w') := read_block d b n w in
    elsewhere w w' /\ content w' = content w /\
    match r with
    | Ret data => data = slice (content w) (Z.to_nat (b * 2 ^ block_size_log2 d)) (Z.to_nat (n * 2 ^ block_size_log2 d))
    | Err _ => may_fail
    | _ => False
    end;
  dev_write w buf b n : 0 <= b -> 0 < n -> b + n <= block_count d ->
    n * 2 ^ block_size_log2 d <= Z.of_nat (length buf) ->
    let '(r, w') := write_block d buf b n w in
    elsewhere w w' /\
    match r with
    | Ret _ => content w' = blit (content w) (Z.to_nat (b * 2 ^ block_size_log2 d))
                              (take (Z.to_nat (n * 2 ^ block_size_log2 d)) buf)
    | Err _ => may_fail /\ forall i, Z.of_nat i < b * 2 ^ block_size_log2 d \/
                 (b + n) * 2 ^ block_size_log2 d <= Z.of_nat i -> content w' !! i = content w !! i
    | _ => False
    end;
  dev_erase w b n secure : 0 <= b -> 0 < n -> b + n <= block_count d ->
    let '(r, w') := erase d b n secure w in
    elsewhere w w' /\ forall i, Z.of_nat i < b * 2 ^ block_size_log2 d \/
      (b + n) * 2 ^ block_size_log2 d <= Z.of_nat i -> content w' !! i = content w !! i;
  dma_alloc w al n : 0 <= n -> al = 8 \/ al = 4096 ->
    let '(r, w') := tegrabl_alloc_align TEGRABL_HEAP_DMA al n w in
    elsewhere w w' /\ content w' = content w /\
    match r with
    | Ret (Some (a, c)) => 0 < a /\ a mod 8 = 0 /\ length c = Z.to_nat n
    | Ret None => may_fail
    | _ => False
    end;
  dma_free w a :
    let '(r, w') := tegrabl_dealloc TEGRABL_HEAP_DMA a w in
    elsewhere w w' /\ content w' = content w /\ r = Ret tt;
}.

Section Device.
Context {W : Type} `{DmaHeap W} (d : bdev W) `{!FlatDevice d}.
Notation bs := (2 ^ block_size_log2 d).

(** ** Triples on the content *)

(** From a content with [Pre], [c] returns with [Post], or fails, which only a
    device that [may_fail] does, and leaves [Fail]. *)
Definition triple {A} (Pre : list Z -> Prop) (c : M W A) (Post : A -> list Z -> Prop) (Fail : list Z -> Prop) : Prop :=
  forall w, Pre (content w) ->
    let '(r, w') := c w in
    elsewhere w w' /\
    match r with Ret a => Post a (content w') | Err _ => may_fail /\ Fail (content w') | _ => False end.

Lemma t_ret {A} (Pre : list Z -> Prop) (a : A) (Post : A -> list Z -> Prop) Fail :
  (forall C, Pre C -> Post a C) -> triple Pre (ret a) Post Fail.
Proof. intros H1 w Hw. split; [reflexivity|]. by apply H1. Qed.

Lemma t_lift {A} (Pre : list Z -> Prop) o (a : A) (Post : A -> list Z -> Prop) Fail :
  o = Ret a -> (forall C, Pre C -> Post a C) -> triple Pre (lift o) Post Fail.
Proof. intros -> H1. by apply t_ret. Qed.

Lemma t_bind {A B} Pre (c : M W A) (k : A -> M W B) Mid Post Fail :
  triple Pre c Mid Fail -> (forall a, triple (Mid a) (k a) Post Fail) -> triple Pre (bind c k) Post Fail.
Proof.
  intros Hc Hk w Hw. unfold bind. specialize (Hc w Hw). destruct (c w) as [[a|e| | |] w1]; [|done..].
  destruct Hc as [He Ha]. specialize (Hk a w1 Ha). destruct (k a w1) as [r w2].
  destruct Hk as [He2 Hr]. split; [by etrans|done].
Qed.

Lemma t_pure {A} (P : Prop) Pre (c : M W A) Post Fail :
  (forall C, Pre C -> P) -> (P -> triple Pre c Post Fail) -> triple Pre c Post Fail.
Proof. intros H1 H2 w Hw. by apply H2; [eapply H1|]. Qed.

Lemma t_conseq {A} (Pre Pre' : list Z -> Prop) (c : M W A) Post Post' (Fail Fail' : list Z -> Prop) :
  triple Pre' c Post' Fail' -> (forall C, Pre C -> Pre' C) -> (forall a C, Post' a C -> Post a C) ->
  (forall C, Fail' C -> Fail C) -> triple Pre c Post Fail.
Proof.
  intros Hc H1 H2 H3 w Hw. specialize (Hc w (H1 _ Hw)). destruct (c w) as [[a|e| | |] w1];
    destruct Hc as [? Hr]; (split; [done|]); try done; [by apply H2|]. destruct Hr. split; [done|by apply H3].
Qed.

Lemma t_map_err {A} f Pre (c : M W A) Post Fail : triple Pre c Post Fail -> triple Pre (map_err f c) Post Fail.
Proof. intros Hc w Hw. specialize (Hc w Hw). unfold map_err. by destruct (c w) as [[a|e| | |] w1]. Qed.

Lemma t_or_do {A} Pre (h : M W unit) (c : M W A) Post (Fail : list Z -> Prop) :
  triple Pre c Post Fail -> triple Fail h (fun _ => Fail) Fail -> triple Pre (or_do h c) Post Fail.
Proof.
  intros Hc Hh w Hw. specialize (Hc w Hw). unfold or_do. destruct (c w) as [[a|e| | |] w1]; try done.
  destruct Hc as (He & Hm & Hf). unfold bind. specialize (Hh w1 Hf).
  destruct (h w1) as [[a|e'| | |] w2]; destruct Hh as [He2 Hr]; (split; [by etrans|]); naive_solver.
Qed.

Lemma t_release Pre b : triple Pre (release b) (fun _ => Pre) Pre.
Proof.
  destruct b as [[a c]|]; [|by apply t_ret]. intros w Hw. cbn [release].
  pose proof (dma_free w a) as Hf. destruct (tegrabl_dealloc _ a w) as [r w']. destruct Hf as (He & Hc & ->).
  split; [done|]. by rewrite Hc.
Qed.

Lemma t_release2 Pre b b' : triple Pre (release b ;;; release b') (fun _ => Pre) Pre.
Proof. eapply t_bind; [apply t_release|]. intros ?. apply t_release. Qed.

Lemma t_alloc Pre n : 0 <= n ->
  triple Pre (tegrabl_alloc_align TEGRABL_HEAP_DMA TEGRABL_BLOCKDEV_MEM_ALIGN_SIZE n)
    (fun r C => Pre C /\ match r with Some (a, c) => 0 < a /\ a mod 8 = 0 /\ length c = Z.to_nat n | None => may_fail end)
    Pre.
Proof.
  intros Hn w Hw. pose proof (dma_alloc w TEGRABL_BLOCKDEV_MEM_ALIGN_SIZE n Hn (or_introl eq_refl)) as Ha.
  destruct (tegrabl_alloc_align _ _ n w) as [[r|e| | |] w']; destruct Ha as (He & Hc & Hr); [|done..].
  split; [done|]. rewrite Hc. by destruct r as [[a c]|].
Qed.

Lemma t_fail {A} Pre e (Post : A -> list Z -> Prop) (Fail : list Z -> Prop) :
  may_fail -> (forall C, Pre C -> Fail C) -> triple Pre (err e) Post Fail.
Proof. intros Hm H1 w Hw. split; [reflexivity|]. split; [done|by apply H1]. Qed.

(** ** Block transfers *)

Lemma bs_pos : 0 < bs.
Proof. pose proof dev_log2. apply Z.pow_pos_nonneg; lia. Qed.

Lemma BLOCK_SIZE_eq : TEGRABL_BLOCKDEV_BLOCK_SIZE d = bs.
Proof.
  unfold TEGRABL_BLOCKDEV_BLOCK_SIZE. rewrite Z.shiftl_1_l. apply wrapw_small, pow2_small.
  pose proof dev_log2. lia.
Qed.

Lemma size_bound : size d < 2 ^ 64.
Proof.
  rewrite dev_size. pose proof dev_count as [? ?]. pose proof (pow2_small (block_size_log2 d) 32 dev_log2) as [? ?]. nia.
Qed.

Lemma aligned_dma a : a mod 8 = 0 -> tegrabl_blockdev_buffer_aligned d a = true.
Proof.
  intros Ha. unfold tegrabl_blockdev_buffer_aligned. destruct dev_align as (k & Hk & ->).
  rewrite MOD_POW2_mod by lia. apply Z.eqb_eq.
  replace 8 with (2 ^ k * 2 ^ (3 - k)) in Ha by (rewrite <- Z.pow_add_r by lia; by replace (k + (3 - k)) with 3 by lia).
  assert (0 < 2 ^ k) by (apply Z.pow_pos_nonneg; lia). assert (0 < 2 ^ (3 - k)) by (apply Z.pow_pos_nonneg; lia).
  rewrite Z.rem_mul_r in Ha by lia. pose proof (Z.mod_pos_bound a (2 ^ k)). pose proof (Z.mod_pos_bound (a / 2 ^ k) (2 ^ (3 - k))). nia.
Qed.

Lemma guard_range b n : 0 <= b -> 0 < n -> b + n <= block_count d ->
  (block_count d <? b) || (block_count d <? u32 (b + n)) = false.
Proof.
  intros. pose proof dev_count as [? ?]. rewrite wrapw_small by (unfold in_word; lia).
  apply orb_false_iff. split; apply Z.ltb_ge; lia.
Qed.

Lemma t_read_block C0 a buf b n :
  tegrabl_blockdev_buffer_aligned d a = true -> 0 <= b -> 0 < n -> b + n <= block_count d ->
  n * bs <= Z.of_nat (length buf) ->
  triple (eq C0) (tegrabl_blockdev_read_block (Some d) a buf b n)
    (fun c C => C0 = C /\ c = blit buf 0 (slice C0 (Z.to_nat (b * bs)) (Z.to_nat (n * bs)))) (eq C0).
Proof.
  intros Ha Hb Hn Hr Hl w ->. unfold tegrabl_blockdev_read_block. pose proof dev_ref as Href. pose proof bs_pos as Hbs.
  rewrite !bind_fail_if; [|by apply guard_range|lia|by rewrite Ha|lia].
  pose proof (dev_read w b n Hb Hn Hr) as Hd. unfold bind, map_err.
  destruct (read_block d b n w) as [[data|e| | |] w1]; destruct Hd as (He & Hc & Hd); try done.
  unfold lift. rewrite copy_to_ret; [|lia|].
  - split; [done|]. split; [done|]. by rewrite Hd.
  - rewrite Hd, length_slice. pose proof (dev_length w). lia.
Qed.

Lemma t_write_block C0 a buf b n :
  tegrabl_blockdev_buffer_aligned d a = true -> a <> 0 -> 0 <= b -> 0 < n -> b + n <= block_count d ->
  n * bs <= Z.of_nat (length buf) ->
  triple (eq C0) (tegrabl_blockdev_write_block (Some d) a buf b n)
    (fun _ C => C = blit C0 (Z.to_nat (b * bs)) (take (Z.to_nat (n * bs)) buf))
    (fun C => forall i, Z.of_nat i < b * bs \/ (b + n) * bs <= Z.of_nat i -> C !! i = C0 !! i).
Proof.
  intros Ha Hz Hb Hn Hr Hl w ->. unfold tegrabl_blockdev_write_block. pose proof dev_ref as Href.
  rewrite !bind_fail_if; [|lia|by apply guard_range|by rewrite Ha|lia].
  pose proof (dev_write w buf b n Hb Hn Hr Hl) as Hd. unfold map_err.
  destruct (write_block d buf b n w) as [[x|e| | |] w1]; destruct Hd as (He & Hd); done.
Qed.

(** A step that reads: the content stays. *)
Lemma t_reads {A B} C0 (c : M W A) (k : A -> M W B) (P : A -> Prop) Post (Fail : list Z -> Prop) :
  triple (eq C0) c (fun a C => C0 = C /\ P a) (eq C0) -> Fail C0 ->
  (forall a, P a -> triple (eq C0) (k a) Post Fail) -> triple (eq C0) (bind c k) Post Fail.
Proof.
  intros Hc Hf Hk. eapply t_bind.
  - eapply t_conseq; [exact Hc|done|intros a C Ha; exact Ha|by intros C <-].
  - intros a. eapply t_pure; [intros C [_ Ha]; exact Ha|]. intros Ha.
    eapply t_conseq; [by apply Hk|by intros C [-> _]|done|done].
Qed.

(** A step that leaves a content that depends on its result. *)
Lemma t_writes {A B} Pre (c : M W A) (k : A -> M W B) (f : A -> list Z) (P : A -> Prop) Post (Fail : list Z -> Prop) :
  triple Pre c (fun a C => f a = C /\ P a) Fail ->
  (forall a, P a -> triple (eq (f a)) (k a) Post Fail) -> triple Pre (bind c k) Post Fail.
Proof.
  intros Hc Hk. eapply t_bind; [exact Hc|]. intros a. eapply t_pure; [intros C [_ Ha]; exact Ha|]. intros Ha.
  eapply t_conseq; [by apply Hk|by intros C [-> _]|done|done].
Qed.

Lemma t_lift_reads {A B} C0 o (a : A) (k : A -> M W B) Post Fail :
  o = Ret a -> triple (eq C0) (k a) Post Fail -> triple (eq C0) (bind (lift o) k) Post Fail.
Proof. intros ->. done. Qed.

(** ** A range of bytes *)

Section Range.
Variables (offset L addr : Z).
Hypothesis Hoff : 0 <= offset.
Hypothesis HL : 0 < L.
Hypothesis Hend : offset + L <= size d.
Hypothesis Haddr : 0 < addr.

Definition partial_ok (partial : option (Z * list Z)) : Prop :=
  match partial with
  | Some (a, c) => 0 < a /\ a mod 8 = 0 /\ Z.of_nat (length c) = bs
  | None => offset mod bs = 0 /\ L mod bs = 0
  end.

Lemma t_alloc_partial C0 :
  triple (eq C0) (alloc_partial d offset L) (fun r C => C0 = C /\ partial_ok r) (eq C0).
Proof.
  unfold alloc_partial. pose proof dev_log2. rewrite !MOD_LOG2_mod by lia. pose proof bs_pos.
  destruct (_ || _) eqn:E.
  - rewrite BLOCK_SIZE_eq. eapply t_bind; [apply t_alloc; lia|]. intros [[a c]|].
    + apply t_ret. intros C (-> & ? & ? & ?). split; [done|]. cbn. lia.
    + eapply t_pure; [intros C [_ Hm]; exact Hm|]. intros Hm. apply t_fail; [done|]. by intros C [-> _].
  - apply t_ret. intros C ->. split; [done|]. zbool. unfold truthy in *. split; lia.
Qed.

(** Where the functions stand: what is left starts at a block, except before
    the first one. *)
Definition in_range (p : progress) : Prop :=
  0 <= moved p /\ 0 <= len p /\ moved p + len p = L /\
  (0 < len p -> offset + moved p = block p * bs).

Lemma block_below p : in_range p -> 0 < len p -> 0 <= block p < block_count d.
Proof.
  intros (Hm & Hl & Hs & Hb) Hp. specialize (Hb Hp). pose proof bs_pos. rewrite dev_size in Hend. nia.
Qed.

Lemma in_range_advance p n k o :
  0 <= moved p -> moved p + len p = L -> 0 <= n <= len p -> 0 <= block p -> 0 <= k ->
  (n < len p -> offset + moved p + n = (block p + k) * bs) -> block p + k <= block_count d ->
  in_range (advance p n k o) /\ moved (advance p n k o) = moved p + n /\ len (advance p n k o) = len p - n.
Proof.
  intros Hm Hs Hn Hb Hk Hx Hc. pose proof size_bound. pose proof dev_count as [? ?]. unfold advance, in_range.
  cbn [moved len block]. rewrite !wrapw_small by (unfold in_word; lia). split_and!; try lia.
Qed.

Lemma first_block : 0 <= offset / bs < block_count d /\ u32 (DIV_FLOOR_LOG2 offset (block_size_log2 d)) = offset / bs.
Proof.
  pose proof dev_log2. pose proof bs_pos. rewrite DIV_FLOOR_LOG2_div by lia.
  assert (Hb : 0 <= offset / bs < block_count d).
  { split; [apply Z.div_pos; lia|]. rewrite dev_size in Hend. apply Z.div_lt_upper_bound; [lia|]. nia. }
  split; [done|]. pose proof dev_count as [? ?]. apply wrapw_small. unfold in_word. lia.
Qed.

(** The value of the caller's buffer after a part of the read. *)
Definition reading (C0 buf : list Z) (p : progress) : Prop :=
  in_range p /\ out p = blit buf 0 (slice C0 (Z.to_nat offset) (Z.to_nat (moved p))).

Lemma length_range C0 n : Z.of_nat (length C0) = size d -> 0 <= n <= L ->
  length (slice C0 (Z.to_nat offset) (Z.to_nat n)) = Z.to_nat n.
Proof. intros. rewrite length_slice. lia. Qed.

(** The next [n] bytes, copied behind the ones that are there. *)
Lemma reading_next C0 buf p n k :
  Z.of_nat (length C0) = size d -> L <= Z.of_nat (length buf) -> 0 <= moved p -> moved p + len p = L ->
  0 <= n <= len p -> 0 <= block p -> 0 <= k -> block p + k <= block_count d ->
  (n < len p -> offset + moved p + n = (block p + k) * bs) ->
  out p = blit buf 0 (slice C0 (Z.to_nat offset) (Z.to_nat (moved p))) ->
  let src := slice C0 (Z.to_nat (offset + moved p)) (Z.to_nat n) in
  copy_to (out p) (moved p) src = Ret (blit (out p) (Z.to_nat (moved p)) src) /\
  reading C0 buf (advance p n k (blit (out p) (Z.to_nat (moved p)) src)) /\
  length (out p) = length buf.
Proof.
  intros Hc Hb Hm Hs Hn Hbl Hk Hcnt Hx Ho src.
  destruct (in_range_advance p n k (blit (out p) (Z.to_nat (moved p)) src)) as (R1 & R2 & R3); try done.
  pose proof (length_range C0 (moved p) Hc ltac:(lia)) as Hl1.
  assert (Hl2 : length src = Z.to_nat n) by (unfold src; rewrite length_slice; lia).
  assert (Hlo : length (out p) = length buf) by (rewrite Ho; apply length_blit; lia).
  split; [apply copy_to_ret; lia|]. split; [|done]. split; [done|]. rewrite R2. cbn [advance out]. rewrite Ho.
  rewrite <- Hl1 at 2. rewrite <- (Nat.add_0_l (length _)), blit_blit_next by (rewrite Hl1, Hl2; lia). f_equal.
  unfold src. replace (Z.to_nat (offset + moved p)) with (Z.to_nat offset + Z.to_nat (moved p))%nat by lia.
  destruct (slice_next C0 (Z.to_nat offset) (Z.to_nat (moved p)) (Z.to_nat n)) as [->|]; [|lia].
  f_equal. lia.
Qed.

(** The blocks in the middle. *)
Lemma middle_counts p : in_range p -> bs <= len p ->
  let count := len p / bs in
  0 < count /\ count * bs <= len p < count * bs + bs /\ block p + count <= block_count d /\
  u32 count = count /\ u64 (Z.shiftl count (block_size_log2 d)) = count * bs /\
  DIV_FLOOR_LOG2 (len p) (block_size_log2 d) = count.
Proof.
  intros Hi Hl count. pose proof bs_pos as Hbs. pose proof dev_log2. pose proof size_bound as Hsz.
  pose proof (block_below p Hi ltac:(lia)) as Hb. destruct Hi as (Hm & _ & Hs & Hx). specialize (Hx ltac:(lia)).
  pose proof (Z.div_mod (len p) bs ltac:(lia)) as Hdm. pose proof (Z.mod_pos_bound (len p) bs Hbs).
  fold count in Hdm. assert (Hc : 0 < count) by (apply Z.div_str_pos; lia).
  assert (He : block p + count <= block_count d) by (rewrite dev_size in Hend; nia).
  pose proof dev_count as [? ?]. split_and!; try lia.
  - apply wrapw_small. unfold in_word. lia.
  - rewrite Z.shiftl_mul_pow2 by lia. apply wrapw_small. unfold in_word. nia.
  - apply DIV_FLOOR_LOG2_div. lia.
Qed.

Lemma u32_bs : u32 (Z.shiftl 1 (block_size_log2 d)) = bs.
Proof. rewrite Z.shiftl_1_l. apply wrapw_small, pow2_small, dev_log2. Qed.

(** Only a range that is not made of whole blocks has a last part. *)
Lemma last_needs_partial p : in_range p -> 0 < len p < bs -> partial_ok None -> False.
Proof.
  intros (Hm & _ & Hs & Hx) Hl [Ho HLm]. specialize (Hx ltac:(lia)). pose proof bs_pos as Hbs.
  apply Z.mod_divide in Ho as [x Hx1]; [|lia]. apply Z.mod_divide in HLm as [y Hy]; [|lia].
  assert (len p = (y + x - block p) * bs) by lia. assert (0 < y + x - block p) by nia. nia.
Qed.

Section Read.
Variables (C0 buf : list Z).
Hypothesis HC : Z.of_nat (length C0) = size d.
Hypothesis Hbuf : L <= Z.of_nat (length buf).

Definition start : progress := mk_progress 0 L (offset / bs) buf.

(** A block, or the first [n] bytes of one, read into a buffer of its own. *)
Lemma block_data c b o n :
  Z.of_nat (length c) = bs -> 0 <= b < block_count d -> 0 <= o -> 0 <= n -> o + n <= bs ->
  copy_from (blit c 0 (slice C0 (Z.to_nat (b * bs)) (Z.to_nat (1 * bs)))) o n =
  Ret (slice C0 (Z.to_nat (b * bs + o)) (Z.to_nat n)) /\
  Z.of_nat (length (blit c 0 (slice C0 (Z.to_nat (b * bs)) (Z.to_nat (1 * bs))))) = bs.
Proof.
  intros Hc Hb Ho Hn Hon. pose proof bs_pos as Hbs. rewrite Z.mul_1_l.
  assert (Hl : length (slice C0 (Z.to_nat (b * bs)) (Z.to_nat bs)) = Z.to_nat bs)
    by (rewrite length_slice; rewrite dev_size in HC; nia).
  rewrite blit_full by lia. split; [|lia]. rewrite copy_from_ret by lia. f_equal.
  apply list_eq. intros i. rewrite !lookup_slice.
  destruct (decide (i < Z.to_nat n)%nat); [|done]. destruct (decide _); [|lia]. f_equal. nia.
Qed.

Lemma t_read_first partial : partial_ok partial ->
  triple (eq C0) (read_first d partial offset start)
    (fun r C => C0 = C /\ reading C0 buf r.1 /\ partial_ok r.2) (eq C0).
Proof.
  intros Hp. destruct first_block as [Hb _]. pose proof dev_log2. pose proof bs_pos as Hbs. pose proof size_bound.
  pose proof (Z.mod_pos_bound offset bs Hbs) as Hm. pose proof (Z.div_mod offset bs ltac:(lia)) as Hdm.
  unfold read_first. rewrite MOD_LOG2_mod by lia. unfold truthy. destruct (Z.eqb_spec (offset mod bs) 0) as [E|E]; cbn [negb].
  - apply t_ret. intros C <-. split; [done|]. split; [|done]. split; [|by rewrite blit_nil].
    unfold in_range, start. cbn [fst moved len block]. split_and!; lia.
  - destruct partial as [[a c]|]; [|by destruct Hp]. destruct Hp as (Ha & Ha8 & Hc).
    eapply (t_reads C0); [|done|].
    { eapply t_or_do; [|apply t_release].
      eapply t_read_block; [by apply aligned_dma|cbn; lia|lia|cbn; lia|lia]. }
    intros c' ->. rewrite BLOCK_SIZE_eq. cbn [start len moved block out].
    rewrite (wrapw_small 64 (bs - _)) by (unfold in_word; pose proof (pow2_small (block_size_log2 d) 64 ltac:(lia)) as [? ?]; lia).
    destruct (block_data c (offset / bs) (offset mod bs) (Z.min (bs - offset mod bs) L)) as [Eq Hlen]; try lia.
    apply (t_lift_reads _ _ _ _ _ _ Eq). clear Eq.
    replace (offset / bs * bs + offset mod bs) with (offset + moved start) by (cbn; lia).
    destruct (reading_next C0 buf start (Z.min (bs - offset mod bs) L) 1) as (Eq & Hr & _); try done; cbn [start moved len block out]; try lia.
    cbn [start moved out] in Eq. apply (t_lift_reads _ _ _ _ _ _ Eq).
    apply t_ret. intros C <-. split; [done|]. split; [exact Hr|]. cbn. lia.
Qed.

Lemma reading_length p : reading C0 buf p -> length (out p) = length buf.
Proof.
  intros [(Hm & Hl & Hs & _) Ho]. rewrite Ho. apply length_blit. rewrite length_range by lia. lia.
Qed.

Lemma t_read_middle partial p : reading C0 buf p ->
  triple (eq C0) (read_middle d partial addr p)
    (fun r C => C0 = C /\ reading C0 buf r.1 /\ len r.1 < bs) (eq C0).
Proof.
  intros Hr. pose proof bs_pos as Hbs. pose proof (reading_length p Hr) as Hlen. pose proof Hr as [Hi Ho].
  unfold read_middle. rewrite u32_bs. destruct (Z.leb_spec bs (len p)) as [Hl|Hl].
  2:{ apply t_ret. intros C <-. done. }
  destruct (middle_counts p Hi Hl) as (Hc & Hb & Hcnt & E1 & E2 & E3).
  pose proof (block_below p Hi ltac:(lia)) as Hbl. pose proof Hi as (Hm & _ & Hs & Hx). specialize (Hx ltac:(lia)).
  rewrite E3, E2, E1. set (count := len p / bs) in *.
  destruct (reading_next C0 buf p (count * bs) count) as (Eq & Hn & _); try done; try nia.
  rewrite Hx in Eq, Hn. set (src := slice C0 (Z.to_nat (block p * bs)) (Z.to_nat (count * bs))) in *.
  assert (Hsrc : Z.of_nat (length src) = count * bs) by (unfold src; rewrite length_slice; rewrite dev_size in HC; nia).
  assert (Hrest : forall o, len (advance p (count * bs) count o) = len p - count * bs).
  { intros o. cbn. apply wrapw_small. pose proof size_bound. unfold in_word. nia. }
  destruct (Z.ltb_spec (len p) (count * bs)); [lia|]. unfold or_do at 1. cbn [fail_if]. unfold bind at 1. cbn [ret].
  destruct (tegrabl_blockdev_buffer_aligned d (addr + moved p)) eqn:Hal; cbn [negb].
  - eapply (t_reads C0); [|done|].
    { eapply t_or_do; [|apply t_release]. apply t_map_err, t_read_block; [done|lia|done|done|].
      rewrite length_drop. lia. }
    intros c ->. rewrite blit_drop by (fold src; lia). fold src.
    apply t_ret. intros C <-. cbn [fst]. split; [done|]. split; [exact Hn|]. rewrite Hrest. lia.
  - rewrite BLOCK_SIZE_eq, (wrapw_small 64 (count * bs)) by (unfold in_word; pose proof size_bound; nia).
    eapply t_bind; [apply t_alloc; nia|]. intros [[ta tc]|].
    + eapply t_pure; [intros C [_ Ht]; exact Ht|]. intros (Ht & Ht8 & Htc).
      eapply t_conseq; [|by intros C [HC' _]; exact HC'|by intros a C Hp; exact Hp|done].
      eapply (t_reads C0); [|done|].
      { eapply t_or_do; [|apply t_release2]. apply t_map_err, t_read_block; [by apply aligned_dma|lia|done|done|lia]. }
      intros c ->. fold src. rewrite blit_full by lia.
      eapply t_lift_reads; [apply copy_from_ret; lia|]. change (Z.to_nat 0) with O.
      replace (slice src 0 (Z.to_nat (count * bs))) with src
        by (unfold slice at 1; rewrite drop_0, take_ge by lia; done).
      apply (t_lift_reads _ _ _ _ _ _ Eq). apply t_ret. intros C <-. cbn [fst]. split; [done|]. split; [exact Hn|].
      rewrite Hrest. lia.
    + eapply t_pure; [intros C [_ Ht]; exact Ht|]. intros Hmay.
      eapply t_conseq; [|by intros C [HC' _]; exact HC'|by intros a C Hp; exact Hp|done].
      eapply t_bind; [apply t_release|]. intros ?. by apply t_fail.
Qed.

Lemma t_read_last partial temp p : reading C0 buf p -> len p < bs -> partial_ok partial ->
  triple (eq C0) (read_last d partial temp p)
    (fun p' C => C0 = C /\ out p' = blit buf 0 (slice C0 (Z.to_nat offset) (Z.to_nat L))) (eq C0).
Proof.
  intros Hr Hlt Hp. pose proof bs_pos as Hbs. pose proof (reading_length p Hr) as Hlen. pose proof Hr as [Hi Ho].
  unfold read_last. destruct (Z.ltb_spec 0 (len p)) as [Hl|Hl].
  2:{ apply t_ret. intros C <-. split; [done|]. rewrite Ho. do 2 f_equal. destruct Hi as (? & ? & ? & _). lia. }
  destruct partial as [[a c]|]; [|by destruct (last_needs_partial p Hi (conj Hl Hlt) Hp)].
  destruct Hp as (Ha & Ha8 & Hc). pose proof (block_below p Hi Hl) as Hbl.
  pose proof Hi as (Hm & _ & Hs & Hx). specialize (Hx Hl).
  eapply (t_reads C0); [|done|].
  { eapply t_or_do; [|apply t_release2].
    apply t_map_err, t_read_block; [by apply aligned_dma|lia|lia|lia|lia]. }
  intros c' ->. destruct (block_data c (block p) 0 (len p)) as [Eq _]; try lia.
  apply (t_lift_reads _ _ _ _ _ _ Eq). clear Eq. rewrite Z.add_0_r, <- Hx.
  destruct (reading_next C0 buf p (len p) 0) as (Eq & [_ Hn] & _); try done; try lia.
  apply (t_lift_reads _ _ _ _ _ _ Eq). apply t_ret. intros C <-. split; [done|]. cbn [out].
  cbn [advance out moved] in Hn. rewrite Hn. do 2 f_equal. rewrite wrapw_small; [lia|].
  pose proof size_bound. unfold in_word. lia.
Qed.

Lemma t_default_read :
  triple (eq C0) (tegrabl_blockdev_default_read (Some d) addr buf offset L)
    (fun b C => C0 = C /\ b = blit buf 0 (slice C0 (Z.to_nat offset) (Z.to_nat L))) (eq C0).
Proof.
  unfold tegrabl_blockdev_default_read. intros w Hw. rewrite bind_fail_if by lia. revert w Hw.
  change (triple (eq C0)
    (let! partial := alloc_partial d offset L in
     let p := mk_progress 0 L (u32 (DIV_FLOOR_LOG2 offset (block_size_log2 d))) buf in
     let! (p, partial) := read_first d partial offset p in
     let! (p, temp) := read_middle d partial addr p in
     let! p := read_last d partial temp p in
     release partial ;;; release temp ;;; ret (out p))
    (fun b C => C0 = C /\ b = blit buf 0 (slice C0 (Z.to_nat offset) (Z.to_nat L))) (eq C0)).
  destruct first_block as [_ ->]. fold start.
  eapply t_reads; [apply t_alloc_partial|done|]. intros partial Hp.
  eapply t_reads; [by apply t_read_first|done|]. intros [p partial'] [Hr Hp']. cbn [fst snd] in *.
  eapply t_reads; [by apply t_read_middle|done|]. intros [p' temp] [Hr' Hlt]. cbn [fst] in *.
  eapply t_reads; [by apply t_read_last|done|]. intros p'' Ho.
  eapply t_bind; [apply t_release|]. intros ?. eapply t_bind; [apply t_release|]. intros ?.
  apply t_ret. by intros C <-.
Qed.
End Read.

(** ** Writing a range *)

Section Write.
Variables (C0 buf : list Z).
Hypothesis HC : Z.of_nat (length C0) = size d.
Hypothesis Hbuf : L <= Z.of_nat (length buf).

(** The content when the first [m] bytes are written. *)
Definition stage (m : Z) : list Z := blit C0 (Z.to_nat offset) (take (Z.to_nat m) buf).

(** Only the blocks the range touches differ from the content at the start. *)
Definition outside (C : list Z) : Prop :=
  forall i, Z.of_nat i < offset / bs * bs \/ (offset + L + bs - 1) / bs * bs <= Z.of_nat i -> C !! i = C0 !! i.

Lemma stage_length m : 0 <= m <= L -> length (stage m) = length C0.
Proof. intros. apply length_blit. rewrite length_take. lia. Qed.

Lemma stage_next m n : 0 <= m -> 0 <= n -> m + n <= L ->
  blit (stage m) (Z.to_nat (offset + m)) (slice buf (Z.to_nat m) (Z.to_nat n)) = stage (m + n).
Proof.
  intros Hm Hn Hmn. unfold stage. assert (Hl : length (take (Z.to_nat m) buf) = Z.to_nat m) by (rewrite length_take; lia).
  replace (Z.to_nat (offset + m)) with (Z.to_nat offset + length (take (Z.to_nat m) buf))%nat by lia.
  rewrite blit_blit_next by (rewrite Hl, length_slice; lia). f_equal.
  destruct (slice_next buf 0 (Z.to_nat m) (Z.to_nat n)) as [E|]; [|lia]. unfold slice in *. rewrite drop_0 in E.
  cbn [Nat.add] in E. rewrite E. f_equal. lia.
Qed.

Lemma range_blocks : offset / bs * bs <= offset /\ offset + L <= (offset + L + bs - 1) / bs * bs.
Proof.
  pose proof bs_pos as Hbs. pose proof (Z.div_mod offset bs ltac:(lia)). pose proof (Z.mod_pos_bound offset bs Hbs).
  pose proof (Z.div_mod (offset + L + bs - 1) bs ltac:(lia)). pose proof (Z.mod_pos_bound (offset + L + bs - 1) bs Hbs). lia.
Qed.

(** A change of the blocks from [b] to [b + n] inside the range. *)
Lemma outside_blocks m C b n :
  0 <= m <= L -> offset / bs <= b -> 0 <= n -> b * bs + n * bs < offset + L + bs ->
  (forall i, Z.of_nat i < b * bs \/ (b + n) * bs <= Z.of_nat i -> C !! i = stage m !! i) -> outside C.
Proof.
  intros Hm Hb Hn He Heq i Hi. pose proof bs_pos as Hbs. destruct range_blocks as [R1 R2].
  assert (Hin : (b + n) * bs <= (offset + L + bs - 1) / bs * bs).
  { apply Z.mul_le_mono_nonneg_r; [lia|]. apply Z.div_le_lower_bound; lia. }
  rewrite Heq by nia. unfold stage. rewrite lookup_blit by (rewrite length_take; lia).
  rewrite length_take. by destruct (decide _); [lia|].
Qed.

Definition writing (p : progress) : Prop := in_range p /\ out p = buf.

Lemma t_rewrite_block C1 fail a c b off src :
  (forall Q, triple Q fail (fun _ => Q) Q) -> length C1 = length C0 ->
  0 < a -> a mod 8 = 0 -> Z.of_nat (length c) = bs -> 0 <= b < block_count d -> 0 <= off ->
  off + Z.of_nat (length src) <= bs ->
  triple (eq C1) (rewrite_block d fail a c b off src)
    (fun c' C => blit C1 (Z.to_nat (b * bs + off)) src = C /\ Z.of_nat (length c') = bs)
    (fun C => forall i, Z.of_nat i < b * bs \/ (b + 1) * bs <= Z.of_nat i -> C !! i = C1 !! i).
Proof.
  intros Hf HC1 Ha Ha8 Hc Hb Ho Hs. pose proof bs_pos as Hbs. unfold rewrite_block.
  eapply (t_reads C1); [|done|].
  { eapply t_or_do; [|apply Hf]. apply t_map_err, t_read_block; [by apply aligned_dma|lia..]. }
  intros c' ->. rewrite Z.mul_1_l.
  assert (Hl : length (slice C1 (Z.to_nat (b * bs)) (Z.to_nat bs)) = Z.to_nat bs)
    by (rewrite length_slice; rewrite dev_size in HC; nia).
  rewrite blit_full by lia. eapply t_lift_reads; [apply copy_to_ret; lia|].
  set (c2 := blit (slice C1 _ _) _ src).
  assert (Hc2 : length c2 = Z.to_nat bs) by (unfold c2; rewrite length_blit by lia; lia).
  eapply t_bind.
  { eapply t_or_do; [|apply Hf]. apply t_map_err, t_write_block; [by apply aligned_dma|lia..]. }
  intros ?. apply t_ret. intros C ->. split; [|lia]. rewrite Z.mul_1_l, take_ge by lia.
  unfold c2. rewrite blit_inner by (rewrite ?dev_size in HC; nia). f_equal. nia.
Qed.

Definition start_write : progress := mk_progress 0 L (offset / bs) buf.

Lemma t_write_first partial : partial_ok partial ->
  triple (eq (stage 0)) (write_first d partial offset start_write)
    (fun r C => stage (moved r.1) = C /\ writing r.1 /\ partial_ok r.2) outside.
Proof.
  intros Hp. destruct first_block as [Hb _]. pose proof dev_log2. pose proof bs_pos as Hbs. pose proof size_bound.
  pose proof (Z.mod_pos_bound offset bs Hbs) as Hm. pose proof (Z.div_mod offset bs ltac:(lia)) as Hdm.
  unfold write_first. rewrite MOD_LOG2_mod by lia. unfold truthy. destruct (Z.eqb_spec (offset mod bs) 0) as [E|E]; cbn [negb].
  - apply t_ret. intros C <-. split; [done|]. split; [|done]. split; [|done].
    unfold in_range, start_write. cbn [fst moved len block]. split_and!; lia.
  - destruct partial as [[a c]|]; [|by destruct Hp]. destruct Hp as (Ha & Ha8 & Hc).
    rewrite BLOCK_SIZE_eq. cbn [start_write len moved block out].
    rewrite (wrapw_small 64 (bs - _)) by (unfold in_word; pose proof (pow2_small (block_size_log2 d) 64 ltac:(lia)) as [? ?]; lia).
    set (n := Z.min (bs - offset mod bs) L). assert (Hn : 0 < n <= L) by lia.
    eapply t_lift_reads; [apply copy_from_ret; lia|]. change (Z.to_nat 0) with O.
    destruct (in_range_advance start_write n 1 buf) as (R1 & R2 & R3); cbn [start_write moved len block]; try lia; try nia.
    eapply (t_writes _ _ _ (fun _ => stage n)).
    { eapply t_conseq.
      - eapply (t_rewrite_block (stage 0)); [intros Q; apply t_release|apply stage_length; lia|done|done|done|done|lia|].
        rewrite length_slice. lia.
      - done.
      - intros c' C [<- Hc']. split; [|exact Hc'].
        change (stage n) with (stage (0 + n)). rewrite <- stage_next by lia. f_equal. lia.
      - intros C Hf. apply (outside_blocks 0 C (offset / bs) 1); try lia. done. }
    intros c' Hc'. apply t_ret. intros C <-. cbn [fst snd]. split; [by rewrite R2|]. split; [by split|]. done.
Qed.

Lemma stage_outside m : 0 <= m <= L -> outside (stage m).
Proof.
  intros Hm. apply (outside_blocks m (stage m) (offset / bs) 0); try done; try lia.
  pose proof range_blocks. pose proof bs_pos. lia.
Qed.

Lemma t_keep_stage m b : 0 <= m <= L -> triple (eq (stage m)) (release b) (fun _ => eq (stage m)) outside.
Proof. intros Hm. eapply t_conseq; [apply (t_release (eq (stage m)))|done|done|intros C <-; by apply stage_outside]. Qed.

(** Whole blocks from a buffer that holds the next part of the data. *)
Lemma t_write_range p a b count :
  in_range p -> 0 < count -> count * bs <= len p -> block p + count <= block_count d ->
  tegrabl_blockdev_buffer_aligned d a = true -> a <> 0 -> count * bs <= Z.of_nat (length b) ->
  take (Z.to_nat (count * bs)) b = slice buf (Z.to_nat (moved p)) (Z.to_nat (count * bs)) ->
  triple (eq (stage (moved p))) (map_err SET_HIGHEST_MODULE (tegrabl_blockdev_write_block (Some d) a b (block p) count))
    (fun _ C => stage (moved p + count * bs) = C) outside.
Proof.
  intros Hi Hc Hcl Hcnt Hal Ha Hlb Ht. pose proof bs_pos as Hbs.
  pose proof (block_below p Hi ltac:(nia)) as Hbl. destruct Hi as (Hm & _ & Hs & Hx). specialize (Hx ltac:(nia)).
  apply t_map_err. eapply t_conseq.
  - apply (t_write_block (stage (moved p)) a b (block p) count); done || lia.
  - done.
  - intros _ C ->. by rewrite Ht, <- Hx, stage_next by lia.
  - intros C Hf. apply (outside_blocks (moved p) C (block p) count); try lia; [|done].
    apply Z.lt_succ_r. apply Z.div_lt_upper_bound; nia.
Qed.

Lemma write_advance p count temp C :
  in_range p -> 0 < count -> count * bs <= len p < count * bs + bs -> block p + count <= block_count d ->
  stage (moved p + count * bs) = C ->
  let r := (advance p (count * bs) count buf, temp : option (Z * list Z)) in
  stage (moved r.1) = C /\ writing r.1 /\ len r.1 < bs.
Proof.
  intros Hi Hc Hcl Hcnt <- r. pose proof bs_pos as Hbs. pose proof (block_below p Hi ltac:(nia)) as Hbl.
  destruct Hi as (Hm & _ & Hs & Hx). specialize (Hx ltac:(nia)).
  destruct (in_range_advance p (count * bs) count buf) as (R1 & R2 & R3); try lia; try nia.
  unfold r. cbn [fst]. rewrite R2, R3. split_and!; [done|by split|lia].
Qed.

Lemma t_write_middle partial p : writing p ->
  triple (eq (stage (moved p))) (write_middle d partial addr p)
    (fun r C => stage (moved r.1) = C /\ writing r.1 /\ len r.1 < bs) outside.
Proof.
  intros [Hi Ho]. pose proof bs_pos as Hbs. pose proof Hi as (Hm & _ & Hs & _).
  unfold write_middle. rewrite u32_bs. destruct (Z.leb_spec bs (len p)) as [Hl|Hl].
  2:{ apply t_ret. intros C <-. done. }
  destruct (middle_counts p Hi Hl) as (Hc & Hb & Hcnt & E1 & E2 & E3).
  rewrite E3, E2, E1, Ho. set (count := len p / bs) in *.
  destruct (Z.ltb_spec (len p) (count * bs)); [lia|]. unfold or_do at 1. cbn [fail_if]. unfold bind at 1. cbn [ret].
  destruct (tegrabl_blockdev_buffer_aligned d (addr + moved p)) eqn:Hal; cbn [negb].
  - eapply t_bind.
    { eapply t_or_do; [|apply t_release]. apply t_write_range; try done; try lia. rewrite length_drop. lia. }
    intros ?. apply t_ret. intros C Hst. by apply write_advance.
  - rewrite BLOCK_SIZE_eq, (wrapw_small 64 (count * bs)) by (unfold in_word; pose proof size_bound; nia).
    eapply t_bind; [eapply t_conseq; [apply (t_alloc (eq (stage (moved p)))); nia|done|intros r C Hr; exact Hr|]|].
    { intros C <-. apply stage_outside. lia. }
    intros r. eapply t_pure; [intros C [_ Hr]; exact Hr|]. intros Hr.
    eapply (t_conseq _ (eq (stage (moved p)))); [|by intros C [HC' _]|intros a C Hp; exact Hp|intros C Hf; exact Hf].
    destruct r as [[ta tc]|].
    + destruct Hr as (Ht & Ht8 & Htc). eapply t_lift_reads; [apply copy_from_ret; lia|].
      set (src := slice buf _ _). assert (Hsrc : length src = Z.to_nat (count * bs)) by (unfold src; rewrite length_slice; lia).
      eapply t_lift_reads; [apply copy_to_ret; lia|]. change (Z.to_nat 0) with O. rewrite blit_full by lia.
      eapply t_bind.
      { eapply t_or_do; [|apply t_release2]. apply t_write_range; try done; try lia; [by apply aligned_dma|by rewrite take_ge by lia]. }
      intros ?. apply t_ret. intros C Hst. by apply write_advance.
    + eapply t_bind; [apply t_keep_stage; lia|].
      intros ?. apply t_fail; [done|]. intros C <-. apply stage_outside. lia.
Qed.

Lemma t_write_last partial temp p : writing p -> len p < bs -> partial_ok partial ->
  triple (eq (stage (moved p))) (write_last d partial temp p) (fun _ C => stage L = C) outside.
Proof.
  intros [Hi Ho] Hlt Hp. pose proof bs_pos as Hbs. pose proof Hi as (Hm & Hlp & Hs & Hx).
  unfold write_last. rewrite Ho. destruct (Z.ltb_spec 0 (len p)) as [Hl|Hl].
  2:{ apply t_ret. intros C <-. f_equal. lia. }
  destruct partial as [[a c]|]; [|by destruct (last_needs_partial p Hi (conj Hl Hlt) Hp)].
  destruct Hp as (Ha & Ha8 & Hc). pose proof (block_below p Hi Hl) as Hbl. specialize (Hx Hl).
  eapply t_lift_reads; [apply copy_from_ret; lia|]. set (src := slice buf _ _).
  assert (Hsrc : length src = Z.to_nat (len p)) by (unfold src; rewrite length_slice; lia).
  eapply (t_writes _ _ _ (fun _ => stage L) (fun _ => True)).
  - eapply t_conseq.
    + apply (t_rewrite_block (stage (moved p))); [intros Q; apply t_release2|apply stage_length; lia|done|done|done|done|lia|lia].
    + done.
    + intros c' C [<- _]. split; [|done]. rewrite Z.add_0_r, <- Hx. unfold src. rewrite stage_next by lia. f_equal. lia.
    + intros C Hf. apply (outside_blocks (moved p) C (block p) 1); try lia; [|done].
      apply Z.lt_succ_r. apply Z.div_lt_upper_bound; nia.
  - intros c' _. apply t_ret. by intros C <-.
Qed.

Lemma t_default_write :
  triple (eq C0) (tegrabl_blockdev_default_write (Some d) addr buf offset L) (fun _ C => stage L = C) outside.
Proof.
  unfold tegrabl_blockdev_default_write. intros w Hw. rewrite bind_fail_if by lia. revert w Hw.
  destruct first_block as [_ E]. fold (triple (eq C0)
    (let! partial := alloc_partial d offset L in
     let p := mk_progress 0 L (u32 (DIV_FLOOR_LOG2 offset (block_size_log2 d))) buf in
     let! (p, partial) := write_first d partial offset p in
     let! (p, temp) := write_middle d partial addr p in
     let! _ := write_last d partial temp p in
     release temp ;;; release partial) (fun _ C => stage L = C) outside).
  rewrite E. fold start_write.
  assert (E0 : stage 0 = C0) by apply blit_nil.
  eapply t_reads; [apply t_alloc_partial|by rewrite <- E0; apply stage_outside; lia|]. intros partial Hp. rewrite <- E0 at 1.
  eapply t_writes; [by apply t_write_first|]. intros [p partial'] [Hw Hp']. cbn [fst snd] in *.
  eapply t_writes; [by apply t_write_middle|]. intros [p' temp] [Hw' Hlt]. cbn [fst snd] in *.
  eapply (t_writes _ _ _ (fun _ => stage L) (fun _ => True)).
  { eapply t_conseq; [by apply t_write_last|done|by intros a C <-|done]. }
  intros _ _. eapply t_bind; [apply t_keep_stage; lia|]. intros ?. apply t_keep_stage. lia.
Qed.
End Write.
End Range.
End Device.

(** ** A device in memory *)

Section RamDisk.
Variables (lg count : Z).

(** The world is the content, cut or padded to the size. *)
Definition disk_size : nat := Z.to_nat (count * 2 ^ lg).
Definition disk (w : list Z) : list Z := take disk_size (w ++ repeat 0 disk_size).

#[export] Instance disk_heap : DmaHeap (list Z) := {
  tegrabl_alloc_align _ _ n := ret (Some (8, repeat 0 (Z.to_nat n)));
  tegrabl_dealloc _ _ := ret tt;
}.

Definition disk_read (b n : Z) : M (list Z) (list Z) :=
  gets (fun w => slice (disk w) (Z.to_nat (b * 2 ^ lg)) (Z.to_nat (n * 2 ^ lg))).
Definition disk_write (buf : list Z) (b n : Z) : M (list Z) unit :=
  modify (fun w => blit (disk w) (Z.to_nat (b * 2 ^ lg)) (take (Z.to_nat (n * 2 ^ lg)) buf)).
Definition disk_erase (b n : Z) (secure : bool) : M (list Z) unit :=
  disk_write (repeat 255 (Z.to_nat (n * 2 ^ lg))) b n.

Definition ram_disk (dev_id : Z) : bdev (list Z) :=
  mk_bdev 1 dev_id (count * 2 ^ lg) lg count false 4 default_hook default_hook disk_read disk_write
    None None disk_erase None None.

Lemma length_disk w : length (disk w) = disk_size.
Proof. unfold disk. rewrite length_take, length_app, repeat_length. lia. Qed.

Lemma disk_id w : length w = disk_size -> disk w = w.
Proof. intros Hl. unfold disk. by rewrite <- Hl, take_app_length. Qed.

Definition disk_device (dev_id : Z) : 0 <= lg < 32 -> in_word 32 count -> FlatDevice (ram_disk dev_id).
Proof.
  intros Hlg Hc. assert (Hbs : 0 < 2 ^ lg) by (apply Z.pow_pos_nonneg; lia).
  refine {| content := disk; elsewhere _ _ := True; may_fail := False |}; try done.
  - by exists 2.
  - intros w. rewrite length_disk. unfold disk_size. cbn. destruct Hc. nia.
  - intros w buf b n Hb Hn Hr Hl. cbn in *. split; [done|]. apply disk_id. rewrite length_blit; rewrite length_disk; [done|].
    rewrite length_take. unfold disk_size. nia.
  - intros w b n s Hb Hn Hr. cbn in *. split; [done|]. intros i Hi. set (x := take _ _).
    assert (Hx : length x = Z.to_nat (n * 2 ^ lg)) by (unfold x; rewrite length_take, repeat_length; lia).
    assert (He : (Z.to_nat (b * 2 ^ lg) + length x <= length (disk w))%nat) by (rewrite Hx, length_disk; unfold disk_size; nia).
    rewrite disk_id by (rewrite length_blit by done; apply length_disk). rewrite lookup_blit by done. rewrite Hx.
    destruct (decide _); [nia|done].
  - intros w al n Hn _. cbn. rewrite repeat_length. split_and!; done || lia.
Defined.
End RamDisk.

(** A disk of four blocks of four bytes. *)
Definition small_disk : bdev (list Z) := ram_disk 2 4 0x30000.
#[export] Instance small_device : FlatDevice small_disk.
Proof. apply disk_device; unfold in_word; lia. Defined.
Definition small_content : list Z := [0; 1; 2; 3; 4; 5; 6; 7; 8; 9; 10; 11; 12; 13; 14; 15].

(** ** Reading and writing bytes *)

(** The checked entry points, as triples. *)
Section Entry.
Context {W : Type} `{DmaHeap W} (d : bdev W) `{!FlatDevice d}.
Variables (addr offset n : Z) (buf C0 : list Z).
Hypotheses (Ha : 0 < addr) (Ho : 0 <= offset) (Hn : 0 < n) (He : offset + n <= size d)
  (Hb : n <= Z.of_nat (length buf)) (HC : Z.of_nat (length C0) = size d).

Lemma t_blockdev_read : read d = default_hook ->
  triple d (eq C0) (tegrabl_blockdev_read (Some d) addr buf offset n)
    (fun b C => C0 = C /\ b = blit buf 0 (slice C0 (Z.to_nat offset) (Z.to_nat n))) (eq C0).
Proof.
  intros Hr w Hw. unfold tegrabl_blockdev_read. rewrite Hr. pose proof dev_ref. pose proof (size_bound d).
  rewrite !bind_fail_if; [|rewrite wrapw_small by (unfold in_word; lia); lia|lia|lia].
  exact (t_map_err d SET_HIGHEST_MODULE _ _ _ _ (t_default_read d offset n addr Ho Hn He Ha C0 buf HC Hb) w Hw).
Qed.

Lemma t_blockdev_write : write d = default_hook ->
  triple d (eq C0) (tegrabl_blockdev_write (Some d) addr buf offset n)
    (fun _ C => blit C0 (Z.to_nat offset) (take (Z.to_nat n) buf) = C) (outside d offset n C0).
Proof.
  intros Hr w Hw. unfold tegrabl_blockdev_write. rewrite Hr. pose proof dev_ref. pose proof (size_bound d).
  rewrite !bind_fail_if; [|rewrite wrapw_small by (unfold in_word; lia); lia|lia|lia].
  exact (t_map_err d SET_HIGHEST_MODULE _ _ _ _ (t_default_write d offset n addr Ho Hn He Ha C0 buf HC Hb) w Hw).
Qed.
End Entry.

(** C22.  A range inside the device is read as if the device were one byte
    string: partial blocks at both ends, whole blocks in the middle, through a
    buffer of its own when the caller's is not aligned.  Nothing is written,
    and the call only fails when the driver or the heap does. *)
Theorem blockdev_read_flat {W} `{DmaHeap W} (d : bdev W) `{!FlatDevice d} addr buf offset n w :
  read d = default_hook -> 0 < addr -> 0 <= offset -> 0 < n -> offset + n <= size d ->
  n <= Z.of_nat (length buf) ->
  let '(r, w') := tegrabl_blockdev_read (Some d) addr buf offset n w in
  elsewhere w w' /\ content w' = content w /\
  match r with
  | Ret b => b = blit buf 0 (slice (content w) (Z.to_nat offset) (Z.to_nat n))
  | Err _ => may_fail
  | _ => False
  end.
Proof.
  intros Hr Ha Ho Hn He Hb.
  pose proof (t_blockdev_read d addr offset n buf (content w) Ha Ho Hn He Hb (dev_length w) Hr w eq_refl) as Ht.
  destruct (tegrabl_blockdev_read _ _ _ _ _ w) as [[b|e| | |] w']; destruct Ht as [Hw Ht]; try done;
    by destruct Ht.
Qed.

Lemma blockdev_read_flat_witness :
  let '(r, w') := tegrabl_blockdev_read (Some small_disk) 1001 (repeat 99 12) 3 10 small_content in
  match r with Ret b => b = [3; 4; 5; 6; 7; 8; 9; 10; 11; 12; 99; 99] | _ => False end /\ w' = small_content.
Proof.
  pose proof (blockdev_read_flat small_disk 1001 (repeat 99 12) 3 10 small_content eq_refl ltac:(lia) ltac:(lia)
    ltac:(lia) ltac:(cbn; lia) ltac:(cbn; lia)) as Hr.
  assert (E : (tegrabl_blockdev_read (Some small_disk) 1001 (repeat 99 12) 3 10 small_content).2 = small_content)
    by (vm_compute; reflexivity).
  destruct (tegrabl_blockdev_read _ _ _ _ _ _) as [[b|e| | |] w']; destruct Hr as (_ & _ & Hr);
    first [by destruct Hr|split; [exact Hr|exact E]].
Defined.

(** C23.  Writing replaces exactly the bytes of the range: blocks that are
    covered in part are read, changed and written back.  When the driver fails
    in the middle, every block outside the ones the range touches is as
    before. *)
Theorem blockdev_write_flat {W} `{DmaHeap W} (d : bdev W) `{!FlatDevice d} addr buf offset n w :
  write d = default_hook -> 0 < addr -> 0 <= offset -> 0 < n -> offset + n <= size d ->
  n <= Z.of_nat (length buf) ->
  let bs := 2 ^ block_size_log2 d in
  let '(r, w') := tegrabl_blockdev_write (Some d) addr buf offset n w in
  elsewhere w w' /\
  match r with
  | Ret _ => content w' = blit (content w) (Z.to_nat offset) (take (Z.to_nat n) buf)
  | Err _ => may_fail /\ forall i, Z.of_nat i < offset / bs * bs \/ (offset + n + bs - 1) / bs * bs <= Z.of_nat i ->
               content w' !! i = content w !! i
  | _ => False
  end.
Proof.
  intros Hr Ha Ho Hn He Hb bs.
  pose proof (t_blockdev_write d addr offset n buf (content w) Ha Ho Hn He Hb (dev_length w) Hr w eq_refl) as Ht.
  by destruct (tegrabl_blockdev_write _ _ _ _ _ w) as [[b|e| | |] w']; destruct Ht as [Hw Ht].
Qed.

Lemma blockdev_write_flat_witness :
  let '(r, w') := tegrabl_blockdev_write (Some small_disk) 1002 (repeat 77 6) 6 6 small_content in
  r = Ret tt /\ disk 2 4 w' = [0; 1; 2; 3; 4; 5; 77; 77; 77; 77; 77; 77; 12; 13; 14; 15].
Proof.
  pose proof (blockdev_write_flat small_disk 1002 (repeat 77 6) 6 6 small_content eq_refl ltac:(lia) ltac:(lia)
    ltac:(lia) ltac:(cbn; lia) ltac:(cbn; lia)) as Hr.
  cbv zeta in Hr. destruct (tegrabl_blockdev_write _ _ _ _ _ _) as [[[]|e| | |] w']; destruct Hr as (_ & Hr);
    first [by destruct Hr|split; [reflexivity|exact Hr]].
Defined.

(** ** The registered devices *)

Section Registry.
Context {W : Type}.
Implicit Types (s : framework W) (d : bdev W).

(** The registered devices exist, are held, and have different ids; no count
    exceeds [n]. *)
Definition registry_ok (n : Z) (l : list Z) s : Prop :=
  bdevs s = Some l /\ NoDup l /\
  (forall a d, devices s !! a = Some d -> 0 <= ref d <= n) /\
  (forall a, a ∈ l -> exists d, devices s !! a = Some d /\ 0 < ref d) /\
  (forall a b d d', a ∈ l -> b ∈ l -> devices s !! a = Some d -> devices s !! b = Some d' ->
     device_id d = device_id d' -> a = b).

Lemma ok_set_ref n m l s a d r :
  registry_ok n l s -> devices s !! a = Some d -> 0 <= r <= m -> n <= m -> (a ∈ l -> 0 < r) ->
  registry_ok m l (set_device a (set_ref r d) s).
Proof.
  intros (Hl & Hn & Hb & Hd & Hu) Ha Hr Hm Hin. split; [done|]. split; [done|]. cbn [devices set_device].
  split_and!.
  - intros b db. destruct (decide (b = a)) as [->|Hne].
    + rewrite lookup_insert_eq. by intros [= <-].
    + rewrite lookup_insert_ne by done. intros E. apply Hb in E. lia.
  - intros b Hbl. destruct (decide (b = a)) as [->|Hne].
    + exists (set_ref r d). rewrite lookup_insert_eq. split; [done|by apply Hin].
    + rewrite lookup_insert_ne by done. by apply Hd.
  - assert (Hid : forall b d', <[a := set_ref r d]> (devices s) !! b = Some d' ->
      exists d0, devices s !! b = Some d0 /\ device_id d0 = device_id d').
    { intros b d'. destruct (decide (b = a)) as [->|Hne].
      - rewrite lookup_insert_eq. intros [= <-]. by exists d.
      - rewrite lookup_insert_ne by done. intros E. by exists d'. }
    intros b c d1 d2 Hbl Hcl E1 E2 E.
    destruct (Hid _ _ E1) as (d1' & F1 & G1). destruct (Hid _ _ E2) as (d2' & F2 & G2).
    eapply Hu; eauto. congruence.
Qed.

Lemma ok_weaken n m l s : registry_ok n l s -> n <= m -> registry_ok m l s.
Proof.
  intros (Hl & Hn & Hb & Hd & Hu) Hm. split_and!; try done. intros a d Ha. apply Hb in Ha. lia.
Qed.

Lemma ok_delete n l s a : registry_ok n l s ->
  registry_ok n (filter (fun x => x <> a) l) (set_list (filter (fun x => x <> a) l) s).
Proof.
  intros (Hl & Hn & Hb & Hd & Hu). split; [done|]. split; [by apply NoDup_filter|]. cbn [devices set_list].
  split; [done|]. split.
  - intros b [_ Hbl]%list_elem_of_filter. by apply Hd.
  - intros b c d d' [_ Hbl]%list_elem_of_filter [_ Hcl]%list_elem_of_filter. by apply Hu.
Qed.

Lemma ok_free n l s a : registry_ok n l s -> a ∉ l -> registry_ok n l (free_device a s).
Proof.
  intros (Hl & Hn & Hb & Hd & Hu) Ha. split; [done|]. split; [done|]. cbn [devices free_device]. split_and!.
  - intros b d Hbd. apply lookup_delete_Some in Hbd as [_ Hbd]. by eapply Hb.
  - intros b Hbl. destruct (Hd b Hbl) as (d & E & Hr). exists d. split; [|done].
    rewrite lookup_delete_ne; [done|]. by intros <-.
  - intros b c d d' Hbl Hcl Hd1 Hd2. apply lookup_delete_Some in Hd1 as [_ Hd1], Hd2 as [_ Hd2]. by eapply Hu.
Qed.

Lemma ok_add n l s a d :
  registry_ok n l s -> devices s !! a = Some d -> 0 < ref d ->
  (forall b d', b ∈ l -> devices s !! b = Some d' -> device_id d' <> device_id d) ->
  registry_ok n (l ++ [a]) (set_list (l ++ [a]) s).
Proof.
  intros (Hl & Hn & Hb & Hd & Hu) Ha Hr Hfresh. split; [done|].
  assert (Hal : a ∉ l) by (intros Hal; by eapply Hfresh).
  split. { apply NoDup_app. split; [done|]. split; [|apply NoDup_singleton].
    intros b Hbl ->%list_elem_of_singleton. done. }
  cbn [devices set_list]. split; [done|]. split.
  - intros b [Hbl| ->%list_elem_of_singleton]%elem_of_app; [by apply Hd|by exists d].
  - intros b c d1 d2 [Hbl| ->%list_elem_of_singleton]%elem_of_app [Hcl| ->%list_elem_of_singleton]%elem_of_app E1 E2 E; try done.
    + by eapply Hu.
    + exfalso. apply (Hfresh b d1); [done..|]. congruence.
    + exfalso. apply (Hfresh c d2); [done..|]. congruence.
Qed.

Lemma ok_world n l s w : registry_ok n l s ->
  registry_ok n l (mk_framework (bdevs s) (devices s) (xfer_id s) w).
Proof. done. Qed.

(** ** The operations *)

Lemma inc_ref_run s a d : devices s !! a = Some d -> 0 <= ref d < 2 ^ 32 - 1 ->
  bdev_inc_ref a s = (Ret tt, set_device a (set_ref (ref d + 1) d) s).
Proof.
  intros Ha Hr. unfold bdev_inc_ref, deref, bind, modify. rewrite Ha.
  by rewrite wrapw_small by (unfold in_word; lia).
Qed.

Lemma registered_spec n l s id k : registry_ok n l s -> (forall a, a ∈ k -> a ∈ l) ->
  exists b, registered k id s = (Ret b, s) /\
    (b = true <-> exists a d, a ∈ k /\ devices s !! a = Some d /\ device_id d = id).
Proof.
  intros (_ & _ & _ & Hd & _) Hk. induction k as [|a k IH].
  - exists false. split; [done|]. split; [done|]. by intros (a & d & Ha & _); apply elem_of_nil in Ha.
  - destruct IH as (b & E & Hb); [intros; apply Hk; by right|].
    destruct (Hd a) as (d & Ha & _); [apply Hk; by left|].
    cbn [registered]. unfold bind, deref. rewrite Ha. destruct (Z.eqb_spec (device_id d) id) as [Hid|Hid].
    + exists true. split; [done|]. split; [|done]. intros _. exists a, d. split_and!; [by left|done|done].
    + exists b. split; [exact E|]. rewrite Hb. split.
      * intros (c & dc & Hc & E1 & E2). exists c, dc. split_and!; [by right|done|done].
      * intros (c & dc & [->|Hc]%elem_of_cons & E1 & E2); [congruence|]. by exists c, dc.
Qed.

(** What [open] finds among the devices [k]. *)
Definition finds (k : list Z) (id : Z) s (r : option Z) s' : Prop :=
  match r with
  | Some a => exists d, a ∈ k /\ devices s !! a = Some d /\ device_id d = id /\
                s' = set_device a (set_ref (ref d + 1) d) s
  | None => s' = s /\ forall a d, a ∈ k -> devices s !! a = Some d -> device_id d <> id
  end.

Lemma find_device_spec n l s id k : registry_ok n l s -> n < 2 ^ 32 - 1 -> (forall a, a ∈ k -> a ∈ l) ->
  exists r s', find_device k id s = (Ret r, s') /\ finds k id s r s'.
Proof.
  intros Hok Hn Hk. pose proof Hok as (_ & _ & Hb & Hd & _). induction k as [|a k IH].
  - exists None, s. split; [done|]. split; [done|]. by intros a d Ha; apply elem_of_nil in Ha.
  - destruct IH as (r & s' & E & Hf); [intros; apply Hk; by right|].
    destruct (Hd a) as (d & Ha & Hr); [apply Hk; by left|]. pose proof (Hb _ _ Ha).
    cbn [find_device]. unfold bind at 1, deref at 1. rewrite Ha. destruct (Z.leb_spec (ref d) 0); [lia|].
    destruct (Z.eqb_spec (device_id d) id) as [Hid|Hid].
    + eexists _, _. split; [unfold bind; by rewrite (inc_ref_run s a d Ha) by lia|].
      exists d. split_and!; [by left|done|done|done].
    + exists r, s'. split; [exact E|]. destruct r as [c|].
      * destruct Hf as (dc & Hc & ?). exists dc. split; [by right|done].
      * destruct Hf as [-> Hf]. split; [done|]. intros c dc [->|Hc]%elem_of_cons E1; [congruence|by eapply Hf].
Qed.

(** The last holder is gone: the device leaves the list whatever its count. *)
Lemma ok_drop n l s a d :
  registry_ok n l s -> devices s !! a = Some d -> 0 <= n ->
  let l' := filter (fun x => x <> a) l in
  registry_ok n l' (set_list l' (set_device a (set_ref 0 d) s)) /\ a ∉ l'.
Proof.
  intros Hok Ha Hn l'. split; [|by intros [? _]%list_elem_of_filter].
  destruct (ok_delete n l s a Hok) as (H1 & H2 & H3 & H4 & H5). fold l' in H1, H2, H4, H5. cbn in *.
  assert (Hne : forall b, b ∈ l' -> b <> a) by (intros b Hb; by apply list_elem_of_filter in Hb as [? _]).
  split; [done|]. split; [done|]. cbn. split_and!.
  - intros b db. destruct (decide (b = a)) as [->|]; [rewrite lookup_insert_eq; intros [= <-]; cbn; lia|].
    rewrite lookup_insert_ne by done. apply H3.
  - intros b Hbl. destruct (H4 b Hbl) as (db & Hdb & ?). exists db. split; [|done].
    by rewrite lookup_insert_ne by (symmetry; by apply Hne).
  - intros b c db dc Hbl Hcl E2 E3.
    rewrite lookup_insert_ne in E2, E3 by (symmetry; by apply Hne). by eapply H5.
Qed.

Definition close_and_free (a : Z) (d : bdev W) : M (framework W) unit :=
  match close d with Some f => on_world (let! _ := code f in ret tt) | None => ret tt end ;;;
  modify (free_device a).

Lemma close_and_free_ok n l s a d : registry_ok n l s -> a ∉ l -> registry_ok n l (close_and_free a d s).2.
Proof.
  intros Hok Ha. unfold close_and_free. destruct (close d) as [f|]; [|by apply ok_free].
  unfold bind at 1, on_world. destruct ((let! _ := code f in ret tt) (bd_world s)) as [[x|x| | |] w]; cbn [snd];
    try (by apply ok_world). unfold modify. cbn [snd]. by apply ok_free.
Qed.

(** The three ways of dropping a reference. *)
Lemma dec_ref_run n l s a d : registry_ok n l s -> devices s !! a = Some d ->
  bdev_dec_ref a s =
  if ref d =? 1 then
    (if decide (a ∈ l)
     then close_and_free a d (set_list (filter (fun x => x <> a) l) (set_device a (set_ref 0 d) s))
     else (Err (TEGRABL_ERROR TEGRABL_ERR_INVALID 4), set_device a (set_ref 0 d) s))
  else if 0 <? ref d then (Ret tt, set_device a (set_ref (ref d - 1) d) s) else (Ret tt, s).
Proof.
  intros (Hl & _) Ha. unfold bdev_dec_ref. unfold bind at 1, deref. rewrite Ha. cbv zeta.
  destruct (Z.eqb_spec (ref d) 1) as [E1|E1].
  - rewrite E1. unfold when. cbn [Z.ltb Z.compare]. rewrite bind_modify. change (1 - 1) with 0.
    unfold list_in_list, the_list. unfold bind at 1 2. cbn [bdevs set_device]. rewrite Hl. unfold ret at 1.
    rewrite bool_decide_decide. destruct (decide (a ∈ l)) as [Hin|Hin]; [|done].
    unfold fail_if. cbn [negb]. rewrite bind_ret_l. unfold list_delete, the_list. unfold bind at 1 2. cbn [bdevs set_device].
    rewrite Hl. by destruct (decide (a ∈ l)).
  - unfold when. by destruct (0 <? ref d).
Qed.

Lemma dec_ref_keeps n l s a : registry_ok n l s -> exists l', registry_ok n l' (bdev_dec_ref a s).2.
Proof.
  intros Hok. destruct (devices s !! a) as [d|] eqn:Ha.
  2:{ exists l. unfold bdev_dec_ref, bind, deref. by rewrite Ha. }
  pose proof Hok as (_ & _ & Hb & _). specialize (Hb a d Ha). rewrite (dec_ref_run n l s a d) by done.
  destruct (Z.eqb_spec (ref d) 1) as [E1|E1]; [destruct (decide (a ∈ l))|].
  - destruct (ok_drop n l s a d) as [Hok' Hn]; [done|done|lia|].
    eexists. by apply close_and_free_ok.
  - exists l. apply (ok_set_ref n n l s a d); done || lia.
  - exists l. destruct (Z.ltb_spec 0 (ref d)) as [Hr|Hr]; [|done]. apply (ok_set_ref n n l s a d); done || lia.
Qed.

(** ** Runs *)

Inductive registry_op := Register (a : Z) | Open (storage_type instance : Z) | Close (a : Z) | Unregister (a : Z).

Definition registry_step (o : registry_op) : M (framework W) unit :=
  match o with
  | Register a => tegrabl_blockdev_register_device (Some a)
  | Open st i => let! _ := tegrabl_blockdev_open st i in ret tt
  | Close a => tegrabl_blockdev_close (Some a)
  | Unregister a => tegrabl_blockdev_unregister_device (Some a)
  end.

(** The callers go on after an error. *)
Fixpoint registry_run (os : list registry_op) s : option (framework W) :=
  match os with
  | [] => Some s
  | o :: os =>
      match registry_step o s with
      | (Ret _, s') | (Err _, s') => registry_run os s'
      | _ => None
      end
  end.

Lemma register_keeps n l s a : registry_ok n l s -> n + 1 < 2 ^ 32 ->
  exists l', registry_ok (n + 1) l' (registry_step (Register a) s).2.
Proof.
  intros Hok Hn. cbn [registry_step tegrabl_blockdev_register_device]. unfold bind at 1, deref.
  destruct (devices s !! a) as [d|] eqn:Ha; [|by exists l; eapply ok_weaken; [done|lia]].
  pose proof Hok as (_ & _ & Hb & _). specialize (Hb a d Ha).
  rewrite (bind_run _ _ _ _ _ (inc_ref_run s a d Ha ltac:(lia))). set (s1 := set_device _ _ s).
  assert (Hok1 : registry_ok (n + 1) l s1) by (apply (ok_set_ref n (n + 1) l s a d); done || lia).
  unfold the_list. unfold bind at 1. pose proof Hok1 as (Hl & _). rewrite Hl.
  destruct (registered_spec (n + 1) l s1 (device_id d) l Hok1) as (b & E & Hdup); [done|].
  rewrite (bind_run _ _ _ _ _ E). destruct b; cbn [negb when].
  - exists l. exact Hok1.
  - exists (l ++ [a]). cbn. apply (ok_add (n + 1) l s1 a (set_ref (ref d + 1) d)); [done| | |].
    + apply lookup_insert_eq.
    + cbn. lia.
    + intros b d' Hbl Hd' Hid. enough (false = true) by done. apply Hdup. exists b, d'. by split_and!.
Qed.

Lemma step_keeps n l s o : registry_ok n l s -> 0 <= n -> n + 1 < 2 ^ 32 - 1 ->
  exists l', registry_ok (n + 1) l' (registry_step o s).2.
Proof.
  intros Hok H0 Hn. destruct o as [a|st i|a|a].
  - apply (register_keeps n l); done || lia.
  - exists l. cbn [registry_step]. unfold tegrabl_blockdev_open. destruct (_ <=? st).
    { eapply ok_weaken; [exact Hok|lia]. }
    unfold the_list. pose proof Hok as (Hl & _ & Hb & Hd & _). unfold bind at 1 2. rewrite Hl.
    destruct (find_device_spec n l s (TEGRABL_BLOCK_DEVICE_ID st i) l Hok) as (r & s' & E & Hf); [lia|done|].
    rewrite E. destruct r as [a|]; cbn [finds] in Hf.
    + destruct Hf as (d & Ha & Hd' & _ & ->). pose proof (Hb _ _ Hd').
      apply (ok_set_ref n (n + 1) l s a d); done || lia.
    + destruct Hf as [-> _]. eapply ok_weaken; [exact Hok|lia].
  - destruct (dec_ref_keeps n l s a Hok) as (l' & Hl'). exists l'. apply (ok_weaken n); [|lia].
    cbn [registry_step tegrabl_blockdev_close]. unfold bind, code. by destruct (bdev_dec_ref a s) as [[x|x| | |] s'].
  - cbn [registry_step tegrabl_blockdev_unregister_device]. unfold list_delete, the_list.
    unfold bind at 1 2. pose proof Hok as (Hl & _). rewrite Hl. destruct (decide (a ∈ l)).
    + unfold modify. pose proof (ok_delete n l s a Hok) as Hok'. set (s1 := set_list _ s) in *.
      destruct (dec_ref_keeps n _ s1 a Hok') as (l' & Hl'). exists l'. apply (ok_weaken n); [|lia].
      unfold bind, code. by destruct (bdev_dec_ref a s1) as [[x|x| | |] s'].
    + exists l. eapply ok_weaken; [exact Hok|lia].
Qed.

Lemma run_keeps os : forall n l s s', registry_ok n l s -> 0 <= n -> n + Z.of_nat (length os) < 2 ^ 32 - 1 ->
  registry_run os s = Some s' -> exists l', registry_ok (n + Z.of_nat (length os)) l' s'.
Proof.
  induction os as [|o os IH]; intros n l s s' Hok H0 Hn; cbn [registry_run length].
  - intros [= <-]. exists l. by rewrite Z.add_0_r.
  - destruct (step_keeps n l s o Hok H0) as (l1 & Hok1); [cbn in Hn; lia|]. cbn [length] in Hn.
    replace (n + Z.of_nat (S (length os))) with (n + 1 + Z.of_nat (length os)) by lia.
    destruct (registry_step o s) as [[x|x| | |] s1]; intros E; try done;
      apply (IH (n + 1) l1 s1 s'); done || lia.
Qed.
End Registry.

(** C28.  The registry after any sequence of registrations, openings, closings
    and unregistrations, errors included, that starts with an empty list and
    devices nobody holds: the registered devices exist, are held and have
    different ids, each once in the list.  So opening finds a device if and
    only if one with that id is registered, and counts the new holder. *)
Theorem registry_invariant {W} (os : list registry_op) (s s' : framework W) :
  bdevs s = Some [] -> (forall a d, devices s !! a = Some d -> ref d = 0) ->
  Z.of_nat (length os) < 2 ^ 32 - 1 -> registry_run os s = Some s' ->
  exists l, registry_ok (Z.of_nat (length os)) l s' /\
  forall storage_type instance, storage_type < TEGRABL_STORAGE_INVALID ->
  exists r s'', tegrabl_blockdev_open storage_type instance s' = (Ret r, s'') /\
    match r with
    | Some a => exists d, a ∈ l /\ devices s' !! a = Some d /\
                  device_id d = TEGRABL_BLOCK_DEVICE_ID storage_type instance /\
                  s'' = set_device a (set_ref (ref d + 1) d) s'
    | None => s'' = s' /\ forall a d, a ∈ l -> devices s' !! a = Some d ->
                device_id d <> TEGRABL_BLOCK_DEVICE_ID storage_type instance
    end.
Proof.
  intros Hl Hr Hn E.
  assert (Hok : registry_ok 0 [] s).
  { split; [done|]. split; [by apply NoDup_nil|]. split; [intros a d Ha; by rewrite (Hr a d Ha)|].
    split; [by intros a Ha%elem_of_nil|by intros a b d d' Ha%elem_of_nil]. }
  destruct (run_keeps os 0 [] s s' Hok ltac:(lia) ltac:(lia) E) as (l & Hok'). rewrite Z.add_0_l in Hok'.
  exists l. split; [done|]. intros st i Hst. unfold tegrabl_blockdev_open.
  destruct (Z.leb_spec TEGRABL_STORAGE_INVALID st); [lia|].
  unfold the_list, bind. pose proof Hok' as (Hl' & _). rewrite Hl'.
  destruct (find_device_spec _ l s' (TEGRABL_BLOCK_DEVICE_ID st i) l Hok') as (r & s'' & E2 & Hf); [lia|done|].
  exists r, s''. split; [exact E2|exact Hf].
Qed.

(** Three devices, the first two with the same id, none registered yet. *)
Definition unused (d : bdev (list Z)) : bdev (list Z) := set_ref 0 d.
Definition three_devices : framework (list Z) :=
  mk_framework (Some []) {[ 100 := unused small_disk; 200 := unused small_disk; 300 := unused (ram_disk 2 4 0x40001) ]} 0 [].
Definition sample_ops : list registry_op := [Register 100; Register 200; Register 300; Open 3 0; Close 100; Close 300].

Lemma registry_invariant_witness :
  match registry_run sample_ops three_devices with
  | Some s' => exists l, registry_ok 6 l s'
  | None => False
  end.
Proof.
  assert (Hr : forall a d, devices three_devices !! a = Some d -> ref d = 0).
  { intros a d. unfold three_devices. cbn [devices]. rewrite !lookup_insert_Some, lookup_singleton_Some.
    intros [[_ <-]|[_ [[_ <-]|[_ [_ <-]]]]]; done. }
  assert (Hn : Z.of_nat (length sample_ops) < 2 ^ 32 - 1) by (vm_compute; reflexivity).
  assert (Hrun : is_Some (registry_run sample_ops three_devices)) by (vm_compute; by eexists).
  destruct (registry_run sample_ops three_devices) as [s'|] eqn:E.
  - destruct (registry_invariant sample_ops three_devices s' eq_refl Hr Hn E) as (l & Hok & _). exists l. exact Hok.
  - destruct Hrun as [x Hx]. discriminate Hx.
Defined.

(** A device that is unregistered is neither closed nor freed, although
    nobody holds it any more: its node is unlinked before the count is dropped,
    and the count only releases a device that is still linked.  The error this
    raises is ignored. *)
Theorem unregister_keeps_device {W} (s : framework W) l a d :
  bdevs s = Some l -> a ∈ l -> devices s !! a = Some d -> ref d = 1 ->
  let l' := filter (fun x => x <> a) l in
  tegrabl_blockdev_unregister_device (Some a) s = (Ret tt, set_device a (set_ref 0 d) (set_list l' s)) /\
  (bdev_dec_ref a (set_list l' s)).1 = Err (TEGRABL_ERROR TEGRABL_ERR_INVALID 4).
Proof.
  intros Hl Hin Ha Hr l'.
  assert (E : bdev_dec_ref a (set_list l' s) =
    (Err (TEGRABL_ERROR TEGRABL_ERR_INVALID 4), set_device a (set_ref 0 d) (set_list l' s))).
  { unfold bdev_dec_ref. unfold bind at 1, deref. cbn [devices set_list]. rewrite Ha, Hr. unfold when. cbn [Z.ltb Z.compare].
    rewrite bind_modify. change (1 - 1) with 0. change (1 =? 1) with true. cbn iota.
    unfold list_in_list, the_list, bind. cbn [bdevs set_device set_list].
    rewrite bool_decide_false; [done|]. unfold l'. by intros [? _]%list_elem_of_filter. }
  split; [|by rewrite E]. unfold tegrabl_blockdev_unregister_device, list_delete, the_list.
  unfold bind at 1 2. rewrite Hl. destruct (decide (a ∈ l)); [|done]. unfold modify. fold l'.
  unfold bind, code. by rewrite E.
Qed.

Lemma unregister_keeps_device_witness :
  exists s', tegrabl_blockdev_unregister_device (Some 100) (mk_framework (Some [100]) {[ 100 := small_disk ]} 0 []) = (Ret tt, s') /\
    devices s' !! 100 = Some (set_ref 0 small_disk).
Proof.
  assert (Hin : 100 ∈ [100]) by (apply list_elem_of_singleton; reflexivity).
  set (s := mk_framework (Some [100]) {[ 100 := small_disk ]} 0 []).
  assert (Ha : devices s !! 100 = Some small_disk) by reflexivity.
  destruct (unregister_keeps_device s [100] 100 small_disk eq_refl Hin Ha eq_refl) as [E _].
  eexists. split; [exact E|]. reflexivity.
Defined.

(** The range checks add in the width of their operands.  A count of
    2^32 - 1 blocks from block 1 on passes the checks of the block functions of
    every device and reaches the driver, and a length of all but one block of
    2^64 bytes passes those of the byte functions, which ask for just that
    count. *)
Theorem range_checks_wrap {W} `{DmaHeap W} (d : bdev W) addr buf secure w :
  0 < ref d -> 0 < block_count d -> 0 <= block_size_log2 d < 32 -> 2 ^ block_size_log2 d < size d ->
  tegrabl_blockdev_buffer_aligned d addr = true ->
  let bs := 2 ^ block_size_log2 d in
  tegrabl_blockdev_erase (Some d) 1 (2 ^ 32 - 1) secure w = map_err SET_HIGHEST_MODULE (erase d 1 (2 ^ 32 - 1) secure) w /\
  tegrabl_blockdev_read_block (Some d) addr buf 1 (2 ^ 32 - 1) w =
    (let! data := map_err SET_HIGHEST_MODULE (read_block d 1 (2 ^ 32 - 1)) in lift (copy_to buf 0 data)) w /\
  tegrabl_blockdev_read (Some d) addr buf bs (2 ^ 64 - bs) w =
    map_err SET_HIGHEST_MODULE
      (match read d with
       | default_hook => tegrabl_blockdev_default_read (Some d) addr buf bs (2 ^ 64 - bs)
       | driver_hook f => f addr buf bs (2 ^ 64 - bs)
       end) w /\
  u32 (DIV_FLOOR_LOG2 (2 ^ 64 - bs) (block_size_log2 d)) = 2 ^ 32 - 1.
Proof.
  intros Hr Hc Hlg Hbs Hal bs. pose proof (pow2_small (block_size_log2 d) 32 Hlg) as [? ?]. fold bs in Hbs |- *.
  assert (Hw : forall x, (block_count d <? 1) || (block_count d <? u32 (1 + (2 ^ 32 - 1))) = x -> x = false).
  { intros x <-. replace (1 + (2 ^ 32 - 1)) with (2 ^ 32) by lia. unfold wrapw. rewrite Z_mod_same_full. lia. }
  assert (Hp : 0 < bs) by (apply Z.pow_pos_nonneg; lia).
  split_and!.
  - unfold tegrabl_blockdev_erase. rewrite !bind_fail_if; [done|lia|by eapply Hw|done].
  - unfold tegrabl_blockdev_read_block. rewrite !bind_fail_if; [done|by eapply Hw|lia|by rewrite Hal|done].
  - unfold tegrabl_blockdev_read. rewrite !bind_fail_if; [done| |lia|lia].
    replace (bs + (2 ^ 64 - bs)) with (2 ^ 64) by lia. unfold wrapw. rewrite Z_mod_same_full. lia.
  - rewrite DIV_FLOOR_LOG2_div by lia. fold bs.
    assert (E : 2 ^ 64 - bs = (2 ^ (32 - block_size_log2 d) * 2 ^ 32 - 1) * bs).
    { unfold bs. rewrite Z.mul_sub_distr_r, <- !Z.pow_add_r by lia.
      replace (32 - block_size_log2 d + 32 + block_size_log2 d) with 64 by lia. lia. }
    rewrite E, Z.div_mul by lia. unfold wrapw.
    replace (2 ^ (32 - block_size_log2 d) * 2 ^ 32 - 1) with (2 ^ 32 - 1 + (2 ^ (32 - block_size_log2 d) - 1) * 2 ^ 32) by lia.
    rewrite Z_mod_plus_full. reflexivity.
Qed.

Lemma range_checks_wrap_witness :
  tegrabl_blockdev_erase (Some small_disk) 1 (2 ^ 32 - 1) false small_content =
    map_err SET_HIGHEST_MODULE (erase small_disk 1 (2 ^ 32 - 1) false) small_content.
Proof.
  refine (proj1 (range_checks_wrap small_disk 8 [] false small_content _ _ _ _ eq_refl)); cbn; lia.
Defined.
