(* ===== verification/Gpt.v ===== *)
(** * GUID partition tables

    lib/gpt/tegrabl_gpt.c: finding and checking the partition table of a block
    device, and the list of partitions made of it.

    Headers and entries are byte lists with the offsets of the C structs; a C
    string is the list of its characters. *)
From S2P Require Import Prelude Interfaces Errors Utils BlockDev.
#[local] Open Scope Z_scope.

Definition MODULE : Z := TEGRABL_ERR_GPT.
Definition TEGRABL_ERROR (reason aux_info : Z) : Z := tegrabl_error_value MODULE aux_info reason.
Definition SET_HIGHEST_MODULE (e : Z) : Z := tegrabl_err_set_highest_module e MODULE.

Definition TEGRABL_GPT_MAX_PARTITION_NAME : Z := 36.
Definition TEGRABL_GPT_MAX_PARTITION_ENTRIES : Z := 128.

(** [struct tegrabl_gpt_header] *)
Definition GPT_SIGNATURE_OFF : nat := 0.
Definition hdr_size (h : list Z) : Z := ld32 h 12.
Definition HDR_CRC32_OFF : nat := 16.
Definition hdr_first_lba (h : list Z) : Z := ld64 h 40.
Definition hdr_last_lba (h : list Z) : Z := ld64 h 48.
Definition table_start_lba (h : list Z) : Z := ld64 h 72.
Definition num_entries (h : list Z) : Z := ld32 h 80.
Definition entry_size (h : list Z) : Z := ld32 h 84.
Definition table_crc32 (h : list Z) : Z := ld32 h 88.

(** [struct tegrabl_gpt_entry], the entry starting at the head of [e] *)
Definition GPT_ENTRY_LEN : Z := 128.
Definition ent_ptype_guid (e : list Z) : list Z := slice e 0 16.
Definition ent_unique_guid (e : list Z) : list Z := slice e 16 16.
Definition ent_first_lba (e : list Z) : Z := ld64 e 32.
Definition ent_last_lba (e : list Z) : Z := ld64 e 40.
Definition ent_pname (e : list Z) (i : nat) : Z := ld16 e (56 + 2 * i).

(** [struct tegrabl_partition_info] *)
Record partition_info := mk_pinfo {
  pi_name : list Z;
  pi_guid : list Z;
  pi_ptype_guid : list Z;
  start_sector : Z;
  num_sectors : Z;
  total_size : Z;
}.
Definition PARTITION_INFO_LEN : Z := 144.

(** The characters of an array up to the terminator. *)
Fixpoint cstr (b : list Z) : list Z :=
  match b with
  | [] => []
  | c :: b => if c =? 0 then [] else c :: cstr b
  end.

(** ** Text of a guid *)

Definition set_hex (guid : Z) : list Z :=
  let high := Z.shiftr guid 4 in
  let low := Z.land guid 0x0F in
  let digit x := if 9 <? x then 97 + x - 10 else 48 + x in
  [digit high; digit low].

Definition guid_to_str (guid : list Z) : list Z :=
  let hex i := set_hex (ld8 guid i) in
  hex 3%nat ++ hex 2%nat ++ hex 1%nat ++ hex 0%nat ++ [45] ++
  hex 5%nat ++ hex 4%nat ++ [45] ++ hex 7%nat ++ hex 6%nat ++ [45] ++ hex 8%nat ++ hex 9%nat ++ [45] ++
  hex 10%nat ++ hex 11%nat ++ hex 12%nat ++ hex 13%nat ++ hex 14%nat ++ hex 15%nat.

(** ** Header *)

(** [strncmp(hdr->signature, signature, 8)] *)
Definition signature : list Z := [69; 70; 73; 32; 80; 65; 82; 84].

Definition tegrabl_gpt_validate_header (buf : option (list Z)) (total_blocks : Z) : outcome unit :=
  match buf with
  | None => Err (TEGRABL_ERROR TEGRABL_ERR_INVALID 0)
  | Some buf =>
      if total_blocks =? 0 then Err (TEGRABL_ERROR TEGRABL_ERR_INVALID 0)
      else if negb (bool_decide (slice buf GPT_SIGNATURE_OFF 8 = signature))
      then Err (TEGRABL_ERROR TEGRABL_ERR_VERIFY_FAILED 0)
      else if negb (hdr_size buf =? 0x5C) then Err (TEGRABL_ERROR TEGRABL_ERR_INVALID 1)
      else
        let hdr_crc32 := ld32 buf HDR_CRC32_OFF in
        let cleared := st32 buf HDR_CRC32_OFF 0 in
        if negb (hdr_crc32 =? tegrabl_utils_crc32 0 (take (Z.to_nat (hdr_size buf)) cleared))
        then Err (TEGRABL_ERROR TEGRABL_ERR_VERIFY_FAILED 1)
        else if (total_blocks <=? hdr_first_lba buf) || (total_blocks <=? hdr_last_lba buf)
        then Err (TEGRABL_ERROR TEGRABL_ERR_INVALID 2)
        else Ret tt
  end.

Section Gpt.
Context {W : Type} `{DmaHeap W} `{HeapApi W}.

(** [__LINE__] of the error in [tegrabl_gpt_read_validate] *)
Definition LINE_BUF_SIZE : Z := 139.

(** What [*buf] and [*buf_size] are at the end, next to the error code. *)
Definition gpt_result : Type := Z * option (Z * list Z) * Z.

(** The buffer: the one passed in, or a new one that is cleared. *)
Definition gpt_buffer (size : Z) (buf : option (Z * list Z)) (buf_size : Z) : M W (option (Z * list Z) * Z) :=
  match buf with
  | None =>
      let! b := tegrabl_alloc_align TEGRABL_HEAP_DMA 4096 size in
      match b with
      | None => ret (None, buf_size)
      | Some (a, c) => ret (Some (a, blit c 0 (repeat 0 (Z.to_nat size))), size)
      end
  | Some b => ret (Some b, buf_size)
  end.

(** Reads and checks the header and the table behind it in [c]; the new content
    of the buffer. *)
Definition gpt_load (d : bdev W) (offset a : Z) (c : list Z) : M W (list Z) :=
  let bs := TEGRABL_BLOCKDEV_BLOCK_SIZE d in
  let! c := map_err SET_HIGHEST_MODULE
              (tegrabl_blockdev_read_block (Some d) a c (u32 (DIV_CEIL_LOG2 offset (block_size_log2 d))) 1) in
  lift (tegrabl_gpt_validate_header (Some c) (block_count d)) ;;;
  fail_if (TEGRABL_GPT_MAX_PARTITION_ENTRIES <? num_entries c) (TEGRABL_ERROR TEGRABL_ERR_TOO_LARGE 1) ;;;
  fail_if (GPT_ENTRY_LEN <? entry_size c) (TEGRABL_ERROR TEGRABL_ERR_TOO_LARGE 2) ;;;
  let table_size := u32 (num_entries c * entry_size c) in
  let! entries := map_err SET_HIGHEST_MODULE
                    (tegrabl_blockdev_read_block (Some d) (a + bs) (drop (Z.to_nat bs) c)
                       (u32 (table_start_lba c)) (u32 (DIV_CEIL_LOG2 table_size (block_size_log2 d)))) in
  let crc32 := tegrabl_utils_crc32 0 (take (Z.to_nat table_size) entries) in
  fail_if (negb (table_crc32 c =? crc32)) (TEGRABL_ERROR TEGRABL_ERR_VERIFY_FAILED 2) ;;;
  ret (take (Z.to_nat bs) c ++ entries).

Definition tegrabl_gpt_read_validate (dev : option (bdev W)) (offset : Z) (buf : option (Z * list Z)) (buf_size : Z) :
    M W gpt_result :=
  match dev with
  | None => ret (TEGRABL_ERROR TEGRABL_ERR_INVALID 3, buf, buf_size)
  | Some d =>
      let size := u32 (u32 (GPT_ENTRY_LEN * TEGRABL_GPT_MAX_PARTITION_ENTRIES) + TEGRABL_BLOCKDEV_BLOCK_SIZE d) in
      let! (buffer, buf_size) := gpt_buffer size buf buf_size in
      match buffer with
      | None => ret (TEGRABL_ERROR TEGRABL_ERR_NO_MEMORY 0, buf, buf_size)
      | Some (a, c) =>
          if buf_size <? size then ret (TEGRABL_ERROR TEGRABL_ERR_OVERFLOW LINE_BUF_SIZE, buf, buf_size)
          else
            let! r := code (gpt_load d offset a c) in
            match r with
            | inl c => ret (TEGRABL_NO_ERROR, Some (a, c), buf_size)
            | inr e => ret (e, buf, buf_size)
            end
      end
  end.

(** The places to look at, one after the other. *)
Fixpoint gpt_try (dev : option (bdev W)) (offsets : list Z) (buf : option (Z * list Z)) (buf_size : Z) : M W gpt_result :=
  match offsets with
  | [] => ret (TEGRABL_ERROR TEGRABL_ERR_NOT_FOUND 0, buf, buf_size)
  | offset :: offsets =>
      let! (error, buf, buf_size) := tegrabl_gpt_read_validate dev offset buf buf_size in
      if error =? TEGRABL_NO_ERROR then ret (TEGRABL_NO_ERROR, buf, buf_size)
      else gpt_try dev offsets buf buf_size
  end.

(** Without a known place the primary table and then the one in the last block
    are tried. *)
Definition gpt_offsets (d : bdev W) (offset : Z) : list Z :=
  let block_size := u32 (TEGRABL_BLOCKDEV_BLOCK_SIZE d) in
  if 0 <? offset then [offset] else [block_size; u64 (size d - block_size)].

Definition tegrabl_gpt_read (dev : option (bdev W)) (offset : Z) (buf : option (Z * list Z)) (buf_size : Z) :
    M W gpt_result :=
  match dev with
  | None => ret (TEGRABL_ERROR TEGRABL_ERR_INVALID 4, buf, buf_size)
  | Some d => gpt_try dev (gpt_offsets d offset) buf buf_size
  end.

(** ** The list of partitions *)

Definition entry_used (e : list Z) : bool := ent_first_lba e <? ent_last_lba e.

Definition entry_info (log2 : Z) (e : list Z) : partition_info :=
  let start_sector := ent_first_lba e in
  let num_sectors := u64 (u64 (ent_last_lba e - start_sector) + 1) in
  mk_pinfo
    (cstr (map (fun i => Z.land (ent_pname e i) 0xFF) (seq 0 (Z.to_nat TEGRABL_GPT_MAX_PARTITION_NAME))))
    (guid_to_str (ent_unique_guid e)) (guid_to_str (ent_ptype_guid e))
    start_sector num_sectors (u64 (Z.shiftl num_sectors log2)).

(** [n] entries of the table [t]. *)
Fixpoint table_entries (n : nat) (t : list Z) : list (list Z) :=
  match n with
  | O => []
  | S n => take (Z.to_nat GPT_ENTRY_LEN) t :: table_entries n (drop (Z.to_nat GPT_ENTRY_LEN) t)
  end.

Definition used_entries (t : list Z) : list (list Z) :=
  filter (fun e => entry_used e = true) (table_entries (Z.to_nat TEGRABL_GPT_MAX_PARTITION_ENTRIES) t).

(** The address of the new array and its entries. *)
Definition tegrabl_gpt_publish (dev : option (bdev W)) (offset : Z) : M W (Z * list partition_info) :=
  match dev with
  | None =>
      tegrabl_dealloc TEGRABL_HEAP_DMA 0 ;;; err (TEGRABL_ERROR TEGRABL_ERR_INVALID 5)
  | Some d =>
      let! (error, buffer, _) := tegrabl_gpt_read dev offset None 0 in
      let address := match buffer with Some (a, _) => a | None => 0 end in
      if negb (error =? TEGRABL_NO_ERROR) then tegrabl_dealloc TEGRABL_HEAP_DMA address ;;; err error
      else
        let content := match buffer with Some (_, c) => c | None => [] end in
        let entries := used_entries (drop (Z.to_nat (TEGRABL_BLOCKDEV_BLOCK_SIZE d)) content) in
        let! partitions := heap_malloc (u64 (PARTITION_INFO_LEN * Z.of_nat (length entries))) in
        match partitions with
        | None => tegrabl_dealloc TEGRABL_HEAP_DMA address ;;; err (TEGRABL_ERROR TEGRABL_ERR_NO_MEMORY 1)
        | Some a =>
            tegrabl_dealloc TEGRABL_HEAP_DMA address ;;;
            ret (a, map (entry_info (block_size_log2 d)) entries)
        end
  end.
End Gpt.
