(* ===== verification/GptSpec.v ===== *)
(** * GUID partition tables: correctness

    The partition table of a byte string, and that tegrabl_gpt_publish finds it
    on every device that stores what it is given. *)
From S2P Require Import Prelude Interfaces Errors Utils BlockDev BlockSpec Gpt.
#[local] Open Scope Z_scope.

(** ** The table in the content of a device *)

(** The cleared part of the buffer that receives the table. *)
Definition zeroes : list Z := repeat 0 (Z.to_nat 16384).

Lemma length_zeroes : Z.of_nat (length zeroes) = 16384.
Proof. unfold zeroes. rewrite repeat_length. apply Z2Nat.id. lia. Qed.
#[local] Opaque zeroes.

Section Table.
Variables (lg count : Z).
Notation bs := (2 ^ lg).

Definition blocks_at (C : list Z) (b n : Z) : option (list Z) :=
  if (0 <? n) && (b + n <=? count) then Some (slice C (Z.to_nat (b * bs)) (Z.to_nat (n * bs))) else None.

Definition header_ok (h : list Z) : bool :=
  match tegrabl_gpt_validate_header (Some h) count with Ret _ => true | _ => false end &&
  (num_entries h <=? 128) && (entry_size h <=? 128).

(** The bytes of the table: whole blocks, of which the first [ts] bytes are
    covered by the checksum, in a buffer of zeroes. *)
Definition table_at (C : list Z) (h : list Z) : option (list Z) :=
  let ts := num_entries h * entry_size h in
  t ← blocks_at C (u32 (table_start_lba h)) ((ts + bs - 1) / bs);
  if table_crc32 h =? tegrabl_utils_crc32 0 (take (Z.to_nat ts) t) then Some (blit zeroes 0 t) else None.

(** The table whose header is in the block of byte [offset]. *)
Definition gpt_at (C : list Z) (offset : Z) : option (list Z) :=
  h ← blocks_at C (u32 ((offset + bs - 1) / bs)) 1;
  if header_ok h then table_at C h else None.

Fixpoint first_gpt (C : list Z) (offsets : list Z) : option (list Z) :=
  match offsets with
  | [] => None
  | o :: os => match gpt_at C o with Some t => Some t | None => first_gpt C os end
  end.
End Table.

Lemma set_highest_nonzero e m : 0 < m < 256 -> tegrabl_err_set_highest_module e m <> 0.
Proof.
  intros Hm E. assert (G : BITFIELD_GET (tegrabl_err_set_highest_module e m) 8 24 = m).
  { unfold tegrabl_err_set_highest_module, TEGRABL_ERR_MODULE_WIDTH, TEGRABL_ERR_HIGHEST_MODULE_SHIFT.
    rewrite BITFIELD_GET_SET_same by lia. apply Z.mod_small. lia. }
  rewrite E in G. unfold BITFIELD_GET in G. rewrite Z.land_0_l, Z.shiftr_0_l in G. lia.
Qed.

Section Device.
Context {W : Type} `{DmaHeap W} `{HeapApi W} (d : bdev W) `{!FlatDevice d}.
Notation lg := (block_size_log2 d).
Notation bs := (2 ^ block_size_log2 d).

(** Blocks that hold a header and divide the buffer; a table at the very end of
    the block numbers is left out. *)
Hypothesis Hlg : 9 <= lg <= 14.
Hypothesis Hcount : 0 < block_count d < 2 ^ 32 - 32.

(** The device and the heap serve every valid request; an allocation of no
    bytes is refused. *)
Hypothesis Hworks : ~ may_fail.
Hypothesis Hheap : forall w n,
  let '(r, w') := heap_malloc n w in
  elsewhere w w' /\ content w' = content w /\
  match r with Ret (Some _) => 0 < n | Ret None => n <= 0 | _ => False end.

(** [c] reads the content [C] and returns [o], or fails with an error. *)
Definition computes {A} (C : list Z) (c : M W A) (o : option A) : Prop :=
  forall w, content w = C ->
    let '(r, w') := c w in
    elsewhere w w' /\ content w' = C /\
    match o, r with Some a, Ret a' => a' = a | None, Err e => e <> 0 | _, _ => False end.

Lemma c_ret {A} C (a : A) : computes C (ret a) (Some a).
Proof. intros w <-. by split. Qed.

Lemma c_bind {A B} C (c : M W A) (k : A -> M W B) f g :
  computes C c f -> (forall a, f = Some a -> computes C (k a) (g a)) -> computes C (bind c k) (f ≫= g).
Proof.
  intros Hc Hk w Hw. specialize (Hc w Hw). unfold bind. destruct (c w) as [[a|e| | |] w1];
    destruct Hc as (He & Hc1 & Hr); destruct f as [a'|]; try done.
  rewrite Hr in *. specialize (Hk a' eq_refl w1 Hc1). cbn. destruct (k a' w1) as [r w2]. destruct Hk as (He2 & Hc2 & Hr2).
  split; [by etrans|done].
Qed.

Lemma c_map_err {A} C (c : M W A) f m : 0 < m < 256 ->
  computes C c f -> computes C (map_err (fun e => tegrabl_err_set_highest_module e m) c) f.
Proof.
  intros Hm Hc w Hw. specialize (Hc w Hw). unfold map_err. destruct (c w) as [[a|e| | |] w1]; try done.
  destruct Hc as (He & Hc1 & Hr). split_and!; try done. destruct f; [done|]. by apply set_highest_nonzero.
Qed.

Lemma c_fail_if {B} C b e (k : unit -> M W B) f :
  (b = true -> e <> 0) -> (b = false -> computes C (k tt) f) ->
  computes C (bind (fail_if b e) k) (if b then None else f).
Proof.
  intros He Hk w Hw. destruct b; [|by apply Hk]. cbn. split_and!; [done|done|by apply He].
Qed.

Lemma c_ext {A} C (c : M W A) f f' : computes C c f -> f = f' -> computes C c f'.
Proof. by intros ? <-. Qed.

Lemma c_read_block C a buf b n :
  tegrabl_blockdev_buffer_aligned d a = true -> 0 <= b -> 0 <= n < 2 ^ 32 -> b + n < 2 ^ 32 \/ block_count d < b ->
  n * bs <= Z.of_nat (length buf) ->
  computes C (tegrabl_blockdev_read_block (Some d) a buf b n)
    (t ← blocks_at lg (block_count d) C b n; Some (blit buf 0 t)).
Proof.
  intros Ha Hb Hn Hbn Hl. unfold blocks_at. destruct ((0 <? n) && (b + n <=? block_count d)) eqn:E; cbn [mbind option_bind].
  - zbool. intros w Hw.
    pose proof (t_read_block d C a buf b n Ha Hb ltac:(lia) ltac:(lia) Hl w (eq_sym Hw)) as Ht.
    destruct (tegrabl_blockdev_read_block _ _ _ _ _ w) as [[c|e| | |] w']; destruct Ht as [He Ht]; try done.
    + destruct Ht as [E1 ->]. by split_and!.
    + by destruct Ht.
  - intros w Hw. unfold tegrabl_blockdev_read_block. pose proof dev_ref as Hr.
    destruct (Z.eqb_spec n 0); [split_and!; [done|done|by vm_compute]|].
    rewrite bind_fail_if by lia. rewrite bind_fail_if by (by rewrite Ha). rewrite bind_fail_if by lia.
    assert (G : (block_count d <? b) || (block_count d <? u32 (b + n)) = true).
    { destruct Hbn as [Hbn|Hbn]; [|apply orb_true_iff; left; lia].
      rewrite (wrapw_small 32 (b + n)) by (unfold in_word; lia).
      destruct (Z.leb_spec (b + n) (block_count d)); destruct (Z.ltb_spec 0 n); try lia; cbn in E; done. }
    rewrite G. cbn. split_and!; [done|done|by vm_compute].
Qed.

Lemma bs_facts : 512 <= bs <= 16384 /\ 16384 = 2 ^ (14 - lg) * bs /\ bs mod 8 = 0.
Proof.
  assert (E : 16384 = 2 ^ (14 - lg) * bs).
  { rewrite <- Z.pow_add_r by lia. replace (14 - lg + lg) with 14 by lia. reflexivity. }
  assert (1 <= 2 ^ (14 - lg)) by (apply (Z.pow_le_mono_r 2 0); lia).
  assert (512 <= bs) by (apply (Z.pow_le_mono_r 2 9); lia). split_and!; try nia.
  replace lg with (3 + (lg - 3)) by lia. rewrite Z.pow_add_r by lia.
  rewrite Z.mul_comm. apply Z_mod_mult.
Qed.

(** The header is read from the first 92 bytes. *)
Lemma header_prefix h z n : 92 <= Z.of_nat (length h) ->
  tegrabl_gpt_validate_header (Some (h ++ z)) n = tegrabl_gpt_validate_header (Some h) n.
Proof.
  intros Hl. unfold tegrabl_gpt_validate_header, hdr_size, hdr_first_lba, hdr_last_lba, HDR_CRC32_OFF, GPT_SIGNATURE_OFF.
  rewrite !ldn_app_l by lia. unfold slice. rewrite !drop_0, take_app_le by lia.
  destruct (n =? 0); [done|]. destruct (bool_decide _); [|done]. cbn [negb].
  destruct (Z.eqb_spec (ld32 h 12) 0x5C) as [->|]; [|done]. cbn [negb].
  assert (E : take (Z.to_nat 92) (st32 (h ++ z) 16 0) = take (Z.to_nat 92) (st32 h 16 0)).
  { rewrite !stn_blit by (rewrite ?length_app; lia). unfold blit. rewrite length_le.
    rewrite (take_app_le h z 16), (drop_app_le h z) by lia. rewrite !app_assoc.
    rewrite (take_app_le (_ ++ drop _ h)); [done|]. rewrite !length_app, length_take, length_drop, length_le. lia. }
  change 0x5C with 92. by rewrite E.
Qed.

Lemma c_validate {B} C h (k : unit -> M W B) f : computes C (k tt) f ->
  computes C (bind (lift (tegrabl_gpt_validate_header (Some h) (block_count d))) k)
    (match tegrabl_gpt_validate_header (Some h) (block_count d) with Ret _ => f | _ => None end).
Proof.
  intros Hk. assert (Hc : (exists u, tegrabl_gpt_validate_header (Some h) (block_count d) = Ret u) \/
    exists e, e <> 0 /\ tegrabl_gpt_validate_header (Some h) (block_count d) = Err e).
  { unfold tegrabl_gpt_validate_header. cbv zeta.
    repeat case_if; (left; by eexists) || (right; eexists; split; [|reflexivity]; by vm_compute). }
  destruct Hc as [[[] ->]|(e & He & ->)]; [exact Hk|]. intros w Hw. by split_and!.
Qed.

Definition gpt_loaded (C : list Z) (offset : Z) : option (list Z) :=
  h ← blocks_at lg (block_count d) C (u32 ((offset + bs - 1) / bs)) 1;
  if header_ok (block_count d) h then t ← table_at lg (block_count d) C h; Some (h ++ t) else None.

Lemma DIV_CEIL_LOG2_div n : 0 <= n -> n + bs < 2 ^ 64 -> DIV_CEIL_LOG2 n lg = (n + bs - 1) / bs.
Proof.
  intros Hn Hb. pose proof bs_facts as (? & _). unfold DIV_CEIL_LOG2.
  rewrite Z.shiftl_1_l, (wrapw_small 64 bs), (wrapw_small 64 (n + bs)), wrapw_small by (unfold in_word; lia).
  apply Z.shiftr_div_pow2. lia.
Qed.

Lemma c_table C a h : Z.of_nat (length C) = size d -> a mod 8 = 0 -> bytes h -> num_entries h <= 128 -> entry_size h <= 128 ->
  let ts := u32 (num_entries h * entry_size h) in
  computes C
    (let! entries := map_err SET_HIGHEST_MODULE
        (tegrabl_blockdev_read_block (Some d) (a + bs) zeroes (u32 (table_start_lba h))
           (u32 (DIV_CEIL_LOG2 ts lg))) in
     fail_if (negb (table_crc32 h =? tegrabl_utils_crc32 0 (take (Z.to_nat ts) entries)))
       (TEGRABL_ERROR TEGRABL_ERR_VERIFY_FAILED 2) ;;;
     ret (h ++ entries))
    (t ← table_at lg (block_count d) C h; Some (h ++ t)).
Proof.
  intros HC Ha Hh Hn He ts. pose proof bs_facts as (Hb & Ek & Hb8).
  pose proof (ldn_range 4 h 80 Hh) as Rn. pose proof (ldn_range 4 h 84 Hh) as Re.
  fold (num_entries h) in Rn. fold (entry_size h) in Re.
  assert (Ets : ts = num_entries h * entry_size h) by (apply wrapw_small; unfold in_word; nia).
  assert (Hts : 0 <= ts <= 16384) by nia.
  rewrite DIV_CEIL_LOG2_div by lia. set (n := (ts + bs - 1) / bs).
  assert (Hn0 : 0 <= n) by (apply Z.div_pos; lia).
  assert (Hnk : n <= 2 ^ (14 - lg)) by (apply Z.lt_succ_r, Z.div_lt_upper_bound; nia).
  assert (Hnts : ts <= n * bs).
  { unfold n. pose proof (Z.div_mod (ts + bs - 1) bs ltac:(lia)). pose proof (Z.mod_pos_bound (ts + bs - 1) bs ltac:(lia)). lia. }
  assert (Hn32 : n <= 32) by (assert (2 ^ (14 - lg) <= 2 ^ 5) by (apply Z.pow_le_mono_r; lia); lia).
  assert (Hsum : n * bs <= 16384) by nia.
  rewrite (wrapw_small 32 n) by (unfold in_word; lia). set (s := u32 (table_start_lba h)).
  assert (Hs : in_word 32 s) by (apply wrapw_range; lia).
  unfold table_at. fold s. rewrite <- Ets. fold n.
  eapply c_ext; [eapply (c_bind _ _ _ _ (fun entries => if negb (table_crc32 h =? tegrabl_utils_crc32 0 (take (Z.to_nat ts) entries)) then None else Some (h ++ entries)))|].
  - eapply (c_map_err C _ _ TEGRABL_ERR_GPT); [by vm_compute|].
    apply c_read_block; [apply (aligned_dma d); by rewrite Z.add_mod, Ha, Hb8 by lia|unfold in_word in *; lia..|].
    rewrite length_zeroes. lia.
  - intros entries Hent. apply c_fail_if; [intros _; by vm_compute|]. intros _. apply c_ret.
  - unfold blocks_at. destruct ((0 <? n) && (s + n <=? block_count d)) eqn:E; [|done]. cbn [mbind option_bind].
    zbool. set (t := slice C _ _).
    assert (Hlen : length t = Z.to_nat (n * bs)).
    { assert ((s + n) * bs <= block_count d * bs) by (apply Z.mul_le_mono_nonneg_r; lia). destruct Hs as [Hs _].
      assert (0 <= s * bs) by (apply Z.mul_nonneg_nonneg; lia). rewrite dev_size in HC.
      unfold t. rewrite length_slice. lia. }
    assert (Et : take (Z.to_nat ts) (blit zeroes 0 t) = take (Z.to_nat ts) t).
    { unfold blit. rewrite take_0. cbn [app]. by rewrite take_app_le by lia. }
    rewrite Et. clear Et. by destruct (_ =? _).
Qed.

Lemma blocks_at_facts C b n t : Z.of_nat (length C) = size d -> bytes C -> 0 <= b -> 0 <= n ->
  blocks_at lg (block_count d) C b n = Some t -> Z.of_nat (length t) = n * bs /\ bytes t.
Proof.
  intros HC Hbytes Hb Hn. unfold blocks_at. destruct (_ && _) eqn:E; [|done]. intros [= <-]. zbool.
  assert ((b + n) * bs <= block_count d * bs) by (apply Z.mul_le_mono_nonneg_r; pose proof (bs_pos d); lia).
  pose proof (bs_pos d). assert (0 <= b * bs) by (apply Z.mul_nonneg_nonneg; lia). rewrite dev_size in HC.
  split; [rewrite length_slice; nia|by apply bytes_slice].
Qed.

Lemma c_load C offset a c0 :
  Z.of_nat (length C) = size d -> bytes C -> a mod 8 = 0 -> 0 <= offset -> offset + bs < 2 ^ 64 ->
  Z.of_nat (length c0) = bs + 16384 -> drop (Z.to_nat bs) c0 = zeroes ->
  computes C (gpt_load d offset a c0) (gpt_loaded C offset).
Proof.
  intros HC Hbytes Ha Ho Hob Hc0 Hz. pose proof bs_facts as (Hb & _ & Hb8).
  unfold gpt_load, gpt_loaded. rewrite (BLOCK_SIZE_eq d), DIV_CEIL_LOG2_div by lia.
  set (hb := u32 _). assert (Hhb : in_word 32 hb) by (apply wrapw_range; lia). destruct Hhb.
  eapply c_ext; [eapply (c_bind _ _ _ _ (fun c1 =>
    let h := take (Z.to_nat bs) c1 in
    if header_ok (block_count d) h then t ← table_at lg (block_count d) C h; Some (h ++ t) else None))|].
  - eapply (c_map_err C _ _ TEGRABL_ERR_GPT); [by vm_compute|].
    apply c_read_block; [by apply (aligned_dma d)|lia..].
  - intros c1. destruct (blocks_at _ _ C hb 1) as [h|] eqn:Eh; [|done]. cbn [mbind option_bind]. intros [= <-].
    destruct (blocks_at_facts C hb 1 h HC Hbytes) as [Hlh Hbh]; [lia|lia|done|].
    assert (E1 : blit c0 0 h = h ++ zeroes).
    { unfold blit. rewrite take_0, <- Hz. cbn [app]. do 2 f_equal. lia. }
    rewrite E1. assert (Eh1 : take (Z.to_nat bs) (h ++ zeroes) = h) by (rewrite take_app_le, take_ge by lia; done).
    assert (Eh2 : drop (Z.to_nat bs) (h ++ zeroes) = zeroes).
    { replace (Z.to_nat bs) with (length h) by lia. apply drop_app_length. }
    rewrite Eh1, Eh2. cbv zeta.
    replace (num_entries (h ++ zeroes)) with (num_entries h) by (unfold num_entries; rewrite ldn_app_l by lia; done).
    replace (entry_size (h ++ zeroes)) with (entry_size h) by (unfold entry_size; rewrite ldn_app_l by lia; done).
    replace (table_start_lba (h ++ zeroes)) with (table_start_lba h) by (unfold table_start_lba; rewrite ldn_app_l by lia; done).
    replace (table_crc32 (h ++ zeroes)) with (table_crc32 h) by (unfold table_crc32; rewrite ldn_app_l by lia; done).
    unfold header_ok. rewrite <- (header_prefix h zeroes) by lia.
    eapply c_ext; [apply c_validate, c_fail_if; [intros _; by vm_compute|intros Hn; apply c_fail_if; [intros _; by vm_compute|intros He]]|].
    + unfold TEGRABL_GPT_MAX_PARTITION_ENTRIES in Hn. unfold GPT_ENTRY_LEN in He. zbool.
      apply (c_table C a h); done.
    + destruct (tegrabl_gpt_validate_header _ _); try done. unfold TEGRABL_GPT_MAX_PARTITION_ENTRIES, GPT_ENTRY_LEN.
      destruct (Z.ltb_spec 128 (num_entries h)), (Z.ltb_spec 128 (entry_size h)),
        (Z.leb_spec (num_entries h) 128), (Z.leb_spec (entry_size h) 128); done || lia.
  - unfold blocks_at. destruct (_ && _) eqn:E; [|done]. cbn [mbind option_bind]. cbv zeta. zbool.
    set (h := slice C _ _). assert (Hlh : Z.of_nat (length h) = bs).
    { destruct (blocks_at_facts C hb 1 h HC Hbytes); [lia|lia| |lia]. unfold blocks_at. by rewrite (proj2 (andb_true_iff _ _)) by lia. }
    assert (E1 : take (Z.to_nat bs) (blit c0 0 h) = h).
    { unfold blit. rewrite take_0. cbn [app]. by rewrite take_app_le, take_ge by lia. }
    by rewrite E1.
Qed.

Lemma loaded_table C o : Z.of_nat (length C) = size d -> bytes C ->
  gpt_at lg (block_count d) C o = (c ← gpt_loaded C o; Some (drop (Z.to_nat bs) c)).
Proof.
  intros HC Hbytes. unfold gpt_at, gpt_loaded. set (hb := u32 _).
  assert (Hhb : in_word 32 hb) by (apply wrapw_range; lia). destruct Hhb.
  destruct (blocks_at _ _ C hb 1) as [h|] eqn:Eh; [|done]. cbn [mbind option_bind].
  destruct (blocks_at_facts C hb 1 h HC Hbytes) as [Hlh _]; [lia|lia|done|].
  destruct (header_ok _ h); [|done]. destruct (table_at _ _ C h) as [t|]; [|done]. cbn [mbind option_bind].
  replace (Z.to_nat bs) with (length h) by lia. by rewrite drop_app_length.
Qed.

Lemma offsets_fit offset : 0 <= offset -> offset + bs < 2 ^ 64 -> 0 < block_count d ->
  Forall (fun o => 0 <= o /\ o + bs < 2 ^ 64) (gpt_offsets d offset).
Proof.
  intros Ho Hob Hbc. pose proof bs_facts as (Hb & _). pose proof (size_bound d) as Hs. pose proof (dev_size (d := d)) as Es.
  unfold gpt_offsets. rewrite (BLOCK_SIZE_eq d), (wrapw_small 32 bs) by (unfold in_word; lia).
  assert (bs <= size d) by nia. rewrite wrapw_small by (unfold in_word; lia).
  destruct (0 <? offset); repeat constructor; lia.
Qed.

Section Publish.
Variable C : list Z.
Hypothesis HC : Z.of_nat (length C) = size d.
Hypothesis Hbytes : bytes C.

(** The outcome of the search: what is found is what the content holds. *)
Definition found (f : option (list Z)) (r : outcome gpt_result) : Prop :=
  match f with
  | Some c => exists a sz, r = Ret (TEGRABL_NO_ERROR, Some (a, c), sz)
  | None => exists e sz, e <> 0 /\ r = Ret (e, None, sz)
  end.

Lemma gpt_size : u32 (u32 (GPT_ENTRY_LEN * TEGRABL_GPT_MAX_PARTITION_ENTRIES) + bs) = bs + 16384.
Proof.
  pose proof bs_facts as (? & _). change (u32 (GPT_ENTRY_LEN * TEGRABL_GPT_MAX_PARTITION_ENTRIES)) with 16384.
  rewrite wrapw_small by (unfold in_word; lia). lia.
Qed.

Lemma drop_zeroes : drop (Z.to_nat bs) (repeat 0 (Z.to_nat (bs + 16384))) = zeroes.
Proof.
  pose proof bs_facts as (? & _). rewrite Z2Nat.inj_add, repeat_app by lia.
  rewrite drop_app_ge by (rewrite repeat_length; lia). rewrite repeat_length, Nat.sub_diag, drop_0. reflexivity.
Qed.

Lemma read_validate_run offset sz w : content w = C -> 0 <= offset -> offset + bs < 2 ^ 64 ->
  let '(r, w') := tegrabl_gpt_read_validate (Some d) offset None sz w in
  elsewhere w w' /\ content w' = C /\ found (gpt_loaded C offset) r.
Proof.
  intros Hw Ho Hob. pose proof bs_facts as (Hb & _). unfold tegrabl_gpt_read_validate, gpt_buffer.
  rewrite (BLOCK_SIZE_eq d), gpt_size. unfold bind at 1 2.
  pose proof (dma_alloc w 4096 (bs + 16384) ltac:(lia) (or_intror eq_refl)) as Ha.
  destruct (tegrabl_alloc_align _ 4096 _ w) as [[[[a c]|]|e| | |] w1]; destruct Ha as (He & Hc & Ha); try done.
  cbn [ret]. destruct Ha as (Ha & Ha8 & Hlc). destruct (Z.ltb_spec (bs + 16384) (bs + 16384)); [lia|].
  set (c0 := blit c 0 _). assert (E0 : c0 = repeat 0 (Z.to_nat (bs + 16384))) by (apply blit_full; rewrite repeat_length; lia).
  pose proof (c_load C offset a c0 HC Hbytes Ha8 Ho Hob) as Hl.
  specialize (Hl ltac:(rewrite E0, repeat_length; lia) ltac:(rewrite E0; apply drop_zeroes) w1 ltac:(congruence)).
  unfold bind, code. destruct (gpt_load d offset a c0 w1) as [[c'|e| | |] w2]; destruct Hl as (He2 & Hc2 & Hr);
    destruct (gpt_loaded C offset) as [c''|]; try done; (split; [by etrans|]); (split; [done|]).
  - subst c''. by exists a, (bs + 16384).
  - by exists e, (bs + 16384).
Qed.

Lemma try_run os : forall sz w, content w = C -> Forall (fun o => 0 <= o /\ o + bs < 2 ^ 64) os ->
  let '(r, w') := gpt_try (Some d) os None sz w in
  elsewhere w w' /\ content w' = C /\
  match first_gpt lg (block_count d) C os with
  | Some t => exists a c sz', r = Ret (TEGRABL_NO_ERROR, Some (a, c), sz') /\ drop (Z.to_nat bs) c = t
  | None => exists sz', r = Ret (TEGRABL_ERROR TEGRABL_ERR_NOT_FOUND 0, None, sz')
  end.
Proof.
  induction os as [|o os IH]; intros sz w Hw Hos; cbn [gpt_try first_gpt].
  - split; [reflexivity|]. split; [done|]. by exists sz.
  - apply Forall_cons in Hos as [[Ho1 Ho2] Hos]. pose proof (read_validate_run o sz w Hw Ho1 Ho2) as Hr.
    unfold bind. rewrite (loaded_table C o HC Hbytes).
    destruct (tegrabl_gpt_read_validate (Some d) o None sz w) as [r w1]. destruct Hr as (He & Hc & Hf).
    destruct (gpt_loaded C o) as [c|]; cbn [found mbind option_bind] in *.
    + destruct Hf as (a & sz' & ->). split; [done|]. split; [done|]. by exists a, c, sz'.
    + destruct Hf as (e & sz' & Hne & ->). destruct (Z.eqb_spec e TEGRABL_NO_ERROR); [done|].
      specialize (IH sz' w1 Hc Hos). destruct (gpt_try _ _ _ _ _) as [r w2]. destruct IH as (He2 & Hc2 & Hr).
      split; [by etrans|done].
Qed.
End Publish.
End Device.

(** A device and a heap that serve every valid request; an allocation of no
    bytes is refused. *)
Definition serves {W} `{DmaHeap W} `{HeapApi W} (d : bdev W) `{!FlatDevice d} : Prop :=
  ~ may_fail /\ forall w n,
    let '(r, w') := heap_malloc n w in
    elsewhere w w' /\ content w' = content w /\
    match r with Ret (Some _) => 0 < n | Ret None => n <= 0 | _ => False end.

(** What publishing a device with the given content gives. *)
Definition published_as {W} (d : bdev W) (C : list Z) (offset : Z) (r : outcome (Z * list partition_info)) : Prop :=
  match first_gpt (block_size_log2 d) (block_count d) C (gpt_offsets d offset) with
  | Some t => match used_entries t with
              | [] => r = Err (TEGRABL_ERROR TEGRABL_ERR_NO_MEMORY 1)
              | es => exists a, r = Ret (a, map (entry_info (block_size_log2 d)) es)
              end
  | None => r = Err (TEGRABL_ERROR TEGRABL_ERR_NOT_FOUND 0)
  end.

Lemma gpt_publish_run {W} `{DmaHeap W} `{HeapApi W} (d : bdev W) `{!FlatDevice d} offset w :
  9 <= block_size_log2 d <= 14 -> 0 < block_count d < 2 ^ 32 - 32 -> serves d ->
  bytes (content w) -> 0 <= offset -> offset + 2 ^ block_size_log2 d < 2 ^ 64 ->
  let '(r, w') := tegrabl_gpt_publish (Some d) offset w in
  content w' = content w /\ published_as d (content w) offset r.
Proof.
  intros Hlg Hcount [Hworks Hheap] Hbytes Ho Hob. set (C := content w).
  assert (HC : Z.of_nat (length C) = size d) by apply dev_length.
  pose proof (offsets_fit d Hlg Hcount offset Ho Hob ltac:(lia)) as Hfit.
  pose proof (try_run d Hlg Hcount Hworks C HC Hbytes (gpt_offsets d offset) 0 w eq_refl Hfit) as Ht.
  unfold tegrabl_gpt_publish, tegrabl_gpt_read. unfold bind at 1.
  destruct (gpt_try (Some d) (gpt_offsets d offset) None 0 w) as [r w1]. destruct Ht as (_ & Hc1 & Hr).
  assert (Hfree : forall a w2, content w2 = C -> exists w3, tegrabl_dealloc TEGRABL_HEAP_DMA a w2 = (Ret tt, w3) /\ content w3 = C).
  { intros a w2 Hw2. pose proof (dma_free w2 a) as Hf. destruct (tegrabl_dealloc _ a w2) as [r3 w3].
    destruct Hf as (_ & Hf & ->). exists w3. split; [done|congruence]. }
  unfold published_as. destruct (first_gpt _ _ C _) as [t|].
  - destruct Hr as (a & c & sz & -> & Hd). cbn [negb Z.eqb TEGRABL_NO_ERROR].
    rewrite (BLOCK_SIZE_eq d), Hd. change (negb (TEGRABL_NO_ERROR =? TEGRABL_NO_ERROR)) with false. cbn iota.
    assert (Hle : (length (used_entries t) <= 128)%nat).
    { unfold used_entries. etrans; [apply length_filter|].
      assert (Hn : forall n b, length (table_entries n b) = n) by (intros n; induction n; intros b; cbn; [done|by rewrite IHn]).
      by rewrite Hn. }
    rewrite wrapw_small by (unfold PARTITION_INFO_LEN, in_word; lia). unfold bind at 1.
    pose proof (Hheap w1 (PARTITION_INFO_LEN * Z.of_nat (length (used_entries t)))) as Hm.
    destruct (heap_malloc _ w1) as [[[p|]|e| | |] w2]; destruct Hm as (_ & Hc2 & Hm); try done;
      destruct (Hfree a w2 ltac:(congruence)) as (w3 & Ef & Hc3); unfold bind; rewrite Ef; (split; [done|]).
    + destruct (used_entries t); [cbn in Hm; lia|by exists p].
    + destruct (used_entries t); [done|]. cbn [length] in Hm. unfold PARTITION_INFO_LEN in Hm. lia.
  - destruct Hr as (sz & ->). destruct (Hfree 0 w1 Hc1) as (w3 & Ef & Hc3).
    change (negb (TEGRABL_ERROR TEGRABL_ERR_NOT_FOUND 0 =? TEGRABL_NO_ERROR)) with true. cbn iota.
    unfold bind. rewrite Ef. by split.
Qed.

(** Publishing finds the partition table of a device: the one at the
    given offset, or without one the primary table and, when that does not pass
    the checks, the one in the last block.  The partitions are the used entries
    in their order.  A table without a used entry ends in an out-of-memory
    error, because the allocator refuses to allocate nothing.  Nothing is
    written. *)
Theorem gpt_publish_finds {W} `{DmaHeap W} `{HeapApi W} (d : bdev W) `{!FlatDevice d} offset w :
  9 <= block_size_log2 d <= 14 -> 0 < block_count d < 2 ^ 32 - 32 -> serves d ->
  bytes (content w) -> 0 <= offset -> offset + 2 ^ block_size_log2 d < 2 ^ 64 ->
  let '(r, w') := tegrabl_gpt_publish (Some d) offset w in
  content w' = content w /\ published_as d (content w) offset r.
Proof. apply gpt_publish_run. Qed.

(** ** A disk with two partitions *)

Definition sample_guid (k : Z) : list Z := map (fun i => k + Z.of_nat i) (seq 0 16).
Definition sample_entry (k first last : Z) (name : list Z) : list Z :=
  take 128 (sample_guid k ++ sample_guid (k + 16) ++ le 8 first ++ le 8 last ++ le 8 0 ++
            flat_map (fun c => le 2 c) name ++ repeat 0 128).
(** Entries for blocks 3 to 4, nothing, block 5 only, and blocks 6 to 7. *)
Definition sample_table : list Z :=
  sample_entry 16 3 4 [75; 69] ++ repeat 0 128 ++ sample_entry 64 5 5 [88] ++ sample_entry 128 6 7 [68; 84; 66].
Definition sample_header : list Z :=
  let fields crc := signature ++ le 4 0x10000 ++ le 4 0x5C ++ le 4 crc ++ le 4 0 ++ le 8 1 ++ le 8 8 ++ le 8 3 ++ le 8 7 ++
    sample_guid 0 ++ le 8 2 ++ le 4 4 ++ le 4 128 ++ le 4 (tegrabl_utils_crc32 0 sample_table) in
  fields (tegrabl_utils_crc32 0 (fields 0)) ++ repeat 0 420.
Definition sample_disk : list Z := repeat 0 512 ++ sample_header ++ sample_table ++ flat_map (fun k => repeat k 512) [3; 4; 5; 6; 7; 8].

Definition disk_lg : Z := 9.
Definition gpt_disk : bdev (list Z) := ram_disk disk_lg 9 0x30000.
#[export] Instance gpt_device : FlatDevice gpt_disk.
Proof. apply disk_device; unfold disk_lg, in_word; lia. Defined.
#[export] Instance disk_malloc : HeapApi (list Z) := {
  heap_malloc n := ret (if 0 <? n then Some 4096 else None);
  heap_free _ := ret tt;
}.

Lemma gpt_disk_serves : serves gpt_disk.
Proof.
  split; [by intros ?|]. intros w n. cbn. split; [done|]. split; [done|]. destruct (Z.ltb_spec 0 n); lia.
Qed.

Lemma gpt_publish_finds_witness :
  exists a, (tegrabl_gpt_publish (Some gpt_disk) 0 sample_disk).1 =
  Ret (a, [mk_pinfo [75; 69] (guid_to_str (sample_guid 32)) (guid_to_str (sample_guid 16)) 3 2 1024;
       mk_pinfo [68; 84; 66] (guid_to_str (sample_guid 144)) (guid_to_str (sample_guid 128)) 6 2 1024]).
Proof.
  assert (Hb : bytes (content (d := gpt_disk) sample_disk)) by (apply bytes_dec; vm_compute; reflexivity).
  assert (Hc : 0 < block_count gpt_disk < 2 ^ 32 - 32) by (cbn; lia).
  assert (Hlg : 9 <= block_size_log2 gpt_disk <= 14) by (cbn; unfold disk_lg; lia).
  pose proof (gpt_publish_finds gpt_disk 0 sample_disk Hlg Hc gpt_disk_serves Hb ltac:(lia) ltac:(cbn; unfold disk_lg; lia)) as Hp.
  unfold published_as in Hp. set (f := first_gpt _ _ _ _) in Hp.
  assert (Ef : f = Some (sample_table ++ repeat 0 (Z.to_nat 15872))) by (vm_compute; reflexivity). rewrite Ef in Hp.
  set (es := used_entries _) in Hp.
  assert (Ee : es = [sample_entry 16 3 4 [75; 69]; sample_entry 128 6 7 [68; 84; 66]]) by (vm_compute; reflexivity).
  rewrite Ee in Hp. destruct (tegrabl_gpt_publish (Some gpt_disk) 0 sample_disk) as [r w'].
  destruct Hp as (_ & a & ->). exists a. vm_compute. reflexivity.
Defined.

(** What the checks leave out.  The checksum covers the number of entries
    the header gives, but all 128 places of the buffer are published: an entry
    behind the end of the table, in the same block, becomes a partition however
    it is changed.  An entry whose first and last block are the same, which is a
    partition of one block, is skipped. *)
Theorem gpt_publishes_unchecked :
  let table x := sample_entry 16 3 4 [75; 69] ++ sample_entry 64 5 x [88] ++ repeat 0 256 in
  let fields crc := signature ++ le 4 0x10000 ++ le 4 0x5C ++ le 4 crc ++ le 4 0 ++ le 8 1 ++ le 8 8 ++ le 8 3 ++ le 8 7 ++
    sample_guid 0 ++ le 8 2 ++ le 4 1 ++ le 4 128 ++ le 4 (tegrabl_utils_crc32 0 (sample_entry 16 3 4 [75; 69])) in
  let disk_of x := repeat 0 512 ++ fields (tegrabl_utils_crc32 0 (fields 0)) ++ repeat 0 420 ++ table x ++ repeat 0 3072 in
  let publish x := (tegrabl_gpt_publish (Some gpt_disk) 0 (disk_of x)).1 in
  let ranges x := match publish x with Ret (_, ps) => map (fun p => (start_sector p, num_sectors p)) ps | _ => [] end in
  ranges 5 = [(3, 2)] /\ ranges 6 = [(3, 2); (5, 2)] /\ ranges (2 ^ 40) = [(3, 2); (5, 2 ^ 40 - 4)].
Proof. vm_compute. by split_and!. Qed.
