(* ===== verification/Partition.v ===== *)
(** * Partitions

    lib/partition_manager/tegrabl_partition_manager.c: the published partitions
    of all devices, opening one by its name, and access to it; and the A/B
    naming of partitions (lib/a_b_boot/tegrabl_a_b_partition_naming.c).

    A handle holds the record it points to in the table of its device by value:
    the table does not change while it is published.  A function that updates
    the caller's handle returns the error code and the new handle.  The list
    that records writes for later verification is left out: no build file sets
    CONFIG_ENABLE_RECOVERY_VERIFY_WRITE. *)
From stdpp Require Import gmap.
From S2P Require Import Prelude Interfaces Errors BlockDev Gpt.
#[local] Open Scope Z_scope.

Definition MODULE : Z := TEGRABL_ERR_PARTITION_MANAGER.
Definition TEGRABL_ERROR (reason aux_info : Z) : Z := tegrabl_error_value MODULE aux_info reason.
Definition SET_HIGHEST_MODULE (e : Z) : Z := tegrabl_err_set_highest_module e MODULE.

Definition AUX_INFO_PARTITION_LOOKUP_ERR : Z := 20.
Definition AUX_INFO_PARTITION_BOOT_LOOKUP_ERR : Z := 21.
Definition AUX_INFO_PARTITION_NOT_FOUND : Z := 22.
Definition AUX_INFO_PARTITION_NOT_INIT : Z := 23.
Definition AUX_INFO_PARTITION_GUID_NOT_FOUND : Z := 24.
Definition TEGRABL_PARTITION_SEEK_SET : Z := 0.
Definition TEGRABL_PARTITION_SEEK_CUR : Z := 1.
Definition TEGRABL_PARTITION_SEEK_END : Z := 2.
Definition ROOTFS_A : Z := 0.
Definition ROOTFS_B : Z := 1.
Definition GUID_STR_LEN : nat := 36.

(** ** A/B partition names *)

Definition BOOT_CHAIN_SUFFIX_A : list Z := [95; 97].
Definition BOOT_CHAIN_SUFFIX_B : list Z := [95; 98].
Definition BOOT_CHAIN_SUFFIX_LEN : nat := 2.

(** [strncmp(a, b, strlen(a)) == 0] *)
Definition is_prefix (a b : list Z) : bool := bool_decide (take (length a) b = a).

Definition tegrabl_a_b_match_part_name (part_name full_part_name : list Z) : bool :=
  if negb (is_prefix part_name full_part_name) then false
  else
    let suffix := drop (length part_name) full_part_name in
    bool_decide (length part_name = length full_part_name) || bool_decide (suffix = BOOT_CHAIN_SUFFIX_A).

Definition tegrabl_a_b_match_part_name_with_suffix (part_name full_part_name : list Z) : bool :=
  if is_prefix part_name full_part_name then
    let suffix := drop (length part_name) full_part_name in
    bool_decide (length full_part_name = length part_name) || bool_decide (BOOT_CHAIN_SUFFIX_A = suffix)
    || bool_decide (BOOT_CHAIN_SUFFIX_B = suffix)
  else false.

(** A name shorter than the suffix is read in front of its first character. *)
Definition tegrabl_a_b_get_part_suffix (part : option (list Z)) : outcome (list Z) :=
  match part with
  | None => Halt
  | Some part =>
      if (length part <? BOOT_CHAIN_SUFFIX_LEN)%nat then Undef
      else Ret (if bool_decide (drop (length part - BOOT_CHAIN_SUFFIX_LEN) part = BOOT_CHAIN_SUFFIX_B)
                then BOOT_CHAIN_SUFFIX_B else BOOT_CHAIN_SUFFIX_A)
  end.

Definition tolower (c : Z) : Z := if (65 <=? c) && (c <=? 90) then c + 32 else c.

(** [strncasecmp(a, b, n) == 0]; a list ends with its terminator. *)
Fixpoint same_text (n : nat) (a b : list Z) : bool :=
  match n, a, b with
  | O, _, _ => true
  | S n, x :: a, y :: b => (tolower x =? tolower y) && same_text n a b
  | S n, [], [] => true
  | S n, _, _ => false
  end.

(** ** Data *)

(** [struct tegrabl_storage_info]: its address, that of the device, and the
    address and the content of the array of partitions. *)
Record storage_info := mk_storage { si_addr : Z; si_bdev : Z; si_table : Z; si_partitions : list partition_info }.

(** [struct tegrabl_partition] *)
Record partition := mk_partition {
  p_info : option partition_info;
  block_device : option Z;
  offset : Z;
}.
Definition cleared : partition := mk_partition None None 0.

(** [storage_list] is [None] before the initialisation. *)
Record manager (W : Type) := mk_manager { storage_list : option (list storage_info); fw : framework W }.
Arguments mk_manager {W}. Arguments storage_list {W}. Arguments fw {W}.

Section Manager.
Context {W : Type} `{DmaHeap W} `{HeapApi W}.

(** The build option CONFIG_ENABLE_A_B_SLOT. *)
Variable CONFIG_ENABLE_A_B_SLOT : bool.

(** Calls that act on the framework, and on the world behind it. *)
Definition on_fw {A} (c : M (framework W) A) : M (manager W) A := fun s =>
  let '(o, f) := c (fw s) in (o, mk_manager (storage_list s) f).
Definition on_dev {A} (a : Z) (c : option (bdev W) -> M W A) : M (manager W) A :=
  on_fw (let! d := deref a in on_world (c (Some d))).
Definition set_storage (l : list storage_info) (s : manager W) : manager W := mk_manager (Some l) (fw s).

(** The error code of a call whose value is not used. *)
Definition error_of {S A} (c : M S A) : M S Z :=
  let! r := code c in ret (match r with inl _ => TEGRABL_NO_ERROR | inr e => e end).

(** ** Lookup *)

Definition match_partition_name (partition_name name : list Z) : bool :=
  if CONFIG_ENABLE_A_B_SLOT then tegrabl_a_b_match_part_name partition_name name
  else bool_decide (partition_name = name).

(** The first partition that satisfies [f], on the devices that satisfy [sel]. *)
Fixpoint find_partition (sel : Z -> bool) (f : partition_info -> bool) (l : list storage_info) :
    option (partition_info * Z) :=
  match l with
  | [] => None
  | entry :: l =>
      if sel (si_bdev entry) then
        match find (fun i => f i) (si_partitions entry) with
        | Some i => Some (i, si_bdev entry)
        | None => find_partition sel f l
        end
      else find_partition sel f l
  end.

(** A handle for what was found, or a cleared one with the error. *)
Definition found_or (r : option (partition_info * Z)) (e : Z) : Z * option partition :=
  match r with
  | Some (i, dev) => (TEGRABL_NO_ERROR, Some (mk_partition (Some i) (Some dev) 0))
  | None => (e, Some cleared)
  end.

Definition tegrabl_partition_lookup_bdev (partition_name : option (list Z)) (p : option partition) (bdev : option Z) :
    M (manager W) (Z * option partition) :=
  match partition_name, p, bdev with
  | Some name, Some _, Some dev =>
      let! s := get in
      match storage_list s with
      | None => ret (TEGRABL_ERROR TEGRABL_ERR_NOT_INITIALIZED AUX_INFO_PARTITION_NOT_INIT, p)
      | Some l =>
          ret (found_or (find_partition (fun b => b =? dev) (fun i => bool_decide (pi_name i = name)) l)
                 (TEGRABL_ERROR TEGRABL_ERR_NOT_FOUND AUX_INFO_PARTITION_NOT_FOUND))
      end
  | _, _, _ => ret (TEGRABL_ERROR TEGRABL_ERR_INVALID AUX_INFO_PARTITION_LOOKUP_ERR, p)
  end.

Definition tegrabl_partition_open (partition_name : option (list Z)) (p : option partition) :
    M (manager W) (Z * option partition) :=
  match partition_name, p with
  | Some name, Some _ =>
      let! s := get in
      match storage_list s with
      | None => ret (TEGRABL_ERROR TEGRABL_ERR_NOT_INITIALIZED AUX_INFO_PARTITION_NOT_INIT, p)
      | Some l =>
          ret (found_or (find_partition (fun _ => true) (fun i => match_partition_name (pi_name i) name) l)
                 (TEGRABL_ERROR TEGRABL_ERR_NOT_FOUND 0))
      end
  | _, _ => ret (TEGRABL_ERROR TEGRABL_ERR_INVALID 19, p)
  end.

(** The boot partition of a device: the first one with the type guid, else the
    root file system that is active, else the first partition.  [rootfs] is what
    [tegrabl_a_b_get_current_rootfs_id(NULL, &rootfs_id)] returns.  After the
    loop [entry] is computed from the head of the list: its [bdev] lies behind
    the allocation that holds the head. *)
Definition tegrabl_partition_boot_guid_lookup_bdev (pt_type_guid : list Z) (p : option partition) (bdev : option Z)
    (rootfs : outcome Z) : M (manager W) (Z * option partition) :=
  match p, bdev with
  | Some _, Some dev =>
      let! s := get in
      match storage_list s with
      | None => undef
      | Some l =>
          match find_partition (fun b => b =? dev) (fun i => same_text GUID_STR_LEN (pi_ptype_guid i) pt_type_guid) l with
          | Some r => ret (found_or (Some r) 0)
          | None =>
              if negb (existsb (fun e => si_bdev e =? dev) l)
              then ret (TEGRABL_ERROR TEGRABL_ERR_NOT_FOUND AUX_INFO_PARTITION_GUID_NOT_FOUND, Some cleared)
              else if negb CONFIG_ENABLE_A_B_SLOT then undef
              else
                match rootfs with
                | Ret rootfs_id =>
                    if rootfs_id =? ROOTFS_A then tegrabl_partition_lookup_bdev (Some [65; 80; 80]) p bdev
                    else if rootfs_id =? ROOTFS_B then tegrabl_partition_lookup_bdev (Some [65; 80; 80; 95; 98]) p bdev
                    else ret (TEGRABL_ERROR TEGRABL_ERR_INVALID 0, p)
                | Err _ => undef
                | Halt => halt
                | Undef => undef
                | Fuel => nofuel
                end
          end
      end
  | _, _ => ret (TEGRABL_ERROR TEGRABL_ERR_INVALID AUX_INFO_PARTITION_BOOT_LOOKUP_ERR, p)
  end.

Definition tegrabl_partition_size (p : option partition) : Z :=
  match p with
  | Some p => match p_info p with Some i => total_size i | None => 0 end
  | None => 0
  end.

Definition tegrabl_partition_close (p : option partition) : option partition :=
  match p with Some _ => Some cleared | None => None end.

(** [nvpt]: the function of the other kind of table, when it is built in. *)
Definition tegrabl_partition_pt_has_3_levels (nvpt : option (outcome bool)) (info : bool) : outcome bool :=
  if negb info then Err (TEGRABL_ERROR TEGRABL_ERR_BAD_PARAMETER 0)
  else match nvpt with
       | Some r => r
       | None => Err (TEGRABL_ERROR TEGRABL_ERR_NOT_SUPPORTED 0)
       end.

(** ** Access *)

Definition tegrabl_partition_erase (p : option partition) (secure : bool) : M (manager W) unit :=
  match p with
  | None => err (TEGRABL_ERROR TEGRABL_ERR_INVALID 1)
  | Some p =>
      match p_info p, block_device p with
      | Some i, Some dev =>
          map_err SET_HIGHEST_MODULE
            (on_dev dev (fun d => tegrabl_blockdev_erase d (u32 (start_sector i)) (u32 (num_sectors i)) secure))
      | _, _ => err (TEGRABL_ERROR TEGRABL_ERR_NOT_INITIALIZED 2)
      end
  end.

(** The byte on the device the handle stands at. *)
Definition device_offset (i : partition_info) (off log2 : Z) : Z :=
  u64 (off + u64 (Z.shiftl (start_sector i) log2)).

Definition advance_offset (p : partition) (n : Z) : partition :=
  mk_partition (p_info p) (block_device p) (u64 (offset p + n)).

(** [addr] is the address of the buffer and [buf] its content. *)
Definition tegrabl_partition_write (p : option partition) (addr : Z) (buf : list Z) (num_bytes : Z) :
    M (manager W) (Z * option partition) :=
  match p with
  | None => ret (TEGRABL_ERROR TEGRABL_ERR_INVALID 2, p)
  | Some h =>
      if (addr =? 0) || (num_bytes =? 0) then ret (TEGRABL_ERROR TEGRABL_ERR_INVALID 2, p)
      else
        match p_info h, block_device h with
        | Some i, Some dev =>
            if total_size i <? u64 (num_bytes + offset h) then ret (TEGRABL_ERROR TEGRABL_ERR_OVERFLOW 0, p)
            else
              let! error := error_of (map_err SET_HIGHEST_MODULE
                (on_dev dev (fun d =>
                   let log2 := match d with Some d => block_size_log2 d | None => 0 end in
                   tegrabl_blockdev_write d addr buf (device_offset i (offset h) log2) num_bytes))) in
              ret (error, Some (advance_offset h num_bytes))
        | _, _ => ret (TEGRABL_ERROR TEGRABL_ERR_NOT_INITIALIZED 3, p)
        end
  end.

(** The new content of the buffer is returned with the handle. *)
Definition tegrabl_partition_read (p : option partition) (addr : Z) (buf : list Z) (num_bytes : Z) :
    M (manager W) (Z * list Z * option partition) :=
  match p with
  | None => ret (TEGRABL_ERROR TEGRABL_ERR_INVALID 4, buf, p)
  | Some h =>
      if (addr =? 0) || (num_bytes =? 0) then ret (TEGRABL_ERROR TEGRABL_ERR_INVALID 4, buf, p)
      else
        match p_info h, block_device h with
        | Some i, Some dev =>
            if total_size i <? u64 (num_bytes + offset h) then ret (TEGRABL_ERROR TEGRABL_ERR_OVERFLOW 1, buf, p)
            else
              let! r := code (map_err SET_HIGHEST_MODULE
                (on_dev dev (fun d =>
                   let log2 := match d with Some d => block_size_log2 d | None => 0 end in
                   tegrabl_blockdev_read d addr buf (device_offset i (offset h) log2) num_bytes))) in
              match r with
              | inr error => ret (error, buf, p)
              | inl buf => ret (TEGRABL_NO_ERROR, buf, Some (advance_offset h num_bytes))
              end
        | _, _ => ret (TEGRABL_ERROR TEGRABL_ERR_NOT_INITIALIZED 4, buf, p)
        end
  end.

Definition tegrabl_partition_start_in_block (p : option partition) (start : bool) : outcome Z :=
  match p with
  | None => Err (TEGRABL_ERROR TEGRABL_ERR_INVALID 3)
  | Some p =>
      if negb start then Err (TEGRABL_ERROR TEGRABL_ERR_INVALID 3)
      else match p_info p with
           | None => Err (TEGRABL_ERROR TEGRABL_ERR_NOT_INITIALIZED 4)
           | Some i => Ret (u32 (start_sector i))
           end
  end.

(** Signed 64-bit arithmetic; an overflow of the sum is undefined. *)
Definition tegrabl_partition_seek (p : option partition) (off origin : Z) : outcome partition :=
  match p with
  | None => Err (TEGRABL_ERROR TEGRABL_ERR_INVALID 5)
  | Some h =>
      match p_info h, block_device h with
      | Some i, Some dev =>
          let? base := (if origin =? TEGRABL_PARTITION_SEEK_SET then Ret 0
                        else if origin =? TEGRABL_PARTITION_SEEK_CUR then Ret (s64 (offset h))
                        else if origin =? TEGRABL_PARTITION_SEEK_END then Ret (s64 (total_size i))
                        else Err (TEGRABL_ERROR TEGRABL_ERR_INVALID 6)) in
          let new_offset := base + off in
          if negb (s64 new_offset =? new_offset) then Undef
          else if new_offset <? 0 then Err (TEGRABL_ERROR TEGRABL_ERR_UNDERFLOW 0)
          else if total_size i <? u64 new_offset then Err (TEGRABL_ERROR TEGRABL_ERR_OVERFLOW 2)
          else Ret (mk_partition (p_info h) (block_device h) (u64 new_offset))
      | _, _ => Err (TEGRABL_ERROR TEGRABL_ERR_NOT_INITIALIZED 5)
      end
  end.

Definition tegrabl_partition_tell (p : option partition) : Z :=
  match p with
  | Some (mk_partition (Some _) (Some _) off) => s64 off
  | _ => -1
  end.

(** ** Transfers in the background *)

Definition lift_heap {A} (c : M W A) : M (manager W) A := on_fw (on_world c).

(** The structure of the transfer; the caller gets it whatever the driver
    says. *)
Definition start_xfer (dev : Z) (buf : Z) (i : partition_info) (start_sector_ num_sectors_ no_memory : Z) :
    M (manager W) (Z * option xfer_info) :=
  let! m := lift_heap (heap_malloc 48) in
  match m with
  | None => ret (TEGRABL_ERROR TEGRABL_ERR_INVALID no_memory, None)
  | Some _ =>
      let x := mk_xfer TEGRABL_BLOCKDEV_READ buf (u32 (start_sector i + start_sector_)) (u32 num_sectors_) true 0 in
      let! r := code (on_fw (tegrabl_blockdev_xfer (Some (dev, x)))) in
      ret (match r with inl x => (TEGRABL_NO_ERROR, Some x) | inr e => (e, Some x) end)
  end.

Definition tegrabl_partition_async_read (p : option partition) (buf start_sector_ num_sectors_ : Z) :
    M (manager W) (Z * option xfer_info) :=
  match p with
  | None => ret (TEGRABL_ERROR TEGRABL_ERR_INVALID 7, None)
  | Some h =>
      if (buf =? 0) || (num_sectors_ =? 0) then ret (TEGRABL_ERROR TEGRABL_ERR_INVALID 7, None)
      else
        match p_info h, block_device h with
        | Some i, Some dev =>
            if num_sectors i <? u64 (start_sector_ + num_sectors_) then ret (TEGRABL_ERROR TEGRABL_ERR_INVALID 9, None)
            else start_xfer dev buf i start_sector_ num_sectors_ 10
        | _, _ => ret (TEGRABL_ERROR TEGRABL_ERR_INVALID 8, None)
        end
  end.

(** The type of the transfer is that of a read here too. *)
Definition tegrabl_partition_async_write (p : option partition) (buf start_sector_ num_sectors_ : Z) :
    M (manager W) (Z * option xfer_info) :=
  match p with
  | None => ret (TEGRABL_ERROR TEGRABL_ERR_INVALID 11, None)
  | Some h =>
      if (buf =? 0) || (num_sectors_ =? 0) then ret (TEGRABL_ERROR TEGRABL_ERR_INVALID 11, None)
      else
        match p_info h, block_device h with
        | Some i, Some dev =>
            if num_sectors i <? u64 (start_sector_ + num_sectors_) then ret (TEGRABL_ERROR TEGRABL_ERR_INVALID 13, None)
            else start_xfer dev buf i start_sector_ num_sectors_ 14
        | _, _ => ret (TEGRABL_ERROR TEGRABL_ERR_INVALID 12, None)
        end
  end.

(** ** Publishing *)

(** The publishers that are built in ([tegrabl_gpt_publish], and one for NVPT
    tables whose code is not part of the repository). *)
Definition publisher : Type := option (bdev W) -> Z -> M W (Z * list partition_info).
Variable publish_partition : list (option publisher).

Definition set_published (b : bool) (d : bdev W) : bdev W :=
  mk_bdev (ref d) (device_id d) (size d) (block_size_log2 d) (block_count d) b (buf_align_size d)
    (read d) (write d) (read_block d) (write_block d) (xfer d) (xfer_wait d) (erase d) (ioctl d) (close d).

(** The loop over the publishers: the error after it, or [None] when the
    function leaves through its label before the flag is set. *)
Fixpoint try_publishers (ps : list (option publisher)) (dev : Z) (off : Z) : M (manager W) (option Z) :=
  match ps with
  | [] => ret (Some (TEGRABL_ERROR TEGRABL_ERR_NOT_SUPPORTED 0))
  | None :: ps => try_publishers ps dev off
  | Some f :: ps =>
      let! r := code (on_dev dev (fun d => f d off)) in
      match r with
      | inr _ => try_publishers ps dev off
      | inl (table, partitions) =>
          let! m := lift_heap (heap_malloc 40) in
          match m with
          | None => ret None
          | Some a =>
              let! s := get in
              match storage_list s with
              | None => undef
              | Some l => modify (set_storage (mk_storage a dev table partitions :: l)) ;;; ret (Some TEGRABL_NO_ERROR)
              end
          end
      end
  end.

Definition tegrabl_partition_publish (dev : option Z) (off : Z) : M (manager W) unit :=
  match dev with
  | None => err (TEGRABL_ERROR TEGRABL_ERR_INVALID 15)
  | Some a =>
      let! d := on_fw (deref a) in
      if published d then ret tt
      else
        let! r := try_publishers publish_partition a off in
        match r with
        | None => err (TEGRABL_ERROR TEGRABL_ERR_NO_MEMORY 0)
        | Some error =>
            let! d := on_fw (deref a) in
            on_fw (modify (set_device a (set_published (error =? TEGRABL_NO_ERROR) d))) ;;;
            if error =? TEGRABL_NO_ERROR then ret tt else err error
        end
  end.

(** The first entry of a device with the id of [dev] is removed. *)
Fixpoint remove_storage (id : Z) (l : list storage_info) : M (manager W) (list storage_info) :=
  match l with
  | [] => ret []
  | entry :: l =>
      let! d := on_fw (deref (si_bdev entry)) in
      if device_id d =? id then lift_heap (heap_free (si_table entry)) ;;; lift_heap (heap_free (si_addr entry)) ;;; ret l
      else let! l := remove_storage id l in ret (entry :: l)
  end.

Definition tegrabl_partitions_unpublish (dev : option Z) : M (manager W) unit :=
  match dev with
  | None => err (TEGRABL_ERROR TEGRABL_ERR_INVALID 16)
  | Some a =>
      let! d := on_fw (deref a) in
      if published d then
        let! s := get in
        match storage_list s with
        | None => err (TEGRABL_ERROR TEGRABL_ERR_NOT_INITIALIZED 0)
        | Some l =>
            let! l := remove_storage (device_id d) l in
            modify (set_storage l) ;;;
            on_fw (modify (set_device a (set_published false d)))
        end
      else ret tt
  end.

(** [while ((dev = tegrabl_blockdev_next_device(dev)) != NULL)] *)
Fixpoint for_devices (fuel : nat) (f : Z -> M (manager W) unit) (dev : option Z) : M (manager W) unit :=
  let! next := on_fw (tegrabl_blockdev_next_device dev) in
  match next with
  | None => ret tt
  | Some a =>
      match fuel with
      | O => nofuel
      | S fuel => f a ;;; for_devices fuel f (Some a)
      end
  end.

Definition device_fuel (s : manager W) : nat :=
  match bdevs (fw s) with Some l => length l | None => O end.

Definition tegrabl_partition_manager_init : M (manager W) unit :=
  let! m := lift_heap (heap_malloc 16) in
  fail_if (match m with None => true | Some _ => false end) (TEGRABL_ERROR TEGRABL_ERR_NO_MEMORY 1) ;;;
  modify (set_storage []) ;;;
  let! s := get in
  for_devices (device_fuel s) (fun a =>
    let! d := on_fw (deref a) in
    when (negb (tegrabl_blockdev_get_storage_type (Some d) =? TEGRABL_STORAGE_SDMMC_RPMB))
      (let! _ := error_of (tegrabl_partition_publish (Some a) 0) in ret tt)) None.

Definition tegrabl_partition_manager_flush_cache : M (manager W) unit :=
  let! s := get in
  for_devices (device_fuel s) (fun a =>
    let! _ := error_of (on_dev a (fun d => tegrabl_blockdev_ioctl d TEGRABL_IOCTL_DEVICE_CACHE_FLUSH a)) in ret tt) None.
End Manager.
