(* ===== verification/PartitionSpec.v ===== *)
(** * Partitions: correctness

    Access to a partition is access to its bytes on the device, and the
    partition manager is an implementation of the interface its clients are
    proved against. *)
From stdpp Require Import gmap.
From S2P Require Import Prelude Interfaces Errors Utils BlockDev BlockSpec Gpt GptSpec Partition.
#[local] Open Scope Z_scope.

Lemma u64_of_s64 x : s64 x = x -> 0 <= x -> u64 x = x.
Proof.
  intros Hs Hx. unfold signedw in Hs. pose proof (wrapw_range 64 x ltac:(lia)) as Hr.
  destruct (Z.ltb_spec (u64 x) (2 ^ (64 - 1))); [done|]. exfalso. destruct Hr. lia.
Qed.

(** ** One device *)

Section Device.
Context {W : Type} `{DmaHeap W} (d : bdev W) `{!FlatDevice d} (a : Z).
Notation lg := (block_size_log2 d).
Notation bs := (2 ^ block_size_log2 d).

(** The partition lies on the device. *)
Definition on_device (i : partition_info) : Prop :=
  0 <= start_sector i /\ 0 <= num_sectors i /\ start_sector i + num_sectors i <= block_count d /\
  total_size i = num_sectors i * bs.

Definition first_byte (i : partition_info) : Z := start_sector i * bs.
Definition inside (i : partition_info) (k : nat) : Prop :=
  first_byte i <= Z.of_nat k < first_byte i + total_size i.

(** The bytes of the partition. *)
Definition bytes_of (i : partition_info) (C : list Z) : list Z :=
  slice C (Z.to_nat (first_byte i)) (Z.to_nat (total_size i)).

(** A handle that stands at byte [off] of the partition. *)
Definition handle (i : partition_info) (off : Z) : partition := mk_partition (Some i) (Some a) off.

Definition with_world (s : manager W) (w : W) : manager W :=
  mk_manager (storage_list s) (mk_framework (bdevs (fw s)) (devices (fw s)) (xfer_id (fw s)) w).

Lemma with_world_same s : with_world s (bd_world (fw s)) = s.
Proof. by destruct s as [l [b dv x w]]. Qed.

Lemma on_dev_run {A} (c : option (bdev W) -> M W A) s r w' :
  devices (fw s) !! a = Some d -> c (Some d) (bd_world (fw s)) = (r, w') ->
  on_dev a c s = (r, with_world s w').
Proof.
  intros Ha Hc. unfold on_dev, on_fw, bind, deref. rewrite Ha. unfold on_world. by rewrite Hc.
Qed.

Lemma device_range i off n : on_device i -> 0 <= off -> 0 < n -> off + n <= total_size i ->
  device_offset i off lg = first_byte i + off /\ 0 <= first_byte i /\ first_byte i + off + n <= size d /\
  (total_size i <? u64 (n + off)) = false.
Proof.
  intros (H1 & H2 & H3 & H4) Ho Hn Hb. pose proof (bs_pos d) as Hbs. pose proof (size_bound d) as Hs.
  assert (E : (start_sector i + num_sectors i) * bs <= size d).
  { rewrite dev_size. apply Z.mul_le_mono_nonneg_r; lia. }
  assert (0 <= first_byte i) by (apply Z.mul_nonneg_nonneg; lia). unfold first_byte in *.
  unfold device_offset. pose proof (dev_log2 (d := d)). rewrite Z.shiftl_mul_pow2 by lia.
  rewrite (wrapw_small 64 (start_sector i * bs)), wrapw_small, (wrapw_small 64 (n + off)) by (unfold in_word; lia).
  split_and!; lia.
Qed.

(** The blocks of a range inside the partition are blocks of the partition. *)
Lemma range_in_partition i off n : on_device i -> 0 <= off -> 0 < n -> off + n <= total_size i ->
  first_byte i <= (first_byte i + off) / bs * bs /\
  (first_byte i + off + n + bs - 1) / bs * bs <= first_byte i + total_size i.
Proof.
  intros (H1 & H2 & H3 & H4) Ho Hn Hb. pose proof (bs_pos d) as Hbs. unfold first_byte.
  replace (start_sector i * bs + off) with (off + start_sector i * bs) by lia. rewrite Z.div_add by lia.
  pose proof (Z.div_pos off bs Ho Hbs). split; [nia|].
  replace (off + start_sector i * bs + n + bs - 1) with (off + n + bs - 1 + start_sector i * bs) by lia.
  rewrite Z.div_add by lia.
  assert ((off + n + bs - 1) / bs <= num_sectors i) by (apply Z.lt_succ_r, Z.div_lt_upper_bound; lia). nia.
Qed.

Lemma slice_bytes_of i C off n : on_device i -> 0 <= off -> 0 <= n -> off + n <= total_size i ->
  slice C (Z.to_nat (first_byte i + off)) (Z.to_nat n) = slice (bytes_of i C) (Z.to_nat off) (Z.to_nat n).
Proof.
  intros (H1 & H2 & H3 & H4) Ho Hn Hb. pose proof (bs_pos d) as Hbs.
  assert (0 <= first_byte i) by (apply Z.mul_nonneg_nonneg; lia).
  apply list_eq. intros k. unfold bytes_of. rewrite !lookup_slice.
  destruct (decide (k < Z.to_nat n)%nat); [|done]. destruct (decide _); [|lia]. f_equal. lia.
Qed.

Lemma length_bytes_of i w : on_device i -> Z.of_nat (length (bytes_of i (content w))) = total_size i.
Proof.
  intros Hi. pose proof Hi as (H1 & H2 & H3 & H4). pose proof (dev_length (d := d) w) as Hl. pose proof (bs_pos d) as Hbs.
  assert ((start_sector i + num_sectors i) * bs <= size d) by (rewrite dev_size; apply Z.mul_le_mono_nonneg_r; lia).
  assert (0 <= first_byte i) by (apply Z.mul_nonneg_nonneg; lia). assert (0 <= num_sectors i * bs) by (apply Z.mul_nonneg_nonneg; lia).
  unfold first_byte in *. unfold bytes_of. rewrite length_slice. unfold first_byte. lia.
Qed.

Lemma bytes_of_blit i C off src : on_device i -> 0 <= off -> off + Z.of_nat (length src) <= total_size i ->
  first_byte i + total_size i <= Z.of_nat (length C) ->
  bytes_of i (blit C (Z.to_nat (first_byte i + off)) src) = blit (bytes_of i C) (Z.to_nat off) src.
Proof.
  intros (H1 & H2 & H3 & H4) Ho Hb HC. pose proof (bs_pos d) as Hbs.
  assert (0 <= first_byte i) by (apply Z.mul_nonneg_nonneg; lia).
  apply list_eq. intros k. unfold bytes_of. rewrite lookup_slice.
  rewrite (lookup_blit C) by lia. rewrite lookup_blit by (rewrite length_slice; lia). rewrite lookup_slice.
  destruct (decide (k < Z.to_nat (total_size i))%nat).
  - destruct (decide (Z.to_nat off <= k < _)%nat); destruct (decide (Z.to_nat (first_byte i + off) <= _ < _)%nat); try lia; [|done].
    f_equal. lia.
  - by destruct (decide _); [lia|].
Qed.

Lemma set_highest_module_nonzero e : SET_HIGHEST_MODULE e <> 0.
Proof. apply set_highest_nonzero. unfold MODULE, TEGRABL_ERR_PARTITION_MANAGER. lia. Qed.

Lemma advance_handle i off n : on_device i -> 0 <= off -> 0 < n -> off + n <= total_size i ->
  advance_offset (handle i off) n = handle i (off + n).
Proof.
  intros Hi Ho Hn Hb. destruct (device_range i off n Hi Ho Hn Hb) as (_ & ? & ? & _). pose proof (size_bound d).
  unfold advance_offset, handle. cbn [offset p_info block_device]. by rewrite wrapw_small by (unfold in_word; lia).
Qed.

Section Access.
Variables (s : manager W) (i : partition_info) (addr off n : Z) (buf : list Z).
Hypotheses (Ha : devices (fw s) !! a = Some d) (Hi : on_device i) (Haddr : 0 < addr) (Ho : 0 <= off) (Hn : 0 < n)
  (Hb : off + n <= total_size i) (Hbuf : n <= Z.of_nat (length buf)).
Notation w := (bd_world (fw s)).

Lemma read_run : read d = default_hook ->
  exists e b p w', tegrabl_partition_read (Some (handle i off)) addr buf n s = (Ret (e, b, Some p), with_world s w') /\
    elsewhere w w' /\ content w' = content w /\
    ((e = TEGRABL_NO_ERROR /\ b = blit buf 0 (slice (bytes_of i (content w)) (Z.to_nat off) (Z.to_nat n)) /\
        p = handle i (off + n)) \/
     (e <> TEGRABL_NO_ERROR /\ b = buf /\ p = handle i off /\ may_fail)).
Proof.
  intros Hr. destruct (device_range i off n Hi Ho Hn Hb) as (E1 & H1 & H2 & E2).
  pose proof (t_blockdev_read d addr (first_byte i + off) n buf (content w) Haddr ltac:(lia) Hn ltac:(lia) Hbuf
    (dev_length w) Hr w eq_refl) as Ht.
  unfold tegrabl_partition_read. cbn [p_info block_device handle]. destruct (Z.eqb_spec addr 0); [lia|].
  destruct (Z.eqb_spec n 0); [lia|]. cbn [orb]. change (offset (handle i off)) with off. cbn [offset]. rewrite E2.
  destruct (tegrabl_blockdev_read _ _ _ _ _ w) as [r w'] eqn:Er. destruct Ht as [He Hr'].
  assert (Ed : on_dev a (fun d' => tegrabl_blockdev_read d' addr buf
      (device_offset i off (match d' with Some d' => block_size_log2 d' | None => 0 end)) n) s = (r, with_world s w')).
  { apply on_dev_run; [done|]. by rewrite E1. }
  unfold bind, code, map_err. rewrite Ed. destruct r as [b|e| | |]; try done.
  - destruct Hr' as [Hc ->]. exists TEGRABL_NO_ERROR. do 3 eexists. split; [reflexivity|]. split; [done|]. split; [done|].
    left. split; [done|]. split; [|by apply (advance_handle i off n)]. by rewrite slice_bytes_of by (done || lia).
  - destruct Hr' as [Hm Hc]. do 4 eexists. split; [reflexivity|]. split; [done|]. split; [done|].
    right. split_and!; [apply set_highest_module_nonzero|done|done|done].
Qed.

Lemma write_run : write d = default_hook ->
  exists e w', tegrabl_partition_write (Some (handle i off)) addr buf n s =
      (Ret (e, Some (handle i (off + n))), with_world s w') /\
    elsewhere w w' /\ (forall k, ~ inside i k -> content w' !! k = content w !! k) /\
    ((e = TEGRABL_NO_ERROR /\ bytes_of i (content w') = blit (bytes_of i (content w)) (Z.to_nat off) (take (Z.to_nat n) buf)) \/
     (e <> TEGRABL_NO_ERROR /\ may_fail)).
Proof.
  intros Hr. destruct (device_range i off n Hi Ho Hn Hb) as (E1 & H1 & H2 & E2).
  destruct (range_in_partition i off n Hi Ho Hn Hb) as [R1 R2].
  pose proof (dev_length w) as HC. pose proof (length_bytes_of i w Hi) as Hlb.
  pose proof (t_blockdev_write d addr (first_byte i + off) n buf (content w) Haddr ltac:(lia) Hn ltac:(lia) Hbuf
    HC Hr w eq_refl) as Ht.
  unfold tegrabl_partition_write. cbn [p_info block_device handle]. destruct (Z.eqb_spec addr 0); [lia|].
  destruct (Z.eqb_spec n 0); [lia|]. cbn [orb]. change (offset (handle i off)) with off. cbn [offset]. rewrite E2.
  destruct (tegrabl_blockdev_write _ _ _ _ _ w) as [r w'] eqn:Er. destruct Ht as [He Hr'].
  assert (Ed : on_dev a (fun d' => tegrabl_blockdev_write d' addr buf
      (device_offset i off (match d' with Some d' => block_size_log2 d' | None => 0 end)) n) s = (r, with_world s w')).
  { apply on_dev_run; [done|]. by rewrite E1. }
  assert (Hlt : length (take (Z.to_nat n) buf) = Z.to_nat n) by (rewrite length_take; lia).
  unfold error_of, bind, code, map_err. rewrite Ed. rewrite (advance_handle i off n) by done.
  destruct r as [b|e| | |]; try done; do 2 eexists; (split; [reflexivity|]); (split; [done|]).
  - rewrite <- Hr'. split.
    + intros k Hk. rewrite lookup_blit by (rewrite Hlt; lia). rewrite Hlt. unfold inside in Hk. by destruct (decide _); [lia|].
    + left. split; [done|]. assert (first_byte i + total_size i <= size d).
      { unfold bytes_of in Hlb. rewrite length_slice in Hlb. lia. }
      apply bytes_of_blit; [done|lia|lia|lia].
  - destruct Hr' as [Hm Hout]. split.
    + intros k Hk. apply Hout. unfold inside in Hk. lia.
    + right. split; [apply set_highest_module_nonzero|done].
Qed.
End Access.

Lemma erase_run s i off secure : devices (fw s) !! a = Some d -> on_device i ->
  exists r w', tegrabl_partition_erase (Some (handle i off)) secure s = (r, with_world s w') /\
    elsewhere (bd_world (fw s)) w' /\ forall k, ~ inside i k -> content w' !! k = content (bd_world (fw s)) !! k.
Proof.
  intros Ha Hi. pose proof Hi as (H1 & H2 & H3 & H4). pose proof (dev_count (d := d)) as [_ Hc].
  unfold tegrabl_partition_erase. cbn [p_info block_device handle].
  rewrite !wrapw_small by (unfold in_word; lia). unfold map_err.
  assert (Hw : forall r w', tegrabl_blockdev_erase (Some d) (start_sector i) (num_sectors i) secure (bd_world (fw s)) = (r, w') ->
    elsewhere (bd_world (fw s)) w' /\ forall k, ~ inside i k -> content w' !! k = content (bd_world (fw s)) !! k).
  { intros r w' E. unfold tegrabl_blockdev_erase in E. pose proof dev_ref.
    destruct (Z.eqb_spec (num_sectors i) 0) as [E0|E0]; [cbn in E; injection E as <- <-; done|].
    rewrite bind_fail_if in E by lia.
    rewrite bind_fail_if in E by (apply (guard_range d); lia). rewrite bind_fail_if in E by lia. unfold map_err in E.
    pose proof (dev_erase (bd_world (fw s)) (start_sector i) (num_sectors i) secure H1 ltac:(lia) H3) as Hd.
    destruct (erase d _ _ _ _) as [r0 w0]. destruct Hd as [He Hk].
    assert (w' = w0) as -> by (destruct r0; congruence). split; [done|]. intros k Hin. apply Hk.
    unfold inside, first_byte in Hin. rewrite H4 in Hin. nia. }
  destruct (tegrabl_blockdev_erase _ _ _ _ _) as [r w'] eqn:E. specialize (Hw r w' eq_refl).
  rewrite (on_dev_run _ s r w') by done. destruct r; do 2 eexists; (split; [reflexivity|done]).
Qed.
End Device.

(** ** Partitions that do not overlap *)

Definition apart (i j : partition_info) : Prop :=
  start_sector i + num_sectors i <= start_sector j \/ start_sector j + num_sectors j <= start_sector i.

Lemma apart_bytes {W} `{DmaHeap W} (d : bdev W) `{!FlatDevice d} i j C C' :
  on_device d i -> on_device d j -> apart i j ->
  (forall k, ~ inside d i k -> C' !! k = C !! k) -> bytes_of d j C' = bytes_of d j C.
Proof.
  intros (H1 & H2 & H3 & H4) (G1 & G2 & G3 & G4) Hij Hk. pose proof (bs_pos d) as Hbs.
  apply list_eq. intros k. unfold bytes_of. rewrite !lookup_slice. destruct (decide _) as [Hlt|]; [|done].
  apply Hk. unfold inside, first_byte in *. rewrite H4. rewrite G4 in Hlt.
  assert (0 <= start_sector j * 2 ^ block_size_log2 d) by (apply Z.mul_nonneg_nonneg; lia).
  intros [K1 K2]. destruct Hij.
  - assert ((start_sector i + num_sectors i) * 2 ^ block_size_log2 d <= start_sector j * 2 ^ block_size_log2 d)
      by (apply Z.mul_le_mono_nonneg_r; lia). lia.
  - assert ((start_sector j + num_sectors j) * 2 ^ block_size_log2 d <= start_sector i * 2 ^ block_size_log2 d)
      by (apply Z.mul_le_mono_nonneg_r; lia). lia.
Qed.

(** ** The interface of the clients

    [s0]: a state of the partition manager in which the partitions of one
    device, [d] at address [a], are published.  A client names a partition and
    owns a position in it; each call opens the partition, which restores the
    handle, and carries on with the function of Partition.v.  A buffer takes less
    than half of the address space. *)

Section Implementation.
Context {W : Type} `{DmaHeap W} `{HeapApi W} (d : bdev W) `{!FlatDevice d} (a : Z).
Variables (AB : bool) (s0 : manager W) (parts : list partition_info) (x table addr : Z).
Hypotheses (Hd : devices (fw s0) !! a = Some d) (Hs : storage_list s0 = Some [mk_storage x a table parts])
  (Hr : read d = default_hook) (Hw : write d = default_hook) (Haddr : 0 < addr)
  (Hon : Forall (on_device d) parts) (Hapart : forall i j, i ∈ parts -> j ∈ parts -> i = j \/ apart i j).

Definition named (n : list Z) : option partition_info := find (fun i => match_partition_name AB (pi_name i) n) parts.

(** Running a call of the partition manager on the world. *)
Definition run {A} (c : M (manager W) A) : M W A := fun w =>
  let '(r, s) := c (with_world s0 w) in (r, bd_world (fw s)).

(** The handle of an open partition at a position. *)
Definition opened (p : list Z * Z) : M (manager W) (option partition) :=
  let! r := tegrabl_partition_open AB (Some p.1) (Some cleared) in
  if r.1 =? TEGRABL_NO_ERROR then ret (option_map (fun h => mk_partition (p_info h) (block_device h) p.2) r.2)
  else err r.1.

Definition fits (p : list Z * Z) (n : Z) : bool := (0 <=? p.2) && (p.2 <? 2 ^ 63) && (0 <=? n) && (n <? 2 ^ 63).

Definition lift_error {A} (e : Z) (v : A) : M (manager W) A := if e =? TEGRABL_NO_ERROR then ret v else err e.

Definition api_open (name : list Z) : M W (list Z * Z) :=
  run (let! _ := opened (name, 0) in ret (name, 0)).
Definition api_seek (p : list Z * Z) (off origin : Z) : M W (list Z * Z) :=
  run (let! h := opened p in
       match tegrabl_partition_seek h off origin with
       | Ret h' => ret (p.1, offset h')
       | Err e => err e
       | Halt => halt
       | Undef => undef
       | Fuel => nofuel
       end).
Definition api_read (p : list Z * Z) (n : Z) : M W (list Z * (list Z * Z)) :=
  run (if negb (fits p n) then undef else
       let! h := opened p in
       let! r := tegrabl_partition_read h addr (repeat 0 (Z.to_nat n)) n in
       lift_error r.1.1 (r.1.2, (p.1, default 0 (offset <$> r.2)))).
Definition api_write (p : list Z * Z) (data : list Z) : M W (list Z * Z) :=
  run (let n := Z.of_nat (length data) in
       if negb (fits p n) then undef else
       let! h := opened p in
       let! r := tegrabl_partition_write h addr data n in
       lift_error r.1 (p.1, default 0 (offset <$> r.2))).
Definition api_erase (p : list Z * Z) (secure : bool) : M W unit :=
  run (let! h := opened p in tegrabl_partition_erase h secure).

Definition disk_partitions : PartitionApi W (list Z * Z) := {|
  partition_open := api_open; partition_seek := api_seek; partition_read := api_read;
  partition_write := api_write; partition_erase := api_erase; partition_storage_type _ := tegrabl_blockdev_get_storage_type (Some d) |}.
#[local] Existing Instance disk_partitions.

Lemma opened_run p w : opened p (with_world s0 w) =
  match named p.1 with
  | Some i => (Ret (Some (handle a i p.2)), with_world s0 w)
  | None => (Err (TEGRABL_ERROR TEGRABL_ERR_NOT_FOUND 0), with_world s0 w)
  end.
Proof.
  unfold opened, tegrabl_partition_open, named, bind, get. cbn [storage_list with_world]. rewrite Hs.
  unfold find_partition. cbn [si_partitions si_bdev]. destruct (find _ parts) as [i|]; reflexivity.
Qed.

Lemma named_in n i : named n = Some i -> i ∈ parts.
Proof. intros Hn. apply find_some in Hn as [Hn _]. by apply list_elem_of_In. Qed.

Definition disk_content (w : W) (n : list Z) : option (list Z) := (fun i => bytes_of d i (content w)) <$> named n.
Definition same_partition (m n : list Z) : Prop := exists i, named m = Some i /\ named n = Some i.

Lemma others_kept n i w w' : named n = Some i ->
  (forall k, ~ inside d i k -> content w' !! k = content w !! k) ->
  forall m, ~ same_partition m n -> disk_content w' m = disk_content w m.
Proof.
  intros Hn Hk m Hm. unfold disk_content. destruct (named m) as [j|] eqn:Ej; [|done]. cbn. f_equal.
  pose proof (named_in _ _ Hn) as Ii. pose proof (named_in _ _ Ej) as Ij. rewrite Forall_forall in Hon.
  destruct (Hapart i j Ii Ij) as [->|Hij]; [destruct Hm; by exists j|].
  apply (apart_bytes d i j); auto.
Qed.

(** A call on an open partition is the call on its handle; on a name that does
    not exist it fails and changes nothing. *)
Lemma run_opened {A} p (f : option partition -> M (manager W) A) w r w' :
  run (let! h := opened p in f h) w = (r, w') ->
  (named p.1 = None /\ (exists e, r = Err e) /\ w' = w) \/
  (exists i s, named p.1 = Some i /\ f (Some (handle a i p.2)) (with_world s0 w) = (r, s) /\ w' = bd_world (fw s)).
Proof.
  unfold run, bind. rewrite opened_run. destruct (named p.1) as [i|].
  - destruct (f _ _) as [r1 s1] eqn:Ef. intros [= <- <-]. right. by exists i, s1.
  - intros [= <- <-]. left. split; [done|]. split; [by eexists|done].
Qed.

Lemma api_open_law n w r w' : api_open n w = (r, w') ->
  (forall m, disk_content w' m = disk_content w m) /\ (forall p, r = Ret p -> p.1 = n).
Proof.
  intros E. apply run_opened in E as [(_ & [e ->] & ->)|(i & s & _ & [= <- <-] & ->)]; [done|].
  split; [done|]. by intros p [= <-].
Qed.

Lemma api_seek_law p off w r w' : api_seek p off 0 w = (r, w') ->
  (forall m, disk_content w' m = disk_content w m) /\ (forall p', r = Ret p' -> p'.1 = p.1 /\ p'.2 = off).
Proof.
  intros E. apply run_opened in E as [(_ & [e ->] & ->)|(i & s & Hn & E & ->)]; [done|].
  unfold tegrabl_partition_seek, handle in E. cbn [p_info block_device Z.eqb TEGRABL_PARTITION_SEEK_SET obind] in E.
  change (0 =? TEGRABL_PARTITION_SEEK_SET) with true in E. cbn iota in E. cbn [obind] in E. rewrite Z.add_0_l in E.
  destruct (Z.eqb_spec (s64 off) off) as [Es|]; [cbn [negb] in E|by injection E as <- <-]. destruct (Z.ltb_spec off 0); [by injection E as <- <-|].
  destruct (Z.ltb_spec (total_size i) (u64 off)); injection E as <- <-; [done|]. split; [done|]. intros p' [= <-]. split; [done|].
  cbn [snd offset]. by apply u64_of_s64.
Qed.

Lemma out_of_range (i : partition_info) off n : 0 <= off -> off < 2 ^ 63 -> 0 <= n -> n < 2 ^ 63 ->
  ~ (0 < n /\ off + n <= total_size i) -> n = 0 \/ total_size i <? u64 (n + off) = true.
Proof. intros. rewrite wrapw_small by (unfold in_word; lia). lia. Qed.

Lemma api_read_law p n w r w' : api_read p n w = (r, w') ->
  (forall m, disk_content w' m = disk_content w m) /\
  (forall data p', r = Ret (data, p') -> exists b, disk_content w p.1 = Some b /\
     data = slice b (Z.to_nat p.2) (Z.to_nat n) /\ length data = Z.to_nat n).
Proof.
  intros E. unfold api_read in E. destruct (fits p n) eqn:Ef; cbn [negb] in E; [|by injection E as <- <-].
  apply run_opened in E as [(_ & [e ->] & ->)|(i & s & Hn & E & ->)]; [done|].
  unfold fits in Ef. zbool. pose proof (named_in _ _ Hn) as Hi. rewrite Forall_forall in Hon. specialize (Hon i Hi).
  destruct (decide (0 < n /\ p.2 + n <= total_size i)) as [[Hpos Hin]|Hout].
  - edestruct (read_run d a (with_world s0 w) i addr p.2 n (repeat 0 (Z.to_nat n))) as (e & b & h & w2 & Er & _ & Hc & Hres);
      try done; [rewrite repeat_length; lia|].
    unfold bind in E. rewrite Er in E. cbn [fst snd fw with_world bd_world] in *.
    unfold lift_error in E. destruct Hres as [(-> & -> & ->)|(He & -> & -> & _)].
    + injection E as <- <-. split; [by intros m; unfold disk_content; cbn; rewrite Hc|].
      intros data p' [= <- <-]. exists (bytes_of d i (content w)). unfold disk_content. rewrite Hn. split; [done|].
      pose proof (length_bytes_of d i w Hon) as Hl.
      assert (Hls : length (slice (bytes_of d i (content w)) (Z.to_nat p.2) (Z.to_nat n)) = Z.to_nat n)
        by (rewrite length_slice; lia).
      rewrite blit_full by (rewrite repeat_length; done). done.
    + destruct (Z.eqb_spec e TEGRABL_NO_ERROR); [done|]. injection E as <- <-.
      split; [by intros m; unfold disk_content; cbn; rewrite Hc|done].
  - destruct (out_of_range i p.2 n) as [E0|E0]; [done..| |];
      unfold tegrabl_partition_read, handle, bind in E; cbn [p_info block_device offset] in E;
      rewrite E0, (proj2 (Z.eqb_neq addr 0)) in E by lia; cbn [orb] in E; [by injection E as <- <-|].
    destruct (n =? 0); by injection E as <- <-.
Qed.

Lemma api_write_law p data w r w' : api_write p data w = (r, w') ->
  (forall m, ~ same_partition m p.1 -> disk_content w' m = disk_content w m) /\
  (forall p', r = Ret p' -> exists b, disk_content w' p.1 = Some b /\ slice b (Z.to_nat p.2) (length data) = data).
Proof.
  intros E. unfold api_write in E. set (n := Z.of_nat (length data)) in *.
  destruct (fits p n) eqn:Ef; cbn [negb] in E; [|by injection E as <- <-].
  apply run_opened in E as [(_ & [e ->] & ->)|(i & s & Hn & E & ->)]; [done|].
  unfold fits in Ef. zbool. pose proof (named_in _ _ Hn) as Hi. pose proof Hon as Hall. rewrite Forall_forall in Hall.
  specialize (Hall i Hi).
  destruct (decide (0 < n /\ p.2 + n <= total_size i)) as [[Hpos Hin]|Hout].
  - edestruct (write_run d a (with_world s0 w) i addr p.2 n data) as (e & w2 & Er & _ & Hk & Hres); try done.
    unfold bind in E. rewrite Er in E. cbn [fst snd fw with_world bd_world] in *.
    unfold lift_error in E. destruct Hres as [(-> & Hbytes)|(He & _)].
    + injection E as <- <-. split; [by apply (others_kept _ i)|]. intros p' _.
      exists (bytes_of d i (content w2)). unfold disk_content. cbn. rewrite Hn. split; [done|].
      rewrite Hbytes, take_ge by lia. apply slice_blit. pose proof (length_bytes_of d i w Hall). lia.
    + destruct (Z.eqb_spec e TEGRABL_NO_ERROR); [done|]. injection E as <- <-. split; [by apply (others_kept _ i)|done].
  - destruct (out_of_range i p.2 n) as [E0|E0]; [done..| |];
      unfold tegrabl_partition_write, handle, bind in E; cbn [p_info block_device offset] in E;
      rewrite E0, (proj2 (Z.eqb_neq addr 0)) in E by lia; cbn [orb] in E; [by injection E as <- <-|].
    destruct (n =? 0); by injection E as <- <-.
Qed.

Lemma api_erase_law p secure w r w' : api_erase p secure w = (r, w') ->
  forall m, ~ same_partition m p.1 -> disk_content w' m = disk_content w m.
Proof.
  intros E. apply run_opened in E as [(_ & [e ->] & ->)|(i & s & Hn & E & ->)]; [done|].
  pose proof (named_in _ _ Hn) as Hi. pose proof Hon as Hall. rewrite Forall_forall in Hall.
  destruct (erase_run d a (with_world s0 w) i p.2 secure Hd (Hall i Hi)) as (r2 & w2 & Er & _ & Hk).
  rewrite Er in E. injection E as <- <-. by apply (others_kept _ i).
Qed.

Definition disk_partition_laws : PartitionLaws W (list Z * Z) := {|
  part_content := disk_content;
  part_name := fst;
  part_pos := snd;
  part_alias := same_partition;
  open_law := api_open_law; seek_law := api_seek_law; read_law := api_read_law;
  write_law := api_write_law; erase_law := api_erase_law;
|}.
End Implementation.

(** ** Theorems *)

(** C24.  Writing to an open partition.  Whatever the outcome, no other
    partition of the device changes and the handle ends up behind the range;
    when the call succeeds the bytes of the range are replaced and no others,
    and only a device that may fail makes it fail. *)
Theorem partition_write_confined {W} `{DmaHeap W} (d : bdev W) `{!FlatDevice d} a s i addr off n buf :
  devices (fw s) !! a = Some d -> write d = default_hook -> on_device d i ->
  0 < addr -> 0 <= off -> 0 < n -> off + n <= total_size i -> n <= Z.of_nat (length buf) ->
  exists e s', tegrabl_partition_write (Some (handle a i off)) addr buf n s = (Ret (e, Some (handle a i (off + n))), s') /\
    storage_list s' = storage_list s /\ devices (fw s') = devices (fw s) /\
    let before := content (d := d) (bd_world (fw s)) in
    let after := content (d := d) (bd_world (fw s')) in
    (forall j, on_device d j -> apart i j -> bytes_of d j after = bytes_of d j before) /\
    ((e = TEGRABL_NO_ERROR /\ bytes_of d i after = blit (bytes_of d i before) (Z.to_nat off) (take (Z.to_nat n) buf)) \/
     (e <> TEGRABL_NO_ERROR /\ may_fail)).
Proof.
  intros Hd Hw Hi Ha Ho Hn Hb Hl. destruct (write_run d a s i addr off n buf) as (e & w' & E & _ & Hk & Hr); try done.
  exists e, (with_world s w'). split; [done|]. split; [done|]. split; [done|]. split; [|done].
  intros j Hj Hij. by apply (apart_bytes d i j).
Qed.

(** What is written to a partition is read back: a write, a seek to where
    it began, and a read of as many bytes into a buffer give, on a device that
    does not fail, the written bytes in front of the rest of the buffer. *)
Theorem partition_write_read {W} `{DmaHeap W} (d : bdev W) `{!FlatDevice d} a s i addr off n buf buf' :
  devices (fw s) !! a = Some d -> read d = default_hook -> write d = default_hook -> ~ may_fail -> on_device d i ->
  0 < addr -> 0 <= off -> 0 < n -> off + n <= total_size i -> off < 2 ^ 63 ->
  n <= Z.of_nat (length buf) -> n <= Z.of_nat (length buf') ->
  exists s1 s2,
    tegrabl_partition_write (Some (handle a i off)) addr buf n s =
      (Ret (TEGRABL_NO_ERROR, Some (handle a i (off + n))), s1) /\
    tegrabl_partition_seek (Some (handle a i (off + n))) off TEGRABL_PARTITION_SEEK_SET = Ret (handle a i off) /\
    tegrabl_partition_read (Some (handle a i off)) addr buf' n s1 =
      (Ret (TEGRABL_NO_ERROR, blit buf' 0 (take (Z.to_nat n) buf), Some (handle a i (off + n))), s2).
Proof.
  intros Hd Hr Hw Hok Hi Ha Ho Hn Hb H63 Hl Hl'.
  destruct (write_run d a s i addr off n buf) as (e & w1 & E1 & _ & _ & [[-> Hc]|[_ Hf]]); try done.
  destruct (read_run d a (with_world s w1) i addr off n buf') as (e & b & p & w2 & E2 & _ & _ & [(-> & Hb2 & ->)|(_ & _ & _ & Hf)]);
    try done.
  do 2 eexists. split; [exact E1|]. split.
  - unfold tegrabl_partition_seek, handle. cbn [p_info block_device].
    change (TEGRABL_PARTITION_SEEK_SET =? TEGRABL_PARTITION_SEEK_SET) with true. cbn [obind]. rewrite Z.add_0_l. destruct (device_range d i off n Hi Ho Hn Hb) as (_ & ? & ? & _).
    assert (Eu : u64 off = off) by (apply wrapw_small; unfold in_word; lia).
    unfold signedw. rewrite Eu. destruct (Z.ltb_spec off (2 ^ (64 - 1))); [|lia]. rewrite Z.eqb_refl. cbn [negb].
    by destruct (Z.ltb_spec off 0), (Z.ltb_spec (total_size i) off); try lia.
  - rewrite E2, Hb2. cbn [fw with_world bd_world]. rewrite Hc. pose proof (length_bytes_of d i (bd_world (fw s)) Hi) as Hlb.
    assert (Hlt : length (take (Z.to_nat n) buf) = Z.to_nat n) by (rewrite length_take; lia).
    replace (slice (blit _ _ _) _ _) with (take (Z.to_nat n) buf); [reflexivity|].
    rewrite <- Hlt at 3. by rewrite slice_blit by lia.
Qed.

(** A transfer in the background never writes: for every valid request the
    structure the write function hands to the driver has the type of a read, so
    the call does what the read function does. *)
Theorem async_write_reads {W} `{HeapApi W} (a buf start n : Z) i off (s : manager W) :
  buf <> 0 -> n <> 0 -> u64 (start + n) <= num_sectors i ->
  (exists m, (heap_malloc 48 (bd_world (fw s))).1 = Ret (Some m)) ->
  tegrabl_partition_async_write (Some (handle a i off)) buf start n s =
  tegrabl_partition_async_read (Some (handle a i off)) buf start n s.
Proof.
  intros Hb Hn Hs [m Hm]. unfold tegrabl_partition_async_write, tegrabl_partition_async_read, handle.
  cbn [p_info block_device]. destruct (Z.eqb_spec buf 0), (Z.eqb_spec n 0); try done. cbn [orb].
  destruct (Z.ltb_spec (num_sectors i) (u64 (start + n))); [lia|]. unfold start_xfer, bind, lift_heap, on_fw, on_world.
  by destruct (heap_malloc 48 _) as [[[m'|]|e| | |] w'].
Qed.

(** The fallback of the boot partition lookup.  When the device has
    published partitions but none with the type guid, and no root file system
    slot is in use, the function builds a handle from a list entry that does not
    exist; without A/B support it always does. *)
Theorem boot_guid_fallback {W} AB guid p a e (s : manager W) l :
  storage_list s = Some l ->
  (exists x, x ∈ l /\ si_bdev x = a) ->
  (forall x i, x ∈ l -> si_bdev x = a -> i ∈ si_partitions x -> same_text GUID_STR_LEN (pi_ptype_guid i) guid = false) ->
  tegrabl_partition_boot_guid_lookup_bdev AB guid (Some p) (Some a) (Err e) s = (Undef, s) /\
  forall rootfs, tegrabl_partition_boot_guid_lookup_bdev false guid (Some p) (Some a) rootfs s = (Undef, s).
Proof.
  intros Hl (x & Hx & Ex) Hno.
  assert (Hfind : forall l', (forall y, y ∈ l' -> y ∈ l) ->
    find_partition (fun b => b =? a) (fun i => same_text GUID_STR_LEN (pi_ptype_guid i) guid) l' = None).
  { induction l' as [|y l' IH]; intros Hsub; [done|]. cbn [find_partition].
    rewrite IH by (intros z Hz; apply Hsub; by right).
    destruct (Z.eqb_spec (si_bdev y) a) as [Ey|]; [|done].
    destruct (find _ _) as [i|] eqn:Ef; [|done]. apply find_some in Ef as [Hi Ht].
    rewrite (Hno y i) in Ht; [done|apply Hsub; by left|done|by apply list_elem_of_In]. }
  assert (Hex : existsb (fun y => si_bdev y =? a) l = true).
  { apply existsb_exists. exists x. split; [by apply list_elem_of_In|lia]. }
  unfold tegrabl_partition_boot_guid_lookup_bdev, bind, get. rewrite Hl, Hfind, Hex by done. cbn [negb].
  split; [by destruct AB|done].
Qed.

Lemma on_fw_deref {W} a d (s : manager W) : devices (fw s) !! a = Some d -> on_fw (deref a) s = (Ret d, s).
Proof. intros Hd. unfold on_fw, deref. rewrite Hd. by destruct s. Qed.

(** A publisher that finds a table ends the loop. *)
Lemma first_publisher {W} `{HeapApi W} (f : publisher) ps d a off (s : manager W) l tb parts w1 m w2 :
  devices (fw s) !! a = Some d -> f (Some d) off (bd_world (fw s)) = (Ret (tb, parts), w1) ->
  heap_malloc 40 w1 = (Ret (Some m), w2) -> storage_list s = Some l ->
  try_publishers (Some f :: ps) a off s =
    (Ret (Some TEGRABL_NO_ERROR), set_storage (mk_storage m a tb parts :: l) (with_world s w2)).
Proof.
  intros Hd Hf Hm Hs. cbn [try_publishers]. unfold bind, code. rewrite (on_dev_run d a _ s _ _ Hd Hf).
  unfold lift_heap, on_fw, on_world, get. cbn [fw with_world bd_world]. rewrite Hm. cbn [storage_list fw with_world]. by rewrite Hs.
Qed.

(** C25.  Publishing a device and opening a partition.  After the table of a
    device has been found, a name opens the first partition of the table that
    matches it, and a name the table does not have is looked up in the devices
    published before; nothing is written, and the device is marked. *)
Theorem publish_then_open {W} `{DmaHeap W} `{HeapApi W} AB (d : bdev W) `{!FlatDevice d} a l t (s : manager W) :
  9 <= block_size_log2 d <= 14 -> 0 < block_count d < 2 ^ 32 - 32 -> serves d ->
  devices (fw s) !! a = Some d -> published d = false -> storage_list s = Some l ->
  let C := content (d := d) (bd_world (fw s)) in
  bytes C -> first_gpt (block_size_log2 d) (block_count d) C (gpt_offsets d 0) = Some t -> used_entries t <> [] ->
  let parts := map (entry_info (block_size_log2 d)) (used_entries t) in
  exists s', tegrabl_partition_publish [Some tegrabl_gpt_publish] (Some a) 0 s = (Ret tt, s') /\
    devices (fw s') = <[a := set_published true d]> (devices (fw s)) /\
    content (d := d) (bd_world (fw s')) = C /\
    forall name, tegrabl_partition_open AB (Some name) (Some cleared) s' =
      (Ret match find (fun i => match_partition_name AB (pi_name i) name) parts with
           | Some i => (TEGRABL_NO_ERROR, Some (handle a i 0))
           | None => found_or (find_partition (fun _ => true) (fun i => match_partition_name AB (pi_name i) name) l)
                       (TEGRABL_ERROR TEGRABL_ERR_NOT_FOUND 0)
           end, s').
Proof.
  intros Hlg Hbc Hserves Hd Hpub Hs C Hbytes Ht Hes parts.
  pose proof (gpt_publish_run d 0 (bd_world (fw s)) Hlg Hbc Hserves Hbytes ltac:(lia)) as Hp.
  assert (2 ^ block_size_log2 d <= 2 ^ 14) by (apply Z.pow_le_mono_r; lia). specialize (Hp ltac:(lia)).
  unfold published_as in Hp. fold C in Hp. rewrite Ht in Hp.
  destruct (tegrabl_gpt_publish (Some d) 0 (bd_world (fw s))) as [r w1] eqn:Er. destruct Hp as [Hc1 Hp].
  assert (exists tb, r = Ret (tb, parts)) as [tb ->] by (unfold parts; destruct (used_entries t); [done|exact Hp]).
  destruct Hserves as [_ Hheap]. pose proof (Hheap w1 40) as Hm.
  destruct (heap_malloc 40 w1) as [[[m|]|e| | |] w2] eqn:Em; destruct Hm as (_ & Hc2 & Hm); try done; try lia.
  eexists. split.
  { unfold tegrabl_partition_publish, bind. rewrite (on_fw_deref a d) by done. rewrite Hpub. cbn iota beta.
    pose proof (first_publisher tegrabl_gpt_publish [] d a 0 s l _ _ _ m _ Hd Er Em Hs) as Hf.
    unfold publisher in *. rewrite Hf. by rewrite (on_fw_deref a d). }
  cbn [storage_list fw bd_world devices bdevs xfer_id set_device]. split; [done|]. split; [exact (eq_trans Hc2 Hc1)|].
  intros name. unfold tegrabl_partition_open, bind, get. cbn [storage_list set_storage find_partition si_bdev si_partitions].
  by destruct (find _ parts).
Qed.

(** ** The disk of GptSpec.v *)

Definition KERNEL : partition_info := mk_pinfo [75; 69] [] [] 3 2 1024.
Definition DTB : partition_info := mk_pinfo [68; 84; 66] [] [] 6 2 1024.
Definition disk_manager : manager (list Z) :=
  mk_manager (Some []) (mk_framework (Some [100]) {[ 100 := gpt_disk ]} 0 sample_disk).

Lemma disk_at_100 : devices (fw disk_manager) !! 100 = Some gpt_disk.
Proof. apply lookup_singleton_eq. Qed.

Lemma kernel_on_disk : on_device gpt_disk KERNEL.
Proof. unfold on_device. vm_compute. by split_and!. Qed.

Lemma dtb_on_disk : on_device gpt_disk DTB.
Proof. unfold on_device. vm_compute. by split_and!. Qed.

Lemma partition_write_confined_witness :
  exists e s', tegrabl_partition_write (Some (handle 100 KERNEL 510)) 4096 [7; 7; 7; 7] 4 disk_manager =
      (Ret (e, Some (handle 100 KERNEL 514)), s') /\
    bytes_of gpt_disk DTB (content (d := gpt_disk) (bd_world (fw s'))) = bytes_of gpt_disk DTB sample_disk /\
    (e = TEGRABL_NO_ERROR \/ may_fail).
Proof.
  destruct (partition_write_confined gpt_disk 100 disk_manager KERNEL 4096 510 4 [7; 7; 7; 7] disk_at_100 eq_refl
    kernel_on_disk ltac:(lia) ltac:(lia) ltac:(lia) ltac:(cbn; lia) ltac:(cbn; lia)) as (e & s' & E & _ & _ & Ho & Hr).
  exists e, s'. split; [exact E|]. split.
  - transitivity (bytes_of gpt_disk DTB (content (d := gpt_disk) (bd_world (fw disk_manager)))).
    + apply Ho; [apply dtb_on_disk|left; cbn; lia].
    + by vm_compute.
  - destruct Hr as [[? _]|[_ ?]]; [by left|by right].
Defined.

Lemma partition_write_read_witness :
  exists s1 s2,
    tegrabl_partition_write (Some (handle 100 KERNEL 510)) 4096 [7; 7; 7; 7] 4 disk_manager =
      (Ret (TEGRABL_NO_ERROR, Some (handle 100 KERNEL 514)), s1) /\
    tegrabl_partition_seek (Some (handle 100 KERNEL 514)) 510 TEGRABL_PARTITION_SEEK_SET = Ret (handle 100 KERNEL 510) /\
    tegrabl_partition_read (Some (handle 100 KERNEL 510)) 4096 [1; 2; 3; 4; 5] 4 s1 =
      (Ret (TEGRABL_NO_ERROR, [7; 7; 7; 7; 5], Some (handle 100 KERNEL 514)), s2).
Proof.
  apply (partition_write_read gpt_disk 100 disk_manager KERNEL 4096 510 4 [7; 7; 7; 7] [1; 2; 3; 4; 5] disk_at_100);
    [done|done|by intros ?|apply kernel_on_disk|lia..|cbn; lia|lia|cbn; lia|cbn; lia].
Defined.

Lemma async_write_reads_witness :
  tegrabl_partition_async_write (Some (handle 100 KERNEL 0)) 4096 0 2 disk_manager =
  tegrabl_partition_async_read (Some (handle 100 KERNEL 0)) 4096 0 2 disk_manager.
Proof. apply (async_write_reads 100 4096 0 2 KERNEL 0 disk_manager); [lia..|by vm_compute|by exists 4096]. Defined.

Lemma boot_guid_fallback_witness :
  let s := mk_manager (Some [mk_storage 200 100 300 [KERNEL; DTB]]) (fw disk_manager) in
  tegrabl_partition_boot_guid_lookup_bdev true (repeat 48 36) (Some cleared) (Some 100) (Err 1) s = (Undef, s) /\
  forall rootfs, tegrabl_partition_boot_guid_lookup_bdev false (repeat 48 36) (Some cleared) (Some 100) rootfs s = (Undef, s).
Proof.
  intros s. apply (boot_guid_fallback true _ cleared 100 1 s [mk_storage 200 100 300 [KERNEL; DTB]]); [done| |].
  - exists (mk_storage 200 100 300 [KERNEL; DTB]). split; [by left|done].
  - intros x i Hx _ Hi. apply list_elem_of_singleton in Hx as ->. cbn [si_partitions] in Hi.
    apply elem_of_cons in Hi as [->|Hi]; [done|]. by apply list_elem_of_singleton in Hi as ->.
Defined.

Lemma publish_then_open_witness :
  exists s', tegrabl_partition_publish [Some tegrabl_gpt_publish] (Some 100) 0 disk_manager = (Ret tt, s') /\
    tegrabl_partition_open true (Some [68; 84; 66]) (Some cleared) s' =
      (Ret (TEGRABL_NO_ERROR,
            Some (handle 100 (mk_pinfo [68; 84; 66] (guid_to_str (sample_guid 144)) (guid_to_str (sample_guid 128)) 6 2 1024) 0)), s').
Proof.
  set (t := sample_table ++ repeat 0 (Z.to_nat 15872)).
  destruct (publish_then_open true gpt_disk 100 [] t disk_manager) as (s' & E & _ & _ & Ho).
  - cbn. unfold disk_lg. lia.
  - cbn. lia.
  - apply gpt_disk_serves.
  - apply disk_at_100.
  - done.
  - done.
  - apply bytes_dec. vm_compute. reflexivity.
  - vm_compute. reflexivity.
  - vm_compute. discriminate.
  - exists s'. split; [exact E|]. rewrite Ho. f_equal.
Defined.
