(* ===== verification/MetadataDisk.v ===== *)
(** * A/B metadata on a partitioned disk

    The A/B boot control of AbBoot.v over the partition manager of Partition.v
    over the block device layer of BlockDev.v: the partition manager satisfies
    the interface the A/B code is proved against, so a promise of the A/B code
    becomes one about the bytes of a disk. *)
From stdpp Require Import gmap.
From S2P Require Import Prelude Interfaces Errors Utils BlockDev BlockSpec Gpt GptSpec Partition PartitionSpec AbBoot AbStorage.
#[local] Open Scope Z_scope.

(** The bytes of the partition [n] of the disk are metadata the loader takes. *)
Definition disk_good {W} `{DmaHeap W} (d : bdev W) `{!FlatDevice d} (AB : bool) (parts : list partition_info) (w : W)
    (n : list Z) : Prop :=
  exists i, named AB parts n = Some i /\ smd_check (slice (bytes_of d i (content (d := d) w)) 0 SMD_V2_LEN) = Ret tt.

(** C11.  Updating the A/B metadata on a disk.  The two copies lie in two
    partitions of a published table whose partitions do not overlap.  Whatever
    the outcome of a flush, which may fail at any block transfer of any of its
    calls, one of the two partitions holds metadata the loader takes, provided
    the one it was loaded from did; after success both do. *)
Theorem flush_survives_on_disk {W} `{DmaHeap W} (d : bdev W) `{!FlatDevice d} (AB : bool)
    (s0 : manager W) parts x a table addr qspi p (s : ab W) r s' :
  devices (fw s0) !! a = Some d -> storage_list s0 = Some [mk_storage x a table parts] ->
  read d = default_hook -> write d = default_hook -> 0 < addr ->
  Forall (on_device d) parts -> (forall i j, i ∈ parts -> j ∈ parts -> i = j \/ apart i j) ->
  (forall i, named AB parts PART_SMD = Some i -> named AB parts PART_SMD_B <> Some i) ->
  bytes (smd_mem s) -> length (smd_mem s) = SMD_V2_LEN -> ld32 (smd_mem s) SMD_MAGIC_OFF = BOOT_CHAIN_MAGIC ->
  current_smd s = SMD_COPY_PRIMARY \/ current_smd s = SMD_COPY_SECONDARY ->
  disk_good d AB parts (world s) (smd_part (current_smd s)) ->
  @tegrabl_a_b_flush_smd W _ (disk_partitions d AB s0 addr) qspi (Some p) s = (r, s') ->
  (disk_good d AB parts (world s') PART_SMD \/ disk_good d AB parts (world s') PART_SMD_B) /\
  (r = Ret tt -> disk_good d AB parts (world s') PART_SMD /\ disk_good d AB parts (world s') PART_SMD_B).
Proof.
  intros Hd Hs Hr Hw Ha Hon Hap Hne Hb Hl Hm Hcur Hgood Hrun.
  set (laws := disk_partition_laws d a AB s0 parts x table addr Hd Hs Hr Hw Ha Hon Hap).
  assert (Hgc : forall w c, @good_copy W _ _ laws w c <-> disk_good d AB parts w (smd_part c)).
  { intros w c. unfold good_copy, disk_good, part_content, laws, disk_partition_laws, disk_content.
    destruct (named AB parts (smd_part c)) as [i|]; cbn; split.
    - intros (b & [= <-] & Hc). by exists i.
    - intros (j & [= <-] & Hc). by eexists.
    - by intros (b & ? & _).
    - by intros (j & ? & _). }
  destruct (@flush_survives W _ _ laws qspi p s r s') as [H1 H2]; try done.
  - split; intros (i & E1 & E2); by apply (Hne i).
  - by apply Hgc.
  - split; [destruct H1 as [G|G]; apply Hgc in G; auto|]. intros E. destruct (H2 E) as [_ G].
    split; [apply (Hgc _ SMD_COPY_PRIMARY), G; by left|apply (Hgc _ SMD_COPY_SECONDARY), G; by right].
Qed.

(** ** A disk with two copies of the metadata *)

Definition SMD_A : partition_info := mk_pinfo PART_SMD [] [] 3 1 512.
Definition SMD_B : partition_info := mk_pinfo PART_SMD_B [] [] 4 1 512.
Definition metadata_manager : manager (list Z) :=
  mk_manager (Some [mk_storage 200 100 300 [SMD_A; SMD_B]]) (mk_framework (Some [100]) {[ 100 := gpt_disk ]} 0 []).
(** The first copy is good, the second one was never written. *)
Definition metadata_disk : list Z := repeat 0 (3 * 512) ++ good_smd ++ repeat 0 (6 * 512 - length good_smd).

Lemma flush_survives_on_disk_witness :
  let s := mk_ab metadata_disk SMD_COPY_PRIMARY (Some 4096) sample_smd (Some 8192) sample_smd in
  let r := @tegrabl_a_b_flush_smd (list Z) _ (disk_partitions gpt_disk true metadata_manager 4096) false (Some 4096) s in
  let good := disk_good gpt_disk true [SMD_A; SMD_B] (world r.2) in
  r.1 = Ret tt /\ (good PART_SMD \/ good PART_SMD_B) /\ (r.1 = Ret tt -> good PART_SMD /\ good PART_SMD_B).
Proof.
  intros s r good. split; [vm_compute; reflexivity|].
  apply (flush_survives_on_disk gpt_disk true metadata_manager [SMD_A; SMD_B] 200 100 300 4096 false 4096 s r.1 r.2).
  - apply lookup_singleton_eq.
  - done.
  - done.
  - done.
  - lia.
  - repeat constructor; vm_compute; discriminate || done.
  - intros i j Hi Hj. rewrite !elem_of_cons, !elem_of_nil in Hi, Hj.
    destruct Hi as [->|[->|[]]], Hj as [->|[->|[]]]; auto; right; [left|right]; cbn; lia.
  - intros i. vm_compute. intros [= <-] [=].
  - apply bytes_dec. vm_compute. reflexivity.
  - vm_compute. reflexivity.
  - vm_compute. reflexivity.
  - by left.
  - exists SMD_A. split; vm_compute; reflexivity.
  - apply surjective_pairing.
Defined.
