(* ===== verification/LinkedList.v ===== *)
(** * Doubly linked lists

    include/lib/list.h: circular lists whose nodes are part of the structures
    that are listed, the list itself being a node too.  The store maps the
    address of a node to its two links; an access to any other address is
    [Undef].  The second half proves that the operations are those of sequences. *)
From stdpp Require Import gmap.
From S2P Require Import Prelude.
#[local] Open Scope Z_scope.

(** [struct list_node] *)
Record list_node := mk_node { prev : Z; next : Z }.
Abbreviation links := (gmap Z list_node).

Definition load_next (a : Z) : M links Z := fun s =>
  match s !! a with Some n => (Ret (next n), s) | None => (Undef, s) end.
Definition load_prev (a : Z) : M links Z := fun s =>
  match s !! a with Some n => (Ret (prev n), s) | None => (Undef, s) end.
Definition set_next (a v : Z) (s : links) : links := alter (fun n => mk_node (prev n) v) a s.
Definition set_prev (a v : Z) (s : links) : links := alter (fun n => mk_node v (next n)) a s.
Definition store_next (a v : Z) : M links unit := fun s =>
  match s !! a with Some _ => (Ret tt, set_next a v s) | None => (Undef, s) end.
Definition store_prev (a v : Z) : M links unit := fun s =>
  match s !! a with Some _ => (Ret tt, set_prev a v s) | None => (Undef, s) end.

(** ** Operations *)

Definition list_initialize (list : Z) : M links unit :=
  store_next list list ;;; store_prev list list.

Definition list_clear_node (item : Z) : M links unit :=
  store_next item 0 ;;; store_prev item 0.

Definition list_in_list (item : Z) : M links bool :=
  let! p := load_prev item in
  let! n := load_next item in
  ret (negb ((p =? 0) && (n =? 0))).

Definition list_add_head (list item : Z) : M links unit :=
  let! n := load_next list in
  store_next item n ;;;
  store_prev item list ;;;
  let! n := load_next list in
  store_prev n item ;;;
  store_next list item.

Definition list_add_tail (list item : Z) : M links unit :=
  let! p := load_prev list in
  store_prev item p ;;;
  store_next item list ;;;
  let! p := load_prev list in
  store_next p item ;;;
  store_prev list item.

Definition list_delete (item : Z) : M links unit :=
  let! n := load_next item in
  let! p := load_prev item in
  store_prev n p ;;;
  let! p := load_prev item in
  let! n := load_next item in
  store_next p n ;;;
  store_next item 0 ;;;
  store_prev item 0.

Definition list_remove_head (list : Z) : M links (option Z) :=
  let! item := load_next list in
  if negb (item =? list) then list_delete item ;;; ret (Some item) else ret None.

Definition list_remove_tail (list : Z) : M links (option Z) :=
  let! item := load_prev list in
  if negb (item =? list) then list_delete item ;;; ret (Some item) else ret None.

Definition list_peek_head (list : Z) : M links (option Z) :=
  let! n := load_next list in
  ret (if negb (n =? list) then Some n else None).

Definition list_peek_tail (list : Z) : M links (option Z) :=
  let! p := load_prev list in
  ret (if negb (p =? list) then Some p else None).

Definition list_prev (list item : Z) : M links (option Z) :=
  let! p := load_prev item in
  ret (if negb (p =? list) then Some p else None).

Definition list_prev_wrap (list item : Z) : M links (option Z) :=
  let! p := load_prev item in
  if negb (p =? list) then ret (Some p)
  else let! pp := load_prev p in ret (if negb (pp =? list) then Some pp else None).

Definition list_next (list item : Z) : M links (option Z) :=
  let! n := load_next item in
  ret (if negb (n =? list) then Some n else None).

Definition list_next_wrap (list item : Z) : M links (option Z) :=
  let! n := load_next item in
  if negb (n =? list) then ret (Some n)
  else let! nn := load_next n in ret (if negb (nn =? list) then Some nn else None).

Definition list_is_empty (list : Z) : M links bool :=
  let! n := load_next list in ret (n =? list).

(** The loops; [body] may change the links.  [fuel] bounds the number of turns. *)
Fixpoint every_from (fuel : nat) (step : Z -> M links Z) (body : Z -> M links unit) (lst node : Z) : M links unit :=
  if node =? lst then ret tt
  else match fuel with
       | O => nofuel
       | S fuel => body node ;;; let! n := step node in every_from fuel step body lst n
       end.
Definition list_for_every (lst : Z) (body : Z -> M links unit) : M links unit := fun s =>
  (let! n := load_next lst in every_from (size s) load_next body lst n) s.
Definition list_for_every_entry_reverse (lst : Z) (body : Z -> M links unit) : M links unit := fun s =>
  (let! p := load_prev lst in every_from (size s) load_prev body lst p) s.

(** The loop that has read the next node before the body deletes the current one. *)
Fixpoint safe_from (fuel : nat) (body : Z -> M links unit) (lst node temp_node : Z) : M links unit :=
  if node =? lst then ret tt
  else match fuel with
       | O => nofuel
       | S fuel => body node ;;; let! n := load_next temp_node in safe_from fuel body lst temp_node n
       end.
Definition list_for_every_safe (lst : Z) (body : Z -> M links unit) : M links unit := fun s =>
  (let! n := load_next lst in let! nn := load_next n in safe_from (size s) body lst n nn) s.

(** ** Rings *)

Definition nx (s : links) (a : Z) : option Z := next <$> s !! a.
Definition pv (s : links) (a : Z) : option Z := prev <$> s !! a.

(** From [a] over [xs] to [b], linked both ways. *)
Fixpoint path (s : links) (a : Z) (xs : list Z) (b : Z) : Prop :=
  match xs with
  | [] => nx s a = Some b /\ pv s b = Some a
  | x :: xs => nx s a = Some x /\ pv s x = Some a /\ path s x xs b
  end.

(** The list [h] holds the nodes [l]. *)
Definition ring (s : links) (h : Z) (l : list Z) : Prop := NoDup (h :: l) /\ path s h l h.

Lemma nx_present s a x : nx s a = Some x -> is_Some (s !! a).
Proof. unfold nx. by destruct (s !! a). Qed.
Lemma pv_present s a x : pv s a = Some x -> is_Some (s !! a).
Proof. unfold pv. by destruct (s !! a). Qed.

Lemma nx_set_next s a v : is_Some (s !! a) -> nx (set_next a v s) a = Some v.
Proof. intros [n E]. unfold nx, set_next. by rewrite lookup_alter_eq, E. Qed.
Lemma nx_set_next_ne s a v b : a <> b -> nx (set_next a v s) b = nx s b.
Proof. intros Hne. unfold nx, set_next. by rewrite lookup_alter_ne. Qed.
Lemma nx_set_prev s a v b : nx (set_prev a v s) b = nx s b.
Proof.
  unfold nx, set_prev. destruct (decide (a = b)) as [->|]; [|by rewrite lookup_alter_ne].
  rewrite lookup_alter_eq. by destruct (s !! b).
Qed.
Lemma pv_set_prev s a v : is_Some (s !! a) -> pv (set_prev a v s) a = Some v.
Proof. intros [n E]. unfold pv, set_prev. by rewrite lookup_alter_eq, E. Qed.
Lemma pv_set_prev_ne s a v b : a <> b -> pv (set_prev a v s) b = pv s b.
Proof. intros Hne. unfold pv, set_prev. by rewrite lookup_alter_ne. Qed.
Lemma pv_set_next s a v b : pv (set_next a v s) b = pv s b.
Proof.
  unfold pv, set_next. destruct (decide (a = b)) as [->|]; [|by rewrite lookup_alter_ne].
  rewrite lookup_alter_eq. by destruct (s !! b).
Qed.
Lemma present_set_next s a v b : is_Some (set_next a v s !! b) <-> is_Some (s !! b).
Proof. unfold set_next. by rewrite lookup_alter_is_Some. Qed.
Lemma present_set_prev s a v b : is_Some (set_prev a v s !! b) <-> is_Some (s !! b).
Proof. unfold set_prev. by rewrite lookup_alter_is_Some. Qed.

Lemma load_next_run s a x : nx s a = Some x -> load_next a s = (Ret x, s).
Proof. unfold nx, load_next. destruct (s !! a); [|done]. by intros [= ->]. Qed.
Lemma load_prev_run s a x : pv s a = Some x -> load_prev a s = (Ret x, s).
Proof. unfold pv, load_prev. destruct (s !! a); [|done]. by intros [= ->]. Qed.
Lemma store_next_run s a v : is_Some (s !! a) -> store_next a v s = (Ret tt, set_next a v s).
Proof. intros [n E]. unfold store_next. by rewrite E. Qed.
Lemma store_prev_run s a v : is_Some (s !! a) -> store_prev a v s = (Ret tt, set_prev a v s).
Proof. intros [n E]. unfold store_prev. by rewrite E. Qed.

Ltac present := repeat (rewrite present_set_next || rewrite present_set_prev); eauto using nx_present, pv_present.
(** Evaluates the links of an updated store; [ne] proves addresses different. *)
Ltac links ne :=
  repeat (rewrite nx_set_prev || rewrite pv_set_next || (rewrite nx_set_next by present) || (rewrite pv_set_prev by present)
          || (rewrite nx_set_next_ne by ne) || (rewrite pv_set_prev_ne by ne)).
Ltac run_links ne :=
  repeat (unfold bind;
    first [ erewrite load_next_run by (links ne; eassumption || reflexivity)
          | erewrite load_prev_run by (links ne; eassumption || reflexivity)
          | rewrite store_next_run by present
          | rewrite store_prev_run by present ]); cbn [ret fst snd].

(** Only the nodes of [D] change, and none appears or disappears. *)
Definition within (D : list Z) (s s' : links) : Prop :=
  (forall a, a ∉ D -> s' !! a = s !! a) /\ forall a, is_Some (s' !! a) <-> is_Some (s !! a).

Lemma within_next D s a v s' : a ∈ D -> within D s s' -> within D s (set_next a v s').
Proof.
  intros Ha [H1 H2]. split.
  - intros b Hb. unfold set_next. rewrite lookup_alter_ne by congruence. by apply H1.
  - intros b. by rewrite present_set_next.
Qed.
Lemma within_prev D s a v s' : a ∈ D -> within D s s' -> within D s (set_prev a v s').
Proof.
  intros Ha [H1 H2]. split.
  - intros b Hb. unfold set_prev. rewrite lookup_alter_ne by congruence. by apply H1.
  - intros b. by rewrite present_set_prev.
Qed.
Lemma within_refl D s : within D s s.
Proof. done. Qed.

Lemma path_app s a xs c ys b : path s a (xs ++ c :: ys) b <-> path s a xs c /\ path s c ys b.
Proof. revert a. induction xs as [|x xs IH]; intros a; cbn; [tauto|]. rewrite IH. tauto. Qed.

Lemma path_frame s s' a xs b : path s a xs b ->
  (forall x, x ∈ a :: xs -> nx s' x = nx s x) -> (forall x, x ∈ xs ++ [b] -> pv s' x = pv s x) -> path s' a xs b.
Proof.
  revert a. induction xs as [|x xs IH]; intros a Hp Hn Hv; cbn in *.
  - destruct Hp as [H1 H2]. by rewrite Hn, Hv by by left.
  - destruct Hp as (H1 & H2 & H3). rewrite Hn, Hv by by left. split; [done|]. split; [done|].
    apply IH; [done|intros y Hy; apply Hn; by right|intros y Hy; apply Hv; by right].
Qed.

(** The first node after and the last node before the end of a path. *)
Definition first_of (xs : list Z) (b : Z) : Z := match xs with [] => b | x :: _ => x end.
Fixpoint last_of (a : Z) (xs : list Z) : Z := match xs with [] => a | x :: xs => last_of x xs end.

Lemma last_of_in a xs : last_of a xs ∈ a :: xs.
Proof. revert a. induction xs as [|x xs IH]; intros a; [by left|]. right. apply IH. Qed.

Lemma path_ends s a xs b : path s a xs b -> nx s a = Some (first_of xs b) /\ pv s b = Some (last_of a xs).
Proof.
  revert a. induction xs as [|x xs IH]; intros a; [done|]. cbn [path first_of]. intros (H1 & H2 & H3).
  split; [done|]. by apply IH.
Qed.

(** The last link of a path moved to another node. *)
Lemma path_relink s s' a xs b c : path s a xs b -> NoDup (a :: xs) ->
  nx s' (last_of a xs) = Some c -> pv s' c = Some (last_of a xs) ->
  (forall x, x ∈ a :: xs -> x <> last_of a xs -> nx s' x = nx s x) -> (forall x, x ∈ xs -> pv s' x = pv s x) ->
  path s' a xs c.
Proof.
  revert a. induction xs as [|x xs IH]; intros a Hp Hd Hn Hv Fn Fv; [done|].
  cbn [last_of] in *. cbn in Hp. destruct Hp as (H1 & H2 & H3). apply NoDup_cons in Hd as [Ha Hd].
  cbn. split; [|split].
  - rewrite Fn; [done|by left|]. intros ->. apply Ha, last_of_in.
  - rewrite Fv; [done|by left].
  - apply IH; try done; [intros y Hy; apply Fn; by right|intros y Hy; apply Fv; by right].
Qed.

(** ** Operations on rings *)

Lemma path_present s a xs b x : path s a xs b -> x ∈ a :: xs ++ [b] -> is_Some (s !! x).
Proof.
  revert a. induction xs as [|y xs IH]; intros a Hp Hx; cbn in *.
  - destruct Hp as [H1 H2]. apply elem_of_cons in Hx as [->|Hx]; [present|].
    apply list_elem_of_singleton in Hx as ->. present.
  - destruct Hp as (H1 & H2 & H3). apply elem_of_cons in Hx as [->|Hx]; [present|by eapply IH].
Qed.

Lemma NoDup_fresh (x : Z) l l' : NoDup l -> x ∉ l -> l' ≡ₚ x :: l -> NoDup l'.
Proof. intros Hd Hx ->. by apply NoDup_cons. Qed.

Lemma ring_present s h l x : ring s h l -> x ∈ h :: l -> is_Some (s !! x).
Proof.
  intros [_ Hp] Hx. eapply path_present; [exact Hp|]. apply elem_of_cons in Hx as [->|Hx]; [by left|].
  right. apply elem_of_app. by left.
Qed.

Lemma first_of_in h l : first_of l h ∈ h :: l.
Proof. destruct l; [by left|right; by left]. Qed.

(** The ends of a ring and a node outside it. *)
Lemma ring_ends s h l : ring s h l ->
  nx s h = Some (first_of l h) /\ pv s h = Some (last_of h l) /\ is_Some (s !! h) /\
  is_Some (s !! first_of l h) /\ is_Some (s !! last_of h l).
Proof.
  intros Hr. pose proof Hr as [_ Hp]. destruct (path_ends s h l h Hp) as [En Ep].
  split_and!; [done|done|eapply ring_present; [done|by left]|..];
    (eapply ring_present; [exact Hr|]); [apply first_of_in|apply last_of_in].
Qed.

Lemma add_head_run s h l x : ring s h l -> x ∉ h :: l -> is_Some (s !! x) ->
  exists s', list_add_head h x s = (Ret tt, s') /\ ring s' h (x :: l) /\ within (x :: h :: l) s s'.
Proof.
  intros Hr Hx Px. destruct (ring_ends s h l Hr) as (En & _ & Ph & Pn & _). destruct Hr as [Hd Hp].
  pose proof (first_of_in h l) as Hn. set (n := first_of l h) in *.
  assert (Hxh : x <> h) by (intros ->; apply Hx; by left). assert (Hxn : x <> n) by congruence.
  eexists. split; [|split].
  - unfold list_add_head. run_links congruence. reflexivity.
  - split; [eapply NoDup_fresh; [exact Hd|exact Hx|by constructor]|].
    cbn [path]. split; [links congruence; done|]. split; [links congruence; done|].
    destruct l as [|b l]; cbn [path first_of] in *.
    + unfold n in *. split; links congruence; done.
    + destruct Hp as (H1 & H2 & H3). unfold n in *. split; [links congruence; done|]. split; [links congruence; done|].
      apply NoDup_cons in Hd as [Hh Hd]. apply NoDup_cons in Hd as [Hb Hd].
      eapply path_frame; [exact H3| |].
      * intros y Hy. assert (y <> h) by congruence. assert (y <> x) by (intros ->; apply Hx; by right). links congruence. done.
      * intros y Hy. assert (y <> b). { intros ->. apply elem_of_app in Hy as [Hy|Hy]; [done|]. apply list_elem_of_singleton in Hy as ->. apply Hh. by left. }
        assert (y <> x). { intros ->. apply Hx. apply elem_of_app in Hy as [Hy|Hy]; [by do 2 right|]. apply list_elem_of_singleton in Hy as ->. by left. }
        links congruence. done.
  - repeat (apply within_next || apply within_prev); try apply within_refl; try (by left); try (right; by left); by right.
Qed.

Lemma add_tail_run s h l x : ring s h l -> x ∉ h :: l -> is_Some (s !! x) ->
  exists s', list_add_tail h x s = (Ret tt, s') /\ ring s' h (l ++ [x]) /\ within (x :: h :: l) s s'.
Proof.
  intros Hr Hx Px. destruct (ring_ends s h l Hr) as (_ & Ep & Ph & _ & Pp). destruct Hr as [Hd Hp].
  pose proof (last_of_in h l) as Hin. set (p := last_of h l) in *.
  assert (Hxh : x <> h) by (intros ->; apply Hx; by left). assert (Hxp : x <> p) by congruence.
  eexists. split; [|split].
  - unfold list_add_tail. run_links congruence. reflexivity.
  - split; [eapply NoDup_fresh; [exact Hd|exact Hx|]; by rewrite (Permutation_app_comm l [x]), Permutation_swap|].
    apply path_app. split; [|cbn; split; links congruence; done].
    eapply path_relink; [exact Hp|done|..]; fold p.
    + links congruence. done.
    + links congruence. done.
    + intros y Hy Hyp. assert (y <> x) by congruence. links congruence. done.
    + intros y Hy. assert (y <> h) by (apply NoDup_cons in Hd as [Hh _]; congruence).
      assert (y <> x) by (intros ->; apply Hx; by right). links congruence. done.
  - repeat (apply within_next || apply within_prev); try apply within_refl; try (by left); try (right; by left); by right.
Qed.

Lemma delete_run s h l1 x l2 : ring s h (l1 ++ x :: l2) ->
  exists s', list_delete x s = (Ret tt, s') /\ ring s' h (l1 ++ l2) /\ within (h :: l1 ++ x :: l2) s s' /\
    s' !! x = Some (mk_node 0 0).
Proof.
  intros Hr. pose proof Hr as [Hd Hp]. apply path_app in Hp as [Hp1 Hp2].
  destruct (path_ends _ _ _ _ Hp1) as [_ Ep]. destruct (path_ends _ _ _ _ Hp2) as [En _].
  set (p := last_of h l1) in *. set (n := first_of l2 h) in *.
  assert (Hd' : NoDup (x :: h :: l1 ++ l2)).
  { eapply NoDup_Permutation_proper; [|exact Hd]. by rewrite Permutation_swap, Permutation_middle. }
  apply NoDup_cons in Hd' as [Hx Hd'].
  assert (Hpi : p ∈ h :: l1 ++ l2).
  { pose proof (last_of_in h l1) as Hi. fold p in Hi. apply elem_of_cons in Hi as [->|Hi]; [by left|]. right. apply elem_of_app. by left. }
  assert (Hni : n ∈ h :: l1 ++ l2).
  { pose proof (first_of_in h l2) as Hi. fold n in Hi. apply elem_of_cons in Hi as [->|Hi]; [by left|]. right. apply elem_of_app. by right. }
  assert (Hsub : forall y, y ∈ h :: l1 ++ l2 -> y ∈ h :: l1 ++ x :: l2).
  { intros y Hy. apply elem_of_cons in Hy as [->|Hy]; [by left|]. right. apply elem_of_app in Hy as [Hy|Hy];
      apply elem_of_app; [by left|right; by right]. }
  assert (Hxi : x ∈ h :: l1 ++ x :: l2) by (right; apply elem_of_app; right; by left).
  assert (Px : is_Some (s !! x)) by (by eapply ring_present).
  assert (Pp : is_Some (s !! p)) by (eapply ring_present; [exact Hr|by apply Hsub]).
  assert (Pn : is_Some (s !! n)) by (eapply ring_present; [exact Hr|by apply Hsub]).
  assert (Hxp : x <> p) by congruence. assert (Hxn : x <> n) by congruence.
  eexists. split; [|split; [|split]].
  - unfold list_delete. run_links congruence. reflexivity.
  - split; [done|]. apply NoDup_cons in Hd' as [Hh Hd']. apply NoDup_app in Hd' as (Hd1 & Hd12 & Hd2).
    assert (Hnot : forall y, y ∈ h :: l1 ++ l2 -> y <> x) by congruence.
    assert (Hn1 : forall y, y ∈ l1 -> y <> n).
    { intros y Hy ->. pose proof (first_of_in h l2) as Hi. fold n in Hi.
      apply elem_of_cons in Hi as [Hi|Hi]; [|by eapply Hd12]. apply Hh. rewrite <- Hi. apply elem_of_app. by left. }
    match goal with |- path ?s' _ _ _ => assert (Hs1 : path s' h l1 n) end.
    { eapply path_relink; [exact Hp1|apply NoDup_cons; split; [intros Hi; apply Hh, elem_of_app; by left|done]|..]; fold p.
      - links congruence. done.
      - links congruence. done.
      - intros y Hy Hyp. assert (y <> x).
        { apply Hnot. apply elem_of_cons in Hy as [->|Hy]; [by left|]. right. apply elem_of_app. by left. }
        links congruence. done.
      - intros y Hy. assert (y <> n) by auto. assert (y <> x) by (apply Hnot; right; apply elem_of_app; by left).
        links congruence. done. }
    destruct l2 as [|b l2]; [by rewrite app_nil_r|]. apply path_app. split; [exact Hs1|].
    cbn in Hp2. destruct Hp2 as (_ & _ & Hp2). unfold n in *. cbn [first_of] in *.
    apply NoDup_cons in Hd2 as [Hb Hd2].
    assert (Hbin : b ∈ h :: l1 ++ b :: l2) by (right; apply elem_of_app; right; by left).
    assert (Hlast : forall y, y ∈ b :: l2 -> y <> p).
    { intros y Hy ->. pose proof (last_of_in h l1) as Hi. fold p in Hi. apply elem_of_cons in Hi as [Hi|Hi]; [|by eapply Hd12].
      apply Hh. rewrite <- Hi. apply elem_of_app. by right. }
    eapply path_frame; [exact Hp2| |].
    + intros y Hy. assert (y <> p) by auto. assert (y <> x) by (apply Hnot; right; apply elem_of_app; by right).
      links congruence. done.
    + intros y Hy. assert (y <> b /\ y <> x) as [? ?].
      { apply elem_of_app in Hy as [Hy|Hy].
        - split; [congruence|]. apply Hnot. right. apply elem_of_app. right. by right.
        - apply list_elem_of_singleton in Hy as ->. split; [|apply Hnot; by left]. intros ->. apply Hh, elem_of_app. right. by left. }
      links congruence. done.
  - repeat (apply within_next || apply within_prev); auto using within_refl.
  - unfold set_prev, set_next. rewrite lookup_alter_eq, lookup_alter_eq.
    repeat (rewrite lookup_alter_ne by congruence). destruct Px as [[? ?] ->]. done.
Qed.

(** A change elsewhere leaves a ring alone. *)
Lemma ring_within D s s' h l : within D s s' -> ring s h l -> (forall a, a ∈ h :: l -> a ∉ D) -> ring s' h l.
Proof.
  intros [Hsame _] [Hd Hp] Hout. split; [done|]. apply (path_frame s); [exact Hp| |].
  - intros x Hx. unfold nx. by rewrite Hsame by auto.
  - intros x Hx. unfold pv. rewrite Hsame; [done|]. apply Hout.
    apply elem_of_app in Hx as [Hx|Hx]; [by right|]. apply list_elem_of_singleton in Hx as ->. by left.
Qed.

Lemma ring_next s h l1 x l2 : ring s h (l1 ++ x :: l2) -> nx s x = Some (first_of l2 h) /\ pv s x = Some (last_of h l1).
Proof. intros [_ Hp]. apply path_app in Hp as [H1 H2]. by destruct (path_ends _ _ _ _ H1), (path_ends _ _ _ _ H2). Qed.

Lemma last_of_snoc a l x : last_of a (l ++ [x]) = x.
Proof. revert a. induction l as [|y l IH]; intros a; [done|]. cbn. apply IH. Qed.

Lemma first_of_head l h : NoDup (h :: l) -> (if negb (first_of l h =? h) then Some (first_of l h) else None) = head l.
Proof.
  intros Hd. destruct l as [|x l]; cbn; [by rewrite Z.eqb_refl|].
  destruct (Z.eqb_spec x h) as [->|]; [|done]. apply NoDup_cons in Hd as [Hh _]. destruct Hh. by left.
Qed.

Lemma last_of_last l h : NoDup (h :: l) -> (if negb (last_of h l =? h) then Some (last_of h l) else None) = last l.
Proof.
  intros Hd. destruct l as [|x l _] using rev_ind; cbn; [by rewrite Z.eqb_refl|].
  rewrite last_of_snoc, last_snoc. destruct (Z.eqb_spec x h) as [->|]; [|done].
  apply NoDup_cons in Hd as [Hh _]. destruct Hh. apply elem_of_app. right. by left.
Qed.

Lemma NoDup_part (h x : Z) l1 l2 : NoDup (h :: l1 ++ x :: l2) -> NoDup (h :: l1) /\ NoDup (h :: l2).
Proof.
  intros Hd. apply NoDup_cons in Hd as [Hh Hd]. apply NoDup_app in Hd as (H1 & _ & H2). apply NoDup_cons in H2 as [_ H2].
  split; apply NoDup_cons; (split; [|done]); intros Hi; apply Hh, elem_of_app; [by left|right; by right].
Qed.

(** ** Sequences of operations on several lists *)

Inductive list_op :=
| AddHead (h x : Z) | AddTail (h x : Z) | Delete (x : Z) | RemoveHead (h : Z) | RemoveTail (h : Z)
| PeekHead (h : Z) | PeekTail (h : Z) | Next (h x : Z) | Prev (h x : Z) | NextWrap (h x : Z) | PrevWrap (h x : Z).

Definition run_op (o : list_op) : M links (option Z) :=
  match o with
  | AddHead h x => list_add_head h x ;;; ret None
  | AddTail h x => list_add_tail h x ;;; ret None
  | Delete x => list_delete x ;;; ret None
  | RemoveHead h => list_remove_head h
  | RemoveTail h => list_remove_tail h
  | PeekHead h => list_peek_head h
  | PeekTail h => list_peek_tail h
  | Next h x => list_next h x
  | Prev h x => list_prev h x
  | NextWrap h x => list_next_wrap h x
  | PrevWrap h x => list_prev_wrap h x
  end.

Fixpoint run_ops (os : list list_op) : M links (list (option Z)) :=
  match os with
  | [] => ret []
  | o :: os => let! r := run_op o in let! rs := run_ops os in ret (r :: rs)
  end.

(** The lists by their heads, and what the operations mean. *)
Definition fresh (F : gmap Z (list Z)) (x : Z) : Prop := forall h l, F !! h = Some l -> x ∉ h :: l.

Inductive list_step (N : Z -> Prop) (F : gmap Z (list Z)) : list_op -> gmap Z (list Z) -> option Z -> Prop :=
| SAddHead h l x : F !! h = Some l -> N x -> fresh F x -> list_step N F (AddHead h x) (<[h := x :: l]> F) None
| SAddTail h l x : F !! h = Some l -> N x -> fresh F x -> list_step N F (AddTail h x) (<[h := l ++ [x]]> F) None
| SDelete h l1 x l2 : F !! h = Some (l1 ++ x :: l2) -> list_step N F (Delete x) (<[h := l1 ++ l2]> F) None
| SRemoveHead h l : F !! h = Some l -> list_step N F (RemoveHead h) (<[h := tail l]> F) (head l)
| SRemoveTail h l : F !! h = Some l -> list_step N F (RemoveTail h) (<[h := removelast l]> F) (last l)
| SPeekHead h l : F !! h = Some l -> list_step N F (PeekHead h) F (head l)
| SPeekTail h l : F !! h = Some l -> list_step N F (PeekTail h) F (last l)
| SNext h l1 x l2 : F !! h = Some (l1 ++ x :: l2) -> list_step N F (Next h x) F (head l2)
| SPrev h l1 x l2 : F !! h = Some (l1 ++ x :: l2) -> list_step N F (Prev h x) F (last l1)
| SNextWrap h l1 x l2 : F !! h = Some (l1 ++ x :: l2) -> list_step N F (NextWrap h x) F (head (l2 ++ l1 ++ [x]))
| SPrevWrap h l1 x l2 : F !! h = Some (l1 ++ x :: l2) -> list_step N F (PrevWrap h x) F (last (x :: l2 ++ l1)).

Inductive list_steps (N : Z -> Prop) : gmap Z (list Z) -> list list_op -> gmap Z (list Z) -> list (option Z) -> Prop :=
| Done F : list_steps N F [] F []
| Step F o F1 r os F2 rs : list_step N F o F1 r -> list_steps N F1 os F2 rs -> list_steps N F (o :: os) F2 (r :: rs).

(** The store holds the lists, and they have no node in common. *)
Definition holds (F : gmap Z (list Z)) (s : links) : Prop :=
  (forall h l, F !! h = Some l -> ring s h l) /\
  (forall h l h' l' x, F !! h = Some l -> F !! h' = Some l' -> h <> h' -> x ∈ h :: l -> x ∉ h' :: l').

(** One list replaced, its nodes old ones or fresh. *)
Lemma holds_insert F s s' h l l' D : holds F s -> F !! h = Some l -> within D s s' -> ring s' h l' ->
  (forall x, x ∈ D -> x ∈ h :: l \/ fresh F x) -> (forall x, x ∈ h :: l' -> x ∈ h :: l \/ fresh F x) ->
  holds (<[h := l']> F) s'.
Proof.
  intros [Hr Hd] Hl Hw Hr' HD Hl'. split.
  - intros h2 l2 E. apply lookup_insert_Some in E as [[<- <-]|[Hne E]]; [done|].
    eapply ring_within; [exact Hw|by apply Hr|]. intros a Ha Hin.
    destruct (HD a Hin) as [Hi|Hi]; [|by eapply Hi]. by eapply (Hd h l h2 l2 a).
  - intros h1 l1 h2 l2 x E1 E2 Hne Hx1 Hx2. apply lookup_insert_Some in E1 as [[<- <-]|[Hne1 E1]].
    + apply lookup_insert_Some in E2 as [[<- _]|[_ E2]]; [done|].
      destruct (Hl' x Hx1) as [Hi|Hi]; [by eapply (Hd h l h2 l2 x)|by eapply Hi].
    + apply lookup_insert_Some in E2 as [[<- <-]|[_ E2]]; [|by eapply (Hd h1 l1 h2 l2 x)].
      destruct (Hl' x Hx2) as [Hi|Hi]; [by eapply (Hd h l h1 l1 x)|by eapply Hi].
Qed.

Lemma in_fewer (h x y : Z) l1 l2 : y ∈ h :: l1 ++ l2 -> y ∈ h :: l1 ++ x :: l2.
Proof.
  intros Hy. apply elem_of_cons in Hy as [->|Hy]; [by left|]. right. apply elem_of_app in Hy as [Hy|Hy];
    apply elem_of_app; [by left|right; by right].
Qed.

Section Steps.
Variables (N : Z -> Prop) (F : gmap Z (list Z)) (s : links).
Hypotheses (HF : holds F s) (HN : forall a, N a -> is_Some (s !! a)).

(** An operation that returns [r] and leaves the store to hold [F']. *)
Definition does {A} (c : M links A) (r : A) (F' : gmap Z (list Z)) : Prop :=
  exists s', c s = (Ret r, s') /\ holds F' s' /\ forall a, is_Some (s' !! a) <-> is_Some (s !! a).

Lemma does_delete h l1 x l2 {A} (r : A) : F !! h = Some (l1 ++ x :: l2) ->
  does (list_delete x ;;; ret r) r (<[h := l1 ++ l2]> F).
Proof.
  intros Hl. pose proof (proj1 HF h _ Hl) as Hr. destruct (delete_run s h l1 x l2 Hr) as (s' & E & Hr' & Hw & _).
  exists s'. unfold bind. rewrite E. split; [done|]. split; [|apply Hw].
  eapply holds_insert; [exact HF|exact Hl|exact Hw|exact Hr'|by left|]. intros y Hy. left. by apply in_fewer.
Qed.

Lemma does_add (c : Z -> Z -> M links unit) h l l' x : F !! h = Some l -> N x -> fresh F x ->
  (exists s', c h x s = (Ret tt, s') /\ ring s' h l' /\ within (x :: h :: l) s s') ->
  (forall y, y ∈ l' -> y = x \/ y ∈ l) ->
  does (c h x ;;; ret (@None Z)) None (<[h := l']> F).
Proof.
  intros Hl Nx Hf (s' & E & Hr' & Hw) Hin. exists s'. unfold bind. rewrite E. split; [done|]. split; [|apply Hw].
  eapply holds_insert; [exact HF|exact Hl|exact Hw|exact Hr'|..]; intros y Hy.
  - apply elem_of_cons in Hy as [->|Hy]; [by right|by left].
  - apply elem_of_cons in Hy as [->|Hy]; [left; by left|]. destruct (Hin y Hy) as [->|Hy']; [by right|left; by right].
Qed.

Lemma does_peek (c : M links (option Z)) r : c s = (Ret r, s) -> does c r F.
Proof. intros E. exists s. done. Qed.

Lemma run_ring_next h l1 x l2 : F !! h = Some (l1 ++ x :: l2) ->
  load_next x s = (Ret (first_of l2 h), s) /\ load_prev x s = (Ret (last_of h l1), s) /\
  (if negb (first_of l2 h =? h) then Some (first_of l2 h) else None) = head l2 /\
  (if negb (last_of h l1 =? h) then Some (last_of h l1) else None) = last l1.
Proof.
  intros Hl. pose proof (proj1 HF h _ Hl) as Hr. destruct (ring_next _ _ _ _ _ Hr) as [En Ep].
  destruct (NoDup_part h x l1 l2 (proj1 Hr)) as [D1 D2].
  split_and!; [by apply load_next_run|by apply load_prev_run|by apply first_of_head|by apply last_of_last].
Qed.

Lemma run_ring_ends h l : F !! h = Some l ->
  load_next h s = (Ret (first_of l h), s) /\ load_prev h s = (Ret (last_of h l), s) /\
  (if negb (first_of l h =? h) then Some (first_of l h) else None) = head l /\
  (if negb (last_of h l =? h) then Some (last_of h l) else None) = last l.
Proof.
  intros Hl. pose proof (proj1 HF h _ Hl) as Hr. destruct (ring_ends _ _ _ Hr) as (En & Ep & _).
  destruct Hr as [Hd _].
  split_and!; [by apply load_next_run|by apply load_prev_run|by apply first_of_head|by apply last_of_last].
Qed.

Lemma head_first (h y : Z) l1 l2 : head l1 = Some y -> head (l1 ++ l2) = Some y.
Proof. by destruct l1. Qed.

Lemma step_does o F' r : list_step N F o F' r -> does (run_op o) r F'.
Proof.
  intros Hstep. destruct Hstep as [h l x Hl Nx Hf|h l x Hl Nx Hf|h l1 x l2 Hl|h l Hl|h l Hl|h l Hl|h l Hl|h l1 x l2 Hl|
    h l1 x l2 Hl|h l1 x l2 Hl|h l1 x l2 Hl]; cbn [run_op].
  - eapply does_add; [done..| |]; [apply add_head_run; [by apply HF|by eapply Hf|by apply HN]|].
    intros y Hy. by apply elem_of_cons in Hy.
  - eapply does_add; [done..| |]; [apply add_tail_run; [by apply HF|by eapply Hf|by apply HN]|].
    intros y Hy. apply elem_of_app in Hy as [Hy|Hy]; [by right|left; by apply list_elem_of_singleton in Hy].
  - by apply does_delete.
  - destruct (run_ring_ends h l Hl) as (En & _ & Eh & _). unfold list_remove_head, does, bind at 1. rewrite En.
    destruct (negb _) eqn:Eb; rewrite <- Eh.
    + destruct l as [|x l]; cbn [first_of] in *; [by rewrite Z.eqb_refl in Eb|]. by apply (does_delete h [] x l).
    + destruct l as [|x l]; [|done]. cbn. exists s. split; [done|]. split; [|done]. by rewrite insert_id.
  - destruct (run_ring_ends h l Hl) as (_ & Ep & _ & Et). unfold list_remove_tail, does, bind at 1. rewrite Ep.
    destruct (negb _) eqn:Eb; rewrite <- Et.
    + destruct l as [|x l _] using rev_ind; cbn [last_of] in *; [by rewrite Z.eqb_refl in Eb|].
      rewrite last_of_snoc, removelast_last. pose proof (does_delete h l x [] (Some x) Hl) as Hdel. by rewrite app_nil_r in Hdel.
    + destruct l as [|x l _] using rev_ind; [|by rewrite last_snoc in Et]. cbn. exists s. split; [done|].
      split; [|done]. by rewrite insert_id.
  - destruct (run_ring_ends h l Hl) as (En & _ & Eh & _). apply does_peek. unfold list_peek_head, bind. by rewrite En, Eh.
  - destruct (run_ring_ends h l Hl) as (_ & Ep & _ & Et). apply does_peek. unfold list_peek_tail, bind. by rewrite Ep, Et.
  - destruct (run_ring_next h l1 x l2 Hl) as (En & _ & Eh & _). apply does_peek. unfold list_next, bind. by rewrite En, Eh.
  - destruct (run_ring_next h l1 x l2 Hl) as (_ & Ep & _ & Et). apply does_peek. unfold list_prev, bind. by rewrite Ep, Et.
  - destruct (run_ring_next h l1 x l2 Hl) as (En & _ & Eh & _), (run_ring_ends h _ Hl) as (En' & _ & Eh' & _).
    apply does_peek. unfold list_next_wrap, bind. rewrite En. destruct (Z.eqb_spec (first_of l2 h) h) as [E|E]; cbn [negb] in *.
    + rewrite E, En', Eh'. destruct l2; [|done]. cbn. by destruct l1.
    + by destruct l2.
  - destruct (run_ring_next h l1 x l2 Hl) as (_ & Ep & _ & Et), (run_ring_ends h _ Hl) as (_ & Ep' & _ & Et').
    apply does_peek. unfold list_prev_wrap, bind. rewrite Ep.
    rewrite app_comm_cons, last_app. destruct (Z.eqb_spec (last_of h l1) h) as [E|E]; cbn [negb] in *.
    + rewrite E, Ep', Et', <- Et, last_app, last_cons. by destruct (last l2).
    + by rewrite <- Et.
Qed.
End Steps.

(** A node added to a second list while it is still at the end of the first,
    then deleted and added to the end of the first again: the first list still
    leads to it, and it leads to itself. *)
Lemma double_add s h l a h2 l2 : ring s h (l ++ [a]) -> ring s h2 l2 -> (forall x, x ∈ h2 :: l2 -> x ∉ h :: l ++ [a]) ->
  exists s1 s2 s3, list_add_tail h2 a s = (Ret tt, s1) /\ list_delete a s1 = (Ret tt, s2) /\
    list_add_tail h a s2 = (Ret tt, s3) /\ nx s3 a = Some a /\
    (forall x, x ∈ h :: l -> nx s1 x = nx s x /\ nx s3 x = nx s x) /\ (forall x, is_Some (s1 !! x) <-> is_Some (s !! x)).
Proof.
  intros Hr Hr2 Hd. pose proof Hr as [Hnd _]. destruct (ring_ends s h _ Hr) as (_ & Ep & Ph & _ & _). rewrite last_of_snoc in Ep.
  destruct (ring_ends s h2 l2 Hr2) as (_ & Ep2 & Ph2 & _ & Pf). pose proof (last_of_in h2 l2) as Hf. set (f := last_of h2 l2) in *.
  assert (Hh : h ∈ h :: l ++ [a]) by by left. assert (Ha : a ∈ h :: l ++ [a]) by (right; apply elem_of_app; right; by left).
  assert (Pa : is_Some (s !! a)) by (eapply ring_present; [exact Hr|exact Ha]).
  assert (a <> h2 /\ a <> f /\ h <> h2 /\ h <> f) as (N1 & N2 & N3 & N4).
  { split_and!; intros E; [apply (Hd h2)|apply (Hd f)|apply (Hd h2)|apply (Hd f)]; try done; try (by left); by rewrite <- E. }
  assert (N5 : a <> h).
  { intros ->. apply NoDup_cons in Hnd as [Hnd _]. apply Hnd, elem_of_app. right. by left. }
  eexists _, _, _. split; [unfold list_add_tail; run_links congruence; reflexivity|].
  split; [unfold list_delete; run_links congruence; reflexivity|].
  split; [unfold list_add_tail; run_links congruence; reflexivity|].
  split; [links congruence; done|]. split; [|intros x; by repeat (rewrite present_set_next || rewrite present_set_prev)].
  intros x Hx. assert (x <> a).
  { intros ->. apply elem_of_cons in Hx as [?|Hx]; [done|]. apply NoDup_cons in Hnd as [_ Hnd].
    apply NoDup_app in Hnd as (_ & Hnd & _). eapply Hnd; [exact Hx|by left]. }
  assert (x <> f).
  { intros ->. apply (Hd f Hf). apply elem_of_cons in Hx as [->|Hx]; [by left|]. right. apply elem_of_app. by left. }
  split; links congruence; done.
Qed.

(** ** Theorems *)

(** C27.  The pointer operations are those of sequences: any series of
    operations on any number of lists, as long as nodes are only added that are
    in no list and only members are deleted or asked for their neighbours, runs
    on the linked nodes without leaving them, returns what the operations on
    sequences return, and leaves the links to represent the resulting
    sequences. *)
Theorem lists_are_sequences (N : Z -> Prop) F (s : links) os F' rs :
  holds F s -> (forall a, N a -> is_Some (s !! a)) -> list_steps N F os F' rs ->
  exists s', run_ops os s = (Ret rs, s') /\ holds F' s'.
Proof.
  intros HF HN Hs. revert s HF HN. induction Hs as [F|F o F1 r os F2 rs H1 _ IH]; intros s HF HN; [by exists s|].
  destruct (step_does N F s HF HN o F1 r H1) as (s1 & E1 & HF1 & Hdom).
  destruct (IH s1 HF1) as (s2 & E2 & HF2); [intros a Ha; by apply Hdom, HN|].
  exists s2. split; [|done]. cbn [run_ops]. unfold bind. by rewrite E1, E2.
Qed.

(** Two lists: 16 and 32 on the list at 1, 48 on the list at 2, and a free
    node 64. *)
Definition two_lists : links :=
  <[1 := mk_node 32 16]> (<[16 := mk_node 1 32]> (<[32 := mk_node 16 1]>
  (<[2 := mk_node 48 48]> (<[48 := mk_node 2 2]> (<[64 := mk_node 0 0]> ∅))))).
Definition two_sequences : gmap Z (list Z) := <[1 := [16; 32]]> (<[2 := [48]]> ∅).

Lemma two_lists_hold : holds two_sequences two_lists.
Proof.
  split.
  - intros h l Hl. unfold two_sequences in Hl.
    apply lookup_insert_Some in Hl as [[<- <-]|[_ Hl]]; [|apply lookup_insert_Some in Hl as [[<- <-]|[_ Hl]]]; [| |done];
      (split; [refine (bool_decide_unpack _ _); vm_compute; exact I|by vm_compute]).
  - intros h l h' l' x Hl Hl' Hne. unfold two_sequences in *.
    apply lookup_insert_Some in Hl as [[<- <-]|[_ Hl]]; [|apply lookup_insert_Some in Hl as [[<- <-]|[_ Hl]]; [|done]];
      (apply lookup_insert_Some in Hl' as [[<- <-]|[_ Hl']]; [|apply lookup_insert_Some in Hl' as [[<- <-]|[_ Hl']]; [|done]]);
      try done; rewrite !elem_of_cons, elem_of_nil; intuition congruence.
Qed.

Lemma lists_are_sequences_witness :
  exists s', run_ops [RemoveHead 1; AddTail 2 16; NextWrap 2 16; AddHead 1 64; PrevWrap 1 64; Delete 48] two_lists =
    (Ret [Some 16; None; Some 48; None; Some 32; None], s') /\
  holds (<[2 := [16]]> (<[1 := [64; 32]]> (<[2 := [48; 16]]> (<[1 := [32]]> two_sequences)))) s'.
Proof.
  apply (lists_are_sequences (fun a => a ∈ [16; 32; 48; 64]) two_sequences two_lists); [apply two_lists_hold| |].
  - intros a. rewrite !elem_of_cons, elem_of_nil. intros [->|[->|[->|[->|[]]]]]; by eexists.
  - eapply Step; [by apply (SRemoveHead _ _ 1 [16; 32])|].
    eapply Step; [apply (SAddTail _ _ 2 [48] 16); [done|by left|]|].
    { intros h l Hl. unfold two_sequences in Hl. repeat (apply lookup_insert_Some in Hl as [[<- <-]|[? Hl]]); try done;
        cbn; rewrite !elem_of_cons, elem_of_nil; intuition congruence. }
    eapply Step; [by apply (SNextWrap _ _ 2 [48] 16 [])|].
    eapply Step; [apply (SAddHead _ _ 1 [32] 64); [done|by do 3 right; left|]|].
    { intros h l Hl. unfold two_sequences in Hl. repeat (apply lookup_insert_Some in Hl as [[<- <-]|[? Hl]]); try done;
        cbn; rewrite !elem_of_cons, elem_of_nil; intuition congruence. }
    eapply Step; [by apply (SPrevWrap _ _ 1 [] 64 [32])|].
    eapply Step; [by apply (SDelete _ _ 2 [] 48 [16])|]. apply Done.
Defined.

Lemma ring_fits s h l : ring s h l -> (length (h :: l) <= size s)%nat.
Proof.
  intros Hr. pose proof Hr as [Hd _].
  rewrite <- (size_list_to_set (C := gset Z)) by done. rewrite <- size_dom. apply subseteq_size.
  intros x Hx. apply elem_of_list_to_set in Hx. apply elem_of_dom. by eapply ring_present.
Qed.

Lemma within_trans D D' s1 s2 s3 : within D s1 s2 -> within D' s2 s3 -> (forall a, a ∈ D' -> a ∈ D) -> within D s1 s3.
Proof.
  intros [H1 H2] [H3 H4] Hsub. split.
  - intros a Ha. rewrite H3, H1 by auto. done.
  - intros a. by rewrite H4, H2.
Qed.

Lemma safe_from_deletes fuel : forall s h l temp, ring s h l -> (length l <= fuel)%nat ->
  (l <> [] -> temp = first_of (tail l) h) ->
  exists s', safe_from fuel list_delete h (first_of l h) temp s = (Ret tt, s') /\
    ring s' h [] /\ (forall x, x ∈ l -> s' !! x = Some (mk_node 0 0)) /\ within (h :: l) s s'.
Proof.
  induction fuel as [|fuel IH]; intros s h l temp Hr Hfuel Ht.
  - destruct l; [|cbn in Hfuel; lia]. exists s. cbn. rewrite Z.eqb_refl. split_and!; [done|done| |done]. intros x Hx. by apply elem_of_nil in Hx.
  - destruct l as [|x l].
    { exists s. cbn. rewrite Z.eqb_refl. split_and!; [done|done| |done]. intros x Hx. by apply elem_of_nil in Hx. }
    specialize (Ht ltac:(done)). cbn [tail] in Ht. subst temp. cbn [safe_from first_of].
    pose proof Hr as [Hd _]. apply NoDup_cons in Hd as [Hh Hd]. apply NoDup_cons in Hd as [Hx Hd].
    destruct (Z.eqb_spec x h) as [->|Hxh]; [destruct Hh; by left|].
    destruct (delete_run s h [] x l Hr) as (s1 & E1 & Hr1 & Hw1 & Hx1). cbn [app] in *.
    assert (exists n, nx s1 (first_of l h) = Some n /\ (l <> [] -> n = first_of (tail l) h)) as (m & En & Hm).
    { destruct l as [|y l]; cbn [first_of tail].
      - destruct (ring_ends _ _ _ Hr1) as (En & _). by eexists.
      - destruct (ring_next s1 h [] y l Hr1) as [En _]. by eexists. }
    destruct (IH s1 h l m Hr1 ltac:(cbn in Hfuel; lia) Hm) as (s2 & E2 & Hr2 & Hc2 & Hw2).
    exists s2. unfold bind. rewrite E1, (load_next_run _ _ _ En), E2. split; [done|]. split; [done|]. split.
    + intros y Hy. apply elem_of_cons in Hy as [->|Hy]; [|by apply Hc2].
      destruct Hw2 as [Hw2 _]. rewrite Hw2; [done|]. intros Hi. by apply elem_of_cons in Hi as [Hi|Hi].
    + eapply within_trans; [exact Hw1|exact Hw2|]. intros a Ha. apply elem_of_cons in Ha as [->|Ha]; [by left|by do 2 right].
Qed.

(** Deleting in a loop.  The loop that reads the next node before its body
    takes every node off the list and ends with the list empty, all other nodes
    unchanged.  The plain loop reads the link after the body has cleared it and
    leaves the nodes. *)
Theorem loops_that_delete s h l : ring s h l -> s !! 0 = None ->
  (exists s', list_for_every_safe h list_delete s = (Ret tt, s') /\ ring s' h [] /\
     (forall x, x ∈ l -> s' !! x = Some (mk_node 0 0)) /\ (forall x, x ∉ h :: l -> s' !! x = s !! x)) /\
  (l <> [] -> (list_for_every h list_delete s).1 = Undef).
Proof.
  intros Hr H0. destruct (ring_ends s h l Hr) as (En & _ & Ph & Pn & _). pose proof (ring_fits s h l Hr) as Hfit.
  assert (exists n, nx s (first_of l h) = Some n /\ (l <> [] -> n = first_of (tail l) h)) as (n & En' & Hn).
  { destruct l as [|x l]; cbn [first_of tail]; [by eexists|]. destruct (ring_next s h [] x l Hr) as [E _]. by eexists. }
  split.
  - destruct (safe_from_deletes (size s) s h l n Hr ltac:(cbn in Hfit; lia) Hn) as (s' & E & Hr' & Hc & Hw).
    exists s'. unfold list_for_every_safe, bind. rewrite (load_next_run _ _ _ En), (load_next_run _ _ _ En'), E.
    split_and!; [done|done|done|apply Hw].
  - intros Hl. destruct l as [|x l]; [done|]. cbn [first_of length] in *. unfold list_for_every, bind.
    rewrite (load_next_run _ _ _ En). destruct (size s) as [|[|k]]; [lia..|]. cbn [every_from].
    destruct (Z.eqb_spec x h) as [->|]; [destruct Hr as [Hd _]; apply NoDup_cons in Hd as [Hh _]; destruct Hh; by left|].
    destruct (delete_run s h [] x l Hr) as (s1 & E1 & _ & Hw & Hx). unfold bind. rewrite E1.
    assert (En1 : nx s1 x = Some 0) by (unfold nx; by rewrite Hx). rewrite (load_next_run _ _ _ En1).
    assert (E0 : s1 !! 0 = None).
    { destruct (s1 !! 0) eqn:E0; [|done]. assert (is_Some (s !! 0)) as [? ?] by (apply Hw; by eexists). congruence. }
    destruct (Z.eqb_spec 0 h) as [<-|]; [rewrite H0 in Ph; by destruct Ph|].
    unfold list_delete, load_next, bind. by rewrite E0.
Qed.

Lemma loops_that_delete_witness :
  ((list_for_every_safe 1 list_delete two_lists).1 = Ret tt) /\ (list_for_every 1 list_delete two_lists).1 = Undef.
Proof.
  destruct (loops_that_delete two_lists 1 [16; 32]) as [(s' & E & _) Hu];
    [by apply two_lists_hold|by vm_compute|]. rewrite E. split; [done|by apply Hu].
Defined.
