(* ===== verification/Bcache.v ===== *)
(** * Block cache

    lib/bcache/bcache.c: a cache of file system blocks over a block device, its
    blocks on two linked lists.

    The headers with [malloc], [DEBUG_ASSERT] and [ERR_GENERIC] are not part of
    the repository: the heap is the interface of Interfaces.v, [uninit] is what a
    new buffer holds, [debug] says whether assertions are checked.  The node is
    the first field of a block, so the address of a block is that of its node. *)
From S2P Require Import Prelude Interfaces BlockDev.
From stdpp Require Import gmap.
From S2P Require Import LinkedList.
#[local] Open Scope Z_scope.

(** ** Data *)

(** [struct bcache_block], without its node; [ptr] is the address of a buffer. *)
Record bcache_block := mk_block { blocknum : Z; ref_count : Z; is_dirty : bool; ptr : Z }.

Record bcache_stats := mk_stats { hits : Z; depth : Z; misses : Z; reads : Z; writes : Z }.

(** [struct bcache]: the fields that do not change, the two lists and the array
    by their addresses. *)
Record bcache (W : Type) := mk_bcache {
  dev : option (bdev W);
  block_size : Z;
  count : Z;
  fs_offset : Z;
  free_list : Z;
  lru_list : Z;
  blocks : Z;
}.
Arguments mk_bcache {W}. Arguments dev {W}. Arguments block_size {W}. Arguments count {W}. Arguments fs_offset {W}.
Arguments free_list {W}. Arguments lru_list {W}. Arguments blocks {W}.

(** The memory the cache lives in: nodes, blocks and buffers by address. *)
Record cache_mem (W : Type) := mk_mem {
  nodes : links;
  block_at : gmap Z bcache_block;
  buffer : gmap Z (list Z);
  stats : bcache_stats;
  bc_world : W;
}.
Arguments mk_mem {W}. Arguments nodes {W}. Arguments block_at {W}. Arguments buffer {W}. Arguments stats {W}.
Arguments bc_world {W}.

Definition BLOCK_LEN : Z := 40.
Definition CACHE_LEN : Z := 96.

Section Cache.
Context {W : Type} `{DmaHeap W} `{HeapApi W}.
Variables (debug : bool) (ERR_GENERIC : Z) (uninit : Z -> Z -> list Z).

Definition on_nodes {A} (c : M links A) : M (cache_mem W) A := fun s =>
  let '(o, n) := c (nodes s) in (o, mk_mem n (block_at s) (buffer s) (stats s) (bc_world s)).
Definition on_world {A} (c : M W A) : M (cache_mem W) A := fun s =>
  let '(o, w) := c (bc_world s) in (o, mk_mem (nodes s) (block_at s) (buffer s) (stats s) w).
Definition set_block (a : Z) (b : bcache_block) (s : cache_mem W) : cache_mem W :=
  mk_mem (nodes s) (<[a := b]> (block_at s)) (buffer s) (stats s) (bc_world s).
Definition set_buffer (a : Z) (b : list Z) (s : cache_mem W) : cache_mem W :=
  mk_mem (nodes s) (block_at s) (<[a := b]> (buffer s)) (stats s) (bc_world s).
Definition set_stats (f : bcache_stats -> bcache_stats) (s : cache_mem W) : cache_mem W :=
  mk_mem (nodes s) (block_at s) (buffer s) (f (stats s)) (bc_world s).
Definition set_nodes (n : links) (s : cache_mem W) : cache_mem W :=
  mk_mem n (block_at s) (buffer s) (stats s) (bc_world s).

(** Access through a pointer to a block, and to the buffer of a block. *)
Definition deref_block (a : Z) : M (cache_mem W) bcache_block := fun s =>
  match block_at s !! a with Some b => (Ret b, s) | None => (Undef, s) end.
Definition deref_buffer (a : Z) : M (cache_mem W) (list Z) := fun s =>
  match buffer s !! a with Some b => (Ret b, s) | None => (Undef, s) end.

Definition DEBUG_ASSERT (b : bool) : M (cache_mem W) unit := if debug && negb b then halt else ret tt.

Definition with_blocknum (n : Z) (b : bcache_block) : bcache_block := mk_block n (ref_count b) (is_dirty b) (ptr b).
Definition with_ref (r : Z) (b : bcache_block) : bcache_block := mk_block (blocknum b) r (is_dirty b) (ptr b).
Definition with_dirty (d : bool) (b : bcache_block) : bcache_block := mk_block (blocknum b) (ref_count b) d (ptr b).

(** A signed 32-bit counter; an overflow is undefined. *)
Definition int_add (a b : Z) : M (cache_mem W) Z := if s32 (a + b) =? a + b then ret (a + b) else undef.

(** ** Creation *)

(** The blocks from [i] on; the address of block [i] is [base + 40 * i].  The
    index of the first block whose buffer could not be allocated, if any. *)
Fixpoint create_blocks (n : nat) (i base block_size free_list : Z) : M (cache_mem W) (option Z) :=
  match n with
  | O => ret None
  | S n =>
      let a := base + BLOCK_LEN * i in
      let! p := on_world (heap_malloc block_size) in
      match p with
      | None => ret (Some i)
      | Some p =>
          modify (set_block a (mk_block 0 0 false p)) ;;;
          modify (set_buffer p (uninit p block_size)) ;;;
          modify (fun s => set_nodes (<[a := mk_node 0 0]> (nodes s)) s) ;;;
          on_nodes (list_add_head free_list a) ;;;
          create_blocks n (i + 1) base block_size free_list
      end
  end.

(** The release after a failure at block [failed] frees the pointers of all
    blocks: the one of that block is [NULL], those behind it were never set. *)
Fixpoint free_blocks (n : nat) (i base failed : Z) : M (cache_mem W) unit :=
  match n with
  | O => ret tt
  | S n =>
      (if i <? failed then let! b := deref_block (base + BLOCK_LEN * i) in on_world (heap_free (ptr b))
       else if i =? failed then ret tt else undef) ;;;
      free_blocks n (i + 1) base failed
  end.

Definition stats0 : bcache_stats := mk_stats 0 0 0 0 0.

(** The lists lie at 56 and 72 bytes in the structure. *)
Definition bcache_create (dev : option (bdev W)) (block_size block_count fs_offset : Z) : M (cache_mem W) (option (bcache W)) :=
  let! cache := on_world (heap_malloc CACHE_LEN) in
  match cache with
  | None => ret None
  | Some cache =>
      let free_list := cache + 56 in
      let lru_list := cache + 72 in
      modify (set_stats (fun _ => stats0)) ;;;
      modify (fun s => set_nodes (<[free_list := mk_node 0 0]> (<[lru_list := mk_node 0 0]> (nodes s))) s) ;;;
      on_nodes (list_initialize free_list) ;;;
      on_nodes (list_initialize lru_list) ;;;
      let! base := on_world (heap_malloc (u64 (BLOCK_LEN * u64 block_count))) in
      match base with
      | None => on_world (heap_free cache) ;;; ret None
      | Some base =>
          let n := Z.to_nat block_count in
          let! failed := create_blocks n 0 base block_size free_list in
          match failed with
          | None => ret (Some (mk_bcache dev block_size block_count fs_offset free_list lru_list base))
          | Some i => free_blocks n 0 base i ;;; on_world (heap_free base) ;;; on_world (heap_free cache) ;;; ret None
          end
      end
  end.

(** ** Blocks *)

Section Operations.
Variable cache : bcache W.

Definition flush_block (block : Z) : M (cache_mem W) Z :=
  let! b := deref_block block in
  let! data := deref_buffer (ptr b) in
  let! r := code (on_world (tegrabl_blockdev_write (dev cache) (ptr b) data
                              (u64 (blocknum b * block_size cache)) (block_size cache))) in
  match r with
  | inr _ => ret ERR_GENERIC
  | inl _ =>
      modify (set_block block (with_dirty false b)) ;;;
      modify (set_stats (fun t => mk_stats (hits t) (depth t) (misses t) (reads t) (u32 (writes t + 1)))) ;;;
      ret 0
  end.

(** [for (i = 0; i < cache->count; i++)] *)
Fixpoint destroy_blocks (n : nat) (i : Z) : M (cache_mem W) unit :=
  match n with
  | O => ret tt
  | S n =>
      let! b := deref_block (blocks cache + BLOCK_LEN * i) in
      DEBUG_ASSERT (ref_count b =? 0) ;;;
      on_world (heap_free (ptr b)) ;;;
      destroy_blocks n (i + 1)
  end.

(** [addr]: the address of the structure. *)
Definition bcache_destroy (addr : Z) : M (cache_mem W) unit :=
  destroy_blocks (Z.to_nat (count cache)) 0 ;;; on_world (heap_free addr).

(** The walk over the blocks in use, from [node] on. *)
Fixpoint find_from (fuel : nat) (num d node : Z) : M (cache_mem W) (option Z) :=
  if node =? lru_list cache then
    modify (set_stats (fun t => mk_stats (hits t) (depth t) (u32 (misses t + 1)) (reads t) (writes t))) ;;; ret None
  else
    match fuel with
    | O => nofuel
    | S fuel =>
        let! block := deref_block node in
        let d := u32 (d + 1) in
        if blocknum block =? num then
          on_nodes (list_delete node) ;;;
          on_nodes (list_add_tail (lru_list cache) node) ;;;
          modify (set_stats (fun t => mk_stats (u32 (hits t + 1)) (u32 (depth t + d)) (misses t) (reads t) (writes t))) ;;;
          ret (Some node)
        else let! n := on_nodes (load_next node) in find_from fuel num d n
    end.

Definition find_block (num : Z) : M (cache_mem W) (option Z) :=
  let! s := get in
  let! n := on_nodes (load_next (lru_list cache)) in
  find_from (size (nodes s)) num 0 n.

(** The walk that looks for a block nobody holds. *)
Fixpoint evict_from (fuel : nat) (node : Z) : M (cache_mem W) (option Z) :=
  if node =? lru_list cache then ret None
  else
    match fuel with
    | O => nofuel
    | S fuel =>
        let! block := deref_block node in
        if ref_count block =? 0 then
          let! rc := (if is_dirty block then flush_block node else ret 0) in
          if negb (rc =? 0) then ret None
          else
            on_nodes (list_delete node) ;;;
            on_nodes (list_add_tail (lru_list cache) node) ;;;
            ret (Some node)
        else let! n := on_nodes (load_next node) in evict_from fuel n
    end.

Definition alloc_block : M (cache_mem W) (option Z) :=
  let! item := on_nodes (list_remove_head (free_list cache)) in
  match item with
  | Some a =>
      let! b := deref_block a in
      modify (set_block a (with_ref 0 b)) ;;;
      on_nodes (list_add_tail (lru_list cache) a) ;;;
      ret (Some a)
  | None =>
      let! s := get in
      let! n := on_nodes (load_next (lru_list cache)) in
      evict_from (size (nodes s)) n
  end.

Definition find_or_fill_block (num : Z) : M (cache_mem W) (option Z) :=
  let! found := find_block num in
  match found with
  | Some a => let! b := deref_block a in DEBUG_ASSERT (blocknum b =? num) ;;; ret (Some a)
  | None =>
      let! block := alloc_block in
      DEBUG_ASSERT (bool_decide (is_Some block)) ;;;
      match block with
      | None => undef
      | Some a =>
          let! b := deref_block a in
          modify (set_block a (with_blocknum num b)) ;;;
          let! data := deref_buffer (ptr b) in
          let! r := code (on_world (tegrabl_blockdev_read (dev cache) (ptr b) data
                                      (u64 (fs_offset cache + u64 (num * block_size cache))) (block_size cache))) in
          match r with
          | inr _ => on_nodes (list_add_tail (free_list cache) a) ;;; ret None
          | inl data =>
              modify (set_buffer (ptr b) data) ;;;
              modify (set_stats (fun t => mk_stats (hits t) (depth t) (misses t) (u32 (reads t + 1)) (writes t))) ;;;
              DEBUG_ASSERT (num =? num) ;;;
              ret (Some a)
          end
      end
  end.

(** ** The interface *)

(** The result and the new content of [buf]. *)
Definition bcache_read_block (buf : list Z) (num : Z) : M (cache_mem W) (Z * list Z) :=
  let! block := find_or_fill_block num in
  match block with
  | None => ret (-1, buf)
  | Some a =>
      let! b := deref_block a in
      let! data := deref_buffer (ptr b) in
      let! src := lift (copy_from data 0 (block_size cache)) in
      let! buf := lift (copy_to buf 0 src) in
      ret (0, buf)
  end.

(** The result and [*ptr]. *)
Definition bcache_get_block (num : Z) : M (cache_mem W) (Z * option Z) :=
  let! block := find_or_fill_block num in
  match block with
  | None => ret (-1, None)
  | Some a =>
      let! b := deref_block a in
      let! r := int_add (ref_count b) 1 in
      modify (set_block a (with_ref r b)) ;;;
      ret (0, Some (ptr b))
  end.

Definition bcache_put_block (num : Z) : M (cache_mem W) Z :=
  let! block := find_block num in
  DEBUG_ASSERT (bool_decide (is_Some block)) ;;;
  match block with
  | None => undef
  | Some a =>
      let! b := deref_block a in
      DEBUG_ASSERT (0 <? ref_count b) ;;;
      let! r := int_add (ref_count b) (-1) in
      modify (set_block a (with_ref r b)) ;;;
      ret 0
  end.

Definition bcache_mark_block_dirty (num : Z) : M (cache_mem W) Z :=
  let! block := find_block num in
  match block with
  | None => ret (-1)
  | Some a =>
      let! b := deref_block a in
      modify (set_block a (with_dirty true b)) ;;;
      ret 0
  end.

Definition bcache_zero_block (num : Z) : M (cache_mem W) Z :=
  let! found := find_block num in
  let! block := (match found with
                 | Some a => ret (Some a)
                 | None =>
                     let! block := alloc_block in
                     match block with
                     | None => ret None
                     | Some a => let! b := deref_block a in modify (set_block a (with_blocknum num b)) ;;; ret (Some a)
                     end
                 end) in
  match block with
  | None => ret (-1)
  | Some a =>
      let! b := deref_block a in
      let! data := deref_buffer (ptr b) in
      let! data := lift (copy_to data 0 (repeat 0 (Z.to_nat (block_size cache)))) in
      modify (set_buffer (ptr b) data) ;;;
      modify (set_block a (with_dirty true b)) ;;;
      ret 0
  end.

(** The walk of [bcache_flush]. *)
Fixpoint flush_from (fuel : nat) (node : Z) : M (cache_mem W) Z :=
  if node =? lru_list cache then ret 0
  else
    match fuel with
    | O => nofuel
    | S fuel =>
        let! block := deref_block node in
        let! rc := (if is_dirty block then flush_block node else ret 0) in
        if negb (rc =? 0) then ret rc
        else let! n := on_nodes (load_next node) in flush_from fuel n
    end.

Definition bcache_flush : M (cache_mem W) Z :=
  let! s := get in
  let! n := on_nodes (load_next (lru_list cache)) in
  flush_from (size (nodes s)) n.
End Operations.
End Cache.
