(* ===== verification/BcacheSpec.v ===== *)
(** * Block cache: correctness

    The cache in front of a device behaves as a store of blocks: what a caller
    reads, and finds behind the pointers it holds, is what was last written,
    whatever has been evicted and reloaded meanwhile. *)
From S2P Require Import Prelude Interfaces BlockDev BlockSpec.
From stdpp Require Import gmap.
From S2P Require Import LinkedList Bcache.
#[local] Open Scope Z_scope.

(** ** The blocks of a cache *)

(** A block of the array with its buffer. *)
Record entry := mk_entry { e_addr : Z; e_num : Z; e_ref : Z; e_dirty : bool; e_ptr : Z; e_data : list Z }.
Definition blk (e : entry) : bcache_block := mk_block (e_num e) (e_ref e) (e_dirty e) (e_ptr e).

Section Cache.
Context {W : Type} `{DmaHeap W} `{HeapApi W}.
Variable c : bcache W.
Notation bs := (Z.to_nat (block_size c)).

(** The memory holds the free blocks [fl] and the blocks in use [ll], the one
    used last at the end. *)
Record rep (s : cache_mem W) (fl ll : list entry) : Prop := {
  r_free : ring (nodes s) (free_list c) (map e_addr fl);
  r_lru : ring (nodes s) (lru_list c) (map e_addr ll);
  r_nodes : NoDup (free_list c :: lru_list c :: map e_addr fl ++ map e_addr ll);
  r_ptrs : NoDup (map e_ptr fl ++ map e_ptr ll);
  r_blocks : forall e, e ∈ fl ++ ll ->
    block_at s !! e_addr e = Some (blk e) /\ buffer s !! e_ptr e = Some (e_data e) /\
    0 < e_ptr e /\ length (e_data e) = bs;
}.

(** Changes that do not concern the blocks. *)
Lemma rep_stats s fl ll f : rep s fl ll -> rep (set_stats f s) fl ll.
Proof. by intros []. Qed.

Lemma rep_world s fl ll w : rep s fl ll -> rep (mk_mem (nodes s) (block_at s) (buffer s) (stats s) w) fl ll.
Proof. by intros []. Qed.

Lemma deref_run s fl ll e : rep s fl ll -> e ∈ fl ++ ll -> deref_block (e_addr e) s = (Ret (blk e), s).
Proof. intros Hr He. destruct (r_blocks _ _ _ Hr e He) as [E _]. unfold deref_block. by rewrite E. Qed.

Lemma buffer_run s fl ll e : rep s fl ll -> e ∈ fl ++ ll -> deref_buffer (e_ptr e) s = (Ret (e_data e), s).
Proof. intros Hr He. destruct (r_blocks _ _ _ Hr e He) as (_ & E & _). unfold deref_buffer. by rewrite E. Qed.

Lemma NoDup_map_in (f : entry -> Z) l e e' : NoDup (map f l) -> e ∈ l -> e' ∈ l -> f e = f e' -> e = e'.
Proof.
  intros Hd He He' Heq. induction l as [|x l IH]; [by apply elem_of_nil in He|]. cbn in Hd.
  apply NoDup_cons in Hd as [Hx Hd]. apply elem_of_cons in He as [->|He]; apply elem_of_cons in He' as [->|He']; auto.
  - destruct Hx. rewrite Heq. by apply list_elem_of_fmap_2.
  - destruct Hx. rewrite <- Heq. by apply list_elem_of_fmap_2.
Qed.

Lemma NoDup_map_split (f : entry -> Z) fl l1 e l2 x : NoDup (map f (fl ++ l1 ++ e :: l2)) ->
  x ∈ fl ++ l1 ++ l2 -> x ∈ fl ++ l1 ++ e :: l2 /\ x <> e.
Proof.
  intros Hd Hx. apply NoDup_fmap_1 in Hd. assert (Hp : fl ++ l1 ++ e :: l2 ≡ₚ e :: fl ++ l1 ++ l2).
  { rewrite <- Permutation_middle, Permutation_middle. by rewrite !app_assoc, Permutation_middle. }
  split; [rewrite Hp; by right|]. intros ->. rewrite Hp in Hd. apply NoDup_cons in Hd as [Hn _]. done.
Qed.

(** One block changed in place. *)
Lemma rep_update s fl l1 e l2 e' :
  rep s fl (l1 ++ e :: l2) -> e_addr e' = e_addr e -> e_ptr e' = e_ptr e -> length (e_data e') = bs ->
  rep (set_block (e_addr e) (blk e') (set_buffer (e_ptr e) (e_data e') s)) fl (l1 ++ e' :: l2).
Proof.
  intros [Hf Hl Hn Hp Hb] Ea Ep Elen.
  assert (Hin : e ∈ fl ++ l1 ++ e :: l2) by (apply elem_of_app; right; apply elem_of_app; right; by left).
  assert (Em : map e_addr (l1 ++ e' :: l2) = map e_addr (l1 ++ e :: l2)) by (rewrite !map_app; cbn; by rewrite Ea).
  assert (Emp : map e_ptr (l1 ++ e' :: l2) = map e_ptr (l1 ++ e :: l2)) by (rewrite !map_app; cbn; by rewrite Ep).
  split; rewrite ?Em, ?Emp; try done. intros x Hx. cbn. apply NoDup_cons in Hn as [_ Hn]. apply NoDup_cons in Hn as [_ Hn].
  assert (x = e' \/ (x ∈ fl ++ l1 ++ e :: l2 /\ x <> e)) as [->|[Hx' Hne]].
  { assert (Hsp : x = e' \/ x ∈ fl ++ l1 ++ l2).
    { rewrite !elem_of_app, elem_of_cons in Hx. rewrite !elem_of_app. tauto. }
    destruct Hsp as [->|Hx']; [by left|right]. apply (NoDup_map_split e_addr); [|done]. by rewrite map_app. }
  - rewrite Ea, Ep. rewrite !lookup_insert_eq. destruct (Hb e Hin) as (_ & _ & ? & _). done.
  - destruct (Hb x Hx') as (B1 & B2 & B3 & B4).
    assert (e_addr x <> e_addr e).
    { intros Heq. apply Hne. eapply (NoDup_map_in e_addr (fl ++ l1 ++ e :: l2)); try done. by rewrite map_app. }
    assert (e_ptr x <> e_ptr e).
    { intros Heq. apply Hne. eapply (NoDup_map_in e_ptr (fl ++ l1 ++ e :: l2)); try done. by rewrite map_app. }
    by rewrite !lookup_insert_ne by congruence.
Qed.

(** A run of list operations. *)
Lemma on_nodes_run {A} (o : M links A) (s : cache_mem W) r n :
  o (nodes s) = (r, n) -> on_nodes o s = (r, set_nodes n s).
Proof. intros E. unfold on_nodes. by rewrite E. Qed.

Lemma rep_nodes s fl ll n fl' ll' : rep s fl ll -> fl' ++ ll' ≡ₚ fl ++ ll ->
  ring n (free_list c) (map e_addr fl') -> ring n (lru_list c) (map e_addr ll') -> rep (set_nodes n s) fl' ll'.
Proof.
  intros [Hf Hl Hn Hp Hb] Hperm Hf' Hl'. split; cbn; try done.
  - rewrite <- map_app. rewrite <- map_app in Hn. eapply NoDup_Permutation_proper; [|exact Hn]. by rewrite Hperm.
  - rewrite <- map_app. rewrite <- map_app in Hp. eapply NoDup_Permutation_proper; [|exact Hp]. by rewrite Hperm.
  - intros e He. apply Hb. by rewrite <- Hperm.
Qed.

Lemma free_lru_apart s fl ll a : rep s fl ll -> a ∈ free_list c :: map e_addr fl -> a ∉ lru_list c :: map e_addr ll.
Proof.
  intros [_ _ Hn _ _] Ha Hl. assert (Hn' : NoDup ((free_list c :: map e_addr fl) ++ lru_list c :: map e_addr ll)).
  { eapply NoDup_Permutation_proper; [|exact Hn]. cbn. by rewrite <- Permutation_middle. }
  apply NoDup_app in Hn' as (_ & Hd & _). by eapply Hd.
Qed.

(** A block moved to the end of the used ones. *)
Lemma touch_run s fl l1 e l2 : rep s fl (l1 ++ e :: l2) ->
  exists n, (on_nodes (list_delete (e_addr e)) ;;; on_nodes (list_add_tail (lru_list c) (e_addr e))) s = (Ret tt, set_nodes n s) /\
    rep (set_nodes n s) fl (l1 ++ l2 ++ [e]).
Proof.
  intros Hr. pose proof Hr as [Hf Hl Hn Hp Hb]. rewrite map_app in Hl. cbn [map] in Hl.
  destruct (delete_run _ _ _ _ _ Hl) as (n1 & E1 & Hl1 & Hw1 & _). pose proof Hl as [Hd _].
  assert (Hx : e_addr e ∉ lru_list c :: map e_addr l1 ++ map e_addr l2).
  { assert (Hd' : NoDup (e_addr e :: lru_list c :: map e_addr l1 ++ map e_addr l2)).
    { eapply NoDup_Permutation_proper; [|exact Hd]. by rewrite Permutation_swap, Permutation_middle. }
    by apply NoDup_cons in Hd' as [? _]. }
  assert (Px : is_Some (n1 !! e_addr e)).
  { apply Hw1. eapply ring_present; [exact Hl|]. right. apply elem_of_app. right. by left. }
  destruct (add_tail_run n1 (lru_list c) _ (e_addr e) Hl1 Hx Px) as (n2 & E2 & Hl2 & Hw2).
  assert (Hap : forall a, a ∈ free_list c :: map e_addr fl -> a ∉ lru_list c :: map e_addr l1 ++ e_addr e :: map e_addr l2).
  { intros a Ha. pose proof (free_lru_apart _ _ _ a Hr Ha) as Hna. by rewrite map_app in Hna. }
  exists n2. split.
  - unfold bind. rewrite (on_nodes_run _ s _ _ E1). cbn. rewrite (on_nodes_run _ (set_nodes n1 s) _ _ E2). done.
  - apply (rep_nodes _ _ _ _ _ _ Hr); [by apply Permutation_app_head, Permutation_app_head, symmetry, Permutation_cons_append|..].
    + eapply ring_within; [exact Hw2| |].
      * eapply ring_within; [exact Hw1|exact Hf|exact Hap].
      * intros a Ha Hin. apply (Hap a Ha). apply elem_of_cons in Hin as [->|Hin]; [right; apply elem_of_app; right; by left|].
        by apply in_fewer.
    + rewrite !map_app. cbn. by rewrite app_assoc.
Qed.

Lemma lru_next s fl l1 e l2 : rep s fl (l1 ++ e :: l2) ->
  on_nodes (load_next (e_addr e)) s = (Ret (first_of (map e_addr l2) (lru_list c)), s).
Proof.
  intros [_ Hl _ _ _]. rewrite map_app in Hl. destruct (ring_next _ _ _ _ _ Hl) as [En _].
  rewrite (on_nodes_run _ s _ _ (load_next_run _ _ _ En)). by destruct s.
Qed.

Lemma lru_first s fl ll : rep s fl ll ->
  on_nodes (load_next (lru_list c)) s = (Ret (first_of (map e_addr ll) (lru_list c)), s).
Proof.
  intros [_ Hl _ _ _]. destruct (ring_ends _ _ _ Hl) as (En & _).
  rewrite (on_nodes_run _ s _ _ (load_next_run _ _ _ En)). by destruct s.
Qed.

Lemma lru_fits s fl ll : rep s fl ll -> (length ll <= size (nodes s))%nat.
Proof. intros [_ Hl _ _ _]. apply ring_fits in Hl. cbn in Hl. rewrite length_map in Hl. lia. Qed.

Lemma not_head s fl l1 e l2 : rep s fl (l1 ++ e :: l2) -> (e_addr e =? lru_list c) = false.
Proof.
  intros [_ [Hd _] _ _ _]. apply Z.eqb_neq. intros Heq. apply NoDup_cons in Hd as [Hd _]. apply Hd. rewrite <- Heq, map_app.
  apply elem_of_app. right. by left.
Qed.

(** What a search does. *)
Definition looked_up (num : Z) (fl l : list entry) (s : cache_mem W) (r : option Z) (s' : cache_mem W) : Prop :=
  bc_world s' = bc_world s /\
  match r with
  | None => (forall e, e ∈ l -> e_num e <> num) /\ rep s' fl l
  | Some a => exists l1 e l2, l = l1 ++ e :: l2 /\ a = e_addr e /\ e_num e = num /\ rep s' fl (l1 ++ l2 ++ [e])
  end.

Lemma find_from_run num fl l2 : forall fuel l1 d s, rep s fl (l1 ++ l2) -> (length l2 <= fuel)%nat ->
  (forall e, e ∈ l1 -> e_num e <> num) ->
  exists r s', find_from c fuel num d (first_of (map e_addr l2) (lru_list c)) s = (Ret r, s') /\
    looked_up num fl (l1 ++ l2) s r s'.
Proof.
  induction l2 as [|e l2 IH]; intros fuel l1 d s Hr Hfuel Hno.
  - exists None. eexists. split; [destruct fuel; cbn; rewrite Z.eqb_refl; reflexivity|]. split; [done|].
    rewrite app_nil_r in *. split; [done|]. by apply rep_stats.
  - destruct fuel as [|fuel]; [cbn in Hfuel; lia|]. cbn [map first_of find_from].
    assert (Hin : e ∈ fl ++ l1 ++ e :: l2) by (apply elem_of_app; right; apply elem_of_app; right; by left).
    rewrite (not_head _ _ _ _ _ Hr). unfold bind at 1. rewrite (deref_run _ _ _ _ Hr Hin). cbn [blk blocknum].
    destruct (Z.eqb_spec (e_num e) num) as [Hnum|Hnum].
    + destruct (touch_run s fl l1 e l2 Hr) as (n & E & Hr').
      exists (Some (e_addr e)). eexists. split.
      { unfold bind in E |- *. destruct (on_nodes (list_delete (e_addr e)) s) as [[[]|e1| | |] s1]; try done. rewrite E. reflexivity. }
      split; [done|]. exists l1, e, l2. split_and!; try done. by apply rep_stats.
    + unfold bind. rewrite (lru_next s fl l1 e l2 Hr).
      destruct (IH fuel (l1 ++ [e]) (u32 (d + 1)) s) as (r & s' & E & Hl).
      * by rewrite <- app_assoc.
      * cbn in Hfuel. lia.
      * intros x Hx. apply elem_of_app in Hx as [Hx|Hx]; [by apply Hno|]. by apply list_elem_of_singleton in Hx as ->.
      * rewrite <- app_assoc in Hl. by exists r, s'.
Qed.

Lemma find_block_run num s fl ll : rep s fl ll ->
  exists r s', find_block c num s = (Ret r, s') /\ looked_up num fl ll s r s'.
Proof.
  intros Hr. pose proof (lru_fits _ _ _ Hr). unfold find_block, bind at 1, get. unfold bind. rewrite (lru_first _ _ _ Hr).
  apply (find_from_run num fl ll (size (nodes s)) [] 0 s Hr); [done|]. intros e He. by apply elem_of_nil in He.
Qed.
End Cache.

(** A free block put to use. *)
Definition unheld (e : entry) : entry := mk_entry (e_addr e) (e_num e) 0 (e_dirty e) (e_ptr e) (e_data e).

Lemma alloc_free_run {W} `{DmaHeap W} (ERR_GENERIC : Z) (c : bcache W) s e0 fl ll : rep c s (e0 :: fl) ll ->
  exists s', alloc_block ERR_GENERIC c s = (Ret (Some (e_addr e0)), s') /\ rep c s' fl (ll ++ [unheld e0]) /\
    bc_world s' = bc_world s.
Proof.
  intros Hr. pose proof Hr as [Hf Hl Hn Hp Hb]. unfold alloc_block, bind at 1.
  cbn [map] in Hf. destruct (delete_run _ _ [] _ _ Hf) as (n1 & E1 & Hf1 & Hw1 & _). cbn [app] in *.
  assert (Eh : list_remove_head (free_list c) (nodes s) = (Ret (Some (e_addr e0)), n1)).
  { destruct (ring_ends _ _ _ Hf) as (En & _). unfold list_remove_head, bind. rewrite (load_next_run _ _ _ En). cbn.
    destruct Hf as [Hd0 _]. apply NoDup_cons in Hd0 as [Hh _].
    destruct (Z.eqb_spec (e_addr e0) (free_list c)) as [Eq|]; [destruct Hh; rewrite Eq; by left|]. cbn. by rewrite E1. }
  rewrite (on_nodes_run _ s _ _ Eh). unfold bind at 1.
  set (e := unheld e0).
  assert (Hin : e0 ∈ (e0 :: fl) ++ ll) by by left. destruct (Hb e0 Hin) as (B1 & B2 & B3 & B4).
  unfold deref_block. cbn [block_at set_nodes]. rewrite B1. unfold bind at 1, modify.
  assert (Hapart : forall a, a ∈ lru_list c :: map e_addr ll -> a ∉ free_list c :: e_addr e0 :: map e_addr fl).
  { intros a Ha Hi. by eapply (free_lru_apart c s (e0 :: fl) ll a Hr). }
  assert (Hl1 : ring n1 (lru_list c) (map e_addr ll)) by (eapply ring_within; [exact Hw1|exact Hl|exact Hapart]).
  assert (Hx : e_addr e0 ∉ lru_list c :: map e_addr ll) by (intros Hi; eapply Hapart; [exact Hi|right; by left]).
  assert (Px : is_Some (n1 !! e_addr e0)) by (apply Hw1; eapply ring_present; [exact Hf|right; by left]).
  destruct (add_tail_run n1 (lru_list c) _ (e_addr e0) Hl1 Hx Px) as (n2 & E2 & Hl2 & Hw2).
  unfold bind, on_nodes. cbn [nodes set_block set_nodes]. rewrite E2.
  eexists. split; [reflexivity|]. split; [|done].
  assert (Hf2 : ring n2 (free_list c) (map e_addr fl)).
  { eapply ring_within; [exact Hw2|exact Hf1|]. intros a Ha Hi. apply elem_of_cons in Hi as [->|Hi].
    - destruct Hf as [Hd0 _]. apply NoDup_cons in Hd0 as [Hd1 Hd2]. apply NoDup_cons in Hd2 as [Hd2 _].
      apply elem_of_cons in Ha as [Ha|Ha]; [|done]. apply Hd1. rewrite <- Ha. by left.
    - apply (Hapart a Hi). apply elem_of_cons in Ha as [->|Ha]; [by left|by do 2 right]. }
  assert (Hrn : rep c (set_nodes n2 s) fl (ll ++ [e0])).
  { apply (rep_nodes c s (e0 :: fl) ll); [done| |done|by rewrite map_app].
    by rewrite app_assoc, <- Permutation_cons_append. }
  pose proof (rep_update c _ fl ll e0 [] e Hrn eq_refl eq_refl B4) as Hu.
  unfold set_buffer in Hu. cbn in Hu. rewrite insert_id in Hu by exact B2. exact Hu.
Qed.

(** ** The cache and its device *)

Section Coherence.
Context {W : Type} `{DmaHeap W} `{HeapApi W} (debug : bool) (ERR_GENERIC : Z).
Variables (c : bcache W) (d : bdev W).
Context `{!FlatDevice d}.
Hypotheses (Hdev : dev c = Some d) (Hread : read d = default_hook) (Hwrite : write d = default_hook)
  (Hok : ~ may_fail) (Hbs : 0 < block_size c) (Hfs : 0 <= fs_offset c).
Notation bs := (Z.to_nat (block_size c)).
Notation disk s := (content (d := d) (bc_world s)).

(** The place of a block on the device. *)
Definition place (n : Z) : Z := fs_offset c + n * block_size c.
Definition valid (n : Z) : Prop := 0 <= n /\ place n + block_size c <= BlockDev.size d.
Definition block_of (C : list Z) (n : Z) : list Z := slice C (Z.to_nat (place n)) bs.

Lemma place_u64 n : valid n -> u64 (fs_offset c + u64 (n * block_size c)) = place n /\
  u64 (n * block_size c) = n * block_size c /\ 0 <= n * block_size c.
Proof.
  unfold valid, place. intros [H1 H2]. pose proof (size_bound d).
  assert (0 <= n * block_size c) by (apply Z.mul_nonneg_nonneg; lia).
  rewrite (wrapw_small 64 (n * block_size c)), wrapw_small by (unfold in_word; lia). done.
Qed.

Definition with_data (x : list Z) (e : entry) : entry := mk_entry (e_addr e) (e_num e) (e_ref e) (e_dirty e) (e_ptr e) x.
Definition clean (e : entry) : entry := mk_entry (e_addr e) (e_num e) (e_ref e) false (e_ptr e) (e_data e).

Lemma device_write_run p data n w : valid n -> fs_offset c = 0 -> 0 < p -> length data = bs ->
  exists w', tegrabl_blockdev_write (dev c) p data (u64 (n * block_size c)) (block_size c) w = (Ret tt, w') /\
    content (d := d) w' = blit (content (d := d) w) (Z.to_nat (place n)) data.
Proof.
  intros Hv Hz Hp Hl. destruct (place_u64 n Hv) as (_ & E & Hpos). rewrite Hdev, E.
  unfold valid, place in *. destruct Hv as [Hn Hv]. rewrite Hz in *.
  pose proof (t_blockdev_write d p (n * block_size c) (block_size c) data (content (d := d) w) Hp Hpos Hbs ltac:(lia)
    ltac:(lia) (dev_length w) Hwrite w eq_refl) as Ht.
  destruct (tegrabl_blockdev_write _ _ _ _ _ w) as [[[]|e| | |] w']; destruct Ht as [_ Ht]; try done; [|by destruct Ht].
  exists w'. split; [done|]. rewrite <- Ht, take_ge by lia. f_equal.
Qed.

Lemma device_read_run p data n w : valid n -> 0 < p -> length data = bs ->
  exists w', tegrabl_blockdev_read (dev c) p data (u64 (fs_offset c + u64 (n * block_size c))) (block_size c) w =
      (Ret (block_of (content (d := d) w) n), w') /\
    content (d := d) w' = content (d := d) w.
Proof.
  intros Hv Hp Hl. destruct (place_u64 n Hv) as (E & _ & Hpos). rewrite Hdev, E.
  destruct Hv as [Hn Hv]. assert (0 <= place n) by (unfold place in *; lia).
  pose proof (t_blockdev_read d p (place n) (block_size c) data (content (d := d) w) Hp ltac:(lia) Hbs ltac:(lia)
    ltac:(lia) (dev_length w) Hread w eq_refl) as Ht.
  destruct (tegrabl_blockdev_read _ _ _ _ _ w) as [[b|e| | |] w']; destruct Ht as [_ Ht]; try done; [|by destruct Ht].
  destruct Ht as [Hc ->]. exists w'. split; [|done]. rewrite blit_full; [done|]. 
  pose proof (dev_length w). rewrite length_slice. lia.
Qed.

Lemma flush_block_run s fl l1 e l2 : rep c s fl (l1 ++ e :: l2) -> valid (e_num e) -> fs_offset c = 0 ->
  exists s', flush_block ERR_GENERIC c (e_addr e) s = (Ret 0, s') /\ rep c s' fl (l1 ++ clean e :: l2) /\
    disk s' = blit (disk s) (Z.to_nat (place (e_num e))) (e_data e) /\ nodes s' = nodes s.
Proof.
  intros Hr Hv Hz. assert (Hin : e ∈ fl ++ l1 ++ e :: l2) by (apply elem_of_app; right; apply elem_of_app; right; by left).
  destruct (r_blocks _ _ _ _ Hr e Hin) as (_ & Hbuf & Hp & Hl).
  destruct (device_write_run (e_ptr e) (e_data e) (e_num e) (bc_world s) Hv Hz Hp Hl) as (w' & E & Hc).
  unfold flush_block, bind at 1. rewrite (deref_run _ _ _ _ _ Hr Hin). unfold bind at 1. cbn [blk ptr].
  rewrite (buffer_run _ _ _ _ _ Hr Hin). unfold bind at 1, code, on_world. cbn [blk ptr blocknum]. rewrite E.
  eexists. split; [reflexivity|]. split; [|done]. apply rep_stats.
  pose proof (rep_update c (mk_mem (nodes s) (block_at s) (buffer s) (stats s) w') fl l1 e l2 (clean e)
    (rep_world _ _ _ _ _ Hr) eq_refl eq_refl Hl) as Hu.
  unfold set_buffer in Hu. cbn in Hu. rewrite insert_id in Hu by exact Hbuf. exact Hu.
Qed.

(** What writing a block back leaves on the device. *)
Definition written_back (e : entry) (C : list Z) : list Z :=
  if e_dirty e then blit C (Z.to_nat (place (e_num e))) (e_data e) else C.

Lemma evict_from_run fl l2 : forall fuel l1 s, rep c s fl (l1 ++ l2) -> (length l2 <= fuel)%nat ->
  (forall e, e ∈ l2 -> e_dirty e = true -> valid (e_num e) /\ fs_offset c = 0) -> Exists (fun e => e_ref e = 0) l2 ->
  exists s' la e lb, evict_from ERR_GENERIC c fuel (first_of (map e_addr l2) (lru_list c)) s = (Ret (Some (e_addr e)), s') /\
    l2 = la ++ e :: lb /\ e_ref e = 0 /\ rep c s' fl ((l1 ++ la ++ lb) ++ [clean e]) /\ disk s' = written_back e (disk s).
Proof.
  induction l2 as [|e l2 IH]; intros fuel l1 s Hr Hfuel Hd Hex; [by apply Exists_nil in Hex|].
  destruct fuel as [|fuel]; [cbn in Hfuel; lia|]. cbn [map first_of evict_from].
  assert (Hin : e ∈ fl ++ l1 ++ e :: l2) by (apply elem_of_app; right; apply elem_of_app; right; by left).
  rewrite (not_head _ _ _ _ _ _ Hr). unfold bind at 1. rewrite (deref_run _ _ _ _ _ Hr Hin). cbn [blk ref_count is_dirty].
  destruct (Z.eqb_spec (e_ref e) 0) as [H0r|H0r].
  - assert (Hstep : exists s1, (if e_dirty e then flush_block ERR_GENERIC c (e_addr e) else ret 0) s = (Ret 0, s1) /\
      rep c s1 fl (l1 ++ clean e :: l2) /\ disk s1 = written_back e (disk s)).
    { unfold written_back. destruct (e_dirty e) eqn:Ed.
      - destruct (Hd e ltac:(by left) Ed) as [Hv Hz]. destruct (flush_block_run s fl l1 e l2 Hr Hv Hz) as (s1 & E & Hr1 & Hc & _).
        by exists s1.
      - exists s. split; [done|]. split; [|done]. unfold clean. rewrite <- Ed. by destruct e. }
    destruct Hstep as (s1 & E1 & Hr1 & Hc1). unfold bind at 1. rewrite E1. cbn [Z.eqb negb].
    destruct (touch_run c s1 fl l1 (clean e) l2 Hr1) as (n & E2 & Hr2).
    exists (set_nodes n s1), [], e, l2. split; [|split; [done|split; [done|split; [|exact Hc1]]]].
    + cbn [clean e_addr] in E2. unfold bind in E2 |- *.
      destruct (on_nodes (list_delete (e_addr e)) s1) as [[[]|e1| | |] s2]; try done. by rewrite E2.
    + by rewrite <- app_assoc.
  - unfold bind. rewrite (lru_next c s fl l1 e l2 Hr).
    apply Exists_cons in Hex as [Hex|Hex]; [done|].
    destruct (IH fuel (l1 ++ [e]) s) as (s' & la & x & lb & E & -> & Hx & Hr' & Hc).
    + by rewrite <- app_assoc.
    + cbn in Hfuel. lia.
    + intros y Hy. apply Hd. by right.
    + done.
    + exists s', (e :: la), x, lb. split_and!; [done|done|done| |done].
      rewrite <- !app_assoc in Hr'. rewrite <- !app_assoc. exact Hr'.
Qed.

(** The block [alloc_block] picks, what stays in use, and the device after it. *)
Definition picked (fl ll : list entry) (C : list Z) (fl' rest : list entry) (e : entry) (C' : list Z) : Prop :=
  (exists e0, fl = e0 :: fl' /\ rest = ll /\ C' = C /\ e = mk_entry (e_addr e0) (e_num e0) 0 (e_dirty e0) (e_ptr e0) (e_data e0)) \/
  (exists e0 la lb, fl = [] /\ fl' = [] /\ ll = la ++ e0 :: lb /\ rest = la ++ lb /\ e_ref e0 = 0 /\ e = clean e0 /\
     C' = written_back e0 C).

Lemma alloc_block_run s fl ll : rep c s fl ll ->
  (forall e, e ∈ ll -> e_dirty e = true -> valid (e_num e) /\ fs_offset c = 0) ->
  fl <> [] \/ Exists (fun e => e_ref e = 0) ll ->
  exists s' fl' rest e, alloc_block ERR_GENERIC c s = (Ret (Some (e_addr e)), s') /\ rep c s' fl' (rest ++ [e]) /\
    picked fl ll (disk s) fl' rest e (disk s').
Proof.
  intros Hr Hd Hroom. pose proof Hr as [Hf Hl Hn Hp Hb]. unfold alloc_block, bind at 1. destruct fl as [|e0 fl].
  - assert (Eh : list_remove_head (free_list c) (nodes s) = (Ret None, nodes s)).
    { destruct (ring_ends _ _ _ Hf) as (En & _). unfold list_remove_head, bind. rewrite (load_next_run _ _ _ En). cbn. by rewrite Z.eqb_refl. }
    rewrite (on_nodes_run _ s _ _ Eh). assert (Es : set_nodes (nodes s) s = s) by (by destruct s). rewrite Es.
    unfold bind at 1, get. unfold bind. rewrite (lru_first c s [] ll Hr).
    destruct Hroom as [Hroom|Hroom]; [done|].
    destruct (evict_from_run [] ll (size (nodes s)) [] s Hr (lru_fits _ _ _ _ Hr) Hd Hroom) as (s' & la & e & lb & E & -> & Hx & Hr' & Hc).
    exists s', [], (la ++ lb), (clean e). split; [exact E|]. split; [exact Hr'|]. right. by exists e, la, lb.
  - destruct (alloc_free_run ERR_GENERIC c s e0 fl ll Hr) as (s' & E & Hr' & Hw). unfold alloc_block, bind at 1 in E. rewrite E.
    exists s', fl, ll, (unheld e0). split; [done|]. split; [exact Hr'|]. left. rewrite Hw. by exists e0.
Qed.

(** ** Coherence *)

Record coherent (fl ll : list entry) (C : list Z) : Prop := {
  co_valid : forall e, e ∈ ll -> valid (e_num e) /\ length (e_data e) = bs;
  co_nums : NoDup (map e_num ll);
  co_clean : forall e, e ∈ ll -> e_dirty e = false -> e_data e = block_of C (e_num e);
  co_dirty : forall e, e ∈ ll -> e_dirty e = true -> fs_offset c = 0;
  co_free : forall e, e ∈ fl -> e_dirty e = false;
}.

(** The content of a block as a caller sees it. *)
Definition view (ll : list entry) (C : list Z) (n : Z) : list Z :=
  match find (fun e => e_num e =? n) ll with Some e => e_data e | None => block_of C n end.

Lemma view_in ll C e : NoDup (map e_num ll) -> e ∈ ll -> view ll C (e_num e) = e_data e.
Proof.
  intros Hd He. unfold view. destruct (find _ ll) as [e'|] eqn:E.
  - apply find_some in E as [He' E]. apply list_elem_of_In in He'. f_equal. eapply (NoDup_map_in e_num); try done. lia.
  - apply list_elem_of_In in He. apply (find_none _ _ E) in He. lia.
Qed.

Lemma view_out ll C n : (forall e, e ∈ ll -> e_num e <> n) -> view ll C n = block_of C n.
Proof.
  intros Hn. unfold view. destruct (find _ ll) as [e|] eqn:E; [|done]. apply find_some in E as [He E].
  apply list_elem_of_In in He. destruct (Hn e He). lia.
Qed.

Lemma view_perm ll ll' C n : NoDup (map e_num ll) -> ll' ≡ₚ ll -> view ll' C n = view ll C n.
Proof.
  intros Hd Hp. destruct (find (fun e => e_num e =? n) ll) as [e|] eqn:E.
  - apply find_some in E as [He E]. apply list_elem_of_In in He. assert (n = e_num e) as -> by lia.
    rewrite !view_in; [done|done|done| |by rewrite Hp]. eapply NoDup_Permutation_proper; [|exact Hd]. by rewrite Hp.
  - assert (Hno : forall e, e ∈ ll -> e_num e <> n).
    { intros e He. apply list_elem_of_In in He. apply (find_none _ _ E) in He. lia. }
    rewrite !view_out; [done|done|]. intros e He. apply Hno. by rewrite <- Hp.
Qed.

Lemma block_of_blit C n m data : Z.of_nat (length C) = BlockDev.size d -> valid n -> valid m -> length data = bs ->
  block_of (blit C (Z.to_nat (place n)) data) m = if decide (m = n) then data else block_of C m.
Proof.
  intros HC [Hn1 Hn2] [Hm1 Hm2] Hl. assert (0 <= place n) by (unfold place; nia). assert (0 <= place m) by (unfold place; nia).
  destruct (decide (m = n)) as [->|Hne].
  - unfold block_of. rewrite <- Hl. apply slice_blit. lia.
  - apply list_eq. intros k. unfold block_of. rewrite !lookup_slice. destruct (decide (k < bs)%nat); [|done].
    rewrite lookup_blit by lia. destruct (decide _); [|done]. exfalso. unfold place in *.
    assert (n + 1 <= m \/ m + 1 <= n) as [Hlt|Hlt] by lia.
    + pose proof (Z.mul_le_mono_nonneg_r (n + 1) m (block_size c) ltac:(lia) Hlt). lia.
    + pose proof (Z.mul_le_mono_nonneg_r (m + 1) n (block_size c) ltac:(lia) Hlt). lia.
Qed.

Lemma coherent_perm fl ll ll' C : coherent fl ll C -> ll' ≡ₚ ll -> coherent fl ll' C.
Proof.
  intros [H1 H2 H3 H4 H5] Hp. split; try done.
  - intros e He. apply H1. by rewrite <- Hp.
  - eapply NoDup_Permutation_proper; [|exact H2]. by rewrite Hp.
  - intros e He. apply H3. by rewrite <- Hp.
  - intros e He. apply H4. by rewrite <- Hp.
Qed.

(** A used block taken out, after it has been written back. *)
Lemma coherent_take fl e ll C : Z.of_nat (length C) = BlockDev.size d -> coherent fl (e :: ll) C ->
  coherent fl ll (written_back e C) /\ forall m, valid m -> view ll (written_back e C) m = view (e :: ll) C m.
Proof.
  intros HC [C1 C2 C3 C4 C5]. cbn [map] in C2. apply NoDup_cons in C2 as [Hn C2].
  assert (Hne : forall x, x ∈ ll -> e_num x <> e_num e).
  { intros x Hx Heq. apply Hn. rewrite <- Heq. by apply list_elem_of_fmap_2. }
  destruct (C1 e ltac:(by left)) as [Hv Hl].
  assert (Hblock : forall m, valid m -> block_of (written_back e C) m = if decide (m = e_num e) then e_data e else block_of C m).
  { intros m Hm. unfold written_back. destruct (e_dirty e) eqn:Ed; [by apply block_of_blit|].
    destruct (decide (m = e_num e)) as [->|]; [|done]. symmetry. apply C3; [by left|done]. }
  split.
  - split; [intros x Hx; apply C1; by right|done| |intros x Hx; apply C4; by right|done].
    intros x Hx Hd. rewrite (C3 x ltac:(by right) Hd), Hblock by (apply C1; by right).
    destruct (decide _); [|done]. by destruct (Hne x Hx).
  - intros m Hm. unfold view. cbn [find]. destruct (Z.eqb_spec (e_num e) m) as [<-|Hm'].
    + destruct (find _ ll) as [x|] eqn:E.
      * apply find_some in E as [Hx E]. apply list_elem_of_In in Hx. destruct (Hne x Hx). lia.
      * rewrite Hblock by done. by destruct (decide _).
    + destruct (find _ ll) as [x|]; [done|]. rewrite Hblock by done. by destruct (decide (m = e_num e)).
Qed.

Lemma coherent_add fl ll C e : coherent fl ll C -> valid (e_num e) -> length (e_data e) = bs ->
  (forall x, x ∈ ll -> e_num x <> e_num e) ->
  (if e_dirty e then fs_offset c = 0 else e_data e = block_of C (e_num e)) ->
  coherent fl (ll ++ [e]) C /\
  forall m, view (ll ++ [e]) C m = if decide (m = e_num e) then e_data e else view ll C m.
Proof.
  intros [C1 C2 C3 C4 C5] Hv Hl Hne Hd. assert (Hp : ll ++ [e] ≡ₚ e :: ll) by (symmetry; apply Permutation_cons_append).
  assert (Hco : coherent fl (e :: ll) C).
  { split; [| | | |done].
    - intros x Hx. apply elem_of_cons in Hx as [->|Hx]; [done|by apply C1].
    - cbn. apply NoDup_cons. split; [|done]. intros Hi. apply list_elem_of_fmap in Hi as (x & Hx & Hi). by destruct (Hne x Hi).
    - intros x Hx Hxd. apply elem_of_cons in Hx as [->|Hx]; [by rewrite Hxd in Hd|by apply C3].
    - intros x Hx Hxd. apply elem_of_cons in Hx as [->|Hx]; [by rewrite Hxd in Hd|by eapply C4]. }
  split; [by eapply coherent_perm|]. intros m. rewrite (view_perm (e :: ll)); [|apply Hco|done].
  unfold view. cbn [find]. destruct (Z.eqb_spec (e_num e) m) as [<-|Hm]; [by destruct (decide _)|].
  by destruct (decide (m = e_num e)) as [->|].
Qed.

(** The number of blocks of the cache, and the blocks a caller holds. *)
Definition same_held (ll ll' : list entry) : Prop := forall x, e_ref x <> 0 -> (x ∈ ll' <-> x ∈ ll).

Lemma picked_spec fl ll C fl' rest e C' : Z.of_nat (length C) = BlockDev.size d -> coherent fl ll C ->
  picked fl ll C fl' rest e C' ->
  coherent fl' rest C' /\ (forall m, valid m -> view rest C' m = view ll C m) /\
  e_dirty e = false /\ e_ref e = 0 /\ same_held ll rest /\ (length fl' + length rest + 1 = length fl + length ll)%nat /\
  forall x, x ∈ rest -> x ∈ ll.
Proof.
  intros HC Hco [(e0 & -> & -> & -> & ->)|(e0 & la & lb & -> & -> & -> & -> & Hr & -> & ->)].
  - pose proof (co_free _ _ _ Hco e0 ltac:(by left)) as Hd. destruct Hco as [C1 C2 C3 C4 C5].
    split_and!; [|done|done|done|done|cbn; lia|done]. split; try done. intros x Hx. apply C5. by right.
  - assert (Hp : e0 :: la ++ lb ≡ₚ la ++ e0 :: lb) by apply Permutation_middle.
    destruct (coherent_take [] e0 (la ++ lb) C HC) as [Hco' Hview]; [by eapply coherent_perm|].
    split_and!; [done| |done|done| |rewrite !length_app; cbn; lia|].
    + intros m Hm. rewrite Hview by done. apply view_perm; [apply Hco|done].
    + intros x Hx. rewrite <- Hp, elem_of_cons. split; [by right|]. by intros [->|].
    + intros x Hx. rewrite <- Hp. by right.
Qed.

Definition room (fl ll : list entry) : Prop := fl <> [] \/ Exists (fun e => e_ref e = 0) ll.

(** The outcome of a call that makes block [n] available: it is at the end of
    the used blocks, and a caller sees what it saw before. *)
Definition available (fl ll : list entry) (s : cache_mem W) (n : Z) (s' : cache_mem W) (fl' rest : list entry) (e : entry) : Prop :=
  e_num e = n /\ rep c s' fl' (rest ++ [e]) /\ coherent fl' (rest ++ [e]) (disk s') /\
  (forall m, valid m -> view (rest ++ [e]) (disk s') m = view ll (disk s) m) /\
  same_held ll (rest ++ [e]) /\ (length fl' + length (rest ++ [e]) = length fl + length ll)%nat.

Lemma moved_available s s' fl l1 e l2 : coherent fl (l1 ++ e :: l2) (disk s) -> bc_world s' = bc_world s ->
  rep c s' fl (l1 ++ l2 ++ [e]) -> available fl (l1 ++ e :: l2) s (e_num e) s' fl (l1 ++ l2) e.
Proof.
  intros Hco Hw Hr.
  assert (Hp : (l1 ++ l2) ++ [e] ≡ₚ l1 ++ e :: l2) by (by rewrite <- Permutation_cons_append, Permutation_middle).
  split; [done|]. rewrite Hw. split_and!; [by rewrite <- app_assoc| | | |].
  - by eapply coherent_perm.
  - intros m _. apply view_perm; [apply Hco|done].
  - intros x _. by rewrite Hp.
  - by rewrite Hp.
Qed.

Lemma found_available s s' fl ll n a : coherent fl ll (disk s) -> looked_up c n fl ll s (Some a) s' ->
  exists rest e, a = e_addr e /\ available fl ll s n s' fl rest e.
Proof.
  intros Hco (Hw & l1 & e & l2 & -> & -> & <- & Hr). exists (l1 ++ l2), e. split; [done|]. by apply moved_available.
Qed.

(** A picked block filled with the content of the device. *)
Lemma find_or_fill_run s fl ll n : rep c s fl ll -> coherent fl ll (disk s) -> valid n ->
  room fl ll \/ (exists e, e ∈ ll /\ e_num e = n) ->
  exists s' fl' rest e, find_or_fill_block debug ERR_GENERIC c n s = (Ret (Some (e_addr e)), s') /\
    available fl ll s n s' fl' rest e.
Proof.
  intros Hr Hco Hv Hroom. unfold find_or_fill_block, bind at 1.
  destruct (find_block_run c n s fl ll Hr) as (r & s1 & E1 & Hf). rewrite E1. destruct r as [a|].
  - destruct (found_available s s1 fl ll n a Hco Hf) as (rest & e & -> & Hav). exists s1, fl, rest, e. split; [|done].
    destruct Hav as (Hn & Hr' & _).
    unfold bind at 1. rewrite (deref_run c s1 fl (rest ++ [e]) e Hr') by (apply elem_of_app; right; apply elem_of_app; right; by left).
    cbn [blk blocknum]. rewrite (proj2 (Z.eqb_eq _ _) Hn). unfold DEBUG_ASSERT. by destruct debug.
  - destruct Hf as (Hw & Hno & Hr1). rewrite <- Hw in Hco.
    destruct (alloc_block_run s1 fl ll Hr1) as (s2 & fl' & rest & e & E2 & Hr2 & Hpick).
    { intros x Hx Hd. split; [by apply (co_valid _ _ _ Hco)|by eapply (co_dirty _ _ _ Hco)]. }
    { destruct Hroom as [Hroom|(x & Hx & Hn)]; [done|]. by destruct (Hno x Hx). }
    unfold bind at 1. rewrite E2.
    destruct (picked_spec _ _ _ _ _ _ _ (dev_length (bc_world s1)) Hco Hpick) as (Hco2 & Hview2 & Hd2 & Href2 & Hheld2 & Hlen2 & Hsub).
    assert (Hin : e ∈ fl' ++ rest ++ [e]) by (apply elem_of_app; right; apply elem_of_app; right; by left).
    destruct (r_blocks _ _ _ _ Hr2 e Hin) as (B1 & B2 & B3 & B4).
    destruct (device_read_run (e_ptr e) (e_data e) n (bc_world s2) Hv B3 B4) as (w' & E3 & Hc3).
    set (e' := mk_entry (e_addr e) n 0 false (e_ptr e) (block_of (disk s2) n)).
    assert (Hl' : length (e_data e') = bs).
    { cbn. unfold block_of. rewrite length_slice. pose proof (dev_length (bc_world s2)). destruct Hv.
      assert (0 <= place n) by (unfold place in *; nia). lia. }
    pose proof (rep_update c _ fl' rest e [] e' Hr2 eq_refl eq_refl Hl') as Hu.
    destruct (coherent_add fl' rest (disk s2) e' Hco2 Hv Hl') as [Hco' Hview'].
    { intros x Hx. apply Hno, Hsub, Hx. }
    { done. }
    eexists _, fl', rest, e'. split.
    + replace (DEBUG_ASSERT debug (bool_decide (is_Some (Some (e_addr e))))) with (ret tt : M (cache_mem W) unit)
        by (unfold DEBUG_ASSERT; rewrite bool_decide_true by done; by destruct debug).
      unfold bind at 1. cbn [ret]. unfold bind at 1. rewrite (deref_run _ _ _ _ _ Hr2 Hin). unfold bind at 1, modify.
      unfold bind at 1, deref_buffer. cbn [blk ptr buffer set_block]. rewrite B2. unfold bind at 1, code, on_world.
      cbn [bc_world set_block]. rewrite E3. unfold bind at 1. unfold bind at 1. rewrite Z.eqb_refl.
      unfold bind, DEBUG_ASSERT. destruct debug; reflexivity.
    + split; [done|]. cbn [bc_world set_stats set_buffer set_block]. rewrite Hc3. split_and!; [|done| | |].
      * unfold with_blocknum. cbn [blk ref_count is_dirty ptr]. rewrite Href2, Hd2. apply rep_stats.
        exact (rep_world c _ _ _ w' Hu).
      * intros m Hm. rewrite Hview'. cbn [e_num e' e_data]. rewrite <- Hw, <- Hview2 by done.
        destruct (decide (m = n)) as [->|]; [|done]. symmetry. apply view_out. intros x Hx. by apply Hno, Hsub.
      * intros x Hx. rewrite elem_of_app, list_elem_of_singleton, (Hheld2 x Hx). split; [|by left]. intros [?| ->]; [done|]. by destruct Hx.
      * rewrite length_app. cbn. lia.
Qed.

Lemma find_app {A} (f : A -> bool) l l' :
  find f (l ++ l') = match find f l with Some x => Some x | None => find f l' end.
Proof. induction l as [|x l IH]; [done|]. cbn. by destruct (f x). Qed.

(** The last block replaced by one of the same number. *)
Lemma coherent_replace fl rest e e' C : coherent fl (rest ++ [e]) C -> e_num e' = e_num e -> length (e_data e') = bs ->
  (if e_dirty e' then fs_offset c = 0 else e_data e' = block_of C (e_num e')) ->
  coherent fl (rest ++ [e']) C /\
  forall m, view (rest ++ [e']) C m = if decide (m = e_num e) then e_data e' else view (rest ++ [e]) C m.
Proof.
  intros Hco Hn Hl Hd. assert (Hin : e ∈ rest ++ [e]) by (apply elem_of_app; right; by left).
  destruct (co_valid _ _ _ Hco e Hin) as [Hv _]. pose proof Hco as [C1 C2 C3 C4 C5].
  rewrite map_app in C2. apply NoDup_app in C2 as (C2 & Hx & _).
  assert (Hne : forall x, x ∈ rest -> e_num x <> e_num e).
  { intros x Hxr Heq. eapply (Hx (e_num x)); [by apply list_elem_of_fmap_2|]. rewrite Heq. by left. }
  assert (Hrest : coherent fl rest C).
  { split; [intros x Hi; apply C1|done|intros x Hi; apply C3|intros x Hi; apply C4|done]; apply elem_of_app; by left. }
  destruct (coherent_add fl rest C e' Hrest) as [Hco' Hview]; [by rewrite Hn|done|by rewrite Hn|done|].
  split; [done|]. intros m. rewrite Hview, Hn. destruct (decide _) as [|Hm]; [done|].
  unfold view. rewrite find_app. cbn. destruct (find _ rest); [done|]. destruct (Z.eqb_spec (e_num e) m); [by subst|done].
Qed.

(** ** The cache as a store of blocks *)

(** [v]: the content of the blocks; [cnt]: how often the caller holds a block;
    [ptrs]: the pointers it got; [K]: the number of blocks of the cache. *)
Definition counted (ll : list entry) (cnt : gmap Z Z) : Prop :=
  forall n k, cnt !! n = Some k <-> 0 < k /\ exists e, e ∈ ll /\ e_num e = n /\ e_ref e = k.
Definition serves (s : cache_mem W) (v : Z -> list Z) (cnt ptrs : gmap Z Z) (K : nat) : Prop :=
  exists fl ll, rep c s fl ll /\ coherent fl ll (disk s) /\ (length fl + length ll = K)%nat /\
    (forall n, valid n -> view ll (disk s) n = v n) /\ counted ll cnt /\
    (forall e, e ∈ ll -> 0 <= e_ref e) /\ (forall e, e ∈ ll -> e_ref e <> 0 -> ptrs !! e_num e = Some (e_ptr e)).

(** Held blocks have different numbers: when fewer are held than there are
    blocks, one is free or held by nobody. *)
Lemma room_for s fl ll cnt n : coherent fl ll (disk s) -> counted ll cnt -> (forall e, e ∈ ll -> 0 <= e_ref e) ->
  (size cnt < length fl + length ll)%nat \/ is_Some (cnt !! n) -> room fl ll \/ exists e, e ∈ ll /\ e_num e = n.
Proof.
  intros Hco Hcnt Hpos [Hlt|[k Hk]]; [left|right].
  - destruct fl as [|e0 fl]; [right|by left]. destruct (Exists_dec (fun e => e_ref e = 0) ll) as [Hex|Hnone]; [done|].
    exfalso. apply not_Exists_Forall in Hnone; [|intros e; apply _]. cbn in Hlt.
    assert (Hsub : (length ll <= size cnt)%nat); [|lia].
    rewrite <- (length_map e_num), <- (size_list_to_set (C := gset Z)) by apply Hco. rewrite <- size_dom.
    apply subseteq_size. intros m Hm. apply elem_of_list_to_set in Hm. apply list_elem_of_fmap in Hm as (e & -> & He).
    apply elem_of_dom. exists (e_ref e). apply Hcnt. rewrite Forall_forall in Hnone. pose proof (Hnone e He). pose proof (Hpos e He).
    split; [cbn in *; lia|by exists e].
  - apply Hcnt in Hk as (_ & e & He & Hn & _). by exists e.
Qed.

Definition set_count (n k : Z) (cnt : gmap Z Z) : gmap Z Z := if k =? 0 then delete n cnt else <[n := k]> cnt.

Lemma set_count_ne n k cnt m : m <> n -> set_count n k cnt !! m = cnt !! m.
Proof. intros Hne. unfold set_count. destruct (k =? 0); [by rewrite lookup_delete_ne|by rewrite lookup_insert_ne]. Qed.

Section Step.
Variables (s : cache_mem W) (v : Z -> list Z) (cnt ptrs : gmap Z Z) (K : nat) (n : Z) (s1 : cache_mem W).
Variables (fl ll : list entry).
Hypotheses (Hlen : (length fl + length ll = K)%nat) (Hview : forall n, valid n -> view ll (disk s) n = v n)
  (Hcnt : counted ll cnt) (Hpos : forall e, e ∈ ll -> 0 <= e_ref e)
  (Hptrs : forall e, e ∈ ll -> e_ref e <> 0 -> ptrs !! e_num e = Some (e_ptr e)).

(** The block at the end, as the caller knows it. *)
Record ready (fl' rest : list entry) (e : entry) : Prop := {
  rd_num : e_num e = n;
  rd_rep : rep c s1 fl' (rest ++ [e]);
  rd_coherent : coherent fl' (rest ++ [e]) (disk s1);
  rd_view : forall m, valid m -> view (rest ++ [e]) (disk s1) m = v m;
  rd_data : e_data e = v n;
  rd_ref : e_ref e = default 0 (cnt !! n);
  rd_ptr : e_ref e <> 0 -> ptrs !! n = Some (e_ptr e);
  rd_counted : counted (rest ++ [e]) cnt;
  rd_length : (length fl' + length (rest ++ [e]) = K)%nat;
  rd_refs : forall x, x ∈ rest ++ [e] -> 0 <= e_ref x;
  rd_ptrs : forall x, x ∈ rest ++ [e] -> e_ref x <> 0 -> ptrs !! e_num x = Some (e_ptr x);
}.

Lemma available_ready fl' rest e : available fl ll s n s1 fl' rest e -> ready fl' rest e.
Proof.
  intros (Hn & Hr & Hco & Hv & Hheld & Hk).
  assert (Hin : e ∈ rest ++ [e]) by (apply elem_of_app; right; by left).
  destruct (co_valid _ _ _ Hco e Hin) as [Hval _]. rewrite Hn in Hval.
  assert (Hv' : forall m, valid m -> view (rest ++ [e]) (disk s1) m = v m) by (intros m Hm; by rewrite Hv, Hview).
  assert (Hcnt' : counted (rest ++ [e]) cnt).
  { intros m k. rewrite (Hcnt m k). split; intros (Hk0 & x & Hx & Hm & Hxk); (split; [done|]); exists x;
      (split; [|done]); apply Hheld; done || lia. }
  assert (Hpos' : forall x, x ∈ rest ++ [e] -> 0 <= e_ref x).
  { intros x Hx. destruct (decide (e_ref x = 0)); [lia|]. by apply Hpos, Hheld. }
  split; try done.
  - rewrite <- Hv', <- Hn by done. symmetry. apply view_in; [apply Hco|done].
  - destruct (decide (e_ref e = 0)) as [E|E].
    + destruct (cnt !! n) as [k|] eqn:Ek; [|done]. apply Hcnt' in Ek as (Hk0 & x & Hx & Hxn & Hxk).
      assert (x = e) as -> by (eapply (NoDup_map_in e_num); [apply Hco|done|done|congruence]). lia.
    + pose proof (Hpos' e Hin). assert (Ek : cnt !! n = Some (e_ref e)) by (apply Hcnt'; split; [lia|by exists e]). by rewrite Ek.
  - intros E. rewrite <- Hn. apply Hptrs; [by apply Hheld|done].
  - by rewrite Hk.
  - intros x Hx Hxr. apply Hptrs; [by apply Hheld|done].
Qed.

End Step.

(** The store after the block at the end has been changed. *)
Lemma serves_update v cnt ptrs K n s1 fl' rest e e' ptrs' : ready v cnt ptrs K n s1 fl' rest e ->
  e_addr e' = e_addr e -> e_ptr e' = e_ptr e -> e_num e' = n -> length (e_data e') = bs ->
  (if e_dirty e' then fs_offset c = 0 else e_data e' = block_of (disk s1) n) ->
  0 <= e_ref e' -> (e_ref e' <> 0 -> ptrs' !! n = Some (e_ptr e)) -> (forall m, m <> n -> ptrs' !! m = ptrs !! m) ->
  serves (set_block (e_addr e) (blk e') (set_buffer (e_ptr e) (e_data e') s1))
    (fun m => if decide (m = n) then e_data e' else v m) (set_count n (e_ref e') cnt) ptrs' K.
Proof.
  intros [Hn Hr Hco Hv _ _ _ Hc Hk Hp Hpt] Ea Ep En El Ed Er Hpt' Hptne. exists fl', (rest ++ [e']).
  destruct (coherent_replace fl' rest e e' (disk s1) Hco) as [Hco' Hview']; [congruence|done|by rewrite En|].
  assert (Hne : forall x, x ∈ rest -> e_num x <> n).
  { intros x Hx Heq. destruct Hco as [_ Hnd _ _ _]. rewrite map_app in Hnd. apply NoDup_app in Hnd as (_ & Hnd & _).
    eapply (Hnd (e_num x)); [by apply list_elem_of_fmap_2|]. rewrite Heq, <- Hn. by left. }
  split_and!; [by apply rep_update|exact Hco'|by rewrite length_app in Hk |- *| | | |].
  - intros m Hm. cbn [bc_world set_block set_buffer]. rewrite Hview', Hn, Hv by done. done.
  - intros m k. destruct (decide (m = n)) as [->|Hm].
    + unfold set_count. destruct (Z.eqb_spec (e_ref e') 0) as [E0|E0]; [rewrite lookup_delete_eq|rewrite lookup_insert_eq].
      * split; [done|]. intros (Hk0 & x & Hx & Hxn & Hxk). apply elem_of_app in Hx as [Hx|Hx]; [by destruct (Hne x Hx)|].
        apply list_elem_of_singleton in Hx as ->. lia.
      * split; [intros [= <-]; split; [lia|]; exists e'; split; [apply elem_of_app; right; by left|done]|].
        intros (Hk0 & x & Hx & Hxn & Hxk). apply elem_of_app in Hx as [Hx|Hx]; [by destruct (Hne x Hx)|].
        apply list_elem_of_singleton in Hx as ->. by rewrite Hxk.
    + rewrite set_count_ne, (Hc m k) by done. split; intros (Hk0 & x & Hx & Hxn & Hxk); (split; [done|]); exists x;
        (split; [|done]); apply elem_of_app in Hx as [Hx|Hx]; apply elem_of_app; try (by left);
        apply list_elem_of_singleton in Hx as ->; congruence.
  - intros x Hx. apply elem_of_app in Hx as [Hx|Hx]; [apply Hp, elem_of_app; by left|]. by apply list_elem_of_singleton in Hx as ->.
  - intros x Hx Hxr. apply elem_of_app in Hx as [Hx|Hx].
    + rewrite Hptne by (by apply Hne). apply Hpt; [apply elem_of_app; by left|done].
    + apply list_elem_of_singleton in Hx as ->. rewrite En, Ep. by apply Hpt'.
Qed.

Lemma ready_serves s1 v cnt ptrs K n fl rest e : ready v cnt ptrs K n s1 fl rest e -> serves s1 v cnt ptrs K.
Proof. intros []. by exists fl, (rest ++ [e]). Qed.

Lemma ready_in s1 v cnt ptrs K n fl rest e : ready v cnt ptrs K n s1 fl rest e -> e ∈ fl ++ rest ++ [e].
Proof. intros _. apply elem_of_app. right. apply elem_of_app. right. by left. Qed.

Lemma ready_clean s1 v cnt ptrs K n fl rest e : ready v cnt ptrs K n s1 fl rest e ->
  length (e_data e) = bs /\ if e_dirty e then fs_offset c = 0 else e_data e = block_of (disk s1) n.
Proof.
  intros Hr. assert (Hin : e ∈ rest ++ [e]) by (apply elem_of_app; right; by left).
  destruct (co_valid _ _ _ (rd_coherent _ _ _ _ _ _ _ _ _ Hr) e Hin) as [_ Hl]. split; [done|].
  pose proof (rd_coherent _ _ _ _ _ _ _ _ _ Hr) as Hco. destruct (e_dirty e) eqn:Ed; [by eapply (co_dirty _ _ _ Hco)|].
  rewrite <- (rd_num _ _ _ _ _ _ _ _ _ Hr). by apply (co_clean _ _ _ Hco).
Qed.

(** Making a block available, or finding one that is held. *)
Lemma serves_fill s v cnt ptrs K n : serves s v cnt ptrs K -> valid n -> (size cnt < K)%nat \/ is_Some (cnt !! n) ->
  exists s1 fl rest e, find_or_fill_block debug ERR_GENERIC c n s = (Ret (Some (e_addr e)), s1) /\
    ready v cnt ptrs K n s1 fl rest e.
Proof.
  intros (fl & ll & Hr & Hco & Hlen & Hview & Hcnt & Hpos & Hptrs) Hv Hroom.
  destruct (find_or_fill_run s fl ll n Hr Hco Hv) as (s1 & fl' & rest & e & E & Hav); [by eapply room_for; [..|rewrite Hlen]|].
  exists s1, fl', rest, e. split; [done|]. by eapply available_ready.
Qed.

Lemma serves_find s v cnt ptrs K n k : serves s v cnt ptrs K -> cnt !! n = Some k ->
  exists s1 fl rest e, find_block c n s = (Ret (Some (e_addr e)), s1) /\ ready v cnt ptrs K n s1 fl rest e.
Proof.
  intros (fl & ll & Hr & Hco & Hlen & Hview & Hcnt & Hpos & Hptrs) Hk.
  pose proof Hk as Hk'. apply Hcnt in Hk' as (_ & x & Hx & Hxn & _). destruct (co_valid _ _ _ Hco x Hx) as [Hv _]. rewrite Hxn in Hv.
  destruct (find_block_run c n s fl ll Hr) as (r & s1 & E & Hf). destruct r as [a|]; [|by destruct Hf as (_ & Hno & _); destruct (Hno x Hx)].
  destruct (found_available s s1 fl ll n a Hco Hf) as (rest & e & -> & Hav).
  exists s1, fl, rest, e. split; [done|]. by eapply available_ready.
Qed.

Lemma serves_ext s v v' cnt ptrs K : serves s v cnt ptrs K -> (forall n, valid n -> v' n = v n) -> serves s v' cnt ptrs K.
Proof.
  intros (fl & ll & Hr & Hco & Hlen & Hview & Hrest) Hv. exists fl, ll. split_and!; try done; try apply Hrest.
  intros n Hn. by rewrite Hview, Hv.
Qed.

(** A change of the counter only. *)
Lemma serves_ref s1 v cnt ptrs ptrs' K n fl rest e r : ready v cnt ptrs K n s1 fl rest e -> 0 <= r ->
  (r <> 0 -> ptrs' !! n = Some (e_ptr e)) -> (forall m, m <> n -> ptrs' !! m = ptrs !! m) ->
  serves (set_block (e_addr e) (with_ref r (blk e)) s1) v (set_count n r cnt) ptrs' K.
Proof.
  intros Hr Hr0 Hp Hpne. destruct (ready_clean _ _ _ _ _ _ _ _ _ Hr) as [Hl Hd].
  set (e' := mk_entry (e_addr e) n r (e_dirty e) (e_ptr e) (e_data e)).
  pose proof (serves_update v cnt ptrs K n s1 fl rest e e' ptrs' Hr eq_refl eq_refl eq_refl Hl Hd Hr0 Hp Hpne) as Hs.
  destruct (r_blocks _ _ _ _ (rd_rep _ _ _ _ _ _ _ _ _ Hr) e (ready_in _ _ _ _ _ _ _ _ _ Hr)) as (_ & B & _).
  unfold set_buffer in Hs. cbn in Hs. rewrite insert_id in Hs by exact B.
  unfold with_ref, blk. cbn. rewrite (rd_num _ _ _ _ _ _ _ _ _ Hr).
  eapply serves_ext; [destruct s1; exact Hs|]. intros m _. cbn. destruct (decide (m = n)) as [->|]; [|done].
  symmetry. apply (rd_data _ _ _ _ _ _ _ _ _ Hr).
Qed.

(** The whole cache written back: the walk over the used blocks. *)
Lemma flush_from_run fl l2 : forall fuel l1 s, rep c s fl (l1 ++ l2) -> coherent fl (l1 ++ l2) (disk s) -> (length l2 <= fuel)%nat ->
  exists s', flush_from ERR_GENERIC c fuel (first_of (map e_addr l2) (lru_list c)) s = (Ret 0, s') /\
    rep c s' fl (l1 ++ map clean l2) /\ coherent fl (l1 ++ map clean l2) (disk s') /\
    forall m, valid m -> view (l1 ++ map clean l2) (disk s') m = view (l1 ++ l2) (disk s) m.
Proof.
  induction l2 as [|e l2 IH]; intros fuel l1 s Hr Hco Hfuel.
  - exists s. cbn [map]. split; [destruct fuel; cbn; by rewrite Z.eqb_refl|]. done.
  - destruct fuel as [|fuel]; [cbn in Hfuel; lia|]. cbn [map first_of flush_from].
    assert (Hin : e ∈ l1 ++ e :: l2) by (apply elem_of_app; right; by left).
    rewrite (not_head _ _ _ _ _ _ Hr). unfold bind at 1.
    rewrite (deref_run _ _ _ _ _ Hr) by (apply elem_of_app; by right). cbn [blk is_dirty].
    assert (Hstep : exists s1, (if e_dirty e then flush_block ERR_GENERIC c (e_addr e) else ret 0) s = (Ret 0, s1) /\
      rep c s1 fl (l1 ++ clean e :: l2) /\ disk s1 = written_back e (disk s)).
    { unfold written_back. destruct (co_valid _ _ _ Hco e Hin) as [Hv _]. destruct (e_dirty e) eqn:Ed.
      - destruct (flush_block_run s fl l1 e l2 Hr Hv (co_dirty _ _ _ Hco e Hin Ed)) as (s1 & E & Hr1 & Hc & _). by exists s1.
      - exists s. split; [done|]. split; [|done]. unfold clean. rewrite <- Ed. by destruct e. }
    destruct Hstep as (s1 & E1 & Hr1 & Hc1).
    assert (Hp : e :: l1 ++ l2 ≡ₚ l1 ++ e :: l2) by apply Permutation_middle.
    assert (Hp' : (l1 ++ l2) ++ [clean e] ≡ₚ l1 ++ clean e :: l2) by (by rewrite <- Permutation_cons_append, Permutation_middle).
    destruct (coherent_take fl e (l1 ++ l2) (disk s) (dev_length _)) as [Hco1 Hview1]; [by eapply coherent_perm|].
    destruct (co_valid _ _ _ Hco e Hin) as [Hv Hl].
    assert (Hnone : forall x, x ∈ l1 ++ l2 -> e_num x <> e_num e).
    { intros x Hx Heq. pose proof (co_nums _ _ _ Hco) as Hnd. assert (Hnd' : NoDup (map e_num (e :: l1 ++ l2))).
      { eapply NoDup_Permutation_proper; [|exact Hnd]. by rewrite Hp. }
      apply NoDup_cons in Hnd' as [Hn _]. apply Hn. rewrite <- Heq. by apply list_elem_of_fmap_2. }
    assert (Hdata : e_data e = block_of (written_back e (disk s)) (e_num e)).
    { pose proof (Hview1 (e_num e) Hv) as Hve. rewrite view_out in Hve by done. rewrite Hve. symmetry. apply view_in; [|by left].
      eapply NoDup_Permutation_proper; [|apply (co_nums _ _ _ Hco)]. by rewrite Hp. }
    destruct (coherent_add fl (l1 ++ l2) _ (clean e) Hco1 Hv Hl Hnone Hdata) as [Hco2 Hview2].
    assert (Hco3 : coherent fl ((l1 ++ [clean e]) ++ l2) (disk s1)).
    { rewrite Hc1. eapply coherent_perm; [exact Hco2|]. by rewrite <- app_assoc, Hp'. }
    destruct (IH fuel (l1 ++ [clean e]) s1) as (s' & E & Hr' & Hco' & Hview').
    + by rewrite <- app_assoc.
    + done.
    + cbn in Hfuel. lia.
    + exists s'. unfold bind at 1. rewrite E1. cbn [Z.eqb negb]. unfold bind.
      pose proof (lru_next c s1 fl l1 (clean e) l2 Hr1) as En. cbn [clean e_addr] in En. rewrite En.
      split; [exact E|]. rewrite <- app_assoc in Hr', Hco', Hview'. split; [exact Hr'|]. split; [exact Hco'|].
      intros m Hm. etrans; [exact (Hview' m Hm)|]. rewrite <- app_assoc. cbn [app].
      rewrite (view_perm _ (l1 ++ clean e :: l2) _ _ (co_nums _ _ _ Hco2)) by (symmetry; exact Hp'). rewrite Hc1, Hview2. cbn [clean e_num e_data].
      destruct (decide (m = e_num e)) as [->|].
      * symmetry. by apply view_in; [apply Hco|].
      * rewrite Hview1 by done. apply view_perm; [apply Hco|done].
Qed.

(** ** A caller

    It keeps the pointers it got, looks at blocks through them, and changes a
    block by writing through its pointer and marking the block dirty. *)
Inductive client_op :=
| CRead (n : Z) (buf : list Z) | CGet (n : Z) | CLook (n : Z) | CPut (n : Z) | CZero (n : Z)
| CUpdate (n : Z) (data : list Z) | CFlush.
Inductive answer := ACode (rc : Z) | AData (bytes : list Z).

Definition client_run (o : client_op) (ptrs : gmap Z Z) : M (cache_mem W) (answer * gmap Z Z) :=
  match o with
  | CRead n buf =>
      let! r := bcache_read_block debug ERR_GENERIC c buf n in
      ret (if r.1 =? 0 then AData r.2 else ACode r.1, ptrs)
  | CGet n =>
      let! r := bcache_get_block debug ERR_GENERIC c n in
      ret (ACode r.1, match r.2 with Some p => <[n := p]> ptrs | None => ptrs end)
  | CLook n =>
      match ptrs !! n with
      | None => undef
      | Some p => let! data := deref_buffer p in ret (AData data, ptrs)
      end
  | CPut n => let! rc := bcache_put_block debug c n in ret (ACode rc, ptrs)
  | CZero n => let! rc := bcache_zero_block ERR_GENERIC c n in ret (ACode rc, ptrs)
  | CUpdate n data =>
      match ptrs !! n with
      | None => undef
      | Some p => modify (set_buffer p data) ;;; let! rc := bcache_mark_block_dirty c n in ret (ACode rc, ptrs)
      end
  | CFlush => let! rc := bcache_flush ERR_GENERIC c in ret (ACode rc, ptrs)
  end.

Fixpoint client_runs (os : list client_op) (ptrs : gmap Z Z) : M (cache_mem W) (list answer) :=
  match os with
  | [] => ret []
  | o :: os => let! r := client_run o ptrs in let! rs := client_runs os r.2 in ret (r.1 :: rs)
  end.

(** The same on a store of blocks.  [K] blocks can be held at the same time. *)
Definition update (n : Z) (x : list Z) (v : Z -> list Z) : Z -> list Z := fun m => if decide (m = n) then x else v m.
Definition can_load (K : nat) (cnt : gmap Z Z) (n : Z) : Prop := valid n /\ ((size cnt < K)%nat \/ is_Some (cnt !! n)).

Inductive store_step (K : nat) (v : Z -> list Z) (cnt : gmap Z Z) : client_op -> (Z -> list Z) -> gmap Z Z -> answer -> Prop :=
| SRead n buf : can_load K cnt n -> block_size c <= Z.of_nat (length buf) ->
    store_step K v cnt (CRead n buf) v cnt (AData (blit buf 0 (v n)))
| SGet n : can_load K cnt n -> default 0 (cnt !! n) < 2 ^ 31 - 1 ->
    store_step K v cnt (CGet n) v (<[n := default 0 (cnt !! n) + 1]> cnt) (ACode 0)
| SLook n : is_Some (cnt !! n) -> store_step K v cnt (CLook n) v cnt (AData (v n))
| SPut n k : cnt !! n = Some k -> k < 2 ^ 31 ->
    store_step K v cnt (CPut n) v (set_count n (k - 1) cnt) (ACode 0)
| SZero n : can_load K cnt n -> fs_offset c = 0 ->
    store_step K v cnt (CZero n) (update n (repeat 0 bs) v) cnt (ACode 0)
| SUpdate n data : is_Some (cnt !! n) -> fs_offset c = 0 -> length data = bs ->
    store_step K v cnt (CUpdate n data) (update n data v) cnt (ACode 0)
| SFlush : store_step K v cnt CFlush v cnt (ACode 0).

Inductive store_steps (K : nat) : (Z -> list Z) -> gmap Z Z -> list client_op -> (Z -> list Z) -> gmap Z Z -> list answer -> Prop :=
| Stop v cnt : store_steps K v cnt [] v cnt []
| Go v cnt o v1 cnt1 r os v2 cnt2 rs : store_step K v cnt o v1 cnt1 r -> store_steps K v1 cnt1 os v2 cnt2 rs ->
    store_steps K v cnt (o :: os) v2 cnt2 (r :: rs).

(** What the caller can see of a step. *)
Definition does_step (s : cache_mem W) (o : client_op) ptrs K v' cnt' r : Prop :=
  exists s' ptrs', client_run o ptrs s = (Ret (r, ptrs'), s') /\ serves s' v' cnt' ptrs' K.

Lemma default_count s v cnt ptrs K n k : serves s v cnt ptrs K -> cnt !! n = Some k -> 0 < k.
Proof. intros (fl & ll & _ & _ & _ & _ & Hc & _) Hk. by apply Hc in Hk as [? _]. Qed.

Lemma step_read s v cnt ptrs K n buf : serves s v cnt ptrs K -> can_load K cnt n -> block_size c <= Z.of_nat (length buf) ->
  does_step s (CRead n buf) ptrs K v cnt (AData (blit buf 0 (v n))).
Proof.
  intros Hs [Hv Hroom] Hbuf. destruct (serves_fill s v cnt ptrs K n Hs Hv Hroom) as (s1 & fl & rest & e & E & Hr).
  destruct (ready_clean _ _ _ _ _ _ _ _ _ Hr) as [Hl _]. exists s1, ptrs. split; [|by eapply ready_serves].
  pose proof (rd_rep _ _ _ _ _ _ _ _ _ Hr) as Hrep. pose proof (ready_in _ _ _ _ _ _ _ _ _ Hr) as Hin.
  unfold client_run, bcache_read_block, bind. rewrite E, (deref_run _ _ _ _ _ Hrep Hin). cbn [blk ptr].
  rewrite (buffer_run _ _ _ _ _ Hrep Hin). unfold lift. rewrite copy_from_ret by lia. rewrite copy_to_ret; [|lia|].
  - rewrite (rd_data _ _ _ _ _ _ _ _ _ Hr) in *. cbn [ret fst snd Z.eqb]. do 3 f_equal.
    unfold slice. rewrite drop_0, take_ge by lia. done.
  - rewrite length_slice. lia.
Qed.

Lemma step_get s v cnt ptrs K n : serves s v cnt ptrs K -> can_load K cnt n -> default 0 (cnt !! n) < 2 ^ 31 - 1 ->
  does_step s (CGet n) ptrs K v (<[n := default 0 (cnt !! n) + 1]> cnt) (ACode 0).
Proof.
  intros Hs [Hv Hroom] Hmax. destruct (serves_fill s v cnt ptrs K n Hs Hv Hroom) as (s1 & fl & rest & e & E & Hr).
  pose proof (rd_rep _ _ _ _ _ _ _ _ _ Hr) as Hrep. pose proof (ready_in _ _ _ _ _ _ _ _ _ Hr) as Hin.
  pose proof (rd_ref _ _ _ _ _ _ _ _ _ Hr) as Href. assert (Hpos : 0 <= e_ref e).
  { apply (rd_refs _ _ _ _ _ _ _ _ _ Hr). apply elem_of_app. right. by left. }
  assert (Hint : s32 (e_ref e + 1) = e_ref e + 1).
  { unfold signedw. rewrite wrapw_small by (unfold in_word; lia). destruct (Z.ltb_spec (e_ref e + 1) (2 ^ (32 - 1))); lia. }
  exists (set_block (e_addr e) (with_ref (e_ref e + 1) (blk e)) s1), (<[n := e_ptr e]> ptrs). split.
  - unfold client_run, bcache_get_block, bind. rewrite E, (deref_run _ _ _ _ _ Hrep Hin). unfold int_add. cbn [blk ref_count ptr].
    by rewrite Hint, Z.eqb_refl.
  - pose proof (serves_ref s1 v cnt ptrs (<[n := e_ptr e]> ptrs) K n fl rest e (e_ref e + 1) Hr ltac:(lia)) as Hs1.
    unfold set_count in Hs1. destruct (Z.eqb_spec (e_ref e + 1) 0); [lia|]. rewrite <- Href. apply Hs1.
    + intros _. by rewrite lookup_insert_eq.
    + intros m Hm. by rewrite lookup_insert_ne.
Qed.

Lemma step_look s v cnt ptrs K n : serves s v cnt ptrs K -> is_Some (cnt !! n) -> does_step s (CLook n) ptrs K v cnt (AData (v n)).
Proof.
  intros Hs [k Hk]. exists s, ptrs. split; [|done]. destruct Hs as (fl & ll & Hr & Hco & _ & Hview & Hcnt & _ & Hptrs).
  apply Hcnt in Hk as (Hk & e & He & <- & Hek). destruct (co_valid _ _ _ Hco e He) as [Hv _].
  unfold client_run. rewrite (Hptrs e He) by lia. unfold bind.
  rewrite (buffer_run _ _ _ _ _ Hr) by (apply elem_of_app; by right). rewrite <- Hview, view_in by (done || apply Hco). done.
Qed.

Lemma assert_true b : b = true -> @DEBUG_ASSERT W debug b = ret tt.
Proof. intros ->. unfold DEBUG_ASSERT. by destruct debug. Qed.

Lemma step_put s v cnt ptrs K n k : serves s v cnt ptrs K -> cnt !! n = Some k -> k < 2 ^ 31 ->
  does_step s (CPut n) ptrs K v (set_count n (k - 1) cnt) (ACode 0).
Proof.
  intros Hs Hk Hmax. pose proof (default_count _ _ _ _ _ _ _ Hs Hk) as Hpos.
  destruct (serves_find s v cnt ptrs K n k Hs Hk) as (s1 & fl & rest & e & E & Hr).
  pose proof (rd_rep _ _ _ _ _ _ _ _ _ Hr) as Hrep. pose proof (ready_in _ _ _ _ _ _ _ _ _ Hr) as Hin.
  assert (Href : e_ref e = k) by (rewrite (rd_ref _ _ _ _ _ _ _ _ _ Hr); by rewrite Hk).
  assert (Hint : s32 (k + -1) = k + -1).
  { unfold signedw. rewrite wrapw_small by (unfold in_word; lia). destruct (Z.ltb_spec (k + -1) (2 ^ (32 - 1))); lia. }
  exists (set_block (e_addr e) (with_ref (k - 1) (blk e)) s1), ptrs. split.
  - unfold client_run, bcache_put_block, bind at 1 2. rewrite E, assert_true by (by rewrite bool_decide_true by done).
    unfold bind at 1. cbn [ret]. unfold bind at 1. rewrite (deref_run _ _ _ _ _ Hrep Hin). cbn [blk ref_count]. rewrite Href.
    rewrite assert_true by lia. unfold bind, int_add. cbn [ret]. by rewrite Hint, Z.eqb_refl.
  - apply (serves_ref s1 v cnt ptrs ptrs K n fl rest e (k - 1) Hr); [lia| |done].
    intros _. apply (rd_ptr _ _ _ _ _ _ _ _ _ Hr). lia.
Qed.

Lemma set_count_same s v cnt ptrs K n : serves s v cnt ptrs K -> set_count n (default 0 (cnt !! n)) cnt = cnt.
Proof.
  intros Hs. unfold set_count. destruct (cnt !! n) as [k|] eqn:Ek; cbn.
  - pose proof (default_count _ _ _ _ _ _ _ Hs Ek). destruct (Z.eqb_spec k 0); [lia|]. by apply insert_id.
  - by apply delete_id.
Qed.

(** New content for the block at the end. *)
Lemma serves_content s1 v cnt ptrs K n fl rest e data : ready v cnt ptrs K n s1 fl rest e -> length data = bs -> fs_offset c = 0 ->
  serves (set_block (e_addr e) (with_dirty true (blk e)) (set_buffer (e_ptr e) data s1)) (update n data v) cnt ptrs K.
Proof.
  intros Hr Hl Hz. set (e' := mk_entry (e_addr e) n (e_ref e) true (e_ptr e) data).
  assert (Hpos : 0 <= e_ref e) by (apply (rd_refs _ _ _ _ _ _ _ _ _ Hr); apply elem_of_app; right; by left).
  pose proof (serves_update v cnt ptrs K n s1 fl rest e e' ptrs Hr eq_refl eq_refl eq_refl Hl Hz Hpos
    (rd_ptr _ _ _ _ _ _ _ _ _ Hr) ltac:(done)) as Hs.
  cbn [e_ref e'] in Hs. rewrite (rd_ref _ _ _ _ _ _ _ _ _ Hr) in Hs.
  rewrite (set_count_same s1 v cnt ptrs K n (ready_serves _ _ _ _ _ _ _ _ _ Hr)) in Hs.
  unfold with_dirty, blk in *. cbn in *. by rewrite (rd_num _ _ _ _ _ _ _ _ _ Hr).
Qed.

Lemma split_unique (x : entry) l1 l2 l1' l2' : NoDup (l1 ++ x :: l2) -> l1' ++ x :: l2' = l1 ++ x :: l2 -> l1' = l1 /\ l2' = l2.
Proof.
  revert l1'. induction l1 as [|y l1 IH]; intros [|y' l1'] Hd Heq; cbn in *.
  - by injection Heq.
  - injection Heq as -> <-. apply NoDup_cons in Hd as [Hx _]. destruct Hx. apply elem_of_app. right. by left.
  - injection Heq as <- ->. apply NoDup_cons in Hd as [Hx _]. destruct Hx. apply elem_of_app. right. by left.
  - injection Heq as -> Heq. apply NoDup_cons in Hd as [_ Hd]. by destruct (IH l1' Hd Heq) as [-> ->].
Qed.

(** The search after the caller has written through its pointer. *)
Lemma find_written s v cnt ptrs K n data : serves s v cnt ptrs K -> is_Some (cnt !! n) -> length data = bs ->
  exists p s1 fl rest e, ptrs !! n = Some p /\ p = e_ptr e /\
    find_block c n (set_buffer p data s) = (Ret (Some (e_addr e)), s1) /\
    deref_block (e_addr e) s1 = (Ret (blk e), s1) /\ set_buffer p data s1 = s1 /\
    ready v cnt ptrs K n (set_buffer p (e_data e) s1) fl rest e.
Proof.
  intros (fl & ll & Hr & Hco & Hlen & Hview & Hcnt & Hpos & Hptrs) [k Hk] Hl.
  pose proof Hk as Hk'. apply Hcnt in Hk' as (Hk0 & e & He & Hen & Hek). destruct (co_valid _ _ _ Hco e He) as [Hv Hle].
  rewrite Hen in Hv. pose proof (list_elem_of_split ll e He) as (l1 & l2 & ->). set (x := with_data data e).
  pose proof (rep_update c s fl l1 e l2 x Hr eq_refl eq_refl Hl) as Hr0. set (s0 := set_buffer (e_ptr e) data s).
  assert (Hb0 : set_block (e_addr e) (blk x) s0 = s0).
  { unfold set_block. change (blk x) with (blk e). destruct (r_blocks _ _ _ _ Hr e) as (B & _); [apply elem_of_app; by right|].
    unfold s0. cbn. by rewrite insert_id. }
  cbn [x e_data with_data] in Hr0. fold s0 in Hr0. rewrite Hb0 in Hr0.
  destruct (find_block_run c n s0 fl _ Hr0) as (r & s1 & E & Hw & Hf). destruct r as [a|].
  2:{ destruct Hf as [Hno _]. destruct (Hno x); [apply elem_of_app; right; by left|done]. }
  destruct Hf as (l1' & y & l2' & Hsplit & -> & Hy & Hr1).
  assert (Hnums : NoDup (map e_num (l1 ++ x :: l2))).
  { pose proof (co_nums _ _ _ Hco) as Hnd. rewrite map_app in Hnd |- *. exact Hnd. }
  assert (y = x) as ->.
  { eapply (NoDup_map_in e_num); [exact Hnums| | |by rewrite Hy]; [rewrite Hsplit|]; apply elem_of_app; right; by left. }
  destruct (split_unique x l1 l2 l1' l2') as [-> ->]; [by eapply NoDup_fmap_1|done|].
  assert (Hxin : x ∈ fl ++ l1 ++ l2 ++ [x]) by (rewrite !elem_of_app, list_elem_of_singleton; tauto).
  destruct (r_blocks _ _ _ _ Hr1 x Hxin) as (B1 & B2 & _).
  assert (Hav : available fl (l1 ++ e :: l2) s n (set_buffer (e_ptr e) (e_data e) s1) fl (l1 ++ l2) e).
  { rewrite <- Hen. apply moved_available; [done|done|]. rewrite app_assoc in Hr1 |- *.
    pose proof (rep_update c s1 fl (l1 ++ l2) x [] e Hr1 eq_refl eq_refl Hle) as Hu.
    unfold set_block in Hu. cbn in Hu. rewrite insert_id in Hu by exact B1. exact Hu. }
  exists (e_ptr e), s1, fl, (l1 ++ l2), e. split_and!; try done.
  - rewrite <- Hen. apply Hptrs; [done|lia].
  - unfold deref_block. change (e_addr e) with (e_addr x). by rewrite B1.
  - unfold set_buffer. change (e_ptr e) with (e_ptr x). cbn. rewrite insert_id by exact B2. by destruct s1.
  - by eapply available_ready.
Qed.

Lemma step_update s v cnt ptrs K n data : serves s v cnt ptrs K -> is_Some (cnt !! n) -> fs_offset c = 0 -> length data = bs ->
  does_step s (CUpdate n data) ptrs K (update n data v) cnt (ACode 0).
Proof.
  intros Hs Hk Hz Hl. destruct (find_written s v cnt ptrs K n data Hs Hk Hl) as (p & s1 & fl & rest & e & Hp & -> & E & Ed & Es & Hr).
  exists (set_block (e_addr e) (with_dirty true (blk e)) s1), ptrs. split.
  - unfold client_run, bcache_mark_block_dirty. rewrite Hp. unfold bind at 1, modify. unfold bind at 1 2. rewrite E.
    unfold bind. by rewrite Ed.
  - pose proof (serves_content _ v cnt ptrs K n fl rest e data Hr Hl Hz) as Hsv. rewrite <- Es.
    unfold set_buffer in Hsv. cbn in Hsv. by rewrite insert_insert_eq in Hsv.
Qed.

(** The tail of [bcache_zero_block]. *)
Lemma zero_tail s fl rest e : rep c s fl (rest ++ [e]) ->
  exists s', (let! b := deref_block (e_addr e) in
      let! data := deref_buffer (ptr b) in
      let! data := lift (copy_to data 0 (repeat 0 (Z.to_nat (block_size c)))) in
      modify (set_buffer (ptr b) data) ;;; modify (set_block (e_addr e) (with_dirty true b)) ;;; ret 0) s = (Ret 0, s') /\
    s' = set_block (e_addr e) (with_dirty true (blk e)) (set_buffer (e_ptr e) (repeat 0 bs) s).
Proof.
  intros Hr. assert (Hin : e ∈ fl ++ rest ++ [e]) by (rewrite !elem_of_app, list_elem_of_singleton; tauto).
  destruct (r_blocks _ _ _ _ Hr e Hin) as (_ & _ & _ & Hl). eexists. split; [|reflexivity].
  unfold bind. rewrite (deref_run _ _ _ _ _ Hr Hin). cbn [blk ptr]. rewrite (buffer_run _ _ _ _ _ Hr Hin).
  unfold lift. rewrite copy_to_ret by (rewrite ?repeat_length; lia). rewrite blit_full by (by rewrite repeat_length). reflexivity.
Qed.

(** A picked block that gets its content from the caller. *)
Lemma serves_picked s s2 v cnt ptrs fl ll fl' rest e n data : rep c s2 fl' (rest ++ [e]) ->
  coherent fl ll (disk s) -> picked fl ll (disk s) fl' rest e (disk s2) ->
  (forall m, valid m -> view ll (disk s) m = v m) -> counted ll cnt ->
  (forall x, x ∈ ll -> 0 <= e_ref x) -> (forall x, x ∈ ll -> e_ref x <> 0 -> ptrs !! e_num x = Some (e_ptr x)) ->
  (forall x, x ∈ ll -> e_num x <> n) -> valid n -> length data = bs -> fs_offset c = 0 ->
  serves (set_block (e_addr e) (mk_block n (e_ref e) true (e_ptr e)) (set_buffer (e_ptr e) data s2)) (update n data v) cnt ptrs
    (length fl + length ll).
Proof.
  intros Hr2 Hco Hpick Hview Hcnt Hpos Hptrs Hno Hv Hl Hz.
  destruct (picked_spec _ _ _ _ _ _ _ (dev_length (bc_world s)) Hco Hpick) as (Hco2 & Hview2 & Hd2 & Href2 & Hheld2 & Hlen2 & Hsub).
  set (e' := mk_entry (e_addr e) n (e_ref e) true (e_ptr e) data).
  destruct (coherent_add fl' rest (disk s2) e' Hco2 Hv Hl) as [Hco' Hview']; [intros x Hx; by apply Hno, Hsub|done|].
  assert (Hsplit : forall x, x ∈ rest ++ [e'] -> x ∈ ll \/ x = e').
  { intros x Hx. apply elem_of_app in Hx as [Hx|Hx]; [left; by apply Hsub|right; by apply list_elem_of_singleton in Hx]. }
  exists fl', (rest ++ [e']). split_and!.
  - exact (rep_update c s2 fl' rest e [] e' Hr2 eq_refl eq_refl Hl).
  - exact Hco'.
  - rewrite length_app. cbn. lia.
  - intros m Hm. cbn [bc_world set_block set_buffer]. rewrite Hview'. unfold update. cbn [e' e_num e_data].
    destruct (decide (m = n)); [done|]. by rewrite Hview2, Hview.
  - intros m k. rewrite (Hcnt m k). split; intros (Hk & x & Hx & Hxm & Hxk); (split; [done|]); exists x; (split; [|done]).
    + apply elem_of_app. left. apply Hheld2; [lia|done].
    + destruct (Hsplit x Hx) as [?| ->]; [done|]. cbn in Hxk. lia.
  - intros x Hx. destruct (Hsplit x Hx) as [?| ->]; [auto|]. cbn. lia.
  - intros x Hx Hxr. destruct (Hsplit x Hx) as [?| ->]; [auto|]. by destruct Hxr.
Qed.

Lemma step_zero s v cnt ptrs K n : serves s v cnt ptrs K -> can_load K cnt n -> fs_offset c = 0 ->
  does_step s (CZero n) ptrs K (update n (repeat 0 bs) v) cnt (ACode 0).
Proof.
  intros (fl & ll & Hr & Hco & Hlen & Hview & Hcnt & Hpos & Hptrs) [Hv Hroom] Hz.
  assert (Hz0 : length (repeat 0 bs) = bs) by apply repeat_length.
  destruct (find_block_run c n s fl ll Hr) as (r & s1 & E1 & Hf). destruct r as [a|].
  - destruct (found_available s s1 fl ll n a Hco Hf) as (rest & e & -> & Hav).
    assert (Hready : ready v cnt ptrs K n s1 fl rest e) by (by eapply available_ready).
    destruct (zero_tail s1 fl rest e (rd_rep _ _ _ _ _ _ _ _ _ Hready)) as (s' & E & ->). eexists _, ptrs. split.
    + unfold client_run, bcache_zero_block, bind at 1 2. rewrite E1. unfold bind at 1. cbn [ret].
      rewrite E. reflexivity.
    + by apply (serves_content s1 v cnt ptrs K n fl rest e (repeat 0 bs)).
  - destruct Hf as (Hw & Hno & Hr1). rewrite <- Hw in Hco, Hview.
    destruct (alloc_block_run s1 fl ll Hr1) as (s2 & fl' & rest & e & E2 & Hr2 & Hpick).
    { intros x Hx Hd. split; [by apply (co_valid _ _ _ Hco)|by eapply (co_dirty _ _ _ Hco)]. }
    { assert (Hrm : room fl ll \/ exists x, x ∈ ll /\ e_num x = n) by (eapply (room_for s1); [done..|by rewrite Hlen]).
      destruct Hrm as [Hrm|(x & Hx & Hxn)]; [done|]. by destruct (Hno x Hx). }
    assert (Hin : e ∈ fl' ++ rest ++ [e]) by (rewrite !elem_of_app, list_elem_of_singleton; tauto).
    destruct (r_blocks _ _ _ _ Hr2 e Hin) as (_ & _ & _ & Hle).
    set (e1 := mk_entry (e_addr e) n (e_ref e) (e_dirty e) (e_ptr e) (e_data e)).
    pose proof (rep_update c s2 fl' rest e [] e1 Hr2 eq_refl eq_refl Hle) as Hr3.
    destruct (r_blocks _ _ _ _ Hr2 e Hin) as (_ & B2 & _).
    assert (Hb : set_buffer (e_ptr e) (e_data e1) s2 = s2) by (unfold set_buffer; cbn; rewrite insert_id by done; by destruct s2).
    rewrite Hb in Hr3. destruct (zero_tail _ fl' rest e1 Hr3) as (s' & E & ->). eexists _, ptrs. split.
    + unfold client_run, bcache_zero_block, bind at 1 2. rewrite E1. unfold bind at 1 2. rewrite E2. unfold bind at 1.
      rewrite (deref_run _ _ _ _ _ Hr2 Hin). unfold bind at 1, modify. cbn [ret]. unfold with_blocknum. cbn [blk ref_count is_dirty ptr].
      unfold modify in E. cbn [e1 e_addr] in E. change (blk e1) with (mk_block n (e_ref e) (e_dirty e) (e_ptr e)) in E. rewrite E. reflexivity.
    + pose proof (serves_picked s1 s2 v cnt ptrs fl ll fl' rest e n (repeat 0 bs) Hr2 Hco Hpick Hview Hcnt Hpos Hptrs Hno Hv Hz0 Hz) as Hs.
      rewrite Hlen in Hs. unfold with_dirty, set_block, set_buffer in *. cbn in *. by rewrite insert_insert_eq.
Qed.

Lemma flush_run s v cnt ptrs K : serves s v cnt ptrs K ->
  exists s', bcache_flush ERR_GENERIC c s = (Ret 0, s') /\ serves s' v cnt ptrs K /\
    forall n, valid n -> block_of (disk s') n = v n.
Proof.
  intros (fl & ll & Hr & Hco & Hlen & Hview & Hcnt & Hpos & Hptrs).
  destruct (flush_from_run fl ll (size (nodes s)) [] s Hr Hco (lru_fits _ _ _ _ Hr)) as (s' & E & Hr' & Hco' & Hview').
  cbn [app] in *. assert (Hel : forall x, x ∈ map clean ll -> exists y, x = clean y /\ y ∈ ll) by (intros x Hx; by apply list_elem_of_fmap in Hx).
  assert (Hv : forall m, valid m -> view (map clean ll) (disk s') m = v m) by (intros m Hm; by rewrite Hview', Hview).
  exists s'. split; [|split].
  - unfold bcache_flush, bind at 1, get. unfold bind at 1. rewrite (lru_first c s fl ll Hr). by rewrite E.
  - exists fl, (map clean ll). split_and!; [done|done|by rewrite length_map|done| | |].
    + intros m k. rewrite (Hcnt m k). split; intros (Hk & x & Hx & Hxm & Hxk); (split; [done|]).
      * exists (clean x). split; [by apply list_elem_of_fmap_2|done].
      * destruct (Hel x Hx) as (y & -> & Hy). by exists y.
    + intros x Hx. destruct (Hel x Hx) as (y & -> & Hy). by apply (Hpos y).
    + intros x Hx. destruct (Hel x Hx) as (y & -> & Hy). by apply (Hptrs y).
  - intros n Hn. rewrite <- Hv by done. unfold view. destruct (find _ _) as [x|] eqn:Ef; [|done].
    apply find_some in Ef as [Hx Ef]. apply list_elem_of_In in Hx. assert (n = e_num x) as -> by lia. symmetry.
    apply (co_clean _ _ _ Hco' x Hx). by destruct (Hel x Hx) as (y & -> & _).
Qed.

Lemma step_flush s v cnt ptrs K : serves s v cnt ptrs K -> does_step s CFlush ptrs K v cnt (ACode 0).
Proof.
  intros Hs. destruct (flush_run s v cnt ptrs K Hs) as (s' & E & Hs' & _). exists s', ptrs.
  unfold client_run, bind. by rewrite E.
Qed.

Lemma store_step_runs s v cnt ptrs K o v' cnt' r : serves s v cnt ptrs K -> store_step K v cnt o v' cnt' r ->
  does_step s o ptrs K v' cnt' r.
Proof.
  intros Hs Hstep. destruct Hstep; [by apply step_read|by apply step_get|by apply step_look|by apply step_put|by apply step_zero|
    by apply step_update|by apply step_flush].
Qed.
End Coherence.

(** ** After a read that failed *)

Section Poison.
Context {W : Type} `{DmaHeap W} `{HeapApi W} (debug : bool) (ERR_GENERIC : Z) (c : bcache W).

(** The links and numbers of a run of blocks that leads to [a]. *)
Fixpoint leads (s : cache_mem W) (l : list entry) (a : Z) : Prop :=
  match l with
  | [] => True
  | x :: l => e_addr x <> lru_list c /\ (exists b, block_at s !! e_addr x = Some b /\ blocknum b = e_num x) /\
      nx (nodes s) (e_addr x) = Some (first_of (map e_addr l) a) /\ leads s l a
  end.

(** A search that passes them. *)
Lemma find_passes m a l : forall fuel d s, leads s l a -> (forall x, x ∈ l -> e_num x <> m) ->
  exists d', find_from c (length l + fuel) m d (first_of (map e_addr l) a) s = find_from c fuel m d' a s.
Proof.
  induction l as [|x l IH]; intros fuel d s Hl Hno; [by exists d|]. cbn [leads] in Hl.
  destruct Hl as (Hx & (b & Hb & Hn) & Hnx & Hl). cbn [length plus map first_of find_from].
  destruct (Z.eqb_spec (e_addr x) (lru_list c)) as [|_]; [done|]. unfold bind at 1, deref_block. rewrite Hb.
  rewrite Hn. destruct (Z.eqb_spec (e_num x) m) as [E|_]; [by destruct (Hno x ltac:(by left))|].
  unfold bind, on_nodes. rewrite (load_next_run _ _ _ Hnx).
  destruct (IH fuel (u32 (d + 1)) s Hl) as [d' E]; [intros y Hy; apply Hno; by right|]. exists d'.
  rewrite <- E. by destruct s.
Qed.

Lemma leads_short m a l : forall fuel d s, leads s l a -> (forall x, x ∈ l -> e_num x <> m) -> (fuel < length l)%nat ->
  (find_from c fuel m d (first_of (map e_addr l) a) s).1 = Fuel.
Proof.
  induction l as [|x l IH]; intros fuel d s Hl Hno Hf; [cbn in Hf; lia|]. cbn [leads] in Hl.
  destruct Hl as (Hx & (b & Hb & Hn) & Hnx & Hl). cbn [map first_of].
  destruct fuel as [|fuel]; cbn [find_from]; (destruct (Z.eqb_spec (e_addr x) (lru_list c)) as [|_]; [done|]); [done|].
  unfold bind at 1, deref_block. rewrite Hb, Hn. destruct (Z.eqb_spec (e_num x) m) as [E|_]; [by destruct (Hno x ltac:(by left))|].
  unfold bind, on_nodes. rewrite (load_next_run _ _ _ Hnx).
  replace (mk_mem (nodes s) (block_at s) (buffer s) (stats s) (bc_world s)) with s by (by destruct s).
  apply IH; [done|intros y Hy; apply Hno; by right|cbn in Hf; lia].
Qed.

Lemma leads_ring s fl e l2 lb : forall la, rep c s fl (la ++ lb ++ e :: l2) -> leads s lb (e_addr e).
Proof.
  induction lb as [|x lb IH]; intros la Hr; [done|]. cbn [leads app] in *. split; [|split; [|split]].
  - pose proof (not_head c s fl la x (lb ++ e :: l2) Hr). lia.
  - destruct (r_blocks _ _ _ _ Hr x) as (B & _); [rewrite !elem_of_app, elem_of_cons; tauto|]. by exists (blk x).
  - destruct Hr as [_ Hl _ _ _]. rewrite map_app in Hl. cbn [map] in Hl. destruct (ring_next _ _ _ _ _ Hl) as [En _].
    rewrite En, map_app. by destruct lb.
  - apply (IH (la ++ [x])). by rewrite <- app_assoc.
Qed.

(** The same blocks on changed links. *)
Lemma leads_links s s' l a : leads s l a -> (forall x, x ∈ l -> nx (nodes s') (e_addr x) = nx (nodes s) (e_addr x)) ->
  (forall x, x ∈ l -> block_at s' !! e_addr x = block_at s !! e_addr x) -> leads s' l a.
Proof.
  induction l as [|x l IH]; intros Hl Hn Hb; [done|]. cbn [leads] in *. destruct Hl as (H1 & (b & H2 & H3) & H4 & H5).
  split; [done|]. split; [exists b; by rewrite Hb by by left|]. split; [by rewrite Hn by by left|].
  apply IH; [done|intros y Hy; apply Hn; by right|intros y Hy; apply Hb; by right].
Qed.

(** A block that leads to itself is never passed. *)
Lemma stuck m a b : forall fuel d s, a <> lru_list c -> block_at s !! a = Some b -> blocknum b <> m ->
  nx (nodes s) a = Some a -> (find_from c fuel m d a s).1 = Fuel.
Proof.
  induction fuel as [|fuel IH]; intros d s Ha Hb Hm Hn; cbn [find_from]; (destruct (Z.eqb_spec a (lru_list c)) as [|_]; [done|]); [done|].
  unfold bind at 1, deref_block. rewrite Hb. destruct (Z.eqb_spec (blocknum b) m) as [|_]; [done|].
  unfold bind, on_nodes. rewrite (load_next_run _ _ _ Hn).
  replace (mk_mem (nodes s) (block_at s) (buffer s) (stats s) (bc_world s)) with s by (by destruct s). by apply IH.
Qed.

Lemma poisoned_find s2 fl ll e n b s3 : rep c s2 fl (ll ++ [e]) -> (forall x, x ∈ ll -> e_num x <> n) -> blocknum b = n ->
  s3 = set_block (e_addr e) b s2 ->
  exists n1 n3 f, list_add_tail (free_list c) (e_addr e) (nodes s3) = (Ret tt, n1) /\
    find_block c n (set_nodes n1 s3) = (Ret (Some (e_addr e)), set_stats f (set_nodes n3 s3)) /\
    forall m fuel st, m <> n -> (forall x, x ∈ ll -> e_num x <> m) ->
      ((let! a := on_nodes (load_next (lru_list c)) in find_from c fuel m 0 a) (set_stats st (set_nodes n3 s3))).1 = Fuel.
Proof.
  intros Hr Hno Hb ->. pose proof Hr as [Hf Hl _ _ Hblk]. rewrite map_app in Hl. cbn [map] in Hl.
  destruct (double_add (nodes s2) (lru_list c) (map e_addr ll) (e_addr e) (free_list c) (map e_addr fl) Hl Hf)
    as (n1 & n2 & n3 & E1 & E2 & E3 & Hself & Hsame & Hdom).
  { intros x Hx. pose proof (free_lru_apart c s2 fl _ x Hr Hx) as Hap. by rewrite map_app in Hap. }
  pose proof (leads_ring s2 fl e [] ll [] Hr) as Hlead.
  assert (Hother : forall x, x ∈ ll -> e_addr x <> e_addr e).
  { intros x Hx Heq. destruct Hl as [Hnd _]. apply NoDup_cons in Hnd as [_ Hnd]. apply NoDup_app in Hnd as (_ & Hnd & _).
    eapply (Hnd (e_addr x)); [by apply list_elem_of_fmap_2|]. rewrite Heq. by left. }
  assert (Hbl : forall x, x ∈ ll -> <[e_addr e := b]> (block_at s2) !! e_addr x = block_at s2 !! e_addr x).
  { intros x Hx. rewrite lookup_insert_ne; [done|]. intros Heq. by destruct (Hother x Hx). }
  assert (Hl1 : leads (set_nodes n1 (set_block (e_addr e) b s2)) ll (e_addr e)).
  { apply (leads_links s2); [done| |done]. intros x Hx. apply Hsame. right. by apply list_elem_of_fmap_2. }
  assert (Hl3 : forall st, leads (set_stats st (set_nodes n3 (set_block (e_addr e) b s2))) ll (e_addr e)).
  { intros st. apply (leads_links s2); [done| |done]. intros x Hx. apply Hsame. right. by apply list_elem_of_fmap_2. }
  pose proof (lru_first c s2 fl _ Hr) as Hfirst. rewrite map_app in Hfirst.
  assert (Hnx : nx (nodes s2) (lru_list c) = Some (first_of (map e_addr ll) (e_addr e))).
  { destruct (ring_ends _ _ _ Hl) as (En & _). rewrite En. by destruct ll. }
  assert (Hne : e_addr e <> lru_list c) by (pose proof (not_head c s2 fl ll e [] Hr); lia).
  assert (Hsize : (length ll < size (nodes (set_nodes n1 (set_block (e_addr e) b s2))))%nat).
  { cbn [nodes set_nodes]. pose proof (ring_fits _ _ _ Hl) as Hfit. cbn in Hfit. rewrite length_app, length_map in Hfit. cbn in Hfit.
    assert (Hdom' : dom n1 = dom (nodes s2)) by (apply set_eq; intros x; by rewrite !elem_of_dom).
    rewrite <- size_dom, Hdom', size_dom. lia. }
  assert (Hfind : exists f, find_block c n (set_nodes n1 (set_block (e_addr e) b s2)) =
    (Ret (Some (e_addr e)), set_stats f (set_nodes n3 (set_block (e_addr e) b s2)))).
  { unfold find_block, bind at 1, get. unfold bind at 1.
    assert (En1 : load_next (lru_list c) n1 = (Ret (first_of (map e_addr ll) (e_addr e)), n1)).
    { apply load_next_run. rewrite (proj1 (Hsame (lru_list c) ltac:(by left))). exact Hnx. }
    rewrite (on_nodes_run _ (set_nodes n1 _) _ _ En1). set (sz := size _) in *.
    replace sz with (length ll + (sz - length ll))%nat by lia.
    replace (set_nodes n1 (set_nodes n1 (set_block (e_addr e) b s2))) with (set_nodes n1 (set_block (e_addr e) b s2)) by done.
    destruct (find_passes n (e_addr e) ll (sz - length ll) 0 _ Hl1 Hno) as [d' Ep]. rewrite Ep.
    destruct (sz - length ll)%nat as [|k] eqn:Ek; [lia|]. cbn [find_from].
    destruct (Z.eqb_spec (e_addr e) (lru_list c)) as [|_]; [done|]. unfold bind at 1, deref_block. cbn [block_at set_nodes set_block].
    rewrite lookup_insert_eq, Hb, Z.eqb_refl. unfold bind at 1. unfold on_nodes at 1. cbn [nodes set_nodes]. rewrite E2.
    unfold bind at 1. unfold on_nodes at 1. cbn [nodes]. rewrite E3. unfold bind at 1, modify. eexists. reflexivity. }
  destruct Hfind as [f Hfind]. exists n1, n3, f. split; [exact E1|]. split; [exact Hfind|].
  intros m fuel st Hm Hnom. unfold bind.
    assert (En3 : load_next (lru_list c) n3 = (Ret (first_of (map e_addr ll) (e_addr e)), n3)).
    { apply load_next_run. rewrite (proj2 (Hsame (lru_list c) ltac:(by left))). exact Hnx. }
    set (s5 := set_stats st _). assert (Es : on_nodes (load_next (lru_list c)) s5 = (Ret (first_of (map e_addr ll) (e_addr e)), s5))
      by (apply (on_nodes_run _ s5); exact En3). rewrite Es.
    destruct (decide (fuel < length ll)%nat) as [Hlt|Hge]; [apply leads_short; [apply Hl3|done|done]|].
    replace fuel with (length ll + (fuel - length ll))%nat by lia.
    destruct (find_passes m (e_addr e) ll (fuel - length ll) 0 s5 (Hl3 st) Hnom) as [d' Ep]. rewrite Ep.
    apply (stuck m (e_addr e) b); [done|exact (lookup_insert_eq (block_at s2) (e_addr e) b)|congruence|exact Hself].
Qed.
End Poison.

(** ** Theorems *)

(** C26.  The cache is a store of blocks.  For any series of reads, gets, looks
    through held pointers, puts, zeroings, updates through a held pointer and
    flushes, in which the caller puts only what it holds and holds fewer blocks
    at a time than the cache has, every answer is the one of a plain store:
    eviction, write-back and reloading are invisible, and a held pointer stays
    good until it is put back.  Blocks are only changed when the file system
    begins at the start of the device.  The device serves valid requests. *)
Theorem cache_is_store {W} `{DmaHeap W} (debug : bool) (ERR_GENERIC : Z) (c : bcache W) (d : bdev W)
    `{!FlatDevice d} K s v cnt ptrs os v' cnt' rs :
  dev c = Some d -> read d = default_hook -> write d = default_hook -> ~ may_fail -> 0 < block_size c -> 0 <= fs_offset c ->
  serves c d s v cnt ptrs K -> store_steps c d K v cnt os v' cnt' rs ->
  exists s' ptrs', client_runs debug ERR_GENERIC c os ptrs s = (Ret rs, s') /\ serves c d s' v' cnt' ptrs' K.
Proof.
  intros Hdev Hrd Hwr Hok Hbs Hfs Hs Hsteps. revert s ptrs Hs.
  induction Hsteps as [v cnt|v cnt o v1 cnt1 r os v2 cnt2 rs H1 _ IH]; intros s ptrs Hs; [by exists s, ptrs|].
  destruct (store_step_runs debug ERR_GENERIC c d Hdev Hrd Hwr Hok Hbs Hfs s v cnt ptrs K o v1 cnt1 r Hs H1) as (s1 & ptrs1 & E1 & Hs1).
  destruct (IH s1 ptrs1 Hs1) as (s2 & ptrs2 & E2 & Hs2). exists s2, ptrs2. split; [|done].
  cbn [client_runs]. unfold bind. rewrite E1. cbn [fst snd]. by rewrite E2.
Qed.

(** A flush brings the device up to date: after it every block of the file
    system on the device is the block of the store, and the store itself is
    unchanged. *)
Theorem flush_reaches_device {W} `{DmaHeap W} (ERR_GENERIC : Z) (c : bcache W) (d : bdev W) `{!FlatDevice d} K s v cnt ptrs :
  dev c = Some d -> read d = default_hook -> write d = default_hook -> ~ may_fail -> 0 < block_size c -> 0 <= fs_offset c ->
  serves c d s v cnt ptrs K ->
  exists s', bcache_flush ERR_GENERIC c s = (Ret 0, s') /\ serves c d s' v cnt ptrs K /\
    forall n, valid c d n -> block_of c (content (d := d) (bc_world s')) n = v n.
Proof.
  intros Hdev Hrd Hwrite Hok Hbs Hfs Hs.
  by apply (flush_run ERR_GENERIC c d Hdev Hwrite Hok Hbs Hfs s v cnt ptrs K).
Qed.

(** A read that fails poisons the cache.  The block that was taken for it
    is put on the free list while it is still in use.  A second read of the same
    block reports success and returns what the buffer held before, and from then
    on the search for any other block that is not cached never ends. *)
Theorem failed_read_poisons {W} `{DmaHeap W} (debug : bool) (ERR_GENERIC : Z) (c : bcache W) s e fl ll n buf err w' :
  rep c s (e :: fl) ll -> (forall x, x ∈ ll -> e_num x <> n) -> 0 < block_size c -> block_size c <= Z.of_nat (length buf) ->
  tegrabl_blockdev_read (dev c) (e_ptr e) (e_data e) (u64 (fs_offset c + u64 (n * block_size c))) (block_size c) (bc_world s)
    = (Err err, w') ->
  exists s1 s2, bcache_read_block debug ERR_GENERIC c buf n s = (Ret (-1, buf), s1) /\
    bcache_read_block debug ERR_GENERIC c buf n s1 = (Ret (0, blit buf 0 (e_data e)), s2) /\
    forall m fuel, m <> n -> (forall x, x ∈ ll -> e_num x <> m) ->
      ((let! a := on_nodes (load_next (lru_list c)) in find_from c fuel m 0 a) s2).1 = Fuel.
Proof.
  intros Hr Hno Hbs Hbuf Herr.
  destruct (find_block_run c n s (e :: fl) ll Hr) as (r & s1 & E1 & Hw1 & Hf). destruct r as [a|].
  { destruct Hf as (l1 & x & l2 & -> & _ & Hx & _). destruct (Hno x); [apply elem_of_app; right; by left|done]. }
  destruct Hf as [_ Hr1]. destruct (alloc_free_run ERR_GENERIC c s1 e fl ll Hr1) as (s2 & E2 & Hr2 & Hw2).
  assert (Hin : unheld e ∈ fl ++ ll ++ [unheld e]) by (rewrite !elem_of_app, list_elem_of_singleton; tauto).
  destruct (r_blocks _ _ _ _ Hr2 _ Hin) as (B1 & B2 & B3 & B4). cbn [unheld e_addr e_ptr e_data] in *.
  set (b := with_blocknum n (blk (unheld e))).
  set (s3 := set_block (e_addr e) b (mk_mem (nodes s2) (block_at s2) (buffer s2) (stats s2) w')).
  destruct (poisoned_find c _ fl ll (unheld e) n b s3 (rep_world _ _ _ _ w' Hr2) Hno eq_refl eq_refl) as (n1 & n3 & f & E3 & E4 & Hstuck).
  cbn [unheld e_addr] in *. exists (set_nodes n1 s3), (set_stats f (set_nodes n3 s3)). split; [|split].
  - unfold bcache_read_block, find_or_fill_block, bind at 1 2. rewrite E1. unfold bind at 1. rewrite E2.
    rewrite assert_true by (by rewrite bool_decide_true by done). unfold bind at 1. cbn [ret]. unfold bind at 1, deref_block. rewrite B1.
    unfold bind at 1, modify. unfold bind at 1, deref_buffer. cbn [buffer set_block blk unheld ptr e_ptr]. rewrite B2.
    unfold bind at 1, code, on_world. cbn [bc_world set_block]. rewrite Hw2, Hw1, Herr. unfold bind at 1.
    unfold bind. match goal with |- context [on_nodes (list_add_tail _ _) ?x] => change x with s3 end.
    rewrite (on_nodes_run _ s3 (Ret tt) n1 E3). reflexivity.
  - unfold bcache_read_block, find_or_fill_block, bind at 1 2. rewrite E4. unfold bind at 1, deref_block at 1.
    cbn [block_at set_stats set_nodes s3 set_block]. rewrite lookup_insert_eq. unfold bind at 1. rewrite assert_true by apply Z.eqb_refl.
    cbn [ret]. unfold bind at 1, deref_block. cbn [block_at set_stats set_nodes s3 set_block]. rewrite lookup_insert_eq.
    unfold bind at 1, deref_buffer. cbn [buffer set_stats set_nodes s3 set_block b with_blocknum blk unheld ptr e_ptr]. rewrite B2.
    unfold bind, lift. rewrite copy_from_ret by lia. rewrite copy_to_ret; [|lia|rewrite length_slice; lia].
    cbn [ret]. do 3 f_equal. unfold slice. rewrite drop_0, take_ge by lia. done.
  - intros m fuel Hm Hnom. by apply Hstuck.
Qed.

(** ** A cache of two blocks on the small disk *)

(** A heap that hands out ever higher addresses. *)
Definition bump_heap : HeapApi (list Z) := {|
  heap_malloc n := fun w => (Ret (Some (4096 + 16 * Z.of_nat (length w))), w ++ repeat 0 (Z.to_nat n));
  heap_free _ := ret tt;
|}.
Definition no_cache : cache_mem (list Z) := mk_mem ∅ ∅ ∅ stats0 small_content.
Definition small_created : outcome (option (bcache (list Z))) * cache_mem (list Z) :=
  @bcache_create (list Z) bump_heap (fun p n => repeat 99 (Z.to_nat n)) (Some small_disk) 4 2 0 no_cache.
Definition small_cache : bcache (list Z) := mk_bcache (Some small_disk) 4 2 0 4408 4424 5888.
Definition small_mem : cache_mem (list Z) := small_created.2.
Definition small_entries : list entry :=
  [mk_entry 5928 0 0 false 7232 [99; 99; 99; 99]; mk_entry 5888 0 0 false 7168 [99; 99; 99; 99]].

Lemma small_created_ok : small_created.1 = Ret (Some small_cache).
Proof. vm_compute. reflexivity. Qed.

Lemma small_rep : rep small_cache small_mem small_entries [].
Proof.
  split.
  - split; [refine (bool_decide_unpack _ _); vm_compute; exact I|vm_compute; by split_and!].
  - split; [refine (bool_decide_unpack _ _); vm_compute; exact I|vm_compute; by split_and!].
  - refine (bool_decide_unpack _ _); vm_compute; exact I.
  - refine (bool_decide_unpack _ _); vm_compute; exact I.
  - intros e He. unfold small_entries in He. rewrite app_nil_r, !elem_of_cons, elem_of_nil in He.
    destruct He as [->|[->|[]]]; split_and!; vm_compute; reflexivity.
Qed.

Definition small_store (n : Z) : list Z := block_of small_cache small_content n.

Lemma small_serves : serves small_cache small_disk small_mem small_store ∅ ∅ 2.
Proof.
  exists small_entries, []. split; [apply small_rep|]. split.
  { split; try (intros e He; by apply elem_of_nil in He); [constructor|].
    intros e He. unfold small_entries in He. rewrite !elem_of_cons, elem_of_nil in He. by destruct He as [->|[->|[]]]. }
  split_and!; [done| | |intros e He; by apply elem_of_nil in He|intros e He; by apply elem_of_nil in He].
  - intros n _. unfold view, small_store. cbn [find]. reflexivity.
  - intros n k. rewrite lookup_empty. split; [done|]. intros (_ & e & He & _). by apply elem_of_nil in He.
Qed.

Ltac small_load := split; [split; vm_compute; discriminate|left; vm_compute; lia].

Lemma cache_is_store_witness :
  exists s' ptrs', client_runs true (-1) small_cache
      [CRead 1 [0; 0; 0; 0; 5]; CGet 0; CZero 2; CUpdate 0 [7; 7; 7; 7]; CRead 1 [0; 0; 0; 0]; CRead 2 [1; 1; 1; 1]; CLook 0;
       CPut 0; CFlush; CRead 0 [0; 0; 0; 0]] ∅ small_mem =
    (Ret [AData [4; 5; 6; 7; 5]; ACode 0; ACode 0; ACode 0; AData [4; 5; 6; 7]; AData [0; 0; 0; 0]; AData [7; 7; 7; 7];
          ACode 0; ACode 0; AData [7; 7; 7; 7]], s') /\ ptrs' = (∅ : gmap Z Z).
Proof.
  edestruct (cache_is_store true (-1) small_cache small_disk 2 small_mem small_store ∅ ∅) as (s' & ptrs' & E & _);
    [done..|by intros ?|done|done|apply small_serves| |].
  - eapply Go; [apply (SRead _ _ _ _ _ 1 [0; 0; 0; 0; 5]); [small_load|vm_compute; discriminate]|].
    eapply Go; [apply (SGet _ _ _ _ _ 0); [small_load|vm_compute; reflexivity]|].
    eapply Go; [apply (SZero _ _ _ _ _ 2); [small_load|done]|].
    eapply Go; [apply (SUpdate _ _ _ _ _ 0 [7; 7; 7; 7]); [by eexists|done|done]|].
    eapply Go; [apply (SRead _ _ _ _ _ 1 [0; 0; 0; 0]); [small_load|vm_compute; discriminate]|].
    eapply Go; [apply (SRead _ _ _ _ _ 2 [1; 1; 1; 1]); [small_load|vm_compute; discriminate]|].
    eapply Go; [apply (SLook _ _ _ _ _ 0); by eexists|].
    eapply Go; [apply (SPut _ _ _ _ _ 0 1); [by vm_compute|lia]|].
    eapply Go; [apply SFlush|].
    eapply Go; [apply (SRead _ _ _ _ _ 0 [0; 0; 0; 0]); [small_load|vm_compute; discriminate]|].
    apply Stop.
  - exists s', ∅. split; [|done]. rewrite E. f_equal.
Defined.

Lemma flush_reaches_device_witness :
  exists s', bcache_flush (-1) small_cache small_mem = (Ret 0, s') /\
    block_of small_cache (content (d := small_disk) (bc_world s')) 3 = [12; 13; 14; 15].
Proof.
  destruct (flush_reaches_device (-1) small_cache small_disk 2 small_mem small_store ∅ ∅) as (s' & E & _ & Hd);
    [done..|by intros ?|done|done|apply small_serves|].
  exists s'. split; [exact E|]. rewrite Hd; [by vm_compute|]. split; vm_compute; discriminate.
Defined.

(** A disk whose driver reports an error for every read. *)
Definition broken_disk : bdev (list Z) :=
  mk_bdev 1 0x30000 16 2 4 false 4 default_hook default_hook (fun _ _ => err 1) (fun _ _ _ => err 1) None None
    (fun _ _ _ => err 1) None None.
Definition broken_cache : bcache (list Z) := mk_bcache (Some broken_disk) 4 2 0 4408 4424 5888.

Lemma failed_read_poisons_witness :
  exists s1 s2, bcache_read_block false (-1) broken_cache [0; 0; 0; 0] 1 small_mem = (Ret (-1, [0; 0; 0; 0]), s1) /\
    bcache_read_block false (-1) broken_cache [0; 0; 0; 0] 1 s1 = (Ret (0, [99; 99; 99; 99]), s2) /\
    forall m fuel, m <> 1 ->
      ((let! a := on_nodes (load_next (lru_list broken_cache)) in find_from broken_cache fuel m 0 a) s2).1 = Fuel.
Proof.
  destruct (tegrabl_blockdev_read (Some broken_disk) 7232 [99; 99; 99; 99] 4 4 (bc_world small_mem)) as [r w'] eqn:E.
  assert (Er : exists err, r = Err err).
  { apply (f_equal fst) in E. cbn [fst] in E. rewrite <- E. vm_compute. by eexists. }
  destruct Er as [err ->].
  destruct (failed_read_poisons false (-1) broken_cache small_mem (mk_entry 5928 0 0 false 7232 [99; 99; 99; 99])
    [mk_entry 5888 0 0 false 7168 [99; 99; 99; 99]] [] 1 [0; 0; 0; 0] err w') as (s1 & s2 & E1 & E2 & E3).
  - destruct small_rep. by split.
  - intros x Hx. apply elem_of_nil in Hx; destruct Hx.
  - done.
  - done.
  - exact E.
  - exists s1, s2. split; [exact E1|]. split; [exact E2|]. intros m fuel Hm. apply E3; [done|]. intros x Hx. apply elem_of_nil in Hx; destruct Hx.
Defined.
