(* ===== verification/Clib.v ===== *)
(** * The C library: memory and strings

    lib/clib/string.c.  Memory maps the addresses of the objects a call may
    touch to bytes; an access to any other address is [Undef], and so is a word
    access that is not aligned.  Addresses do not wrap: an object ends in front of
    the end of the address space. *)
From stdpp Require Import gmap.
From S2P Require Import Prelude Interfaces.
#[local] Open Scope Z_scope.

Definition lsize : Z := 8.
Definition lmask : Z := 7.

Abbreviation mem := (gmap Z Z).

Definition load (a : Z) : M mem Z := fun m => match m !! a with Some v => (Ret v, m) | None => (Undef, m) end.
Definition store (a v : Z) : M mem unit := fun m =>
  match m !! a with Some _ => (Ret tt, <[a := v]> m) | None => (Undef, m) end.

Fixpoint load_bytes (n : nat) (a : Z) : M mem (list Z) :=
  match n with
  | O => ret []
  | S n => let! v := load a in let! l := load_bytes n (a + 1) in ret (v :: l)
  end.
Fixpoint store_bytes (a : Z) (l : list Z) : M mem unit :=
  match l with [] => ret tt | v :: l => store a v ;;; store_bytes (a + 1) l end.

(** A word is the list of its bytes. *)
Definition load_word (a : Z) : M mem (list Z) := if Z.land a lmask =? 0 then load_bytes 8 a else undef.
Definition store_word (a : Z) (w : list Z) : M mem unit := if Z.land a lmask =? 0 then store_bytes a w else undef.

(** ** Engines for large transfers *)

(** [struct tegrabl_clib_dma]; a callback gets its private pointer itself.  It
    returns zero when it has done the transfer. *)
Record tegrabl_clib_dma := mk_dma {
  memcpy_callback : option (Z -> Z -> Z -> M mem Z);
  memcpy_threshold : Z;
  memset_callback : option (Z -> Z -> Z -> M mem Z);
  memset_threshold : Z;
}.

Definition tegrabl_clib_dma_register (dma_info : option tegrabl_clib_dma) (current : tegrabl_clib_dma) : tegrabl_clib_dma :=
  match dma_info with Some d => d | None => current end.

Section Memory.
Variable dma : tegrabl_clib_dma.

(** Whether the transfer is still to be done. *)
Definition offer (callback : option (Z -> Z -> Z -> M mem Z)) (threshold a b n : Z) : M mem Z :=
  match callback with
  | Some f => if threshold <=? n then f a b n else ret 1
  | None => ret 1
  end.

(** ** Filling *)

Fixpoint fill_bytes (n : nat) (xs c : Z) : M mem unit :=
  match n with O => ret tt | S n => store xs c ;;; fill_bytes n (xs + 1) c end.
Fixpoint fill_words (n : nat) (xs : Z) (cc : list Z) : M mem unit :=
  match n with O => ret tt | S n => store_word xs cc ;;; fill_words n (xs + lsize) cc end.

Definition memset (s c n : Z) : M mem Z :=
  let len := Z.land (u64 (- s)) lmask in
  if len <? n then
    let n := n - len in
    let cc := Z.land c 0xff in
    let cc := Z.lor cc (Z.shiftl cc 8) in
    let cc := Z.lor cc (Z.shiftl cc 16) in
    let cc := u64 (Z.lor cc (Z.shiftl cc 32)) in
    fill_bytes (Z.to_nat len) s (u8 c) ;;;
    let xs := s + len in
    let words := n / lsize in
    let! not_done := offer (memset_callback dma) (memset_threshold dma) xs c (words * lsize) in
    when (truthy not_done) (fill_words (Z.to_nat words) xs (le 8 cc)) ;;;
    fill_bytes (Z.to_nat (Z.land n lmask)) (xs + words * lsize) (u8 c) ;;;
    ret s
  else fill_bytes (Z.to_nat n) s (u8 c) ;;; ret s.

(** ** Copying *)

Fixpoint copy_bytes (n : nat) (d s : Z) : M mem unit :=
  match n with
  | O => ret tt
  | S n => let! v := load s in store d v ;;; copy_bytes n (d + 1) (s + 1)
  end.
Fixpoint copy_words (n : nat) (d s : Z) : M mem unit :=
  match n with
  | O => ret tt
  | S n => let! w := load_word s in store_word d w ;;; copy_words n (d + lsize) (s + lsize)
  end.

(** The bytes in front of the first word. *)
Definition unaligned (d s : Z) : bool := negb (Z.land (Z.lor d s) lmask =? 0).
Definition head_bytes (d s n : Z) : Z :=
  if unaligned d s then
    if negb (Z.land (Z.lxor d s) lmask =? 0) || (n <? lsize) then n else lsize - Z.land d lmask
  else 0.

Definition memcpy (dest src n : Z) : M mem Z :=
  if (n =? 0) || (dest =? src) then ret dest
  else if (src =? 0) || (dest =? 0) then ret 0
  else
    let len := head_bytes dest src n in
    copy_bytes (Z.to_nat len) dest src ;;;
    let n := n - len in
    let d := dest + len in
    let s := src + len in
    let words := n / lsize in
    let! not_done := offer (memcpy_callback dma) (memcpy_threshold dma) d s (words * lsize) in
    when (truthy not_done) (copy_words (Z.to_nat words) d s) ;;;
    copy_bytes (Z.to_nat (Z.land n lmask)) (d + words * lsize) (s + words * lsize) ;;;
    ret dest.

(** Downwards from the ends. *)
Fixpoint rcopy_bytes (n : nat) (d s : Z) : M mem unit :=
  match n with
  | O => ret tt
  | S n => let! v := load (s - 1) in store (d - 1) v ;;; rcopy_bytes n (d - 1) (s - 1)
  end.
Fixpoint rcopy_words (n : nat) (d s : Z) : M mem unit :=
  match n with
  | O => ret tt
  | S n => let! w := load_word (s - lsize) in store_word (d - lsize) w ;;; rcopy_words n (d - lsize) (s - lsize)
  end.

(** The bytes behind the last word. *)
Definition tail_bytes (d s n : Z) : Z :=
  if unaligned d s then
    u32 (if negb (Z.land (Z.lxor d s) lmask =? 0) || (n <? lsize) then n else Z.land d lmask)
  else 0.

Definition rmemcpy (dest src n : Z) : M mem Z :=
  if (n =? 0) || (dest =? src) then ret dest
  else if (src =? 0) || (dest =? 0) then ret 0
  else
    let d := dest + n in
    let s := src + n in
    let len := tail_bytes d s n in
    rcopy_bytes (Z.to_nat len) d s ;;;
    let n := n - len in
    let d := d - len in
    let s := s - len in
    let words := u32 (n / lsize) in
    rcopy_words (Z.to_nat words) d s ;;;
    rcopy_bytes (Z.to_nat (Z.land n lmask)) (d - words * lsize) (s - words * lsize) ;;;
    ret dest.

Definition memmove (dest src n : Z) : M mem Z :=
  if (dest =? 0) || (src =? 0) then ret 0
  else if dest =? src then ret dest
  else if (dest <? src) || (src + n <? dest) then memcpy dest src n
  else rmemcpy dest src n.
End Memory.
