(* ===== verification/ClibSpec.v ===== *)
(** * The C library: correctness

    Copying and filling memory word by word does what byte by byte would, for
    every alignment and overlap, and string functions do what they say on
    sequences of characters. *)
From stdpp Require Import gmap.
From S2P Require Import Prelude Interfaces Clib.
#[local] Open Scope Z_scope.

(** ** Memory after a transfer *)

Definition mapped (m : mem) (a n : Z) : Prop := forall x, a <= x < a + n -> is_Some (m !! x).

(** [n] bytes moved from [s] to [d], as if read all at once. *)
Definition moved (m m' : mem) (d s n : Z) : Prop :=
  forall x, m' !! x = if decide (d <= x < d + n) then m !! (x - d + s) else m !! x.

(** [m'] maps what [m] maps. *)
Definition same_extent (m m' : mem) : Prop := forall x, is_Some (m !! x) -> is_Some (m' !! x).

Lemma moved_extent m m' d s n : mapped m s n -> moved m m' d s n -> same_extent m m'.
Proof. intros Hs Hm x Hx. rewrite Hm. destruct (decide _); [apply Hs; lia|done]. Qed.

Lemma mapped_extent m m' a n : same_extent m m' -> mapped m a n -> mapped m' a n.
Proof. intros He Hm x Hx. by apply He, Hm. Qed.

Lemma mapped_sub m a n b k : mapped m a n -> a <= b -> b + k <= a + n -> mapped m b k.
Proof. intros Hm H1 H2 x Hx. apply Hm. lia. Qed.

Lemma moved_none m d s : moved m m d s 0.
Proof. intros x. by destruct (decide _); [lia|]. Qed.

Lemma moved_up m m1 m2 d s n1 n2 : 0 <= n1 -> 0 <= n2 -> d <= s \/ s + (n1 + n2) <= d ->
  moved m m1 d s n1 -> moved m1 m2 (d + n1) (s + n1) n2 -> moved m m2 d s (n1 + n2).
Proof.
  intros Hn1 Hn2 Hov H1 H2 x. rewrite H2. destruct (decide (d + n1 <= x < d + n1 + n2)) as [Hx|Hx].
  - rewrite H1. destruct (decide (d <= x - _ + _ < _)); [lia|]. destruct (decide _); [|lia]. f_equal. lia.
  - rewrite H1. by destruct (decide (d <= x < d + n1)), (decide (d <= x < d + (n1 + n2))); try lia.
Qed.

Lemma moved_down m m1 m2 d s n1 n2 : 0 <= n1 -> 0 <= n2 -> s <= d \/ d + (n1 + n2) <= s ->
  moved m m1 (d + n2) (s + n2) n1 -> moved m1 m2 d s n2 -> moved m m2 d s (n1 + n2).
Proof.
  intros Hn1 Hn2 Hov H1 H2 x. rewrite H2. destruct (decide (d <= x < d + n2)) as [Hx|Hx].
  - rewrite H1. destruct (decide (d + n2 <= x - _ + _ < _)); [lia|]. by destruct (decide _); [|lia].
  - rewrite H1. destruct (decide (d + n2 <= x < d + n2 + n1)), (decide (d <= x < d + (n1 + n2))); try lia; [|done]. f_equal. lia.
Qed.

(** Memory with [l] at [a]. *)
Definition text_memory (a : Z) (l : list Z) : mem := list_to_map (imap (fun i c => (a + Z.of_nat i, c)) l).

Lemma mapped_compute (m : mem) a n :
  forallb (fun i => match m !! (a + Z.of_nat i) with Some _ => true | None => false end) (seq 0 (Z.to_nat n)) = true -> mapped m a n.
Proof.
  rewrite forallb_forall. intros H x Hx. specialize (H (Z.to_nat (x - a))).
  replace (a + Z.of_nat (Z.to_nat (x - a))) with x in H by lia. destruct (m !! x); [by eexists|].
  discriminate H. apply in_seq. lia.
Qed.

(** ** Bytes *)

Lemma load_run m a v : m !! a = Some v -> load a m = (Ret v, m).
Proof. intros E. unfold load. by rewrite E. Qed.
Lemma store_run m a v : is_Some (m !! a) -> store a v m = (Ret tt, <[a := v]> m).
Proof. intros [w E]. unfold store. by rewrite E. Qed.

Lemma moved_byte m d s v : m !! s = Some v -> moved m (<[d := v]> m) d s 1.
Proof.
  intros E x. destruct (decide (d <= x < d + 1)).
  - assert (x = d) as -> by lia. rewrite lookup_insert_eq, <- E. f_equal. lia.
  - by rewrite lookup_insert_ne by lia.
Qed.

Lemma copy_bytes_run n : forall m d s, mapped m d (Z.of_nat n) -> mapped m s (Z.of_nat n) ->
  d <= s \/ s + Z.of_nat n <= d ->
  exists m', copy_bytes n d s m = (Ret tt, m') /\ moved m m' d s (Z.of_nat n).
Proof.
  induction n as [|n IH]; intros m d s Hd Hs Hov; [exists m; split; [done|apply moved_none]|].
  destruct (Hs s ltac:(lia)) as [v Ev]. pose proof (moved_byte m d s v Ev) as H1.
  assert (Hs1 : mapped m s 1) by (eapply mapped_sub; [exact Hs|lia|lia]).
  pose proof (moved_extent _ _ _ _ _ Hs1 H1) as He.
  destruct (IH (<[d := v]> m) (d + 1) (s + 1)) as (m' & E & H2);
    [eapply mapped_extent; [exact He|]; eapply mapped_sub; [exact Hd|lia|lia]
    |eapply mapped_extent; [exact He|]; eapply mapped_sub; [exact Hs|lia|lia]|lia|].
  exists m'. cbn [copy_bytes]. unfold bind. rewrite (load_run _ _ _ Ev), store_run by (apply Hd; lia). split; [exact E|].
  replace (Z.of_nat (S n)) with (1 + Z.of_nat n) by lia. eapply moved_up; [lia|lia|lia|exact H1|exact H2].
Qed.

Lemma rcopy_bytes_run n : forall m d s, mapped m (d - Z.of_nat n) (Z.of_nat n) -> mapped m (s - Z.of_nat n) (Z.of_nat n) ->
  s <= d \/ d <= s - Z.of_nat n ->
  exists m', rcopy_bytes n d s m = (Ret tt, m') /\ moved m m' (d - Z.of_nat n) (s - Z.of_nat n) (Z.of_nat n).
Proof.
  induction n as [|n IH]; intros m d s Hd Hs Hov; [exists m; split; [done|apply moved_none]|].
  destruct (Hs (s - 1) ltac:(lia)) as [v Ev]. pose proof (moved_byte m (d - 1) (s - 1) v Ev) as H1.
  assert (Hs1 : mapped m (s - 1) 1) by (eapply mapped_sub; [exact Hs|lia|lia]).
  pose proof (moved_extent _ _ _ _ _ Hs1 H1) as He.
  destruct (IH (<[d - 1 := v]> m) (d - 1) (s - 1)) as (m' & E & H2);
    [eapply mapped_extent; [exact He|]; eapply mapped_sub; [exact Hd|lia|lia]
    |eapply mapped_extent; [exact He|]; eapply mapped_sub; [exact Hs|lia|lia]|lia|].
  exists m'. cbn [rcopy_bytes]. unfold bind. rewrite (load_run _ _ _ Ev), store_run by (apply Hd; lia). split; [exact E|].
  replace (Z.of_nat (S n)) with (1 + Z.of_nat n) by lia.
  apply (moved_down m (<[d - 1 := v]> m)); [lia|lia|lia|..].
  - replace (d - (1 + Z.of_nat n) + Z.of_nat n) with (d - 1) by lia. replace (s - (1 + Z.of_nat n) + Z.of_nat n) with (s - 1) by lia. done.
  - replace (d - (1 + Z.of_nat n)) with (d - 1 - Z.of_nat n) by lia. replace (s - (1 + Z.of_nat n)) with (s - 1 - Z.of_nat n) by lia. done.
Qed.

(** ** Words *)

Lemma load_bytes_run n : forall m a, mapped m a (Z.of_nat n) ->
  exists l, load_bytes n a m = (Ret l, m) /\ length l = n /\ forall i, (i < n)%nat -> m !! (a + Z.of_nat i) = l !! i.
Proof.
  induction n as [|n IH]; intros m a Hm; [exists []; split; [done|split; [done|lia]]|].
  destruct (Hm a ltac:(lia)) as [v Ev]. destruct (IH m (a + 1)) as (l & E & Hl & Hi); [eapply mapped_sub; [exact Hm|lia|lia]|].
  exists (v :: l). cbn [load_bytes]. unfold bind. rewrite (load_run _ _ _ Ev), E. split; [done|]. split; [cbn; lia|].
  intros [|i] Hin; [by rewrite Z.add_0_r|]. cbn. rewrite <- Hi by lia. f_equal. lia.
Qed.

Lemma store_bytes_run l : forall m a, mapped m a (Z.of_nat (length l)) ->
  exists m', store_bytes a l m = (Ret tt, m') /\
    forall x, m' !! x = if decide (a <= x < a + Z.of_nat (length l)) then l !! Z.to_nat (x - a) else m !! x.
Proof.
  induction l as [|v l IH]; intros m a Hm; cbn [length] in *; [exists m; split; [done|]; intros x; by destruct (decide _); [lia|]|].
  destruct (IH (<[a := v]> m) (a + 1)) as (m' & E & Hm').
  { intros x Hx. rewrite lookup_insert_ne by lia. apply Hm. lia. }
  exists m'. cbn [store_bytes]. unfold bind. rewrite store_run by (apply Hm; lia). split; [exact E|].
  intros x. rewrite Hm'. destruct (decide (x = a)) as [->|Hne].
  - destruct (decide (a + 1 <= a < _)), (decide (a <= a < _)); try lia. by rewrite lookup_insert_eq, Z.sub_diag.
  - rewrite lookup_insert_ne by done. destruct (decide (a + 1 <= x < _)), (decide (a <= x < _)); try lia; [|done].
    by replace (Z.to_nat (x - a)) with (S (Z.to_nat (x - (a + 1)))) by lia.
Qed.

Lemma land_lmask x : Z.land x lmask = x mod 8.
Proof. apply (Z.land_ones x 3). lia. Qed.

Lemma word_run m d s : d mod 8 = 0 -> s mod 8 = 0 -> mapped m d 8 -> mapped m s 8 ->
  exists w m', load_word s m = (Ret w, m) /\ store_word d w m = (Ret tt, m') /\ moved m m' d s 8.
Proof.
  intros Hd Hs Md Ms. destruct (load_bytes_run 8 m s) as (w & E1 & Hw & Hi); [done|].
  destruct (store_bytes_run w m d) as (m' & E2 & Hm'); [by rewrite Hw|].
  exists w, m'. unfold load_word, store_word. rewrite !land_lmask, Hd, Hs. split; [done|]. split; [done|].
  intros x. rewrite Hm', Hw. destruct (decide _); [|done]. rewrite <- Hi by lia. f_equal. lia.
Qed.

Ltac sub H := eapply mapped_sub; [exact H|lia|lia].

Lemma copy_words_run n : forall m d s, d mod 8 = 0 -> s mod 8 = 0 ->
  mapped m d (8 * Z.of_nat n) -> mapped m s (8 * Z.of_nat n) -> d <= s \/ s + 8 * Z.of_nat n <= d ->
  exists m', copy_words n d s m = (Ret tt, m') /\ moved m m' d s (8 * Z.of_nat n).
Proof.
  induction n as [|n IH]; intros m d s Ad As Hd Hs Hov; [exists m; split; [done|apply moved_none]|].
  destruct (word_run m d s) as (w & m1 & E1 & E2 & H1); [done|done|sub Hd|sub Hs|].
  assert (He : same_extent m m1) by (eapply moved_extent; [|exact H1]; sub Hs).
  destruct (IH m1 (d + 8) (s + 8)) as (m' & E & H2);
    [Z.div_mod_to_equations; lia|Z.div_mod_to_equations; lia|eapply mapped_extent; [exact He|]; sub Hd|eapply mapped_extent; [exact He|]; sub Hs|lia|].
  exists m'. cbn [copy_words]. unfold bind. rewrite E1, E2. split; [exact E|].
  replace (8 * Z.of_nat (S n)) with (8 + 8 * Z.of_nat n) by lia. eapply moved_up; [lia|lia|lia|exact H1|exact H2].
Qed.

Lemma rcopy_words_run n : forall m d s, d mod 8 = 0 -> s mod 8 = 0 ->
  mapped m (d - 8 * Z.of_nat n) (8 * Z.of_nat n) -> mapped m (s - 8 * Z.of_nat n) (8 * Z.of_nat n) ->
  s <= d \/ d <= s - 8 * Z.of_nat n ->
  exists m', rcopy_words n d s m = (Ret tt, m') /\ moved m m' (d - 8 * Z.of_nat n) (s - 8 * Z.of_nat n) (8 * Z.of_nat n).
Proof.
  induction n as [|n IH]; intros m d s Ad As Hd Hs Hov; [exists m; split; [done|apply moved_none]|].
  destruct (word_run m (d - 8) (s - 8)) as (w & m1 & E1 & E2 & H1); [Z.div_mod_to_equations; lia|Z.div_mod_to_equations; lia|sub Hd|sub Hs|].
  assert (He : same_extent m m1) by (eapply moved_extent; [|exact H1]; sub Hs).
  destruct (IH m1 (d - 8) (s - 8)) as (m' & E & H2);
    [Z.div_mod_to_equations; lia|Z.div_mod_to_equations; lia|eapply mapped_extent; [exact He|]; sub Hd|eapply mapped_extent; [exact He|]; sub Hs|lia|].
  exists m'. cbn [rcopy_words]. unfold bind. change lsize with 8. rewrite E1, E2. split; [exact E|].
  replace (8 * Z.of_nat (S n)) with (8 + 8 * Z.of_nat n) by lia. apply (moved_down m m1); [lia|lia|lia|..].
  - by replace (d - (8 + 8 * Z.of_nat n) + 8 * Z.of_nat n) with (d - 8) by lia;
      replace (s - (8 + 8 * Z.of_nat n) + 8 * Z.of_nat n) with (s - 8) by lia.
  - by replace (d - (8 + 8 * Z.of_nat n)) with (d - 8 - 8 * Z.of_nat n) by lia;
      replace (s - (8 + 8 * Z.of_nat n)) with (s - 8 - 8 * Z.of_nat n) by lia.
Qed.

(** ** Alignment *)

Lemma unaligned_false d s : unaligned d s = false -> d mod 8 = 0 /\ s mod 8 = 0.
Proof.
  unfold unaligned. intros H. apply negb_false_iff, Z.eqb_eq in H.
  rewrite Z.land_lor_distr_l in H. apply Z.lor_eq_0_iff in H. by rewrite !land_lmask in H.
Qed.

Lemma lxor_aligned d s : Z.land (Z.lxor d s) lmask = 0 -> d mod 8 = s mod 8.
Proof.
  intros H. rewrite <- !land_lmask. apply Z.lxor_eq. rewrite <- H. apply Z.bits_inj'. intros i Hi.
  rewrite !Z.lxor_spec, !Z.land_spec, Z.lxor_spec. by destruct (Z.testbit d i), (Z.testbit s i), (Z.testbit lmask i).
Qed.

(** Bytes in front of the words: all, or up to a word boundary of both. *)
Lemma head_bytes_split d s n : 0 <= n -> let len := head_bytes d s n in
  0 <= len <= n /\ (len = n \/ (d + len) mod 8 = 0 /\ (s + len) mod 8 = 0).
Proof.
  intros Hn. unfold head_bytes. destruct (unaligned d s) eqn:U.
  - destruct (negb _) eqn:X; [cbn; lia|]. apply negb_false_iff, Z.eqb_eq, lxor_aligned in X.
    destruct (Z.ltb_spec n lsize) as [?|Hl]; [cbn; lia|]. cbn [orb]. rewrite land_lmask. unfold lsize in *. split; [|right]; Z.div_mod_to_equations; lia.
  - apply unaligned_false in U. rewrite !Z.add_0_r. lia.
Qed.

Lemma tail_bytes_split d s n : 0 <= n < 2 ^ 32 -> let len := tail_bytes d s n in
  0 <= len <= n /\ (len = n \/ (d - len) mod 8 = 0 /\ (s - len) mod 8 = 0).
Proof.
  intros Hn. assert (Hu : forall x, 0 <= x < 2 ^ 32 -> u32 x = x) by (intros; by apply wrapw_small).
  unfold tail_bytes. destruct (unaligned d s) eqn:U.
  - destruct (negb _) eqn:X; [cbn [orb]; rewrite Hu by done; lia|].
    apply negb_false_iff, Z.eqb_eq, lxor_aligned in X. rewrite land_lmask.
    destruct (Z.ltb_spec n lsize) as [?|Hl]; cbn [orb]; unfold lsize in *; rewrite Hu by (Z.div_mod_to_equations; lia);
      [lia|]. split; [|right]; Z.div_mod_to_equations; lia.
  - apply unaligned_false in U. rewrite !Z.sub_0_r. lia.
Qed.

(** ** Whole transfers *)

(** Only [n] bytes from [d] may differ. *)
Definition overwritten (m m' : mem) (d n : Z) : Prop :=
  same_extent m m' /\ forall x, ~ d <= x < d + n -> m' !! x = m !! x.

Definition apart (d s n : Z) : Prop := d + n <= s \/ s + n <= d.

(** A copy engine moves ranges that do not overlap, or returns nonzero and may
    have touched the destination. *)
Definition engine_copies (f : Z -> Z -> Z -> M mem Z) : Prop :=
  forall m d s n, 0 <= n -> mapped m d n -> mapped m s n -> apart d s n ->
  exists r m', f d s n m = (Ret r, m') /\ (if decide (r = 0) then moved m m' d s n else overwritten m m' d n).

Lemma moved_over m m1 m2 d s n : apart d s n -> overwritten m m1 d n -> moved m1 m2 d s n -> moved m m2 d s n.
Proof.
  intros Ha [_ Ho] Hm x. rewrite Hm. unfold apart in *. destruct (decide _); apply Ho; lia.
Qed.

Section Copy.
Variable dma : tegrabl_clib_dma.

(** An engine is there only for ranges that do not overlap. *)
Definition forwards (d s n : Z) : Prop := apart d s n \/ memcpy_callback dma = None /\ d <= s.

Lemma words_run m d s k : (forall f, memcpy_callback dma = Some f -> engine_copies f) ->
  0 <= k -> k = 0 \/ d mod 8 = 0 /\ s mod 8 = 0 ->
  mapped m d (k * 8) -> mapped m s (k * 8) -> forwards d s (k * 8) ->
  exists m', moved m m' d s (k * 8) /\ forall B (rest : M mem B),
    (let! not_done := offer (memcpy_callback dma) (memcpy_threshold dma) d s (k * lsize) in
     when (truthy not_done) (copy_words (Z.to_nat k) d s) ;;; rest) m = rest m'.
Proof.
  intros Law Hk Al Hd Hs Hf. change lsize with 8.
  assert (Words : forall m1, same_extent m m1 -> exists m', moved m1 m' d s (k * 8) /\
    forall B (rest : M mem B), (copy_words (Z.to_nat k) d s ;;; rest) m1 = rest m').
  { intros m1 He. destruct (decide (k = 0)) as [->|]; [exists m1; split; [apply moved_none|done]|].
    destruct Al as [|[Ad As]]; [done|].
    destruct (copy_words_run (Z.to_nat k) m1 d s) as (m' & E & H);
      [done|done|eapply mapped_extent; [exact He|]; sub Hd|eapply mapped_extent; [exact He|]; sub Hs|
       destruct Hf as [[]|[]]; lia|].
    exists m'. split; [by replace (k * 8) with (8 * Z.of_nat (Z.to_nat k)) by lia|]. intros B rest. by rewrite (bind_run _ _ _ _ _ E). }
  assert (Id : same_extent m m) by (intros ?; done). unfold offer.
  destruct (memcpy_callback dma) as [f|] eqn:Ef; [|destruct (Words m Id) as (m' & H & E); exists m'; split; [done|apply E]].
  destruct (_ <=? _); [|destruct (Words m Id) as (m' & H & E); exists m'; split; [done|apply E]].
  assert (Ha : apart d s (k * 8)) by (destruct Hf as [|[? _]]; congruence).
  destruct (Law f eq_refl m d s (k * 8)) as (r & m1 & E1 & H1); [lia|done|done|done|].
  destruct (decide (r = 0)) as [->|Hr].
  - exists m1. split; [done|]. intros B rest. by rewrite (bind_run _ _ _ _ _ E1).
  - destruct (Words m1 (proj1 H1)) as (m' & H & E). exists m'. split; [by eapply moved_over|].
    intros B rest. rewrite (bind_run _ _ _ _ _ E1). unfold truthy. apply Z.eqb_neq in Hr. rewrite Hr. apply E.
Qed.

Lemma memcpy_run m dest src n : (forall f, memcpy_callback dma = Some f -> engine_copies f) ->
  0 <= n -> src <> 0 -> dest <> 0 -> mapped m dest n -> mapped m src n ->
  dest = src \/ forwards dest src n ->
  exists m', memcpy dma dest src n m = (Ret dest, m') /\ moved m m' dest src n.
Proof.
  intros Law Hn Hs0 Hd0 Hd Hs Hf. unfold memcpy.
  destruct (Z.eqb_spec n 0) as [->|Hn0]; [exists m; split; [done|apply moved_none]|].
  destruct (Z.eqb_spec dest src) as [->|Hne].
  { exists m. split; [done|]. intros x. destruct (decide _); [f_equal; lia|done]. }
  destruct Hf as [|Hf]; [done|]. apply Z.eqb_neq in Hs0, Hd0. rewrite Hs0, Hd0. cbn [orb].
  destruct (head_bytes_split dest src n) as [Hl Al]; [lia|]. set (len := head_bytes dest src n) in *. cbn zeta.
  set (k := (n - len) / lsize). set (t := Z.land (n - len) lmask).
  assert (Hk : 0 <= k /\ 0 <= t < 8 /\ n = len + (k * 8 + t)).
  { unfold k, t. rewrite land_lmask. change lsize with 8. Z.div_mod_to_equations; lia. }
  destruct (copy_bytes_run (Z.to_nat len) m dest src) as (m1 & E1 & H1); [sub Hd|sub Hs|unfold forwards, apart in Hf; lia|].
  rewrite Z2Nat.id in H1 by lia. assert (He1 : same_extent m m1) by (eapply moved_extent; [|exact H1]; sub Hs).
  rewrite (bind_run _ _ _ _ _ E1).
  destruct (words_run m1 (dest + len) (src + len) k) as (m2 & H2 & E2);
    [done|lia|lia|eapply mapped_extent; [exact He1|]; sub Hd|eapply mapped_extent; [exact He1|]; sub Hs|
     unfold forwards, apart in *; destruct Hf as [|[? ?]]; [left|right; split; [done|]]; lia|].
  rewrite E2. change lsize with 8.
  assert (He2 : same_extent m1 m2) by (eapply moved_extent; [|exact H2]; eapply mapped_extent; [exact He1|]; sub Hs).
  assert (He : same_extent m m2) by (intros x Hx; by apply He2, He1).
  destruct (copy_bytes_run (Z.to_nat t) m2 (dest + len + k * 8) (src + len + k * 8)) as (m3 & E3 & H3);
    [eapply mapped_extent; [exact He|]; sub Hd|eapply mapped_extent; [exact He|]; sub Hs|unfold forwards, apart in Hf; lia|].
  rewrite Z2Nat.id in H3 by lia. rewrite (bind_run _ _ _ _ _ E3). exists m3. split; [done|].
  replace n with (len + (k * 8 + t)) by lia. unfold forwards, apart in Hf.
  eapply moved_up; [lia|lia|lia|exact H1|]. eapply moved_up; [lia|lia|lia|exact H2|exact H3].
Qed.
End Copy.

Lemma rmemcpy_run m dest src n : 0 <= n < 2 ^ 32 -> src <> 0 -> src <= dest ->
  mapped m dest n -> mapped m src n -> dest <> 0 ->
  exists m', rmemcpy dest src n m = (Ret dest, m') /\ moved m m' dest src n.
Proof.
  intros Hn Hs0 Hle Hd Hs Hd0. unfold rmemcpy.
  destruct (Z.eqb_spec n 0) as [->|Hn0]; [exists m; split; [done|apply moved_none]|].
  destruct (Z.eqb_spec dest src) as [->|Hne].
  { exists m. split; [done|]. intros x. destruct (decide _); [f_equal; lia|done]. }
  apply Z.eqb_neq in Hs0, Hd0. rewrite Hs0, Hd0. cbn [orb].
  destruct (tail_bytes_split (dest + n) (src + n) n) as [Hl Al]; [lia|]. set (len := tail_bytes _ _ n) in *. cbn zeta.
  set (t := Z.land (n - len) lmask).
  assert (Hk : exists k, u32 ((n - len) / lsize) = k /\ 0 <= k /\ 0 <= t < 8 /\ n = len + (k * 8 + t)).
  { exists ((n - len) / 8). unfold t. rewrite land_lmask. change lsize with 8.
    split; [apply wrapw_small; unfold in_word|]; Z.div_mod_to_equations; lia. }
  destruct Hk as (k & -> & Hk). change lsize with 8.
  destruct (rcopy_bytes_run (Z.to_nat len) m (dest + n) (src + n)) as (m1 & E1 & H1);
    [rewrite Z2Nat.id by lia; sub Hd|rewrite Z2Nat.id by lia; sub Hs|lia|].
  rewrite Z2Nat.id in H1 by lia. rewrite (bind_run _ _ _ _ _ E1).
  assert (He1 : same_extent m m1) by (eapply moved_extent; [|exact H1]; sub Hs).
  assert (W : exists m2, rcopy_words (Z.to_nat k) (dest + n - len) (src + n - len) m1 = (Ret tt, m2) /\
    moved m1 m2 (dest + n - len - k * 8) (src + n - len - k * 8) (k * 8)).
  { destruct (decide (k = 0)) as [->|]; [exists m1; split; [done|apply moved_none]|].
    destruct (rcopy_words_run (Z.to_nat k) m1 (dest + n - len) (src + n - len)) as (m2 & E2 & H2);
      [lia|lia|eapply mapped_extent; [exact He1|]; sub Hd|eapply mapped_extent; [exact He1|]; sub Hs|lia|].
    exists m2. split; [done|]. by replace (k * 8) with (8 * Z.of_nat (Z.to_nat k)) by lia. }
  destruct W as (m2 & E2 & H2). rewrite (bind_run _ _ _ _ _ E2).
  assert (He : same_extent m m2).
  { intros x Hx. eapply moved_extent; [|exact H2|by apply He1]. eapply mapped_extent; [exact He1|]. sub Hs. }
  destruct (rcopy_bytes_run (Z.to_nat t) m2 (dest + n - len - k * 8) (src + n - len - k * 8)) as (m3 & E3 & H3);
    [eapply mapped_extent; [exact He|]; sub Hd|eapply mapped_extent; [exact He|]; sub Hs|lia|].
  rewrite Z2Nat.id in H3 by lia. rewrite (bind_run _ _ _ _ _ E3). exists m3. split; [done|].
  replace n with (len + (k * 8 + t)) by lia.
  apply (moved_down m m1); [lia|lia|lia|..].
  - by replace (dest + (k * 8 + t)) with (dest + n - len) by lia; replace (src + (k * 8 + t)) with (src + n - len) by lia.
  - apply (moved_down m1 m2); [lia|lia|lia|..].
    + by replace (dest + t) with (dest + n - len - k * 8) by lia; replace (src + t) with (src + n - len - k * 8) by lia.
    + by replace dest with (dest + n - len - k * 8 - t) by lia; replace src with (src + n - len - k * 8 - t) by lia.
Qed.

Lemma memmove_run dma m dest src n :
  (forall f, memcpy_callback dma = Some f -> engine_copies f) ->
  apart dest src n \/ memcpy_callback dma = None ->
  0 <= n < 2 ^ 32 -> dest <> 0 -> src <> 0 -> mapped m dest n -> mapped m src n ->
  exists m', memmove dma dest src n m = (Ret dest, m') /\ moved m m' dest src n.
Proof.
  intros Law Hov Hn Hd0 Hs0 Hd Hs. unfold memmove.
  pose proof (proj2 (Z.eqb_neq _ _) Hd0) as ->. pose proof (proj2 (Z.eqb_neq _ _) Hs0) as ->. cbn [orb].
  destruct (Z.eqb_spec dest src) as [->|Hne].
  { exists m. split; [done|]. intros x. destruct (decide _); [f_equal; lia|done]. }
  destruct (Z.ltb_spec dest src); cbn [orb]; [|destruct (Z.ltb_spec (src + n) dest)].
  - apply memcpy_run; try done; [lia|]. right. destruct Hov; [by left|right]. split; [done|lia].
  - apply memcpy_run; try done; [lia|]. right. left. right. lia.
  - by apply rmemcpy_run.
Qed.

(** C29.  [memmove] returns its destination with the bytes of the source as they
    were before the call, however the ranges overlap and are aligned and
    whichever of the word, byte, upward or downward loops does the work; memory
    elsewhere stays.  Where the ranges overlap no copy engine may be registered. *)
Theorem memmove_moves dma m dest src n :
  (forall f, memcpy_callback dma = Some f -> engine_copies f) ->
  apart dest src n \/ memcpy_callback dma = None ->
  0 <= n < 2 ^ 32 -> dest <> 0 -> src <> 0 -> mapped m dest n -> mapped m src n ->
  exists m', memmove dma dest src n m = (Ret dest, m') /\ moved m m' dest src n.
Proof. apply memmove_run. Qed.

(** An engine that copies byte by byte. *)
Definition byte_engine (d s n : Z) : M mem Z := copy_bytes (Z.to_nat n) d s ;;; ret 0.

Lemma byte_engine_copies : engine_copies byte_engine.
Proof.
  intros m d s n Hn Hd Hs Ha. destruct (copy_bytes_run (Z.to_nat n) m d s) as (m' & E & H);
    [sub Hd|sub Hs|unfold apart in Ha; lia|]. rewrite Z2Nat.id in H by lia.
  exists 0, m'. unfold byte_engine. by rewrite (bind_run _ _ _ _ _ E).
Qed.

Definition some_bytes : mem := text_memory 16 (map Z.of_nat (seq 1 60)).

(** Upwards by three bytes over itself without an engine, and to a free place with
    one. *)
Lemma memmove_moves_witness :
  (exists m', memmove (mk_dma None 0 None 0) 19 16 40 some_bytes = (Ret 19, m') /\ moved some_bytes m' 19 16 40) /\
  (exists m', memmove (mk_dma (Some byte_engine) 8 None 0) 43 19 20 some_bytes = (Ret 43, m') /\ moved some_bytes m' 43 19 20).
Proof.
  split; apply memmove_moves; try lia; try (apply mapped_compute; vm_compute; reflexivity).
  - discriminate.
  - right. reflexivity.
  - intros f E. injection E as <-. apply byte_engine_copies.
  - left. unfold apart. lia.
Defined.

(** ** Filling *)

Definition filled (m m' : mem) (s c n : Z) : Prop :=
  forall x, m' !! x = if decide (s <= x < s + n) then Some c else m !! x.

Definition engine_fills (f : Z -> Z -> Z -> M mem Z) : Prop :=
  forall m s c n, 0 <= n -> mapped m s n ->
  exists r m', f s c n m = (Ret r, m') /\ (if decide (r = 0) then filled m m' s (u8 c) n else overwritten m m' s n).

Lemma filled_extent m m' s c n : filled m m' s c n -> same_extent m m'.
Proof. intros H x Hx. rewrite H. by destruct (decide _). Qed.

Lemma filled_none m s c : filled m m s c 0.
Proof. intros x. by destruct (decide _); [lia|]. Qed.

Lemma filled_up m m1 m2 s c n1 n2 : 0 <= n1 -> 0 <= n2 ->
  filled m m1 s c n1 -> filled m1 m2 (s + n1) c n2 -> filled m m2 s c (n1 + n2).
Proof. intros ?? H1 H2 x. rewrite H2, H1. repeat destruct (decide _); done || lia. Qed.

Lemma fill_bytes_run n : forall m s c, mapped m s (Z.of_nat n) ->
  exists m', fill_bytes n s c m = (Ret tt, m') /\ filled m m' s c (Z.of_nat n).
Proof.
  induction n as [|n IH]; intros m s c Hs; [exists m; split; [done|apply filled_none]|].
  assert (H1 : filled m (<[s := c]> m) s c 1).
  { intros x. destruct (decide _); [|by rewrite lookup_insert_ne by lia]. assert (x = s) as -> by lia. by rewrite lookup_insert_eq. }
  destruct (IH (<[s := c]> m) (s + 1) c) as (m' & E & H2); [eapply mapped_extent; [by eapply filled_extent|]; sub Hs|].
  exists m'. cbn [fill_bytes]. unfold bind. rewrite store_run by (apply Hs; lia). split; [exact E|].
  replace (Z.of_nat (S n)) with (1 + Z.of_nat n) by lia. eapply filled_up; [lia|lia|exact H1|exact H2].
Qed.

Lemma fill_words_run n : forall m s c, s mod 8 = 0 -> mapped m s (8 * Z.of_nat n) ->
  exists m', fill_words n s (replicate 8 c) m = (Ret tt, m') /\ filled m m' s c (8 * Z.of_nat n).
Proof.
  induction n as [|n IH]; intros m s c As Hs; [exists m; split; [done|apply filled_none]|].
  destruct (store_bytes_run (replicate 8 c) m s) as (m1 & E1 & H1); [rewrite length_replicate; sub Hs|].
  assert (F1 : filled m m1 s c 8).
  { intros x. rewrite H1, length_replicate. change (Z.of_nat 8) with 8. destruct (decide _); [|done]. apply lookup_replicate_2. lia. }
  destruct (IH m1 (s + 8) c) as (m' & E & H2); [Z.div_mod_to_equations; lia|eapply mapped_extent; [by eapply filled_extent|]; sub Hs|].
  exists m'. cbn [fill_words]. unfold bind, store_word. rewrite land_lmask, As. cbn [Z.eqb]. rewrite E1. split; [exact E|].
  replace (8 * Z.of_nat (S n)) with (8 + 8 * Z.of_nat n) by lia. eapply filled_up; [lia|lia|exact F1|exact H2].
Qed.

(** The word that the fill loop stores. *)
Definition fill_word (c : Z) : Z :=
  let cc := Z.land c 0xff in
  let cc := Z.lor cc (Z.shiftl cc 8) in
  let cc := Z.lor cc (Z.shiftl cc 16) in
  u64 (Z.lor cc (Z.shiftl cc 32)).

Lemma fill_word_bytes c : le 8 (fill_word c) = replicate 8 (u8 c).
Proof.
  assert (All : forallb (fun b => forallb (Z.eqb b) (le 8 (fill_word b))) (map Z.of_nat (seq 0 256)) = true) by (vm_compute; reflexivity).
  assert (Hc : 0 <= u8 c < 256) by (apply (wrapw_range 8); lia).
  assert (fill_word c = fill_word (u8 c)) as ->.
  { unfold fill_word. change 0xff with (Z.ones 8). rewrite !Z.land_ones by lia.
    change (u8 c mod 2 ^ 8) with (u8 (u8 c)). rewrite wrapw_idem. reflexivity. }
  rewrite forallb_forall in All. specialize (All (u8 c)). rewrite forallb_forall in All.
  symmetry. apply replicate_as_Forall_2; [apply length_le|].
  apply Forall_forall. intros x Hx%list_elem_of_In. apply All in Hx; [by apply Z.eqb_eq|].
  apply in_map_iff. exists (Z.to_nat (u8 c)). split; [lia|]. apply in_seq. lia.
Qed.

Lemma filled_over m m1 m2 s c n : overwritten m m1 s n -> filled m1 m2 s c n -> filled m m2 s c n.
Proof. intros [_ Ho] H x. rewrite H. destruct (decide _); [done|]. by apply Ho. Qed.

Lemma fill_middle dma m s c k : (forall f, memset_callback dma = Some f -> engine_fills f) ->
  0 <= k -> s mod 8 = 0 -> mapped m s (k * 8) ->
  exists m', filled m m' s (u8 c) (k * 8) /\ forall B (rest : M mem B),
    (let! not_done := offer (memset_callback dma) (memset_threshold dma) s c (k * lsize) in
     when (truthy not_done) (fill_words (Z.to_nat k) s (le 8 (fill_word c))) ;;; rest) m = rest m'.
Proof.
  intros Law Hk As Hs. change lsize with 8. rewrite fill_word_bytes.
  assert (Words : forall m1, same_extent m m1 -> exists m', filled m1 m' s (u8 c) (k * 8) /\
    forall B (rest : M mem B), (fill_words (Z.to_nat k) s (replicate 8 (u8 c)) ;;; rest) m1 = rest m').
  { intros m1 He. destruct (fill_words_run (Z.to_nat k) m1 s (u8 c)) as (m' & E & H);
      [done|eapply mapped_extent; [exact He|]; sub Hs|].
    exists m'. split; [by replace (k * 8) with (8 * Z.of_nat (Z.to_nat k)) by lia|]. intros B rest. by rewrite (bind_run _ _ _ _ _ E). }
  assert (Id : same_extent m m) by (intros ?; done). unfold offer.
  destruct (memset_callback dma) as [f|] eqn:Ef; [|destruct (Words m Id) as (m' & H & E); exists m'; split; [done|apply E]].
  destruct (_ <=? _); [|destruct (Words m Id) as (m' & H & E); exists m'; split; [done|apply E]].
  destruct (Law f eq_refl m s c (k * 8)) as (r & m1 & E1 & H1); [lia|done|].
  destruct (decide (r = 0)) as [->|Hr].
  - exists m1. split; [done|]. intros B rest. by rewrite (bind_run _ _ _ _ _ E1).
  - destruct (Words m1 (proj1 H1)) as (m' & H & E). exists m'. split; [by eapply filled_over|].
    intros B rest. rewrite (bind_run _ _ _ _ _ E1). unfold truthy. apply Z.eqb_neq in Hr. rewrite Hr. apply E.
Qed.

(** [memset] returns its argument with the [n] bytes from there equal to the
    low byte of [c], wherever the first word boundary is and also when the range
    ends in front of it; memory elsewhere stays. *)
Theorem memset_fills dma m s c n :
  (forall f, memset_callback dma = Some f -> engine_fills f) ->
  0 <= s -> 0 <= n -> s + n <= 2 ^ 64 -> mapped m s n ->
  exists m', memset dma s c n m = (Ret s, m') /\ filled m m' s (u8 c) n.
Proof.
  intros Law Hs0 Hn Hend Hs. unfold memset. fold (fill_word c).
  set (len := Z.land (u64 (- s)) lmask). assert (Hl : 0 <= len < 8 /\ (s + len) mod 8 = 0).
  { unfold len. rewrite land_lmask. unfold wrapw. change (2 ^ 64) with 18446744073709551616. Z.div_mod_to_equations; lia. }
  destruct (Z.ltb_spec len n) as [Hln|Hln].
  2: { destruct (fill_bytes_run (Z.to_nat n) m s (u8 c)) as (m' & E & F); [sub Hs|].
       exists m'. rewrite (bind_run _ _ _ _ _ E). split; [done|]. by rewrite Z2Nat.id in F by lia. }
  cbn zeta. set (k := (n - len) / lsize). set (t := Z.land (n - len) lmask).
  assert (Hk : 0 <= k /\ 0 <= t < 8 /\ n = len + (k * 8 + t)).
  { unfold k, t. rewrite land_lmask. change lsize with 8. Z.div_mod_to_equations; lia. }
  destruct (fill_bytes_run (Z.to_nat len) m s (u8 c)) as (m1 & E1 & F1); [sub Hs|]. rewrite Z2Nat.id in F1 by lia.
  assert (He1 : same_extent m m1) by (by eapply filled_extent).
  assert (M1 : mapped m1 (s + len) (k * 8)) by (eapply mapped_extent; [exact He1|]; sub Hs).
  rewrite (bind_run _ _ _ _ _ E1).
  destruct (fill_middle dma m1 (s + len) c k) as (m2 & F2 & E2); [done|lia|lia|done|]. rewrite E2. change lsize with 8.
  assert (He : same_extent m m2) by (intros x Hx; eapply filled_extent; [exact F2|by apply He1]).
  destruct (fill_bytes_run (Z.to_nat t) m2 (s + len + k * 8) (u8 c)) as (m3 & E3 & F3);
    [eapply mapped_extent; [exact He|]; sub Hs|]. rewrite Z2Nat.id in F3 by lia.
  rewrite (bind_run _ _ _ _ _ E3). exists m3. split; [done|]. replace n with (len + (k * 8 + t)) by lia.
  eapply filled_up; [lia|lia|exact F1|]. eapply filled_up; [lia|lia|exact F2|exact F3].
Qed.

Lemma memset_fills_witness :
  exists m', memset (mk_dma None 0 None 0) 19 511 30 some_bytes = (Ret 19, m') /\ filled some_bytes m' 19 (u8 511) 30.
Proof. apply memset_fills; [discriminate|lia|lia|lia|apply mapped_compute; vm_compute; reflexivity]. Defined.
