(* ===== verification/CString.v ===== *)
(** * The C library: strings

    The string functions of lib/clib/string.c on the memory of [Clib].  [char] is
    unsigned, as on the machines this code runs on.  A loop over a string whose end
    the caller promises takes a bound on its iterations; running past the bound is
    [NoFuel]. *)
From stdpp Require Import gmap.
From S2P Require Import Prelude Interfaces Clib.
#[local] Open Scope Z_scope.

(** ** Searching and comparing memory *)

(** The loop is unrolled four times; its four parts are the same. *)
Fixpoint memcmp_loop (n : nat) (p1 p2 : Z) : M mem Z :=
  match n with
  | O => ret 0
  | S n =>
      let! a := load p1 in
      let! b := load p2 in
      let d := a - b in
      if negb (d =? 0) then ret d else memcmp_loop n (p1 + 1) (p2 + 1)
  end.
Definition memcmp (s1 s2 n : Z) : M mem Z := memcmp_loop (Z.to_nat n) s1 s2.

Fixpoint memchr_loop (n : nat) (p c : Z) : M mem Z :=
  match n with
  | O => ret 0
  | S n => let! v := load p in if u8 c =? v then ret p else memchr_loop n (p + 1) c
  end.
Definition memchr (s c n : Z) : M mem Z := if s =? 0 then ret 0 else memchr_loop (Z.to_nat n) s c.

(** ** Lengths and copies *)

(** The address of the terminator. *)
Fixpoint string_end (fuel : nat) (s : Z) : M mem Z :=
  match fuel with
  | O => nofuel
  | S fuel => let! c := load s in if c =? 0 then ret s else string_end fuel (s + 1)
  end.

(** The difference of the pointers goes through [int32_t]. *)
Definition strlen (fuel : nat) (str : Z) : M mem Z :=
  let! s := string_end fuel str in ret (u64 (s32 (s - str))).

Fixpoint copy_string (fuel : nat) (dest src : Z) : M mem unit :=
  match fuel with
  | O => nofuel
  | S fuel =>
      let! ch := load src in
      store dest ch ;;;
      if ch =? 0 then ret tt else copy_string fuel (dest + 1) (src + 1)
  end.

Definition strcat (fuel : nat) (dest src : Z) : M mem Z :=
  let! e := string_end fuel dest in copy_string fuel e src ;;; ret dest.

Definition strcpy (fuel : nat) (dest src : Z) : M mem Z := copy_string fuel dest src ;;; ret dest.

(** [n] characters are still to be written. *)
Fixpoint strncpy_loop (n : nat) (dest src : Z) : M mem unit :=
  match n with
  | O => ret tt
  | S n =>
      let! ch := load src in
      store dest ch ;;;
      if ch =? 0 then fill_bytes n (dest + 1) 0 else strncpy_loop n (dest + 1) (src + 1)
  end.
Definition strncpy (dest src n : Z) : M mem Z := strncpy_loop (Z.to_nat n) dest src ;;; ret dest.

(** How many characters were copied, at most [n]. *)
Fixpoint strlcpy_loop (n : nat) (dest src : Z) : M mem Z :=
  match n with
  | O => ret 0
  | S n =>
      let! ch := load src in
      if ch =? 0 then ret 0
      else store dest ch ;;; let! i := strlcpy_loop n (dest + 1) (src + 1) in ret (i + 1)
  end.
Definition strlcpy (fuel : nat) (dest src n : Z) : M mem Z :=
  if n =? 0 then strlen fuel src
  else
    let! i := strlcpy_loop (Z.to_nat (n - 1)) dest src in
    store (dest + i) 0 ;;;
    let! rest := strlen fuel (src + i) in
    ret (u64 (i + rest)).

(** ** Comparing *)

Fixpoint strcmp (fuel : nat) (s1 s2 : Z) : M mem Z :=
  match fuel with
  | O => nofuel
  | S fuel =>
      let! c1 := load s1 in
      let! c2 := load s2 in
      if negb (c1 =? c2) then ret (if c1 <? c2 then - 1 else 1)
      else if c1 =? 0 then ret 0
      else strcmp fuel (s1 + 1) (s2 + 1)
  end.

Fixpoint strncmp_loop (n : nat) (s1 s2 : Z) : M mem Z :=
  match n with
  | O => ret 0
  | S n =>
      let! c1 := load s1 in
      let! c2 := load s2 in
      if negb (c1 =? c2) then ret (if c1 <? c2 then - 1 else 1)
      else if c1 =? 0 then ret 0
      else strncmp_loop n (s1 + 1) (s2 + 1)
  end.
Definition strncmp (s1 s2 n : Z) : M mem Z := strncmp_loop (Z.to_nat n) s1 s2.

(** [tolower] of the C locale. *)
Definition to_lower (c : Z) : Z := if (65 <=? c) && (c <=? 90) then c + 32 else c.

(** [n] is what is left in front of the decrement. *)
Fixpoint strncasecmp_loop (n : nat) (p1 p2 : Z) : M mem Z :=
  match n with
  | O => ret 0
  | S n =>
      let! a := load p1 in
      let! b := load p2 in
      let result := to_lower a - to_lower b in
      if result =? 0
      then if a =? 0 then ret result else strncasecmp_loop n (p1 + 1) (p2 + 1)
      else ret result
  end.
Definition strncasecmp (s1 s2 n : Z) : M mem Z :=
  if (s1 =? s2) || (n =? 0) then ret 0 else strncasecmp_loop (Z.to_nat n) s1 s2.

(** ** Searching *)

Fixpoint strchr_loop (fuel : nat) (s c : Z) : M mem Z :=
  match fuel with
  | O => nofuel
  | S fuel =>
      let! v := load s in
      if v =? u8 c then ret s
      else if v =? 0 then ret 0
      else strchr_loop fuel (s + 1) c
  end.
Definition strchr (fuel : nat) (s c : Z) : M mem Z := if s =? 0 then ret 0 else strchr_loop fuel s c.

(** [while ( *a++ == *b++) if ( *b == 0) return str;] *)
Fixpoint strstr_here (fuel : nat) (a b : Z) : M mem bool :=
  match fuel with
  | O => nofuel
  | S fuel =>
      let! x := load a in
      let! y := load b in
      if x =? y
      then let! z := load (b + 1) in if z =? 0 then ret true else strstr_here fuel (a + 1) (b + 1)
      else ret false
  end.
Fixpoint strstr_loop (fuel : nat) (str sub : Z) : M mem Z :=
  match fuel with
  | O => nofuel
  | S n =>
      let! c := load str in
      if c =? 0 then ret 0
      else
        let! b := load sub in
        if negb (c =? b) then strstr_loop n (str + 1) sub
        else
          let! here := strstr_here fuel str sub in
          if here then ret str else strstr_loop n (str + 1) sub
  end.
Definition strstr (fuel : nat) (str sub : Z) : M mem Z :=
  let! b := load sub in if b =? 0 then ret str else strstr_loop fuel str sub.

(** [n] is the number of characters from [s] to [last]. *)
Fixpoint strrchr_loop (n : nat) (last c : Z) : M mem Z :=
  match n with
  | O => ret 0
  | S n => let! v := load last in if v =? u8 c then ret last else strrchr_loop n (last - 1) c
  end.
Definition strrchr (fuel : nat) (s c : Z) : M mem Z :=
  let! len := strlen fuel s in strrchr_loop (Z.to_nat len + 1) (s + len) c.

(** The inner loop over the set: whether [c] was met. *)
Fixpoint in_string (fuel : nat) (c a : Z) : M mem bool :=
  match fuel with
  | O => nofuel
  | S fuel => let! v := load a in if v =? 0 then ret false else if c =? v then ret true else in_string fuel c (a + 1)
  end.

Fixpoint strspn_loop (fuel : nat) (p s2 count : Z) : M mem Z :=
  match fuel with
  | O => nofuel
  | S n =>
      let! c := load p in
      if c =? 0 then ret count
      else
        let! found := in_string fuel c s2 in
        if found then strspn_loop n (p + 1) s2 (count + 1) else ret count
  end.
Definition strspn (fuel : nat) (s1 s2 : Z) : M mem Z := strspn_loop fuel s1 s2 0.

Fixpoint strpbrk (fuel : nat) (cs ct : Z) : M mem Z :=
  match fuel with
  | O => nofuel
  | S n =>
      let! c := load cs in
      if c =? 0 then ret 0
      else
        let! found := in_string fuel c ct in
        if found then ret cs else strpbrk n (cs + 1) ct
  end.

(** ** Tokens *)

(** The static pointer goes in and comes out. *)
Definition strtok (fuel : nat) (str delim saved : Z) : M mem (Z * Z) :=
  let sbegin := if negb (str =? 0) then str else saved in
  if sbegin =? 0 then ret (0, saved)
  else
    let! skip := strspn fuel sbegin delim in
    let sbegin := sbegin + skip in
    let! c := load sbegin in
    if c =? 0 then ret (0, 0)
    else
      let! send := strpbrk fuel sbegin delim in
      if send =? 0 then ret (sbegin, send)
      else
        let! e := load send in
        if negb (e =? 0) then store send 0 ;;; ret (sbegin, send + 1) else ret (sbegin, send).

(** ** Duplicates *)

Definition strdup (malloc : Z -> M mem Z) (dma : tegrabl_clib_dma) (fuel : nat) (str : Z) : M mem Z :=
  let! n := strlen fuel str in
  let len := u64 (n + 1) in
  let! copy := malloc len in
  if copy =? 0 then ret 0
  else let! _ := memcpy dma copy str len in ret copy.
