(* ===== verification/CStringSpec.v ===== *)
(** * The C library: strings are sequences

    A string in memory is a sequence of characters in front of a zero; the string
    functions compute on it what their names say about the sequence. *)
From stdpp Require Import gmap.
From S2P Require Import Prelude Interfaces Clib ClibSpec CString.
#[local] Open Scope Z_scope.

Fixpoint cstr (m : mem) (a : Z) (l : list Z) : Prop :=
  match l with
  | [] => m !! a = Some 0
  | c :: l => m !! a = Some c /\ 0 < c < 256 /\ cstr m (a + 1) l
  end.

Abbreviation len l := (Z.of_nat (length l)).

Lemma cstr_head m a l : cstr m a l -> m !! a = Some (default 0 (head l)).
Proof. destruct l; [done|]. by intros [? _]. Qed.

Lemma load_nil m a : cstr m a [] -> load a m = (Ret 0, m).
Proof. apply load_run. Qed.

Lemma load_cons m a c l : cstr m a (c :: l) -> load a m = (Ret c, m) /\ (c =? 0) = false /\ cstr m (a + 1) l.
Proof. intros (H & ? & ?). split; [by apply load_run|]. split; [apply Z.eqb_neq; lia|done]. Qed.

(** Run one iteration of a loop that reads the string of [H]. *)
Ltac chars H :=
  unfold bind;
  lazymatch type of H with
  | cstr _ _ [] => rewrite (load_nil _ _ H)
  | cstr _ _ (_ :: _) =>
      let E := fresh "El" in let Z := fresh "En" in
      destruct (load_cons _ _ _ _ H) as (E & Z & ?); rewrite E; clear E; try rewrite Z
  end.

Lemma cstr_ext m m' a l : (forall x, a <= x <= a + len l -> m' !! x = m !! x) -> cstr m a l -> cstr m' a l.
Proof.
  revert a. induction l as [|c l IH]; intros a E H; cbn in *; [by rewrite E by lia|].
  destruct H as (H & ? & ?). rewrite E by lia. split; [done|]. split; [done|]. apply IH; [|done]. intros. apply E. lia.
Qed.

Lemma cstr_drop m a l r : cstr m a (l ++ r) -> cstr m (a + len l) r.
Proof.
  revert a. induction l as [|c l IH]; intros a H; cbn in *; [by rewrite Z.add_0_r|].
  destruct H as (_ & _ & H). apply IH in H. by replace (a + Z.of_nat (S (length l))) with (a + 1 + len l) by lia.
Qed.

Lemma cstr_chars m a l : cstr m a l -> Forall (fun c => 0 < c < 256) l.
Proof. revert a. induction l as [|c l IH]; intros a H; [done|]. destruct H as (_ & ? & H). constructor; [done|]. by eapply IH. Qed.

(** ** References on sequences *)

(** The sign of the difference of two texts. *)
Fixpoint text_order (l1 l2 : list Z) : Z :=
  match l1, l2 with
  | [], [] => 0
  | [], _ => - 1
  | _, [] => 1
  | c1 :: l1, c2 :: l2 => if c1 <? c2 then - 1 else if c2 <? c1 then 1 else text_order l1 l2
  end.

(** The first position of a list where [P] holds. *)
Definition first_at (P : nat -> Prop) (a r : Z) (n : nat) : Prop :=
  (exists i, (i < n)%nat /\ r = a + Z.of_nat i /\ P i /\ forall j, (j < i)%nat -> ~ P j) \/
  (r = 0 /\ forall j, (j < n)%nat -> ~ P j).

Fixpoint span (P : Z -> bool) (l : list Z) : list Z :=
  match l with [] => [] | c :: l => if P c then c :: span P l else [] end.

Definition in_set (D : list Z) (c : Z) : bool := bool_decide (c ∈ D).

(** ** The loops *)

Lemma string_end_run l : forall m a fuel, cstr m a l -> (length l < fuel)%nat ->
  string_end fuel a m = (Ret (a + len l), m).
Proof.
  induction l as [|c l IH]; intros m a [|fuel] H Hf; try (cbn in Hf; lia); cbn [string_end]; chars H; [by rewrite Z.add_0_r|].
  rewrite IH by (done || (cbn in Hf; lia)). by replace (a + len (c :: l)) with (a + 1 + len l) by (cbn [length]; lia).
Qed.

Lemma strlen_run l m a fuel : cstr m a l -> (length l < fuel)%nat -> len l < 2 ^ 31 ->
  strlen fuel a m = (Ret (len l), m).
Proof.
  intros H Hf Hl. unfold strlen. rewrite (bind_run _ _ _ _ _ (string_end_run _ _ _ _ H Hf)).
  replace (a + len l - a) with (len l) by lia. unfold ret. do 2 f_equal.
  unfold signedw. rewrite (wrapw_small 32) by (unfold in_word; lia).
  destruct (Z.ltb_spec (len l) (2 ^ (32 - 1))); [|lia]. apply wrapw_small. unfold in_word. lia.
Qed.

(** One iteration of the two comparing loops, when going on gives [r]. *)
Lemma compare_step (rest : M mem Z) l1 l2 m a1 a2 r : cstr m a1 l1 -> cstr m a2 l2 ->
  (l1 <> [] -> l2 <> [] -> rest m = (Ret r, m)) ->
  (let! c1 := load a1 in
   let! c2 := load a2 in
   if negb (c1 =? c2) then ret (if c1 <? c2 then - 1 else 1) else if c1 =? 0 then ret 0 else rest) m =
  (Ret match l1, l2 with
       | [], [] => 0
       | [], _ => - 1
       | _, [] => 1
       | c1 :: _, c2 :: _ => if c1 <? c2 then - 1 else if c2 <? c1 then 1 else r
       end, m).
Proof.
  intros H1 H2 Hrest. destruct l1 as [|c1 l1], l2 as [|c2 l2].
  - chars H1. by chars H2.
  - pose proof (cstr_chars _ _ _ H2) as Hc%Forall_inv. chars H1. chars H2.
    destruct (Z.eqb_spec 0 c2); [lia|]. by destruct (Z.ltb_spec 0 c2); [|lia].
  - pose proof (cstr_chars _ _ _ H1) as Hc%Forall_inv. chars H1. chars H2.
    destruct (Z.eqb_spec c1 0); [lia|]. by destruct (Z.ltb_spec c1 0); [lia|].
  - chars H1. chars H2. destruct (Z.eqb_spec c1 c2) as [->|]; cbn [negb].
    + rewrite Z.ltb_irrefl. replace (c2 =? 0) with false by done. by apply Hrest.
    + destruct (Z.ltb_spec c1 c2); [done|]. by destruct (Z.ltb_spec c2 c1); [|lia].
Qed.

Lemma cstr_tail m a l : cstr m a l -> l <> [] -> cstr m (a + 1) (tail l).
Proof. destruct l; [done|]. by intros (_ & _ & ?). Qed.

Lemma strcmp_run fuel : forall l1 l2 m a1 a2, cstr m a1 l1 -> cstr m a2 l2 -> (length l1 < fuel)%nat ->
  strcmp fuel a1 a2 m = (Ret (text_order l1 l2), m).
Proof.
  induction fuel as [|fuel IH]; intros l1 l2 m a1 a2 H1 H2 Hf; [lia|]. cbn [strcmp].
  rewrite (compare_step _ l1 l2 m a1 a2 (text_order (tail l1) (tail l2))); [by destruct l1, l2|done|done|].
  intros. apply (IH (tail l1) (tail l2)); [by apply cstr_tail..|destruct l1; [done|cbn in *; lia]].
Qed.

Lemma strncmp_run n : forall l1 l2 m a1 a2, cstr m a1 l1 -> cstr m a2 l2 ->
  strncmp_loop n a1 a2 m = (Ret (text_order (take n l1) (take n l2)), m).
Proof.
  induction n as [|n IH]; intros l1 l2 m a1 a2 H1 H2; [done|]. cbn [strncmp_loop].
  rewrite (compare_step _ l1 l2 m a1 a2 (text_order (take n (tail l1)) (take n (tail l2)))); [by destruct l1, l2|done|done|].
  intros. apply (IH (tail l1) (tail l2)); by apply cstr_tail.
Qed.

(** ** Searches *)

Lemma first_here P a n : P 0%nat -> first_at P a a (S n).
Proof. intros H. left. exists 0%nat. split; [lia|]. split; [lia|]. split; [done|lia]. Qed.

Lemma first_later P a r n : ~ P 0%nat -> first_at (fun i => P (S i)) (a + 1) r n -> first_at P a r (S n).
Proof.
  intros H [(i & ? & -> & ? & Hj)|(-> & Hj)].
  - left. exists (S i). split; [lia|]. split; [lia|]. split; [done|]. intros [|j] ?; [done|]. apply Hj. lia.
  - right. split; [done|]. intros [|j] ?; [done|]. apply Hj. lia.
Qed.

Lemma first_never P a : first_at P a 0 0.
Proof. right. split; [done|lia]. Qed.

(** The terminator belongs to what [strchr] searches. *)
Lemma strchr_run k l : forall m a fuel, cstr m a l -> (length l < fuel)%nat ->
  exists r, strchr_loop fuel a k m = (Ret r, m) /\ first_at (fun i => (l ++ [0]) !! i = Some (u8 k)) a r (S (length l)).
Proof.
  induction l as [|c l IH]; intros m a [|fuel] H Hf; try (cbn in Hf; lia); cbn [strchr_loop]; chars H.
  - destruct (Z.eqb_spec 0 (u8 k)) as [E|E]; eexists; (split; [reflexivity|]); [apply first_here; cbn; congruence|].
    apply first_later; [cbn; congruence|apply first_never].
  - destruct (Z.eqb_spec c (u8 k)) as [E|E]; [eexists; split; [reflexivity|]; apply first_here; cbn; congruence|].
    destruct (IH m (a + 1) fuel) as (r & Er & Hr); [done|cbn in Hf; lia|]. exists r. split; [done|].
    apply first_later; [cbn; congruence|done].
Qed.

Lemma in_string_run D c : c <> 0 -> forall m d fuel, cstr m d D -> (length D < fuel)%nat ->
  in_string fuel c d m = (Ret (in_set D c), m).
Proof.
  intros Hc. unfold in_set. induction D as [|x D IH]; intros m d [|fuel] H Hf; try (cbn in Hf; lia); cbn [in_string]; chars H; [done|].
  destruct (Z.eqb_spec c x) as [->|Hx]; [by rewrite bool_decide_eq_true_2 by (apply elem_of_cons; by left)|].
  rewrite IH by (done || (cbn in Hf; lia)). unfold ret. do 2 f_equal. apply bool_decide_ext.
  rewrite elem_of_cons. split; [by right|by intros [|]].
Qed.

Lemma strspn_run D l : forall m a d fuel n, cstr m a l -> cstr m d D -> (length l + length D < fuel)%nat ->
  strspn_loop fuel a d n m = (Ret (n + len (span (in_set D) l)), m).
Proof.
  induction l as [|c l IH]; intros m a d [|fuel] n H HD Hf; try (cbn in Hf; lia); cbn [strspn_loop span length];
    cbn [length] in Hf; chars H; [by rewrite Z.add_0_r|].
  rewrite (in_string_run D) by (done || lia || by apply Z.eqb_neq).
  destruct (in_set D c); [|by rewrite Z.add_0_r]. rewrite IH by (done || lia). cbn [length]. unfold ret. do 2 f_equal. lia.
Qed.

Lemma strpbrk_run D l : forall m a d fuel, cstr m a l -> cstr m d D -> (length l + length D < fuel)%nat ->
  exists r, strpbrk fuel a d m = (Ret r, m) /\ first_at (fun i => exists c, l !! i = Some c /\ c ∈ D) a r (length l).
Proof.
  induction l as [|c l IH]; intros m a d [|fuel] H HD Hf; try (cbn in Hf; lia); cbn [strpbrk length];
    cbn [length] in Hf; chars H; [eexists; split; [done|]; apply first_never|].
  rewrite (in_string_run D) by (done || lia || by apply Z.eqb_neq).
  unfold in_set. case_bool_decide as Hc; [eexists; split; [done|]; apply first_here; by exists c|].
  destruct (IH m (a + 1) d fuel) as (r & Er & Hr); [done|done|lia|]. exists r. split; [done|].
  apply first_later; [|done]. intros (x & Hx & ?). cbn in Hx. congruence.
Qed.

Lemma strstr_here_run l : forall s m a b fuel, cstr m a l -> cstr m b s -> s <> [] -> (length s < fuel)%nat ->
  strstr_here fuel a b m = (Ret (bool_decide (s `prefix_of` l)), m).
Proof.
  induction l as [|c l IH]; intros [|x s] m a b [|fuel] H Hs Hne Hf; try done; cbn [strstr_here length] in *; try lia; chars H;
    pose proof (cstr_chars _ _ _ Hs) as Hx%Forall_inv; chars Hs.
  - destruct (Z.eqb_spec 0 x); [lia|]. rewrite bool_decide_eq_false_2; [done|]. by intros ?%prefix_nil_not.
  - destruct (Z.eqb_spec c x) as [->|Hc].
    2: { rewrite bool_decide_eq_false_2; [done|]. by intros ?%prefix_cons_inv_1. }
    destruct s as [|y s].
    + rewrite (load_nil m (b + 1)) by done. cbn. rewrite bool_decide_eq_true_2; [done|]. apply prefix_cons, prefix_nil.
    + destruct (load_cons m (b + 1) y s) as (-> & -> & ?); [done|]. rewrite (IH (y :: s)) by (done || cbn [length] in *; lia).
      unfold ret. do 2 f_equal. apply bool_decide_ext. split; [apply prefix_cons|apply prefix_cons_inv_2].
Qed.

Lemma strstr_run s l : s <> [] -> forall m a b fuel, cstr m a l -> cstr m b s -> (length l + length s < fuel)%nat ->
  exists r, strstr_loop fuel a b m = (Ret r, m) /\ first_at (fun i => s `prefix_of` drop i l) a r (length l).
Proof.
  intros Hne. induction l as [|c l IH]; intros m a b [|fuel] H Hs Hf; try (cbn in Hf; lia); cbn [strstr_loop length];
    cbn [length] in Hf; pose proof H as Ha; chars H; [eexists; split; [done|]; apply first_never|].
  destruct s as [|x s]; [done|]. destruct (load_cons m b x s) as (-> & _ & _); [done|].
  destruct (IH m (a + 1) b fuel) as (r & Er & Hr); [done|done|lia|].
  destruct (Z.eqb_spec c x) as [->|Hc]; cbn [negb].
  - rewrite (strstr_here_run (x :: l) (x :: s)) by (done || cbn [length] in *; lia).
    case_bool_decide as Hp; [eexists; split; [done|]; by apply first_here|]. exists r. split; [done|]. by apply first_later.
  - exists r. split; [done|]. apply first_later; [|done]. by intros ?%prefix_cons_inv_1.
Qed.

(** On strings the read-only functions compute what they say, each as a
    plain loop over the sequence would: [strlen] the length, [strcmp] and [strncmp]
    the order of the texts and of their first [n] characters, [strchr] the first
    occurrence of a character or of the terminator, [strspn] the length of the
    prefix in a set, [strpbrk] the first character in a set and [strstr] the first
    occurrence of a text; a search that fails returns NULL. *)
Theorem string_queries m a b l s fuel c n :
  cstr m a l -> cstr m b s -> a <> 0 -> 0 <= n -> len l < 2 ^ 31 -> (length l + length s < fuel)%nat ->
  strlen fuel a m = (Ret (len l), m) /\
  strcmp fuel a b m = (Ret (text_order l s), m) /\
  strncmp a b n m = (Ret (text_order (take (Z.to_nat n) l) (take (Z.to_nat n) s)), m) /\
  strspn fuel a b m = (Ret (len (span (in_set s) l)), m) /\
  (exists r, strchr fuel a c m = (Ret r, m) /\ first_at (fun i => (l ++ [0]) !! i = Some (u8 c)) a r (S (length l))) /\
  (exists r, strpbrk fuel a b m = (Ret r, m) /\ first_at (fun i => exists x, l !! i = Some x /\ x ∈ s) a r (length l)) /\
  (exists r, strstr fuel a b m = (Ret r, m) /\ first_at (fun i => s `prefix_of` drop i l) a r (S (length l))).
Proof.
  intros Ha Hb Ha0 Hn Hl Hf. split; [apply strlen_run; done || lia|]. split; [apply strcmp_run; done || lia|].
  split; [by apply strncmp_run|]. split; [by apply (strspn_run s l m a b fuel 0)|].
  split; [|split; [by apply strpbrk_run|]].
  - unfold strchr. apply Z.eqb_neq in Ha0. rewrite Ha0. apply strchr_run; done || lia.
  - unfold strstr. destruct s as [|x s].
    + chars Hb. exists a. split; [done|]. apply first_here, prefix_nil.
    + chars Hb. destruct (strstr_run (x :: s) l ltac:(done) m a b fuel) as (r & E & Hr); [done|done|done|].
      exists r. split; [done|]. destruct Hr as [(i & ? & ?)|(-> & Hj)]; [left; exists i; split; [lia|done]|].
      right. split; [done|]. intros j Hjl. destruct (decide (j < length l)%nat); [by apply Hj|].
      rewrite drop_ge by lia. by intros ?%prefix_nil_not.
Qed.

(** The text [abcabd] and the text [abd] behind it. *)
Definition two_texts : mem := text_memory 16 [97; 98; 99; 97; 98; 100; 0; 97; 98; 100; 0].

Lemma string_queries_witness : exists r, strstr 10 16 23 two_texts = (Ret r, two_texts) /\
  first_at (fun i => [97; 98; 100] `prefix_of` drop i [97; 98; 99; 97; 98; 100]) 16 r 7.
Proof.
  apply (string_queries two_texts 16 23 [97; 98; 99; 97; 98; 100] [97; 98; 100] 10 0 0);
    [vm_compute; repeat split..|done|done|vm_compute; reflexivity|cbn; lia].
Defined.

Example strstr_finds_the_second : strstr 10 16 23 two_texts = (Ret 19, two_texts).
Proof. vm_compute. reflexivity. Qed.

(** ** Copies *)

(** [m'] is [m] with [l] written at [d]. *)
Definition written (m m' : mem) (d : Z) (l : list Z) : Prop :=
  forall x, m' !! x = if decide (d <= x < d + len l) then l !! Z.to_nat (x - d) else m !! x.

Lemma written_nil m d : written m m d [].
Proof. intros x. by destruct (decide _); [cbn in *; lia|]. Qed.

Lemma written_cons m m' d v l : written (<[d := v]> m) m' (d + 1) l -> written m m' d (v :: l).
Proof.
  intros H x. rewrite H. cbn [length]. destruct (decide (x = d)) as [->|Hx].
  - rewrite lookup_insert_eq, Z.sub_diag. repeat destruct (decide _); done || lia.
  - rewrite lookup_insert_ne by done. destruct (decide (d + 1 <= x < _)), (decide (d <= x < _)); try lia; [|done].
    by replace (Z.to_nat (x - d)) with (S (Z.to_nat (x - (d + 1)))) by lia.
Qed.

Lemma written_app m m1 m2 d l1 l2 : written m m1 d l1 -> written m1 m2 (d + len l1) l2 -> written m m2 d (l1 ++ l2).
Proof.
  intros H1 H2 x. rewrite H2, H1, length_app, lookup_app.
  destruct (decide (d + len l1 <= x < _)), (decide (d <= x < d + len l1)), (decide (d <= x < d + _)); try lia; try done.
  - rewrite (lookup_ge_None_2 l1) by lia. by replace (Z.to_nat (x - (d + len l1))) with (Z.to_nat (x - d) - length l1)%nat by lia.
  - by destruct (lookup_lt_is_Some_2 l1 (Z.to_nat (x - d))) as [? ->]; [lia|].
Qed.

Lemma written_extent m m' d l : written m m' d l -> same_extent m m'.
Proof. intros H x Hx. rewrite H. destruct (decide _); [apply lookup_lt_is_Some_2; lia|done]. Qed.

Lemma mapped_insert m d v a n : mapped m a n -> mapped (<[d := v]> m) a n.
Proof. intros H x Hx. destruct (decide (x = d)) as [->|]; [rewrite lookup_insert_eq; by eexists|]. rewrite lookup_insert_ne by done. by apply H. Qed.

Lemma cstr_insert m d v a l : (d < a \/ a + len l < d) -> cstr m a l -> cstr (<[d := v]> m) a l.
Proof. intros Ho. apply cstr_ext. intros. apply lookup_insert_ne. lia. Qed.

Lemma written_cstr m m' d l : Forall (fun c => 0 < c < 256) l -> written m m' d (l ++ [0]) -> cstr m' d l.
Proof.
  intros Hl H. assert (Hi : forall i c, (l ++ [0]) !! i = Some c -> m' !! (d + Z.of_nat i) = Some c).
  { intros i c E. rewrite H. pose proof (lookup_lt_Some _ _ _ E). destruct (decide _); [|lia].
    by replace (Z.to_nat _) with i by lia. }
  clear H. revert d Hi. induction Hl as [|c l Hc _ IH]; intros d Hi; [rewrite <- (Z.add_0_r d); by apply (Hi 0%nat)|].
  split; [rewrite <- (Z.add_0_r d); by apply (Hi 0%nat)|]. split; [done|]. apply IH.
  intros i x E. replace (d + 1 + Z.of_nat i) with (d + Z.of_nat (S i)) by lia. by apply Hi.
Qed.

(** The bytes a copy may write and the string it reads. *)
Definition clear_of (d k a : Z) (l : list Z) : Prop := d + k <= a \/ a + len l < d.

Lemma strlcpy_loop_run k : forall l m d a, cstr m a l -> mapped m d (Z.of_nat k) -> clear_of d (Z.of_nat k) a l ->
  exists m', strlcpy_loop k d a m = (Ret (len (take k l)), m') /\ written m m' d (take k l).
Proof.
  induction k as [|k IH]; intros l m d a H Hd Ho; [exists m; split; [done|apply written_nil]|].
  destruct l as [|c l]; cbn [strlcpy_loop]; chars H; [exists m; split; [done|apply written_nil]|].
  unfold clear_of in Ho. cbn [length] in Ho. rewrite store_run by (apply Hd; lia).
  destruct (IH l (<[d := c]> m) (d + 1) (a + 1)) as (m' & E & W);
    [apply cstr_insert; [lia|done]|apply mapped_insert; sub Hd|unfold clear_of; lia|].
  rewrite E. exists m'. split; [cbn [take length]; unfold ret; do 2 f_equal; lia|by apply written_cons].
Qed.

Lemma fill_written n m m' d c : filled m m' d c (Z.of_nat n) -> written m m' d (replicate n c).
Proof.
  intros H x. rewrite H, length_replicate. destruct (decide _); [|done].
  symmetry. apply lookup_replicate_2. lia.
Qed.

Lemma strncpy_loop_run k : forall l m d a, cstr m a l -> mapped m d (Z.of_nat k) -> clear_of d (Z.of_nat k) a l ->
  exists m', strncpy_loop k d a m = (Ret tt, m') /\ written m m' d (take k (l ++ replicate k 0)).
Proof.
  induction k as [|k IH]; intros l m d a H Hd Ho; [exists m; split; [done|apply written_nil]|].
  unfold clear_of in Ho. destruct l as [|c l]; cbn [strncpy_loop]; chars H; rewrite store_run by (apply Hd; lia).
  - cbn [Z.eqb]. destruct (fill_bytes_run k (<[d := 0]> m) (d + 1) 0) as (m' & E & F); [apply mapped_insert; sub Hd|].
    exists m'. split; [done|]. cbn [app take replicate]. rewrite take_ge by (by rewrite length_replicate).
    by apply written_cons, fill_written.
  - cbn [length] in Ho. destruct (IH l (<[d := c]> m) (d + 1) (a + 1)) as (m' & E & W);
      [apply cstr_insert; [lia|done]|apply mapped_insert; sub Hd|unfold clear_of; lia|].
    assert (Et : take k (l ++ replicate k 0) = take k (l ++ replicate (S k) 0)).
    { rewrite !take_app, !take_replicate. do 2 f_equal. lia. }
    rewrite Et in W. exists m'. split; [done|]. apply written_cons, W.
Qed.

(** [strlcpy] and [strncpy] write inside the [n] bytes of their destination
    only: [strlcpy] the longest prefix of the source that fits with its terminator,
    and it returns the length of the whole source; [strncpy] the first [n]
    characters padded with zeros, so without a terminator when the source has [n]
    or more. *)
Theorem bounded_copies m d a l n fuel :
  cstr m a l -> mapped m d n -> clear_of d n a l -> 0 < n -> len l < 2 ^ 31 -> (length l < fuel)%nat ->
  (exists m', strlcpy fuel d a n m = (Ret (len l), m') /\ cstr m' d (take (Z.to_nat (n - 1)) l) /\
     written m m' d (take (Z.to_nat (n - 1)) l ++ [0])) /\
  (exists m', strncpy d a n m = (Ret d, m') /\ written m m' d (take (Z.to_nat n) (l ++ replicate (Z.to_nat n) 0))).
Proof.
  intros H Hd Ho Hn Hl Hf. split.
  - set (k := Z.to_nat (n - 1)). unfold strlcpy. destruct (Z.eqb_spec n 0); [lia|]. fold k.
    destruct (strlcpy_loop_run k l m d a) as (m1 & E1 & W1); [done|sub Hd|unfold clear_of in *; lia|].
    assert (Hk : len (take k l) <= n - 1) by (rewrite length_take; lia).
    set (m2 := <[d + len (take k l) := 0]> m1).
    assert (W : written m m2 d (take k l ++ [0])) by (eapply written_app; [exact W1|]; apply written_cons, written_nil).
    assert (Hc : cstr m2 a l).
    { apply (cstr_ext m); [|done]. intros x Hx. rewrite W. rewrite length_app. destruct (decide _); [|done].
      unfold clear_of in Ho. cbn in *. lia. }
    exists m2. rewrite (bind_run _ _ _ _ _ E1). unfold bind.
    rewrite store_run by (eapply written_extent; [exact W1|apply Hd; lia]). fold m2.
    pose proof Hc as Hr. rewrite <- (take_drop k l) in Hr. apply cstr_drop in Hr.
    rewrite (strlen_run (drop k l)) by (done || (rewrite length_drop; lia)).
    split; [|split; [|done]].
    + unfold ret. do 2 f_equal. rewrite <- Nat2Z.inj_add, <- length_app, take_drop. apply wrapw_small. unfold in_word. lia.
    + eapply written_cstr; [|exact W]. apply Forall_take. by eapply cstr_chars.
  - destruct (strncpy_loop_run (Z.to_nat n) l m d a) as (m' & E & W); [done|sub Hd|unfold clear_of in *; lia|].
    exists m'. unfold strncpy. by rewrite (bind_run _ _ _ _ _ E).
Qed.

Lemma bounded_copies_witness : exists m', strlcpy 10 30 16 3 (text_memory 16 [97; 98; 99; 100; 0] ∪ text_memory 30 [1; 1; 1; 1]) = (Ret 4, m') /\
  cstr m' 30 [97; 98] /\ m' !! 33 = Some 1.
Proof.
  set (m := text_memory 16 _ ∪ _).
  destruct (bounded_copies m 30 16 [97; 98; 99; 100] 3 10) as [(m' & E & C & W) _].
  - vm_compute; repeat split.
  - apply mapped_compute. vm_compute. reflexivity.
  - right. cbn. lia.
  - lia.
  - vm_compute; reflexivity.
  - cbn. lia.
  - exists m'. split; [exact E|]. split; [exact C|]. rewrite W. vm_compute. reflexivity.
Defined.

(** ** Tokens *)

(** Only [n] bytes from [d] may differ. *)
Definition unchanged_outside (m m' : mem) (d n : Z) : Prop := forall x, ~ d <= x < d + n -> m' !! x = m !! x.

Lemma outside_trans m m1 m2 d n : unchanged_outside m m1 d n -> unchanged_outside m1 m2 d n -> unchanged_outside m m2 d n.
Proof. intros H1 H2 x Hx. by rewrite H2, H1. Qed.

Lemma unchanged_wider m m' d n d' n' : unchanged_outside m m' d n -> d' <= d -> d + n <= d' + n' -> unchanged_outside m m' d' n'.
Proof. intros H ?? x Hx. apply H. lia. Qed.

Lemma unchanged_insert m d v : unchanged_outside m (<[d := v]> m) d 1.
Proof. intros x Hx. apply lookup_insert_ne. lia. Qed.

(** The maximal runs of characters outside [D] in the text [l] at [a], with their
    addresses, from the right. *)
Fixpoint tokens (D : list Z) (a : Z) (l : list Z) : list (Z * list Z) :=
  match l with
  | [] => []
  | c :: r =>
      let later := tokens D (a + 1) r in
      if in_set D c then later
      else
        match head r, later with
        | Some x, (b, t) :: rest => if in_set D x then (a, [c]) :: later else (a, c :: t) :: rest
        | _, _ => (a, [c]) :: later
        end
  end.

(** A caller's loop: the first call gets the string, the others NULL, until NULL
    comes back. *)
Fixpoint strtok_all (k fuel : nat) (str delim saved : Z) : M mem (list Z) :=
  match k with
  | O => nofuel
  | S k =>
      let! (t, saved) := strtok fuel str delim saved in
      if t =? 0 then ret [] else let! more := strtok_all k fuel 0 delim saved in ret (t :: more)
  end.

Definition delimiters (D l : list Z) : Prop := Forall (fun c => in_set D c = true) l.
Definition no_delimiter (D l : list Z) : Prop := Forall (fun c => in_set D c = false) l.

Lemma tokens_skip D p l a : delimiters D p -> tokens D a (p ++ l) = tokens D (a + len p) l.
Proof.
  intros Hp. revert a. induction Hp as [|c p Hc _ IH]; intros a; [by rewrite Z.add_0_r|].
  cbn [app tokens]. rewrite Hc, IH. f_equal. cbn [length]. lia.
Qed.

(** One token and what is behind it. *)
Lemma tokens_one D t r a : no_delimiter D t -> t <> [] -> (forall x, head r = Some x -> in_set D x = true) ->
  tokens D a (t ++ r) = (a, t) :: tokens D (a + len t) r.
Proof.
  intros Ht. revert a. induction Ht as [|c t Hc Ht IH]; intros a Hne Hr; [done|].
  cbn [app tokens]. rewrite Hc. destruct t as [|x t].
  - cbn [app]. destruct r as [|x r]; [done|]. cbn [head]. rewrite (Hr x eq_refl). change (a + len [c]) with (a + 1).
    by destruct (tokens D (a + 1) (x :: r)) as [|[]].
  - rewrite IH by done. cbn [app head]. rewrite (Forall_inv Ht). f_equal. f_equal. cbn [length]. lia.
Qed.

Lemma span_split P l : exists r, l = span P l ++ r /\ Forall (fun c => P c = true) (span P l) /\
  (forall x, head r = Some x -> P x = false).
Proof.
  induction l as [|c l IH]; [by exists []|]. cbn. destruct (P c) eqn:E.
  - destruct IH as (r & Hl & ? & ?). exists r. split; [cbn; by f_equal|]. split; [by constructor|done].
  - exists (c :: l). split; [done|]. split; [constructor|]. by intros x [= <-].
Qed.

Lemma strpbrk_token D t r m a d fuel : cstr m a (t ++ r) -> cstr m d D -> (length (t ++ r) + length D < fuel)%nat ->
  no_delimiter D t -> (forall x, head r = Some x -> in_set D x = true) ->
  strpbrk fuel a d m = (Ret (match r with [] => 0 | _ => a + len t end), m).
Proof.
  intros Ha Hd Hf Ht Hr. destruct (strpbrk_run D (t ++ r) m a d fuel Ha Hd Hf) as (b & -> & Hb). do 2 f_equal.
  assert (Hin : forall i c, (i < length t)%nat -> (t ++ r) !! i = Some c -> c ∉ D).
  { intros i c Hi E. rewrite lookup_app_l in E by done. apply (proj1 (Forall_lookup _ _) Ht) in E.
    by apply bool_decide_eq_false in E. }
  assert (Hx : forall x r', r = x :: r' -> x ∈ D /\ (t ++ r) !! length t = Some x).
  { intros x r' ->. split; [by eapply (bool_decide_eq_true (x ∈ D)), Hr|]. by rewrite lookup_app_r, Nat.sub_diag. }
  rewrite length_app in Hb. destruct Hb as [(i & Hi & -> & (c & Hc & Hd') & Hj)|(-> & Hj)].
  - destruct (decide (i < length t)%nat) as [Hit|Hit]; [by destruct (Hin i c)|]. destruct r as [|x r]; [cbn in Hi; lia|].
    destruct (Hx x r) as [? ?]; [done|]. destruct (decide (i = length t)) as [->|]; [done|].
    destruct (Hj (length t)); [lia|]. by exists x.
  - destruct r as [|x r]; [done|]. destruct (Hx x r) as [? ?]; [done|]. destruct (Hj (length t)); [cbn; lia|]. by exists x.
Qed.

(** One call at a string: nothing but delimiters, or delimiters, a token and the rest. *)
Lemma strtok_step D l str saved m s d fuel : cstr m s l -> cstr m d D -> 0 < s ->
  (length l + length D < fuel)%nat -> (if negb (str =? 0) then str else saved) = s ->
  (delimiters D l /\ strtok fuel str d saved m = (Ret (0, 0), m)) \/
  (exists p t, l = p ++ t /\ delimiters D p /\ no_delimiter D t /\ t <> [] /\
     strtok fuel str d saved m = (Ret (s + len p, 0), m)) \/
  (exists p t x r, l = p ++ t ++ x :: r /\ delimiters D p /\ no_delimiter D t /\ t <> [] /\ in_set D x = true /\
     strtok fuel str d saved m = (Ret (s + len p, s + len p + len t + 1), <[s + len p + len t := 0]> m)).
Proof.
  intros Hs Hd Hs0 Hf Hb. unfold strtok. rewrite Hb. destruct (Z.eqb_spec s 0); [lia|].
  unfold strspn. rewrite (bind_run _ _ _ _ _ (strspn_run D l m s d fuel 0 Hs Hd Hf)). rewrite Z.add_0_l.
  destruct (span_split (in_set D) l) as (l1 & El & Hp & Hl1). set (p := span (in_set D) l) in *.
  rewrite El in Hs. apply cstr_drop in Hs. destruct l1 as [|c l1].
  { left. rewrite app_nil_r in El. split; [by rewrite El|]. chars Hs. done. }
  right. pose proof (Hl1 c eq_refl) as Hc. destruct (span_split (fun c => negb (in_set D c)) (c :: l1)) as (r & Et & Ht & Hr).
  set (t := span _ (c :: l1)) in *.
  assert (Hne : t <> []) by (unfold t; cbn; by rewrite Hc).
  assert (Ht' : no_delimiter D t) by (eapply Forall_impl; [exact Ht|]; intros; by apply negb_true_iff).
  assert (Hr' : forall x, head r = Some x -> in_set D x = true) by (intros x E; by apply negb_false_iff, Hr).
  assert (Hlen : (length (t ++ r) + length D < fuel)%nat) by (rewrite <- Et; rewrite El, length_app in Hf; lia).
  chars Hs. rewrite Et in Hs. rewrite (strpbrk_token D t r m) by done.
  destruct r as [|x r].
  - left. exists p, t. rewrite app_nil_r in Et. split; [congruence|done].
  - right. exists p, t, x, r. split; [congruence|]. split; [done|]. split; [done|]. split; [done|].
    split; [by apply Hr'|]. pose proof (cstr_drop _ _ _ _ Hs) as Hx.
    destruct (Z.eqb_spec (s + len p + len t) 0); [lia|]. chars Hx. cbn [negb].
    by rewrite store_run by (eexists; by apply (cstr_head _ _ (x :: r))).
Qed.

Lemma cstr_cut m a t r : cstr m a (t ++ r) -> cstr (<[a + len t := 0]> m) a t.
Proof.
  revert a. induction t as [|c t IH]; intros a H; [cbn; rewrite Z.add_0_r; apply lookup_insert_eq|].
  destruct H as (Ec & Hc & H). cbn [cstr length]. rewrite lookup_insert_ne by lia. split; [done|]. split; [done|].
  replace (a + Z.of_nat (S (length t))) with (a + 1 + len t) by lia. by apply IH.
Qed.

Lemma strtok_all_run D d k : forall l str saved m s fuel, cstr m s l -> cstr m d D -> 0 < s -> s + len l < d \/ d + len D < s ->
  (length l + length D < fuel)%nat -> (length l < k)%nat -> (if negb (str =? 0) then str else saved) = s ->
  exists m', strtok_all k fuel str d saved m = (Ret (map fst (tokens D s l)), m') /\
    Forall (fun bt => cstr m' (bt.1) (bt.2)) (tokens D s l) /\ unchanged_outside m m' s (len l + 1).
Proof.
  induction k as [|k IH]; intros l str saved m s fuel Hs Hd Hs0 Ho Hf Hk Hb; [lia|]. cbn [strtok_all].
  destruct (strtok_step D l str saved m s d fuel) as [(Hl & E)|[(p & t & -> & Hp & Ht & Hne & E)|(p & t & x & r & -> & Hp & Ht & Hne & Hx & E)]];
    try done; rewrite (bind_run _ _ _ _ _ E).
  - exists m. rewrite <- (app_nil_r l), tokens_skip by done. split; [done|]. split; [constructor|done].
  - rewrite length_app in *. assert (0 < length t)%nat by (destruct t; [done|cbn; lia]).
    rewrite tokens_skip, <- (app_nil_r t), tokens_one by done. cbn [tokens map fst].
    destruct (Z.eqb_spec (s + len p) 0); [lia|]. destruct k as [|k]; [lia|]. exists m. split; [done|].
    split; [|done]. constructor; [|constructor]. cbn. by apply cstr_drop in Hs.
  - rewrite !length_app in *. cbn [length] in *. assert (0 < length t)%nat by (destruct t; [done|cbn; lia]).
    rewrite tokens_skip, tokens_one by (done || by intros ? [= <-]). cbn [tokens map fst]. rewrite Hx.
    destruct (Z.eqb_spec (s + len p) 0); [lia|]. apply cstr_drop in Hs. remember (s + len p) as b eqn:Eb.
    pose proof (cstr_drop _ _ _ _ Hs) as (_ & _ & Hr).
    destruct (IH r 0 (b + len t + 1) (<[b + len t := 0]> m) (b + len t + 1) fuel) as (m' & E' & T & U);
      [apply cstr_insert; [lia|done]|apply cstr_insert; [lia|done]|lia|lia|lia|lia|done|].
    rewrite (bind_run _ _ _ _ _ E'). exists m'. split; [done|]. split.
    + constructor; [|done]. cbn. apply (cstr_ext (<[b + len t := 0]> m)); [intros; apply U; lia|]. by eapply cstr_cut.
    + apply (outside_trans m (<[b + len t := 0]> m)); [eapply unchanged_wider; [apply unchanged_insert|lia|lia]|]. eapply unchanged_wider; [exact U|lia|lia].
Qed.

(** C30.  Calling [strtok] with a string and then with NULL until it returns NULL
    hands out exactly the maximal runs of characters outside the delimiters, in
    order, each a string of its own in the memory at the end; nothing outside the
    string is written.  The loop ends. *)
Theorem strtok_tokenizes D l m s d k fuel saved :
  cstr m s l -> cstr m d D -> 0 < s -> s + len l < d \/ d + len D < s ->
  (length l + length D < fuel)%nat -> (length l < k)%nat ->
  exists m', strtok_all k fuel s d saved m = (Ret (map fst (tokens D s l)), m') /\
    Forall (fun bt => cstr m' (bt.1) (bt.2)) (tokens D s l) /\ unchanged_outside m m' s (len l + 1).
Proof. intros. apply strtok_all_run; try done. by destruct (Z.eqb_spec s 0); [lia|]. Qed.

(** The string [a,,bc,] at 16, the delimiter [,] at 30. *)
Definition comma_text : mem := text_memory 16 [97; 44; 44; 98; 99; 44; 0] ∪ text_memory 30 [44; 0].

Lemma strtok_tokenizes_witness : exists m', strtok_all 8 10 16 30 5 comma_text = (Ret [16; 19], m') /\
  cstr m' 16 [97] /\ cstr m' 19 [98; 99].
Proof.
  destruct (strtok_tokenizes [44] [97; 44; 44; 98; 99; 44] comma_text 16 30 8 10 5) as (m' & E & T & _);
    [vm_compute; repeat split..|lia|cbn; lia|cbn; lia|cbn; lia|].
  exists m'. split; [exact E|]. change (tokens [44] 16 _) with [(16, [97]); (19, [98; 99])] in T.
  inversion_clear T as [|? ? T1 T2]. split; [exact T1|]. inversion_clear T2 as [|? ? T3 T4]. exact T3.
Defined.
