(* ===== verification/MemSpec.v ===== *)
(** * Ranges of memory and what they hold

    Shared by the components that work on the memory of [Clib]: a range that holds
    given bytes, the checks that evaluate on concrete memories, comparisons and
    copies whose ranges may overlap. *)
From stdpp Require Import gmap.
From S2P Require Import Prelude Interfaces Clib ClibSpec CString CStringSpec.
#[local] Open Scope Z_scope.

(** The characters [l] stand at [a]. *)
Definition holds (m : mem) (a : Z) (l : list Z) : Prop := forall i c, l !! i = Some c -> m !! (a + Z.of_nat i) = Some c.

Lemma holds_nil m a : holds m a [].
Proof. intros i c H. done. Qed.
Lemma holds_app m a l1 l2 : holds m a (l1 ++ l2) <-> holds m a l1 /\ holds m (a + len l1) l2.
Proof.
  split.
  - intros H. split; intros i c E; [by apply H, lookup_app_l_Some|].
    replace (a + len l1 + Z.of_nat i) with (a + Z.of_nat (length l1 + i)) by lia. apply H. rewrite lookup_app_r by lia. rewrite <- E. f_equal. lia.
  - intros [H1 H2] i c [E|[? E]]%lookup_app_Some; [by apply H1|].
    replace (a + Z.of_nat i) with (a + len l1 + Z.of_nat (i - length l1)) by lia. by apply H2.
Qed.
Lemma holds_cons m a c l : holds m a (c :: l) <-> m !! a = Some c /\ holds m (a + 1) l.
Proof.
  change (c :: l) with ([c] ++ l). rewrite holds_app. change (len [c]) with 1. split; intros [H1 H2]; (split; [|done]).
  - specialize (H1 0%nat c eq_refl). by rewrite Z.add_0_r in H1.
  - intros [|[|?]] x E; cbn in E; simplify_eq. by rewrite Z.add_0_r.
Qed.
Lemma holds_elsewhere m a l x v : holds m a l -> x < a \/ a + len l <= x -> holds (<[x := v]> m) a l.
Proof. intros H Hx i c E. pose proof (lookup_lt_Some _ _ _ E). rewrite lookup_insert_ne by lia. by apply H. Qed.
Lemma holds_snoc m a l c : holds m a l -> holds (<[a + len l := c]> m) a (l ++ [c]).
Proof.
  intros H. apply holds_app. split; [apply holds_elsewhere; [done|lia]|]. apply holds_cons. split; [apply lookup_insert_eq|apply holds_nil].
Qed.
Lemma written_holds m m' a l : written m m' a l -> holds m' a l.
Proof. intros H i c E. pose proof (lookup_lt_Some _ _ _ E). rewrite H. destruct (decide _); [|lia]. by replace (Z.to_nat _) with i by lia. Qed.
Lemma holds_cstr m a l : Forall (fun c => 0 < c < 256) l -> holds m a (l ++ [0]) -> cstr m a l.
Proof.
  intros Hl. revert a. induction Hl as [|c l Hc _ IH]; intros a [H1 H2]%holds_cons; [done|]. split; [done|]. split; [done|by apply IH].
Qed.
Lemma cstr_holds m a l : cstr m a l -> holds m a (l ++ [0]).
Proof. revert a. induction l as [|c l IH]; intros a H; apply holds_cons; [split; [done|apply holds_nil]|]. destruct H as (H1 & _ & H). split; [done|by apply IH]. Qed.
Lemma holds_ext m m' a l : (forall x, a <= x < a + len l -> m' !! x = m !! x) -> holds m a l -> holds m' a l.
Proof. intros E H i c Hi. pose proof (lookup_lt_Some _ _ _ Hi). rewrite E by lia. by apply H. Qed.

Fixpoint holds_b (m : mem) (a : Z) (l : list Z) : bool :=
  match l with [] => true | c :: l => bool_decide (m !! a = Some c) && holds_b m (a + 1) l end.
Lemma holds_check m a l : holds_b m a l = true -> holds m a l.
Proof. revert a. induction l as [|c l IH]; intros a H; [apply holds_nil|]. apply andb_true_iff in H as [H1 H2]. apply holds_cons. split; [by apply bool_decide_eq_true_1 in H1|by apply IH]. Qed.
Lemma cstr_check m a l : holds_b m a (l ++ [0]) && forallb (fun c => (0 <? c) && (c <? 256)) l = true -> cstr m a l.
Proof.
  intros [H1 H2]%andb_true_iff. apply holds_cstr; [|by apply holds_check]. apply Forall_forall. intros c Hc. rewrite forallb_forall in H2.
  specialize (H2 c (proj1 (list_elem_of_In _ _) Hc)). lia.
Qed.

Fixpoint mapped_b (m : mem) (a : Z) (n : nat) : bool :=
  match n with O => true | S n => match m !! a with Some _ => mapped_b m (a + 1) n | None => false end end.
Lemma mapped_check m a n : mapped_b m a (Z.to_nat n) = true -> mapped m a n.
Proof.
  intros H x Hx. assert (Hg : forall k a, mapped_b m a k = true -> forall x, a <= x < a + Z.of_nat k -> is_Some (m !! x)).
  { clear. induction k as [|k IH]; intros a H x Hx; [lia|]. cbn [mapped_b] in H. destruct (m !! a) eqn:E; [|done].
    destruct (decide (x = a)) as [->|]; [by eexists|]. apply (IH (a + 1)); [done|lia]. }
  apply (Hg _ _ H). lia.
Qed.

Lemma load_holds m a l i c : holds m a l -> l !! i = Some c -> load (a + Z.of_nat i) m = (Ret c, m).
Proof. intros H E. by apply load_run, H. Qed.

(** Comparing two runs of the same length. *)
Lemma memcmp_run l1 : forall l2 m p1 p2, length l1 = length l2 -> holds m p1 l1 -> holds m p2 l2 ->
  exists d, memcmp_loop (length l1) p1 p2 m = (Ret d, m) /\ (d = 0 <-> l1 = l2).
Proof.
  induction l1 as [|c1 l1 IH]; intros [|c2 l2] m p1 p2 Hl H1 H2; try done; [by exists 0|].
  apply holds_cons in H1 as [E1 H1]. apply holds_cons in H2 as [E2 H2]. cbn [List.length memcmp_loop].
  rewrite (bind_run _ _ _ _ _ (load_run _ _ _ E1)), (bind_run _ _ _ _ _ (load_run _ _ _ E2)). cbv zeta.
  destruct (Z.eqb_spec (c1 - c2) 0) as [Hd|Hd]; cbn [negb].
  - destruct (IH l2 m (p1 + 1) (p2 + 1) ltac:(by injection Hl) H1 H2) as (d & -> & Hi). exists d. split; [done|]. rewrite Hi.
    assert (c1 = c2) as -> by lia. split; [by intros ->|by intros [= ->]].
  - exists (c1 - c2). split; [done|]. split; [lia|]. intros [= -> ->]. lia.
Qed.

Lemma bind_nested {S A B C} (c : M S A) (k : A -> M S B) (K : B -> M S C) s b s' :
  bind c k s = (Ret b, s') -> bind c (fun x => bind (k x) K) s = K b s'.
Proof. unfold bind. destruct (c s) as [[] ?]; try done. by intros ->. Qed.


(** ** Copies that may overlap *)

Lemma overwritten_refl m d n : overwritten m m d n.
Proof. split; [by intros ?|done]. Qed.
Lemma overwritten_trans m1 m2 m3 d n : overwritten m1 m2 d n -> overwritten m2 m3 d n -> overwritten m1 m3 d n.
Proof. intros [E1 O1] [E2 O2]. split; [intros x Hx; by apply E2, E1|]. intros x Hx. by rewrite O2, O1. Qed.
Lemma overwritten_wider m m' d n d' n' : overwritten m m' d n -> d' <= d -> d + n <= d' + n' -> overwritten m m' d' n'.
Proof. intros [E O] H1 H2. split; [done|]. intros x Hx. apply O. lia. Qed.
Lemma overwritten_mapped m m' d n a k : overwritten m m' d n -> mapped m a k -> mapped m' a k.
Proof. intros [E _]. by apply mapped_extent. Qed.
Lemma overwritten_holds m m' d n a l : overwritten m m' d n -> a + len l <= d \/ d + n <= a -> holds m a l -> holds m' a l.
Proof. intros [_ O] Ha. apply holds_ext. intros x Hx. apply O. lia. Qed.
Lemma holds_mapped m a l : holds m a l -> mapped m a (len l).
Proof. intros H x Hx. destruct (lookup_lt_is_Some_2 l (Z.to_nat (x - a))) as [c Hc]; [lia|]. apply H in Hc. replace (a + _) with x in Hc by lia. by eexists. Qed.
Lemma moved_overwritten m m' d s n : mapped m s n -> moved m m' d s n -> overwritten m m' d n.
Proof. intros Hs Hm. split; [by eapply moved_extent|]. intros x Hx. rewrite Hm. by destruct (decide _). Qed.
Lemma insert_overwritten m x v : overwritten m (<[x := v]> m) x 1.
Proof.
  split; [|intros y Hy; apply lookup_insert_ne; lia]. intros y Hy. destruct (decide (x = y)) as [->|]; [rewrite lookup_insert_eq; by eexists|].
  by rewrite lookup_insert_ne.
Qed.

(** A part of a range. *)
Lemma load_bytes_holds m a b : holds m a b -> load_bytes (length b) a m = (Ret b, m).
Proof using.
  revert a. induction b as [|c b IH]; intros a H; [done|]. apply holds_cons in H as [H1 H]. cbn [length load_bytes].
  rewrite (bind_run _ _ _ _ _ (load_run _ _ _ H1)). by rewrite (bind_run _ _ _ _ _ (IH _ H)).
Qed.

Lemma holds_slice m a l o n : holds m a l -> holds m (a + Z.of_nat o) (slice l o n).
Proof.
  intros H i c E. rewrite lookup_slice in E. destruct (decide (i < n)%nat); [|done]. apply H in E. rewrite <- E. f_equal. lia.
Qed.

Lemma load_slice m a l o n : holds m a l -> (o + n <= length l)%nat -> load_bytes n (a + Z.of_nat o) m = (Ret (slice l o n), m).
Proof.
  intros H Hn. pose proof (load_bytes_holds _ _ _ (holds_slice m a l o n H)) as E. rewrite length_slice in E. by rewrite Nat.min_l in E by lia.
Qed.

Lemma ldn_slice n l o : ldn n (slice l o n) 0 = ldn n l o.
Proof.
  enough (G : forall k j, (j + k <= n)%nat -> ldn k (slice l o n) j = ldn k l (o + j)) by (rewrite G by lia; by rewrite Nat.add_0_r).
  induction k as [|k IH]; intros j Hj; [done|]. cbn [ldn]. rewrite IH by lia. rewrite Nat.add_succ_r. f_equal.
  unfold ld8. rewrite lookup_slice. by destruct (decide _); [|lia].
Qed.

Lemma ldn_within n k l : forall o, (o + k <= n)%nat -> ldn k (take n l) o = ldn k l o.
Proof.
  induction k as [|k IH]; intros o H; [done|]. cbn [ldn]. rewrite IH by lia. f_equal.
  unfold ld8. by rewrite lookup_take_lt by lia.
Qed.

Lemma written_blit m m1 m2 d l o k : written m m1 d l -> written m1 m2 (d + Z.of_nat o) k -> (o + length k <= length l)%nat ->
  written m m2 d (blit l o k).
Proof.
  intros H1 H2 Ho x. rewrite H2. pose proof (length_blit l o k Ho) as El. rewrite El.
  destruct (decide (d + Z.of_nat o <= x < d + Z.of_nat o + len k)) as [Hi|Hi].
  - rewrite decide_True by lia. unfold blit. rewrite lookup_app_r by (rewrite length_take; lia). rewrite length_take, Nat.min_l by lia.
    rewrite lookup_app_l by lia. f_equal. lia.
  - rewrite H1. destruct (decide _); [|done]. unfold blit. destruct (decide (x < d + Z.of_nat o)).
    + rewrite lookup_app_l by (rewrite length_take; lia). by rewrite lookup_take_lt by lia.
    + rewrite lookup_app_r by (rewrite length_take; lia). rewrite length_take, Nat.min_l by lia. rewrite lookup_app_r by lia. rewrite lookup_drop. f_equal. lia.
Qed.

Lemma written_overwritten m m' a l : written m m' a l -> overwritten m m' a (len l).
Proof. intros H. split; [by eapply written_extent|]. intros x Hx. rewrite H. by destruct (decide _). Qed.

(** ** Concrete memories

    A memory put together from ranges; what it holds follows from where they are,
    without looking at a byte. *)

Lemma text_memory_lookup l : forall a x, text_memory a l !! x = if decide (a <= x < a + len l) then l !! Z.to_nat (x - a) else None.
Proof.
  induction l as [|c l IH]; intros a x; [destruct (decide _); [cbn [List.length] in *; lia|apply lookup_empty]|].
  assert (E : text_memory a (c :: l) = <[a := c]> (text_memory (a + 1) l)).
  { unfold text_memory. rewrite imap_cons, list_to_map_cons, Z.add_0_r. f_equal. f_equal. apply imap_ext. intros i d _. cbn. f_equal. lia. }
  rewrite E. destruct (decide (x = a)) as [->|Hx].
  - rewrite lookup_insert_eq. rewrite decide_True by (cbn [List.length]; lia). by rewrite Z.sub_diag.
  - rewrite lookup_insert_ne by done. rewrite IH. cbn [List.length]. destruct (decide _), (decide _); try lia; [|done].
    by replace (Z.to_nat (x - a)) with (S (Z.to_nat (x - (a + 1)))) by lia.
Qed.

Definition range : Type := Z * list Z.
Definition ranges_memory (rs : list range) : mem := foldr (fun r m => text_memory (fst r) (snd r) ∪ m) ∅ rs.
Definition outside (x : Z) (r : range) : Prop := x < fst r \/ fst r + len (snd r) <= x.
Definition apart_b (r1 r2 : range) : bool := (fst r1 + len (snd r1) <=? fst r2) || (fst r2 + len (snd r2) <=? fst r1).
Fixpoint disjoint_b (rs : list range) : bool :=
  match rs with [] => true | r :: rs => forallb (apart_b r) rs && disjoint_b rs end.

Lemma ranges_outside x rs : Forall (outside x) rs -> ranges_memory rs !! x = None.
Proof.
  induction 1 as [|[a l] rs Hr _ IH]; [apply lookup_empty|]. cbn [ranges_memory foldr fst snd]. unfold outside in Hr. cbn in Hr.
  rewrite lookup_union_r; [exact IH|]. rewrite text_memory_lookup. by rewrite decide_False by lia.
Qed.

Lemma ranges_none x rs : forallb (fun r => (x <? fst r) || (fst r + len (snd r) <=? x)) rs = true -> ranges_memory rs !! x = None.
Proof.
  intros H. apply ranges_outside, Forall_forall. intros r Hr. rewrite forallb_forall in H. apply list_elem_of_In, H in Hr. unfold outside. lia.
Qed.

Lemma ranges_hold rs a l : disjoint_b rs = true -> (a, l) ∈ rs -> holds (ranges_memory rs) a l.
Proof.
  intros Hd Hin. induction rs as [|[b k] rs IH]; [by apply not_elem_of_nil in Hin|]. cbn [disjoint_b] in Hd. apply andb_prop in Hd as [Ha Hd].
  intros i c E. pose proof (lookup_lt_Some _ _ _ E) as Hi. cbn [ranges_memory foldr fst snd]. apply elem_of_cons in Hin as [[= -> ->]|Hin].
  - apply lookup_union_Some_l. rewrite text_memory_lookup, decide_True by lia. by replace (Z.to_nat (b + Z.of_nat i - b)) with i by lia.
  - rewrite lookup_union_r; [by apply IH|]. rewrite text_memory_lookup. rewrite forallb_forall in Ha. apply list_elem_of_In, Ha in Hin. unfold apart_b in Hin. cbn in Hin.
    rewrite decide_False; [done|]. lia.
Qed.

Lemma ranges_hold_prefix rs a l r : disjoint_b rs = true -> (a, l ++ r) ∈ rs -> holds (ranges_memory rs) a l.
Proof. intros Hd Hin. apply (ranges_hold _ _ _ Hd), holds_app in Hin. apply Hin. Qed.

Lemma ranges_cstr rs a l : disjoint_b rs = true -> (a, l ++ [0]) ∈ rs -> forallb (fun c => (0 <? c) && (c <? 256)) l = true ->
  cstr (ranges_memory rs) a l.
Proof.
  intros Hd Hin Hl. apply holds_cstr; [|by apply ranges_hold]. apply Forall_forall. intros c Hc. rewrite forallb_forall in Hl. apply list_elem_of_In, Hl in Hc. lia.
Qed.

Lemma ranges_mapped rs a n : existsb (fun r => (fst r <=? a) && (a + n <=? fst r + len (snd r))) rs = true -> mapped (ranges_memory rs) a n.
Proof.
  intros H x Hx. induction rs as [|[b k] rs IH]; [done|]. cbn [existsb fst snd] in H. cbn [ranges_memory foldr fst snd].
  apply lookup_union_is_Some. apply orb_prop in H as [H|H]; [left|right; by apply IH].
  rewrite text_memory_lookup, decide_True by lia. apply lookup_lt_is_Some_2. lia.
Qed.

Lemma ranges_bytes rs : Forall (fun r => bytes (snd r)) rs -> forall x v, ranges_memory rs !! x = Some v -> is_byte v.
Proof.
  induction 1 as [|[a l] rs Hr _ IH]; intros x v E; [discriminate|]. cbn [ranges_memory foldr fst snd] in E.
  apply lookup_union_Some_raw in E as [E|[_ E]]; [|by eapply IH]. rewrite text_memory_lookup in E. destruct (decide _); [|done].
  by eapply Forall_lookup_1 in E.
Qed.

(** A range of a concrete memory. *)
Ltac in_ranges := repeat (apply elem_of_cons; first [left; reflexivity|right]).

(** ** Computations that write in one range only *)

Definition byte_memory (m : mem) : Prop := forall x v, m !! x = Some v -> is_byte v.

Lemma byte_memory_check (m : mem) : forallb (fun p => (0 <=? snd p) && (snd p <? 256)) (map_to_list m) = true -> byte_memory m.
Proof.
  intros H x v Hx. rewrite forallb_forall in H. apply elem_of_map_to_list, list_elem_of_In, H in Hx. cbn in Hx. unfold is_byte. lia.
Qed.

Section Contained.
(** [D]: what is mapped.  [U]: what is known when an access fails.  [E]: whether there
    may be an error code.  Writes stay in [lo, hi). *)
Variables (D : Z -> Prop) (U E : Prop) (lo hi : Z).

Definition good (m : mem) : Prop := (forall x, is_Some (m !! x) <-> D x) /\ byte_memory m.

Lemma good_written m m' a l : good m -> (forall x, a <= x < a + len l -> D x) -> bytes l -> written m m' a l -> good m'.
Proof using.
  intros [Hd Hb] Ha Hl W. split.
  - intros x. rewrite W. destruct (decide _) as [Hx|]; [|done]. split; [intros _; by apply Ha|intros _; apply lookup_lt_is_Some_2; lia].
  - intros x v Ex. rewrite W in Ex. destruct (decide _); [by eapply Forall_lookup_1 in Hl|by eapply Hb].
Qed.

Definition contained {A} (Q : A -> Prop) (c : M mem A) : Prop := forall m, good m ->
  good (snd (c m)) /\ (forall x, ~ lo <= x < hi -> snd (c m) !! x = m !! x) /\
  match fst (c m) with Ret a => Q a | Undef => U | Err _ => E | _ => False end.

Lemma contained_ret {A} (Q : A -> Prop) a : Q a -> contained Q (ret a).
Proof. by intros H m G. Qed.

Lemma contained_err {A} (Q : A -> Prop) e : E -> contained Q (err e).
Proof. by intros H m G. Qed.

Lemma contained_bind {A B} (Q : A -> Prop) (R : B -> Prop) (c : M mem A) (k : A -> M mem B) :
  contained Q c -> (forall a, Q a -> contained R (k a)) -> contained R (bind c k).
Proof.
  intros Hc Hk m G. destruct (Hc m G) as (G1 & O1 & H1). unfold bind. destruct (c m) as [[a| | | |] m1]; cbn in *; try done.
  destruct (Hk a H1 m1 G1) as (G2 & O2 & H2). split; [done|]. split; [|done]. intros x Hx. by rewrite O2, O1.
Qed.

Lemma contained_weaken {A} (Q R : A -> Prop) (c : M mem A) : contained Q c -> (forall a, Q a -> R a) -> contained R c.
Proof. intros Hc HQ m G. destruct (Hc m G) as (? & ? & H). split; [done|]. split; [done|]. destruct (fst (c m)); by auto. Qed.

Lemma contained_fail_if b e : E -> contained (fun _ => b = false) (fail_if b e).
Proof. intros HE. destruct b; [by apply contained_err|by apply contained_ret]. Qed.

Definition reads (a n : Z) : Prop := forall x, a <= x < a + n -> ~ D x -> U.
Definition writes (a n : Z) : Prop := n <= 0 \/ lo <= a /\ a + n <= hi /\ reads a n.

Lemma reads_sub a n b k : reads a n -> a <= b -> b + k <= a + n -> reads b k.
Proof. intros H ?? x Hx. apply H. lia. Qed.
Lemma writes_sub a n b k : writes a n -> a <= b -> b + k <= a + n -> writes b k.
Proof. intros [H|(H1 & H2 & H3)] ??; [left; lia|]. destruct (decide (k <= 0)); [by left|]. right. split; [lia|]. split; [lia|]. by eapply reads_sub. Qed.
Lemma writes_reads a n : writes a n -> reads a n.
Proof. intros [H|(_ & _ & H)]; [intros x ?; lia|done]. Qed.

Lemma contained_load a : reads a 1 -> contained is_byte (load a).
Proof.
  intros HU m G. unfold load. destruct (m !! a) as [v|] eqn:Ev; cbn; (split; [done|]); (split; [done|]); [by eapply G|].
  apply (HU a); [lia|]. intros [w Hw]%G. congruence.
Qed.

Lemma contained_store a v : writes a 1 -> is_byte v -> contained (fun _ => True) (store a v).
Proof.
  intros [?|(? & ? & HU)] Hv m G; [lia|]. unfold store. destruct (m !! a) as [w|] eqn:Ev; cbn; [|split; [done|]; split; [done|]; apply (HU a); [lia|]; intros [? ?]%G; congruence].
  split; [|split; [|done]].
  - split; intros x; [|intros u]; destruct (decide (a = x)) as [->|].
    + rewrite lookup_insert_eq. split; [intros _; apply G; by rewrite Ev|by eexists].
    + rewrite lookup_insert_ne by done. apply G.
    + rewrite lookup_insert_eq. by intros [= <-].
    + rewrite lookup_insert_ne by done. apply G.
  - intros x Hx. apply lookup_insert_ne. lia.
Qed.

Lemma contained_load_bytes n : forall a, reads a (Z.of_nat n) -> contained (fun l => length l = n /\ bytes l) (load_bytes n a).
Proof.
  induction n as [|n IH]; intros a H; [apply contained_ret; split; [done|constructor]|]. cbn [load_bytes].
  apply (contained_bind is_byte); [apply contained_load; eapply reads_sub; [exact H|lia|lia]|]. intros v Hv.
  eapply contained_bind; [apply IH; eapply reads_sub; [exact H|lia|lia]|]. intros l [Hl Hb]. apply contained_ret. split; [cbn; lia|by constructor].
Qed.

Lemma contained_store_bytes l : forall a, writes a (len l) -> bytes l -> contained (fun _ => True) (store_bytes a l).
Proof.
  induction l as [|v l IH]; intros a H Hb; [by apply contained_ret|]. apply Forall_cons in Hb as [Hv Hb]. cbn [store_bytes length] in *.
  eapply contained_bind; [apply contained_store; [eapply writes_sub; [exact H|lia|lia]|done]|]. intros _ _. apply IH; [eapply writes_sub; [exact H|lia|lia]|done].
Qed.

Lemma contained_copy_bytes n : forall d s, writes d (Z.of_nat n) -> reads s (Z.of_nat n) -> contained (fun _ => True) (copy_bytes n d s).
Proof.
  induction n as [|n IH]; intros d s Hd Hs; [by apply contained_ret|]. cbn [copy_bytes].
  apply (contained_bind is_byte); [apply contained_load; eapply reads_sub; [exact Hs|lia|lia]|]. intros v Hv.
  eapply contained_bind; [apply contained_store; [eapply writes_sub; [exact Hd|lia|lia]|done]|]. intros _ _.
  apply IH; [eapply writes_sub; [exact Hd|lia|lia]|eapply reads_sub; [exact Hs|lia|lia]].
Qed.

Lemma contained_copy_words n : forall d s, d mod 8 = 0 -> s mod 8 = 0 -> writes d (8 * Z.of_nat n) -> reads s (8 * Z.of_nat n) ->
  contained (fun _ => True) (copy_words n d s).
Proof.
  induction n as [|n IH]; intros d s Ad As Hd Hs; [by apply contained_ret|]. cbn [copy_words]. unfold load_word, store_word. rewrite !land_lmask, Ad, As. change (0 =? 0) with true. change lsize with 8.
  eapply contained_bind; [apply (contained_load_bytes 8); eapply reads_sub; [exact Hs|lia|lia]|]. intros w [Hw Hb].
  eapply contained_bind; [apply contained_store_bytes; [rewrite Hw; eapply writes_sub; [exact Hd|lia|lia]|done]|]. intros _ _.
  apply IH; [Z.div_mod_to_equations; lia|Z.div_mod_to_equations; lia|eapply writes_sub; [exact Hd|lia|lia]|eapply reads_sub; [exact Hs|lia|lia]].
Qed.
(** Downwards; [d] and [s] are behind the ranges. *)
Lemma contained_rcopy_bytes n : forall d s, writes (d - Z.of_nat n) (Z.of_nat n) -> reads (s - Z.of_nat n) (Z.of_nat n) ->
  contained (fun _ => True) (rcopy_bytes n d s).
Proof.
  induction n as [|n IH]; intros d s Hd Hs; [by apply contained_ret|]. cbn [rcopy_bytes].
  apply (contained_bind is_byte); [apply contained_load; eapply reads_sub; [exact Hs|lia|lia]|]. intros v Hv.
  eapply contained_bind; [apply contained_store; [eapply writes_sub; [exact Hd|lia|lia]|done]|]. intros _ _.
  apply IH; [eapply writes_sub; [exact Hd|lia|lia]|eapply reads_sub; [exact Hs|lia|lia]].
Qed.

Lemma contained_rcopy_words n : forall d s, d mod 8 = 0 -> s mod 8 = 0 -> writes (d - 8 * Z.of_nat n) (8 * Z.of_nat n) ->
  reads (s - 8 * Z.of_nat n) (8 * Z.of_nat n) -> contained (fun _ => True) (rcopy_words n d s).
Proof.
  induction n as [|n IH]; intros d s Ad As Hd Hs; [by apply contained_ret|]. cbn [rcopy_words]. unfold load_word, store_word. change lsize with 8.
  assert (Ad' : (d - 8) mod 8 = 0) by (Z.div_mod_to_equations; lia). assert (As' : (s - 8) mod 8 = 0) by (Z.div_mod_to_equations; lia).
  rewrite !land_lmask, Ad', As'. change (0 =? 0) with true.
  eapply contained_bind; [apply (contained_load_bytes 8); eapply reads_sub; [exact Hs|lia|lia]|]. intros w [Hw Hb].
  eapply contained_bind; [apply contained_store_bytes; [rewrite Hw; eapply writes_sub; [exact Hd|lia|lia]|done]|]. intros _ _.
  apply IH; [done|done|eapply writes_sub; [exact Hd|lia|lia]|eapply reads_sub; [exact Hs|lia|lia]].
Qed.
End Contained.

Lemma contained_wider {A} D U E lo hi lo' hi' (Q : A -> Prop) c : lo' <= lo -> hi <= hi' ->
  contained D U E lo hi Q c -> contained D U E lo' hi' Q c.
Proof. intros ?? Hc m G. destruct (Hc m G) as (? & O & ?). split; [done|]. split; [|done]. intros x Hx. apply O. lia. Qed.

(** What any engine does, whatever the ranges: it writes only the destination, and
    only what was in memory, and fails only where a range is not mapped. *)
Definition engine_contained (f : Z -> Z -> Z -> M mem Z) : Prop :=
  forall D U E lo hi d s n, writes D U lo hi d n -> reads D U s n -> contained D U E lo hi (fun _ => True) (f d s n).

Section Memcpy.
Variables (D : Z -> Prop) (U E : Prop) (lo hi : Z) (dma : tegrabl_clib_dma).
Hypothesis Law : forall f, memcpy_callback dma = Some f -> engine_contained f.

Lemma contained_memcpy d s n : 0 <= n -> writes D U lo hi d n -> reads D U s n -> contained D U E lo hi (fun _ => True) (memcpy dma d s n).
Proof using Law.
  intros Hn Hd Hs. unfold memcpy. destruct ((n =? 0) || (d =? s)); [by apply contained_ret|]. destruct ((s =? 0) || (d =? 0)); [by apply contained_ret|].
  destruct (head_bytes_split d s n Hn) as [Hl Al]. set (k := head_bytes d s n) in *. cbn zeta.
  set (w := (n - k) / lsize). set (t := Z.land (n - k) lmask).
  assert (Hk : 0 <= w /\ 0 <= t < 8 /\ n = k + (w * 8 + t)) by (unfold w, t; rewrite land_lmask; change lsize with 8; Z.div_mod_to_equations; lia).
  eapply contained_bind; [apply contained_copy_bytes; rewrite Z2Nat.id by lia; [eapply writes_sub; [exact Hd|lia|lia]|eapply reads_sub; [exact Hs|lia|lia]]|]. intros _ _.
  change lsize with 8. apply (contained_bind _ _ _ _ _ (fun _ => True)).
  { unfold offer. destruct (memcpy_callback dma) as [f|] eqn:Ef; [|by apply contained_ret]. destruct (_ <=? _); [|by apply contained_ret].
    apply (Law f eq_refl); [eapply writes_sub; [exact Hd|lia|lia]|eapply reads_sub; [exact Hs|lia|lia]]. }
  intros r _. apply (contained_bind _ _ _ _ _ (fun _ => True)).
  { unfold when. destruct (truthy r); [|by apply contained_ret]. destruct (decide (w = 0)) as [->|]; [by apply contained_ret|].
    apply contained_copy_words; [lia|lia|rewrite Z2Nat.id by lia; eapply writes_sub; [exact Hd|lia|lia]|rewrite Z2Nat.id by lia; eapply reads_sub; [exact Hs|lia|lia]]. }
  intros _ _. eapply contained_bind; [apply contained_copy_bytes; rewrite Z2Nat.id by lia; [eapply writes_sub; [exact Hd|lia|lia]|eapply reads_sub; [exact Hs|lia|lia]]|].
  intros _ _. by apply contained_ret.
Qed.
Lemma contained_rmemcpy d s n : 0 <= n < 2 ^ 32 -> writes D U lo hi d n -> reads D U s n -> contained D U E lo hi (fun _ => True) (rmemcpy d s n).
Proof using.
  intros Hn Hd Hs. unfold rmemcpy. destruct ((n =? 0) || (d =? s)); [by apply contained_ret|]. destruct ((s =? 0) || (d =? 0)); [by apply contained_ret|].
  destruct (tail_bytes_split (d + n) (s + n) n) as [Hl Al]; [lia|]. set (k := tail_bytes _ _ n) in *. cbn zeta.
  set (t := Z.land (n - k) lmask).
  assert (Hk : exists w, u32 ((n - k) / lsize) = w /\ 0 <= w /\ 0 <= t < 8 /\ n = k + (w * 8 + t)).
  { exists ((n - k) / 8). unfold t. rewrite land_lmask. change lsize with 8.
    split; [apply wrapw_small; unfold in_word|]; Z.div_mod_to_equations; lia. }
  destruct Hk as (w & -> & Hk). change lsize with 8.
  eapply contained_bind; [apply contained_rcopy_bytes; rewrite Z2Nat.id by lia; [eapply writes_sub; [exact Hd|lia|lia]|eapply reads_sub; [exact Hs|lia|lia]]|]. intros _ _.
  apply (contained_bind _ _ _ _ _ (fun _ => True)).
  { destruct (decide (w = 0)) as [->|]; [by apply contained_ret|].
    apply contained_rcopy_words; [lia|lia|rewrite Z2Nat.id by lia; eapply writes_sub; [exact Hd|lia|lia]|rewrite Z2Nat.id by lia; eapply reads_sub; [exact Hs|lia|lia]]. }
  intros _ _. eapply contained_bind; [apply contained_rcopy_bytes; rewrite Z2Nat.id by lia; [eapply writes_sub; [exact Hd|lia|lia]|eapply reads_sub; [exact Hs|lia|lia]]|].
  intros _ _. by apply contained_ret.
Qed.

Lemma contained_memmove d s n : 0 <= n < 2 ^ 32 -> writes D U lo hi d n -> reads D U s n -> contained D U E lo hi (fun _ => True) (memmove dma d s n).
Proof using Law.
  intros Hn Hd Hs. unfold memmove. destruct (_ || _); [by apply contained_ret|]. destruct (_ =? _); [by apply contained_ret|].
  destruct (_ || _); [apply contained_memcpy; (done || lia)|by apply contained_rmemcpy].
Qed.
End Memcpy.

(** ** Computations on a state with a memory in it *)

Section Confined.
(** [I]: what is true of the rest of the state.  [D]: what is mapped.  [P]: where may
    be written.  [F]: whether the machine may stop or the fuel run out. *)
Context {S : Type} (memory : S -> mem) (I : S -> Prop).
Variables (D P : Z -> Prop) (F : Prop).

Definition confines {A} (Q : A -> Prop) (x : M S A) : Prop := forall s, good D (memory s) -> I s ->
  good D (memory (snd (x s))) /\ (forall y, ~ P y -> memory (snd (x s)) !! y = memory s !! y) /\ I (snd (x s)) /\
  match fst (x s) with Ret a => Q a | Undef | Err _ => True | _ => F end.

Lemma confines_ret {A} (Q : A -> Prop) a : Q a -> confines Q (ret a).
Proof using. by intros H s G HI. Qed.
Lemma confines_err {A} (Q : A -> Prop) e : confines Q (err e).
Proof using. by intros s G HI. Qed.
Lemma confines_undef {A} (Q : A -> Prop) : confines Q undef.
Proof using. by intros s G HI. Qed.
Lemma confines_nofuel {A} (Q : A -> Prop) : F -> confines Q nofuel.
Proof using. by intros HF s G HI. Qed.
Lemma confines_bind {A B} (Q : A -> Prop) (R : B -> Prop) x k : confines Q x -> (forall a, Q a -> confines R (k a)) -> confines R (bind x k).
Proof using.
  intros Hx Hk s G HI. destruct (Hx s G HI) as (G1 & O1 & I1 & H1). unfold bind. destruct (x s) as [[a| | | |] s1]; cbn in *; try done.
  destruct (Hk a H1 s1 G1 I1) as (G2 & O2 & I2 & H2). split; [done|]. split; [intros y Hy; by rewrite O2, O1|done].
Qed.
Lemma confines_weaken {A} (Q R : A -> Prop) x : confines Q x -> (forall a, Q a -> R a) -> confines R x.
Proof using. intros Hx HQ s G HI. destruct (Hx s G HI) as (? & ? & ? & H). do 3 (split; [done|]). destruct (fst (x s)); by auto. Qed.
Lemma confines_code {A} (Q : A -> Prop) x : confines Q x -> confines (fun r => match r with inl a => Q a | inr _ => True end) (code x).
Proof using. intros Hx s G HI. destruct (Hx s G HI) as (G1 & O1 & I1 & H1). unfold code. destruct (x s) as [[] s1]; cbn in *; done. Qed.
Lemma confines_map_err {A} (Q : A -> Prop) f x : confines Q x -> confines Q (map_err f x).
Proof using. intros Hx s G HI. destruct (Hx s G HI) as (G1 & O1 & I1 & H1). unfold map_err. destruct (x s) as [[] s1]; cbn in *; done. Qed.
Lemma confines_fail_if {B} b e (R : B -> Prop) k : (b = false -> confines R (k tt)) -> confines R (bind (fail_if b e) k).
Proof using. intros Hk. destruct b; [by intros s G HI|by apply Hk]. Qed.
Lemma confines_when (b : bool) (x : M S unit) : (b = true -> confines (fun _ => True) x) -> confines (fun _ => True) (when b x).
Proof using. intros Hx. destruct b; [by apply Hx|by apply confines_ret]. Qed.
Lemma confines_gets {A B} (f : S -> A) (R : B -> Prop) k : (forall s, I s -> confines R (k (f s))) -> confines R (bind (gets f) k).
Proof using. intros Hk s G HI. by apply (Hk s HI). Qed.
Lemma confines_modify f : (forall s, memory (f s) = memory s /\ (I s -> I (f s))) -> confines (fun _ => True) (modify f).
Proof using. intros Hf s G HI. destruct (Hf s) as [E HK]. cbn. rewrite E. by auto. Qed.
End Confined.
Arguments confines_ret {S memory I D P F A} Q a _.
Arguments confines_err {S memory I D P F A} Q e.
Arguments confines_undef {S memory I D P F A} Q.
Arguments confines_nofuel {S memory I D P F A} Q _.
Arguments confines_bind {S memory I D P F A B} Q R x k _ _.
Arguments confines_weaken {S memory I D P F A} Q R x _ _.
Arguments confines_code {S memory I D P F A} Q x _.
Arguments confines_map_err {S memory I D P F A} Q f x _.
Arguments confines_fail_if {S memory I D P F B} b e R k _.
Arguments confines_when {S memory I D P F} b x _.
Arguments confines_gets {S memory I D P F A B} f R k _.
Arguments confines_modify {S memory I D P F} f _.
