(* ===== verification/Printf.v ===== *)
(** * The C library: formatted output

    lib/clib/printf.c and [tegrabl_snprintf] of lib/debug, on the memory of [Clib].
    A format is the list of its characters in front of the terminator; an argument
    is a slot of 64 bits, an address when the conversion wants a string. *)
From Stdlib Require Import Ascii String.
From stdpp Require Import gmap.
From S2P Require Import Prelude Interfaces Clib CString.
#[local] Open Scope Z_scope.

(** The characters of a literal. *)
Definition chars (s : string) : list Z := map (fun c => Z.of_N (N_of_ascii c)) (list_ascii_of_string s).

(** ** Numbers *)

Definition digits : list Z := chars "0123456789abcdefghijklmnopqrstuvwxyz".

(** [do { x /= radix; len++; } while (x > 0ULL);]; a word has at most 64 digits. *)
Fixpoint count_digits (fuel : nat) (x radix : Z) : outcome Z :=
  match fuel with
  | O => Fuel
  | S fuel =>
      let x := x / radix in
      if 0 <? x then let? k := count_digits fuel x radix in Ret (k + 1) else Ret 1
  end.

Definition digit_at (i : Z) : outcome Z := match digits !! Z.to_nat i with Some c => Ret c | None => Undef end.

(** [len] digits are still to be written in front of [str + len]. *)
Fixpoint write_digits (len : nat) (str x radix : Z) : M mem unit :=
  match len with
  | O => ret tt
  | S len =>
      let! c := lift (digit_at (x mod radix)) in
      store (str + Z.of_nat len) c ;;;
      write_digits len str (x / radix) radix
  end.

Definition integer_to_string (n sign pad str size : Z) (alternate_form : bool) (radix padchar : Z) : M mem Z :=
  let! len := lift (count_digits 64 n radix) in
  let len := if sign <? 0 then len + 1 else len in
  let len := if alternate_form then if radix =? 8 then len + 1 else if radix =? 16 then len + 2 else len else len in
  let '(total, pad) := if pad <? len then (len, 0) else (pad, pad - len) in
  if size <? total then ret (- 1)
  else
    fill_bytes (Z.to_nat pad) str padchar ;;;
    let str := str + pad in
    let! (str, len) := if sign <? 0 then store str 45 ;;; ret (str + 1, len - 1) else ret (str, len) in
    let! (str, len) :=
      if alternate_form then
        if radix =? 8 then store str 48 ;;; ret (str + 1, len - 1)
        else if radix =? 16 then store str 48 ;;; store (str + 1) 120 ;;; ret (str + 2, len - 2)
        else ret (str, len)
      else ret (str, len) in
    write_digits (Z.to_nat len) str n radix ;;;
    ret (s32 total).

(** ** Conversions *)

(** What stands between a percent sign and the conversion. *)
Record directive := mk_directive {
  alternate_form : bool;
  zero_pad : bool;
  pad : Z;
  longint : Z;
  conversion : Z;
  rest : list Z;
}.

(** [*arg] *)
Definition cur (arg : list Z) : Z := default 0 (head arg).

Fixpoint parse_pad (arg : list Z) (pad : Z) : Z * list Z :=
  match arg with
  | c :: arg' => if (48 <=? c) && (c <=? 57) then parse_pad arg' (u32 (u32 (pad * 10) + (c - 48))) else (pad, arg)
  | [] => (pad, arg)
  end.

Definition parse_directive (f : list Z) : directive :=
  let arg := f in
  let '(alternate, arg) := if cur arg =? 35 then (true, tail arg) else (false, arg) in
  let '(zero, arg) := if cur arg =? 48 then (true, tail arg) else (false, arg) in
  let '(pad, arg) := parse_pad arg 0 in
  let '(alternate, long) := if cur arg =? 112 then (true, 1) else (alternate, 0) in
  let '(long, arg) := if cur arg =? 122 then (2, tail arg) else (long, arg) in
  let '(long, arg) :=
    if cur arg =? 108 then
      let arg := tail arg in
      if cur arg =? 108 then (2, tail arg) else (1, arg)
    else (long, arg) in
  mk_directive alternate zero pad long (cur arg) (tail arg).

(** [i d u o p x X] *)
Definition is_integer (c : Z) : bool := bool_decide (c ∈ chars "iduopxX").
Definition is_signed (c : Z) : bool := (c =? 105) || (c =? 100).
Definition base_of (c : Z) : Z := if is_signed c || (c =? 117) then 10 else if c =? 111 then 8 else 16.

(** The sign and the magnitude of an argument; [-tmp] of the least number is
    undefined. *)
Definition integer_arg (signed : bool) (long a : Z) : outcome (Z * Z) :=
  let w := if long =? 0 then 32 else 64 in
  let tmp := signedw w a in
  if signed && (tmp <? 0) then
    if tmp =? - 2 ^ (w - 1) then Undef else Ret (- 1, wrapw w (- tmp))
  else Ret (if signed then 1 else 0, wrapw w tmp).

(** The number of characters written, or -1 when nothing more fits, or -2 for an
    empty string; and the arguments left. *)
Definition convert (fuel : nat) (d : directive) (padchar out remaining : Z) (ap : list Z) : M mem (Z * list Z) :=
  let va_arg (k : Z -> M mem Z) : M mem (Z * list Z) :=
    match ap with
    | [] => undef
    | a :: ap => let! wrote := k a in ret (wrote, ap)
    end in
  let c := conversion d in
  if is_integer c then
    va_arg (fun a =>
      let! (sign, val) := lift (integer_arg (is_signed c) (longint d) a) in
      integer_to_string val sign (pad d) out remaining (alternate_form d) (base_of c) padchar)
  else if c =? 115 then
    va_arg (fun ptr =>
      let! len := strlen fuel ptr in
      if remaining <? len then ret (- 1)
      else
        let! _ := strcpy fuel out ptr in
        let wrote := s32 len in
        ret (if wrote =? 0 then - 2 else wrote))
  else if c =? 99 then va_arg (fun a => store out (u8 a) ;;; ret 1)
  else if c =? 37 then store out 37 ;;; ret (1, ap)
  else ret (- 1, ap).

(** ** The loop over the format *)

(** Where the output ends, and what remains of the buffer. *)
Fixpoint format_loop (n fuel : nat) (f : list Z) (out remaining padchar : Z) (ap : list Z) : M mem (Z * Z) :=
  match n with
  | O => nofuel
  | S n =>
      if 0 <? remaining then
        match f with
        | [] => ret (out, remaining)
        | c :: f =>
            if c =? 0 then ret (out, remaining)
            else if negb (c =? 37) then
              store out c ;;; format_loop n fuel f (out + 1) (u64 (remaining - 1)) padchar ap
            else
              let d := parse_directive f in
              let padchar := if zero_pad d then 48 else padchar in
              let! (wrote, ap) := convert fuel d padchar out remaining ap in
              let f := if (0 <=? wrote) || (wrote =? - 2) then rest d else f in
              if wrote =? - 1 then ret (out, remaining)
              else
                let wrote := if wrote =? - 2 then 0 else wrote in
                format_loop n fuel f (out + wrote) (u64 (remaining - u32 wrote)) padchar ap
        end
      else ret (out, remaining)
  end.

Definition tegrabl_vsnprintf (fuel : nat) (buf size : Z) (format ap : list Z) : M mem Z :=
  let! (out, remaining) := format_loop (S (List.length format)) fuel format buf (u64 (size - 1)) 32 ap in
  store out 0 ;;;
  ret (s32 (s32 size - 1 - s32 remaining)).

Definition tegrabl_snprintf (fuel : nat) (str size : Z) (format ap : list Z) : M mem Z :=
  tegrabl_vsnprintf fuel str size format ap.
