(* ===== verification/PrintfSpec.v ===== *)
(** * Formatted output: correctness

    A format is a sequence of pieces, each a character or the text of an argument;
    [tegrabl_vsnprintf] writes the pieces that fit, none of them in part, and
    numbers read back. *)
From Stdlib Require Import Ascii String.
From stdpp Require Import gmap.
From S2P Require Import Prelude Interfaces Utils Clib ClibSpec CString CStringSpec Printf.
#[local] Open Scope Z_scope.

(** ** Numerals *)

Definition digit (i : Z) : Z := default 0 (digits !! Z.to_nat i).

Fixpoint numeral (fuel : nat) (radix n : Z) : list Z :=
  match fuel with
  | O => []
  | S fuel => (if 0 <? n / radix then numeral fuel radix (n / radix) else []) ++ [digit (n mod radix)]
  end.
Definition number (radix n : Z) : list Z := numeral 64 radix n.

(** What [integer_to_string] makes of a number. *)
Definition number_text (n sign pad : Z) (alternate_form : bool) (radix padchar : Z) : list Z :=
  let body := (if sign <? 0 then [45] else []) ++
    (if alternate_form then if radix =? 8 then [48] else if radix =? 16 then [48; 120] else [] else []) ++ number radix n in
  replicate (Z.to_nat (pad - len body)) padchar ++ body.

Lemma digit_at_run i : 0 <= i < 36 -> digit_at i = Ret (digit i).
Proof. intros Hi. unfold digit_at, digit. destruct (lookup_lt_is_Some_2 digits (Z.to_nat i)) as [c ->]; [cbn; lia|done]. Qed.

Lemma written_snoc m m' d l v : written (<[d + len l := v]> m) m' d l -> written m m' d (l ++ [v]).
Proof.
  intros H x. rewrite H, length_app, lookup_app. cbn [List.length].
  destruct (decide (d <= x < d + len l)), (decide (d <= x < _)); try lia.
  - by destruct (lookup_lt_is_Some_2 l (Z.to_nat (x - d))) as [? ->]; [lia|].
  - assert (x = d + len l) as -> by lia. rewrite lookup_insert_eq, lookup_ge_None_2 by lia.
    by replace (Z.to_nat (d + len l - d) - length l)%nat with 0%nat by lia.
  - apply lookup_insert_ne. lia.
Qed.

Section Numeral.
Context (radix : Z) (Hradix : 2 <= radix <= 36).

Lemma count_digits_run fuel : forall n, 0 <= n < 2 ^ Z.of_nat fuel -> (0 < fuel)%nat ->
  count_digits fuel n radix = Ret (len (numeral fuel radix n)).
Proof using Hradix.
  induction fuel as [|fuel IH]; intros n Hn Hf; [lia|]. cbn [count_digits numeral]. destruct (Z.ltb_spec 0 (n / radix)) as [Hq|]; [|done].
  assert (n / radix < 2 ^ Z.of_nat fuel).
  { apply Z.div_lt_upper_bound; [lia|]. rewrite Nat2Z.inj_succ, Z.pow_succ_r in Hn by lia. nia. }
  rewrite IH; [cbn; f_equal; rewrite length_app; cbn; lia|lia|].
  destruct fuel; [change (2 ^ Z.of_nat 0) with 1 in *; lia|lia].
Qed.

Lemma write_digits_run fuel : forall n str m, 0 <= n -> mapped m str (len (numeral fuel radix n)) ->
  exists m', write_digits (length (numeral fuel radix n)) str n radix m = (Ret tt, m') /\ written m m' str (numeral fuel radix n).
Proof using Hradix.
  induction fuel as [|fuel IH]; intros n str m Hn Hm; [exists m; split; [done|apply written_nil]|].
  cbn [numeral] in *. set (l := if 0 <? n / radix then _ else _) in *. rewrite length_app in *. cbn [List.length] in *. rewrite Nat.add_1_r.
  cbn [write_digits]. pose proof (Z.mod_pos_bound n radix ltac:(lia)) as Hd. rewrite (bind_lift _ _ _ _ (digit_at_run (n mod radix) ltac:(lia))).
  rewrite (bind_run _ _ _ _ _ (store_run _ (str + Z.of_nat (length l)) _ ltac:(apply Hm; lia))).
  assert (Hq : 0 <= n / radix) by (apply Z.div_pos; lia).
  assert (exists m', write_digits (length l) str (n / radix) radix (<[str + len l := digit (n mod radix)]> m) = (Ret tt, m') /\
    written (<[str + len l := digit (n mod radix)]> m) m' str l) as (m' & E & W).
  { subst l. destruct (0 <? n / radix); [|eexists; split; [done|apply written_nil]].
    apply IH; [done|]. apply mapped_insert. eapply mapped_sub; [done|lia..]. }
  exists m'. split; [done|by apply written_snoc].
Qed.

Lemma numeral_length fuel n : (0 < fuel)%nat -> (0 < length (numeral fuel radix n))%nat.
Proof using. destruct fuel; [lia|]. intros _. cbn [numeral]. rewrite length_app. cbn. lia. Qed.
End Numeral.

Lemma written_one m d v : written m (<[d := v]> m) d [v].
Proof. apply written_cons, written_nil. Qed.

(** The optional parts in front of the digits; [k] is what is still to be written. *)
Lemma sign_run (sign str k : Z) m : mapped m str (if sign <? 0 then 1 else 0) ->
  let l := if sign <? 0 then [45] else [] in
  exists m', (if sign <? 0 then store str 45 ;;; ret (str + 1, k - 1) else ret (str, k)) m = (Ret (str + len l, k - len l), m') /\ written m m' str l.
Proof.
  destruct (sign <? 0); cbv zeta; intros Hm.
  - rewrite (bind_run _ _ _ _ _ (store_run _ str _ ltac:(apply Hm; lia))). eexists. split; [done|apply written_one].
  - exists m. rewrite Z.add_0_r, Z.sub_0_r. split; [done|apply written_nil].
Qed.

Lemma prefix_run (alternate_form : bool) (radix str k : Z) m :
  let l := if alternate_form then if radix =? 8 then [48] else if radix =? 16 then [48; 120] else [] else [] in
  mapped m str (len l) ->
  exists m', (if alternate_form then
      if radix =? 8 then store str 48 ;;; ret (str + 1, k - 1)
      else if radix =? 16 then store str 48 ;;; store (str + 1) 120 ;;; ret (str + 2, k - 2)
      else ret (str, k)
    else ret (str, k)) m = (Ret (str + len l, k - len l), m') /\ written m m' str l.
Proof.
  cbv zeta. intros Hm. assert (Hnone : exists m', (Ret (str, k), m) = (Ret (str + len (@nil Z), k - len (@nil Z)), m') /\ written m m' str []).
  { exists m. cbn. rewrite Z.add_0_r, Z.sub_0_r. split; [done|apply written_nil]. }
  destruct alternate_form; [|exact Hnone]. destruct (radix =? 8); [|destruct (radix =? 16); [|exact Hnone]]; cbn [List.length] in *.
  - rewrite (bind_run _ _ _ _ _ (store_run _ str _ ltac:(apply Hm; lia))). eexists. split; [done|apply written_one].
  - rewrite (bind_run _ _ _ _ _ (store_run _ str _ ltac:(apply Hm; lia))).
    rewrite (bind_run _ _ _ _ _ (store_run (<[str := 48]> m) (str + 1) 120 ltac:(apply (mapped_insert _ _ _ _ _ Hm); lia))).
    eexists. split; [done|]. apply written_cons, written_one.
Qed.

Lemma s32_small x : 0 <= x < 2 ^ 31 -> s32 x = x.
Proof.
  intros Hx. unfold signedw. rewrite (wrapw_small 32) by (unfold in_word; lia). cbv zeta.
  destruct (Z.ltb_spec x (2 ^ (32 - 1))); [done|lia].
Qed.

(** A number is written when it fits, with everything in front of it. *)
Lemma integer_to_string_run n sign pad str size alternate radix padchar m :
  0 <= n < 2 ^ 64 -> 2 <= radix <= 36 -> 0 <= pad -> 0 <= size < 2 ^ 31 -> mapped m str size ->
  let t := number_text n sign pad alternate radix padchar in
  if size <? len t then integer_to_string n sign pad str size alternate radix padchar m = (Ret (- 1), m)
  else exists m', integer_to_string n sign pad str size alternate radix padchar m = (Ret (len t), m') /\ written m m' str t.
Proof.
  intros Hn Hr Hp Hs Hm t. unfold integer_to_string. rewrite (bind_lift _ _ _ _ (count_digits_run _ Hr 64 n Hn ltac:(lia))).
  set (ls := if sign <? 0 then [45] else []) in *.
  set (lp := if alternate then if radix =? 8 then [48] else if radix =? 16 then [48; 120] else [] else []) in *.
  change (numeral 64 radix n) with (number radix n).
  match goal with |- context [if alternate then if radix =? 8 then ?a else ?b else ?c] =>
    replace (if alternate then if radix =? 8 then a else b else c) with (len (ls ++ lp ++ number radix n)) end; cycle 1.
  { subst ls lp. rewrite !length_app. destruct (sign <? 0), alternate; [destruct (radix =? 8); [|destruct (radix =? 16)]| |
      destruct (radix =? 8); [|destruct (radix =? 16)]|]; cbn [List.length]; lia. }
  set (body := ls ++ lp ++ number radix n) in *.
  assert (Ht : t = replicate (Z.to_nat (pad - len body)) padchar ++ body) by done. clearbody t. subst t.
  rewrite length_app, length_replicate.
  match goal with |- context [let '(_, _) := ?x in _] => replace x with (len body + Z.max 0 (pad - len body), Z.max 0 (pad - len body)) end; cycle 1.
  { destruct (Z.ltb_spec pad (len body)); f_equal; lia. }
  replace (Z.of_nat (Z.to_nat (pad - len body) + length body)) with (len body + Z.max 0 (pad - len body)) by lia.
  replace (Z.to_nat (pad - len body)) with (Z.to_nat (Z.max 0 (pad - len body))) by lia.
  set (p := Z.max 0 _) in *. destruct (Z.ltb_spec size (len body + p)) as [|Hfit]; [done|].
  destruct (fill_bytes_run (Z.to_nat p) m str padchar) as (m1 & E1 & W1%fill_written); [eapply mapped_sub; [done|lia..]|].
  rewrite (bind_run _ _ _ _ _ E1).
  assert (Hm1 : mapped m1 str size) by (eapply mapped_extent; [by eapply written_extent|done]).
  assert (Hls : len ls = if sign <? 0 then 1 else 0) by (subst ls; by destruct (sign <? 0)).
  unfold body in *. rewrite !length_app in *.
  destruct (sign_run sign (str + p) (len (ls ++ lp ++ number radix n)) m1) as (m2 & E2 & W2).
  { rewrite <- Hls. eapply mapped_sub; [done|lia..]. }
  rewrite !length_app in E2. rewrite (bind_run _ _ _ _ _ E2). fold ls in E2, W2 |- *. cbn beta iota.
  assert (Hm2 : mapped m2 str size) by (eapply mapped_extent; [by eapply written_extent|done]).
  match goal with |- context [if alternate then if radix =? 8 then _ ;;; ret (_, ?k - 1) else _ else _] =>
    destruct (prefix_run alternate radix (str + p + len ls) k m2) as (m3 & E3 & W3) end.
  { fold lp. eapply mapped_sub; [done|lia..]. }
  rewrite (bind_run _ _ _ _ _ E3). fold lp in E3, W3 |- *. cbn beta iota.
  assert (Hm3 : mapped m3 str size) by (eapply mapped_extent; [by eapply written_extent|done]).
  destruct (write_digits_run _ Hr 64 n (str + p + len ls + len lp) m3) as (m4 & E4 & W4); [lia|eapply mapped_sub; [done|change (numeral 64 radix n) with (number radix n); lia..]|].
  match goal with |- context [write_digits ?k] => replace k with (length (numeral 64 radix n)) end; cycle 1.
  { change (numeral 64 radix n) with (number radix n). lia. }
  rewrite (bind_run _ _ _ _ _ E4). exists m4. split.
  - unfold ret. do 2 f_equal. rewrite s32_small by lia. lia.
  - eapply written_app; [exact W1|]. rewrite length_replicate, Z2Nat.id by lia.
    eapply written_app; [exact W2|]. eapply written_app; [exact W3|exact W4].
Qed.

(** ** Formats *)

Section Formats.
Variables (m : mem) (lo hi : Z) (fuel : nat).

(** [formats f padchar ap ts]: the format [f] with the arguments [ap] is the pieces
    [ts]; strings lie outside of [lo..hi], the buffer. *)
Inductive formats : list Z -> Z -> list Z -> list (list Z) -> Prop :=
| formats_end padchar ap : formats [] padchar ap []
| formats_char c f padchar ap ts : 0 < c < 256 -> c <> 37 ->
    formats f padchar ap ts -> formats (c :: f) padchar ap ([c] :: ts)
| formats_integer d padchar sign val a f ap ts : parse_directive f = d -> is_integer (conversion d) = true ->
    integer_arg (is_signed (conversion d)) (longint d) a = Ret (sign, val) ->
    formats (rest d) (if zero_pad d then 48 else padchar) ap ts ->
    formats (37 :: f) padchar (a :: ap)
      (number_text val sign (pad d) (alternate_form d) (base_of (conversion d)) (if zero_pad d then 48 else padchar) :: ts)
| formats_string d padchar l a f ap ts : parse_directive f = d -> conversion d = 115 ->
    cstr m a l -> (a + len l < lo \/ hi <= a) -> (length l < fuel)%nat -> len l < 2 ^ 31 ->
    formats (rest d) (if zero_pad d then 48 else padchar) ap ts ->
    formats (37 :: f) padchar (a :: ap) (l :: ts)
| formats_char_arg d padchar a f ap ts : parse_directive f = d -> conversion d = 99 ->
    formats (rest d) (if zero_pad d then 48 else padchar) ap ts ->
    formats (37 :: f) padchar (a :: ap) ([u8 a] :: ts)
| formats_percent d padchar f ap ts : parse_directive f = d -> conversion d = 37 ->
    formats (rest d) (if zero_pad d then 48 else padchar) ap ts ->
    formats (37 :: f) padchar ap ([37] :: ts)
| formats_stop d padchar f ap : parse_directive f = d -> is_integer (conversion d) = false ->
    conversion d ∉ [115; 99; 37] -> formats (37 :: f) padchar ap [].

(** The text of an integer conversion. *)
Definition integer_text (d : directive) (padchar a : Z) : option (list Z) :=
  match integer_arg (is_signed (conversion d)) (longint d) a with
  | Ret (sign, val) => Some (number_text val sign (pad d) (alternate_form d) (base_of (conversion d)) (if zero_pad d then 48 else padchar))
  | _ => None
  end.

Lemma formats_int f padchar a ap t ts : is_integer (conversion (parse_directive f)) = true -> integer_text (parse_directive f) padchar a = Some t ->
  formats (rest (parse_directive f)) (if zero_pad (parse_directive f) then 48 else padchar) ap ts -> formats (37 :: f) padchar (a :: ap) (t :: ts).
Proof using.
  intros Hi Ht H. unfold integer_text in Ht. destruct (integer_arg _ _ a) as [[sign val]| | | |] eqn:E; try done. injection Ht as <-. by eapply formats_integer.
Qed.

(** The pieces that fit into [n] characters, up to the first that does not. *)
Fixpoint fit (n : Z) (ts : list (list Z)) : list Z :=
  match ts with
  | [] => []
  | t :: ts => if (0 <? n) && (len t <=? n) then t ++ fit (n - len t) ts else []
  end.

Lemma fit_length n ts : 0 <= n -> len (fit n ts) <= n.
Proof using.
  revert n. induction ts as [|t ts IH]; intros n Hn; cbn [fit]; [done|].
  destruct (Z.ltb_spec 0 n), (Z.leb_spec (len t) n); cbn [andb List.length]; try lia. rewrite length_app. specialize (IH (n - len t)). lia.
Qed.
End Formats.

(** [l] stands at [d]; the byte behind it may have changed too. *)
Definition placed (m m' : mem) (d : Z) (l : list Z) : Prop :=
  same_extent m m' /\ forall x, x <> d + len l -> m' !! x = if decide (d <= x < d + len l) then l !! Z.to_nat (x - d) else m !! x.

Lemma placed_nil m d : placed m m d [].
Proof. split; [by intros x|]. intros x _. by destruct (decide _); [cbn in *; lia|]. Qed.

Lemma written_placed m m' d l : written m m' d l -> placed m m' d l.
Proof. intros H. split; [by eapply written_extent|]. intros x _. apply H. Qed.

Lemma terminated_placed m m' d l : written m m' d (l ++ [0]) -> placed m m' d l.
Proof.
  intros H. split; [by eapply written_extent|]. intros x Hx. rewrite H, length_app. cbn [List.length].
  destruct (decide (d <= x < d + len l)), (decide (d <= x < _)); try lia; [|done]. apply lookup_app_l. lia.
Qed.

Lemma placed_app m m1 m2 d l1 l2 : placed m m1 d l1 -> placed m1 m2 (d + len l1) l2 -> placed m m2 d (l1 ++ l2).
Proof.
  intros [H1 P1] [H2 P2]. split; [intros x Hx; by apply H2, H1|]. intros x. rewrite length_app. intros Hx. rewrite P2 by lia.
  destruct (decide (d + len l1 <= x < _)) as [Hin|]; [|rewrite P1 by lia];
    destruct (decide (d <= x < d + len l1)) as [|], (decide (d <= x < d + Z.of_nat (_ + _))) as [|]; try lia; try done.
  - rewrite lookup_app_r by lia. f_equal. lia.
  - by rewrite lookup_app_l by lia.
Qed.

Lemma placed_terminated m m' d l : placed m m' d l -> written m (<[d + len l := 0]> m') d (l ++ [0]).
Proof.
  intros [_ P] x. rewrite length_app. cbn [List.length]. destruct (decide (x = d + len l)) as [->|Hx].
  - rewrite lookup_insert_eq. destruct (decide _); [|lia]. rewrite lookup_app_r by lia. by replace (_ - _)%nat with 0%nat by lia.
  - rewrite lookup_insert_ne by done. rewrite P by done.
    destruct (decide (d <= x < d + len l)), (decide (d <= x < d + Z.of_nat (_ + _))); try lia; [|done]. by rewrite lookup_app_l by lia.
Qed.

Lemma copy_string_run l : forall m d a fuel, cstr m a l -> mapped m d (len l + 1) -> clear_of d (len l + 1) a l -> (length l < fuel)%nat ->
  exists m', copy_string fuel d a m = (Ret tt, m') /\ written m m' d (l ++ [0]).
Proof.
  unfold clear_of. induction l as [|c l IH]; intros m d a [|fuel] H Hm Hc Hf; try (cbn in Hf; lia); cbn [copy_string List.length] in *; chars H.
  - rewrite (store_run _ d) by (apply Hm; lia). eexists. split; [done|apply written_one].
  - rewrite (store_run _ d) by (apply Hm; lia).
    destruct (IH (<[d := c]> m) (d + 1) (a + 1) fuel) as (m' & E & W).
    + apply cstr_insert; [lia|done].
    + apply mapped_insert. eapply mapped_sub; [done|lia..].
    + lia.
    + lia.
    + rewrite E. exists m'. split; [done|]. by apply written_cons.
Qed.

(** ** The loop *)

Lemma parse_pad_run arg : forall p, 0 <= p -> 0 <= (parse_pad arg p).1 /\ (length (parse_pad arg p).2 <= length arg)%nat.
Proof.
  induction arg as [|c arg IH]; intros p Hp; [done|]. cbn [parse_pad]. destruct (_ && _); [|done].
  destruct (IH (u32 (u32 (p * 10) + (c - 48)))) as [H1 H2].
  - by apply wrapw_range.
  - split; [done|]. cbn. lia.
Qed.

Lemma length_tail_le {A} (l : list A) : (length (tail l) <= length l)%nat.
Proof. destruct l; cbn; lia. Qed.

Lemma parse_directive_run f : 0 <= pad (parse_directive f) /\ (length (rest (parse_directive f)) <= length f)%nat.
Proof.
  unfold parse_directive. set (r := if cur f =? 35 then _ else _).
  assert (H1 : (length r.2 <= length f)%nat) by (subst r; pose proof (length_tail_le f); by destruct (_ =? _)). destruct r as [al a1]. cbn [snd] in H1.
  set (r := if cur a1 =? 48 then _ else _).
  assert (H2 : (length r.2 <= length a1)%nat) by (subst r; pose proof (length_tail_le a1); by destruct (_ =? _)). destruct r as [ze a2]. cbn [snd] in H2.
  destruct (parse_pad_run a2 0) as [Hp H3]; [done|]. destruct (parse_pad a2 0) as [p a3]. cbn [fst snd] in *.
  destruct (if cur a3 =? 112 then (true, 1) else (al, 0)) as [al' lo].
  set (r := if cur a3 =? 122 then _ else _).
  assert (H4 : (length r.2 <= length a3)%nat) by (subst r; pose proof (length_tail_le a3); by destruct (_ =? _)). destruct r as [lo' a4]. cbn [snd] in H4.
  set (r := if cur a4 =? 108 then _ else _).
  assert (H5 : (length r.2 <= length a4)%nat).
  { subst r. pose proof (length_tail_le a4). pose proof (length_tail_le (tail a4)). destruct (_ =? _); [|done]. destruct (_ =? _); cbn [snd]; lia. }
  destruct r as [lo'' a5]. cbn [snd] in H5. cbn. pose proof (length_tail_le a5). lia.
Qed.

Lemma integer_arg_range b w a sign val : integer_arg b w a = Ret (sign, val) -> 0 <= val < 2 ^ 64.
Proof.
  unfold integer_arg. intros H.
  assert (forall x, 0 <= wrapw (if w =? 0 then 32 else 64) x < 2 ^ 64).
  { intros x. destruct (w =? 0); [pose proof (wrapw_range 32 x)|pose proof (wrapw_range 64 x)]; unfold in_word in *; lia. }
  destruct (b && _); [destruct (_ =? _)|]; simplify_eq; done.
Qed.

Lemma base_of_range c : 2 <= base_of c <= 36.
Proof. unfold base_of. destruct (_ || _); [lia|]. destruct (_ =? _); lia. Qed.

Lemma u64_sub r w : 0 <= w <= r -> r < 2 ^ 31 -> u64 (r - u32 w) = r - w.
Proof. intros. rewrite (wrapw_small 32) by (unfold in_word; lia). apply wrapw_small. unfold in_word. lia. Qed.

(** The positions of a piece behind the others. *)
Definition printed (c : M mem (Z * Z)) (m1 : mem) (out r : Z) (t : list Z) : Prop :=
  exists m', c m1 = (Ret (out + len t, r - len t), m') /\ placed m1 m' out t.

Lemma printed_nil m1 out r : printed (ret (out, r)) m1 out r [].
Proof. exists m1. cbn. rewrite Z.add_0_r, Z.sub_0_r. split; [done|apply placed_nil]. Qed.

Lemma printed_cons (c : M mem (Z * Z)) m1 m2 out r t1 t2 : placed m1 m2 out t1 -> printed c m2 (out + len t1) (r - len t1) t2 ->
  exists m', c m2 = (Ret (out + len (t1 ++ t2), r - len (t1 ++ t2)), m') /\ placed m1 m' out (t1 ++ t2).
Proof.
  intros P1 (m' & -> & P2). exists m'. split; [|by eapply placed_app]. rewrite length_app. do 3 f_equal; lia.
Qed.

Section Loop.
Context (m0 : mem) (lo hi : Z) (fuel : nat).

(** The buffer from [out] on, in a memory that is [m0] outside of the whole buffer. *)
Definition buffer_at (m1 : mem) (out r : Z) : Prop :=
  lo <= out /\ 0 <= r < 2 ^ 31 /\ out + r < hi /\ mapped m1 out (r + 1) /\ (forall x, x < lo \/ hi <= x -> m1 !! x = m0 !! x).

Lemma buffer_moves m1 m2 out r t : buffer_at m1 out r -> placed m1 m2 out t -> len t <= r -> buffer_at m2 (out + len t) (r - len t).
Proof using.
  intros (H1 & H2 & H3 & H4 & H5) [He P] Ht. split; [lia|]. split; [lia|]. split; [lia|]. split.
  - eapply mapped_extent; [done|]. eapply mapped_sub; [done|lia..].
  - intros x Hx. rewrite P by lia. destruct (decide _); [lia|by apply H5].
Qed.

(** A conversion whose piece is [t]. *)
Definition converts (m1 : mem) (d : directive) (padchar out r : Z) (ap ap' : list Z) (t : list Z) : Prop :=
  if r <? len t then exists ap'', convert fuel d padchar out r ap m1 = (Ret (- 1, ap''), m1)
  else exists w m2, convert fuel d padchar out r ap m1 = (Ret (w, ap'), m2) /\ placed m1 m2 out t /\
    (w = len t \/ w = - 2 /\ t = []).

Lemma directive_step n f padchar ap ap' out r t ts m1 : let d := parse_directive f in
  let padchar' := if zero_pad d then 48 else padchar in
  buffer_at m1 out r -> 0 < r -> converts m1 d padchar' out r ap ap' t ->
  (forall m2, buffer_at m2 (out + len t) (r - len t) ->
     printed (format_loop n fuel (rest d) (out + len t) (r - len t) padchar' ap') m2 (out + len t) (r - len t) (fit (r - len t) ts)) ->
  printed (format_loop (S n) fuel (37 :: f) out r padchar ap) m1 out r (fit r (t :: ts)).
Proof using.
  intros d padchar' Hb Hr Hc IH. unfold printed. cbn [format_loop fit]. replace (0 <? r) with true by lia. cbn [andb negb Z.eqb Pos.eqb].
  fold d padchar'. unfold converts in Hc. pose proof (proj1 (proj2 Hb)) as Hr2. destruct (Z.ltb_spec r (len t)) as [Hlt|Hle].
  - destruct Hc as (ap'' & E). rewrite (bind_run _ _ _ _ _ E). cbn. replace (len t <=? r) with false by lia. apply printed_nil.
  - destruct Hc as (w & m2 & E & P & Hw). rewrite (bind_run _ _ _ _ _ E). cbn beta iota. replace (len t <=? r) with true by lia.
    pose proof (IH m2 (buffer_moves _ _ _ _ _ Hb P Hle)) as IH2.
    assert (Hstep : forall k, k = len t -> exists m', format_loop n fuel (rest d) (out + k) (u64 (r - u32 k)) padchar' ap' m2 =
      (Ret (out + len (t ++ fit (r - len t) ts), r - len (t ++ fit (r - len t) ts)), m') /\ placed m1 m' out (t ++ fit (r - len t) ts)).
    { intros k ->. rewrite u64_sub by lia. by eapply printed_cons. }
    destruct Hw as [-> | [-> ->]].
    + replace (0 <=? len t) with true by lia. cbn [orb]. replace (len t =? - 1) with false by lia. replace (len t =? - 2) with false by lia. by apply Hstep.
    + cbn [Z.leb Z.eqb Z.compare orb Pos.eqb]. by apply (Hstep 0).
Qed.

Lemma convert_integer m1 f padchar out r a ap sign val : let d := parse_directive f in
  buffer_at m1 out r -> is_integer (conversion d) = true -> integer_arg (is_signed (conversion d)) (longint d) a = Ret (sign, val) ->
  converts m1 d padchar out r (a :: ap) ap (number_text val sign (pad d) (alternate_form d) (base_of (conversion d)) padchar).
Proof using.
  intros d (_ & Hr & _ & Hm & _) Hi Ha. unfold converts, convert. rewrite Hi, Ha. cbn [lift].
  pose proof (integer_to_string_run val sign (pad d) out r (alternate_form d) (base_of (conversion d)) padchar m1
    (integer_arg_range _ _ _ _ _ Ha) (base_of_range _) (proj1 (parse_directive_run f)) ltac:(lia)) as H.
  cbv zeta in H. specialize (H ltac:(eapply mapped_sub; [done|lia..])). destruct (r <? _).
  - exists ap. by rewrite (bind_run _ _ _ _ _ H).
  - destruct H as (m' & E & W). rewrite (bind_run _ _ _ _ _ E). do 2 eexists.
    split; [done|]. split; [by apply written_placed|by left].
Qed.

Lemma convert_string m1 d padchar out r a l ap : buffer_at m1 out r -> conversion d = 115 ->
  cstr m0 a l -> (a + len l < lo \/ hi <= a) -> (length l < fuel)%nat -> len l < 2 ^ 31 -> converts m1 d padchar out r (a :: ap) ap l.
Proof using.
  intros (Hlo & Hr & Hhi & Hm & Ho) Hc Hl Ha Hf Hl2.
  assert (Hl1 : cstr m1 a l) by (eapply cstr_ext; [|exact Hl]; intros; apply Ho; lia).
  unfold converts, convert. rewrite Hc. change (is_integer 115) with false. cbn [Z.eqb Pos.eqb].
  pose proof (strlen_run _ _ _ _ Hl1 Hf Hl2) as Es. destruct (r <? len l) eqn:E.
  { exists ap. unfold bind at 1 2. rewrite Es. cbn beta iota. by rewrite E. }
  destruct (copy_string_run l m1 out a fuel Hl1) as (m2 & Ec & W); [eapply mapped_sub; [done|lia..]|unfold clear_of; lia|done|].
  exists (if s32 (len l) =? 0 then - 2 else s32 (len l)), m2. split.
  { unfold bind at 1 2. rewrite Es. cbn beta iota. rewrite E. unfold strcpy. unfold bind at 1 2. by rewrite Ec. }
  rewrite s32_small by lia. split; [by apply terminated_placed|]. destruct (Z.eqb_spec (len l) 0); [right|by left]. destruct l; [done|cbn in *; lia].
Qed.

Lemma convert_char m1 d padchar out r a ap : buffer_at m1 out r -> 0 < r -> conversion d = 99 -> converts m1 d padchar out r (a :: ap) ap [u8 a].
Proof using.
  intros (_ & Hr & _ & Hm & _) Hr0 Hc. unfold converts, convert. rewrite Hc. change (is_integer 99) with false. cbn [Z.eqb Pos.eqb List.length].
  change (Z.of_nat 1) with 1. destruct (Z.ltb_spec r 1); [lia|]. exists 1, (<[out := u8 a]> m1). split.
  - unfold bind at 1 2. rewrite (store_run m1 out (u8 a)); [done|apply Hm; lia].
  - split; [apply written_placed, written_one|by left].
Qed.

Lemma convert_percent m1 d padchar out r ap : buffer_at m1 out r -> 0 < r -> conversion d = 37 -> converts m1 d padchar out r ap ap [37].
Proof using.
  intros (_ & Hr & _ & Hm & _) Hr0 Hc. unfold converts, convert. rewrite Hc. change (is_integer 37) with false. cbn [Z.eqb Pos.eqb List.length].
  change (Z.of_nat 1) with 1. destruct (Z.ltb_spec r 1); [lia|]. exists 1, (<[out := 37]> m1). split.
  - unfold bind. rewrite (store_run m1 out 37); [done|apply Hm; lia].
  - split; [apply written_placed, written_one|by left].
Qed.

Lemma format_loop_run f padchar ap ts : formats m0 lo hi fuel f padchar ap ts ->
  forall n m1 out r, (length f < n)%nat -> buffer_at m1 out r -> printed (format_loop n fuel f out r padchar ap) m1 out r (fit r ts).
Proof using.
  induction 1 as [padchar ap|c f padchar ap ts Hc Hne _ IH|d padchar sign val a f ap ts <- Hi Ha _ IH|d padchar l a f ap ts <- Hd Hl Ha Hf Hl2 _ IH
    |d padchar a f ap ts <- Hd _ IH|d padchar f ap ts <- Hd _ IH|d padchar f ap <- Hi Hd]; intros [|n] m1 out r Hn Hb; try (cbn in Hn; lia).
  all: pose proof (proj1 (proj2 Hb)) as Hr; pose proof (proj2 (parse_directive_run f)) as Hlen || idtac.
  - cbn. destruct (0 <? r); apply printed_nil.
  - cbn [format_loop fit]. cbn [List.length] in *. unfold printed. destruct (Z.ltb_spec 0 r) as [H0|]; [|apply printed_nil]. cbn [andb].
    replace (c =? 0) with false by lia. replace (c =? 37) with false by lia. replace (Z.of_nat 1 <=? r) with true by (symmetry; apply Z.leb_le; lia). cbn [negb].
    assert (P : placed m1 (<[out := c]> m1) out [c]) by (apply written_placed, written_one).
    rewrite (bind_run _ _ _ _ _ (store_run m1 out c ltac:(apply Hb; lia))).
    assert (u64 (r - 1) = r - len [c]) as -> by (apply wrapw_small; unfold in_word; cbn; lia).
    eapply (printed_cons _ _ _ _ _ [c]); [exact P|]. apply IH; [lia|]. eapply buffer_moves; [done|done|cbn; lia].
  - destruct (Z.ltb_spec 0 r) as [H0|]; [|cbn; replace (0 <? r) with false by lia; apply printed_nil].
    eapply directive_step; [done|done|by apply convert_integer|]. intros m2 Hb2. apply IH; [cbn in Hn; lia|done].
  - destruct (Z.ltb_spec 0 r) as [H0|]; [|cbn; replace (0 <? r) with false by lia; apply printed_nil].
    eapply directive_step; [done|done|by apply convert_string|]. intros m2 Hb2. apply IH; [cbn in Hn; lia|done].
  - destruct (Z.ltb_spec 0 r) as [H0|]; [|cbn; replace (0 <? r) with false by lia; apply printed_nil].
    eapply directive_step; [done|done|by apply convert_char|]. intros m2 Hb2. apply IH; [cbn in Hn; lia|done].
  - destruct (Z.ltb_spec 0 r) as [H0|]; [|cbn; replace (0 <? r) with false by lia; apply printed_nil].
    eapply directive_step; [done|done|by apply convert_percent|]. intros m2 Hb2. apply IH; [cbn in Hn; lia|done].
  - cbn [format_loop fit]. destruct (0 <? r); [|apply printed_nil]. cbn [Z.eqb Pos.eqb negb]. unfold printed, convert. rewrite Hi.
    rewrite !not_elem_of_cons in Hd. destruct Hd as (H1 & H2 & H3 & _).
    rewrite (proj2 (Z.eqb_neq _ _) H1), (proj2 (Z.eqb_neq _ _) H2), (proj2 (Z.eqb_neq _ _) H3). apply printed_nil.
Qed.
End Loop.

(** ** Whole calls *)

Lemma vsnprintf_run m fuel buf size f ap ts : 0 < size < 2 ^ 31 -> mapped m buf size -> formats m buf (buf + size) fuel f 32 ap ts ->
  exists m', tegrabl_vsnprintf fuel buf size f ap m = (Ret (len (fit (size - 1) ts)), m') /\ written m m' buf (fit (size - 1) ts ++ [0]).
Proof.
  intros Hs Hm Hf. unfold tegrabl_vsnprintf. assert (u64 (size - 1) = size - 1) as -> by (apply (wrapw_small 64 (size - 1)); unfold in_word; lia).
  pose proof (fit_length (size - 1) ts ltac:(lia)) as Hl.
  destruct (format_loop_run _ _ _ _ _ _ _ _ Hf (S (length f)) m buf (size - 1)) as (m1 & E & P); [lia| |].
  { unfold buffer_at. split; [lia|]. split; [lia|]. split; [lia|]. split; [eapply mapped_sub; [done|lia..]|done]. }
  rewrite (bind_run _ _ _ _ _ E). cbn beta iota.
  rewrite (bind_run _ _ _ _ _ (store_run m1 (buf + len (fit (size - 1) ts)) 0 ltac:(apply P, Hm; lia))).
  eexists. split; [|by apply placed_terminated]. unfold ret. do 2 f_equal. 
  rewrite (s32_small size), (s32_small (size - 1 - len (fit (size - 1) ts))) by lia. rewrite s32_small by lia. lia.
Qed.

(** C40.  Formatted output is the pieces of the format (characters, numbers with
    padding, sign and prefix, strings) one after the other up to the first that does
    not fit, and a terminator; nothing else in memory changes, in a buffer of at least
    one byte, and the result is the length of the text. *)
Theorem snprintf_formats m fuel buf size f ap ts :
  0 < size < 2 ^ 31 -> mapped m buf size -> formats m buf (buf + size) fuel f 32 ap ts ->
  exists t m', tegrabl_snprintf fuel buf size f ap m = (Ret (len t), m') /\
    t = fit (size - 1) ts /\ len t < size /\ written m m' buf (t ++ [0]).
Proof.
  intros Hs Hm Hf. destruct (vsnprintf_run m fuel buf size f ap ts Hs Hm Hf) as (m' & E & W).
  pose proof (fit_length (size - 1) ts ltac:(lia)). exists (fit (size - 1) ts), m'. split; [done|]. split; [done|]. split; [lia|done].
Qed.

Definition sample_memory : mem := text_memory 1000 (repeat 7 12) ∪ text_memory 100 (chars "abc" ++ [0]).

Lemma snprintf_formats_witness : exists t m',
  tegrabl_snprintf 20 1000 12 (chars "%s=%#x,%05d") [100; 31; - 42] sample_memory = (Ret (len t), m') /\
  t = chars "abc=0x1f," /\ len t < 12 /\ written sample_memory m' 1000 (t ++ [0]).
Proof.
  apply (snprintf_formats sample_memory 20 1000 12 (chars "%s=%#x,%05d") [100; 31; - 42] [chars "abc"; [61]; chars "0x1f"; [44]; chars "00-42"]).
  - lia.
  - by apply mapped_compute.
  - eapply (formats_string _ _ _ _ _ _ (chars "abc")); [reflexivity|reflexivity|repeat split; reflexivity|cbn; lia|cbn; lia|cbn; lia|].
    apply formats_char; [lia|lia|].
    apply formats_int; [reflexivity|reflexivity|].
    apply formats_char; [lia|lia|].
    apply formats_int; [reflexivity|reflexivity|]. apply formats_end.
Defined.

(** ** Numbers read back *)

Lemma value_of_digit i b : 0 <= i < 36 -> digit_value (digit i) b = i.
Proof.
  intros Hi. assert (H : Forall (fun i => forall b, digit_value (digit i) b = i) (seqZ 0 36)) by (vm_compute; repeat constructor).
  rewrite Forall_forall in H. apply H, elem_of_seqZ. lia.
Qed.

Lemma number_text_plain n radix padchar : number_text n 0 0 false radix padchar = number radix n.
Proof. unfold number_text. cbn [Z.ltb Z.compare app]. by replace (Z.to_nat (0 - len (number radix n))) with 0%nat by lia. Qed.

Lemma digit_range i : 0 <= i < 36 -> 48 <= digit i <= 122.
Proof.
  intros Hi. assert (H : Forall (fun i => 48 <= digit i <= 122) (seqZ 0 36)).
  { apply Forall_forall. intros x Hx. assert (Hb : forallb (fun i => (48 <=? digit i) && (digit i <=? 122)) (seqZ 0 36) = true) by done.
    rewrite forallb_forall in Hb. specialize (Hb x (proj1 (list_elem_of_In _ _) Hx)). lia. }
  rewrite Forall_forall in H. apply H, elem_of_seqZ. lia.
Qed.

Lemma wrapw_signedw w x : 0 < w -> wrapw w (signedw w x) = wrapw w x.
Proof.
  intros Hw. unfold signedw. cbv zeta. destruct (_ <? _); [apply wrapw_idem|]. unfold wrapw.
  rewrite <- Zminus_mod_idemp_r, Z.mod_same, Z.sub_0_r by (apply Z.pow_nonzero; lia). apply Z.mod_mod, Z.pow_nonzero; lia.
Qed.

Section Back.
Context (radix : Z) (Hradix : 2 <= radix <= 36).

Lemma numeral_value fuel : forall n, 0 <= n < 2 ^ Z.of_nat fuel -> digits_value radix ((fun c => digit_value c radix) <$> numeral fuel radix n) 0 = n.
Proof using Hradix.
  induction fuel as [|fuel IH]; intros n Hn; [change (2 ^ Z.of_nat 0) with 1 in Hn; cbn; lia|]. cbn [numeral].
  unfold digits_value in *. rewrite fmap_app, fold_left_app. cbn [fmap list_fmap fold_left].
  pose proof (Z.mod_pos_bound n radix ltac:(lia)). rewrite value_of_digit by lia.
  assert (n / radix < 2 ^ Z.of_nat fuel).
  { apply Z.div_lt_upper_bound; [lia|]. rewrite Nat2Z.inj_succ, Z.pow_succ_r in Hn by lia. nia. }
  assert (0 <= n / radix) by (apply Z.div_pos; lia).
  destruct (Z.ltb_spec 0 (n / radix)); [rewrite IH by lia|cbn]; pose proof (Z.div_mod n radix ltac:(lia)); nia.
Qed.

Lemma numeral_digits fuel n : Forall (fun c => exists i, 0 <= i < radix /\ c = digit i) (numeral fuel radix n).
Proof using Hradix.
  revert n. induction fuel as [|fuel IH]; intros n; [done|]. cbn [numeral]. apply Forall_app. split; [destruct (_ <? _); [apply IH|done]|].
  constructor; [|done]. exists (n mod radix). split; [apply Z.mod_pos_bound; lia|done].
Qed.

(** No zero in front. *)
Lemma numeral_head fuel : forall n, 0 < n < 2 ^ Z.of_nat fuel -> exists d l, numeral fuel radix n = digit d :: l /\ 0 < d < radix.
Proof using Hradix.
  induction fuel as [|fuel IH]; intros n Hn; [change (2 ^ Z.of_nat 0) with 1 in Hn; lia|]. cbn [numeral]. destruct (Z.ltb_spec 0 (n / radix)).
  - destruct (IH (n / radix)) as (d & l & -> & Hd); [|by eexists _, _].
    split; [done|]. apply Z.div_lt_upper_bound; [lia|]. rewrite Nat2Z.inj_succ, Z.pow_succ_r in Hn by lia. nia.
  - exists (n mod radix), []. split; [done|]. pose proof (Z.mod_pos_bound n radix ltac:(lia)). pose proof (Z.div_mod n radix ltac:(lia)).
    assert (0 <= n / radix) by (apply Z.div_pos; lia). nia.
Qed.

Lemma numeral_short fuel : forall k n, 0 <= n < radix ^ Z.of_nat (S k) -> (length (numeral fuel radix n) <= S k)%nat.
Proof using Hradix.
  induction fuel as [|fuel IH]; intros k n Hn; [cbn; lia|]. cbn [numeral]. rewrite length_app. cbn [List.length].
  rewrite Nat2Z.inj_succ, Z.pow_succ_r in Hn by lia. destruct (Z.ltb_spec 0 (n / radix)) as [Hq|]; [|cbn; lia].
  assert (n / radix < radix ^ Z.of_nat k) by (apply Z.div_lt_upper_bound; lia).
  destruct k as [|k]; [change (radix ^ Z.of_nat 0) with 1 in *; lia|]. specialize (IH k (n / radix) ltac:(lia)). lia.
Qed.

Lemma number_read_back isspace n : 0 <= n < 2 ^ 64 -> (forall i, 0 <= i < 36 -> isspace (digit i) <> 1) ->
  tegrabl_utils_strtoul isspace (number radix n) radix = Ret (n, length (number radix n)).
Proof using Hradix.
  intros Hn Hsp. pose proof (numeral_digits 64 n) as Hd. fold (number radix n) in Hd.
  assert (Hne : number radix n <> []).
  { pose proof (numeral_length radix 64 n ltac:(lia)) as H. fold (number radix n) in H. intros E. rewrite E in H. cbn in H. lia. }
  rewrite <- (app_nil_r (number radix n)) at 1. rewrite strtoul_reads_number; [|done|done| | | |].
  - unfold number at 1. rewrite numeral_value by done. do 2 f_equal. unfold ULONG_MAX. lia.
  - eapply Forall_impl; [exact Hd|]. intros c (i & Hi & ->). rewrite value_of_digit by lia. done.
  - cbn. lia.
  - destruct (number radix n) as [|c l]; [done|]. apply Forall_inv in Hd as (i & Hi & ->). apply Hsp. lia.
  - intros _. rewrite app_nil_r. unfold has_hex_base_chars. destruct (decide (n = 0)) as [->|Hn0].
    { unfold number. cbn [numeral]. rewrite Z.div_0_l by lia. cbn [Z.ltb Z.compare app]. cbn [lookup list_lookup default]. apply andb_false_r. }
    destruct (numeral_head 64 n ltac:(lia)) as (d & l & E & Hd0). unfold number. rewrite E. cbn [lookup list_lookup default].
    apply andb_false_intro1, Z.eqb_neq. intros E48. change (digit d = 48) in E48. pose proof (value_of_digit d 0 ltac:(lia)) as Hv. rewrite E48 in Hv. cbn in Hv. lia.
Qed.
End Back.

(** What [%lu], [%lo] or [%lx] print of a word, [strtoul] reads back in the
    same base, to the end of the text. *)
Theorem printed_numbers_read_back m fuel buf size c n isspace :
  c ∈ chars "uox" -> 0 <= n < 2 ^ 64 -> 22 < size < 2 ^ 31 -> mapped m buf size ->
  (forall i, 0 <= i < 36 -> isspace (digit i) <> 1) ->
  exists t m', tegrabl_snprintf fuel buf size [37; 108; c] [n] m = (Ret (len t), m') /\ cstr m' buf t /\
    tegrabl_utils_strtoul isspace t (base_of c) = Ret (n, length t).
Proof.
  intros Hc Hn Hs Hm Hsp. change (chars "uox") with [117; 111; 120] in Hc. rewrite !elem_of_cons in Hc. pose proof (base_of_range c) as Hb. exists (number (base_of c) n).
  assert (Hbase : 8 <= base_of c) by (destruct Hc as [-> | [-> | [-> | []%elem_of_nil]]]; cbn; lia).
  assert (Hf : formats m buf (buf + size) fuel [37; 108; c] 32 [n] [number (base_of c) n]).
  { destruct Hc as [-> | [-> | [-> | []%elem_of_nil]]]; (apply formats_int; [reflexivity| |apply formats_end]);
      unfold integer_text, integer_arg; cbn [longint conversion parse_directive]; cbn -[signedw wrapw number_text number Z.pow];
      rewrite wrapw_signedw, (wrapw_small 64) by (unfold in_word; lia || lia); apply (f_equal Some), number_text_plain. }
  destruct (vsnprintf_run m fuel buf size _ _ _ ltac:(lia) Hm Hf) as (m' & E & W).
  assert (Hl : len (number (base_of c) n) <= size - 1).
  { pose proof (numeral_short (base_of c) Hb 64 21 n) as H. unfold number. assert (n < base_of c ^ Z.of_nat 22); [|lia].
    eapply Z.lt_le_trans; [apply Hn|]. transitivity (8 ^ 22); [vm_compute; discriminate|]. by apply Z.pow_le_mono_l. }
  assert (Hfit : fit (size - 1) [number (base_of c) n] = number (base_of c) n).
  { cbn [fit]. replace (0 <? size - 1) with true by lia. rewrite (proj2 (Z.leb_le _ _) Hl). apply app_nil_r. }
  rewrite Hfit in *. exists m'. split; [done|]. split; [|by apply number_read_back].
  apply (written_cstr m); [|done]. eapply Forall_impl; [apply (numeral_digits _ Hb 64)|]. intros x (i & Hi & ->).
  pose proof (digit_range i ltac:(lia)). lia.
Qed.

Lemma printed_numbers_read_back_witness : exists t m',
  tegrabl_snprintf 20 1000 24 [37; 108; 120] [48879] (text_memory 1000 (repeat 7 24)) = (Ret (len t), m') /\ cstr m' 1000 t /\
  tegrabl_utils_strtoul (fun c => if c =? 32 then 1 else 0) t 16 = Ret (48879, length t).
Proof.
  apply (printed_numbers_read_back (text_memory 1000 (repeat 7 24)) 20 1000 24 120 48879 (fun c => if c =? 32 then 1 else 0)).
  - change (chars "uox") with [117; 111; 120]. rewrite !elem_of_cons. auto.
  - lia.
  - lia.
  - by apply mapped_compute.
  - intros i Hi. pose proof (digit_range i Hi). destruct (Z.eqb_spec (digit i) 32); lia.
Defined.

(** ** What the conversions do not do *)

(** Zeros stand in front of a sign and of a prefix; [%0] pads what follows with zeros
    too; [%X] prints small letters. *)
Example odd_paddings :
  number_text 42 (- 1) 5 false 10 48 = chars "00-42" /\ number_text 31 0 6 true 16 48 = chars "000x1f" /\
  (exists m', tegrabl_snprintf 20 1000 12 (chars "%02d%4d%X") [5; 7; 255] sample_memory = (Ret 8, m') /\
    map (fun i => m' !! (1000 + i)) (seqZ 0 9) = map Some (chars "050007ff" ++ [0])).
Proof. split; [reflexivity|]. split; [reflexivity|]. eexists. split; vm_compute; reflexivity. Qed.

(** A buffer of no bytes is taken for one without an end. *)
Lemma empty_buffer_overrun m fuel f ap : m !! 1000 = None -> (forall c l, f = c :: l -> c <> 0 /\ c <> 37) -> f <> [] ->
  (tegrabl_snprintf fuel 1000 0 f ap m).1 = Undef.
Proof.
  intros Hm Hc Hf. destruct f as [|c f]; [done|]. destruct (Hc c f eq_refl) as [H0 H37]. unfold tegrabl_snprintf, tegrabl_vsnprintf.
  cbn [format_loop List.length]. change (0 <? u64 (0 - 1)) with true. cbn iota.
  rewrite (proj2 (Z.eqb_neq _ _) H0), (proj2 (Z.eqb_neq _ _) H37). cbn [negb]. unfold bind, store. by rewrite Hm.
Qed.
