(* ===== verification/Cmdline.v ===== *)
(** * The command line of the kernel

    lib/linuxboot/cmdline.c on the memory of [Clib]: [s_cmdline] is the array at that
    address, string literals stand where the linker puts them ([lit]), and what the
    board and the other libraries say is a record of answers. *)
From Stdlib Require Import Ascii String.
From stdpp Require Import gmap.
From S2P Require Import Prelude Interfaces Clib CString Printf.
#[local] Open Scope Z_scope.

Definition COMMAND_LINE_SIZE : Z := 2048.
Definition IGNORE_FASTBOOT_CMD : string := "ignorefastboot".

Definition TEGRABL_LINUXBOOT_CARVEOUT_TOS : Z := 1.
Definition TEGRABL_LINUXBOOT_CARVEOUT_NVDUMPER : Z := 4.
Definition TEGRABL_LINUXBOOT_DEBUG_CONSOLE_NONE : Z := 0.
Definition TEGRABL_LINUXBOOT_DEBUG_CONSOLE_COMB_UART : Z := 11.
Definition TEGRABL_TOS_TYPE_TLK : Z := 1.
Definition TEGRABL_TOS_TYPE_TRUSTY : Z := 2.
Definition DISPLAY_OUT_MAX : Z := 5.

Record tegrabl_linuxboot_memblock := mk_memblock { base : Z; size : Z }.
Record tegrabl_display_unit_params := mk_display { du_size : Z; du_addr : Z; instance : Z; lut_addr : Z; lut_size : Z }.

(** Answers of [tegrabl_linuxboot_helper_get_info] and of other libraries; [None] is
    an error.  Texts are addresses. *)
Record board := mk_board {
  carveout : Z -> option tegrabl_linuxboot_memblock;
  debug_console : option Z;
  earlyuart_base : option Z;
  tcu_mbox_addr : option Z;
  secureos : option Z;
  high_speed_uart : bool;
  rootfs_suffix : option Z;
  display_params : Z -> option tegrabl_display_unit_params;
  version_start : Z;
  bootimg_cmdline : Z;
}.

(** The build options this file tests. *)
Record options := mk_options { comb_uart : bool; a_b_slot : bool; display : bool; os_is_l4t : bool }.

(** An entry of a table of parameters; its handler gets the place, the room and the
    name, and has its private data already. *)
Record tegrabl_linuxboot_param := mk_param { str : Z; append : option (Z -> Z -> Z -> M mem Z) }.

(** Memory and the two static integers. *)
Record cl := mk_cl { cl_mem : mem; n_orig_cmdlen : Z; n_ignore_fastboot : Z }.
Definition on_mem {A} (c : M mem A) : M cl A := fun s =>
  let '(o, m) := c (cl_mem s) in (o, mk_cl m (n_orig_cmdlen s) (n_ignore_fastboot s)).
Definition set_ignore (b : bool) : M cl unit := modify (fun s => mk_cl (cl_mem s) (n_orig_cmdlen s) (if b then 1 else 0)).
Definition ignoring : M cl bool := gets (fun s => truthy (n_ignore_fastboot s)).

Definition iswhitespace (ch : Z) : bool := (ch =? 32) || (ch =? 9) || (ch =? 10) || (ch =? 13).

Section Cmdline.
Variables (fuel : nat) (lit : string -> Z) (s_cmdline : Z) (dma : tegrabl_clib_dma).
Variables (options : options) (board : board).
(** [TEGRABL_LINUXBOOT_INFO_EXTRA_CMDLINE_PARAMS] *)
Variable extra_params : option (list tegrabl_linuxboot_param).

(** ** Handlers *)

Definition null (cmdline param : Z) : bool := (cmdline =? 0) || (param =? 0).

Definition tegrabl_linuxboot_add_carveout (priv cmdline len param : Z) : M mem Z :=
  if null cmdline param then ret (- 1)
  else
    match carveout board (u32 priv) with
    | None => ret (- 1)
    | Some memblock =>
        if truthy (size memblock) then
          tegrabl_snprintf fuel cmdline len (chars "%s=0x%lx@0x%08lx ") [param; size memblock; base memblock]
        else ret 0
    end.

Definition tegrabl_linuxboot_add_nvdumper_info (cmdline len param : Z) : M mem Z :=
  if null cmdline param then ret (- 1)
  else
    match carveout board TEGRABL_LINUXBOOT_CARVEOUT_NVDUMPER with
    | None => ret (- 1)
    | Some memblock =>
        if truthy (size memblock) then tegrabl_snprintf fuel cmdline len (chars "%s=0x%08lx ") [param; base memblock]
        else ret 0
    end.

(** The result goes through an [int8_t]. *)
Definition tegrabl_linuxboot_add_earlycon (cmdline len param : Z) : M mem Z :=
  if null cmdline param then ret (- 1)
  else if high_speed_uart board then ret 0
  else
    match debug_console board with
    | None => ret (- 1)
    | Some console =>
        if console =? TEGRABL_LINUXBOOT_DEBUG_CONSOLE_NONE then ret 0
        else if console =? TEGRABL_LINUXBOOT_DEBUG_CONSOLE_COMB_UART then
          if comb_uart options then
            match tcu_mbox_addr board with
            | None => ret (- 1)
            | Some mbox_addr =>
                let! n := tegrabl_snprintf fuel cmdline len (chars "%s=tegra_comb_uart,mmio32,0x%08x ") [param; mbox_addr] in
                ret (signedw 8 n)
            end
          else ret 0
        else
          match earlyuart_base board with
          | None => ret (- 1)
          | Some addr =>
              let! n := tegrabl_snprintf fuel cmdline len (chars "%s=uart8250,mmio32,0x%lx ") [param; addr] in
              ret (signedw 8 n)
          end
    end.

Definition tegrabl_linuxboot_add_string (priv cmdline len param : Z) : M mem Z :=
  if null cmdline param then ret (- 1)
  else if negb (priv =? 0) then tegrabl_snprintf fuel cmdline len (chars "%s=%s ") [param; priv]
  else tegrabl_snprintf fuel cmdline len (chars "%s ") [param].

(** [num] is what the private pointer points to. *)
Definition tegrabl_linuxboot_add_number (num : option Z) (cmdline len param : Z) : M mem Z :=
  if null cmdline param then ret (- 1)
  else
    match num with
    | Some num => tegrabl_snprintf fuel cmdline len (chars "%s=%#lx ") [param; num]
    | None => ret (- 1)
    end.

Definition tegrabl_linuxboot_add_rootfs_param (cmdline len param : Z) : M mem Z :=
  if null cmdline param then ret (- 1)
  else
    match rootfs_suffix board with
    | None => ret (- 1)
    | Some suffix => tegrabl_linuxboot_add_string suffix cmdline len param
    end.

(** [unit]: whether this display is the one [param] is about. *)
Fixpoint display_units (n : nat) (du_idx cmdline len param : Z) : M mem Z :=
  match n with
  | O => ret (- 1)
  | S n =>
      match display_params board du_idx with
      | None => ret (- 1)
      | Some d =>
          let next := display_units n (du_idx + 1) cmdline len param in
          let show (f : string) := tegrabl_snprintf fuel cmdline len (chars f) [param; du_size d; du_addr d; lut_size d; lut_addr d] in
          if du_size d =? 0 then next
          else
            let! c1 := strcmp fuel param (lit "tegra_fbmem") in
            if (c1 =? 0) && (instance d =? 0) then show "%s=0x%x@0x%08lx lut_mem=0x%x@0x%08lx "%string
            else
              let! c2 := strcmp fuel param (lit "tegra_fbmem2") in
              if (c2 =? 0) && (instance d =? 1) then show "%s=0x%x@0x%08lx lut_mem2=0x%x@0x%08lx "%string
              else
                let! c3 := strcmp fuel param (lit "tegra_fbmem3") in
                if (c3 =? 0) && (instance d =? 2) then show "%s=0x%x@0x%08lx lut_mem3=0x%x@0x%08lx "%string
                else next
      end
  end.
Definition tegrabl_linuxboot_add_disp_param (cmdline len param : Z) : M mem Z :=
  display_units (Z.to_nat DISPLAY_OUT_MAX) 0 cmdline len param.

Definition tegrabl_linuxboot_add_secureos_name (cmdline len param : Z) : M mem Z :=
  match secureos board with
  | None => ret (- 1)
  | Some tos_type =>
      let tos_name :=
        if tos_type =? TEGRABL_TOS_TYPE_TLK then lit "tlk"
        else if tos_type =? TEGRABL_TOS_TYPE_TRUSTY then lit "trusty"
        else lit "none" in
      tegrabl_snprintf fuel cmdline len (chars "%s=%s ") [param; tos_name]
  end.

Definition tegrabl_linuxboot_add_bootloader_version (cmdline len param : Z) : M mem Z :=
  tegrabl_snprintf fuel cmdline len (chars "%s=%s ") [param; version_start board].

Definition common_params : list tegrabl_linuxboot_param :=
  [mk_param (lit "tzram") (Some (tegrabl_linuxboot_add_carveout TEGRABL_LINUXBOOT_CARVEOUT_TOS));
   mk_param (lit "video") (Some (tegrabl_linuxboot_add_string (lit "tegrafb")));
   mk_param (lit "earlycon") (Some tegrabl_linuxboot_add_earlycon);
   mk_param (lit "nvdumper_reserved") (Some tegrabl_linuxboot_add_nvdumper_info);
   mk_param (lit "gpt") (Some (tegrabl_linuxboot_add_string 0))] ++
  (if a_b_slot options then [mk_param (lit "rootfs.slot_suffix") (Some tegrabl_linuxboot_add_rootfs_param)] else []) ++
  (if display options then
     [mk_param (lit "tegra_fbmem") (Some tegrabl_linuxboot_add_disp_param);
      mk_param (lit "tegra_fbmem2") (Some tegrabl_linuxboot_add_disp_param);
      mk_param (lit "tegra_fbmem3") (Some tegrabl_linuxboot_add_disp_param)] else []) ++
  (if os_is_l4t options then [] else
     [mk_param (lit "memtype") (Some (tegrabl_linuxboot_add_string (lit "0")));
      mk_param (lit "androidboot.secureos") (Some tegrabl_linuxboot_add_secureos_name);
      mk_param (lit "androidboot.bootloader") (Some tegrabl_linuxboot_add_bootloader_version)]) ++
  [mk_param (lit "usbcore.old_scheme_first") (Some (tegrabl_linuxboot_add_string (lit "1")))].

(** ** The line that is already there *)

Definition check_ignore_fastboot_cmd (cmd length start end_ : Z) : M cl bool :=
  let! first := on_mem (load (s_cmdline + start)) in
  (if 34 =? first then
     if length =? end_ - start - 2 then
       let! last := on_mem (load (s_cmdline + (end_ - 1))) in
       if 34 =? last then
         let! d := on_mem (memcmp (s_cmdline + (start + 1)) cmd length) in set_ignore (d =? 0)
       else ret tt
     else ret tt
   else if length =? end_ - start then
     let! d := on_mem (memcmp (s_cmdline + start) cmd length) in set_ignore (d =? 0)
   else ret tt) ;;;
  ignoring.

(** [if (!n_ignore_fastboot) if (check_ignore_fastboot_cmd(...)) next = start;] *)
Definition drop_ignored (length start next : Z) : M cl Z :=
  let! ign := ignoring in
  if ign then ret next
  else
    let! b := check_ignore_fastboot_cmd (lit IGNORE_FASTBOOT_CMD) length start next in
    ret (if b then start else next).

(** The local variables of the loop. *)
Record scanner := mk_scanner { next : Z; mood : Z; quote : bool; start : Z }.

(** One character; [false] is a [break]. *)
Definition scan_char (length : Z) (curr_char : Z) (x : scanner) : M cl (scanner * bool) :=
  let go (x : scanner) := ret (x, true) in
  if mood x =? 0 then
    if negb (iswhitespace curr_char) then
      if curr_char =? 0 then ret (x, false)
      else
        on_mem (store (s_cmdline + next x) curr_char) ;;;
        go (mk_scanner (next x + 1) 1 (if curr_char =? 34 then true else quote x) (next x))
    else go x
  else
    if iswhitespace curr_char then
      if quote x then
        on_mem (store (s_cmdline + next x) curr_char) ;;;
        go (mk_scanner (next x + 1) 1 (quote x) (start x))
      else
        let! next := drop_ignored length (start x) (next x) in
        let! ign := ignoring in
        let! next := if ign then ret next else on_mem (store (s_cmdline + next) 32) ;;; ret (next + 1) in
        go (mk_scanner next 0 (quote x) (start x))
    else if curr_char =? 34 then
      on_mem (store (s_cmdline + next x) curr_char) ;;;
      go (mk_scanner (next x + 1) 1 (negb (quote x)) (start x))
    else if curr_char =? 0 then
      let! next := drop_ignored length (start x) (next x) in
      ret (mk_scanner next 1 (quote x) (start x), false)
    else
      on_mem (store (s_cmdline + next x) curr_char) ;;;
      go (mk_scanner (next x + 1) 1 (quote x) (start x)).

(** [n] more characters at [p]. *)
Fixpoint scan_line (n : nat) (length p : Z) (x : scanner) : M cl scanner :=
  match n with
  | O => ret x
  | S n =>
      let! c := on_mem (load p) in
      let! y := scan_char length c x in
      let '(x, on) := y in
      if on then scan_line n length (p + 1) x else ret x
  end.

Definition init_cmd_list (cmdline : Z) : M cl Z :=
  if cmdline =? 0 then on_mem (store s_cmdline 0) ;;; ret 0
  else
    let! length := on_mem (strlen fuel (lit IGNORE_FASTBOOT_CMD)) in
    let! len_cmdline := on_mem (strlen fuel cmdline) in
    let! x := scan_line (Z.to_nat (Z.min (u32 len_cmdline) COMMAND_LINE_SIZE)) length cmdline (mk_scanner 0 0 false 0) in
    let! next :=
      if next x =? 0 then ret 0
      else
        let! n := if quote x then on_mem (store (s_cmdline + next x) 34) ;;; ret (next x + 1) else ret (next x) in
        let! n := drop_ignored length (start x) n in
        let! c := on_mem (load (s_cmdline + (n - 1))) in
        if negb (32 =? c) then on_mem (store (s_cmdline + n) 32) ;;; ret (n + 1) else ret n in
    on_mem (store (s_cmdline + next) 0) ;;;
    modify (fun s => mk_cl (cl_mem s) next (n_ignore_fastboot s)) ;;;
    ret next.

(** ** Looking for a parameter *)

(** One character of the line; [None] when the parameter is there. *)
Definition match_char (command curr_char mood : Z) (quote : bool) (p : Z) : M mem (option (Z * bool * Z)) :=
  let toggled := if curr_char =? 34 then negb quote else quote in
  let go mood quote p := ret (Some (mood, quote, p)) in
  if mood =? 0 then
    if curr_char =? 34 then go 4 true p
    else
      let! v := load p in
      if v =? curr_char then go 1 quote (p + 1) else go 2 quote p
  else if mood =? 1 then
    let! v := load p in
    if v =? curr_char then go 1 toggled (p + 1)
    else if negb (v =? 0) then
      if curr_char =? 32 then
        if quote then go 2 quote p else go 0 quote command
      else go 2 toggled p
    else if quote then
      if curr_char =? 61 then ret None
      else if curr_char =? 34 then go 3 (negb quote) p
      else go 2 quote p
    else if (curr_char =? 32) || (curr_char =? 61) then ret None
    else go 2 toggled p
  else if mood =? 2 then
    if curr_char =? 34 then go 2 (negb quote) p
    else if negb quote && (curr_char =? 32) then go 0 quote command
    else go 2 quote p
  else if mood =? 3 then
    if (curr_char =? 61) || (curr_char =? 32) then ret None else go 2 quote p
  else
    let! v := load p in
    if v =? curr_char then go 1 quote (p + 1) else go 2 quote p.

Fixpoint match_line (n : nat) (command at_ mood : Z) (quote : bool) (p : Z) : M mem bool :=
  match n with
  | O => ret false
  | S n =>
      let! c := load at_ in
      let! y := match_char command c mood quote p in
      match y with
      | None => ret true
      | Some (mood, quote, p) => match_line n command (at_ + 1) mood quote p
      end
  end.

Definition does_command_exist (command : Z) : M cl bool :=
  let! ign := ignoring in
  if ign then ret true
  else if command =? 0 then ret false
  else
    let! c := on_mem (load command) in
    if c =? 0 then ret false
    else
      let! n := gets n_orig_cmdlen in
      on_mem (match_line (Z.to_nat n) command s_cmdline 0 false command).

(** ** The whole line *)

(** The parameters of a table that are not there yet; where to go on. *)
Fixpoint append_params (params : list tegrabl_linuxboot_param) (ptr remain : Z) : M cl (Z * Z) :=
  match params with
  | [] => ret (ptr, remain)
  | p :: params =>
      let! there := does_command_exist (str p) in
      if there then append_params params ptr remain
      else
        match append p with
        | None => append_params params ptr remain
        | Some handler =>
            let! idx := on_mem (handler ptr remain (str p)) in
            if (0 <? idx) && (idx <=? remain) then append_params params (ptr + idx) (remain - idx)
            else append_params params ptr remain
        end
  end.

Definition tegrabl_linuxboot_prepare_cmdline (initcmdline : Z) : M cl Z :=
  let! _ := on_mem (memset dma s_cmdline 0 COMMAND_LINE_SIZE) in
  let! i := init_cmd_list initcmdline in
  let remain := COMMAND_LINE_SIZE - i in
  let ptr := s_cmdline + i in
  let bootimg := bootimg_cmdline board in
  let! some := if bootimg =? 0 then ret false else let! n := on_mem (strlen fuel bootimg) in ret (truthy n) in
  let! (done, ptr, remain) :=
    if some then
      let! idx := on_mem (tegrabl_linuxboot_add_string 0 ptr remain bootimg) in
      if idx <=? 0 then ret (false, ptr, remain)
      else if remain <? idx then ret (true, ptr + remain, 0)
      else ret (false, ptr + idx, remain - idx)
    else ret (false, ptr, remain) in
  if done then ret s_cmdline
  else
    let! (ptr, remain) := append_params common_params ptr remain in
    match extra_params with
    | Some params => let! _ := append_params params ptr remain in ret s_cmdline
    | None => ret s_cmdline
    end.
End Cmdline.
