(* ===== verification/CmdlineSpec.v ===== *)
(** * The command line of the kernel: correctness

    The line that is given is cut into words at the spaces outside of quotes and
    rebuilt with one space behind each; a parameter is appended when no word sets
    it already; and the whole stays a terminated string in its array. *)
From Stdlib Require Import Ascii String.
From stdpp Require Import gmap.
From S2P Require Import Prelude Interfaces Clib ClibSpec CString CStringSpec MemSpec Printf PrintfSpec Cmdline.
#[local] Open Scope Z_scope.

(** ** Words *)

Definition ignore_text : list Z := chars IGNORE_FASTBOOT_CMD.

(** [w] is the word being read, [q] whether a quote is open. *)
Fixpoint words_from (q : bool) (w l : list Z) : list (list Z) :=
  match l with
  | [] => match w with [] => [] | _ => [w ++ if q then [34] else []] end
  | c :: l =>
      if iswhitespace c && negb q then match w with [] => words_from false [] l | _ => w :: words_from false [] l end
      else words_from (if c =? 34 then negb q else q) (w ++ [c]) l
  end.
Definition words (l : list Z) : list (list Z) := words_from false [] l.

Definition ignored (w : list Z) : bool := bool_decide (w = ignore_text) || bool_decide (w = [34] ++ ignore_text ++ [34]).

(** A space behind the last word. *)
Definition closed (t : list Z) : list Z :=
  match last t with None => [] | Some c => if c =? 32 then t else t ++ [32] end.

(** The words behind [o], up to one that is ignored; those behind it run together. *)
Fixpoint line_from (o : list Z) (ws : list (list Z)) : list Z :=
  match ws with
  | [] => o
  | w :: ws => if ignored w then closed (o ++ concat ws) else line_from (o ++ w ++ [32]) ws
  end.
Definition line (ws : list (list Z)) : list Z := line_from [] ws.

Lemma line_from_app ws : forall o, existsb ignored ws = false -> line_from o ws = o ++ concat (map (fun w => w ++ [32]) ws).
Proof.
  induction ws as [|w ws IH]; intros o H; cbn in *; [by rewrite app_nil_r|]. apply orb_false_iff in H as [-> H].
  rewrite IH by done. by rewrite <- !app_assoc.
Qed.

(** What the loop keeps: the output, the word being read, the open quote, and
    whether a word was ignored. *)
Definition scan_step (c : Z) (st : list Z * list Z * bool * bool) : list Z * list Z * bool * bool :=
  let '(o, w, q, ig) := st in
  if iswhitespace c && negb q then
    match w with
    | [] => st
    | _ => if ig then (o ++ w, [], q, ig) else if ignored w then (o, [], q, true) else (o ++ w ++ [32], [], q, false)
    end
  else (o, w ++ [c], if c =? 34 then negb q else q, ig).

Abbreviation scan_all := (fold_left (fun st c => scan_step c st)).

Definition finish (st : list Z * list Z * bool * bool) : list Z :=
  let '(o, w, q, ig) := st in
  let w := w ++ (if q then [34] else []) in
  closed (if negb ig && ignored w then o else o ++ w).

(** A word does not end in a space unless a quote is open; nothing is open between words. *)
Definition word_ok (w : list Z) (q : bool) : Prop := (w = [] -> q = false) /\ (q = false -> last w <> Some 32).

Lemma closed_spaced o : (o = [] \/ last o = Some 32) -> closed o = o.
Proof. intros [-> | H]; [done|]. unfold closed. by rewrite H. Qed.

Lemma closed_word o w : w <> [] -> last w <> Some 32 -> closed (o ++ w) = o ++ w ++ [32].
Proof.
  intros Hw Hl. destruct w as [|c w _] using rev_ind; [done|]. rewrite last_snoc in Hl. unfold closed. rewrite app_assoc, last_snoc.
  destruct (Z.eqb_spec c 32); [naive_solver|]. by rewrite <- !app_assoc.
Qed.

Lemma whitespace_cases c : iswhitespace c = false -> c <> 32.
Proof. intros H ->. done. Qed.

Lemma word_ok_step c w q : (iswhitespace c && negb q) = false -> word_ok w q -> word_ok (w ++ [c]) (if c =? 34 then negb q else q).
Proof.
  intros Hc [H1 H2]. split; [by destruct w|]. intros Hq. rewrite last_snoc. destruct (Z.eqb_spec c 34) as [->|]; [done|].
  intros [= ->]. subst q. done.
Qed.

Lemma closing_word w q : w <> [] -> word_ok w q -> last (w ++ if q then [34] else []) <> Some 32.
Proof. intros Hw [_ H]. destruct q; [by rewrite last_snoc|]. rewrite app_nil_r. by apply H. Qed.

(** Once a word was ignored the rest runs together. *)
Lemma scan_joins l : forall o w q, word_ok w q ->
  finish (fold_left (fun st c => scan_step c st) l (o, w, q, true)) = closed (o ++ concat (words_from q w l)).
Proof.
  induction l as [|c l IH]; intros o w q Hw; cbn [fold_left words_from].
  - cbn. destruct w; [|cbn; by rewrite app_nil_r]. destruct q; [by destruct Hw as [H _]; specialize (H eq_refl)|done].
  - cbn [scan_step]. destruct (iswhitespace c && negb q) eqn:E.
    + assert (q = false) as -> by (apply andb_true_iff in E as [_ H]; by apply negb_true_iff in H).
      destruct w as [|x w]; rewrite IH by done; [done|]. cbn [concat]. by rewrite <- app_assoc.
    + rewrite IH by (by apply word_ok_step). done.
Qed.

Lemma scan_lines l : forall o w q, word_ok w q -> (o = [] \/ last o = Some 32) ->
  finish (fold_left (fun st c => scan_step c st) l (o, w, q, false)) = line_from o (words_from q w l).
Proof.
  induction l as [|c l IH]; intros o w q Hw Ho; cbn [fold_left words_from].
  - destruct w as [|x w].
    + destruct q; [by destruct Hw as [H _]; specialize (H eq_refl)|]. cbn. rewrite app_nil_r. by apply closed_spaced.
    + cbn [finish line_from negb andb concat]. pose proof (closing_word (x :: w) q ltac:(done) Hw) as Hl. destruct (ignored _); [by rewrite app_nil_r|].
      by apply closed_word.
  - cbn [scan_step]. destruct (iswhitespace c && negb q) eqn:E.
    + assert (q = false) as -> by (apply andb_true_iff in E as [_ H]; by apply negb_true_iff in H).
      destruct w as [|x w]; [by apply IH|]. cbn [line_from]. destruct (ignored (x :: w)).
      * by rewrite scan_joins.
      * apply IH; [done|]. right. by rewrite app_assoc, last_snoc.
    + apply IH; [by apply word_ok_step|done].
Qed.

Lemma quoted_inj (w t : list Z) e : 34 :: w ++ [e] = [34] ++ t ++ [34] -> w = t /\ e = 34.
Proof. intros E. injection E as E. by apply app_inj_tail in E. Qed.

Lemma on_mem_run {A} (c : M mem A) s a m : c (cl_mem s) = (Ret a, m) -> on_mem c s = (Ret a, mk_cl m (n_orig_cmdlen s) (n_ignore_fastboot s)).
Proof. unfold on_mem. by intros ->. Qed.

Lemma on_mem_pure {A} (c : M mem A) s a : c (cl_mem s) = (Ret a, cl_mem s) -> on_mem c s = (Ret a, s).
Proof. intros E. rewrite (on_mem_run _ _ _ _ E). by destruct s. Qed.

Section Init.
Context (fuel : nat) (lit : string -> Z) (s_cmdline : Z) (dma : tegrabl_clib_dma).
(** The memory in front, in which the literal stands apart from the array. *)
Context (m0 : mem).
Definition apart_from_line (p : Z) (l : list Z) : Prop := p + len l < s_cmdline \/ s_cmdline + COMMAND_LINE_SIZE <= p.
Hypotheses (Hlit : cstr m0 (lit IGNORE_FASTBOOT_CMD) ignore_text) (Hlit_apart : apart_from_line (lit IGNORE_FASTBOOT_CMD) ignore_text).
Hypothesis (Hmapped : mapped m0 s_cmdline COMMAND_LINE_SIZE).

(** Only the array has changed. *)
Definition kept (m : mem) : Prop := same_extent m0 m /\ unchanged_outside m0 m s_cmdline COMMAND_LINE_SIZE.

Lemma kept_cstr m p l : kept m -> apart_from_line p l -> cstr m0 p l -> cstr m p l.
Proof using. intros [_ H] Ha. apply cstr_ext. intros x Hx. apply H. unfold apart_from_line in Ha. lia. Qed.

Lemma kept_store m i v : kept m -> 0 <= i < COMMAND_LINE_SIZE ->
  store (s_cmdline + i) v m = (Ret tt, <[s_cmdline + i := v]> m) /\ kept (<[s_cmdline + i := v]> m).
Proof using Hmapped.
  intros [He Hu] Hi. split; [apply store_run, He, Hmapped; lia|]. split.
  - intros x Hx. destruct (decide (x = s_cmdline + i)) as [->|]; [rewrite lookup_insert_eq; by eexists|]. rewrite lookup_insert_ne by done. by apply He.
  - intros x Hx. rewrite lookup_insert_ne by lia. by apply Hu.
Qed.

(** Comparing a word with the one that is ignored. *)
Lemma check_run s i w : kept (cl_mem s) -> n_ignore_fastboot s = 0 -> w <> [] -> holds (cl_mem s) (s_cmdline + i) w ->
  check_ignore_fastboot_cmd s_cmdline (lit IGNORE_FASTBOOT_CMD) 14 i (i + len w) s =
    (Ret (ignored w), mk_cl (cl_mem s) (n_orig_cmdlen s) (if ignored w then 1 else 0)).
Proof using Hlit Hlit_apart.
  intros Hk Hn Hw Hh. unfold check_ignore_fastboot_cmd. destruct w as [|c w]; [done|]. apply holds_cons in Hh as Hh'. destruct Hh' as [Ec Hh'].
  rewrite (bind_run _ _ _ _ _ (on_mem_pure _ _ _ (load_run _ _ _ Ec))).
  pose proof (cstr_holds _ _ _ (kept_cstr _ _ _ Hk Hlit_apart Hlit)) as [Hi _]%holds_app.
  assert (Hlen : length ignore_text = 14%nat) by done.
  assert (Hcmp : forall l p, length l = 14%nat -> holds (cl_mem s) p l ->
    (let! d := on_mem (memcmp p (lit IGNORE_FASTBOOT_CMD) 14) in set_ignore (d =? 0)) s =
      (Ret tt, mk_cl (cl_mem s) (n_orig_cmdlen s) (if bool_decide (l = ignore_text) then 1 else 0))).
  { intros l p Hl Hp. destruct (memcmp_run l ignore_text (cl_mem s) p (lit IGNORE_FASTBOOT_CMD)) as (d & Ed & Hd); [done|done|done|].
    unfold memcmp. rewrite Hl in Ed. rewrite (bind_run _ _ _ _ _ (on_mem_pure _ _ _ Ed)). unfold set_ignore, modify. do 2 f_equal.
    case_bool_decide as Hb; [by rewrite (proj2 Hd Hb)|]. destruct (Z.eqb_spec d 0) as [E|]; [by apply Hd in E|done]. }
  assert (Hno : forall b : bool, b = false -> (Ret tt, s) = (Ret tt, mk_cl (cl_mem s) (n_orig_cmdlen s) (if b then 1 else 0))).
  { intros b ->. rewrite <- Hn. by destruct s. }
  set (body := if 34 =? c then _ else _).
  assert (Hbody : body s = (Ret tt, mk_cl (cl_mem s) (n_orig_cmdlen s) (if ignored (c :: w) then 1 else 0))).
  { subst body. unfold ignored. destruct (Z.eqb_spec 34 c) as [<-|Hc].
    - rewrite (bool_decide_eq_false_2 (34 :: w = ignore_text)) by done. cbn [orb]. cbn [List.length].
      destruct (Z.eqb_spec 14 (i + Z.of_nat (S (length w)) - i - 2)) as [Hl|Hl]; cycle 1.
      { apply Hno, bool_decide_eq_false_2. intros E%(f_equal length). change (S (length w) = 16%nat) in E. lia. }
      destruct w as [|e w _] using rev_ind; [cbn [List.length] in Hl; lia|]. rewrite length_app in Hl |- *. cbn [List.length] in Hl |- *.
      apply holds_app in Hh' as [Hh1 Hh2]. apply holds_cons in Hh2 as [Ee _].
      replace (s_cmdline + (i + Z.of_nat (S (length w + 1)) - 1)) with (s_cmdline + i + 1 + len w) by lia.
      rewrite (bind_run _ _ _ _ _ (on_mem_pure _ _ _ (load_run _ _ _ Ee))). destruct (Z.eqb_spec 34 e) as [<-|He].
      + replace (s_cmdline + (i + 1)) with (s_cmdline + i + 1) by lia. rewrite (Hcmp w) by (done || lia).
        do 2 f_equal. destruct (decide (w = ignore_text)) as [->|Hne]; [by rewrite !bool_decide_eq_true_2|].
        rewrite !bool_decide_eq_false_2; [done| |done]. by intros [-> _]%quoted_inj.
      + apply Hno, bool_decide_eq_false_2. by intros [_ ->]%quoted_inj.
    - rewrite (bool_decide_eq_false_2 (c :: w = [34] ++ _)) by (intros [= ? _]; done). rewrite orb_false_r.
      destruct (Z.eqb_spec 14 (i + len (c :: w) - i)) as [Hl|Hl]; [apply Hcmp; [lia|done]|]. apply Hno, bool_decide_eq_false_2.
      intros E%(f_equal length). rewrite Hlen in E. lia. }
  rewrite (bind_run _ _ _ _ _ Hbody). unfold ignoring, gets. cbn. by destruct (ignored (c :: w)).
Qed.

Lemma ignored_not_spaced r : ignored (r ++ [32]) = false.
Proof using.
  unfold ignored. assert (H : forall t, last t <> Some 32 -> bool_decide (r ++ [32] = t) = false).
  { intros t Ht. apply bool_decide_eq_false_2. intros <-. by rewrite last_snoc in Ht. }
  by rewrite !H.
Qed.

Lemma ignoring_run s : ignoring s = (Ret (truthy (n_ignore_fastboot s)), s).
Proof using. done. Qed.

Lemma drop_run s i w : kept (cl_mem s) -> n_ignore_fastboot s = 0 \/ n_ignore_fastboot s = 1 -> w <> [] -> holds (cl_mem s) (s_cmdline + i) w ->
  let ig := truthy (n_ignore_fastboot s) in
  drop_ignored lit s_cmdline 14 i (i + len w) s =
    (Ret (if negb ig && ignored w then i else i + len w), mk_cl (cl_mem s) (n_orig_cmdlen s) (if ig || ignored w then 1 else 0)).
Proof using Hlit Hlit_apart.
  intros Hk Hn Hw Hh. unfold drop_ignored. cbv zeta. rewrite (bind_run _ _ _ _ _ (ignoring_run s)). destruct Hn as [Hn|Hn]; rewrite Hn.
  - cbn [truthy Z.eqb negb andb orb]. by rewrite (bind_run _ _ _ _ _ (check_run s i w Hk Hn Hw Hh)).
  - cbn. rewrite <- Hn. by destruct s.
Qed.

Definition scanned (s : cl) (x : scanner) (st : list Z * list Z * bool * bool) : Prop :=
  let '(o, w, q, ig) := st in
  kept (cl_mem s) /\ holds (cl_mem s) s_cmdline (o ++ w) /\ n_ignore_fastboot s = (if ig then 1 else 0) /\
  next x = len (o ++ w) /\ quote x = q /\
  (mood x = 1 /\ w <> [] /\ start x = len o \/
   mood x = 0 /\ w = [] /\ q = false /\ (ig = true \/ o = [] \/ exists o' r, o = o' ++ r ++ [32] /\ start x = len o')).

(** A character is stored behind the others. *)
Lemma scanned_store s o w q ig c x : scanned s x (o, w, q, ig) -> next x < COMMAND_LINE_SIZE -> forall st q', (st = len o \/ w = [] /\ st = next x) ->
  let s' := mk_cl (<[s_cmdline + next x := c]> (cl_mem s)) (n_orig_cmdlen s) (n_ignore_fastboot s) in
  on_mem (store (s_cmdline + next x) c) s = (Ret tt, s') /\ scanned s' (mk_scanner (next x + 1) 1 q' st) (o, w ++ [c], q', ig).
Proof using Hmapped.
  intros (Hk & Hh & Hn & Hx & Hq & _) Hb st q' Hst. pose proof Hx as Hx0. cbv zeta.
  destruct (kept_store (cl_mem s) (next x) c Hk) as [E Hk']; [lia|]. split; [by apply on_mem_run|].
  split; [done|]. split; [rewrite Hx, app_assoc; by apply holds_snoc|]. split; [done|].
  split; [cbn [next]; rewrite Hx, !length_app; cbn [List.length]; lia|]. split; [done|]. left. cbn. split; [done|]. split; [by destruct w|].
  destruct Hst as [|[-> ->]]; [done|]. by rewrite Hx, app_nil_r.
Qed.

Lemma scan_char_run s x st c : scanned s x st -> c <> 0 -> next x < COMMAND_LINE_SIZE ->
  exists s' x', scan_char lit s_cmdline 14 c x s = (Ret (x', true), s') /\ scanned s' x' (scan_step c st) /\ next x' <= next x + 1.
Proof using Hlit Hlit_apart Hmapped.
  destruct st as [[[o w] q] ig]. intros H Hc Hb. pose proof H as (Hk & Hh & Hn & Hx & Hq & Hm). unfold scan_char. cbn [scan_step].
  assert (Hstore : forall q' st, (st = len o \/ w = [] /\ st = next x) -> exists s' x',
    (on_mem (store (s_cmdline + next x) c) ;;; ret (mk_scanner (next x + 1) 1 q' st, true)) s = (Ret (x', true), s') /\
    scanned s' x' (o, w ++ [c], q', ig) /\ next x' <= next x + 1).
  { intros q' st Hst. destruct (scanned_store s o w q ig c x H Hb st q' Hst) as [E HS]. rewrite (bind_run _ _ _ _ _ E).
    do 2 eexists. split; [done|]. split; [exact HS|cbn; lia]. }
  destruct Hm as [(Hm & Hw & Hst) | (Hm & -> & -> & Hst)]; rewrite Hm; cbn [Z.eqb].
  - destruct (iswhitespace c) eqn:Ew; cbn [andb].
    + rewrite Hq. destruct q; cbn [negb].
      * replace (c =? 34) with false by (symmetry; apply Z.eqb_neq; intros ->; done). apply Hstore. by left.
      * apply holds_app in Hh as [Hho Hhw]. rewrite Hx, length_app, Nat2Z.inj_add, Hst.
        rewrite (bind_run _ _ _ _ _ (drop_run s (len o) w Hk ltac:(rewrite Hn; destruct ig; auto) Hw Hhw)).
        rewrite Hn, (bind_run _ _ _ _ _ (ignoring_run _)). cbn [n_ignore_fastboot]. destruct w as [|e w]; [done|]. destruct ig; cbn [truthy Z.eqb negb andb orb].
        -- do 2 eexists. split; [done|]. split; [|cbn; lia]. split; [done|]. rewrite app_nil_r. split; [by apply holds_app|]. split; [done|].
           split; [cbn [next]; rewrite length_app; lia|]. split; [done|]. right. auto.
        -- destruct (ignored (e :: w)) eqn:Ei; cbn [truthy Z.eqb negb].
           ++ do 2 eexists. split; [done|]. split; [|cbn; lia]. split; [done|]. rewrite app_nil_r. split; [done|]. split; [done|]. split; [done|]. split; [done|]. right. auto.
           ++ destruct (kept_store (cl_mem s) (len o + len (e :: w)) 32 Hk) as [E Hk']; [rewrite Hx, length_app in Hb; lia|].
              unfold bind at 1 2. rewrite (on_mem_run _ (mk_cl _ _ _) _ _ E). do 2 eexists. split; [done|]. split; [|cbn; lia].
              split; [done|]. rewrite app_nil_r. split.
              { rewrite app_assoc. replace (len o + len (e :: w)) with (len (o ++ e :: w)) by (rewrite length_app; lia). apply holds_snoc, holds_app. done. }
              split; [done|]. split; [cbn [next]; rewrite !length_app; cbn [List.length]; lia|]. split; [done|]. right. split; [done|]. split; [done|]. split; [done|].
              right; right. by exists o, (e :: w).
    + rewrite Hq. destruct (c =? 34); [apply Hstore; by left|]. replace (c =? 0) with false by (symmetry; by apply Z.eqb_neq). apply Hstore. by left.
  - rewrite andb_true_r. destruct (iswhitespace c) eqn:Ew; cbn [negb].
    + exists s, x. split; [done|]. split; [|lia]. split; [done|]. split; [done|]. split; [done|]. split; [done|]. split; [done|]. right. auto.
    + replace (c =? 0) with false by (symmetry; by apply Z.eqb_neq). rewrite Hq. apply Hstore. by right.
Qed.

Lemma scan_line_run r l : forall p s x st, cstr m0 p (l ++ r) -> apart_from_line p (l ++ r) -> scanned s x st -> next x + len l <= COMMAND_LINE_SIZE ->
  exists s' x', scan_line lit s_cmdline (length l) 14 p x s = (Ret x', s') /\ scanned s' x' (scan_all l st) /\ next x' <= next x + len l.
Proof using Hlit Hlit_apart Hmapped.
  induction l as [|c l IH]; intros p s x st Hl Ha Hs Hb; [do 2 eexists; split; [done|]; split; [done|cbn; lia]|].
  cbn [scan_line List.length fold_left app] in *. destruct st as [[[o w] q] ig]. pose proof (kept_cstr _ _ _ (proj1 Hs) Ha Hl) as H1.
  rewrite (bind_run _ _ _ _ _ (on_mem_pure _ _ _ (load_run _ _ _ (proj1 H1)))).
  destruct (scan_char_run s x (o, w, q, ig) c Hs) as (s1 & x1 & E1 & Hs1 & Hx1); [destruct Hl; lia|lia|].
  rewrite (bind_run _ _ _ _ _ E1). cbn beta iota.
  destruct (IH (p + 1) s1 x1 (scan_step c (o, w, q, ig))) as (s2 & x2 & E2 & Hs2 & Hx2).
  - apply Hl.
  - unfold apart_from_line in *. cbn [List.length] in Ha. lia.
  - done.
  - lia.
  - exists s2, x2. split; [done|]. split; [done|lia].
Qed.

Lemma scan_ignored l : forall o w q ig o' w' q' ig', scan_all l (o, w, q, ig) = (o', w', q', ig') ->
  ig' || ignored (w' ++ if q' then [34] else []) = ig || existsb ignored (words_from q w l).
Proof using.
  induction l as [|c l IH]; intros o w q ig o' w' q' ig' E; cbn [fold_left words_from] in *.
  - simplify_eq. destruct w'; [destruct q'; done|cbn [existsb]; by rewrite orb_false_r].
  - cbn [scan_step] in E. destruct (iswhitespace c && negb q) eqn:Ec; [|by apply IH in E].
    assert (q = false) as -> by (apply andb_true_iff in Ec as [_ H]; by apply negb_true_iff in H).
    destruct w as [|x w]; [by apply IH in E|]. cbn [existsb].
    destruct ig; [by apply IH in E|]. destruct (ignored (x :: w)); by apply IH in E.
Qed.

(** Without an ignored word, the output is the words in front. *)
Lemma scan_words l : forall o w q o' w' q', scan_all l (o, w, q, false) = (o', w', q', false) ->
  exists ws, o' = o ++ concat (map (fun w => w ++ [32]) ws) /\
    words_from q w l = ws ++ match w' with [] => [] | _ => [w' ++ if q' then [34] else []] end.
Proof using.
  assert (Hig : forall l o w q o' w' q', scan_all l (o, w, q, true) = (o', w', q', false) -> False).
  { clear. induction l as [|c l IH]; intros o w q o' w' q' E; [done|]. cbn [fold_left scan_step] in E. destruct (_ && _); [destruct w|]; by apply IH in E. }
  induction l as [|c l IH]; intros o w q o' w' q' E; cbn [fold_left words_from] in *.
  - simplify_eq. exists []. by rewrite app_nil_r.
  - cbn [scan_step] in E. destruct (iswhitespace c && negb q) eqn:Ec; [|by apply IH in E].
    assert (q = false) as -> by (apply andb_true_iff in Ec as [_ H]; by apply negb_true_iff in H).
    destruct w as [|x w]; [by apply IH in E|]. destruct (ignored (x :: w)); [by apply Hig in E|].
    apply IH in E as (ws & -> & ->). exists ((x :: w) :: ws). split; [|done]. cbn [map concat]. by rewrite <- !app_assoc.
Qed.

(** The end of the line: a quote that is open is closed, an ignored word dropped. *)
Lemma close_quote_run s x o w q ig : scanned s x (o, w, q, ig) -> next x < COMMAND_LINE_SIZE ->
  let w' := w ++ if q then [34] else [] in
  exists s', (if quote x then on_mem (store (s_cmdline + next x) 34) ;;; ret (next x + 1) else ret (next x)) s = (Ret (len (o ++ w')), s') /\
    kept (cl_mem s') /\ holds (cl_mem s') s_cmdline (o ++ w') /\ n_ignore_fastboot s' = (if ig then 1 else 0).
Proof using Hmapped.
  intros H Hb. pose proof H as (Hk & Hh & Hn & Hx & Hq & _). rewrite Hq. cbv zeta. destruct q.
  - destruct (kept_store (cl_mem s) (next x) 34 Hk) as [E Hk']; [lia|]. rewrite (bind_run _ _ _ _ _ (on_mem_run _ _ _ _ E)).
    eexists. split; [unfold ret; do 2 f_equal; rewrite Hx, !length_app; cbn [List.length]; lia|]. split; [done|]. split; [|done].
    cbn [cl_mem]. rewrite app_assoc, Hx. by apply holds_snoc.
  - rewrite app_nil_r. exists s. by rewrite Hx.
Qed.

Lemma drop_last_run s s' x o w q ig : scanned s x (o, w, q, ig) -> o ++ w <> [] ->
  let w' := w ++ if q then [34] else [] in
  kept (cl_mem s') -> holds (cl_mem s') s_cmdline (o ++ w') -> n_ignore_fastboot s' = (if ig then 1 else 0) ->
  drop_ignored lit s_cmdline 14 (start x) (len (o ++ w')) s' =
    (Ret (len (if negb ig && ignored w' then o else o ++ w')), mk_cl (cl_mem s') (n_orig_cmdlen s') (if ig || ignored w' then 1 else 0)).
Proof using Hlit Hlit_apart.
  intros (_ & _ & _ & _ & _ & Hm) Hne w' Hk Hh Hn.
  assert (Hn2 : n_ignore_fastboot s' = 0 \/ n_ignore_fastboot s' = 1) by (rewrite Hn; destruct ig; auto).
  assert (Hig : truthy (n_ignore_fastboot s') = ig) by (rewrite Hn; by destruct ig).
  destruct Hm as [(_ & Hw & ->) | (_ & -> & -> & Hst)].
  - apply holds_app in Hh as [_ Hhw]. assert (Hw' : w' <> []) by (subst w'; by destruct w).
    pose proof (drop_run s' (len o) w' Hk Hn2 Hw' Hhw) as E. cbv zeta in E. rewrite Hig in E. rewrite length_app, Nat2Z.inj_add, E.
    destruct (negb ig && ignored w'); [done|]. by rewrite length_app, Nat2Z.inj_add.
  - subst w'. rewrite app_nil_r in *. destruct ig; cbn [negb andb orb].
    + unfold drop_ignored. rewrite (bind_run _ _ _ _ _ (ignoring_run _)), Hig. unfold ret. rewrite <- Hn. by destruct s'.
    + destruct Hst as [?|[?|(o' & r & -> & ->)]]; [done|done|]. apply holds_app in Hh as [_ Hhr].
      pose proof (drop_run s' (len o') (r ++ [32]) Hk Hn2 ltac:(by destruct r) Hhr) as E. cbv zeta in E. rewrite Hig, ignored_not_spaced in E.
      rewrite length_app, Nat2Z.inj_add, E. cbn [app]. change (ignored []) with false. cbn [negb andb orb]. by rewrite (length_app o'), Nat2Z.inj_add.
Qed.

(** The length the final part leaves. *)
Lemma close_line_run s n N : kept (cl_mem s) -> holds (cl_mem s) s_cmdline N -> N <> [] -> len N < COMMAND_LINE_SIZE -> n = len N ->
  exists s', (let! c := on_mem (load (s_cmdline + (n - 1))) in
     if negb (32 =? c) then on_mem (store (s_cmdline + n) 32) ;;; ret (n + 1) else ret n) s = (Ret (len (closed N)), s') /\
    kept (cl_mem s') /\ holds (cl_mem s') s_cmdline (closed N) /\ n_ignore_fastboot s' = n_ignore_fastboot s.
Proof using Hmapped.
  intros Hk Hh Hne Hb ->. destruct N as [|c N _] using rev_ind; [done|]. unfold closed. rewrite last_snoc.
  assert (E : load (s_cmdline + (len (N ++ [c]) - 1)) (cl_mem s) = (Ret c, cl_mem s)).
  { rewrite length_app. cbn [List.length]. replace (s_cmdline + (Z.of_nat (length N + 1) - 1)) with (s_cmdline + len N) by lia.
    apply (load_holds _ _ (N ++ [c])); [done|]. by rewrite lookup_app_r, Nat.sub_diag by lia. }
  rewrite (bind_run _ _ _ _ _ (on_mem_pure _ _ _ E)), Z.eqb_sym. destruct (Z.eqb_spec c 32) as [->|Hc]; cbn [negb]; [by exists s|].
  destruct (kept_store (cl_mem s) (len (N ++ [c])) 32 Hk) as [E2 Hk']; [lia|]. rewrite (bind_run _ _ _ _ _ (on_mem_run _ _ _ _ E2)).
  eexists. split; [unfold ret; do 2 f_equal; rewrite !length_app; cbn [List.length]; lia|]. split; [done|]. split; [by apply holds_snoc|done].
Qed.

Lemma closed_bounds N : len N <= len (closed N) <= len N + 1.
Proof using. unfold closed. destruct (last N) as [c|] eqn:E; [destruct (c =? 32)|]; rewrite ?length_app; cbn; [lia..|]. apply last_None in E as ->. cbn. lia. Qed.

Lemma init_cmd_list_run s cmdline given : m0 = cl_mem s -> cstr m0 cmdline given -> apart_from_line cmdline given ->
  cmdline <> 0 -> len given <= COMMAND_LINE_SIZE - 3 -> (length given < fuel)%nat -> (14 < fuel)%nat ->
  n_ignore_fastboot s = 0 -> (forall w, words given = [w] -> ignored w = false) ->
  exists s', init_cmd_list fuel lit s_cmdline cmdline s = (Ret (len (line (words given))), s') /\ kept (cl_mem s') /\
    holds (cl_mem s') s_cmdline (line (words given) ++ [0]) /\ n_orig_cmdlen s' = len (line (words given)) /\
    n_ignore_fastboot s' = (if existsb ignored (words given) then 1 else 0) /\ len (line (words given)) < COMMAND_LINE_SIZE.
Proof using Hlit Hlit_apart Hmapped.
  intros Em Hg Ha Hne Hlen Hf1 Hf2 Hn Hex. unfold COMMAND_LINE_SIZE in Hlen. unfold init_cmd_list. rewrite (proj2 (Z.eqb_neq _ _) Hne).
  assert (Hk : kept (cl_mem s)) by (rewrite <- Em; split; [by intros x|by intros x]).
  pose proof Hg as Hg'. rewrite Em in Hg'. pose proof Hlit as Hlit'. rewrite Em in Hlit'.
  rewrite (bind_run _ _ _ _ _ (on_mem_pure _ _ _ (strlen_run _ _ _ _ Hlit' Hf2 ltac:(done)))).
  rewrite (bind_run _ _ _ _ _ (on_mem_pure _ _ _ (strlen_run _ _ _ _ Hg' Hf1 ltac:(lia)))).
  change (len ignore_text) with 14. rewrite (wrapw_small 32) by (unfold in_word; lia).
  replace (Z.to_nat (Z.min (len given) COMMAND_LINE_SIZE)) with (length given) by (unfold COMMAND_LINE_SIZE; lia).
  destruct (scan_line_run [] given cmdline s (mk_scanner 0 0 false 0) ([], [], false, false)) as (s1 & x1 & E1 & Hs1 & Hx1); [by rewrite app_nil_r|by rewrite app_nil_r|..].
  { split; [done|]. split; [apply holds_nil|]. split; [done|]. split; [done|]. split; [done|]. right. split; [done|]. split; [done|]. split; [done|]. right. by left. }
  { cbn [next]. unfold COMMAND_LINE_SIZE. lia. }
  rewrite (bind_run _ _ _ _ _ E1). cbn [next] in Hx1.
  destruct (scan_all given ([], [], false, false)) as [[[o w] q] ig] eqn:Est.
  pose proof (scan_lines given [] [] false ltac:(done) ltac:(by left)) as Hline. rewrite Est in Hline. cbn [finish] in Hline.
  fold (words given) in Hline. fold (line (words given)) in Hline.
  pose proof (scan_ignored given _ _ _ _ _ _ _ _ Est) as Hign. cbn [orb] in Hign. fold (words given) in Hign.
  pose proof Hs1 as (Hk1 & Hh1 & Hn1 & Hnext & Hq1 & _).
  set (w' := w ++ if q then [34] else []) in *. set (N := if negb ig && ignored w' then o else o ++ w') in *.
  assert (HN : len N <= len given + 1).
  { subst N w'. rewrite length_app in Hnext. destruct (_ && _); rewrite ?length_app; destruct q; cbn [List.length]; lia. }
  pose proof (closed_bounds N) as Hcl. rewrite Hline in Hcl.
  assert (Hlast : exists s2, (if next x1 =? 0 then ret 0
      else let! n := if quote x1 then on_mem (store (s_cmdline + next x1) 34) ;;; ret (next x1 + 1) else ret (next x1) in
        let! n := drop_ignored lit s_cmdline 14 (start x1) n in
        let! c := on_mem (load (s_cmdline + (n - 1))) in
        if negb (32 =? c) then on_mem (store (s_cmdline + n) 32) ;;; ret (n + 1) else ret n) s1 = (Ret (len (line (words given))), s2) /\
      kept (cl_mem s2) /\ holds (cl_mem s2) s_cmdline (line (words given)) /\ n_ignore_fastboot s2 = (if existsb ignored (words given) then 1 else 0)).
  { destruct (Z.eqb_spec (next x1) 0) as [Hz|Hz].
    - assert (o = [] /\ w = []) as [-> ->] by (rewrite Hnext in Hz; apply app_eq_nil, length_zero_iff_nil; lia).
      assert (q = false) as -> by (destruct Hs1 as (_ & _ & _ & _ & _ & [(_ & ? & _)|(_ & _ & ? & _)]); done).
      assert (Hl0 : line (words given) = []) by (rewrite <- Hline; subst N w'; by destruct (negb ig && _)).
      assert (Hi0 : ig = existsb ignored (words given)) by (rewrite <- Hign; subst w'; change (ignored ([] ++ [])) with false; by rewrite orb_false_r).
      exists s1. rewrite Hl0, <- Hi0. done.
    - destruct (close_quote_run s1 x1 o w q ig Hs1) as (s2 & E2 & Hk2 & Hh2 & Hn2); [unfold COMMAND_LINE_SIZE; lia|]. fold w' in E2, Hh2.
      rewrite (bind_run _ _ _ _ _ E2).
      rewrite (bind_run _ _ _ _ _ (drop_last_run s1 s2 x1 o w q ig Hs1 ltac:(intros E; rewrite E in Hnext; done) Hk2 Hh2 Hn2)). fold w' N.
      assert (Hne2 : N <> []).
      { subst N. destruct (negb ig && ignored w') eqn:Ed; [|intros [-> Ew]%app_eq_nil; subst w'; apply app_eq_nil in Ew as [-> _]; done].
        intros ->. apply andb_true_iff in Ed as [Hig Hi]. destruct ig; [done|]. apply scan_words in Est as (ws & Ho & Ew).
        destruct ws as [|v ws]; [|by destruct v]. destruct w as [|c w]; [subst w'; destruct q; vm_compute in Hi; discriminate|]. cbn [app] in Ew. fold (words given) in Ew.
        by rewrite (Hex w' Ew) in Hi. }
      destruct (close_line_run (mk_cl (cl_mem s2) (n_orig_cmdlen s2) (if ig || ignored w' then 1 else 0)) (len N) N Hk2) as (s3 & E3 & Hk3 & Hh3 & Hn3).
      + subst N. destruct (_ && _); [by apply holds_app in Hh2 as [? _]|done].
      + done.
      + unfold COMMAND_LINE_SIZE. lia.
      + done.
      + exists s3. rewrite Hline in *. rewrite E3. split; [done|]. split; [done|]. split; [done|]. rewrite Hn3. cbn. by rewrite Hign. }
  destruct Hlast as (s2 & E2 & Hk2 & Hh2 & Hn2). rewrite (bind_run _ _ _ _ _ E2).
  destruct (kept_store (cl_mem s2) (len (line (words given))) 0 Hk2) as [E3 Hk3]; [unfold COMMAND_LINE_SIZE; lia|].
  rewrite (bind_run _ _ _ _ _ (on_mem_run _ _ _ _ E3)), bind_modify. eexists. split; [done|]. cbn. split; [done|].
  split; [by apply holds_snoc|]. split; [done|]. split; [done|]. unfold COMMAND_LINE_SIZE. lia.
Qed.
End Init.

(** ** Looking for a parameter *)

(** The state of the search on texts; [k] characters of the command are matched. *)
Definition pure_char (c : list Z) (ch mood : Z) (quote : bool) (k : nat) : option (Z * bool * nat) :=
  let toggled := if ch =? 34 then negb quote else quote in
  let v := default 0 (c !! k) in
  if mood =? 0 then if ch =? 34 then Some (4, true, k) else if v =? ch then Some (1, quote, S k) else Some (2, quote, k)
  else if mood =? 1 then
    if v =? ch then Some (1, toggled, S k)
    else if negb (v =? 0) then
      if ch =? 32 then if quote then Some (2, quote, k) else Some (0, quote, O) else Some (2, toggled, k)
    else if quote then if ch =? 61 then None else if ch =? 34 then Some (3, negb quote, k) else Some (2, quote, k)
    else if (ch =? 32) || (ch =? 61) then None else Some (2, toggled, k)
  else if mood =? 2 then
    if ch =? 34 then Some (2, negb quote, k)
    else if negb quote && (ch =? 32) then Some (0, quote, O) else Some (2, quote, k)
  else if mood =? 3 then if (ch =? 61) || (ch =? 32) then None else Some (2, quote, k)
  else if v =? ch then Some (1, quote, S k) else Some (2, quote, k).

Fixpoint pure_match (c l : list Z) (mood : Z) (quote : bool) (k : nat) : bool :=
  match l with
  | [] => false
  | ch :: l => match pure_char c ch mood quote k with None => true | Some (mood, quote, k) => pure_match c l mood quote k end
  end.

Lemma cstr_char m a l k : cstr m a l -> (k <= length l)%nat -> load (a + Z.of_nat k) m = (Ret (default 0 (l !! k)), m).
Proof.
  intros H Hk. apply load_run. apply cstr_holds in H. apply H. destruct (decide (k = length l)) as [->|].
  - by rewrite lookup_app_r, Nat.sub_diag, (lookup_ge_None_2 l) by lia.
  - rewrite lookup_app_l by lia. destruct (lookup_lt_is_Some_2 l k) as [x ->]; [lia|done].
Qed.

Lemma match_char_run m c p ch mood quote k : cstr m p c -> (k <= length c)%nat -> ch <> 0 ->
  match_char p ch mood quote (p + Z.of_nat k) m =
    (Ret ((fun '(mo, q, k) => (mo, q, p + Z.of_nat k)) <$> pure_char c ch mood quote k), m) /\
  (forall mo q k', pure_char c ch mood quote k = Some (mo, q, k') -> (k' <= length c)%nat).
Proof.
  intros Hc Hk Hch. pose proof (cstr_char m p c k Hc Hk) as E. unfold match_char, pure_char.
  assert (HS : p + Z.of_nat k + 1 = p + Z.of_nat (S k)) by lia.
  assert (Hlt : default 0 (c !! k) = ch -> (S k <= length c)%nat).
  { intros Hv. destruct (c !! k) eqn:Ek; [by apply lookup_lt_Some in Ek|by cbn in Hv]. }
  assert (H0 : p = p + Z.of_nat 0) by lia.
  repeat first [rewrite (bind_run _ _ _ _ _ E) | case_match];
    try (split; [first [reflexivity | cbn; by rewrite HS | cbn; by rewrite <- H0]|intros; simplify_eq; try lia; apply Hlt; lia]).
Qed.

Lemma match_line_run l : forall m c p a mood quote k, cstr m p c -> (k <= length c)%nat -> Forall (fun ch => ch <> 0) l -> holds m a l ->
  match_line (length l) p a mood quote (p + Z.of_nat k) m = (Ret (pure_match c l mood quote k), m).
Proof.
  induction l as [|ch l IH]; intros m c p a mood quote k Hc Hk Hl Hh; [done|]. apply Forall_cons in Hl as [Hch Hl].
  apply holds_cons in Hh as [Ech Hh]. cbn [match_line List.length pure_match]. rewrite (bind_run _ _ _ _ _ (load_run _ _ _ Ech)).
  destruct (match_char_run m c p ch mood quote k Hc Hk Hch) as [E Hk']. rewrite (bind_run _ _ _ _ _ E).
  destruct (pure_char c ch mood quote k) as [[[mo q] k']|]; [|done]. cbn. by apply IH; [|eapply Hk'|..].
Qed.

(** Whether the quotes of a word close and no space is outside of them. *)
Fixpoint quotes (q : bool) (w : list Z) : option bool :=
  match w with
  | [] => Some q
  | c :: w => if (c =? 32) && negb q then None else quotes (if c =? 34 then negb q else q) w
  end.
Fixpoint no_empty_quotes (w : list Z) : Prop :=
  match w with
  | c :: w' => (c = 34 -> head w' <> Some 34) /\ no_empty_quotes w'
  | [] => True
  end.

(** The rest of a word behind the part of the command that matched. *)
Fixpoint names_rest (q : bool) (cs w : list Z) : bool :=
  match cs with
  | [] =>
      match w with
      | [] => negb q
      | ch :: w => (ch =? 61) || q && (ch =? 34) && match w with [] => true | d :: _ => d =? 61 end
      end
  | c :: cs => match w with ch :: w => (c =? ch) && names_rest q cs w | [] => false end
  end.
Definition names (c w : list Z) : bool :=
  match w with ch :: w' => if ch =? 34 then names_rest true c w' else names_rest false c w | [] => false end.

Definition plain (c : list Z) : Prop := c <> [] /\ Forall (fun ch => 0 < ch < 256 /\ ch <> 32 /\ ch <> 34) c.

Section Match.
Context (c : list Z) (Hc : plain c).

Lemma skip_word w : forall l q k, quotes q w = Some false -> pure_match c (w ++ 32 :: l) 2 q k = pure_match c l 0 false 0.
Proof using.
  induction w as [|ch w IH]; intros l q k H; cbn [quotes] in H; [injection H as ->; done|].
  cbn [app pure_match]. unfold pure_char. cbn [Z.eqb Pos.eqb]. destruct (Z.eqb_spec ch 34) as [->|]; [by apply IH|].
  destruct ((ch =? 32) && negb q) eqn:E; [done|]. rewrite andb_comm, E. by apply IH.
Qed.

(** Behind a quote that closes the command. *)
Lemma quote_end w l k : quotes false w = Some false -> no_empty_quotes w -> head w <> Some 34 ->
  pure_match c (w ++ 32 :: l) 3 false k = match w with [] => true | d :: _ => d =? 61 end || pure_match c l 0 false 0.
Proof using.
  intros Hq Hn Hh. destruct w as [|d w]; [done|]. cbn [quotes] in Hq. cbn [app pure_match]. unfold pure_char. cbn [Z.eqb Pos.eqb].
  rewrite andb_true_r in Hq. destruct (Z.eqb_spec d 61) as [->|]; [done|]. destruct (d =? 32); [done|]. cbn [orb].
  apply skip_word. destruct (Z.eqb_spec d 34) as [->|]; [done|done].
Qed.

Lemma match_word w : forall l q k, quotes q w = Some false -> no_empty_quotes w -> Forall (fun ch => ch <> 0) w ->
  pure_match c (w ++ 32 :: l) 1 q k = names_rest q (drop k c) w || pure_match c l 0 false 0.
Proof using Hc.
  induction w as [|ch w IH]; intros l q k Hq Hn Hz; cbn [quotes] in Hq.
  - injection Hq as ->. cbn [app pure_match]. unfold pure_char. cbn [Z.eqb Pos.eqb]. destruct (c !! k) as [d|] eqn:Ek.
    + rewrite (drop_S _ _ _ Ek). cbn. pose proof (Forall_lookup_1 _ _ _ _ (proj2 Hc) Ek) as (Hd & Hd1 & _). cbn in Hd, Hd1.
      unfold id. destruct (Z.eqb_spec d 32); [done|]. by destruct (Z.eqb_spec d 0); [lia|].
    + apply lookup_ge_None in Ek. by rewrite drop_ge by done.
  - cbn [app pure_match]. unfold pure_char. cbn [Z.eqb Pos.eqb]. destruct ((ch =? 32) && negb q) eqn:Es; [done|]. destruct Hn as [Hn Hnw].
    apply Forall_cons in Hz as [Hz0 Hz]. destruct (c !! k) as [d|] eqn:Ek.
    + rewrite (drop_S _ _ _ Ek). pose proof (Forall_lookup_1 _ _ _ _ (proj2 Hc) Ek) as (Hd & Hd1 & Hd2). cbn in Hd, Hd1, Hd2.
      cbn [names_rest default]. unfold id. destruct (Z.eqb_spec d ch) as [<-|Hne]; cbn [andb].
      * replace (d =? 34) with false in * by lia. by apply IH.
      * replace (d =? 0) with false by lia. cbn [negb orb]. destruct (Z.eqb_spec ch 32) as [->|Hsp].
        -- destruct q; [|done]. by apply skip_word.
        -- by apply skip_word.
    + apply lookup_ge_None in Ek as Hlen. rewrite drop_ge by done. cbn [default names_rest]. rewrite (proj2 (Z.eqb_neq 0 ch)) by done. cbn [Z.eqb negb].
      destruct q; cbn [andb negb orb].
      * destruct (ch =? 61); [done|]. destruct (Z.eqb_spec ch 34) as [->|]; [|by apply skip_word]. cbn [orb]. apply quote_end; [exact Hq|done|by apply Hn].
      * rewrite andb_true_r in Es. rewrite Es. cbn [orb]. destruct (ch =? 61); [done|]. by apply skip_word.
Qed.

(** A whole word, and the whole line. *)
Definition word_wf (w : list Z) : Prop := w <> [] /\ quotes false w = Some false /\ no_empty_quotes w /\ Forall (fun ch => ch <> 0) w.

Lemma match_first w l : word_wf w -> pure_match c (w ++ 32 :: l) 0 false 0 = names c w || pure_match c l 0 false 0.
Proof using Hc.
  intros (Hne & Hq & Hn & Hz). destruct w as [|ch w]; [done|]. cbn [quotes] in Hq. destruct Hn as [Hn Hnw]. apply Forall_cons in Hz as [Hz0 Hz].
  cbn [app pure_match]. unfold pure_char. cbn [Z.eqb names]. rewrite andb_true_r in Hq. destruct (Z.eqb_spec ch 32) as [|Hsp]; [done|].
  assert (exists d cs, c = d :: cs) as (d & cs & Ec) by (destruct Hc as [H _]; destruct c; [done|by do 2 eexists]).
  pose proof (proj2 Hc) as Hcs. rewrite Ec in Hcs. apply Forall_inv in Hcs as (Hd & Hd1 & Hd2).
  assert (Hdrop : drop 1 c = cs) by (by rewrite Ec).
  assert (Hlook : default 0 (c !! 0%nat) = d) by (by rewrite Ec).
  assert (Hrest : forall q x w, names_rest q c (x :: w) = (d =? x) && names_rest q cs w) by (intros; by rewrite Ec).
  destruct (Z.eqb_spec ch 34) as [->|Hch].
  - cbn [negb] in Hq. destruct w as [|e w]; [done|]. cbn [app pure_match]. unfold pure_char. cbn [Z.eqb Pos.eqb]. rewrite Hlook.
    cbn [quotes] in Hq. rewrite andb_false_r in Hq. destruct Hnw as [Hn2 Hnw]. apply Forall_cons in Hz as [Hz1 Hz].
    assert (He : e <> 34) by (intros ->; by apply Hn). rewrite (proj2 (Z.eqb_neq e 34) He) in Hq. rewrite Hrest.
    destruct (Z.eqb_spec d e) as [<-|Hde]; cbn [andb orb]; [rewrite match_word by done; by rewrite Hdrop|by apply skip_word].
  - rewrite Hlook, Hrest.
    destruct (Z.eqb_spec d ch) as [<-|Hdc]; cbn [andb orb]; [rewrite match_word by done; by rewrite Hdrop|by apply skip_word].
Qed.

Lemma match_words ws : Forall word_wf ws -> pure_match c (concat (map (fun w => w ++ [32]) ws)) 0 false 0 = existsb (names c) ws.
Proof using Hc.
  induction 1 as [|w ws Hw _ IH]; [done|]. cbn [map concat existsb]. rewrite <- app_assoc. cbn [app]. by rewrite match_first, IH.
Qed.
End Match.

(** The words that set the parameter [c]. *)
Definition sets (c w : list Z) : Prop :=
  w = c \/ (exists v, w = c ++ [61] ++ v) \/
  w = [34] ++ c ++ [34] \/ (exists v, w = [34] ++ c ++ [34; 61] ++ v) \/ (exists v, w = [34] ++ c ++ [61] ++ v).

Lemma names_rest_spec q c : forall w, names_rest q c w = true <->
  exists r, w = c ++ r /\ (if q then r = [34] \/ (exists v, r = [34; 61] ++ v) \/ (exists v, r = [61] ++ v) else r = [] \/ exists v, r = [61] ++ v).
Proof.
  induction c as [|d c IH]; intros w.
  - cbn [names_rest app]. split.
    + intros H. exists w. split; [done|]. destruct w as [|ch w]; [by destruct q; [|left]|].
      apply orb_true_iff in H as [H|H]; [assert (ch = 61) as -> by lia; destruct q; [right; right|right]; by exists w|].
      destruct q; [|done]. cbn [andb] in H. apply andb_true_iff in H as [H1 H2]. assert (ch = 34) as -> by lia.
      destruct w as [|e w]; [by left|]. assert (e = 61) as -> by lia. right; left. by exists w.
    + intros (r & -> & H). destruct q.
      * destruct H as [-> | [[v ->] | [v ->]]]; done.
      * destruct H as [-> | [v ->]]; done.
  - destruct w as [|e w]; cbn [names_rest app]; [split; [done|by intros (r & ? & _)]|]. rewrite andb_true_iff, IH. split.
    + intros (He & r & -> & H). assert (d = e) as -> by lia. by exists r.
    + intros (r & [= -> ->] & H). split; [lia|by exists r].
Qed.

Lemma names_sets c w : plain c -> names c w = true <-> sets c w.
Proof.
  intros [Hne Hc]. destruct c as [|d c]; [done|]. apply Forall_inv in Hc as (_ & _ & Hd). unfold names, sets. split.
  - destruct w as [|ch w]; [done|]. destruct (Z.eqb_spec ch 34) as [->|Hch]; rewrite names_rest_spec; intros (r & E & H).
    + subst w. destruct H as [-> | [[v ->] | [v ->]]]; cbn [app]; [by right; right; left|right; right; right; left; by exists v|right; right; right; right; by exists v].
    + rewrite E. destruct H as [-> | [v ->]]; [left; by rewrite app_nil_r|right; left; by exists v].
  - intros [-> | [[v ->] | [-> | [[v ->] | [v ->]]]]]; cbn [app].
    + rewrite (proj2 (Z.eqb_neq d 34) Hd). apply names_rest_spec. exists []. split; [by rewrite app_nil_r|by left].
    + rewrite (proj2 (Z.eqb_neq d 34) Hd). apply names_rest_spec. exists (61 :: v). split; [done|right; by exists v].
    + cbn [Z.eqb Pos.eqb]. apply names_rest_spec. exists [34]. split; [done|by left].
    + cbn [Z.eqb Pos.eqb]. apply names_rest_spec. exists (34 :: 61 :: v). split; [done|right; left; by exists v].
    + cbn [Z.eqb Pos.eqb]. apply names_rest_spec. exists (61 :: v). split; [done|right; right; by exists v].
Qed.

Lemma quotes_snoc w c : forall q q', quotes q w = Some q' -> (c =? 32) && negb q' = false -> quotes q (w ++ [c]) = Some (if c =? 34 then negb q' else q').
Proof.
  induction w as [|d w IH]; intros q q' H Hc; cbn [quotes app] in *; [injection H as ->; by rewrite Hc|].
  destruct ((d =? 32) && negb q); [done|]. by apply IH.
Qed.

Lemma words_wf l : forall q w, quotes false w = Some q -> Forall (fun ch => ch <> 0) (w ++ l) ->
  Forall (fun w => w <> [] /\ quotes false w = Some false /\ Forall (fun ch => ch <> 0) w) (words_from q w l).
Proof.
  induction l as [|c l IH]; intros q w Hq Hz; cbn [words_from].
  - rewrite app_nil_r in Hz. destruct w as [|x w]; [done|]. constructor; [|done]. split; [done|]. destruct q.
    + split; [by apply (quotes_snoc _ 34 _ true)|]. apply Forall_app. split; [done|by repeat constructor].
    + by rewrite app_nil_r.
  - destruct (iswhitespace c && negb q) eqn:E.
    + assert (q = false) as -> by (apply andb_true_iff in E as [_ H]; by apply negb_true_iff in H).
      apply Forall_app in Hz as [Hzw [_ Hzl]%Forall_cons]. destruct w as [|x w]; [by apply IH|]. constructor; [done|]. by apply IH.
    + apply IH; [|by rewrite <- app_assoc]. apply quotes_snoc; [done|]. destruct (Z.eqb_spec c 32) as [->|]; [exact E|done].
Qed.

Lemma line_words given : Forall (fun c => 0 < c < 256) given -> Forall no_empty_quotes (words given) -> Forall word_wf (words given).
Proof.
  intros Hz Hn. assert (Hw := words_wf given false [] eq_refl). cbn [app] in Hw. fold (words given) in Hw.
  specialize (Hw ltac:(eapply Forall_impl; [exact Hz|cbn; lia])). apply Forall_forall. intros w Hin.
  rewrite Forall_forall in Hw, Hn. destruct (Hw w Hin) as (? & ? & ?). split; [done|]. split; [done|]. split; [by apply Hn|done].
Qed.

Lemma does_command_exist_run s_cmdline s p c ws : n_ignore_fastboot s = 0 -> Forall word_wf ws -> plain c -> cstr (cl_mem s) p c -> p <> 0 ->
  n_orig_cmdlen s = len (concat (map (fun w => w ++ [32]) ws)) -> holds (cl_mem s) s_cmdline (concat (map (fun w => w ++ [32]) ws)) ->
  does_command_exist s_cmdline p s = (Ret (existsb (names c) ws), s).
Proof.
  intros Hi Hws Hc Hp Hp0 Hn Hh. unfold does_command_exist. rewrite (bind_run _ _ _ _ _ (ignoring_run s)), Hi. cbn [truthy Z.eqb negb].
  rewrite (proj2 (Z.eqb_neq p 0) Hp0). pose proof (cstr_char _ _ _ 0 Hp ltac:(lia)) as E. rewrite Z.add_0_r in E.
  rewrite (bind_run _ _ _ _ _ (on_mem_pure _ _ _ E)). assert (exists d cs, c = d :: cs) as (d & cs & Ec) by (destruct Hc as [H _]; destruct c; [done|by do 2 eexists]).
  replace (default 0 (c !! 0%nat)) with d by (by rewrite Ec). assert (Hd : (d =? 0) = false) by (destruct Hc as [_ H]; rewrite Ec in H; apply Forall_inv in H; lia). rewrite Hd.
  unfold bind, gets. rewrite Hn, Nat2Z.id. apply on_mem_pure.
  assert (Hz : Forall (fun ch => ch <> 0) (concat (map (fun w => w ++ [32]) ws))).
  { clear -Hws. induction Hws as [|w ws Hw _ IH]; [done|]. cbn [map concat]. repeat (apply Forall_app; split); [apply Hw|by repeat constructor|done]. }
  pose proof (match_line_run _ (cl_mem s) c p s_cmdline 0 false 0 Hp ltac:(lia) Hz Hh) as Er. rewrite Z.add_0_r in Er. rewrite Er.
  by rewrite match_words.
Qed.

Lemma words_chars (P : Z -> Prop) l : P 34 -> forall q w, Forall P (w ++ l) -> Forall (Forall P) (words_from q w l).
Proof.
  intros HP. induction l as [|c l IH]; intros q w H; cbn [words_from].
  - rewrite app_nil_r in H. destruct w; [done|]. constructor; [|done]. apply Forall_app. split; [done|]. destruct q; by repeat constructor.
  - destruct (_ && _); [|by apply IH; rewrite <- app_assoc]. apply Forall_app in H as [Hw [_ Hl]%Forall_cons].
    destruct w; [by apply IH|]. constructor; [done|by apply IH].
Qed.

Lemma scan_plain l : forall w, Forall (fun c => iswhitespace c = false /\ c <> 34) l -> scan_all l ([], w, false, false) = ([], w ++ l, false, false).
Proof.
  induction l as [|c l IH]; intros w H; [by rewrite app_nil_r|]. apply Forall_cons in H as [[Hc H34] H]. cbn [fold_left scan_step]. rewrite Hc. cbn [andb].
  rewrite (proj2 (Z.eqb_neq c 34) H34), IH by done. by rewrite <- app_assoc.
Qed.

Lemma destruct_last (l : list Z) : l <> [] -> exists l' c, l = l' ++ [c].
Proof. intros H. destruct l as [|c l _] using rev_ind; [done|by do 2 eexists]. Qed.

Lemma ignored_short w : (16 < length w)%nat -> ignored w = false.
Proof. intros H. unfold ignored. by rewrite !bool_decide_eq_false_2 by (intros ->; cbn in H; lia). Qed.

(** ** Properties *)

(** The given line is cut into words at white space outside of quotes and
    rebuilt in the array, a space behind each word and a quote that is open closed; the
    result is its length, and nothing outside of the array changes. *)
Theorem command_line_rebuilt fuel lit s_cmdline s cmdline given :
  cstr (cl_mem s) (lit IGNORE_FASTBOOT_CMD) ignore_text -> apart_from_line s_cmdline (lit IGNORE_FASTBOOT_CMD) ignore_text ->
  mapped (cl_mem s) s_cmdline COMMAND_LINE_SIZE ->
  cstr (cl_mem s) cmdline given -> apart_from_line s_cmdline cmdline given -> cmdline <> 0 ->
  len given <= COMMAND_LINE_SIZE - 3 -> (length given < fuel)%nat -> (14 < fuel)%nat ->
  n_ignore_fastboot s = 0 -> existsb ignored (words given) = false ->
  let rebuilt := concat (map (fun w => w ++ [32]) (words given)) in
  exists s', init_cmd_list fuel lit s_cmdline cmdline s = (Ret (len rebuilt), s') /\ cstr (cl_mem s') s_cmdline rebuilt /\
    n_orig_cmdlen s' = len rebuilt /\ n_ignore_fastboot s' = 0 /\ unchanged_outside (cl_mem s) (cl_mem s') s_cmdline COMMAND_LINE_SIZE.
Proof.
  intros Hlit Hla Hm Hg Hga Hne Hlen Hf1 Hf2 Hn Hig rebuilt.
  destruct (init_cmd_list_run fuel lit s_cmdline (cl_mem s)) with (s := s) (cmdline := cmdline) (given := given) as (s' & E & Hk & Hh & Ho & Hi & Hl); try done.
  { intros w Ew. rewrite Ew in Hig. cbn in Hig. by rewrite orb_false_r in Hig. }
  assert (El : line (words given) = rebuilt) by (unfold line; by rewrite line_from_app). rewrite El in *. rewrite Hig in Hi.
  exists s'. split; [done|]. split; [|split; [done|split; [done|apply Hk]]]. apply holds_cstr; [|done].
  assert (Hw : Forall (Forall (fun c => 0 < c < 256)) (words given)) by (apply (words_chars _ given); [lia|]; by eapply cstr_chars).
  subst rebuilt. clear -Hw. induction Hw as [|w ws Hw _ IH]; [done|]. cbn [map concat]. repeat (apply Forall_app; split); [done|by repeat constructor; lia|done].
Qed.

(** Memories with the literal at 16, the given line at 1000, a name at 3600 and the
    array, or the first [size] bytes of it, at 4096. *)
Definition sample_of (size : nat) (given name line_ : list Z) : cl :=
  mk_cl (ranges_memory [(16, ignore_text ++ [0]); (1000, given ++ [0]); (3600, name ++ [0]); (4096, line_ ++ replicate (size - length line_) 7)])
    (len line_) 0.
Definition sample : list Z -> list Z -> list Z -> cl := sample_of 2048.
Definition quoted_line : list Z := chars "  gpt foo=" ++ [34] ++ chars "a b" ++ [34] ++ chars "  video= " ++ [34] ++ chars "c d".

Lemma command_line_rebuilt_witness : exists s', init_cmd_list 100 (fun _ => 16) 4096 1000 (sample quoted_line [] []) = (Ret 27, s') /\
  cstr (cl_mem s') 4096 (chars "gpt foo=" ++ [34] ++ chars "a b" ++ [34] ++ chars " video= " ++ [34] ++ chars "c d" ++ [34] ++ chars " ") /\
  n_orig_cmdlen s' = 27 /\ n_ignore_fastboot s' = 0 /\ unchanged_outside (cl_mem (sample quoted_line [] [])) (cl_mem s') 4096 COMMAND_LINE_SIZE.
Proof.
  apply (command_line_rebuilt 100 (fun _ => 16) 4096 (sample quoted_line [] []) 1000 quoted_line).
  - apply ranges_cstr; [reflexivity|in_ranges|reflexivity].
  - left. vm_compute. reflexivity.
  - apply ranges_mapped. reflexivity.
  - apply ranges_cstr; [reflexivity|in_ranges|reflexivity].
  - left. vm_compute. reflexivity.
  - discriminate.
  - vm_compute. discriminate.
  - vm_compute. lia.
  - lia.
  - reflexivity.
  - vm_compute. reflexivity.
Defined.

(** A parameter is found in the rebuilt line exactly when a word is its name, alone,
    quoted, or in front of an equals sign. *)
Theorem parameter_found s_cmdline s p c ws :
  n_ignore_fastboot s = 0 -> Forall word_wf ws -> plain c -> cstr (cl_mem s) p c -> p <> 0 ->
  let rebuilt := concat (map (fun w => w ++ [32]) ws) in
  n_orig_cmdlen s = len rebuilt -> holds (cl_mem s) s_cmdline rebuilt ->
  exists b, does_command_exist s_cmdline p s = (Ret b, s) /\ (b = true <-> Exists (sets c) ws).
Proof.
  intros Hi Hws Hc Hp Hp0 rebuilt Hn Hh. exists (existsb (names c) ws). split; [by apply does_command_exist_run|].
  rewrite existsb_exists, Exists_exists. split; intros (w & Hin & Hw); exists w; (split; [by apply list_elem_of_In|by apply names_sets]).
Qed.

Definition two_words : list (list Z) := [chars "gpt"; [34] ++ chars "video=x y" ++ [34]].

Lemma parameter_found_witness : exists b,
  does_command_exist 4096 3600 (sample [] (chars "video") (concat (map (fun w => w ++ [32]) two_words))) =
    (Ret b, sample [] (chars "video") (concat (map (fun w => w ++ [32]) two_words))) /\
  (b = true <-> Exists (sets (chars "video")) two_words).
Proof.
  apply (parameter_found 4096 (sample [] (chars "video") (concat (map (fun w => w ++ [32]) two_words))) 3600 (chars "video") two_words).
  - reflexivity.
  - repeat constructor; (discriminate || (cbn; intros; discriminate)).
  - split; [discriminate|]. repeat constructor; lia || discriminate.
  - apply ranges_cstr; [reflexivity|in_ranges|reflexivity].
  - discriminate.
  - reflexivity.
  - eapply ranges_hold_prefix; [reflexivity|in_ranges].
Defined.

(** C39.  A line whose first 2048 characters are one word is written past the end of
    the array. *)
Theorem long_line_overruns fuel lit s_cmdline s cmdline l r :
  cstr (cl_mem s) (lit IGNORE_FASTBOOT_CMD) ignore_text -> apart_from_line s_cmdline (lit IGNORE_FASTBOOT_CMD) ignore_text ->
  mapped (cl_mem s) s_cmdline COMMAND_LINE_SIZE -> cl_mem s !! (s_cmdline + COMMAND_LINE_SIZE) = None ->
  cstr (cl_mem s) cmdline (l ++ r) -> apart_from_line s_cmdline cmdline (l ++ r) -> cmdline <> 0 ->
  len l = COMMAND_LINE_SIZE -> len (l ++ r) < 2 ^ 31 -> (length (l ++ r) < fuel)%nat -> (14 < fuel)%nat ->
  n_ignore_fastboot s = 0 -> Forall (fun c => iswhitespace c = false /\ c <> 34) l ->
  (init_cmd_list fuel lit s_cmdline cmdline s).1 = Undef.
Proof.
  intros Hlit Hla Hm Hout Hg Hga Hne Hl Hlr Hf1 Hf2 Hn Hc. unfold COMMAND_LINE_SIZE in Hl. unfold init_cmd_list. rewrite (proj2 (Z.eqb_neq _ _) Hne).
  rewrite (bind_run _ _ _ _ _ (on_mem_pure _ _ _ (strlen_run _ _ _ _ Hlit Hf2 ltac:(done)))).
  rewrite (bind_run _ _ _ _ _ (on_mem_pure _ _ _ (strlen_run _ _ _ _ Hg Hf1 Hlr))).
  change (len ignore_text) with 14. rewrite length_app in *. rewrite (wrapw_small 32) by (unfold in_word; lia).
  replace (Z.to_nat (Z.min _ COMMAND_LINE_SIZE)) with (length l) by (unfold COMMAND_LINE_SIZE; lia).
  destruct (scan_line_run lit s_cmdline (cl_mem s) Hlit Hla Hm r l cmdline s (mk_scanner 0 0 false 0) ([], [], false, false) Hg Hga) as (s1 & x1 & E1 & Hs1 & _).
  { split; [split; [by intros x|by intros x]|]. split; [apply holds_nil|]. split; [done|]. split; [done|]. split; [done|].
    right. split; [done|]. split; [done|]. split; [done|]. right. by left. }
  { cbn [next]. unfold COMMAND_LINE_SIZE. lia. }
  rewrite (bind_run _ _ _ _ _ E1). rewrite (scan_plain l []) in Hs1 by done. cbn [app] in Hs1. pose proof Hs1 as (Hk1 & Hh1 & Hn1 & Hx1 & Hq1 & _).
  assert (Hlne : l <> []) by (intros ->; done). replace (next x1 =? 0) with false by (symmetry; apply Z.eqb_neq; rewrite Hx1; cbn [app]; lia).
  pose proof (drop_last_run lit s_cmdline (cl_mem s) Hlit Hla s1 s1 x1 [] l false false Hs1 ltac:(done) Hk1) as Ed. rewrite app_nil_r in Ed. specialize (Ed Hh1 Hn1).
  rewrite ignored_short in Ed by lia. cbn [app negb andb orb] in Ed.
  assert (Eq : quote x1 = false) by done. assert (Ex : next x1 = len l) by done. rewrite Eq, Ex.
  destruct (destruct_last l Hlne) as (l' & c & El). assert (Hcs : c <> 32).
  { rewrite El in Hc. apply Forall_app in Hc as [_ [[Hw _] _]%Forall_cons]. by apply whitespace_cases. }
  assert (Ec : load (s_cmdline + (len l - 1)) (cl_mem s1) = (Ret c, cl_mem s1)).
  { replace (len l - 1) with (Z.of_nat (length l')) by (rewrite El, length_app; cbn; lia). eapply load_holds; [exact Hh1|].
    cbn [app]. by rewrite El, lookup_app_r, Nat.sub_diag by lia. }
  set (s2 := mk_cl (cl_mem s1) (n_orig_cmdlen s1) 0) in *.
  assert (Eo : on_mem (store (s_cmdline + len l) 32) s2 = (Undef, s2)).
  { unfold on_mem, store. cbn [cl_mem s2]. rewrite (proj2 Hk1), Hl by (unfold COMMAND_LINE_SIZE; lia). unfold COMMAND_LINE_SIZE in Hout. by rewrite Hout. }
  unfold bind at 1. rewrite bind_ret_l, (bind_run _ _ _ _ _ Ed), (bind_run _ _ _ _ _ (on_mem_pure _ s2 _ Ec)).
  rewrite (proj2 (Z.eqb_neq 32 c)) by congruence. cbn [negb]. unfold bind at 1. by rewrite Eo.
Qed.

Definition long_word : list Z := replicate 2048 97.

Lemma long_line_overruns_witness : (init_cmd_list 3000 (fun _ => 16) 4096 1000 (sample (long_word ++ [98]) [] [])).1 = Undef.
Proof.
  apply (long_line_overruns 3000 (fun _ => 16) 4096 (sample (long_word ++ [98]) [] []) 1000 long_word [98]).
  - apply ranges_cstr; [reflexivity|in_ranges|reflexivity].
  - left. vm_compute. reflexivity.
  - apply ranges_mapped. reflexivity.
  - apply ranges_none. reflexivity.
  - apply ranges_cstr; [reflexivity|in_ranges|reflexivity].
  - left. vm_compute. reflexivity.
  - discriminate.
  - vm_compute. reflexivity.
  - vm_compute. reflexivity.
  - apply Nat.ltb_lt. vm_compute. reflexivity.
  - lia.
  - reflexivity.
  - apply Forall_replicate. split; [reflexivity|discriminate].
Defined.

(** ** What an ignored word does *)

(** The words behind it run together; alone, it makes the code read in front of the
    array; an empty pair of quotes hides what follows. *)
Example ignored_word_joins :
  let r := init_cmd_list 100 (fun _ => 16) 4096 1000 (sample_of 64 (chars "a ignorefastboot b c") [] []) in
  r.1 = Ret 5 /\ map (fun i => cl_mem r.2 !! (4096 + i)) (seqZ 0 6) = map Some (chars "a bc " ++ [0]).
Proof. split; vm_compute; reflexivity. Qed.

Example ignored_word_alone : (init_cmd_list 100 (fun _ => 16) 4096 1000 (sample_of 64 ignore_text [] [])).1 = Undef.
Proof. vm_compute. reflexivity. Qed.

Example empty_quotes_hide :
  (does_command_exist 4096 3600 (sample_of 64 [] (chars "gpt") ([34; 34] ++ chars "x gpt "))).1 = Ret false.
Proof. vm_compute. reflexivity. Qed.
