(* ===== verification/CmdlineParams.v ===== *)
(** * The command line of the kernel: what is appended

    Each handler of the table prints the pieces of its format; a parameter no word of
    the given line sets is appended, and the result is one terminated string. *)
From Stdlib Require Import Ascii String.
From stdpp Require Import gmap.
From S2P Require Import Prelude Interfaces Clib ClibSpec CString CStringSpec MemSpec Printf PrintfSpec Cmdline CmdlineSpec.
#[local] Open Scope Z_scope.

(** ** What a format makes of texts and numbers *)

Inductive arg := Num (a : Z) | Txt (l : list Z).

(** The pieces of a format, when its arguments are of the right kinds. *)
Fixpoint pieces (n : nat) (f : list Z) (padchar : Z) (args : list arg) : option (list (list Z)) :=
  match n with
  | O => None
  | S n =>
      match f with
      | [] => Some []
      | c :: f =>
          if c =? 37 then
            let d := parse_directive f in
            let padchar' := if zero_pad d then 48 else padchar in
            if is_integer (conversion d) then
              match args with
              | Num a :: args => match integer_text d padchar a with Some t => cons t <$> pieces n (rest d) padchar' args | None => None end
              | _ => None
              end
            else if conversion d =? 115 then
              match args with Txt l :: args => cons l <$> pieces n (rest d) padchar' args | _ => None end
            else None
          else if (0 <? c) && (c <? 256) then cons [c] <$> pieces n f padchar args
          else None
      end
  end.
(** The text of a call that has [room] for it and for the terminator. *)
Definition rendered (f : string) (args : list arg) : list (list Z) := default [] (pieces 1000 (chars f) 32 args).
Definition shown (room : Z) (ts : list (list Z)) : list Z := fit (room - 1) ts.

Section Rendered.
Context (m : mem) (lo hi : Z) (fuel : nat).

Definition arg_at (x : arg) (a : Z) : Prop :=
  match x with
  | Num b => a = b
  | Txt l => cstr m a l /\ (a + len l < lo \/ hi <= a) /\ (length l < fuel)%nat /\ len l < 2 ^ 31
  end.

Lemma pieces_formats n : forall f padchar args ap ts, pieces n f padchar args = Some ts -> Forall2 arg_at args ap -> formats m lo hi fuel f padchar ap ts.
Proof using.
  induction n as [|n IH]; intros f padchar args ap ts H Ha; [done|]. cbn [pieces] in H. destruct f as [|c f]; [injection H as <-; constructor|].
  destruct (Z.eqb_spec c 37) as [->|Hc].
  - destruct (is_integer _) eqn:Ei.
    + destruct args as [|[a|l] args]; [done| |done]. inversion Ha as [|? ? ? ? Hx Hr]; subst. cbn in Hx. subst.
      destruct (integer_text _ _ a) as [t|] eqn:Et; [|done].
      apply fmap_Some in H as (ts' & E & ->). apply formats_int; [done|exact Et|by eapply IH].
    + destruct (Z.eqb_spec (conversion (parse_directive f)) 115) as [Es|]; [|done]. destruct args as [|[a|l] args]; [done|done|].
      inversion Ha as [|? ? ? ? Hx Hr]; subst. destruct Hx as (? & ? & ? & ?). apply fmap_Some in H as (ts' & E & ->).
      eapply formats_string; [reflexivity|done..|by eapply IH].
  - destruct (_ && _) eqn:Ec; [|done]. apply andb_true_iff in Ec as [E1 E2]. apply fmap_Some in H as (ts' & E & ->).
    apply formats_char; [lia|done|by eapply IH].
Qed.
End Rendered.

(** ** Handlers *)

Section Handlers.
Context (fuel : nat) (lit : string -> Z) (s_cmdline : Z) (m0 : mem).
Hypothesis (Hline : 0 < s_cmdline).

(** A text outside of the array. *)
Definition text_at (p : Z) (l : list Z) : Prop :=
  cstr m0 p l /\ apart_from_line s_cmdline p l /\ (length l < fuel)%nat /\ len l < 2 ^ 31 /\ p <> 0.

(** The handler [h] prints the pieces [ts] of the parameter at [param], or nothing. *)
Definition prints (h : Z -> Z -> Z -> M mem Z) (param : Z) (ts : option (list (list Z))) : Prop :=
  forall m ptr remain, kept s_cmdline m0 m -> s_cmdline <= ptr -> ptr + remain = s_cmdline + COMMAND_LINE_SIZE -> 0 < remain ->
    mapped m ptr remain ->
    match ts with
    | None => exists r, h ptr remain param m = (Ret r, m) /\ r <= 0
    | Some ts => exists m', h ptr remain param m = (Ret (len (shown remain ts)), m') /\ written m m' ptr (shown remain ts ++ [0])
    end.

Definition holds_arg (x : arg) (a : Z) : Prop := match x with Num b => a = b | Txt l => text_at a l end.

Lemma snprintf_prints f args ap ts : pieces 1000 (chars f) 32 args = Some ts -> Forall2 holds_arg args ap ->
  forall m ptr remain, kept s_cmdline m0 m -> s_cmdline <= ptr -> ptr + remain = s_cmdline + COMMAND_LINE_SIZE -> 0 < remain -> mapped m ptr remain ->
  exists m', tegrabl_snprintf fuel ptr remain (chars f) ap m = (Ret (len (shown remain ts)), m') /\ written m m' ptr (shown remain ts ++ [0]).
Proof using.
  intros Hp Ha m ptr remain Hk H1 H2 H3 Hm. apply vsnprintf_run; [unfold COMMAND_LINE_SIZE in H2; lia|done|].
  eapply pieces_formats; [exact Hp|]. eapply Forall2_impl; [exact Ha|]. intros [b|l] a H; [done|]. destruct H as (Hc & Hap & Hf & Hl & _).
  split; [by eapply kept_cstr|]. unfold apart_from_line in Hap. split; [lia|done].
Qed.

Lemma rendered_pieces f args ts : pieces 1000 (chars f) 32 args = Some ts -> pieces 1000 (chars f) 32 args = Some (rendered f args).
Proof using. unfold rendered. by intros ->. Qed.

Lemma null_false ptr param l : s_cmdline <= ptr -> text_at param l -> null ptr param = false.
Proof using Hline. intros H (_ & _ & _ & _ & Hp). unfold null. apply orb_false_iff. split; apply Z.eqb_neq; lia. Qed.

Hypothesis (Hmapped : mapped m0 s_cmdline COMMAND_LINE_SIZE).

(** ** Tables *)

(** A name and what its handler prints. *)
Definition entry : Type := list Z * option (list (list Z)).
Definition entry_ok (p : tegrabl_linuxboot_param) (e : entry) : Prop :=
  text_at (str p) e.1 /\ plain e.1 /\ match append p with None => e.2 = None | Some h => prints h (str p) e.2 end.

(** What is appended for the entries whose names no word sets. *)
Fixpoint appended (ws : list (list Z)) (room : Z) (table : list entry) : list Z :=
  match table with
  | [] => []
  | (c, ts) :: table =>
      if existsb (names c) ws then appended ws room table
      else
        match ts with
        | None => appended ws room table
        | Some ts => let t := shown room ts in t ++ appended ws (room - len t) table
        end
  end.

(** The line so far: the given words [ws] and more, [t] in all. *)
Definition line_state (ws : list (list Z)) (t : list Z) (s : cl) : Prop :=
  kept s_cmdline m0 (cl_mem s) /\ holds (cl_mem s) s_cmdline (t ++ [0]) /\ len t < COMMAND_LINE_SIZE /\
  (exists r, t = line ws ++ r) /\ n_orig_cmdlen s = len (line ws) /\ n_ignore_fastboot s = (if existsb ignored ws then 1 else 0) /\ Forall word_wf ws.

Lemma line_state_grows ws t t' s m : line_state ws t s -> written (cl_mem s) m (s_cmdline + len t) (t' ++ [0]) -> len t + len t' < COMMAND_LINE_SIZE ->
  line_state ws (t ++ t') (mk_cl m (n_orig_cmdlen s) (n_ignore_fastboot s)).
Proof using.
  intros ([He Hu] & Hh & Hl & [r ->] & Hn & Hi & Hw) W Hb. split; [|split; [|split; [|split; [|split; [|split]]]]]; try done.
  - split; [intros x Hx; by eapply written_extent, He|]. intros x Hx. cbn [cl_mem]. rewrite W, (length_app t'). cbn [List.length].
    destruct (decide _); [lia|]. by apply Hu.
  - cbn [cl_mem]. rewrite <- app_assoc. apply holds_app. split; [|by eapply written_holds].
    apply holds_app in Hh as [Hh _]. eapply holds_ext; [|exact Hh]. intros x Hx. rewrite W. destruct (decide _); [lia|done].
  - rewrite length_app. lia.
  - exists (r ++ t'). by rewrite app_assoc.
Qed.

Lemma shown_length room ts : 0 < room -> len (shown room ts) < room.
Proof using. intros H. pose proof (fit_length (room - 1) ts ltac:(lia)). unfold shown. lia. Qed.

Lemma exist_run ws t s p c : line_state ws t s -> text_at p c -> plain c ->
  does_command_exist s_cmdline p s = (Ret (existsb ignored ws || existsb (names c) ws), s).
Proof using.
  intros (Hk & Hh & _ & [r ->] & Hn & Hi & Hw) (Hc & Ha & _ & _ & Hp) Hpl. destruct (existsb ignored ws) eqn:Ei; cbn [orb].
  - unfold does_command_exist. rewrite (bind_run _ _ _ _ _ (ignoring_run s)), Hi. done.
  - assert (El : line ws = concat (map (fun w => w ++ [32]) ws)) by (unfold line; by rewrite line_from_app). rewrite El in *.
    rewrite <- app_assoc in Hh. apply holds_app in Hh as [Hh _]. apply does_command_exist_run; try done. by eapply kept_cstr.
Qed.

Lemma append_params_run ws table params : Forall2 entry_ok params table -> forall t s, line_state ws t s ->
  exists s' t', append_params s_cmdline params (s_cmdline + len t) (COMMAND_LINE_SIZE - len t) s =
      (Ret (s_cmdline + len (t ++ t'), COMMAND_LINE_SIZE - len (t ++ t')), s') /\
    t' = (if existsb ignored ws then [] else appended ws (COMMAND_LINE_SIZE - len t) table) /\ line_state ws (t ++ t') s'.
Proof using Hmapped.
  induction 1 as [|p [c ts] params table (Hp & Hpl & Hh) _ IH]; intros t s Hs.
  { exists s, []. rewrite app_nil_r. split; [done|]. by destruct (existsb ignored ws). }
  cbn [append_params appended]. cbn [fst snd] in *. rewrite (bind_run _ _ _ _ _ (exist_run _ _ _ _ _ Hs Hp Hpl)).
  destruct (existsb ignored ws) eqn:Ei; cbn [orb].
  { destruct (IH t s Hs) as (s' & t' & E & Et & Hs'). by exists s', t'. }
  destruct (existsb (names c) ws) eqn:En.
  { destruct (IH t s Hs) as (s' & t' & E & Et & Hs'). by exists s', t'. }
  destruct (append p) as [h|]; [|rewrite Hh; by apply IH].
  pose proof Hs as (Hk & _ & Hl & _). assert (Hm : mapped (cl_mem s) (s_cmdline + len t) (COMMAND_LINE_SIZE - len t)).
  { eapply mapped_extent; [apply Hk|]. eapply mapped_sub; [exact Hmapped|lia..]. }
  specialize (Hh (cl_mem s) (s_cmdline + len t) (COMMAND_LINE_SIZE - len t) Hk ltac:(lia) ltac:(lia) ltac:(lia) Hm). destruct ts as [ts|].
  - destruct Hh as (m' & E & W). rewrite (bind_run _ _ _ _ _ (on_mem_run _ _ _ _ E)).
    pose proof (shown_length (COMMAND_LINE_SIZE - len t) ts ltac:(lia)) as Hsh. set (t1 := shown _ ts) in *.
    pose proof (line_state_grows _ _ t1 _ _ Hs W ltac:(lia)) as Hs1. destruct (IH _ _ Hs1) as (s' & t' & E' & Et & Hs').
    assert (HL : len (t ++ t1) = len t + len t1) by (rewrite length_app; lia).
    exists s', (t1 ++ t'). rewrite app_assoc. split; [|split; [|done]].
    + rewrite <- E'. destruct (Z.ltb_spec 0 (len t1)) as [Hpos|Hz]; cbn [andb].
      * replace (len t1 <=? COMMAND_LINE_SIZE - len t) with true by lia.
        replace (s_cmdline + len t + len t1) with (s_cmdline + len (t ++ t1)) by lia.
        by replace (COMMAND_LINE_SIZE - len t - len t1) with (COMMAND_LINE_SIZE - len (t ++ t1)) by lia.
      * by replace (len (t ++ t1)) with (len t) by lia.
    + rewrite Et. by replace (COMMAND_LINE_SIZE - len t - len t1) with (COMMAND_LINE_SIZE - len (t ++ t1)) by lia.
  - destruct Hh as (r & E & Hr). rewrite (bind_run _ _ _ _ _ (on_mem_pure _ _ _ E)). replace (0 <? r) with false by lia. cbn [andb]. by apply IH.
Qed.
End Handlers.

(** ** The parameters of the boot loader *)

(** What the board's answers stand for: the texts of the root file system's suffix
    and of the version. *)
Section Texts.
Context (options : options) (board : board) (suffix_text version_text : list Z).

Definition carveout_pieces (name : string) (k : Z) (f : string) (args : tegrabl_linuxboot_memblock -> list arg) : option (list (list Z)) :=
  match carveout board k with
  | Some b => if truthy (size b) then Some (rendered f (Txt (chars name) :: args b)) else None
  | None => None
  end.

Definition earlycon_pieces : option (list (list Z)) :=
  if high_speed_uart board then None
  else
    match debug_console board with
    | None => None
    | Some console =>
        if console =? TEGRABL_LINUXBOOT_DEBUG_CONSOLE_NONE then None
        else if console =? TEGRABL_LINUXBOOT_DEBUG_CONSOLE_COMB_UART then
          if comb_uart options then (fun a => rendered "%s=tegra_comb_uart,mmio32,0x%08x " [Txt (chars "earlycon"); Num a]) <$> tcu_mbox_addr board else None
        else (fun a => rendered "%s=uart8250,mmio32,0x%lx " [Txt (chars "earlycon"); Num a]) <$> earlyuart_base board
    end.

(** The first display of the instance, when those in front answer. *)
Fixpoint display_pieces (name : string) (inst : Z) (f : string) (n : nat) (du_idx : Z) : option (list (list Z)) :=
  match n with
  | O => None
  | S n =>
      match display_params board du_idx with
      | None => None
      | Some d =>
          if negb (du_size d =? 0) && (instance d =? inst)
          then Some (rendered f [Txt (chars name); Num (du_size d); Num (du_addr d); Num (lut_size d); Num (lut_addr d)])
          else display_pieces name inst f n (du_idx + 1)
      end
  end.

Definition named (name : string) (ts : option (list (list Z))) : entry := (chars name, ts).
Definition valued (name : string) (value : list Z) : entry := named name (Some (rendered "%s=%s " [Txt (chars name); Txt value])).

Definition common_entries : list entry :=
  [named "tzram" (carveout_pieces "tzram" 1 "%s=0x%lx@0x%08lx " (fun b => [Num (size b); Num (base b)]));
   valued "video" (chars "tegrafb");
   named "earlycon" earlycon_pieces;
   named "nvdumper_reserved" (carveout_pieces "nvdumper_reserved" 4 "%s=0x%08lx " (fun b => [Num (base b)]));
   named "gpt" (Some (rendered "%s " [Txt (chars "gpt")]))] ++
  (if a_b_slot options then [named "rootfs.slot_suffix"
     match rootfs_suffix board with Some _ => (valued "rootfs.slot_suffix" suffix_text).2 | None => None end] else []) ++
  (if display options then
     [named "tegra_fbmem" (display_pieces "tegra_fbmem" 0 "%s=0x%x@0x%08lx lut_mem=0x%x@0x%08lx " 5 0);
      named "tegra_fbmem2" (display_pieces "tegra_fbmem2" 1 "%s=0x%x@0x%08lx lut_mem2=0x%x@0x%08lx " 5 0);
      named "tegra_fbmem3" (display_pieces "tegra_fbmem3" 2 "%s=0x%x@0x%08lx lut_mem3=0x%x@0x%08lx " 5 0)] else []) ++
  (if os_is_l4t options then [] else
     [valued "memtype" (chars "0");
      named "androidboot.secureos"
        match secureos board with
        | None => None
        | Some t => (valued "androidboot.secureos" (chars (if t =? 1 then "tlk" else if t =? 2 then "trusty" else "none"))).2
        end;
      valued "androidboot.bootloader" version_text]) ++
  [valued "usbcore.old_scheme_first" (chars "1")].

Definition literals : list string :=
  ["ignorefastboot"; "tzram"; "video"; "tegrafb"; "earlycon"; "nvdumper_reserved"; "gpt"; "rootfs.slot_suffix"; "tegra_fbmem"; "tegra_fbmem2";
   "tegra_fbmem3"; "memtype"; "0"; "androidboot.secureos"; "tlk"; "trusty"; "none"; "androidboot.bootloader"; "usbcore.old_scheme_first"; "1"]%string.
End Texts.

(** The arguments of a call. *)
Ltac given_args :=
  repeat match goal with
  | |- Forall2 _ [] [] => constructor
  | |- Forall2 _ (_ :: _) _ => apply Forall2_cons; split
  | |- holds_arg _ _ _ (Num _) _ => reflexivity
  | |- holds_arg _ _ _ (Txt _) _ => eassumption
  end.

Section Common.
Context (fuel : nat) (lit : string -> Z) (s_cmdline : Z) (m0 : mem) (options : options) (board : board) (suffix_text version_text : list Z).
Hypothesis (Hline : 0 < s_cmdline) (Hlit : forall l, l ∈ literals -> text_at fuel s_cmdline m0 (lit l) (chars l)).
Hypothesis (Hsuffix : forall p, rootfs_suffix board = Some p -> text_at fuel s_cmdline m0 p suffix_text).
Hypothesis (Hversion : text_at fuel s_cmdline m0 (version_start board) version_text).

Abbreviation txt := (text_at fuel s_cmdline m0).
Abbreviation does := (prints s_cmdline m0).

Lemma does_snprintf param f args ap h : is_Some (pieces 1000 (chars f) 32 args) -> Forall2 (holds_arg fuel s_cmdline m0) args ap ->
  (forall ptr remain m, s_cmdline <= ptr -> h ptr remain param m = tegrabl_snprintf fuel ptr remain (chars f) ap m) -> does h param (Some (rendered f args)).
Proof using.
  intros [ts Hts] Ha Hh m ptr remain Hk H1 H2 H3 Hm. rewrite Hh by done. eapply snprintf_prints; try done. by eapply rendered_pieces.
Qed.

Lemma does_nothing param h r : r <= 0 -> (forall ptr remain m, s_cmdline <= ptr -> h ptr remain param m = (Ret r, m)) -> does h param None.
Proof using. intros Hr Hh m ptr remain _ H1 _ _ _. exists r. by rewrite Hh. Qed.

Lemma carveout_does param name k : txt param (chars name) -> 0 <= k < 2 ^ 32 ->
  does (tegrabl_linuxboot_add_carveout fuel board k) param (carveout_pieces board name k "%s=0x%lx@0x%08lx " (fun b => [Num (size b); Num (base b)])).
Proof using Hline.
  intros Ht Hk. unfold carveout_pieces.
  assert (E : forall ptr remain, s_cmdline <= ptr -> tegrabl_linuxboot_add_carveout fuel board k ptr remain param =
    match carveout board k with None => ret (- 1) | Some b => if truthy (size b) then tegrabl_snprintf fuel ptr remain (chars "%s=0x%lx@0x%08lx ") [param; size b; base b] else ret 0 end).
  { intros ptr remain Hp. unfold tegrabl_linuxboot_add_carveout. rewrite (null_false _ _ _ Hline _ _ _ Hp Ht). by rewrite (wrapw_small 32). }
  destruct (carveout board k) as [b|]; [destruct (truthy (size b))|].
  - eapply does_snprintf; [by eexists| |intros; by rewrite E]. given_args.
  - eapply (does_nothing _ _ 0); [done|]. intros. by rewrite E.
  - eapply (does_nothing _ _ (- 1)); [done|]. intros. by rewrite E.
Qed.

Lemma nvdumper_does param name : txt param (chars name) ->
  does (tegrabl_linuxboot_add_nvdumper_info fuel board) param (carveout_pieces board name 4 "%s=0x%08lx " (fun b => [Num (base b)])).
Proof using Hline.
  intros Ht. unfold carveout_pieces.
  assert (E : forall ptr remain, s_cmdline <= ptr -> tegrabl_linuxboot_add_nvdumper_info fuel board ptr remain param =
    match carveout board 4 with None => ret (- 1) | Some b => if truthy (size b) then tegrabl_snprintf fuel ptr remain (chars "%s=0x%08lx ") [param; base b] else ret 0 end).
  { intros ptr remain Hp. unfold tegrabl_linuxboot_add_nvdumper_info. by rewrite (null_false _ _ _ Hline _ _ _ Hp Ht). }
  destruct (carveout board 4) as [b|]; [destruct (truthy (size b))|].
  - eapply does_snprintf; [by eexists| |intros; by rewrite E]. given_args.
  - eapply (does_nothing _ _ 0); [done|]. intros. by rewrite E.
  - eapply (does_nothing _ _ (- 1)); [done|]. intros. by rewrite E.
Qed.

Lemma add_string_does param name value text : txt param (chars name) -> txt value text ->
  does (tegrabl_linuxboot_add_string fuel value) param (Some (rendered "%s=%s " [Txt (chars name); Txt text])).
Proof using Hline.
  intros Ht Hv. eapply does_snprintf; [by eexists| |]; cycle 1.
  - intros ptr remain m Hp. unfold tegrabl_linuxboot_add_string. rewrite (null_false _ _ _ Hline _ _ _ Hp Ht).
    assert (value <> 0) as Hv0 by apply Hv. by rewrite (proj2 (Z.eqb_neq value 0) Hv0).
  - given_args.
Qed.

Lemma add_name_does param text : txt param text -> does (tegrabl_linuxboot_add_string fuel 0) param (Some (rendered "%s " [Txt text])).
Proof using Hline.
  intros Ht. eapply does_snprintf; [by eexists| |]; cycle 1.
  - intros ptr remain m Hp. unfold tegrabl_linuxboot_add_string. by rewrite (null_false _ _ _ Hline _ _ _ Hp Ht).
  - given_args.
Qed.

(** A short text survives the conversion of its length to eight bits. *)
Lemma fit_concat n ts : len (fit n ts) <= len (concat ts).
Proof using. revert n. induction ts as [|t ts IH]; intros n; cbn [fit concat]; [done|]. destruct (_ && _); cbn [List.length]; rewrite ?length_app; [specialize (IH (n - len t)); lia|lia]. Qed.

Lemma integer_text_length d padchar a : alternate_form d = false -> is_signed (conversion d) = false -> 8 <= base_of (conversion d) -> pad d <= 22 ->
  len (default [] (integer_text d padchar a)) <= 22.
Proof using.
  intros Ha Hs Hb Hp. unfold integer_text. destruct (integer_arg _ _ a) as [[sign val]| | | |] eqn:E; try (cbn; lia). pose proof (integer_arg_range _ _ _ _ _ E) as Hv.
  unfold integer_arg in E. rewrite Hs in E. cbn [andb] in E. injection E as <- <-. rewrite Ha. unfold number_text. cbn [Z.ltb Z.compare app default from_option id].
  rewrite length_app, length_replicate. pose proof (base_of_range (conversion d)) as Hr. unfold number.
  pose proof (numeral_short _ Hr 64 21 _ (conj (proj1 Hv) (Z.lt_le_trans _ _ _ (proj2 Hv) ltac:(transitivity (8 ^ 22); [vm_compute; discriminate|by apply Z.pow_le_mono_l])))). lia.
Qed.

Lemma s8_small n : 0 <= n < 128 -> signedw 8 n = n.
Proof using. intros H. unfold signedw. rewrite (wrapw_small 8) by (unfold in_word; lia). cbv zeta. destruct (Z.ltb_spec n (2 ^ (8 - 1))); [done|lia]. Qed.

Lemma does_eight_bits param ts h g : does g param (Some ts) -> len (concat ts) < 128 ->
  (forall ptr remain m, s_cmdline <= ptr -> h ptr remain param m = (let! n := g ptr remain param in ret (signedw 8 n)) m) -> does h param (Some ts).
Proof using.
  intros Hg Hl Hh m ptr remain Hk H1 H2 H3 Hm. destruct (Hg m ptr remain Hk H1 H2 H3 Hm) as (m' & E & W). exists m'. split; [|done].
  rewrite Hh by done. rewrite (bind_run _ _ _ _ _ E). unfold ret. do 2 f_equal. apply s8_small. pose proof (fit_concat (remain - 1) ts). unfold shown. lia.
Qed.

Lemma earlycon_does param : txt param (chars "earlycon") -> does (tegrabl_linuxboot_add_earlycon fuel options board) param (earlycon_pieces options board).
Proof using Hline.
  intros Ht. assert (Hnull : forall ptr, s_cmdline <= ptr -> null ptr param = false) by (intros; by eapply null_false).
  unfold earlycon_pieces, tegrabl_linuxboot_add_earlycon. destruct (high_speed_uart board) eqn:Eh.
  { eapply (does_nothing _ _ 0); [done|]. intros ptr remain m Hp. by rewrite Hnull by done. }
  destruct (debug_console board) as [console|] eqn:Ed.
  2: { eapply (does_nothing _ _ (- 1)); [done|]. intros ptr remain m Hp. by rewrite Hnull by done. }
  destruct (console =? TEGRABL_LINUXBOOT_DEBUG_CONSOLE_NONE) eqn:En.
  { eapply (does_nothing _ _ 0); [done|]. intros ptr remain m Hp. by rewrite Hnull by done. }
  destruct (console =? TEGRABL_LINUXBOOT_DEBUG_CONSOLE_COMB_UART) eqn:Ec.
  - destruct (comb_uart options) eqn:Eo.
    2: { eapply (does_nothing _ _ 0); [done|]. intros ptr remain m Hp. by rewrite Hnull by done. }
    destruct (tcu_mbox_addr board) as [a|] eqn:Et.
    2: { eapply (does_nothing _ _ (- 1)); [done|]. intros ptr remain m Hp. by rewrite Hnull by done. }
    eapply (does_eight_bits _ _ _ (fun p r q => tegrabl_snprintf fuel p r (chars "%s=tegra_comb_uart,mmio32,0x%08x ") [q; a])).
    + eapply does_snprintf; [by eexists| |by intros]. given_args.
    + match goal with |- len (concat ?ts) < _ => change (concat ts) with (chars "earlycon=tegra_comb_uart,mmio32,0x" ++ default [] (integer_text (parse_directive (chars "08x ")) 32 a) ++ [32]) end.
      rewrite !length_app. pose proof (integer_text_length (parse_directive (chars "08x ")) 32 a eq_refl eq_refl ltac:(done) ltac:(done)). cbn [List.length chars] in *.
      change (length (chars "earlycon=tegra_comb_uart,mmio32,0x")) with 34%nat. lia.
    + intros ptr remain m Hp. by rewrite Hnull by done.
  - destruct (earlyuart_base board) as [a|] eqn:Et.
    2: { eapply (does_nothing _ _ (- 1)); [done|]. intros ptr remain m Hp. by rewrite Hnull by done. }
    eapply (does_eight_bits _ _ _ (fun p r q => tegrabl_snprintf fuel p r (chars "%s=uart8250,mmio32,0x%lx ") [q; a])).
    + eapply does_snprintf; [by eexists| |by intros]. given_args.
    + match goal with |- len (concat ?ts) < _ => change (concat ts) with (chars "earlycon=uart8250,mmio32,0x" ++ default [] (integer_text (parse_directive (chars "lx ")) 32 a) ++ [32]) end.
      rewrite !length_app. pose proof (integer_text_length (parse_directive (chars "lx ")) 32 a eq_refl eq_refl ltac:(done) ltac:(done)). cbn [List.length chars] in *.
      change (length (chars "earlycon=uart8250,mmio32,0x")) with 27%nat. lia.
    + intros ptr remain m Hp. by rewrite Hnull by done.
Qed.

(** The three parameters of displays. *)
Definition displays : list (string * Z * string) :=
  [("tegra_fbmem"%string, 0, "%s=0x%x@0x%08lx lut_mem=0x%x@0x%08lx "%string); ("tegra_fbmem2"%string, 1, "%s=0x%x@0x%08lx lut_mem2=0x%x@0x%08lx "%string);
   ("tegra_fbmem3"%string, 2, "%s=0x%x@0x%08lx lut_mem3=0x%x@0x%08lx "%string)].

Lemma in_literals l : existsb (String.eqb l) literals = true -> l ∈ literals.
Proof using. intros H. apply existsb_exists in H as (x & Hx & E). apply String.eqb_eq in E as ->. by apply list_elem_of_In. Qed.

(** Comparing the parameter with a literal. *)
Lemma compare_run m param name l : kept s_cmdline m0 m -> txt param (chars name) -> existsb (String.eqb l) literals = true ->
  strcmp fuel param (lit l) m = (Ret (text_order (chars name) (chars l)), m).
Proof using Hlit.
  intros Hk (Hc & Ha & Hf & _) Hl. destruct (Hlit l (in_literals l Hl)) as (Hc2 & Ha2 & _). apply strcmp_run; [by eapply kept_cstr|by eapply kept_cstr|done].
Qed.

Lemma display_units_does param name inst f n : (name, inst, f) ∈ displays -> txt param (chars name) -> forall idx,
  does (display_units fuel lit board n idx) param (display_pieces board name inst f n idx).
Proof using Hlit.
  intros Hin Ht. induction n as [|n IH]; intros idx; cbn [display_units display_pieces]; [by eapply (does_nothing _ _ (- 1))|].
  destruct (display_params board idx) as [d|]; [|by eapply (does_nothing _ _ (- 1))].
  destruct (Z.eqb_spec (du_size d) 0) as [Hz|Hz]; cbn [negb andb]; [apply IH|].
  assert (Hshow : (instance d =? inst) = true -> forall m ptr remain, kept s_cmdline m0 m -> s_cmdline <= ptr -> ptr + remain = s_cmdline + COMMAND_LINE_SIZE -> 0 < remain -> mapped m ptr remain ->
    let ts := rendered f [Txt (chars name); Num (du_size d); Num (du_addr d); Num (lut_size d); Num (lut_addr d)] in
    exists m', tegrabl_snprintf fuel ptr remain (chars f) [param; du_size d; du_addr d; lut_size d; lut_addr d] m = (Ret (len (shown remain ts)), m') /\ written m m' ptr (shown remain ts ++ [0])).
  { set (args := [Txt (chars name); Num (du_size d); Num (du_addr d); Num (lut_size d); Num (lut_addr d)]).
    assert (is_Some (pieces 1000 (chars f) 32 args)) as [ts Hts].
    { unfold displays in Hin. rewrite !elem_of_cons in Hin. destruct Hin as [[= -> -> ->] | [[= -> -> ->] | [[= -> -> ->] | []%elem_of_nil]]]; by eexists. }
    intros _ m ptr remain. intros. eapply (snprintf_prints _ _ _ f args); [by eapply rendered_pieces|subst args; given_args|done..]. }
  intros m ptr remain Hk H1 H2 H3 Hm. specialize (fun H => Hshow H m ptr remain Hk H1 H2 H3 Hm). specialize (IH (idx + 1) m ptr remain Hk H1 H2 H3 Hm).
  rewrite (bind_run _ _ _ _ _ (compare_run m param name "tegra_fbmem" Hk Ht eq_refl)).
  assert (E2 : forall A (k : Z -> M mem A), (let! c := strcmp fuel param (lit "tegra_fbmem2") in k c) m = k (text_order (chars name) (chars "tegra_fbmem2")) m)
    by (intros A k; exact (bind_run _ _ _ _ _ (compare_run m param name "tegra_fbmem2" Hk Ht eq_refl))).
  assert (E3 : forall A (k : Z -> M mem A), (let! c := strcmp fuel param (lit "tegra_fbmem3") in k c) m = k (text_order (chars name) (chars "tegra_fbmem3")) m)
    by (intros A k; exact (bind_run _ _ _ _ _ (compare_run m param name "tegra_fbmem3" Hk Ht eq_refl))).
  unfold displays in Hin. rewrite !elem_of_cons in Hin. destruct Hin as [[= -> -> ->] | [[= -> -> ->] | [[= -> -> ->] | []%elem_of_nil]]].
  - change (text_order (chars "tegra_fbmem") (chars "tegra_fbmem")) with 0. cbn [Z.eqb andb]. destruct (instance d =? 0); [by apply Hshow|].
    rewrite E2. change (text_order (chars "tegra_fbmem") (chars "tegra_fbmem2")) with (- 1). cbn [Z.eqb andb].
    rewrite E3. change (text_order (chars "tegra_fbmem") (chars "tegra_fbmem3")) with (- 1). cbn [Z.eqb andb]. exact IH.
  - change (text_order (chars "tegra_fbmem2") (chars "tegra_fbmem")) with 1. cbn [Z.eqb andb]. rewrite E2.
    change (text_order (chars "tegra_fbmem2") (chars "tegra_fbmem2")) with 0. cbn [Z.eqb andb]. destruct (instance d =? 1); [by apply Hshow|].
    rewrite E3. change (text_order (chars "tegra_fbmem2") (chars "tegra_fbmem3")) with (- 1). cbn [Z.eqb andb]. exact IH.
  - change (text_order (chars "tegra_fbmem3") (chars "tegra_fbmem")) with 1. cbn [Z.eqb andb]. rewrite E2.
    change (text_order (chars "tegra_fbmem3") (chars "tegra_fbmem2")) with 1. cbn [Z.eqb andb]. rewrite E3.
    change (text_order (chars "tegra_fbmem3") (chars "tegra_fbmem3")) with 0. cbn [Z.eqb andb]. destruct (instance d =? 2); [by apply Hshow|exact IH].
Qed.

Lemma rootfs_does param : txt param (chars "rootfs.slot_suffix") -> does (tegrabl_linuxboot_add_rootfs_param fuel board) param
  match rootfs_suffix board with Some _ => (valued "rootfs.slot_suffix" suffix_text).2 | None => None end.
Proof using Hline Hsuffix.
  intros Ht. unfold tegrabl_linuxboot_add_rootfs_param. destruct (rootfs_suffix board) as [p|] eqn:E.
  - intros m ptr remain Hk H1. rewrite (null_false _ _ _ Hline _ _ _ H1 Ht). by apply add_string_does; [|apply Hsuffix|..].
  - eapply (does_nothing _ _ (- 1)); [done|]. intros ptr remain m Hp. by rewrite (null_false _ _ _ Hline _ _ _ Hp Ht).
Qed.

Lemma secureos_does param : txt param (chars "androidboot.secureos") -> does (tegrabl_linuxboot_add_secureos_name fuel lit board) param
  match secureos board with
  | None => None
  | Some t => (valued "androidboot.secureos" (chars (if t =? 1 then "tlk" else if t =? 2 then "trusty" else "none"))).2
  end.
Proof using Hlit.
  intros Ht. unfold tegrabl_linuxboot_add_secureos_name. destruct (secureos board) as [t|]; [|by eapply (does_nothing _ _ (- 1))].
  assert (H : forall l, existsb (String.eqb l) literals = true ->
    does (fun p r q => tegrabl_snprintf fuel p r (chars "%s=%s ") [q; lit l]) param (valued "androidboot.secureos" (chars l)).2).
  { intros l Hl. pose proof (Hlit l (in_literals l Hl)). eapply does_snprintf; [by eexists| |by intros]. given_args. }
  change TEGRABL_TOS_TYPE_TLK with 1. change TEGRABL_TOS_TYPE_TRUSTY with 2. destruct (t =? 1); [by apply H|]. destruct (t =? 2); by apply H.
Qed.

Lemma version_does param : txt param (chars "androidboot.bootloader") ->
  does (tegrabl_linuxboot_add_bootloader_version fuel board) param (valued "androidboot.bootloader" version_text).2.
Proof using Hversion. intros Ht. eapply does_snprintf; [by eexists| |by intros]. given_args. Qed.

Lemma literal_entry (name : string) (h : Z -> Z -> Z -> M mem Z) ts : existsb (String.eqb name) literals = true ->
  forallb (fun c => (0 <? c) && (c <? 256) && negb (c =? 32) && negb (c =? 34)) (chars name) = true -> chars name <> [] ->
  (txt (lit name) (chars name) -> does h (lit name) ts) -> entry_ok fuel s_cmdline m0 (mk_param (lit name) (Some h)) (named name ts).
Proof using Hlit.
  intros Hl Hc Hne Hh. pose proof (Hlit name (in_literals _ Hl)) as Ht. split; [done|]. split; [|by apply Hh]. split; [done|].
  apply Forall_forall. intros c Hin. rewrite forallb_forall in Hc. specialize (Hc c (proj1 (list_elem_of_In _ _) Hin)). lia.
Qed.

Lemma common_params_ok : Forall2 (entry_ok fuel s_cmdline m0) (common_params fuel lit options board) (common_entries options board suffix_text version_text).
Proof using Hline Hlit Hsuffix Hversion.
  assert (Hstr : forall name value, existsb (String.eqb value) literals = true -> txt (lit name) (chars name) ->
    does (tegrabl_linuxboot_add_string fuel (lit value)) (lit name) (valued name (chars value)).2).
  { intros name value Hv Ht. apply add_string_does; [done|by apply Hlit, in_literals]. }
  assert (Hdisp : forall name inst f, existsb (String.eqb name) literals = true -> (name, inst, f) ∈ displays ->
    txt (lit name) (chars name) -> does (tegrabl_linuxboot_add_disp_param fuel lit board) (lit name) (display_pieces board name inst f 5 0)).
  { intros name inst f _ Hd Ht. by apply display_units_does. }
  unfold common_params, common_entries. apply Forall2_app; [|apply Forall2_app; [destruct (a_b_slot options)|apply Forall2_app;
    [destruct (display options)|apply Forall2_app; [destruct (os_is_l4t options)|]]]];
    repeat (apply Forall2_cons; split); try apply Forall2_nil_2; try (by constructor); apply literal_entry; try reflexivity; try (by intros [=]).
  - intros Ht. by apply carveout_does.
  - by apply Hstr.
  - apply earlycon_does.
  - apply nvdumper_does.
  - apply add_name_does.
  - apply rootfs_does.
  - apply Hdisp; [done|by left].
  - apply Hdisp; [done|by right; left].
  - apply Hdisp; [done|by right; right; left].
  - by apply Hstr.
  - apply secureos_does.
  - apply version_does.
  - by apply Hstr.
Qed.

(** ** The whole line *)

Context (dma : tegrabl_clib_dma) (extra_params : option (list tegrabl_linuxboot_param)) (extra_entries : list entry) (boot_text : list Z).
Hypothesis (Hmapped : mapped m0 s_cmdline COMMAND_LINE_SIZE) (Hend : s_cmdline + COMMAND_LINE_SIZE <= 2 ^ 64).
Hypothesis (Hdma : forall f, memset_callback dma = Some f -> engine_fills f).
Hypothesis (Hboot : bootimg_cmdline board = 0 /\ boot_text = [] \/ txt (bootimg_cmdline board) boot_text).
Hypothesis (Hextra : Forall2 (entry_ok fuel s_cmdline m0) (default [] extra_params) extra_entries).

Definition prepared (given : list Z) : list Z :=
  let ws := words given in
  let more t table := t ++ if existsb ignored ws then [] else appended ws (COMMAND_LINE_SIZE - len t) table in
  let t := line ws in
  let t := t ++ match boot_text with [] => [] | _ => shown (COMMAND_LINE_SIZE - len t) (rendered "%s " [Txt boot_text]) end in
  more (more t (common_entries options board suffix_text version_text)) extra_entries.

(** The line wanted: the given words with a space behind each, the line of the boot
    image, and the parameters the words leave open; [ignorefastboot] stands for the
    wish that no parameter is added, and is not handed on. *)
Definition command_line (given : list Z) : list Z :=
  let ws := words given in
  let more t table := t ++ if existsb ignored ws then [] else appended ws (COMMAND_LINE_SIZE - len t) table in
  let t := concat (map (fun w => w ++ [32]) (filter (fun w => ignored w = false) ws)) in
  let t := t ++ match boot_text with [] => [] | _ => shown (COMMAND_LINE_SIZE - len t) (rendered "%s " [Txt boot_text]) end in
  more (more t (common_entries options board suffix_text version_text)) extra_entries.

(** [ignorefastboot] is the last word, behind another one, or does not occur. *)
Definition ignored_last (ws : list (list Z)) : Prop := forall ws1 w ws2, ws = ws1 ++ w :: ws2 -> ignored w = true -> ws1 <> [] /\ ws2 = [].

Lemma line_from_last ws : forall o, closed o = o -> (forall ws1 w ws2, ws = ws1 ++ w :: ws2 -> ignored w = true -> ws2 = []) ->
  line_from o ws = o ++ concat (map (fun w => w ++ [32]) (filter (fun w => ignored w = false) ws)).
Proof using.
  induction ws as [|w ws IH]; intros o Ho Hl; [by rewrite app_nil_r|]. cbn [line_from]. rewrite filter_cons. destruct (ignored w) eqn:Ei.
  - destruct (decide _); [done|]. rewrite (Hl [] w ws eq_refl Ei). cbn. by rewrite !app_nil_r.
  - destruct (decide _); [|done]. cbn [map concat]. rewrite IH; [by rewrite <- !app_assoc| |].
    + unfold closed. by rewrite app_assoc, last_snoc.
    + intros ws1 x ws2 ->. by apply (Hl (w :: ws1)).
Qed.

Lemma none_ignored ws : existsb ignored ws = false -> ignored_last ws.
Proof using.
  intros H ws1 w ws2 -> Hi. rewrite existsb_app in H. cbn in H. rewrite Hi, orb_true_r in H. done.
Qed.

Lemma prepared_last given : ignored_last (words given) -> prepared given = command_line given.
Proof using.
  intros Hl. unfold prepared, command_line, line. destruct (words given) as [|w ws] eqn:E; [done|].
  rewrite (line_from_last (w :: ws)); [done|done|]. intros ws1 x ws2 Hx Hi. by apply (Hl ws1 x ws2).
Qed.

Lemma kept_trans m1 m2 : kept s_cmdline m0 m1 -> kept s_cmdline m1 m2 -> kept s_cmdline m0 m2.
Proof using. intros [E1 U1] [E2 U2]. split; [intros x Hx; by apply E2, E1|]. intros x Hx. by rewrite U2, U1. Qed.

(** The command line of the boot image behind the given one. *)
Lemma boot_run ws t s : line_state s_cmdline m0 ws t s ->
  let ptr := s_cmdline + len t in let remain := COMMAND_LINE_SIZE - len t in let bootimg := bootimg_cmdline board in
  exists s' t', (let! some := if bootimg =? 0 then ret false else let! n := on_mem (strlen fuel bootimg) in ret (truthy n) in
    if some then
      let! idx := on_mem (tegrabl_linuxboot_add_string fuel 0 ptr remain bootimg) in
      if idx <=? 0 then ret (false, ptr, remain)
      else if remain <? idx then ret (true, ptr + remain, 0)
      else ret (false, ptr + idx, remain - idx)
    else ret (false, ptr, remain)) s = (Ret (false, s_cmdline + len (t ++ t'), COMMAND_LINE_SIZE - len (t ++ t')), s') /\
    t' = match boot_text with [] => [] | _ => shown remain (rendered "%s " [Txt boot_text]) end /\ line_state s_cmdline m0 ws (t ++ t') s'.
Proof using Hboot Hline Hmapped.
  intros Hs ptr remain bootimg. subst bootimg. destruct Hboot as [[E0 Et] | Hb].
  { rewrite E0, Et. exists s, []. by rewrite app_nil_r. }
  assert (Hp0 : bootimg_cmdline board <> 0) by apply Hb. rewrite (proj2 (Z.eqb_neq _ _) Hp0).
  pose proof Hs as (Hk & _ & Hl & _). pose proof Hb as (Hc & Ha & Hf & Hl2 & _).
  assert (Hsome : (let! n := on_mem (strlen fuel (bootimg_cmdline board)) in ret (truthy n)) s = (Ret (truthy (len boot_text)), s)).
  { by rewrite (bind_run _ _ _ _ _ (on_mem_pure _ _ _ (strlen_run _ _ _ _ (kept_cstr _ _ _ _ _ Hk Ha Hc) Hf Hl2))). }
  rewrite (bind_run _ _ _ _ _ Hsome). destruct boot_text as [|c l] eqn:Et; [exists s, []; by rewrite app_nil_r|]. rewrite <- Et in *.
  replace (truthy (len boot_text)) with true by (by rewrite Et).
  assert (Hm : mapped (cl_mem s) ptr remain). { eapply mapped_extent; [apply Hk|]. eapply mapped_sub; [exact Hmapped|lia..]. }
  destruct (add_name_does (bootimg_cmdline board) boot_text Hb (cl_mem s) ptr remain Hk ltac:(lia) ltac:(lia) ltac:(lia) Hm) as (m' & E & W).
  rewrite (bind_run _ _ _ _ _ (on_mem_run _ _ _ _ E)).
  pose proof (shown_length remain (rendered "%s " [Txt boot_text]) ltac:(lia)) as Hsh. set (t' := shown remain _) in *.
  assert (HL : len (t ++ t') = len t + len t') by (rewrite length_app; lia).
  eexists _, t'. split; [|split; [done|by eapply line_state_grows; [exact Hs|exact W|lia]]].
  destruct (Z.leb_spec (len t') 0); [|destruct (Z.ltb_spec remain (len t')); [lia|]]; unfold ret; rewrite HL; subst ptr remain.
  - by replace (s_cmdline + (len t + len t')) with (s_cmdline + len t) by lia; replace (COMMAND_LINE_SIZE - (len t + len t')) with (COMMAND_LINE_SIZE - len t) by lia.
  - by replace (s_cmdline + len t + len t') with (s_cmdline + (len t + len t')) by lia; replace (COMMAND_LINE_SIZE - len t - len t') with (COMMAND_LINE_SIZE - (len t + len t')) by lia.
Qed.

Lemma prepare_run s cmdline given : cl_mem s = m0 -> n_ignore_fastboot s = 0 -> txt cmdline given -> len given <= COMMAND_LINE_SIZE - 3 ->
  (forall w, words given = [w] -> ignored w = false) -> Forall no_empty_quotes (words given) ->
  exists s', tegrabl_linuxboot_prepare_cmdline fuel lit s_cmdline dma options board extra_params cmdline s = (Ret s_cmdline, s') /\
    kept s_cmdline m0 (cl_mem s') /\ holds (cl_mem s') s_cmdline (prepared given ++ [0]) /\ len (prepared given) < COMMAND_LINE_SIZE.
Proof using All.
  intros Em Hn (Hg & Hga & Hgf & _ & Hg0) Hlen Hex Hq. unfold tegrabl_linuxboot_prepare_cmdline.
  destruct (memset_fills dma m0 s_cmdline 0 COMMAND_LINE_SIZE Hdma ltac:(lia) ltac:(done) Hend Hmapped) as (m1 & E1 & F1).
  rewrite <- Em in E1 at 1. rewrite (bind_run _ _ _ _ _ (on_mem_run _ _ _ _ E1)). set (s1 := mk_cl m1 _ _).
  assert (Hk1 : kept s_cmdline m0 m1).
  { split; [intros x Hx; rewrite F1; by destruct (decide _)|]. intros x Hx. rewrite F1. by destruct (decide _). }
  destruct (Hlit IGNORE_FASTBOOT_CMD ltac:(by left)) as (Hi & Hia & Hif & _).
  destruct (init_cmd_list_run fuel lit s_cmdline m1) with (s := s1) (cmdline := cmdline) (given := given) as (s2 & E2 & Hk2 & Hh2 & Ho2 & Hi2 & Hl2); try done.
  { by eapply kept_cstr. } { eapply mapped_extent; [apply Hk1|done]. } { by eapply kept_cstr. }
  rewrite (bind_run _ _ _ _ _ E2).
  assert (Hs2 : line_state s_cmdline m0 (words given) (line (words given)) s2).
  { split; [by eapply kept_trans|]. split; [done|]. split; [done|]. split; [exists []; by rewrite app_nil_r|]. split; [done|]. split; [done|].
    apply line_words; [by eapply cstr_chars|done]. }
  destruct (boot_run _ _ _ Hs2) as (s3 & t3 & E3 & Et3 & Hs3).
  cbv zeta in E3. rewrite (bind_nested _ _ _ _ _ _ E3). cbn beta iota.
  destruct (append_params_run fuel s_cmdline m0 Hmapped _ _ _ common_params_ok _ _ Hs3) as (s4 & t4 & E4 & Et4 & Hs4).
  rewrite (bind_run _ _ _ _ _ E4). cbn beta iota.
  destruct (append_params_run fuel s_cmdline m0 Hmapped _ _ _ Hextra _ _ Hs4) as (s5 & t5 & E5 & Et5 & Hs5).
  assert (Ep : prepared given = ((line (words given) ++ t3) ++ t4) ++ t5) by (unfold prepared; cbv zeta; by rewrite Et5, Et4, Et3).
  exists s5. rewrite Ep. destruct Hs5 as (Hk5 & Hh5 & Hl5 & _). split; [|done].
  destruct extra_params as [ps|]; [by rewrite (bind_run _ _ _ _ _ E5)|]. cbn in E5. injection E5 as _ _ <-. done.
Qed.
End Common.

(** ** Property *)

(** What the linker, the board and the other libraries provide. *)
Record provided (fuel : nat) (lit : string -> Z) (s_cmdline : Z) (dma : tegrabl_clib_dma) (m0 : mem) (board : board)
    (extra_params : option (list tegrabl_linuxboot_param)) (suffix_text version_text boot_text : list Z) (extra_entries : list entry) : Prop := {
  line_place : 0 < s_cmdline /\ s_cmdline + COMMAND_LINE_SIZE <= 2 ^ 64 /\ mapped m0 s_cmdline COMMAND_LINE_SIZE;
  literals_stand : Forall (fun l => text_at fuel s_cmdline m0 (lit l) (chars l)) literals;
  suffix_stands : forall p, rootfs_suffix board = Some p -> text_at fuel s_cmdline m0 p suffix_text;
  version_stands : text_at fuel s_cmdline m0 (version_start board) version_text;
  bootimg_stands : bootimg_cmdline board = 0 /\ boot_text = [] \/ text_at fuel s_cmdline m0 (bootimg_cmdline board) boot_text;
  extra_print : Forall2 (entry_ok fuel s_cmdline m0) (default [] extra_params) extra_entries;
  dma_fills : forall f, memset_callback dma = Some f -> engine_fills f;
}.

(** C38.  The first time it is made, and for a given line of at most 2045 characters,
    none of whose words holds two quotes in a row, and in which [ignorefastboot] is the
    last of several words or does not occur, the command line of the kernel is the given
    words with a space behind each, the line of the boot image, and the texts of the
    parameters that no word sets, in the order of the tables and none of them after
    [ignorefastboot], each cut to the pieces that fit; it ends inside of the array and
    nothing else changes. *)
Theorem kernel_command_line fuel lit s_cmdline dma options board extra_params suffix_text version_text boot_text extra_entries s cmdline given :
  provided fuel lit s_cmdline dma (cl_mem s) board extra_params suffix_text version_text boot_text extra_entries ->
  n_ignore_fastboot s = 0 -> text_at fuel s_cmdline (cl_mem s) cmdline given -> len given <= COMMAND_LINE_SIZE - 3 ->
  Forall no_empty_quotes (words given) -> ignored_last (words given) ->
  let t := command_line options board suffix_text version_text extra_entries boot_text given in
  exists s', tegrabl_linuxboot_prepare_cmdline fuel lit s_cmdline dma options board extra_params cmdline s = (Ret s_cmdline, s') /\
    holds (cl_mem s') s_cmdline (t ++ [0]) /\ len t < COMMAND_LINE_SIZE /\ unchanged_outside (cl_mem s) (cl_mem s') s_cmdline COMMAND_LINE_SIZE.
Proof.
  intros [(H1 & H2 & H3) H4 H5 H6 H7 H8 H9] Hn Hg Hl Hq Hi t. rewrite Forall_forall in H4.
  assert (Hex : forall w, words given = [w] -> ignored w = false).
  { intros w E. destruct (ignored w) eqn:Ei; [|done]. by destruct (Hi [] w [] E Ei). }
  destruct (prepare_run fuel lit s_cmdline (cl_mem s) options board suffix_text version_text H1 H4 H5 H6 dma extra_params extra_entries boot_text H3 H2 H9 H7 H8
    s cmdline given eq_refl Hn Hg Hl Hex Hq) as (s' & E & [_ Hu] & Hh & Hlen).
  subst t. rewrite <- prepared_last by done. by exists s'.
Qed.

(** A memory with the literals from 16 on, other texts behind them, and the array. *)
Fixpoint lay (a : Z) (l : list string) : list (string * Z) :=
  match l with [] => [] | s :: l => (s, a) :: lay (a + 1 + len (chars s)) l end.
Definition sample_texts : list string := literals ++ ["VERSION"%string; "boot=img"%string; "_b"%string].
Definition sample_lit (s : string) : Z :=
  match find (fun '(t, _) => String.eqb s t) (lay 16 sample_texts) with Some (_, a) => a | None => 0 end.
Definition sample_board : board :=
  mk_board (fun k => if k =? 1 then Some (mk_memblock 0x80000000 0x1000) else None) (Some 2) (Some 0x3100000) None (Some 2) false
    (Some (sample_lit "_b")) (fun i => Some (mk_display (if i =? 1 then 64 else 0) 0x9000 0 5 6)) (sample_lit "VERSION") (sample_lit "boot=img").
Definition sample_options : options := mk_options true true true false.
Definition sample_given : list Z := chars "  gpt video=x " ++ [34] ++ chars "memtype=a b" ++ [34].
Definition sample_start : cl :=
  mk_cl (text_memory 16 (concat (map (fun s => chars s ++ [0]) sample_texts)) ∪ text_memory 1000 (sample_given ++ [0]) ∪
    text_memory 4096 (replicate 2048 7)) 0 0.
Definition no_dma : tegrabl_clib_dma := mk_dma None 0 None 0.

Definition text_at_b (fuel : nat) (a : Z) (m : mem) (p : Z) (l : list Z) : bool :=
  holds_b m p (l ++ [0]) && forallb (fun c => (0 <? c) && (c <? 256)) l && ((p + len l <? a) || (a + COMMAND_LINE_SIZE <=? p)) &&
  (length l <? fuel)%nat && (len l <? 2 ^ 31) && negb (p =? 0).
Lemma text_at_check fuel a m p l : text_at_b fuel a m p l = true -> text_at fuel a m p l.
Proof.
  unfold text_at_b. rewrite !andb_true_iff. intros [[[[[H1 H2] H3] H4%Nat.ltb_lt] H5] H6]. split; [apply cstr_check; by rewrite H1, H2|].
  unfold apart_from_line. split; [lia|]. split; [done|]. split; [lia|]. intros ->. done.
Qed.

Fixpoint texts_at_b (fuel : nat) (a : Z) (m : mem) (lit : string -> Z) (ls : list string) : bool :=
  match ls with [] => true | l :: ls => text_at_b fuel a m (lit l) (chars l) && texts_at_b fuel a m lit ls end.
Lemma texts_at_check fuel a m lit ls : texts_at_b fuel a m lit ls = true -> Forall (fun l => text_at fuel a m (lit l) (chars l)) ls.
Proof. induction ls as [|l ls IH]; [done|]. intros [H1 H2]%andb_true_iff. constructor; [by apply text_at_check|by apply IH]. Qed.

Lemma kernel_command_line_witness : exists s',
  tegrabl_linuxboot_prepare_cmdline 100 sample_lit 4096 no_dma sample_options sample_board None 1000 sample_start = (Ret 4096, s') /\
  holds (cl_mem s') 4096 ((chars "gpt video=x " ++ [34] ++ chars "memtype=a b" ++ [34] ++ chars " boot=img tzram=0x1000@0x80000000 " ++
    chars "earlycon=uart8250,mmio32,0x3100000 rootfs.slot_suffix=_b tegra_fbmem=0x40@0x00009000 lut_mem=0x6@0x00000005 " ++
    chars "androidboot.secureos=trusty androidboot.bootloader=VERSION usbcore.old_scheme_first=1 ") ++ [0]) /\
  unchanged_outside (cl_mem sample_start) (cl_mem s') 4096 COMMAND_LINE_SIZE.
Proof.
  pose proof (kernel_command_line 100 sample_lit 4096 no_dma sample_options sample_board None (chars "_b") (chars "VERSION") (chars "boot=img") []
    sample_start 1000 sample_given) as H. cbv zeta in H.
  assert (E : command_line sample_options sample_board (chars "_b") (chars "VERSION") [] (chars "boot=img") sample_given =
    chars "gpt video=x " ++ [34] ++ chars "memtype=a b" ++ [34] ++ chars " boot=img tzram=0x1000@0x80000000 " ++
    chars "earlycon=uart8250,mmio32,0x3100000 rootfs.slot_suffix=_b tegra_fbmem=0x40@0x00009000 lut_mem=0x6@0x00000005 " ++
    chars "androidboot.secureos=trusty androidboot.bootloader=VERSION usbcore.old_scheme_first=1 ") by (vm_compute; reflexivity).
  rewrite E in H. destruct H as (s' & H1 & H2 & H3 & H4).
  - split.
    + split; [lia|]. split; [vm_compute; discriminate|]. apply mapped_check. vm_compute. reflexivity.
    + apply texts_at_check. vm_compute. reflexivity.
    + intros p [= <-]. apply text_at_check. vm_compute. reflexivity.
    + apply text_at_check. vm_compute. reflexivity.
    + right. apply text_at_check. vm_compute. reflexivity.
    + constructor.
    + intros f. discriminate.
  - reflexivity.
  - apply text_at_check. vm_compute. reflexivity.
  - vm_compute. discriminate.
  - vm_compute. repeat constructor; intros; discriminate.
  - apply none_ignored. vm_compute. reflexivity.
  - exists s'. split; [exact H1|]. split; [exact H2|exact H4].
Defined.
