(* ===== verification/FsPath.v ===== *)
(** * File system layer: paths

    [fs_normalize_path] of lib/fs/fs.c: a state machine that rewrites a path in
    place.  A path is the content of its buffer, terminator included. *)
From stdpp Require Import base list.
From S2P Require Import Prelude.
#[local] Open Scope Z_scope.

Definition slash : Z := 47.
Definition dot : Z := 46.

Inductive normalize_state :=
  | INITIAL | FIELD_START | IN_FIELD | SEP | SEEN_SEP | DOT | SEEN_DOT | DOTDOT | SEEN_DOTDOT.

(** The two positions and the buffer. *)
Record scan := mk_scan { pos : nat; outpos : nat; path : list Z }.

Definition char_at (p : list Z) (i : nat) : outcome Z := match p !! i with Some c => Ret c | None => Undef end.

(** [path[outpos++] = c;] *)
Definition emit (c : Z) (s : scan) : outcome scan :=
  match path s !! outpos s with
  | Some _ => Ret (mk_scan (pos s) (S (outpos s)) (<[outpos s := c]> (path s)))
  | None => Undef
  end.
Definition consume (s : scan) : scan := mk_scan (S (pos s)) (outpos s) (path s).
Definition set_outpos (o : nat) (s : scan) : scan := mk_scan (pos s) o (path s).

(** [while (outpos > 0) { if (path[outpos - 1] == '/') break; outpos--; }] *)
Fixpoint walk_back (p : list Z) (o : nat) : outcome nat :=
  match o with
  | O => Ret O
  | S k => obind (char_at p k) (fun c => if c =? slash then Ret o else walk_back p k)
  end.

(** One turn of the loop: the next state, the positions and [done]. *)
Definition normalize_step (state : normalize_state) (s : scan) : outcome (normalize_state * scan * bool) :=
  obind (char_at (path s) (pos s)) (fun c =>
  match state with
  | INITIAL => Ret (if c =? slash then SEP else if c =? dot then DOT else FIELD_START, s, false)
  | FIELD_START =>
      Ret (if c =? dot then (DOT, s, false) else if c =? 0 then (FIELD_START, s, true) else (IN_FIELD, s, false))
  | IN_FIELD =>
      if c =? slash then Ret (SEP, s, false)
      else if c =? 0 then Ret (IN_FIELD, s, true)
      else obind (emit c s) (fun s => Ret (IN_FIELD, consume s, false))
  | SEP => obind (emit slash (consume s)) (fun s => Ret (SEEN_SEP, s, false))
  | SEEN_SEP =>
      Ret (if c =? slash then (SEEN_SEP, consume s, false)
           else if c =? 0 then (SEEN_SEP, s, true)
           else (FIELD_START, s, false))
  | DOT => Ret (SEEN_DOT, consume s, false)
  | SEEN_DOT =>
      if c =? dot then Ret (DOTDOT, s, false)
      else if c =? slash then Ret (SEEN_SEP, consume s, false)
      else if c =? 0 then Ret (SEEN_DOT, s, true)
      else obind (emit dot s) (fun s => Ret (IN_FIELD, s, false))
  | DOTDOT => Ret (SEEN_DOTDOT, consume s, false)
  | SEEN_DOTDOT =>
      if (c =? slash) || (c =? 0) then
        obind (match outpos s with O => Ret O | S o => walk_back (path s) o end) (fun o =>
        Ret (SEEN_SEP, consume (set_outpos o s), c =? 0))
      else obind (emit dot s) (fun s => obind (emit dot s) (fun s => Ret (IN_FIELD, s, false)))
  end).

Fixpoint normalize_loop (fuel : nat) (state : normalize_state) (s : scan) : outcome scan :=
  match fuel with
  | O => Fuel
  | S fuel =>
      obind (normalize_step state s) (fun '(state, s, done) =>
      if done then Ret s else normalize_loop fuel state s)
  end.

(** Every character takes four turns at most. *)
Definition path_fuel (p : list Z) : nat := 4 * length p + 4.

Definition fs_normalize_path (p : list Z) : outcome (list Z) :=
  obind (normalize_loop (path_fuel p) INITIAL (mk_scan 0 0 p)) (fun s =>
  obind (match outpos s with
         | O => Ret O
         | S o => obind (char_at (path s) o) (fun c => Ret (if c =? slash then o else S o))
         end) (fun o =>
  obind (emit 0 (set_outpos o s)) (fun s => Ret (path s)))).

(** [trim_name]: the rest of the name. *)
Fixpoint skip (c : Z) (l : list Z) : list Z := match l with x :: r => if x =? c then skip c r else l | [] => [] end.
Definition trim_name (name : list Z) : list Z := skip slash (skip 32 name).

(** ** The reference: a stack of fields *)

Fixpoint fields (l : list Z) : list (list Z) :=
  match l with
  | [] => [[]]
  | c :: l =>
      if c =? slash then [] :: fields l
      else match fields l with f :: r => (c :: f) :: r | [] => [[c]] end
  end.

(** A path with its fields in reverse order; [rooted]: it starts with a slash. *)
Record tree_path := mk_tree { rooted : bool; stack : list (list Z) }.

(** A field that goes up from the top also loses the slash in front. *)
Definition push (t : tree_path) (f : list Z) : tree_path :=
  if bool_decide (f = []) || bool_decide (f = [dot]) then t
  else if bool_decide (f = [dot; dot]) then
    match stack t with [] => mk_tree false [] | _ :: r => mk_tree (rooted t) r end
  else mk_tree (rooted t) (f :: stack t).

Definition parse_path (l : list Z) : tree_path :=
  fold_left push (fields l) (mk_tree (match l with c :: _ => c =? slash | [] => false end) []).

Definition slashed (l : list (list Z)) : list Z := concat (map (fun f => f ++ [slash]) l).

(** The text that is complete when the next field starts. *)
Definition render (t : tree_path) : list Z := (if rooted t then [slash] else []) ++ slashed (reverse (stack t)).

Definition chop (l : list Z) : list Z := match last l with Some c => if c =? slash then take (length l - 1) l else l | None => l end.

Definition normal (l : list Z) : list Z := chop (render (parse_path l)).

Example normal_example : fs_normalize_path [47;97;47;46;47;47;98;47;46;46;47;99;47;0;9] =
  Ret [47;97;47;99;0;47;98;47;46;46;47;99;47;0;9] /\ normal [47;97;47;46;47;47;98;47;46;46;47;99;47] = [47;97;47;99].
Proof. vm_compute. split; reflexivity. Qed.
Example dotdot_at_root : normal [47;46;46;47;97] = [97] /\ normal [47] = [] /\ normal [46;46;46] = [46;46;46].
Proof. vm_compute. split; [|split]; reflexivity. Qed.
