(* ===== verification/FsPathSpec.v ===== *)
(** * File system layer: paths are normalised

    The state machine of [fs_normalize_path] computes in place what splitting the
    path into fields, dropping the ones that mean nothing and joining the rest
    does. *)
From stdpp Require Import base list.
From S2P Require Import Prelude FsPath.
#[local] Open Scope Z_scope.

(** ** Runs of the machine *)

(** [out] has been written, [mid] is stale, [rest] is still to be read. *)
Definition here (out mid rest : list Z) : scan := mk_scan (length out + length mid) (length out) (out ++ mid ++ rest).

(** [k] turns lead from one state to the other. *)
Definition reaches (k : nat) st s st' s' : Prop := forall fuel, normalize_loop (k + fuel) st s = normalize_loop fuel st' s'.
Definition finishes (k : nat) st s s' : Prop := forall fuel, normalize_loop (k + fuel) st s = Ret s'.

Lemma reaches_refl st s : reaches 0 st s st s.
Proof. by intros fuel. Qed.

Lemma reaches_trans k1 k2 st s st1 s1 st2 s2 :
  reaches k1 st s st1 s1 -> reaches k2 st1 s1 st2 s2 -> reaches (k1 + k2) st s st2 s2.
Proof. intros H1 H2 fuel. by rewrite <- Nat.add_assoc, H1, H2. Qed.

Lemma reaches_finishes k1 k2 st s st1 s1 s2 : reaches k1 st s st1 s1 -> finishes k2 st1 s1 s2 -> finishes (k1 + k2) st s s2.
Proof. intros H1 H2 fuel. by rewrite <- Nat.add_assoc, H1, H2. Qed.

Lemma reaches_one st s st' s' : normalize_step st s = Ret (st', s', false) -> reaches 1 st s st' s'.
Proof. intros E fuel. cbn. by rewrite E. Qed.

Lemma finishes_one st s st' s' : normalize_step st s = Ret (st', s', true) -> finishes 1 st s s'.
Proof. intros E fuel. cbn. by rewrite E. Qed.

Lemma read_here out mid c rest : char_at (out ++ mid ++ c :: rest) (length out + length mid) = Ret c.
Proof. unfold char_at. rewrite app_assoc, <- length_app, lookup_app_r, Nat.sub_diag by done. done. Qed.

Lemma consume_here out mid c rest : consume (here out mid (c :: rest)) = here out (mid ++ [c]) rest.
Proof. unfold consume, here. cbn. rewrite length_app. cbn. f_equal; [lia|]. by rewrite <- app_assoc. Qed.

Lemma emit_here out m mid rest c : emit c (here out (m :: mid) rest) = Ret (here (out ++ [c]) mid rest).
Proof.
  unfold emit, here. cbn. rewrite lookup_app_r, Nat.sub_diag by done. cbn. do 2 f_equal.
  - rewrite length_app. cbn. lia.
  - rewrite length_app. cbn. lia.
  - rewrite insert_app_r_alt, Nat.sub_diag by done. cbn. by rewrite <- app_assoc.
Qed.

(** A turn at the character [c]. *)
Ltac turn := cbn [app]; unfold normalize_step, here at 1; cbn [path pos]; rewrite read_here; cbn [obind].

Definition ordinary (c : Z) : Prop := c <> slash /\ c <> 0.

(** A character moved down. *)
Lemma copy_here out mid c rest : exists mid',
  obind (emit c (here out mid (c :: rest))) (fun s => Ret (IN_FIELD, consume s, false)) = Ret (IN_FIELD, here (out ++ [c]) mid' rest, false).
Proof.
  destruct mid as [|m mid].
  - exists []. unfold emit, here, consume. cbn. rewrite lookup_app_r, Nat.sub_diag by done. cbn.
    rewrite insert_app_r_alt, Nat.sub_diag, length_app, <- app_assoc by done. cbn. by rewrite !Nat.add_0_r, Nat.add_1_r.
  - exists (mid ++ [c]). by rewrite emit_here, <- consume_here.
Qed.

(** Characters of a field are moved down. *)
Lemma copy_field g : forall out mid rest, Forall ordinary g ->
  exists mid', reaches (length g) IN_FIELD (here out mid (g ++ rest)) IN_FIELD (here (out ++ g) mid' rest).
Proof.
  induction g as [|c g IH]; intros out mid rest Hg; [exists mid; rewrite app_nil_r; apply reaches_refl|].
  apply Forall_cons in Hg as [[Hs H0] Hg]. destruct (copy_here out mid c (g ++ rest)) as (mid1 & E1).
  destruct (IH (out ++ [c]) mid1 rest Hg) as (mid' & H). exists mid'. rewrite <- app_assoc in H.
  apply (reaches_trans 1 (length g) _ _ IN_FIELD (here (out ++ [c]) mid1 (g ++ rest))); [|done].
  apply reaches_one. cbn [app]. turn. apply Z.eqb_neq in Hs, H0. by rewrite Hs, H0.
Qed.

(** ** Fields *)

Definition clean (f : list Z) : Prop := f <> [] /\ Forall (fun c => c <> slash) f.
Definition good (t : tree_path) : Prop := Forall clean (stack t).

Lemma push_good t f : good t -> (f <> [] -> clean f) -> good (push t f).
Proof.
  unfold good, push. intros Ht Hf. destruct (bool_decide _ || bool_decide _) eqn:E; [done|].
  apply orb_false_iff in E as [E%bool_decide_eq_false _]. destruct (bool_decide (f = [dot; dot])).
  - destruct (stack t) as [|x l] eqn:El; [constructor|]. by apply Forall_inv_tail in Ht.
  - constructor; [by apply Hf|done].
Qed.

Lemma slashed_app l1 l2 : slashed (l1 ++ l2) = slashed l1 ++ slashed l2.
Proof. unfold slashed. by rewrite map_app, concat_app. Qed.

(** What has been written up to a field is empty or ends in a slash. *)
Lemma render_end t : render t = [] \/ exists l, render t = l ++ [slash].
Proof.
  unfold render. destruct (stack t) as [|f r].
  - destruct (rooted t); [right; by exists []|by left].
  - right. rewrite reverse_cons, slashed_app. cbn. rewrite app_nil_r. eexists. rewrite !app_assoc. done.
Qed.

Lemma render_push r f l : render (mk_tree r (f :: l)) = render (mk_tree r l) ++ f ++ [slash].
Proof. unfold render. cbn [rooted stack]. rewrite reverse_cons, slashed_app. cbn. by rewrite app_nil_r, app_assoc. Qed.

(** The characters at which [walk_back] goes on. *)
Lemma walk_back_field a g x b : Forall (fun c => c <> slash) g -> (a = [] \/ exists l, a = l ++ [slash]) ->
  walk_back (a ++ g ++ x :: b) (length a + length g) = Ret (length a).
Proof.
  intros Hg Ha. revert x b. induction g as [|c g IH] using rev_ind; intros x b.
  - cbn [length app]. rewrite Nat.add_0_r. destruct Ha as [->|(l & ->)]; [done|].
    rewrite length_app. cbn [length]. rewrite Nat.add_1_r. cbn [walk_back]. unfold char_at.
    by rewrite <- app_assoc, lookup_app_r, Nat.sub_diag by done.
  - apply Forall_app in Hg as [Hg Hc]. apply Forall_inv in Hc. rewrite length_app. cbn [length].
    replace (length a + (length g + 1))%nat with (S (length a + length g)) by lia. cbn [walk_back]. unfold char_at.
    rewrite <- app_assoc, app_assoc, lookup_app_r by (by rewrite length_app).
    rewrite length_app, Nat.sub_diag. cbn. apply Z.eqb_neq in Hc. rewrite Hc. rewrite <- app_assoc. by apply IH.
Qed.

(** Going up. *)
Lemma pop_here t mid rest : good t ->
  match length (render t) with O => Ret O | S o => walk_back (render t ++ mid ++ rest) o end =
  Ret (length (render (push t [dot; dot]))) /\
  exists stale, render t = render (push t [dot; dot]) ++ stale.
Proof.
  intros Ht. destruct t as [r [|g l]]; unfold push; cbn [bool_decide stack rooted].
  - destruct r; cbn; split; try done; by eexists.
  - apply Forall_inv in Ht as [_ Hg]. rewrite !render_push. split; [|by eexists].
    rewrite !length_app. cbn [length]. replace (_ + (length g + 1))%nat with (S (length (render (mk_tree r l)) + length g)) by lia.
    rewrite <- !app_assoc. cbn [app]. apply walk_back_field; [done|apply render_end].
Qed.

(** Single turns in front of a field that starts with dots. *)
Lemma turn_dot out mid r : reaches 1 FIELD_START (here out mid (dot :: r)) DOT (here out mid (dot :: r)).
Proof. apply reaches_one. by turn. Qed.

Lemma turn_eat_dot out mid c r : exists m mid', reaches 1 DOT (here out mid (c :: r)) SEEN_DOT (here out (m :: mid') r).
Proof.
  destruct mid as [|m mid]; [exists c, []|exists m, (mid ++ [c])]; apply reaches_one; turn; by rewrite consume_here.
Qed.

Lemma turn_dotdot out mid r : reaches 1 SEEN_DOT (here out mid (dot :: r)) DOTDOT (here out mid (dot :: r)).
Proof. apply reaches_one. by turn. Qed.

Lemma turn_eat_dotdot out m mid c r : exists m' m2 mid',
  reaches 1 DOTDOT (here out (m :: mid) (c :: r)) SEEN_DOTDOT (here out (m' :: m2 :: mid') r).
Proof.
  destruct mid as [|m2 mid]; [exists m, c, []|exists m, m2, (mid ++ [c])]; apply reaches_one; turn; by rewrite consume_here.
Qed.

Lemma turn_dot_field out m mid c r : ordinary c -> c <> dot ->
  reaches 1 SEEN_DOT (here out (m :: mid) (c :: r)) IN_FIELD (here (out ++ [dot]) mid (c :: r)).
Proof.
  intros [Hs H0] Hd. apply Z.eqb_neq in Hs, H0, Hd. apply reaches_one. turn. rewrite Hd, Hs, H0.
  change (mk_scan _ _ _) with (here out (m :: mid) (c :: r)). by rewrite emit_here.
Qed.

Lemma turn_dotdot_field out m m2 mid c r : ordinary c ->
  reaches 1 SEEN_DOTDOT (here out (m :: m2 :: mid) (c :: r)) IN_FIELD (here (out ++ [dot; dot]) mid (c :: r)).
Proof.
  intros [Hs H0]. apply Z.eqb_neq in Hs, H0. apply reaches_one. turn. rewrite Hs, H0. cbn [orb].
  change (mk_scan _ _ _) with (here out (m :: m2 :: mid) (c :: r)). rewrite emit_here. cbn [obind]. by rewrite emit_here, <- app_assoc.
Qed.

(** A field that is no dots ends up moved. *)
Lemma start_field f out mid rest : Forall ordinary f -> f <> [] -> f <> [dot] -> f <> [dot; dot] ->
  exists k mid', (k <= length f + 3)%nat /\ reaches k FIELD_START (here out mid (f ++ rest)) IN_FIELD (here (out ++ f) mid' rest).
Proof.
  intros Hf H0 H1 H2. destruct f as [|x g]; [done|]. destruct (decide (x = dot)) as [->|Hx].
  2: { destruct (copy_field (x :: g) out mid rest Hf) as (mid' & H). exists (1 + length (x :: g))%nat, mid'. split; [lia|].
       eapply reaches_trans; [|exact H]. apply reaches_one. cbn [app]. turn.
       apply Forall_inv in Hf as [_ Hx0]. apply Z.eqb_neq in Hx, Hx0. by rewrite Hx, Hx0. }
  destruct g as [|y g]; [done|]. apply Forall_inv_tail in Hf. cbn [app].
  destruct (turn_eat_dot out mid dot (y :: g ++ rest)) as (m & mid1 & E1).
  pose proof (reaches_trans _ _ _ _ _ _ _ _ (turn_dot out mid (y :: g ++ rest)) E1) as E. clear E1.
  destruct (decide (y = dot)) as [->|Hy].
  - destruct g as [|z g]; [done|]. apply Forall_inv_tail in Hf. cbn [app] in *.
    destruct (turn_eat_dotdot out m mid1 dot (z :: g ++ rest)) as (m' & m2 & mid2 & E2).
    pose proof (turn_dotdot_field out m' m2 mid2 z (g ++ rest) (Forall_inv Hf)) as E3.
    destruct (copy_field (z :: g) (out ++ [dot; dot]) mid2 rest Hf) as (mid' & E4). rewrite <- app_assoc in E4.
    eexists (2 + (1 + (1 + (1 + length (z :: g)))))%nat, mid'. split; [cbn; lia|].
    eapply reaches_trans; [exact E|]. eapply reaches_trans; [apply turn_dotdot|]. eapply reaches_trans; [exact E2|].
    eapply reaches_trans; [exact E3|exact E4].
  - pose proof (turn_dot_field out m mid1 y (g ++ rest) (Forall_inv Hf) Hy) as E2.
    destruct (copy_field (y :: g) (out ++ [dot]) mid1 rest Hf) as (mid' & E3). rewrite <- app_assoc in E3.
    eexists (2 + (1 + length (y :: g)))%nat, mid'. split; [cbn; lia|].
    eapply reaches_trans; [exact E|]. eapply reaches_trans; [exact E2|exact E3].
Qed.

(** ** Whole fields *)

Lemma push_field t f : f <> [] -> f <> [dot] -> f <> [dot; dot] -> push t f = mk_tree (rooted t) (f :: stack t).
Proof. intros. unfold push. by rewrite !bool_decide_eq_false_2. Qed.

Lemma emit_slack out mid x rest c : exists mid', emit c (here out (mid ++ [x]) rest) = Ret (here (out ++ [c]) mid' rest).
Proof. destruct mid as [|m mid]; [exists []|exists (mid ++ [x])]; apply emit_here. Qed.

(** A field of two dots. *)
Lemma turn_up t mid c r : good t -> c = slash \/ c = 0 -> exists mid', mid' <> [] /\
  normalize_step SEEN_DOTDOT (here (render t) mid (c :: r)) = Ret (SEEN_SEP, here (render (push t [dot; dot])) mid' r, c =? 0).
Proof.
  intros Ht Hc. destruct (pop_here t mid (c :: r) Ht) as [Ep (stale & Es)]. exists (stale ++ mid ++ [c]).
  split; [by intros [_ [_ ?]%app_nil]%app_nil|]. turn. replace ((c =? slash) || (c =? 0)) with true by (by destruct Hc as [-> | ->]).
  unfold here, set_outpos, consume. cbn [outpos path pos]. rewrite Ep. cbn [obind].
  do 3 f_equal. rewrite Es. rewrite !length_app. f_equal; [cbn; lia|]. rewrite <- !app_assoc. done.
Qed.

(** A field with a slash behind it. *)
Lemma field_slash t f mid r : good t -> Forall ordinary f -> f <> [] ->
  exists k mid', (k <= length f + 5)%nat /\
    reaches k FIELD_START (here (render t) mid (f ++ slash :: r)) SEEN_SEP (here (render (push t f)) mid' r).
Proof.
  intros Ht Hf H0. destruct (decide (f = [dot])) as [->|H1].
  { destruct (turn_eat_dot (render t) mid dot (slash :: r)) as (m & mid1 & E1). eexists 3%nat, ((m :: mid1) ++ [slash]). split; [cbn; lia|].
    apply (reaches_trans 1 2 _ _ _ _ _ _ (turn_dot _ _ _)), (reaches_trans 1 1 _ _ _ _ _ _ E1).
    apply reaches_one. turn. by rewrite consume_here. }
  destruct (decide (f = [dot; dot])) as [->|H2].
  { destruct (turn_eat_dot (render t) mid dot (dot :: slash :: r)) as (m & mid1 & E1).
    destruct (turn_eat_dotdot (render t) m mid1 dot (slash :: r)) as (m' & m2 & mid2 & E2).
    destruct (turn_up t (m' :: m2 :: mid2) slash r Ht ltac:(by left)) as (mid' & _ & E3). eexists 5%nat, mid'. split; [cbn; lia|].
    apply (reaches_trans 1 4 _ _ _ _ _ _ (turn_dot _ _ _)), (reaches_trans 1 3 _ _ _ _ _ _ E1).
    apply (reaches_trans 1 2 _ _ _ _ _ _ (turn_dotdot _ _ _)), (reaches_trans 1 1 _ _ _ _ _ _ E2).
    by apply reaches_one. }
  destruct (start_field f (render t) mid (slash :: r) Hf H0 H1 H2) as (k & mid1 & Hk & E1).
  destruct (emit_slack (render t ++ f) mid1 slash r slash) as (mid2 & E2).
  exists (k + 2)%nat, mid2. split; [lia|]. eapply reaches_trans; [exact E1|].
  apply (reaches_trans 1 1 _ _ SEP (here (render t ++ f) mid1 (slash :: r))); [apply reaches_one; by turn|].
  apply reaches_one. turn. rewrite consume_here, E2. rewrite push_field by done. rewrite render_push.
  destruct t as [ro l]. cbn [obind rooted stack]. by rewrite <- app_assoc.
Qed.

(** The end of the run: what is written renders [t] up to a slash at the end. *)
Definition ended (t : tree_path) (s : scan) : Prop := exists out rest,
  outpos s = length out /\ path s = out ++ rest /\ rest <> [] /\ chop out = chop (render t).

Lemma chop_slash l : chop (l ++ [slash]) = l.
Proof. unfold chop. rewrite last_snoc, length_app, Nat.add_sub. cbn. apply take_app_length. Qed.

Lemma chop_clean l f : clean f -> chop (l ++ f) = l ++ f.
Proof.
  intros [Hne Hf]. unfold chop. destruct f as [|x g _] using rev_ind; [done|]. rewrite app_assoc, last_snoc.
  apply Forall_app in Hf as [_ Hx%Forall_inv]. apply Z.eqb_neq in Hx. by rewrite Hx.
Qed.

Lemma ordinary_clean f : Forall ordinary f -> f <> [] -> clean f.
Proof. intros Hf Hne. split; [done|]. eapply Forall_impl; [exact Hf|]. by intros x []. Qed.

Lemma ended_here t out mid c r : chop out = chop (render t) -> ended t (here out mid (c :: r)).
Proof. intros E. exists out, (mid ++ c :: r). split; [done|]. split; [done|]. split; [by destruct mid|done]. Qed.

(** A field with the end behind it. *)
Lemma field_end t f mid r : good t -> Forall ordinary f -> f <> [] ->
  exists k s', (k <= length f + 4)%nat /\ finishes k FIELD_START (here (render t) mid (f ++ 0 :: r)) s' /\ ended (push t f) s'.
Proof.
  intros Ht Hf H0. destruct (decide (f = [dot])) as [->|H1].
  { destruct (turn_eat_dot (render t) mid dot (0 :: r)) as (m & mid1 & E1). eexists 3%nat, _. split; [cbn; lia|].
    split; [|by apply (ended_here (push t [dot]) (render t) (m :: mid1) 0 r)].
    apply (reaches_finishes 1 2 _ _ _ _ _ (turn_dot _ _ _)), (reaches_finishes 1 1 _ _ _ _ _ E1).
    eapply finishes_one. by turn. }
  destruct (decide (f = [dot; dot])) as [->|H2].
  { destruct (turn_eat_dot (render t) mid dot (dot :: 0 :: r)) as (m & mid1 & E1).
    destruct (turn_eat_dotdot (render t) m mid1 dot (0 :: r)) as (m' & m2 & mid2 & E2).
    destruct (turn_up t (m' :: m2 :: mid2) 0 r Ht ltac:(by right)) as (mid' & Hm & E3).
    exists 5%nat, (here (render (push t [dot; dot])) mid' r). split; [cbn; lia|].
    split; [|exists (render (push t [dot; dot])), (mid' ++ r); split; [done|]; split; [done|]; split; [by destruct mid'|done]].
    apply (reaches_finishes 1 4 _ _ _ _ _ (turn_dot _ _ _)), (reaches_finishes 1 3 _ _ _ _ _ E1).
    apply (reaches_finishes 1 2 _ _ _ _ _ (turn_dotdot _ _ _)), (reaches_finishes 1 1 _ _ _ _ _ E2).
    by eapply finishes_one. }
  destruct (start_field f (render t) mid (0 :: r) Hf H0 H1 H2) as (k & mid1 & Hk & E1).
  eexists (k + 1)%nat, _. split; [lia|]. split; [eapply reaches_finishes; [exact E1|]; eapply finishes_one; by turn|].
  apply ended_here. rewrite push_field by done. rewrite render_push, (chop_clean _ f) by by apply ordinary_clean.
  destruct t as [ro l]. cbn [rooted stack]. by rewrite app_assoc, chop_slash.
Qed.

(** ** Whole paths *)

Lemma fields_slash f r : Forall (fun c => c <> slash) f -> fields (f ++ slash :: r) = f :: fields r.
Proof.
  intros Hf. induction Hf as [|c f Hc _ IH]; [done|]. cbn [app fields]. apply Z.eqb_neq in Hc. by rewrite Hc, IH.
Qed.

Lemma fields_end f : Forall (fun c => c <> slash) f -> fields f = [f].
Proof. intros Hf. induction Hf as [|c f Hc _ IH]; [done|]. cbn [fields]. apply Z.eqb_neq in Hc. by rewrite Hc, IH. Qed.

(** The first field of a text. *)
Lemma first_field l : Forall (fun c => c <> 0) l -> exists f r, Forall ordinary f /\
  ((l = f /\ r = []) \/ l = f ++ slash :: r).
Proof.
  intros Hl. induction Hl as [|c l Hc _ IH]; [exists [], []; split; [constructor|by left]|].
  destruct (decide (c = slash)) as [->|Hs]; [exists [], l; split; [constructor|by right]|].
  destruct IH as (f & r & Hf & [[-> ->]| ->]); exists (c :: f); eexists; (split; [constructor; [done|exact Hf]|]); [by left|by right].
Qed.

Lemma ordinary_no_slash f : Forall ordinary f -> Forall (fun c => c <> slash) f.
Proof. intros Hf. eapply Forall_impl; [exact Hf|]. by intros x []. Qed.

(** From the place behind a slash to the end. *)
Lemma after_slash r n : forall l t mid, (length l <= n)%nat -> good t -> Forall (fun c => c <> 0) l ->
  exists k s', (k <= 4 * length l + 2)%nat /\
    finishes k SEEN_SEP (here (render t) mid (l ++ 0 :: r)) s' /\ ended (fold_left push (fields l) t) s'.
Proof.
  induction n as [|n IH]; intros l t mid Hn Ht Hl.
  all: destruct l as [|c l]; [exists 1%nat, (here (render t) mid (0 :: r)); split; [lia|]; split; [eapply finishes_one; by turn|by apply ended_here]|].
  1: by cbn in Hn; lia.
  cbn [length] in *.
  destruct (decide (c = slash)) as [->|Hc].
  { apply Forall_inv_tail in Hl. destruct (IH l t (mid ++ [slash]) ltac:(lia) Ht Hl) as (k & s' & Hk & E & He).
    exists (1 + k)%nat, s'. split; [lia|]. split; [|done]. eapply reaches_finishes; [|exact E].
    apply reaches_one. cbn [app]. turn. by rewrite consume_here. }
  assert (Go : reaches 1 SEEN_SEP (here (render t) mid ((c :: l) ++ 0 :: r)) FIELD_START (here (render t) mid ((c :: l) ++ 0 :: r))).
  { apply reaches_one. cbn [app]. turn. apply Z.eqb_neq in Hc. pose proof (Forall_inv Hl) as H0. apply Z.eqb_neq in H0. by rewrite Hc, H0. }
  destruct (first_field (c :: l) Hl) as (f & l' & Hf & [[El ->]|El]).
  - rewrite El in *. assert (Hfe : f <> []) by (by intros ->). rewrite (fields_end f) by by apply ordinary_no_slash.
    destruct (field_end t f mid r Ht Hf Hfe) as (k & s' & Hk & E & He). exists (1 + k)%nat, s'.
    assert (length f = S (length l)) by (by rewrite <- El). split; [lia|]. split; [|done]. by eapply reaches_finishes.
  - assert (Hfe : f <> []) by (intros ->; cbn in El; congruence).
    pose proof (f_equal length El) as Hlen. rewrite length_app in Hlen. cbn [length] in Hlen.
    assert (0 < length f)%nat by (by destruct f; [|cbn; lia]).
    rewrite El in *. rewrite fields_slash by by apply ordinary_no_slash. rewrite <- app_assoc in *. cbn [app] in *.
    destruct (field_slash t f mid (l' ++ 0 :: r) Ht Hf Hfe) as (k & mid' & Hk & E).
    apply Forall_app in Hl as [_ Hl%Forall_inv_tail].
    destruct (IH l' (push t f) mid' ltac:(lia)) as (k' & s' & Hk' & E' & He); [apply push_good; [done|by intros; apply ordinary_clean]|done|].
    exists (1 + (k + k'))%nat, s'. split; [lia|]. split; [|exact He].
    eapply reaches_finishes; [exact Go|]. by eapply reaches_finishes.
Qed.

Lemma parse_rooted l : fold_left push (fields (slash :: l)) (mk_tree true []) = fold_left push (fields l) (mk_tree true []).
Proof. done. Qed.

(** A path that starts with a field is read as behind a slash. *)
Lemma start_in_field k s s' c r : s = here [] [] (c :: r) -> c <> slash -> c <> 0 -> finishes k SEEN_SEP s s' -> finishes k INITIAL s s'.
Proof.
  intros -> Hs H0 E. apply Z.eqb_neq in Hs, H0.
  assert (E1 : normalize_step SEEN_SEP (here [] [] (c :: r)) = Ret (FIELD_START, here [] [] (c :: r), false)) by (turn; by rewrite Hs, H0).
  destruct k as [|k]; [by specialize (E 0%nat)|]. intros fuel. specialize (E fuel) as Ef. cbn [Nat.add normalize_loop] in Ef |- *.
  rewrite E1 in Ef. cbn [obind] in Ef. destruct (decide (c = dot)) as [->|Hd].
  - destruct k as [|k]; [by specialize (E 0%nat); cbn [Nat.add normalize_loop] in E; rewrite E1 in E|].
    cbn in Ef. specialize (E (S fuel)). cbn [Nat.add normalize_loop] in E. rewrite E1 in E. cbn [obind] in E.
    change (normalize_step INITIAL (here [] [] (dot :: r))) with (normalize_step FIELD_START (here [] [] (dot :: r))).
    by rewrite Nat.add_succ_r in E.
  - apply Z.eqb_neq in Hd.
    assert (E2 : normalize_step INITIAL (here [] [] (c :: r)) = Ret (FIELD_START, here [] [] (c :: r), false)) by (turn; by rewrite Hs, Hd).
    by rewrite E2.
Qed.

(** From the beginning to the end. *)
Lemma whole_path l r : Forall (fun c => c <> 0) l ->
  exists s', normalize_loop (path_fuel (l ++ 0 :: r)) INITIAL (mk_scan 0 0 (l ++ 0 :: r)) = Ret s' /\ ended (parse_path l) s'.
Proof.
  intros Hl. assert (H : exists k s', (k <= 4 * length l + 4)%nat /\ finishes k INITIAL (here [] [] (l ++ 0 :: r)) s' /\ ended (parse_path l) s').
  { destruct l as [|c l].
    { exists 2%nat, (here [] [] (0 :: r)). split; [cbn; lia|]. split; [|by apply ended_here].
      apply (reaches_finishes 1 1 _ _ FIELD_START (here [] [] (0 :: r))); [apply reaches_one; by turn|]. eapply finishes_one. by turn. }
    unfold parse_path. destruct (Z.eqb_spec c slash) as [->|Hc].
    - destruct (after_slash r (length l) l (mk_tree true []) [] ltac:(done) ltac:(constructor) (Forall_inv_tail Hl)) as (k & s' & Hk & E & He).
      exists (1 + (1 + k))%nat, s'. split; [cbn [length]; lia|]. split; [|by rewrite parse_rooted].
      apply (reaches_finishes 1 (1 + k) _ _ SEP (here [] [] (slash :: l ++ 0 :: r))); [apply reaches_one; by turn|].
      eapply reaches_finishes; [|exact E]. apply reaches_one. turn. rewrite consume_here. change ([] ++ [slash]) with [slash]. by rewrite emit_here.
    - destruct (after_slash r (length (c :: l)) (c :: l) (mk_tree false []) [] ltac:(done) ltac:(constructor) Hl) as (k & s' & Hk & E & He).
      exists k, s'. split; [lia|]. split; [|done]. eapply start_in_field; [done|exact Hc|by apply Forall_inv in Hl|exact E]. }
  destruct H as (k & s' & Hk & E & He). exists s'. split; [|done].
  assert (Hf : (k <= path_fuel (l ++ 0%Z :: r))%nat) by (unfold path_fuel; rewrite length_app; cbn [length]; lia).
  destruct (Nat.le_exists_sub _ _ Hf) as (fuel & -> & _). rewrite Nat.add_comm. apply E.
Qed.

(** ** Normal paths *)

Definition proper (f : list Z) : Prop := clean f /\ f <> [dot] /\ f <> [dot; dot].

Lemma push_proper t f : Forall proper (stack t) -> Forall (fun c => c <> slash) f -> Forall proper (stack (push t f)).
Proof.
  intros Ht Hf. unfold push. case_bool_decide as H0; [done|]. case_bool_decide as H1; [done|]. cbn [orb].
  case_bool_decide as H2; [|by repeat constructor]. destruct (stack t); [constructor|]. by apply Forall_inv_tail in Ht.
Qed.

Lemma fields_clean l : Forall (Forall (fun c => c <> slash)) (fields l).
Proof.
  induction l as [|c l IH]; [repeat constructor|]. cbn. destruct (Z.eqb_spec c slash); [by repeat constructor|].
  destruct (fields l) as [|f r]; [by repeat constructor|]. pose proof (Forall_inv IH). apply Forall_inv_tail in IH. by repeat constructor.
Qed.

Lemma push_all_proper fs : forall t, Forall proper (stack t) -> Forall (Forall (fun c => c <> slash)) fs ->
  Forall proper (stack (fold_left push fs t)).
Proof.
  induction fs as [|f fs IH]; intros t Ht Hf; [done|]. apply IH; [|by apply Forall_inv_tail in Hf].
  apply push_proper; [done|by apply Forall_inv in Hf].
Qed.

(** Proper fields are kept. *)
Lemma push_all fs : forall r l, Forall proper fs -> fold_left push fs (mk_tree r l) = mk_tree r (reverse fs ++ l).
Proof.
  induction fs as [|f fs IH]; intros r l Hf; [done|]. pose proof (Forall_inv Hf) as [[H0 _] [H1 H2]].
  cbn [fold_left]. rewrite push_field by done. rewrite IH by by apply Forall_inv_tail in Hf.
  by rewrite reverse_cons, <- app_assoc.
Qed.

Lemma fields_slashed fs f : Forall proper (fs ++ [f]) -> fields (slashed fs ++ f) = fs ++ [f].
Proof.
  intros H. induction fs as [|g fs IH]; [apply fields_end; by apply Forall_inv in H as [[]]|].
  pose proof (Forall_inv H) as [[_ Hg] _]. cbn [slashed map concat app]. rewrite <- !app_assoc. cbn [app].
  rewrite fields_slash by done. f_equal. apply IH. by apply Forall_inv_tail in H.
Qed.

Lemma normal_idempotent l : normal (normal l) = normal l.
Proof.
  unfold normal at 2 3. pose proof (push_all_proper (fields l) (mk_tree (match l with c :: _ => c =? slash | [] => false end) [])
    (Forall_nil_2 _) (fields_clean l)) as Hp. fold (parse_path l) in Hp. destruct (parse_path l) as [r [|f fs]]; cbn [stack] in Hp.
  { by destruct r. }
  assert (Hr : Forall proper (reverse fs ++ [f])) by (rewrite <- reverse_cons; by apply Forall_reverse).
  pose proof (Forall_inv Hp) as [Hf _]. rewrite render_push, app_assoc, chop_slash. unfold render. cbn [rooted stack].
  rewrite <- app_assoc. set (text := slashed (reverse fs) ++ f).
  assert (Hparse : parse_path ((if r then [slash] else []) ++ text) = mk_tree r (f :: fs)).
  { pose proof (fields_slashed _ _ Hr) as E. fold text in E. unfold parse_path. destruct r.
    - cbn [app]. rewrite Z.eqb_refl, parse_rooted, E, push_all, reverse_app by done. cbn. by rewrite reverse_involutive, app_nil_r.
    - cbn [app]. rewrite E, push_all, reverse_app by done. cbn. rewrite reverse_involutive, app_nil_r.
      f_equal. destruct text as [|c b] eqn:Et; [done|]. apply Z.eqb_neq. intros ->. cbn in E.
      destruct (reverse fs) as [|g gs]; cbn in E; injection E as E1 _; rewrite <- E1 in Hr; by destruct (Forall_inv Hr) as [[? _] _]. }
  unfold normal. rewrite Hparse, render_push, app_assoc, chop_slash. unfold render. cbn [rooted stack]. by rewrite <- app_assoc.
Qed.

Lemma cut_here ps os a y b :
  emit 0 (set_outpos (length a) (mk_scan ps os (a ++ y :: b))) = Ret (mk_scan ps (S (length a)) (a ++ 0 :: b)).
Proof.
  unfold emit, set_outpos. cbn. rewrite lookup_app_r, Nat.sub_diag by done. cbn.
  by rewrite insert_app_r_alt, Nat.sub_diag by done.
Qed.

(** C31.  [fs_normalize_path] always ends and never touches a byte outside its
    buffer; what it leaves in front of the terminator is the path that splitting at
    the slashes, dropping empty fields and [.], letting [..] take back the field in
    front of it and joining again gives. *)
Theorem path_normalised l r : Forall (fun c => c <> 0) l ->
  (exists r', fs_normalize_path (l ++ 0 :: r) = Ret (normal l ++ 0 :: r')) /\ normal (normal l) = normal l.
Proof.
  intros Hl. split; [|apply normal_idempotent]. destruct (whole_path l r Hl) as (s' & E & (out & rest & Eo & Ep & Hr & Hc)).
  unfold fs_normalize_path. rewrite E. cbn [obind]. unfold normal. rewrite <- Hc, Eo, Ep.
  destruct rest as [|x rest]; [done|]. clear E Hc. destruct s' as [ps os pa]. cbn [outpos path] in *. subst pa os. unfold chop.
  destruct out as [|c out _] using rev_ind.
  { exists rest. cbn [length obind]. by rewrite (cut_here ps _ [] x rest). }
  rewrite last_snoc, length_app. cbn [length]. rewrite Nat.add_1_r. unfold char_at.
  rewrite <- app_assoc, lookup_app_r, Nat.sub_diag by done. cbn [app lookup list_lookup obind].
  destruct (c =? slash).
  - exists (x :: rest). cbn [obind]. rewrite (cut_here ps _ out c (x :: rest)). cbn [obind path]. by rewrite Nat.sub_succ, Nat.sub_0_r, take_app_length.
  - exists rest. cbn [obind]. replace (S (length out)) with (length (out ++ [c])) by (rewrite length_app; cbn; lia).
    replace (out ++ c :: x :: rest) with ((out ++ [c]) ++ x :: rest) by (by rewrite <- app_assoc). by rewrite cut_here.
Qed.

Lemma path_normalised_witness : exists r',
  fs_normalize_path ([47; 97; 47; 46; 46; 47; 47; 98; 46; 47] ++ 0 :: [7]) = Ret ([47; 98; 46] ++ 0 :: r').
Proof.
  apply (path_normalised [47; 97; 47; 46; 46; 47; 47; 98; 46; 47] [7]). repeat (constructor; [lia|]). constructor.
Defined.
