(* ===== verification/Fs.v ===== *)
(** * File system layer: mounts and handles

    lib/fs/fs.c on a store of the structures it allocates.  The status codes come
    from a header that is not part of the repository and are parameters; so is the
    allocator, which returns the address of memory nobody uses.  The list of mounts
    is the sequence of its elements (LinkedList.v).  The driver hooks of a file
    system work on a world of their own. *)
From stdpp Require Import gmap.
From S2P Require Import Prelude FsPath.
#[local] Open Scope Z_scope.

Definition FS_MAX_PATH_LEN : Z := 128.

Record file_stat := mk_stat { is_dir : bool; size : Z; capacity : Z }.

(** [struct fs_api]; cookies, devices and request arguments are addresses.  A hook
    that returns a cookie returns it with its status. *)
Record fs_api (W : Type) := mk_api {
  fs_stat : option (Z -> M W Z);
  mount : option (option Z -> Z -> M W (Z * Z));
  unmount : option (Z -> M W Z);
  open : option (Z -> list Z -> M W (Z * Z));
  create : option (Z -> list Z -> Z -> M W (Z * Z));
  remove : option (Z -> list Z -> M W Z);
  truncate : option (Z -> Z -> M W Z);
  stat : option (Z -> M W (Z * file_stat));
  read : option (Z -> Z -> Z -> Z -> M W Z);
  write : option (Z -> Z -> Z -> Z -> M W Z);
  close : option (Z -> M W Z);
  mkdir : option (Z -> list Z -> M W Z);
  opendir : option (Z -> list Z -> M W (Z * Z));
  readdir : option (Z -> Z -> M W Z);
  closedir : option (Z -> M W Z);
  file_ioctl : option (Z -> Z -> Z -> M W Z);
}.
Arguments fs_stat {W}. Arguments mount {W}. Arguments unmount {W}. Arguments open {W}. Arguments create {W}.
Arguments remove {W}. Arguments truncate {W}. Arguments stat {W}. Arguments read {W}. Arguments write {W}.
Arguments close {W}. Arguments mkdir {W}. Arguments opendir {W}. Arguments readdir {W}. Arguments closedir {W}.
Arguments file_ioctl {W}. Arguments mk_api {W}.

(** [struct fs_mount]; the path is [None] when [strdup] had no memory. *)
Record fs_mount (W : Type) := mk_mount { m_path : option (list Z); m_dev : option Z; m_cookie : Z; m_ref : Z; m_api : fs_api W }.
Arguments mk_mount {W}. Arguments m_path {W}. Arguments m_dev {W}. Arguments m_cookie {W}. Arguments m_ref {W}. Arguments m_api {W}.

(** [struct filehandle] and [struct dirhandle]. *)
Record filehandle := mk_handle { h_cookie : Z; h_mount : Z }.

Record fs_state (W : Type) := mk_fs {
  mounts : list Z;
  mount_at : gmap Z (fs_mount W);
  file_at : gmap Z filehandle;
  dir_at : gmap Z filehandle;
  fs_world : W;
}.
Arguments mk_fs {W}. Arguments mounts {W}. Arguments mount_at {W}. Arguments file_at {W}. Arguments dir_at {W}. Arguments fs_world {W}.

Section Fs.
Context {W : Type}.
Variables (malloc : Z -> M (fs_state W) (option Z)) (blockdev_close : Z -> M W unit).
Variables (ERR_NOT_FOUND ERR_NO_MEMORY ERR_BAD_PATH ERR_ALREADY_MOUNTED ERR_INVALID_ARGS ERR_NOT_SUPPORTED : Z).

Definition set_mounts (l : list Z) (s : fs_state W) : fs_state W := mk_fs l (mount_at s) (file_at s) (dir_at s) (fs_world s).
Definition set_mount_at (a : Z) (m : fs_mount W) (s : fs_state W) : fs_state W :=
  mk_fs (mounts s) (<[a := m]> (mount_at s)) (file_at s) (dir_at s) (fs_world s).
Definition free_mount (a : Z) (s : fs_state W) : fs_state W :=
  mk_fs (mounts s) (delete a (mount_at s)) (file_at s) (dir_at s) (fs_world s).
Definition set_files (f : gmap Z filehandle -> gmap Z filehandle) (s : fs_state W) : fs_state W :=
  mk_fs (mounts s) (mount_at s) (f (file_at s)) (dir_at s) (fs_world s).
Definition set_dirs (f : gmap Z filehandle -> gmap Z filehandle) (s : fs_state W) : fs_state W :=
  mk_fs (mounts s) (mount_at s) (file_at s) (f (dir_at s)) (fs_world s).
Definition on_world {A} (c : M W A) : M (fs_state W) A := fun s =>
  let '(o, w) := c (fs_world s) in (o, mk_fs (mounts s) (mount_at s) (file_at s) (dir_at s) w).

Definition deref_mount (a : Z) : M (fs_state W) (fs_mount W) := fun s =>
  match mount_at s !! a with Some m => (Ret m, s) | None => (Undef, s) end.
Definition deref_file (a : Z) : M (fs_state W) filehandle := fun s =>
  match file_at s !! a with Some h => (Ret h, s) | None => (Undef, s) end.
Definition deref_dir (a : Z) : M (fs_state W) filehandle := fun s =>
  match dir_at s !! a with Some h => (Ret h, s) | None => (Undef, s) end.

(** A call through a hook; through a NULL pointer it is undefined. *)
Definition call {F A} (hook : option F) (f : F -> M W A) : M (fs_state W) A :=
  match hook with Some g => on_world (f g) | None => undef end.

Definition set_ref (r : Z) (m : fs_mount W) : fs_mount W := mk_mount (m_path m) (m_dev m) (m_cookie m) r (m_api m).

(** An [int] count; an overflow is undefined. *)
Definition add_ref (a k : Z) : M (fs_state W) Z :=
  let! m := deref_mount a in
  let r := m_ref m + k in
  if s32 r =? r then modify (set_mount_at a (set_ref r m)) ;;; ret r else undef.

(** ** Mounts *)

(** [strlcpy] into a local buffer, then [fs_normalize_path]. *)
Fixpoint until_zero (p : list Z) : list Z := match p with c :: r => if c =? 0 then [] else c :: until_zero r | [] => [] end.
Definition normalized (path : list Z) : M (fs_state W) (list Z) :=
  let! p := lift (fs_normalize_path (take (Z.to_nat (FS_MAX_PATH_LEN - 1)) path ++ [0])) in ret (until_zero p).

Definition find_fs (impls : list (list Z * fs_api W)) (name : list Z) : option (fs_api W) :=
  snd <$> find (fun '(n, _) => bool_decide (name = n)) impls.

(** The mount and the rest of the path behind it. *)
Fixpoint find_mount_in (l : list Z) (path : list Z) : M (fs_state W) (option (Z * list Z)) :=
  match l with
  | [] => ret None
  | a :: l =>
      let! m := deref_mount a in
      match m_path m with
      | None => undef
      | Some mp =>
          if (length path <? length mp)%nat then find_mount_in l path
          else if bool_decide (take (length mp) path = mp) then
            let! _ := add_ref a 1 in ret (Some (a, drop (length mp) path))
          else find_mount_in l path
      end
  end.
Definition find_mount (path : list Z) : M (fs_state W) (option (Z * list Z)) :=
  let! s := get in find_mount_in (mounts s) path.

Definition put_mount (a : Z) : M (fs_state W) unit :=
  let! r := add_ref a (-1) in
  if r =? 0 then
    let! s := get in
    (if decide (a ∈ mounts s) then modify (set_mounts (filter (fun x => x <> a) (mounts s))) else undef) ;;;
    let! m := deref_mount a in
    let! _ := call (unmount (m_api m)) (fun f => f (m_cookie m)) in
    match m_dev m with Some d => on_world (blockdev_close d) | None => ret tt end ;;;
    modify (free_mount a)
  else ret tt.

Definition MOUNT_LEN : Z := 56.

(** A failed mount only releases its structure when there is a device. *)
Definition mount_at_path (path : list Z) (dev : option Z) (api : fs_api W) (start_sector : Z) : M (fs_state W) Z :=
  let! temppath := normalized path in
  if negb (match temppath with c :: _ => c =? slash | [] => false end) then ret ERR_BAD_PATH
  else
    let! found := find_mount temppath in
    match found with
    | Some (a, _) => put_mount a ;;; ret ERR_ALREADY_MOUNTED
    | None =>
        let! a := malloc MOUNT_LEN in
        match a with
        | None => ret ERR_NO_MEMORY
        | Some a =>
            let! (err, cookie) := call (mount api) (fun f => f dev start_sector) in
            if err <? 0 then
              match dev with Some d => on_world (blockdev_close d) | None => ret tt end ;;; ret err
            else
              let! copy := malloc (Z.of_nat (length temppath) + 1) in
              modify (set_mount_at a (mk_mount (match copy with Some _ => Some temppath | None => None end) dev cookie 1 api)) ;;;
              modify (fun s => set_mounts (a :: mounts s) s) ;;;
              ret 0
        end
    end.

Definition fs_mount_named (impls : list (list Z * fs_api W)) (path fsname : list Z) (dev : option Z) (start_sector : Z) : M (fs_state W) Z :=
  match find_fs impls fsname with
  | None => ret ERR_NOT_FOUND
  | Some api => mount_at_path path dev api start_sector
  end.

(** The reference of the lookup and the one of the mount. *)
Definition fs_unmount (path : list Z) : M (fs_state W) Z :=
  let! temppath := normalized path in
  let! found := find_mount temppath in
  match found with
  | None => ret ERR_NOT_FOUND
  | Some (a, _) => put_mount a ;;; put_mount a ;;; ret 0
  end.

(** ** Files and directories *)

(** What opening a file and a directory and creating a file share: a lookup, a hook
    that returns a cookie, and a handle for it. *)
Definition open_with (path : list Z) (hook : fs_api W -> option (Z -> list Z -> M W (Z * Z))) (supported : fs_api W -> bool)
    (publish : Z -> filehandle -> fs_state W -> fs_state W) : M (fs_state W) (Z * option Z) :=
  let! temppath := normalized path in
  let! found := find_mount temppath in
  match found with
  | None => ret (ERR_NOT_FOUND, None)
  | Some (a, newpath) =>
      let! m := deref_mount a in
      if negb (supported (m_api m)) then put_mount a ;;; ret (ERR_NOT_SUPPORTED, None)
      else
        let! (err, cookie) := call (hook (m_api m)) (fun f => f (m_cookie m) newpath) in
        if err <? 0 then put_mount a ;;; ret (err, None)
        else
          let! h := malloc 16 in
          match h with
          | None => ret (ERR_NO_MEMORY, None)
          | Some h => modify (publish h (mk_handle cookie a)) ;;; ret (0, Some h)
          end
  end.

Definition has {F} (o : option F) : bool := bool_decide (is_Some o).

Definition fs_open_file (path : list Z) : M (fs_state W) (Z * option Z) :=
  open_with path open (fun _ => true) (fun h x => set_files (<[h := x]>)).
Definition fs_create_file (path : list Z) (len : Z) : M (fs_state W) (Z * option Z) :=
  open_with path (fun api => (fun f c p => f c p len) <$> create api) (fun api => has (create api)) (fun h x => set_files (<[h := x]>)).
Definition fs_open_dir (path : list Z) : M (fs_state W) (Z * option Z) :=
  open_with path opendir (fun api => has (opendir api)) (fun h x => set_dirs (<[h := x]>)).

(** What removing a file, making a directory and asking for the state of a file
    system share. *)
Definition with_mount (path : list Z) (hook : fs_api W -> option (Z -> list Z -> M W Z)) : M (fs_state W) Z :=
  let! found := find_mount path in
  match found with
  | None => ret ERR_NOT_FOUND
  | Some (a, newpath) =>
      let! m := deref_mount a in
      match hook (m_api m) with
      | None => put_mount a ;;; ret ERR_NOT_SUPPORTED
      | Some f => let! err := on_world (f (m_cookie m) newpath) in put_mount a ;;; ret err
      end
  end.

Definition fs_remove_file (path : list Z) : M (fs_state W) Z := let! p := normalized path in with_mount p remove.
Definition fs_make_dir (path : list Z) : M (fs_state W) Z := let! p := normalized path in with_mount p mkdir.
(** Without normalising the path. *)
Definition fs_stat_fs (mountpoint : list Z) : M (fs_state W) Z := with_mount mountpoint (fun api => (fun f c _ => f c) <$> fs_stat api).

Definition on_file {F A} (handle : Z) (hook : fs_api W -> option F) (f : F -> Z -> M W A) : M (fs_state W) A :=
  let! h := deref_file handle in
  let! m := deref_mount (h_mount h) in
  call (hook (m_api m)) (fun g => f g (h_cookie h)).

Definition fs_truncate_file (handle len : Z) : M (fs_state W) Z := on_file handle truncate (fun f c => f c len).
Definition fs_read_file (handle buf offset len : Z) : M (fs_state W) Z := on_file handle read (fun f c => f c buf offset len).
Definition fs_stat_file (handle : Z) : M (fs_state W) (Z * file_stat) := on_file handle stat (fun f c => f c).

Definition fs_write_file (handle buf offset len : Z) : M (fs_state W) Z :=
  let! h := deref_file handle in
  let! m := deref_mount (h_mount h) in
  match write (m_api m) with
  | None => ret ERR_NOT_SUPPORTED
  | Some f => on_world (f (h_cookie h) buf offset len)
  end.

Definition fs_file_ioctl (handle request argp : Z) : M (fs_state W) Z :=
  let! h := deref_file handle in
  let! m := deref_mount (h_mount h) in
  match file_ioctl (m_api m) with
  | None => ret ERR_INVALID_ARGS
  | Some f => on_world (f (h_cookie h) request argp)
  end.

Definition fs_close_file (handle : Z) : M (fs_state W) Z :=
  let! h := deref_file handle in
  let! m := deref_mount (h_mount h) in
  let! err := call (close (m_api m)) (fun f => f (h_cookie h)) in
  if err <? 0 then ret err
  else put_mount (h_mount h) ;;; modify (set_files (delete handle)) ;;; ret 0.

Definition fs_read_dir (handle ent : Z) : M (fs_state W) Z :=
  let! h := deref_dir handle in
  let! m := deref_mount (h_mount h) in
  match readdir (m_api m) with
  | None => ret ERR_NOT_SUPPORTED
  | Some f => on_world (f (h_cookie h) ent)
  end.

Definition fs_close_dir (handle : Z) : M (fs_state W) Z :=
  let! h := deref_dir handle in
  let! m := deref_mount (h_mount h) in
  match closedir (m_api m) with
  | None => ret ERR_NOT_SUPPORTED
  | Some f =>
      let! err := on_world (f (h_cookie h)) in
      if err <? 0 then ret err
      else put_mount (h_mount h) ;;; modify (set_dirs (delete handle)) ;;; ret 0
  end.

(** [MIN(maxlen, stat.size)] bytes from the start; the status of [fs_stat_file] is
    not looked at. *)
Definition fs_load_file (path : list Z) (ptr maxlen : Z) : M (fs_state W) Z :=
  let! (err, handle) := fs_open_file path in
  if err <? 0 then ret err
  else
    match handle with
    | None => undef
    | Some handle =>
        let! (_, st) := fs_stat_file handle in
        let! read_bytes := fs_read_file handle ptr 0 (Z.min maxlen (size st)) in
        let! _ := fs_close_file handle in
        ret read_bytes
    end.
End Fs.
