(* ===== verification/FsSpec.v ===== *)
(** * File system layer: mounts live as long as they are used

    The reference counts of the mounts are exact, whatever is mounted, opened,
    closed and unmounted, so the mount of an open handle is there. *)
From stdpp Require Import gmap.
From S2P Require Import Prelude FsPath Fs.
#[local] Open Scope Z_scope.

(** [P] holds of the result and the state, if the call returns. *)
Definition after {S A} (c : M S A) (P : A -> S -> Prop) (s : S) : Prop := forall r s', c s = (Ret r, s') -> P r s'.

Lemma after_ret {S A} (a : A) (P : A -> S -> Prop) s : P a s -> after (ret a) P s.
Proof. intros H r s' [= <- <-]. done. Qed.

Lemma after_bind {S A B} (c : M S A) (k : A -> M S B) P s : after c (fun a => after (k a) P) s -> after (bind c k) P s.
Proof.
  intros H r s' E. unfold bind in E. destruct (c s) as [[a|e| | |] s1] eqn:Ec; try discriminate. by eapply H.
Qed.

Lemma after_mono {S A} (c : M S A) (P Q : A -> S -> Prop) s : after c P s -> (forall a s, P a s -> Q a s) -> after c Q s.
Proof. intros H HPQ r s' E. by apply HPQ, H. Qed.

Lemma after_undef {S A} (P : A -> S -> Prop) s : after undef P s.
Proof. done. Qed.

Lemma after_if {S A} (b : bool) (c c' : M S A) P s : (b = true -> after c P s) -> (b = false -> after c' P s) -> after (if b then c else c') P s.
Proof. destruct b; auto. Qed.

(** ** Handles of a mount *)

Definition on_mount (a : Z) (f : gmap Z filehandle) : nat := base.size (filter (fun kv => h_mount kv.2 = a) f).

Lemma on_mount_insert a h x f : f !! h = None -> on_mount a (<[h := x]> f) = (on_mount a f + if decide (h_mount x = a) then 1 else 0)%nat.
Proof.
  intros Hn. unfold on_mount. destruct (decide (h_mount x = a)) as [E|E].
  - rewrite map_filter_insert_True, map_size_insert_None by (done || by rewrite map_lookup_filter, Hn). lia.
  - rewrite map_filter_insert_False by done. rewrite delete_id by done. lia.
Qed.

Lemma on_mount_delete a h x f : f !! h = Some x -> on_mount a f = (on_mount a (delete h f) + if decide (h_mount x = a) then 1 else 0)%nat.
Proof.
  intros Hx. rewrite <- (insert_id f h x Hx) at 1. rewrite <- insert_delete_eq. apply on_mount_insert. apply lookup_delete_eq.
Qed.

Lemma on_mount_zero a f h x : on_mount a f = O -> f !! h = Some x -> h_mount x <> a.
Proof.
  intros H0 Hx E. apply map_size_empty_inv in H0. assert (Hn : filter (fun kv => h_mount kv.2 = a) f !! h = Some x) by by apply map_lookup_filter_Some.
  by rewrite H0 in Hn.
Qed.

Section Spec.
Context {W : Type}.

Definition handles (a : Z) (s : fs_state W) : Z := Z.of_nat (on_mount a (file_at s) + on_mount a (dir_at s)).

(** [x a]: the references to the mount at [a] besides those of its handles. *)
Record fs_inv (x : Z -> Z) (s : fs_state W) : Prop := {
  i_nodup : NoDup (mounts s);
  i_listed : forall a, a ∈ mounts s <-> is_Some (mount_at s !! a);
  i_count : forall a m, mount_at s !! a = Some m -> m_ref m = x a + handles a s /\ 0 < m_ref m;
  i_files : forall h f, file_at s !! h = Some f -> is_Some (mount_at s !! h_mount f);
  i_dirs : forall h f, dir_at s !! h = Some f -> is_Some (mount_at s !! h_mount f);
}.

Definition more (a k : Z) (x : Z -> Z) : Z -> Z := fun b => if decide (b = a) then x b + k else x b.

(** One reference less; the last one takes the mount away. *)
Definition dropped (a : Z) (m : fs_mount W) (s : fs_state W) : fs_state W :=
  if m_ref m =? 1 then free_mount a (set_mounts (filter (fun y => y <> a) (mounts s)) s) else set_mount_at a (set_ref (m_ref m - 1) m) s.

Definition with_world (w : W) (s : fs_state W) : fs_state W := mk_fs (mounts s) (mount_at s) (file_at s) (dir_at s) w.

Lemma inv_world x s w : fs_inv x s -> fs_inv x (with_world w s).
Proof. by intros []. Qed.

Lemma after_world {A} (c : M W A) (P : A -> fs_state W -> Prop) s : (forall a w, P a (with_world w s)) -> after (on_world c) P s.
Proof. intros H r s' E. unfold on_world in E. destruct (c (fs_world s)) as [o w]. injection E as -> <-. apply H. Qed.

Lemma after_call {F A} (hook : option F) (f : F -> M W A) (P : A -> fs_state W -> Prop) s : (forall a w, P a (with_world w s)) -> after (call hook f) P s.
Proof. intros H. unfold call. destruct hook; [by apply after_world|done]. Qed.

Lemma after_get {A} (k : fs_state W -> M (fs_state W) A) P s : after (k s) P s -> after (bind get k) P s.
Proof. done. Qed.

Lemma after_deref a (P : fs_mount W -> fs_state W -> Prop) s : (forall m, mount_at s !! a = Some m -> P m s) -> after (deref_mount a) P s.
Proof. intros H r s' E. unfold deref_mount in E. destruct (mount_at s !! a) as [m|] eqn:Em; [|done]. injection E as <- <-. by apply H. Qed.

Lemma after_modify (f : fs_state W -> fs_state W) (P : unit -> fs_state W -> Prop) s : P tt (f s) -> after (modify f) P s.
Proof. intros H r s' [= <- <-]. done. Qed.

Lemma after_add_ref a k (P : Z -> fs_state W -> Prop) s : (forall m, mount_at s !! a = Some m -> P (m_ref m + k) (set_mount_at a (set_ref (m_ref m + k) m) s)) ->
  after (add_ref a k) P s.
Proof.
  intros H. apply after_bind, after_deref. intros m Em. apply after_if; [|done]. intros _.
  apply after_bind, after_modify, after_ret. by apply H.
Qed.

(** ** References *)

Lemma inv_ref x s a m k : fs_inv x s -> mount_at s !! a = Some m -> 0 < m_ref m + k ->
  fs_inv (more a k x) (set_mount_at a (set_ref (m_ref m + k) m) s).
Proof.
  intros [Hn Hl Hc Hf Hd] Em Hk.
  assert (Hs : forall b, is_Some (mount_at s !! b) <-> is_Some (<[a := set_ref (m_ref m + k) m]> (mount_at s) !! b)).
  { intros b. rewrite lookup_insert_is_Some. split; [|intros [->|[? ?]]; [by eexists|done]].
    intros Hb. destruct (decide (a = b)); [by left|by right]. }
  split; cbn; [done|intros b; by rewrite Hl, Hs| |intros h f E; by eapply Hs, Hf|intros h f E; by eapply Hs, Hd].
  intros b mb Eb. unfold more. change (handles b (set_mount_at a _ s)) with (handles b s).
  destruct (decide (b = a)) as [->|Hb].
  - rewrite lookup_insert_eq in Eb. injection Eb as <-. cbn. destruct (Hc a m Em). lia.
  - rewrite lookup_insert_ne in Eb by done. by apply Hc.
Qed.

(** A mount nobody refers to any more is taken away. *)
Lemma inv_remove x s a m f1 d1 : fs_inv x s -> mount_at s !! a = Some m ->
  (forall h f, f1 !! h = Some f -> file_at s !! h = Some f /\ h_mount f <> a) ->
  (forall h f, d1 !! h = Some f -> dir_at s !! h = Some f /\ h_mount f <> a) ->
  (forall b, b <> a -> on_mount b f1 = on_mount b (file_at s) /\ on_mount b d1 = on_mount b (dir_at s)) ->
  fs_inv x (mk_fs (filter (fun y => y <> a) (mounts s)) (delete a (mount_at s)) f1 d1 (fs_world s)).
Proof.
  intros [Hn Hl Hc Hf Hd] Em Hf1 Hd1 Hon.
  assert (Hs : forall b, b <> a -> is_Some (mount_at s !! b) -> is_Some (delete a (mount_at s) !! b)) by (intros b Hb ?; by rewrite lookup_delete_ne).
  split; cbn.
  - by apply NoDup_filter.
  - intros b. rewrite list_elem_of_filter, Hl, lookup_delete_is_Some. split; intros []; (split; [|done]); congruence.
  - intros b mb [Hb Eb]%lookup_delete_Some. destruct (Hc b mb Eb). unfold handles in *. cbn.
    destruct (Hon b) as [-> ->]; [done|]. done.
  - intros h f E. destruct (Hf1 h f E). apply Hs; [done|by eapply Hf].
  - intros h f E. destruct (Hd1 h f E). apply Hs; [done|by eapply Hd].
Qed.

Lemma after_put_mount blockdev_close a (P : unit -> fs_state W -> Prop) s m : mount_at s !! a = Some m -> (forall w, P tt (with_world w (dropped a m s))) -> after (put_mount blockdev_close a) P s.
Proof.
  intros Em H. apply after_bind, after_add_ref. intros m' Em'. rewrite Em in Em'. injection Em' as <-. unfold dropped in H.
  replace (m_ref m + -1 =? 0) with (m_ref m =? 1) by (destruct (Z.eqb_spec (m_ref m) 1), (Z.eqb_spec (m_ref m + -1) 0); lia).
  destruct (Z.eqb_spec (m_ref m) 1) as [E1|E1].
  - apply after_get, after_bind. destruct (decide _); [|done]. apply after_modify, after_bind, after_deref. intros m1 Em1.
    apply after_bind, after_call. intros _ w. apply after_bind.
    assert (Hend : forall w', after (modify (free_mount a)) P (with_world w' (set_mounts (filter (fun y => y <> a) (mounts s)) (set_mount_at a (set_ref (m_ref m + -1) m) s)))).
    { intros w'. apply after_modify. specialize (H w'). unfold free_mount, with_world, set_mounts, set_mount_at in *. cbn in *. by rewrite delete_insert_eq. }
    destruct (m_dev m1); [apply after_world; intros _ w'; apply (Hend w')|apply after_ret, (Hend w)].
  - apply after_ret. specialize (H (fs_world s)). by destruct s.
Qed.

Lemma inv_ext x y s : (forall a, is_Some (mount_at s !! a) -> y a = x a) -> fs_inv x s -> fs_inv y s.
Proof. intros E []. split; try done. intros a m Em. rewrite E by (by eexists). by apply i_count0. Qed.

Lemma handles_zero a s : handles a s = 0 -> on_mount a (file_at s) = O /\ on_mount a (dir_at s) = O.
Proof. unfold handles. lia. Qed.

(** A reference that belongs to no handle is given back. *)
Lemma inv_put x s a m : fs_inv x s -> mount_at s !! a = Some m -> 1 <= x a -> fs_inv (more a (-1) x) (dropped a m s).
Proof.
  intros Hi Em Hx. destruct (i_count _ _ Hi a m Em) as [Hc Hp]. unfold dropped. destruct (Z.eqb_spec (m_ref m) 1) as [E1|E1].
  - destruct (handles_zero a s) as [Zf Zd]; [unfold handles in *; lia|].
    apply (inv_ext x); [intros b; unfold more; destruct (decide (b = a)) as [->|]; [|done]; cbn; rewrite lookup_delete_eq; by intros []|].
    apply (inv_remove x s a m); try done; intros h f E; (split; [done|]);
      [by apply (on_mount_zero a (file_at s) h f)|by apply (on_mount_zero a (dir_at s) h f)].
  - apply (inv_ref x s a m (-1)); [done|done|lia].
Qed.

(** The reference of a handle is given back with the handle. *)
Lemma inv_close x s a m f1 d1 : fs_inv x s -> mount_at s !! a = Some m -> 0 <= x a ->
  f1 ⊆ file_at s -> d1 ⊆ dir_at s ->
  (forall b, (on_mount b f1 + on_mount b d1 + (if decide (b = a) then 1 else 0) = on_mount b (file_at s) + on_mount b (dir_at s))%nat) ->
  fs_inv x (mk_fs (mounts (dropped a m s)) (mount_at (dropped a m s)) f1 d1 (fs_world s)).
Proof.
  intros Hi Em Hx Hf1 Hd1 Hon. pose proof (lookup_weaken f1 (file_at s)) as Lf. pose proof (lookup_weaken d1 (dir_at s)) as Ld.
  destruct (i_count _ _ Hi a m Em) as [Hc Hp]. pose proof (Hon a) as Ha. destruct (decide (a = a)); [|done].
  unfold dropped. destruct (Z.eqb_spec (m_ref m) 1) as [E1|E1]; cbn.
  - assert (H0 : on_mount a f1 = O /\ on_mount a d1 = O) by (unfold handles in Hc; lia). destruct H0 as [Zf Zd].
    assert (Hs : forall b, b <> a -> is_Some (mount_at s !! b) -> is_Some (delete a (mount_at s) !! b)) by (intros b Hb ?; by rewrite lookup_delete_ne).
    destruct Hi as [Hn Hl Hcs Hf Hd]. split; cbn; [by apply NoDup_filter|..].
    + intros b. rewrite list_elem_of_filter, Hl, lookup_delete_is_Some. split; intros []; (split; [|done]); congruence.
    + intros b mb [Hb Eb]%lookup_delete_Some. destruct (Hcs b mb Eb). unfold handles in *. cbn.
      pose proof (Hon b) as Hbb. destruct (decide (b = a)); [congruence|]. lia.
    + intros h f E. apply Hs; [by apply (on_mount_zero a f1 h f)|eapply Hf, Lf; [exact E|done]].
    + intros h f E. apply Hs; [by apply (on_mount_zero a d1 h f)|eapply Hd, Ld; [exact E|done]].
  - pose proof (inv_ref x s a m (-1) Hi Em ltac:(lia)) as [Hn Hl Hcs Hf Hd]. split; try done.
    + intros b mb Eb. destruct (Hcs b mb Eb). unfold handles, more in *. cbn in *. pose proof (Hon b) as Hbb.
      destruct (decide (b = a)); lia.
    + intros h f E. eapply Hf, Lf; [exact E|done].
    + intros h f E. eapply Hd, Ld; [exact E|done].
Qed.

Lemma close_file_count (s : fs_state W) h f b : file_at s !! h = Some f ->
  (on_mount b (delete h (file_at s)) + on_mount b (dir_at s) + (if decide (b = h_mount f) then 1 else 0) = on_mount b (file_at s) + on_mount b (dir_at s))%nat.
Proof. intros Ef. pose proof (on_mount_delete b h f _ Ef). destruct (decide (h_mount f = b)), (decide (b = h_mount f)); congruence || lia. Qed.

Lemma close_dir_count (s : fs_state W) h f b : dir_at s !! h = Some f ->
  (on_mount b (file_at s) + on_mount b (delete h (dir_at s)) + (if decide (b = h_mount f) then 1 else 0) = on_mount b (file_at s) + on_mount b (dir_at s))%nat.
Proof. intros Ef. pose proof (on_mount_delete b h f _ Ef). destruct (decide (h_mount f = b)), (decide (b = h_mount f)); congruence || lia. Qed.

(** A new handle takes over a reference. *)
Lemma inv_open x s a f1 d1 : fs_inv (more a 1 x) s -> is_Some (mount_at s !! a) ->
  (forall h f, f1 !! h = Some f -> file_at s !! h = Some f \/ h_mount f = a) ->
  (forall h f, d1 !! h = Some f -> dir_at s !! h = Some f \/ h_mount f = a) ->
  (forall b, (on_mount b f1 + on_mount b d1 = on_mount b (file_at s) + on_mount b (dir_at s) + if decide (b = a) then 1 else 0)%nat) ->
  fs_inv x (mk_fs (mounts s) (mount_at s) f1 d1 (fs_world s)).
Proof.
  intros [Hn Hl Hc Hf Hd] Ha Hf1 Hd1 Hon. split; try done; cbn.
  - intros b mb Eb. destruct (Hc b mb Eb). unfold handles, more in *. cbn. pose proof (Hon b). destruct (decide (b = a)); lia.
  - intros h f E. destruct (Hf1 h f E) as [E1| ->]; [by eapply Hf|done].
  - intros h f E. destruct (Hd1 h f E) as [E1| ->]; [by eapply Hd|done].
Qed.

(** ** Operations *)

Variables (malloc : Z -> M (fs_state W) (option Z)) (blockdev_close : Z -> M W unit).

(** The allocator returns memory in which no structure lies. *)
Definition allocates : Prop := forall n s, after (malloc n) (fun r s' => (exists w, s' = with_world w s) /\
  forall a, r = Some a -> mount_at s !! a = None /\ file_at s !! a = None /\ dir_at s !! a = None) s.

Lemma after_normalized path (P : list Z -> fs_state W -> Prop) s : (forall r, P r s) -> after (normalized path) P s.
Proof.
  intros H. apply after_bind. intros r s' E. unfold lift in E. injection E as E <-. by apply after_ret.
Qed.

Lemma after_find_mount path (P : option (Z * list Z) -> fs_state W -> Prop) s : P None s ->
  (forall a rest m, mount_at s !! a = Some m -> P (Some (a, rest)) (set_mount_at a (set_ref (m_ref m + 1) m) s)) ->
  after (find_mount path) P s.
Proof.
  intros H0 H1. apply after_get. generalize (mounts s) as l. induction l as [|a l IH]; [by apply after_ret|].
  apply after_bind, after_deref. intros m Em. destruct (m_path m) as [mp|]; [|done].
  apply after_if; [done|]. intros _. apply after_if; [|done]. intros _.
  apply after_bind, after_add_ref. intros m' Em'. apply after_ret. by apply H1.
Qed.

Lemma inv_found x s a m : fs_inv x s -> mount_at s !! a = Some m ->
  fs_inv (more a 1 x) (set_mount_at a (set_ref (m_ref m + 1) m) s) /\ is_Some (mount_at (set_mount_at a (set_ref (m_ref m + 1) m) s) !! a).
Proof.
  intros Hi Em. destruct (i_count _ _ Hi a m Em). split; [apply inv_ref; done || lia|]. cbn. rewrite lookup_insert_eq. by eexists.
Qed.

(** The reference of a lookup is given back. *)
Lemma put_found_within x s a P : fs_inv (more a 1 x) s -> 0 <= x a -> is_Some (mount_at s !! a) ->
  (forall s', fs_inv x s' -> (forall b, b ∈ mounts s' -> b ∈ mounts s) -> P tt s') -> after (put_mount blockdev_close a) P s.
Proof.
  intros Hi Hx [m Em] H. apply (after_put_mount _ _ _ _ m Em). intros w. apply H.
  2: { intros b. cbn. unfold dropped. destruct (m_ref m =? 1); [by intros [? ?]%list_elem_of_filter|done]. }
  apply inv_world. apply (inv_ext (more a (-1) (more a 1 x))); [intros b _; unfold more; destruct (decide (b = a)); lia|].
  apply inv_put; [done|done|]. unfold more. destruct (decide (a = a)); [lia|done].
Qed.

Lemma put_found x s a P : fs_inv (more a 1 x) s -> 0 <= x a -> is_Some (mount_at s !! a) ->
  (forall s', fs_inv x s' -> P tt s') -> after (put_mount blockdev_close a) P s.
Proof. intros Hi Hx Ha H. apply (put_found_within x); [done..|]. intros s' H' _. by apply H. Qed.

Lemma with_mount_keeps NF NS path hook x s : fs_inv x s -> (forall a, 0 <= x a) ->
  after (with_mount blockdev_close NF NS path hook) (fun _ s' => fs_inv x s') s.
Proof.
  intros Hi Hx. apply after_bind, after_find_mount; [by apply after_ret|]. intros a rest m Em.
  destruct (inv_found x s a m Hi Em) as [Hf Hl]. apply after_bind, after_deref. intros m' _. destruct (hook (m_api m')).
  - apply after_bind, after_world. intros e w. apply after_bind. apply (put_found x); [by apply inv_world|done|done|].
    intros s' H'. by apply after_ret.
  - apply after_bind. apply (put_found x); [done|done|done|]. intros s' H'. by apply after_ret.
Qed.

(** What a new handle does to the state. *)
Definition publishes (publish : Z -> filehandle -> fs_state W -> fs_state W) : Prop := forall x s a h c,
  fs_inv (more a 1 x) s -> is_Some (mount_at s !! a) -> file_at s !! h = None -> dir_at s !! h = None ->
  fs_inv x (publish h (mk_handle c a) s).

Lemma publishes_file : publishes (fun h x => set_files (<[h := x]>)).
Proof.
  intros x s a h c Hi Ha Hf _. apply (inv_open x s a (<[h := mk_handle c a]> (file_at s)) (dir_at s) Hi Ha).
  - intros k f [[_ <-]|[_ ?]]%lookup_insert_Some; [by right|by left].
  - by left.
  - intros b. rewrite on_mount_insert by done. cbn. destruct (decide (a = b)), (decide (b = a)); congruence || lia.
Qed.

Lemma publishes_dir : publishes (fun h x => set_dirs (<[h := x]>)).
Proof.
  intros x s a h c Hi Ha _ Hd. apply (inv_open x s a (file_at s) (<[h := mk_handle c a]> (dir_at s)) Hi Ha).
  - by left.
  - intros k f [[_ <-]|[_ ?]]%lookup_insert_Some; [by right|by left].
  - intros b. rewrite on_mount_insert by done. cbn. destruct (decide (a = b)), (decide (b = a)); congruence || lia.
Qed.

(** Opening keeps the counts, unless there is no memory for the handle: then the
    reference of the lookup is never given back. *)
Lemma open_with_keeps NF NM NS path hook supported publish x s : allocates -> publishes publish -> fs_inv x s -> (forall a, 0 <= x a) ->
  after (open_with malloc blockdev_close NF NM NS path hook supported publish)
    (fun r s' => fs_inv x s' \/ exists a, r = (NM, None) /\ fs_inv (more a 1 x) s') s.
Proof.
  intros Al Pub Hi Hx. apply after_bind, after_normalized. intros p. apply after_bind, after_find_mount; [apply after_ret; by left|].
  intros a rest m Em. destruct (inv_found x s a m Hi Em) as [Hf Hl]. set (s1 := set_mount_at _ _ _) in *.
  assert (Put : forall (r : Z * option Z) s2, fs_inv (more a 1 x) s2 -> is_Some (mount_at s2 !! a) ->
    after (put_mount blockdev_close a ;;; ret r) (fun r s' => fs_inv x s' \/ exists a, r = (NM, None) /\ fs_inv (more a 1 x) s') s2).
  { intros r s2 H2 L2. apply after_bind. apply (put_found x); [done|done|done|]. intros s' H'. apply after_ret. by left. }
  apply after_bind, after_deref. intros m' _. apply after_if; [intros _; by apply Put|]. intros _.
  apply after_bind, after_call. intros [err cookie] w. apply after_if; [intros _; apply Put; [by apply inv_world|done]|]. intros _.
  apply after_bind. eapply after_mono; [apply Al|]. cbn. intros [h|] s2 [(w' & ->) Hh].
  - destruct (Hh h eq_refl) as (_ & Ff & Fd). apply after_bind, after_modify, after_ret. left. apply Pub; [by apply inv_world, inv_world|done..].
  - apply after_ret. right. exists a. split; [done|]. by apply inv_world, inv_world.
Qed.

Lemma on_file_keeps {F A} h (hook : fs_api W -> option F) (f : F -> Z -> M W A) x s : fs_inv x s ->
  after (on_file h hook f) (fun _ s' => fs_inv x s') s.
Proof.
  intros Hi. apply after_bind. intros r s' E. unfold deref_file in E. destruct (file_at s !! h); [|done]. injection E as <- <-.
  apply after_bind, after_deref. intros m _. apply after_call. intros a w. by apply inv_world.
Qed.

Lemma close_file_keeps h x s : fs_inv x s -> (forall a, 0 <= x a) -> after (fs_close_file blockdev_close h) (fun _ s' => fs_inv x s') s.
Proof.
  intros Hi Hx. apply after_bind. intros r s' E. unfold deref_file in E. destruct (file_at s !! h) as [f|] eqn:Ef; [|done]. injection E as <- <-.
  apply after_bind, after_deref. intros m _. apply after_bind, after_call. intros err w.
  apply after_if; [intros _; apply after_ret; by apply inv_world|]. intros _. destruct (i_files _ _ Hi h f Ef) as [m' Em'].
  apply after_bind. apply (after_put_mount _ _ _ _ m'); [done|]. intros w'. apply after_bind, after_modify, after_ret.
  pose proof (inv_close x (with_world w s) (h_mount f) m' (delete h (file_at s)) (dir_at s) ltac:(by apply inv_world) Em' (Hx _)) as Hc.
  apply (inv_world _ _ w') in Hc; [|apply delete_subseteq|done|intros b; by apply (close_file_count s)].
  unfold dropped in *. by destruct (m_ref m' =? 1).
Qed.

Lemma close_dir_keeps NS h x s : fs_inv x s -> (forall a, 0 <= x a) -> after (fs_close_dir blockdev_close NS h) (fun _ s' => fs_inv x s') s.
Proof.
  intros Hi Hx. apply after_bind. intros r s' E. unfold deref_dir in E. destruct (dir_at s !! h) as [f|] eqn:Ef; [|done]. injection E as <- <-.
  apply after_bind, after_deref. intros m _. destruct (closedir (m_api m)); [|by apply after_ret]. apply after_bind, after_world. intros err w.
  apply after_if; [intros _; apply after_ret; by apply inv_world|]. intros _. destruct (i_dirs _ _ Hi h f Ef) as [m' Em'].
  apply after_bind. apply (after_put_mount _ _ _ _ m'); [done|]. intros w'. apply after_bind, after_modify, after_ret.
  pose proof (inv_close x (with_world w s) (h_mount f) m' (file_at s) (delete h (dir_at s)) ltac:(by apply inv_world) Em' (Hx _)) as Hc.
  apply (inv_world _ _ w') in Hc; [|done|apply delete_subseteq|intros b; by apply (close_dir_count s)].
  unfold dropped in *. by destruct (m_ref m' =? 1).
Qed.

Lemma on_mount_none a (f : gmap Z filehandle) : (forall h x, f !! h = Some x -> h_mount x <> a) -> on_mount a f = O.
Proof.
  intros H. unfold on_mount. apply map_size_empty_iff, map_eq. intros h. rewrite lookup_empty.
  apply map_lookup_filter_None. right. intros x Hx. cbn. by apply (H h).
Qed.

Lemma inv_mount x s a m : fs_inv x s -> mount_at s !! a = None -> m_ref m = 1 ->
  fs_inv (fun b => if decide (b = a) then 1 else x b) (set_mounts (a :: mounts s) (set_mount_at a m s)).
Proof.
  intros [Hn Hl Hc Hf Hd] Ha Hm. assert (Hna : a ∉ mounts s) by (rewrite Hl, Ha; by intros []).
  assert (Hs : forall b, is_Some (mount_at s !! b) -> is_Some (<[a := m]> (mount_at s) !! b)) by (intros b ?; rewrite lookup_insert_is_Some; destruct (decide (a = b)); [by left|by right]).
  assert (Zf : on_mount a (file_at s) = O) by (apply on_mount_none; intros h f E Ea; destruct (Hf h f E); congruence).
  assert (Zd : on_mount a (dir_at s) = O) by (apply on_mount_none; intros h f E Ea; destruct (Hd h f E); congruence).
  split; cbn; [by constructor| | |intros h f E; by eapply Hs, Hf|intros h f E; by eapply Hs, Hd].
  - intros b. rewrite elem_of_cons, Hl, lookup_insert_is_Some.
    destruct (decide (a = b)) as [->|Hab]; (split; [|]); [by left|by left|intros [->|?]; [done|by right]|intros [?|[? ?]]; [congruence|by right]].
  - intros b mb Eb. unfold handles. cbn. destruct (decide (b = a)) as [->|Hb].
    + rewrite lookup_insert_eq in Eb. injection Eb as <-. lia.
    + rewrite lookup_insert_ne in Eb by done. by apply Hc.
Qed.

(** Every mount has the references of its handles, and those of [owned] one more. *)
Definition consistent (owned : list Z) (s : fs_state W) : Prop :=
  exists x, (forall a, 0 <= x a) /\ (forall a, a ∈ owned -> 1 <= x a) /\ fs_inv x s.

(** The mounts of [owned] and those that were not there at [s]. *)
Definition with_new (owned : list Z) (s s' : fs_state W) : list Z := filter (fun a => a ∉ mounts s) (mounts s') ++ owned.

Lemma mount_keeps NM BP AM path dev api sector owned s : allocates -> consistent owned s ->
  after (mount_at_path malloc blockdev_close NM BP AM path dev api sector) (fun _ s' => consistent (with_new owned s s') s') s.
Proof.
  intros Al (x & Hx & Ho & Hi).
  assert (Same : forall s', fs_inv x s' -> (forall b, b ∈ mounts s' -> b ∈ mounts s) -> consistent (with_new owned s s') s').
  { intros s' H' Hs. exists x. split; [done|]. split; [|done]. intros b [[Hb Hb2%Hs]%list_elem_of_filter|Hb]%elem_of_app; [done|by apply Ho]. }
  apply after_bind, after_normalized. intros p. apply after_if; [intros _; by apply after_ret, Same|]. intros _.
  apply after_bind, after_find_mount.
  - apply after_bind. eapply after_mono; [apply Al|]. cbn. intros [a|] s1 [(w & ->) Ha]; [|by apply after_ret, Same; [apply inv_world|]].
    destruct (Ha a eq_refl) as (Ma & _ & _). apply after_bind, after_call. intros [err cookie] w1. apply after_if; intros _.
    + apply after_bind. destruct dev; [apply after_world; intros _ w2|apply after_ret]; apply after_ret, Same; by repeat apply inv_world.
    + apply after_bind. eapply after_mono; [apply Al|]. cbn. intros copy s2 [(w2 & ->) _].
      apply after_bind, after_modify, after_bind, after_modify, after_ret. exists (fun b => if decide (b = a) then 1 else x b). split; [|split].
      * intros b. destruct (decide (b = a)); [lia|apply Hx].
      * intros b Hb. destruct (decide (b = a)) as [|Hba]; [done|]. change (b ∈ filter (fun y => y ∉ mounts s) (a :: mounts s) ++ owned) in Hb.
        apply elem_of_app in Hb as [[Hb1 [?|Hb2]%elem_of_cons]%list_elem_of_filter|Hb]; [done|done|by apply Ho].
      * apply (inv_mount x (with_world w2 (with_world w1 (with_world w s))) a (mk_mount _ _ _ 1 _)); [by repeat apply inv_world|done|done].
  - intros a rest m Em. destruct (inv_found x s a m Hi Em) as [Hf Hl]. apply after_bind. apply (put_found_within x); [done|done|done|].
    intros s' H' Hs. by apply after_ret, Same.
Qed.

(** The mount a path leads to. *)
Definition found_mount (path : list Z) (s : fs_state W) : option Z :=
  match ((let! p := normalized path in find_mount p) s).1 with Ret (Some (a, _)) => Some a | _ => None end.

(** [owned] less the mount of the path. *)
Definition without_found (owned : list Z) (path : list Z) (s : fs_state W) : list Z :=
  match found_mount path s with Some a => filter (fun b => b <> a) owned | None => owned end.

Lemma unmount_keeps NF path owned s : consistent owned s -> (forall a, found_mount path s = Some a -> a ∈ owned) ->
  after (fs_unmount blockdev_close NF path) (fun _ s' => consistent (without_found owned path s) s') s.
Proof.
  intros (x & Hx & Ho & Hi) Hu r s' E. unfold fs_unmount in E.
  assert (E1 : (let! f := (let! p := normalized path in find_mount p) in
     match f with Some (a, _) => put_mount blockdev_close a ;;; put_mount blockdev_close a ;;; ret 0 | None => ret NF end) s = (Ret r, s')).
  { rewrite <- E. unfold bind. by destruct (normalized path s) as [[] ?]. }
  clear E. revert r s' E1. apply after_bind.
  assert (Hpf : after (let! p := normalized path in find_mount p) (fun f s1 => match f with
      | None => s1 = s
      | Some (a, rest) => exists m, mount_at s !! a = Some m /\ s1 = set_mount_at a (set_ref (m_ref m + 1) m) s end) s).
  { apply after_bind, after_normalized. intros p. apply after_find_mount; [done|]. intros a rest m Em. by exists m. }
  intros f s1 Ef. specialize (Hpf f s1 Ef). unfold without_found, found_mount in *. rewrite Ef in Hu |- *. cbn [fst] in *.
  destruct f as [[a rest]|]; [|apply after_ret; subst s1; by exists x].
  destruct Hpf as (m & Em & ->). pose proof (Ho a (Hu a eq_refl)) as Hxa.
  destruct (i_count _ _ Hi a m Em) as [Hc Hp].
  assert (E2 : mount_at (set_mount_at a (set_ref (m_ref m + 1) m) s) !! a = Some (set_ref (m_ref m + 1) m)) by apply lookup_insert_eq.
  apply after_bind, (after_put_mount _ _ _ _ _ E2). intros w. unfold dropped. cbn [m_ref set_ref].
  destruct (Z.eqb_spec (m_ref m + 1) 1); [lia|]. replace (m_ref m + 1 - 1) with (m_ref m) by lia.
  set (s2 := with_world w _).
  assert (I2 : fs_inv x s2).
  { apply inv_world. apply (inv_ext (more a 0 x)); [intros b _; unfold more; destruct (decide (b = a)); lia|].
    replace (set_mount_at a (set_ref (m_ref m) _) (set_mount_at a _ s)) with (set_mount_at a (set_ref (m_ref m + 0) m) s);
      [apply inv_ref; done || lia|]. unfold set_mount_at. cbn. rewrite insert_insert_eq, Z.add_0_r. done. }
  assert (E3 : mount_at s2 !! a = Some (set_ref (m_ref m) m)) by (cbn; apply lookup_insert_eq).
  apply after_bind, (after_put_mount _ _ _ _ _ E3). intros w2. apply after_ret. exists (more a (-1) x). split; [|split].
  - intros b. unfold more. destruct (decide (b = a)) as [->|]; [lia|apply Hx].
  - intros b [Hba Hb]%list_elem_of_filter. unfold more. destruct (decide (b = a)); [done|by apply Ho].
  - apply inv_world, inv_put; [done|done|lia].
Qed.
End Spec.

(** ** Series of calls *)

Inductive fs_op :=
  | OMount (path fsname : list Z) (dev : option Z) (sector : Z) | OUnmount (path : list Z)
  | OOpenFile (path : list Z) | OCreateFile (path : list Z) (len : Z) | OOpenDir (path : list Z)
  | OCloseFile (handle : Z) | OCloseDir (handle : Z)
  | ORead (handle buf offset len : Z) | OStat (handle : Z) | OTruncate (handle len : Z)
  | ORemove (path : list Z) | OMakeDir (path : list Z) | OStatFs (path : list Z) | OLoad (path : list Z) (ptr maxlen : Z).

Section Series.
Context {W : Type}.
Variables (malloc : Z -> M (fs_state W) (option Z)) (blockdev_close : Z -> M W unit) (impls : list (list Z * fs_api W)).
Variables (NOT_FOUND NO_MEMORY BAD_PATH ALREADY_MOUNTED NOT_SUPPORTED : Z).

Definition ignore {A} (c : M (fs_state W) A) : M (fs_state W) unit := let! _ := c in ret tt.

Definition run_op (o : fs_op) : M (fs_state W) unit :=
  match o with
  | OMount p n d k => ignore (fs_mount_named malloc blockdev_close NOT_FOUND NO_MEMORY BAD_PATH ALREADY_MOUNTED impls p n d k)
  | OUnmount p => ignore (fs_unmount blockdev_close NOT_FOUND p)
  | OOpenFile p => ignore (fs_open_file malloc blockdev_close NOT_FOUND NO_MEMORY NOT_SUPPORTED p)
  | OCreateFile p n => ignore (fs_create_file malloc blockdev_close NOT_FOUND NO_MEMORY NOT_SUPPORTED p n)
  | OOpenDir p => ignore (fs_open_dir malloc blockdev_close NOT_FOUND NO_MEMORY NOT_SUPPORTED p)
  | OCloseFile h => ignore (fs_close_file blockdev_close h)
  | OCloseDir h => ignore (fs_close_dir blockdev_close NOT_SUPPORTED h)
  | ORead h b o n => ignore (fs_read_file h b o n)
  | OStat h => ignore (fs_stat_file h)
  | OTruncate h n => ignore (fs_truncate_file h n)
  | ORemove p => ignore (fs_remove_file blockdev_close NOT_FOUND NOT_SUPPORTED p)
  | OMakeDir p => ignore (fs_make_dir blockdev_close NOT_FOUND NOT_SUPPORTED p)
  | OStatFs p => ignore (fs_stat_fs blockdev_close NOT_FOUND NOT_SUPPORTED p)
  | OLoad p b n => ignore (fs_load_file malloc blockdev_close NOT_FOUND NO_MEMORY NOT_SUPPORTED p b n)
  end.

(** The callers keep to this: only a mount of [owned] is unmounted. *)
Definition legal (owned : list Z) (o : fs_op) (s : fs_state W) : Prop :=
  match o with OUnmount p => forall a, found_mount p s = Some a -> a ∈ owned | _ => True end.

(** The mounts made and not yet given up, after [o] led from [s] to [s']. *)
Definition owned_after (o : fs_op) (owned : list Z) (s s' : fs_state W) : list Z :=
  match o with OMount _ _ _ _ => with_new owned s s' | OUnmount p => without_found owned p s | _ => owned end.

Inductive series : list Z -> fs_state W -> list fs_op -> fs_state W -> Prop :=
  | series_nil owned s : series owned s [] s
  | series_cons owned s o s1 os s2 : legal owned o s -> run_op o s = (Ret tt, s1) -> series (owned_after o owned s s1) s1 os s2 ->
      series owned s (o :: os) s2.

Lemma after_ignore {A} (c : M (fs_state W) A) P s : after c (fun _ => P) s -> after (ignore c) (fun _ => P) s.
Proof. intros H. apply after_bind. eapply after_mono; [exact H|]. intros a s' HP. by apply after_ret. Qed.

Lemma consistent_keeps {A} (c : M (fs_state W) A) owned s : consistent owned s ->
  (forall x, fs_inv x s -> (forall a, 0 <= x a) -> after c (fun _ s' => fs_inv x s') s) -> after (ignore c) (fun _ => consistent owned) s.
Proof.
  intros (x & Hx & Ho & Hi) H. apply after_ignore. eapply after_mono; [by apply (H x)|]. intros a s' H'. by exists x.
Qed.

Lemma opens_keep path hook supported publish owned s : allocates malloc -> publishes publish -> consistent owned s ->
  after (open_with malloc blockdev_close NOT_FOUND NO_MEMORY NOT_SUPPORTED path hook supported publish) (fun _ => consistent owned) s.
Proof.
  intros Al Pub (x & Hx & Ho & Hi). eapply after_mono; [by apply (open_with_keeps _ _ _ _ _ _ _ _ _ x)|].
  intros r s' [H'|(a & _ & H')]; [by exists x|].
  assert (Hm : forall b, x b <= more a 1 x b) by (intros b; unfold more; destruct (decide (b = a)); lia).
  exists (more a 1 x). split; [intros b; specialize (Hx b); specialize (Hm b); lia|]. split; [|done].
  intros b Hb%Ho. specialize (Hm b). lia.
Qed.

Lemma load_keeps path ptr maxlen owned s : allocates malloc -> consistent owned s ->
  after (fs_load_file malloc blockdev_close NOT_FOUND NO_MEMORY NOT_SUPPORTED path ptr maxlen) (fun _ => consistent owned) s.
Proof.
  intros Al Hc. apply after_bind. eapply after_mono; [apply opens_keep; [done|apply publishes_file|done]|]. intros [err h] s1 (x & Hx & Ho & Hi).
  apply after_if; intros _; [apply after_ret; by exists x|]. destruct h as [h|]; [|done].
  apply after_bind. eapply after_mono; [apply (on_file_keeps _ _ _ x); done|]. intros [e st] s2 H2.
  apply after_bind. eapply after_mono; [apply (on_file_keeps _ _ _ x); done|]. intros n s3 H3.
  apply after_bind. eapply after_mono; [apply (close_file_keeps _ _ x); done|]. intros e' s4 H4. apply after_ret. by exists x.
Qed.

Lemma consistent_same owned (s : fs_state W) : consistent owned s -> consistent (with_new owned s s) s.
Proof.
  intros (x & Hx & Ho & Hi). exists x. split; [done|]. split; [|done].
  intros a [[? ?]%list_elem_of_filter|?]%elem_of_app; [done|by apply Ho].
Qed.

Lemma run_op_keeps o owned s : allocates malloc -> consistent owned s -> legal owned o s ->
  after (run_op o) (fun _ s' => consistent (owned_after o owned s s') s') s.
Proof.
  intros Al Hc Hl. destruct o; cbn [run_op owned_after legal] in *.
  - apply after_bind. unfold fs_mount_named. destruct (find_fs impls fsname); [|by apply after_ret, after_ret, consistent_same].
    eapply after_mono; [by apply mount_keeps|]. intros e s' H'. by apply after_ret.
  - apply after_ignore. by apply unmount_keeps.
  - apply after_ignore, opens_keep; [done|apply publishes_file|done].
  - apply after_ignore, opens_keep; [done|apply publishes_file|done].
  - apply after_ignore, opens_keep; [done|apply publishes_dir|done].
  - apply consistent_keeps; [done|]. intros. by apply close_file_keeps.
  - apply consistent_keeps; [done|]. intros. by apply close_dir_keeps.
  - apply consistent_keeps; [done|]. intros. by apply on_file_keeps.
  - apply consistent_keeps; [done|]. intros. by apply on_file_keeps.
  - apply consistent_keeps; [done|]. intros. by apply on_file_keeps.
  - apply consistent_keeps; [done|]. intros. apply after_bind, after_normalized. intros p. by apply with_mount_keeps.
  - apply consistent_keeps; [done|]. intros. apply after_bind, after_normalized. intros p. by apply with_mount_keeps.
  - apply consistent_keeps; [done|]. intros. by apply with_mount_keeps.
  - apply after_ignore. by apply load_keeps.
Qed.

Lemma series_keeps owned s os s' : allocates malloc -> consistent owned s -> series owned s os s' -> exists left, consistent left s'.
Proof.
  intros Al Hc Hs. induction Hs as [|owned s o s1 os s2 Hl E _ IH]; [by eexists|]. apply IH. by apply (run_op_keeps o owned s Al Hc Hl tt s1).
Qed.
End Series.

(** C32.  After any series of calls that return, mounts, unmounts, openings, closings
    and others, that starts without mounts and in which no mount is unmounted twice
    (each [fs_unmount] reaches a mount that was mounted and not unmounted since),
    whatever the drivers, the device layer and the allocator answer, every open file and
    directory has its mount in the table, with one reference for each of them, so that a
    call through a handle reaches the driver that opened it. *)
Theorem mounts_outlive_handles {W} malloc blockdev_close impls NF NM BP AM NS (w : W) os s :
  allocates malloc -> series malloc blockdev_close impls NF NM BP AM NS [] (mk_fs [] ∅ ∅ ∅ w) os s ->
  NoDup (mounts s) /\
  (forall a, a ∈ mounts s -> exists m, mount_at s !! a = Some m /\ 0 < m_ref m /\ handles a s <= m_ref m) /\
  (forall h f, file_at s !! h = Some f -> h_mount f ∈ mounts s /\ exists m, mount_at s !! h_mount f = Some m /\
     forall buf offset n, fs_read_file h buf offset n s = call (read (m_api m)) (fun g => g (h_cookie f) buf offset n) s) /\
  (forall h f, dir_at s !! h = Some f -> h_mount f ∈ mounts s).
Proof.
  intros Al Hs. assert (H0 : consistent [] (mk_fs [] ∅ ∅ ∅ w)).
  { exists (fun _ => 0). split; [done|]. split; [by intros a ?%elem_of_nil|]. split; cbn; try done; [constructor|..].
    intros a. rewrite lookup_empty. split; [by intros ?%elem_of_nil|by intros []]. }
  destruct (series_keeps _ _ _ _ _ _ _ _ _ _ _ _ Al H0 Hs) as (left & x & Hx & _ & [Hn Hl Hc Hf Hd]).
  split; [done|]. split; [|split].
  - intros a [m Em]%Hl. exists m. destruct (Hc a m Em). split; [done|]. split; [done|]. specialize (Hx a). lia.
  - intros h f Ef. pose proof (Hf h f Ef) as Hm. split; [by apply Hl|]. destruct Hm as [m Em]. exists m. split; [done|].
    intros. unfold fs_read_file, on_file, bind, deref_file, deref_mount. by rewrite Ef, Em.
  - intros h f Ef. by apply Hl, (Hd h f).
Qed.

(** ** A driver for which every call succeeds *)

Definition free_address (n : Z) : M (fs_state unit) (option Z) := fun s =>
  (Ret (Some (fresh ({[0]} ∪ dom (mount_at s) ∪ dom (file_at s) ∪ dom (dir_at s) : gset Z))), s).

Lemma free_address_allocates : allocates free_address.
Proof.
  intros n s r s' E. injection E as <- <-. split; [exists (fs_world s); by destruct s|]. intros a [= <-].
  pose proof (is_fresh ({[0]} ∪ dom (mount_at s) ∪ dom (file_at s) ∪ dom (dir_at s) : gset Z)) as H.
  rewrite !not_elem_of_union, !not_elem_of_dom in H. tauto.
Qed.

Definition ready_api : fs_api unit :=
  mk_api None (Some (fun _ _ => ret (0, 7))) (Some (fun _ => ret 0)) (Some (fun _ _ => ret (0, 9))) None None None
    (Some (fun _ => ret (0, mk_stat false 12 12))) (Some (fun _ _ _ n => ret n)) None (Some (fun _ => ret 0)) None None None None None.

Definition close_nothing (d : Z) : M unit unit := ret tt.
Definition run_ready := run_op free_address close_nothing [([101], ready_api)] (-2) (-5) (-20) (-21) (-24).

(** [/a] is mounted, [/a/b] opened twice and closed once, and the mount given up. *)
Definition ready_ops : list fs_op :=
  [OMount [47; 97] [101] None 0; OOpenFile [47; 97; 47; 98]; OOpenFile [47; 47; 97; 47; 99]; OCloseFile 2; OUnmount [47; 97; 47]].
Definition s0 : fs_state unit := mk_fs [] ∅ ∅ ∅ tt.
Definition s5 : fs_state unit := fold_left (fun s o => (run_ready o s).2) ready_ops s0.

Lemma mounts_outlive_handles_witness : 1 ∈ mounts s5 /\ file_at s5 !! 3 = Some (mk_handle 9 1).
Proof.
  assert (Ef : file_at s5 !! 3 = Some (mk_handle 9 1)) by (vm_compute; reflexivity). split; [|exact Ef].
  refine (proj1 (proj1 (proj2 (proj2 (mounts_outlive_handles free_address close_nothing [([101], ready_api)] (-2) (-5) (-20) (-21) (-24) tt ready_ops s5
    free_address_allocates _))) 3 (mk_handle 9 1) Ef)).
  do 4 (eapply series_cons; [exact I|vm_compute; reflexivity|]).
  eapply series_cons; [|vm_compute; reflexivity|apply series_nil].
  intros a E. vm_compute in E. injection E as <-. vm_compute. by left.
Defined.

(** Unmounting once more is accepted, and frees the mount under its open file: the
    next call through the handle reads memory that has been released. *)
Example unmount_twice : let s6 := (run_ready (OUnmount [47; 97]) s5).2 in
  (run_ready (OUnmount [47; 97]) s5).1 = Ret tt /\ mounts s6 = [] /\ file_at s6 !! 3 = Some (mk_handle 9 1) /\
  (run_ready (ORead 3 0 0 4) s6).1 = Undef.
Proof. vm_compute. repeat split. Qed.

(** A mount is found by the characters of its path, not by its fields: [/ab] is
    looked up in the mount at [/a]. *)
Example prefix_is_enough : exists s, (let! p := normalized [47; 97; 98] in find_mount p) (fold_left (fun s o => (run_ready o s).2) (firstn 1 ready_ops) s0) =
  (Ret (Some (1, [98])), s).
Proof. eexists. vm_compute. reflexivity. Qed.
