(* ===== verification/Ext2.v ===== *)
(** * Ext2: inodes and file contents

    lib/fs/ext2/ext2.c and io.c, and the sizes and links of file.c, over the block
    cache and the device of a mounted file system, which are the interface
    [FsStore].  Structures read from the disk are byte lists.  The machine is
    little-endian, so the conversions of a header outside the repository keep the
    value they are given. *)
From stdpp Require Import base list.
From S2P Require Import Prelude BlockDev.
#[local] Open Scope Z_scope.

(** ** What a file system calls

    The block cache, the device behind it and the heap.  Reading takes the buffer
    and returns it; a pointer into the cache is used with [store_deref] until its
    block is put back.  New memory comes with what it holds; a device has sectors of
    [store_sector] bytes. *)
Class FsStore (S D C : Type) := {
  store_read_block : C -> list Z -> Z -> M S (Z * list Z);
  store_get_block : C -> Z -> M S (Z * option Z);
  store_deref : Z -> M S (list Z);
  store_put_block : C -> Z -> M S Z;
  store_create : D -> Z -> Z -> Z -> M S (option C);
  store_destroy : C -> M S unit;
  store_sector : D -> Z;
  store_device_read : D -> Z -> list Z -> Z -> Z -> M S (list Z);
  store_alloc : Z -> M S (option (Z * list Z));
  store_memalign : Z -> Z -> M S (option (Z * list Z));
  store_free : Z -> M S unit;
}.

Definition LE32 (x : Z) : Z := x.
Definition LE16 (x : Z) : Z := x.

(** ** The superblock *)

Definition E2FS_MAGIC : Z := 0xEF53.
Definition E2FS_REV0 : Z := 0.
Definition E2FS_REV1 : Z := 1.
Definition E2FS_REV0_INODE_SIZE : Z := 128.
Definition E2FS_MIN_BLOCK_SIZE : Z := 1024.
Definition E2FS_GD_SIZE : Z := 32.
Definition E2FS_64BIT_GD_SIZE : Z := 64.
Definition EXT2F_ROCOMPAT_LARGEFILE : Z := 2.
Definition EXT2_ROOTINO : Z := 2.
Definition SUPER_BLOCK_LEN : Z := 1024.
Definition DINODE_LEN : Z := 160.

(** Fields of [struct ext2fs_super_block]. *)
Definition e2fs_bcount (sb : list Z) : Z := ld32 sb 4.
Definition e2fs_log_bsize (sb : list Z) : Z := ld32 sb 24.
Definition e2fs_bpg (sb : list Z) : Z := ld32 sb 32.
Definition e2fs_ipg (sb : list Z) : Z := ld32 sb 40.
Definition e2fs_magic (sb : list Z) : Z := ld16 sb 56.
Definition e2fs_rev (sb : list Z) : Z := ld32 sb 76.
Definition e2fs_inode_size (sb : list Z) : Z := ld16 sb 88.
Definition e2fs_features_incompat (sb : list Z) : Z := ld32 sb 96.
Definition e2fs_features_rocompat (sb : list Z) : Z := ld32 sb 100.
Definition e3fs_desc_size (sb : list Z) : Z := ld16 sb 254.

(** The shift is by less than 32 bits in every file system the format allows. *)
Definition E2FS_BLOCK_SIZE (sb : list Z) : Z := u32 (Z.shiftl E2FS_MIN_BLOCK_SIZE (e2fs_log_bsize sb)).
Definition E2FS_ADDR_PER_BLOCK (sb : list Z) : Z := E2FS_BLOCK_SIZE sb / 4.
Definition E2FS_INODE_SIZE (sb : list Z) : Z := if e2fs_rev sb =? E2FS_REV0 then E2FS_REV0_INODE_SIZE else e2fs_inode_size sb.
Definition EXT2_INODES_PER_GROUP (sb : list Z) : Z := e2fs_ipg sb.

Definition LE32SWAP (o : nat) (b : list Z) : list Z := st32 b o (LE32 (ld32 b o)).
Definition LE16SWAP (o : nat) (b : list Z) : list Z := st16 b o (LE16 (ld16 b o)).
Definition swap (fields : list (list Z -> list Z)) (b : list Z) : list Z := fold_left (fun b f => f b) fields b.

Definition ext2_endian_swap_superblock : list Z -> list Z :=
  swap ([LE32SWAP 0; LE32SWAP 4; LE32SWAP 8; LE32SWAP 12; LE32SWAP 16; LE32SWAP 20; LE32SWAP 24; LE32SWAP 28; LE32SWAP 32;
         LE32SWAP 36; LE32SWAP 40; LE32SWAP 44; LE32SWAP 48; LE16SWAP 52; LE16SWAP 54; LE16SWAP 56; LE16SWAP 58; LE16SWAP 60;
         LE16SWAP 62; LE32SWAP 64; LE32SWAP 68; LE32SWAP 72; LE32SWAP 76; LE16SWAP 80; LE16SWAP 82; LE32SWAP 84; LE16SWAP 88;
         LE16SWAP 90; LE32SWAP 92; LE32SWAP 96; LE32SWAP 100; LE32SWAP 200;
         LE32SWAP 224; LE32SWAP 228; LE32SWAP 232; LE32SWAP 256; LE32SWAP 260])%nat.

Definition ext2_endian_swap_inode : list Z -> list Z :=
  swap ([LE16SWAP 0; LE16SWAP 2; LE32SWAP 4; LE32SWAP 8; LE32SWAP 12; LE32SWAP 16; LE32SWAP 20; LE16SWAP 24; LE16SWAP 26;
         LE32SWAP 28; LE32SWAP 32; LE32SWAP 100; LE32SWAP 104; LE32SWAP 108; LE32SWAP 112; LE16SWAP 120; LE16SWAP 122])%nat.

Definition ext2_endian_swap_group_desc : list Z -> list Z :=
  swap ([LE32SWAP 0; LE32SWAP 4; LE32SWAP 8; LE16SWAP 12; LE16SWAP 14; LE16SWAP 16])%nat.

(** ** Inodes *)

Definition e2di_mode (i : list Z) : Z := ld16 i 0.
Definition e2di_size (i : list Z) : Z := ld32 i 4.
Definition e2di_flags (i : list Z) : Z := ld32 i 32.
Definition e2di_size_high (i : list Z) : Z := ld32 i 108.
Definition EXT2_NDIR_BLOCKS : Z := 12.
Definition EXT2_IND_BLOCK : Z := EXT2_NDIR_BLOCKS.
Definition EXT2_DIND_BLOCK : Z := EXT2_IND_BLOCK + 1.
Definition EXT2_TIND_BLOCK : Z := EXT2_DIND_BLOCK + 1.
Definition EXT2_N_BLOCKS : Z := EXT2_TIND_BLOCK + 1.

Definition S_IFMT : Z := 0xF000.
Definition S_IFDIR : Z := 0x4000.
Definition S_IFREG : Z := 0x8000.
Definition S_IFLNK : Z := 0xA000.
Definition S_ISDIR (mode : Z) : bool := Z.land mode S_IFMT =? S_IFDIR.
Definition S_ISREG (mode : Z) : bool := Z.land mode S_IFMT =? S_IFREG.
Definition S_ISLNK (mode : Z) : bool := Z.land mode S_IFMT =? S_IFLNK.

(** [ext2_t] of a mounted file system; the group descriptors by their address and
    their content. *)
Record ext2_t (D C : Type) := mk_ext2 {
  dev : D;
  cache : C;
  super_blk : list Z;
  group_count : Z;
  grp_desc_at : Z;
  grp_desc : list Z;
  root_inode : list Z;
  fs_offset : Z;
}.
Arguments mk_ext2 {D C}. Arguments dev {D C}. Arguments cache {D C}. Arguments super_blk {D C}. Arguments group_count {D C}.
Arguments grp_desc_at {D C}. Arguments grp_desc {D C}. Arguments root_inode {D C}. Arguments fs_offset {D C}.

(** A little-endian field of [n] bytes, inside its object. *)
Definition field (n : nat) (b : list Z) (o : Z) : outcome Z :=
  if (0 <=? o) && (o + Z.of_nat n <=? Z.of_nat (length b)) then Ret (ldn n b (Z.to_nat o)) else Undef.

(** Division by zero is undefined. *)
Definition div_by {A} (d : Z) (k : outcome A) : outcome A := if d =? 0 then Undef else k.

(** The block of an inode and its place there. *)
Definition get_inode_addr {D C} (ext2 : ext2_t D C) (num : Z) : outcome (Z * Z) :=
  let sb := super_blk ext2 in
  let num := u32 (num - 1) in
  div_by (e2fs_ipg sb) (
  let group := num / e2fs_ipg sb in
  let? block :=
    (if 32 <? e3fs_desc_size sb then
       let base := group * E2FS_64BIT_GD_SIZE in
       let? hi := field 4 (grp_desc ext2) (base + 40) in
       let? lo := field 4 (grp_desc ext2) (base + 8) in
       Ret (Z.lor (Z.shiftl hi 32) lo)
     else field 4 (grp_desc ext2) (group * E2FS_GD_SIZE + 8)) in
  let offset := u32 (num mod EXT2_INODES_PER_GROUP sb * E2FS_INODE_SIZE sb) in
  div_by (E2FS_BLOCK_SIZE sb) (
  Ret (u64 (block + offset / E2FS_BLOCK_SIZE sb), offset mod E2FS_BLOCK_SIZE sb))).

(** The indices that lead to a block of a file: how many tables, and the entry in
    the inode and in each table. *)
Definition ext2_calculate_block_pointer_pos (sb : list Z) (block_to_find : Z) : option (nat * list Z) :=
  if block_to_find <? EXT2_NDIR_BLOCKS then Some (0%nat, [block_to_find])
  else
    let per := E2FS_ADDR_PER_BLOCK sb in
    let b := u64 (block_to_find - EXT2_NDIR_BLOCKS) in
    if b <? per then Some (1%nat, [EXT2_IND_BLOCK; b])
    else
      let b := u64 (b - per) in
      let per2 := u32 (per * per) in
      if b <? per2 then Some (2%nat, [EXT2_DIND_BLOCK; u32 (b / per); u32 (b mod per)])
      else
        let b := u64 (b - per2) in
        if b <? u32 (per2 * per) then
          Some (3%nat, [EXT2_TIND_BLOCK; u32 (b / per2); u32 (b mod per2 / per); u32 (b mod per2 mod per)])
        else None.

Section Io.
Context {S D C : Type} `{FsStore S D C}.
Variables (ERR_NO_MEMORY : Z) (uninit : Z -> list Z) (ext2 : ext2_t D C).
Notation sb := (super_blk ext2).
Notation bs := (E2FS_BLOCK_SIZE sb).

Definition ext2_read_block (buf : list Z) (bnum : Z) : M S (Z * list Z) := store_read_block (cache ext2) buf bnum.
Definition ext2_get_block (bnum : Z) : M S (Z * option Z) := store_get_block (cache ext2) bnum.
Definition ext2_put_block (bnum : Z) : M S Z := store_put_block (cache ext2) bnum.

(** The result and the inode. *)
Definition ext2_load_inode (num : Z) : M S (Z * option (list Z)) :=
  let! (bnum, block_offset) := lift (get_inode_addr ext2 num) in
  let! (err, ptr) := ext2_get_block bnum in
  if err <? 0 then ret (err, None)
  else
    match ptr with
    | None => undef
    | Some p =>
        let! data := store_deref p in
        let! inode := lift (copy_from data block_offset DINODE_LEN) in
        let! _ := ext2_put_block bnum in
        ret (0, Some (ext2_endian_swap_inode inode))
    end.

(** ** From blocks of a file to blocks of the disk *)

(** The tables from [current_level] on, [current_block] the next to open.  The
    pointer to a table is one to 64-bit numbers: an index counts eight bytes. *)
Fixpoint dig (n : nat) (current_level : nat) (level : nat) (pos : list Z) (current_block : Z) : M S (Z * option (Z * Z)) :=
  match n with
  | O => nofuel
  | Datatypes.S n =>
      if current_block =? 0 then ret (-1, None)
      else
        let last_block := current_block in
        let current_level := Datatypes.S current_level in
        let! (err, block) := ext2_get_block current_block in
        if err <? 0 then ret (err, None)
        else
          match block with
          | None => undef
          | Some p =>
              if (current_level <? level)%nat then
                let! data := store_deref p in
                let! index := lift (match pos !! current_level with Some i => Ret i | None => Undef end) in
                let! next := lift (field 8 data (8 * index)) in
                let! _ := ext2_put_block last_block in
                dig n current_level level pos (u32 (LE32 next))
              else ret (0, Some (p, last_block))
          end
  end.

(** [inode->e2di_blocks[index]] *)
Definition e2di_block (inode : list Z) (index : Z) : outcome Z :=
  if (0 <=? index) && (index <? EXT2_N_BLOCKS) then Ret (ld32 inode (Z.to_nat (40 + 4 * index))) else Undef.

(** The result, and the table with its block, which is held. *)
Definition ext2_get_indirect_block_pointer_cache_block (inode : list Z) (level : nat) (pos : list Z) : M S (Z * option (Z * Z)) :=
  if (3 <? level)%nat || (level =? 0)%nat then ret (-1, None)
  else
    let! first := lift (match pos with i :: _ => e2di_block inode i | [] => Undef end) in
    dig level 0 level pos (LE32 first).

(** A block behind the last one that can be mapped leaves level zero. *)
Definition file_block_to_fs_block (inode : list Z) (fileblock : Z) : M S Z :=
  let '(level, pos) := default (0%nat, []) (ext2_calculate_block_pointer_pos sb fileblock) in
  if (level =? 0)%nat then let! b := lift (e2di_block inode fileblock) in ret (LE32 b)
  else
    let! (err, table) := ext2_get_indirect_block_pointer_cache_block inode level pos in
    if err <? 0 then ret 0
    else
      match table with
      | None => undef
      | Some (ind_table, phys_block) =>
          let! data := store_deref ind_table in
          let! index := lift (match pos !! level with Some i => Ret i | None => Undef end) in
          let! block := lift (field 4 data (4 * index)) in
          let! _ := ext2_put_block phys_block in
          ret (LE32 block)
      end.

(** ** File contents *)

Definition ext2_file_len (inode : list Z) : Z :=
  let len := e2di_size inode in
  if truthy (Z.land (e2fs_features_rocompat sb) EXT2F_ROCOMPAT_LARGEFILE) && S_ISREG (e2di_mode inode)
  then Z.lor len (Z.shiftl (e2di_size_high inode) 32) else len.

(** A block of the file in [buf], zeros for a hole; the result of the read is not
    looked at. *)
Definition fetch (inode buf : list Z) (file_block : Z) : M S (list Z) :=
  let! phys_block := file_block_to_fs_block inode file_block in
  if phys_block =? 0 then lift (copy_to buf 0 (repeat 0 (Z.to_nat bs)))
  else let! (_, buf) := ext2_read_block buf phys_block in ret buf.

(** [len], [file_block], [bytes_read] and the buffer. *)
Record read_state := mk_read { r_len : Z; r_block : Z; r_bytes : Z; r_buf : list Z }.

Definition take_part (inode : list Z) (from tocopy : Z) (r : read_state) : M S read_state :=
  let! temp := fetch inode (uninit bs) (r_block r) in
  let! part := lift (copy_from temp from tocopy) in
  let! buf := lift (copy_to (r_buf r) (r_bytes r) part) in
  ret (mk_read (r_len r - tocopy) (u32 (r_block r + 1)) (r_bytes r + tocopy) buf).

Definition read_first_block (inode : list Z) (offset : Z) (r : read_state) : M S read_state :=
  if negb (offset mod bs =? 0) then
    let block_offset := offset mod bs in
    take_part inode block_offset (Z.min (r_len r) (bs - block_offset)) r
  else ret r.

(** [n] whole blocks, straight into the buffer. *)
Fixpoint read_middle_blocks (n : nat) (inode : list Z) (r : read_state) : M S read_state :=
  match n with
  | O => ret r
  | Datatypes.S n =>
      let! there := lift (copy_from (r_buf r) (r_bytes r) bs) in
      let! data := fetch inode there (r_block r) in
      let! buf := lift (copy_to (r_buf r) (r_bytes r) data) in
      read_middle_blocks n inode (mk_read (r_len r - bs) (u32 (r_block r + 1)) (r_bytes r + bs) buf)
  end.

Definition read_last_block (inode : list Z) (r : read_state) : M S read_state :=
  if 0 <? r_len r then take_part inode 0 (r_len r) r else ret r.

(** The number of bytes and the buffer. *)
Definition ext2_read_inode (inode buf : list Z) (offset len : Z) : M S (Z * list Z) :=
  let file_size := ext2_file_len inode in
  if file_size <? offset then ret (0, buf)
  else
    let len := if file_size <=? u64 (offset + len) then file_size - offset else len in
    if len =? 0 then ret (0, buf)
    else
      let! _ := lift (div_by bs (Ret tt)) in
      let! r := read_first_block inode offset (mk_read len (u32 (offset / bs)) 0 buf) in
      let! r := read_middle_blocks (Z.to_nat (r_len r / bs)) inode r in
      let! r := read_last_block inode r in
      ret (r_bytes r, r_buf r).

(** The target of a link of 60 bytes or less lies in the inode.  The target ends
    with the zero that is written behind it. *)
Definition ext2_read_link (inode str : list Z) (len : Z) : M S (Z * list Z) :=
  let linklen := ext2_file_len inode in
  if (linklen =? 0) || (len <? u64 (linklen + 1)) then ret (ERR_NO_MEMORY, str)
  else if 60 <? linklen then
    let! (n, str) := ext2_read_inode inode str 0 linklen in
    let err := s32 n in
    if err <? 0 then ret (err, str)
    else let! str := lift (copy_to str linklen [0]) in ret (s32 linklen, str)
  else
    let! target := lift (copy_from inode 40 linklen) in
    let! str := lift (copy_to str 0 target) in
    let! str := lift (copy_to str linklen [0]) in
    ret (s32 linklen, str).
End Io.
