(* ===== verification/Ext2Spec.v ===== *)
(** * What reading an inode gives

    [ReadStore] says what the store under a mounted file system promises a caller
    that holds one block at a time.  Against it: the positions of a block pointer are
    the digits of the block's number, the walk through the tables ends at the entry
    they lead to, and a read is the bytes of the file's blocks, holes included. *)
From stdpp Require Import base list.
From S2P Require Import Prelude BlockDev BlockSpec Ext2.
#[local] Open Scope Z_scope.

(** [idle]: no block is held; [holds s b p]: block [b] is held and lies at [p].
    [vol]: what the blocks hold, [ok]: the blocks that are there. *)
Class ReadStore {S D C : Type} `{FsStore S D C} (c : C) (bsz : Z) (vol : Z -> list Z) (ok : Z -> Prop) := {
  idle : S -> Prop;
  holds : S -> Z -> Z -> Prop;
  vol_length b : ok b -> length (vol b) = Z.to_nat bsz;
  vol_bytes b : ok b -> bytes (vol b);
  read_block_law s b buf : idle s -> ok b -> bsz <= Z.of_nat (length buf) ->
    exists s', store_read_block c buf b s = (Ret (0, blit buf 0 (vol b)), s') /\ idle s';
  get_block_law s b : idle s -> ok b -> exists s' p, store_get_block c b s = (Ret (0, Some p), s') /\ holds s' b p;
  deref_law s b p : holds s b p -> store_deref p s = (Ret (vol b), s);
  put_block_law s b p : holds s b p -> exists s' e, store_put_block c b s = (Ret e, s') /\ idle s';
  alloc_law s n : idle s -> 0 <= n -> exists s' a mem, store_alloc n s = (Ret (Some (a, mem)), s') /\ length mem = Z.to_nat n /\ idle s';
  free_law s a : idle s -> exists s', store_free a s = (Ret tt, s') /\ idle s';
}.

(** ** Positions *)

(** The value of digits in base [per], the first the most significant. *)
Definition digits_value (per : Z) (ds : list Z) : Z := fold_left (fun a d => a * per + d) ds 0.
(** The blocks in front of those that [level] tables lead to. *)
Definition blocks_below (per : Z) (level : nat) : Z :=
  match level with
  | O => 0
  | 1%nat => EXT2_NDIR_BLOCKS
  | 2%nat => EXT2_NDIR_BLOCKS + per
  | 3%nat => EXT2_NDIR_BLOCKS + per + per * per
  | _ => EXT2_NDIR_BLOCKS + per + per * per + per * per * per
  end.

(** Blocks of 1024, 2048 and 4096 bytes. *)
Definition small_blocks (sb : list Z) : Prop := 0 <= e2fs_log_bsize sb <= 2.

Lemma block_size_cases sb : small_blocks sb -> E2FS_BLOCK_SIZE sb = 1024 \/ E2FS_BLOCK_SIZE sb = 2048 \/ E2FS_BLOCK_SIZE sb = 4096.
Proof.
  intros H. unfold small_blocks in H. unfold E2FS_BLOCK_SIZE.
  assert (e2fs_log_bsize sb = 0 \/ e2fs_log_bsize sb = 1 \/ e2fs_log_bsize sb = 2) as [->|[->| ->]] by lia; auto.
Qed.

Lemma addr_per_block sb : small_blocks sb -> exists per, E2FS_ADDR_PER_BLOCK sb = per /\ E2FS_BLOCK_SIZE sb = 4 * per /\
  256 <= per <= 1024 /\ per mod 2 = 0.
Proof.
  intros H. exists (E2FS_ADDR_PER_BLOCK sb). split; [done|]. unfold E2FS_ADDR_PER_BLOCK.
  by destruct (block_size_cases sb H) as [->|[->| ->]].
Qed.

Lemma u32_small x : 0 <= x < 2 ^ 32 -> u32 x = x.
Proof. apply wrapw_small. Qed.
Lemma u64_small x : 0 <= x < 2 ^ 64 -> u64 x = x.
Proof. apply wrapw_small. Qed.

Ltac unwrap := repeat first [rewrite u32_small by (split; [|]; (lia || nia)) | rewrite u64_small by (split; [|]; (lia || nia))].

(** Number and digits of every result. *)
Definition position_ok (per k : Z) (r : option (nat * list Z)) : Prop :=
  match r with
  | None => blocks_below per 4 <= k
  | Some (level, first :: digits) =>
      length digits = level /\ Forall (fun d => 0 <= d < per) digits /\ (level <= 3)%nat /\
      (if decide (level = 0%nat) then first = k /\ k < EXT2_NDIR_BLOCKS
       else first = EXT2_NDIR_BLOCKS + Z.of_nat level - 1 /\ k = blocks_below per level + digits_value per digits)
  | Some (_, []) => False
  end.

Lemma calculate_ok sb k : small_blocks sb -> 0 <= k < 2 ^ 64 ->
  position_ok (E2FS_ADDR_PER_BLOCK sb) k (ext2_calculate_block_pointer_pos sb k).
Proof.
  intros Hs Hk. destruct (addr_per_block sb Hs) as (per & Ep & _ & Hp & _). unfold ext2_calculate_block_pointer_pos. rewrite Ep.
  unfold EXT2_NDIR_BLOCKS, EXT2_IND_BLOCK, EXT2_DIND_BLOCK, EXT2_TIND_BLOCK, EXT2_IND_BLOCK, EXT2_NDIR_BLOCKS.
  destruct (Z.ltb_spec k 12); [cbn; repeat split; auto; lia|].
  rewrite (u64_small (k - 12)) by lia. destruct (Z.ltb_spec (k - 12) per).
  { cbn. unfold EXT2_NDIR_BLOCKS, digits_value. cbn. repeat split; [|lia..]. repeat constructor; lia. }
  rewrite (u64_small (k - 12 - per)) by lia. assert (Hpp : 0 < per * per <= 2 ^ 20) by nia.
  rewrite (u32_small (per * per)) by lia. destruct (Z.ltb_spec (k - 12 - per) (per * per)).
  { pose proof (Z.div_mod (k - 12 - per) per ltac:(lia)). pose proof (Z.mod_pos_bound (k - 12 - per) per ltac:(lia)).
    assert (0 <= (k - 12 - per) / per < per) by (split; [apply Z.div_pos; lia|apply Z.div_lt_upper_bound; lia]).
    rewrite !u32_small by lia. cbn. unfold EXT2_NDIR_BLOCKS, digits_value. cbn [fold_left]. repeat split; [|lia..]. repeat constructor; lia. }
  rewrite (u64_small (k - 12 - per - per * per)) by lia. assert (Hppp : 0 < per * per * per <= 2 ^ 30) by nia.
  rewrite (u32_small (per * per * per)) by lia. set (b := k - 12 - per - per * per).
  destruct (Z.ltb_spec b (per * per * per)).
  2: { cbn. unfold EXT2_NDIR_BLOCKS. lia. }
  pose proof (Z.div_mod b (per * per) ltac:(lia)). pose proof (Z.mod_pos_bound b (per * per) ltac:(lia)).
  assert (0 <= b / (per * per) < per) by (split; [apply Z.div_pos; lia|apply Z.div_lt_upper_bound; lia]).
  pose proof (Z.div_mod (b mod (per * per)) per ltac:(lia)). pose proof (Z.mod_pos_bound (b mod (per * per)) per ltac:(lia)).
  assert (0 <= b mod (per * per) / per < per) by (split; [apply Z.div_pos; lia|apply Z.div_lt_upper_bound; lia]).
  rewrite !u32_small by lia. cbn. unfold EXT2_NDIR_BLOCKS, digits_value. cbn [fold_left]. repeat split; [|lia..]. repeat constructor; lia.
Qed.

(** ** Tables *)

(** The entry of table [b] at index [i], and the walk along indices; a zero is a
    hole. *)
Section Walks.
Variable vol : Z -> list Z.

Definition entry_at (b i : Z) : Z := ld32 (vol b) (Z.to_nat (4 * i)).
Fixpoint descend (ix : list Z) (b : Z) : Z :=
  match ix with
  | [] => b
  | i :: ix => if b =? 0 then 0 else descend ix (entry_at b i)
  end.

(** Every table on the way is there and long enough. *)
Fixpoint tables_ok (ok : Z -> Prop) (bsz : Z) (ix : list Z) (b : Z) : Prop :=
  match ix with
  | [] => True
  | i :: ix => b = 0 \/ (ok b /\ 0 <= i /\ 4 * i + 4 <= bsz /\ tables_ok ok bsz ix (entry_at b i))
  end.
End Walks.

(** The indices the code uses: it steps over eight bytes in every table but the
    last. *)
Fixpoint code_indices (digits : list Z) : list Z :=
  match digits with
  | [] => []
  | [i] => [i]
  | i :: ix => 2 * i :: code_indices ix
  end.

Lemma ldn_8_4 b o : ldn 8 b o = ldn 4 b o + 2 ^ 32 * ldn 4 b (o + 4).
Proof. cbn [ldn]. rewrite !Nat.add_succ_r, Nat.add_0_r. ring. Qed.

Lemma low_half b o : bytes b -> u32 (ldn 8 b o) = ldn 4 b o.
Proof.
  intros Hb. rewrite ldn_8_4. pose proof (ldn_range 4 b o Hb) as Hr. change (256 ^ Z.of_nat 4) with (2 ^ 32) in Hr.
  unfold wrapw. rewrite Z.mul_comm, Z.mod_add by done. by apply Z.mod_small.
Qed.

Lemma field_ret n b o : 0 <= o -> o + Z.of_nat n <= Z.of_nat (length b) -> field n b o = Ret (ldn n b (Z.to_nat o)).
Proof.
  intros H0 H. unfold field. destruct (Z.leb_spec 0 o); [|lia]. by destruct (Z.leb_spec (o + Z.of_nat n) (Z.of_nat (length b))); [|lia].
Qed.

Lemma entry_range vol b i : bytes (vol b) -> 0 <= entry_at vol b i < 2 ^ 32.
Proof. intros Hb. apply (ldn_range 4 _ _ Hb). Qed.

Section Reading.
Context {S D C : Type} `{FsStore S D C} (ext2 : ext2_t D C).
Notation sb := (super_blk ext2).
Notation bs := (E2FS_BLOCK_SIZE sb).
Context (vol : Z -> list Z) (ok : Z -> Prop) `{!ReadStore (cache ext2) bs vol ok}.
Hypothesis Hsb : small_blocks sb.

Lemma bs_multiple : exists per, bs = 4 * per /\ per mod 2 = 0 /\ 0 < per.
Proof. destruct (addr_per_block sb Hsb) as (per & _ & E & Hp & Hm). exists per. lia. Qed.

(** One table on the way. *)
Lemma dig_step n l level pos i cb s : idle s -> ok cb -> cb <> 0 -> (Datatypes.S l < level)%nat -> pos !! Datatypes.S l = Some i ->
  0 <= 2 * i -> 4 * (2 * i) + 4 <= bs ->
  exists s', idle s' /\ dig ext2 (Datatypes.S n) l level pos cb s = dig ext2 n (Datatypes.S l) level pos (entry_at vol cb (2 * i)) s'.
Proof.
  intros Hi Hb Hcb Hlt Hpos H0 H1. destruct (get_block_law s cb Hi Hb) as (s1 & p & E & Hh).
  destruct (put_block_law s1 cb p Hh) as (s2 & e & E2 & Hi2). exists s2. split; [done|]. cbn [dig].
  destruct (Z.eqb_spec cb 0); [done|]. unfold bind at 1, ext2_get_block. rewrite E. change (0 <? 0) with false. cbn iota beta.
  destruct (Nat.ltb_spec (Datatypes.S l) level); [|lia].
  unfold bind at 1. rewrite (deref_law _ _ _ Hh). unfold bind at 1, lift. rewrite Hpos.
  destruct bs_multiple as (per & Ebs & Hm & Hper). pose proof (vol_length _ Hb) as Hl.
  unfold bind at 1. rewrite field_ret; [|lia|rewrite Hl, Ebs in *; change (Z.of_nat 8) with 8; Z.div_mod_to_equations; lia].
  unfold bind, ext2_put_block. rewrite E2. unfold LE32. rewrite low_half by (by apply vol_bytes). unfold entry_at.
  by replace (4 * (2 * i)) with (8 * i) by lia.
Qed.

(** The table at the end, held, unless there is a hole before. *)
Definition dug (t : Z) (r : outcome (Z * option (Z * Z)) * S) : Prop :=
  if t =? 0 then r.1 = Ret (-1, None) /\ idle r.2 else exists p, r.1 = Ret (0, Some (p, t)) /\ holds r.2 t p /\ ok t.

(** The indices left are [rest]. *)
Lemma dig_run rest : forall pre l cb s, idle s -> length pre = Datatypes.S l -> rest <> [] ->
  tables_ok vol ok bs (code_indices rest) cb ->
  dug (descend vol (removelast (code_indices rest)) cb) (dig ext2 (length rest) l (l + length rest) (pre ++ rest) cb s).
Proof.
  induction rest as [|i rest IH]; intros pre l cb s Hi Hpre Hne Hok; [done|].
  destruct (Z.eqb_spec cb 0) as [->|Hcb].
  { assert (descend vol (removelast (code_indices (i :: rest))) 0 = 0) as -> by (by destruct rest as [|j [|? ?]]). done. }
  destruct rest as [|j rest].
  - cbn in Hok. destruct Hok as [?|(Hb & H0 & H1 & _)]; [done|]. destruct (get_block_law s cb Hi Hb) as (s1 & p & E & Hh).
    cbn [code_indices removelast descend]. unfold dug. cbn [length dig].
    destruct (Z.eqb_spec cb 0); [done|]. exists p. unfold bind, ext2_get_block. rewrite E. change (0 <? 0) with false. cbn iota beta.
    by destruct (Nat.ltb_spec (Datatypes.S l) (l + 1)); [lia|].
  - change (code_indices (i :: j :: rest)) with (2 * i :: code_indices (j :: rest)) in *. cbn [tables_ok] in Hok.
    destruct Hok as [?|(Hb & H0 & H1 & Hok)]; [done|].
    assert (removelast (2 * i :: code_indices (j :: rest)) = 2 * i :: removelast (code_indices (j :: rest))) as -> by (by destruct rest).
    cbn [descend]. destruct (Z.eqb_spec cb 0); [done|].
    change (dig ext2 (length (i :: j :: rest))) with (dig ext2 (Datatypes.S (length (j :: rest)))).
    destruct (dig_step (length (j :: rest)) l (l + length (i :: j :: rest)) (pre ++ i :: j :: rest) i cb s) as (s2 & Hi2 & ->); try done.
    { cbn. lia. }
    { by rewrite <- Hpre, list_lookup_middle. }
    specialize (IH (pre ++ [i]) (Datatypes.S l) (entry_at vol cb (2 * i)) s2 Hi2). rewrite <- app_assoc in IH.
    replace (l + length (i :: j :: rest))%nat with (Datatypes.S l + length (j :: rest))%nat by (cbn; lia).
    apply IH; [by rewrite length_app, Hpre, Nat.add_1_r|done|done].
Qed.

(** ** Blocks of a file *)

(** The block of the disk the code reaches for block [k], zero for a hole: a walk along
    the indices the code uses, from the pointer in the inode.  Behind the single table
    this is not the block the format means ([format_block], [format_start] below). *)
Definition pointer (inode : list Z) (i : Z) : Z := ld32 inode (Z.to_nat (40 + 4 * i)).
Definition reached_block (inode : list Z) (k : Z) : Z :=
  match ext2_calculate_block_pointer_pos sb k with
  | Some (_, first :: digits) => descend vol (code_indices digits) (pointer inode first)
  | _ => 0
  end.

(** What the walk of the code meets is on the disk. *)
Definition block_ok (inode : list Z) (k : Z) : Prop :=
  match ext2_calculate_block_pointer_pos sb k with
  | Some (_, first :: digits) => tables_ok vol ok bs (code_indices digits) (pointer inode first) /\
      (reached_block inode k = 0 \/ ok (reached_block inode k))
  | _ => False
  end.

Lemma descend_last ix i b : descend vol (ix ++ [i]) b = (let t := descend vol ix b in if t =? 0 then 0 else entry_at vol t i).
Proof.
  revert b. induction ix as [|j ix IH]; intros b; [done|]. cbn [descend app]. destruct (Z.eqb_spec b 0); [done|]. apply IH.
Qed.

Lemma tables_last ix i b : tables_ok vol ok bs (ix ++ [i]) b -> descend vol ix b = 0 \/ (0 <= i /\ 4 * i + 4 <= bs).
Proof.
  revert b. induction ix as [|j ix IH]; intros b; cbn [descend tables_ok app].
  - intros [?|(_ & ? & ? & _)]; auto.
  - destruct (Z.eqb_spec b 0); [auto|]. intros [?|(_ & _ & _ & Hi)]; [done|]. by apply IH.
Qed.

Lemma code_indices_last ds d : exists ix, code_indices (ds ++ [d]) = ix ++ [d].
Proof.
  induction ds as [|i ds [ix E]]; [by exists []|]. exists (2 * i :: ix). cbn [app]. rewrite <- E. by destruct ds.
Qed.

Lemma table_run inode first digits s : idle s -> 0 <= first < 15 -> digits <> [] -> (length digits <= 3)%nat ->
  tables_ok vol ok bs (code_indices digits) (pointer inode first) ->
  dug (descend vol (removelast (code_indices digits)) (pointer inode first))
    (ext2_get_indirect_block_pointer_cache_block ext2 inode (length digits) (first :: digits) s).
Proof.
  intros Hi Hf Hne Hlen Hok. pose proof (dig_run digits [first] 0 (pointer inode first) s Hi eq_refl Hne Hok) as Hrun.
  unfold ext2_get_indirect_block_pointer_cache_block. destruct (Nat.ltb_spec 3 (length digits)); [lia|].
  destruct (Nat.eqb_spec (length digits) 0); [by destruct digits|]. cbn [orb]. unfold bind, lift, e2di_block. change EXT2_N_BLOCKS with 15.
  destruct (Z.leb_spec 0 first); [|lia]. destruct (Z.ltb_spec first 15); [|lia]. exact Hrun.
Qed.

Lemma file_block_run inode k s : 0 <= k < 2 ^ 64 -> idle s -> block_ok inode k ->
  exists s', file_block_to_fs_block ext2 inode k s = (Ret (reached_block inode k), s') /\ idle s'.
Proof.
  intros Hk Hi Hok. pose proof (calculate_ok sb k Hsb Hk) as Hp. unfold block_ok in Hok. unfold file_block_to_fs_block, reached_block in *.
  destruct (ext2_calculate_block_pointer_pos sb k) as [[level [|first digits]]|]; try done. cbn [default from_option id position_ok] in *. cbv beta iota.
  destruct Hp as (Hlen & Hd & Hlev & Hf). destruct Hok as [Hok _]. unfold EXT2_NDIR_BLOCKS in *.
  destruct (decide (level = 0%nat)) as [->|Hl].
  { destruct Hf as [-> Hk12]. destruct digits; [|done]. exists s. split; [|done]. unfold bind, lift, e2di_block. change EXT2_N_BLOCKS with 15.
    cbn. destruct (Z.leb_spec 0 k); [|lia]. by destruct (Z.ltb_spec k 15); [|lia]. }
  destruct (Nat.eqb_spec level 0) as [?|_]; [done|]. assert (Hne : digits <> []) by (by destruct digits).
  pose proof (table_run inode first digits s Hi ltac:(lia) Hne ltac:(lia) Hok) as Hrun. rewrite Hlen in Hrun. clear Hd Hf.
  unfold bind at 1. destruct (ext2_get_indirect_block_pointer_cache_block ext2 inode level (first :: digits) s) as [r s1].
  destruct (exists_last Hne) as (ds & d & ->). destruct (code_indices_last ds d) as [ix Eix]. rewrite Eix in *. rewrite descend_last.
  rewrite removelast_last in Hrun. pose proof (tables_last _ _ _ Hok) as Hlast. unfold dug in Hrun. cbn [fst snd] in Hrun. cbv zeta.
  set (t := descend vol ix (pointer inode first)) in *. destruct (Z.eqb_spec t 0).
  { destruct Hrun as [-> ?]. by exists s1. }
  destruct Hrun as (p & -> & Hh & Ht). destruct (put_block_law s1 t p Hh) as (s2 & e & E2 & Hi2). exists s2. split; [|done].
  change (0 <? 0) with false. cbv beta iota. unfold bind at 1. rewrite (deref_law _ _ _ Hh). unfold bind at 1, lift.
  assert ((first :: ds ++ [d]) !! level = Some d) as ->.
  { rewrite <- Hlen, length_app, Nat.add_1_r. by apply (list_lookup_middle (first :: ds)). }
  destruct Hlast as [?|[? ?]]; [done|]. pose proof (vol_length _ Ht) as Hl'.
  unfold bind at 1. rewrite field_ret; [|lia|lia]. unfold bind, ext2_put_block. by rewrite E2.
Qed.

(** ** Contents *)

(** What the code takes for block [k] of the file, and for byte [j]. *)
Definition file_block (inode : list Z) (k : Z) : list Z :=
  if reached_block inode k =? 0 then repeat 0 (Z.to_nat bs) else vol (reached_block inode k).
Definition byte_at (inode : list Z) (j : Z) : Z := ld8 (file_block inode (j / bs)) (Z.to_nat (j mod bs)).
Definition file_bytes (inode : list Z) (off n : Z) : list Z := byte_at inode <$> seqZ off n.

Lemma block_size_pos : 0 < bs <= 4096.
Proof. destruct (block_size_cases sb Hsb) as [E|[E|E]]; rewrite E; lia. Qed.

Lemma length_file_bytes inode off n : 0 <= n -> Z.of_nat (length (file_bytes inode off n)) = n.
Proof. intros. unfold file_bytes. rewrite length_fmap, length_seqZ. lia. Qed.

Lemma file_bytes_app inode off n m : 0 <= n -> 0 <= m ->
  file_bytes inode off (n + m) = file_bytes inode off n ++ file_bytes inode (off + n) m.
Proof. intros. unfold file_bytes. by rewrite seqZ_app, fmap_app. Qed.

Lemma length_file_block inode k : block_ok inode k -> length (file_block inode k) = Z.to_nat bs.
Proof.
  unfold block_ok, file_block. destruct (ext2_calculate_block_pointer_pos sb k) as [[? [|? ?]]|]; try done.
  intros [_ [->|Hok]]; [by rewrite Z.eqb_refl, repeat_length|]. destruct (reached_block inode k =? 0); [by rewrite repeat_length|by apply vol_length].
Qed.

(** A part of a block is a part of the file. *)
Lemma block_part inode k o n : block_ok inode k -> 0 <= o -> 0 <= n -> o + n <= bs ->
  slice (file_block inode k) (Z.to_nat o) (Z.to_nat n) = file_bytes inode (k * bs + o) n.
Proof.
  intros Hok Ho Hn Hle. pose proof (length_file_block inode k Hok) as Hl. pose proof block_size_pos.
  apply list_eq. intros i. unfold file_bytes. rewrite lookup_slice, list_lookup_fmap. destruct (decide (i < Z.to_nat n)%nat) as [Hlt|Hge].
  - rewrite lookup_seqZ_lt by lia. cbn. unfold byte_at.
    replace (k * bs + o + Z.of_nat i) with ((o + Z.of_nat i) + k * bs) by ring.
    rewrite Z.div_add, Z.mod_add, Z.div_small, Z.mod_small by lia. rewrite Z.add_0_l. unfold ld8.
    destruct (lookup_lt_is_Some_2 (file_block inode k) (Z.to_nat o + i)) as [x Hx]; [lia|].
    replace (Z.to_nat (o + Z.of_nat i)) with (Z.to_nat o + i)%nat by lia. by rewrite Hx.
  - by rewrite lookup_seqZ_ge by lia.
Qed.

Lemma fetch_run inode buf k s : 0 <= k < 2 ^ 64 -> idle s -> block_ok inode k -> bs <= Z.of_nat (length buf) ->
  exists s', fetch ext2 inode buf k s = (Ret (blit buf 0 (file_block inode k)), s') /\ idle s'.
Proof.
  intros Hk Hi Hok Hbuf. destruct (file_block_run inode k s Hk Hi Hok) as (s1 & E & Hi1). unfold fetch, bind at 1. rewrite E.
  unfold file_block. destruct (Z.eqb_spec (reached_block inode k) 0) as [|Hne].
  - exists s1. split; [|done]. unfold lift. by rewrite copy_to_ret by (rewrite ?repeat_length; lia).
  - assert (ok (reached_block inode k)) as Hb.
    { unfold block_ok in Hok. destruct (ext2_calculate_block_pointer_pos sb k) as [[? [|? ?]]|]; try done. by destruct Hok as [_ [?|?]]. }
    destruct (read_block_law s1 _ buf Hi1 Hb Hbuf) as (s2 & E2 & Hi2). exists s2. split; [|done]. unfold bind, ext2_read_block. by rewrite E2.
Qed.

Lemma take_blit_0 b x : take (length x) (blit b 0 x) = x.
Proof. unfold blit. rewrite take_0. cbn [app]. by rewrite take_app_length. Qed.

Lemma blit_more b x y : (length x + length y <= length b)%nat -> blit (blit b 0 x) (length x) y = blit b 0 (x ++ y).
Proof.
  intros Hl. unfold blit at 1. rewrite take_blit_0. unfold blit. rewrite !take_0. cbn [app]. rewrite <- app_assoc, length_app.
  rewrite drop_app_ge by lia. rewrite drop_drop. do 3 f_equal. lia.
Qed.

Lemma blit_all b x : length x = length b -> blit b 0 x = x.
Proof. intros H0. unfold blit. rewrite drop_ge by lia. by rewrite app_nil_r. Qed.

Lemma slice_whole b n : (length b <= n)%nat -> slice b 0 n = b.
Proof. intros. unfold slice. by rewrite drop_0, take_ge. Qed.

Lemma block_ok_small inode k : 0 <= k < 2 ^ 64 -> block_ok inode k -> k < 2 ^ 31.
Proof.
  intros Hk Hok. pose proof (calculate_ok sb k Hsb Hk) as Hp. unfold block_ok in Hok.
  destruct (addr_per_block sb Hsb) as (per & Ep & _ & Hper & _). rewrite Ep in Hp.
  destruct (ext2_calculate_block_pointer_pos sb k) as [[level [|first ds]]|]; try done. destruct Hp as (Hl & Hd & Hlev & Hf).
  destruct (decide _); [unfold EXT2_NDIR_BLOCKS in *; lia|]. destruct Hf as [_ ->]. unfold digits_value.
  destruct ds as [|d1 [|d2 [|d3 [|? ?]]]]; cbn in Hl; subst level; try (cbn in Hlev; lia);
    repeat match goal with H1 : Forall _ (_ :: _) |- _ => inversion_clear H1 end; cbn; unfold EXT2_NDIR_BLOCKS; nia.
Qed.

Section Read.
Variables (uninit : Z -> list Z) (inode buf : list Z) (off len : Z).
Hypotheses (Hoff : 0 <= off) (Hlen : 0 <= len) (Hfits : len <= Z.of_nat (length buf)) (Hend : off + len < 2 ^ 64).
Hypothesis Hblocks : forall k, off / bs <= k -> k * bs < off + len -> block_ok inode k.
Hypothesis Huninit : forall n, length (uninit n) = Z.to_nat n.

(** [n] bytes are read; the rest begins at the start of a block. *)
Definition read_up_to (n : Z) (r : read_state) : Prop :=
  0 <= n <= len /\ r_len r = len - n /\ r_bytes r = n /\ r_buf r = blit buf 0 (file_bytes inode off n).
Definition at_block (n : Z) (r : read_state) : Prop := n = len \/ off + n = r_block r * bs.

Lemma length_read_buf n r : read_up_to n r -> length (r_buf r) = length buf.
Proof. intros (? & _ & _ & ->). rewrite length_blit; [done|]. pose proof (length_file_bytes inode off n ltac:(lia)). lia. Qed.

(** More bytes behind those that are read. *)
Lemma read_more n m r blk : read_up_to n r -> 0 <= m -> n + m <= len ->
  exists b, copy_to (r_buf r) (r_bytes r) (file_bytes inode (off + n) m) = Ret b /\
    read_up_to (n + m) (mk_read (r_len r - m) blk (r_bytes r + m) b).
Proof.
  intros Hr Hm Hle. pose proof (length_read_buf n r Hr) as Hbuf. destruct Hr as (Hn & El & Eb & Ebuf).
  pose proof (length_file_bytes inode off n ltac:(lia)) as L1. pose proof (length_file_bytes inode (off + n) m ltac:(lia)) as L2.
  exists (blit buf 0 (file_bytes inode off (n + m))). split.
  - rewrite copy_to_ret by lia. rewrite Ebuf, file_bytes_app by lia. rewrite <- blit_more by lia. do 2 f_equal. lia.
  - split; [lia|]. cbn. repeat split; lia.
Qed.

Lemma take_part_run n from m r s : read_up_to n r -> idle s -> 0 <= from -> 0 <= m -> n + m <= len -> from + m <= bs ->
  0 <= r_block r < 2 ^ 64 -> block_ok inode (r_block r) -> off + n = r_block r * bs + from ->
  exists r' s', take_part uninit ext2 inode from m r s = (Ret r', s') /\ idle s' /\ read_up_to (n + m) r' /\ r_block r' = u32 (r_block r + 1).
Proof.
  intros Hr Hi Hf Hm Hle Hbs Hk Hok Hpos. pose proof block_size_pos. pose proof (length_file_block inode _ Hok) as Hl.
  destruct (fetch_run inode (uninit bs) (r_block r) s Hk Hi Hok) as (s1 & E & Hi1); [rewrite Huninit; lia|].
  destruct (read_more n m r (u32 (r_block r + 1)) Hr Hm Hle) as (b & Eb & Hr'). exists (mk_read (r_len r - m) (u32 (r_block r + 1)) (r_bytes r + m) b), s1.
  split; [|done]. unfold take_part, bind at 1. rewrite E. rewrite blit_all by (rewrite Huninit; lia).
  unfold bind at 1, lift at 1. rewrite copy_from_ret by lia. rewrite block_part by (done || lia). rewrite <- Hpos.
  unfold bind, lift. by rewrite Eb.
Qed.

Lemma block_here n k : 0 <= n < len -> off + n = k * bs -> 0 <= k < 2 ^ 31 /\ block_ok inode k.
Proof.
  intros Hn Hk. pose proof block_size_pos. assert (0 <= k) by nia. assert (Hok : block_ok inode k).
  { apply Hblocks; [|lia]. transitivity ((off + n) / bs); [apply Z.div_le_mono; lia|]. by rewrite Hk, Z.div_mul by lia. }
  split; [|done]. split; [done|]. apply (block_ok_small inode); [nia|done].
Qed.

Lemma first_run s : idle s -> 0 < len ->
  exists n r s', read_first_block uninit ext2 inode off (mk_read len (u32 (off / bs)) 0 buf) s = (Ret r, s') /\ idle s' /\
    read_up_to n r /\ at_block n r.
Proof.
  intros Hi Hpos. pose proof block_size_pos as Hb. pose proof (Z.div_mod off bs ltac:(lia)) as Hdm. pose proof (Z.mod_pos_bound off bs ltac:(lia)).
  assert (Hok : block_ok inode (off / bs)) by (apply Hblocks; [lia|nia]).
  assert (0 <= off / bs) by (apply Z.div_pos; lia).
  assert (Hk : off / bs < 2 ^ 31) by (apply (block_ok_small inode); [nia|done]). rewrite u32_small by lia.
  assert (Hr0 : read_up_to 0 (mk_read len (off / bs) 0 buf)).
  { split; [lia|]. cbn. repeat split; lia. }
  unfold read_first_block. destruct (Z.eqb_spec (off mod bs) 0) as [E|E]; cbn [negb].
  - exists 0, (mk_read len (off / bs) 0 buf), s. do 3 (split; [done|]). right. cbn. lia.
  - set (m := Z.min len (bs - off mod bs)). cbn [r_len].
    destruct (take_part_run 0 (off mod bs) m _ s Hr0 Hi) as (r & s1 & E1 & Hi1 & Hr1 & Eblk); cbn [r_block]; try (done || lia).
    exists m, r, s1. split; [exact E1|]. split; [done|]. split; [done|]. unfold at_block. rewrite Eblk. cbn [r_block]. rewrite u32_small by lia.
    subst m. lia.
Qed.

Lemma middle_run k : forall n r s, idle s -> read_up_to n r -> at_block n r -> Z.of_nat k * bs <= len - n ->
  exists r' s', read_middle_blocks ext2 k inode r s = (Ret r', s') /\ idle s' /\ read_up_to (n + Z.of_nat k * bs) r' /\
    at_block (n + Z.of_nat k * bs) r'.
Proof.
  pose proof block_size_pos as Hb. induction k as [|k IH]; intros n r s Hi Hr Hat Hk.
  { exists r, s. replace (n + Z.of_nat 0 * bs) with n by lia. done. }
  assert (Hn : n < len) by lia. destruct Hat as [?|Hat]; [lia|]. destruct (block_here n (r_block r)) as [Hblk Hok]; [destruct Hr; lia|done|].
  pose proof (length_read_buf n r Hr) as Hbuf. pose proof (length_file_block inode _ Hok) as Hl.
  destruct (fetch_run inode (slice (r_buf r) (Z.to_nat (r_bytes r)) (Z.to_nat bs)) (r_block r) s) as (s1 & E1 & Hi1); [lia|done|done| |].
  { rewrite length_slice. destruct Hr as (? & _ & Eb & _). lia. }
  destruct (read_more n bs r (r_block r + 1) Hr) as (b & Eb & Hr1); [lia|lia|].
  destruct (IH (n + bs) (mk_read (r_len r - bs) (r_block r + 1) (r_bytes r + bs) b) s1 Hi1 Hr1) as (r' & s' & E' & Hi' & Hr' & Hat').
  { right. cbn. lia. }
  { lia. }
  exists r', s'. replace (n + Z.of_nat (Datatypes.S k) * bs) with (n + bs + Z.of_nat k * bs) by lia. split; [|done].
  cbn [read_middle_blocks]. destruct Hr as (Hn' & El & Ebytes & Ebuf). unfold bind at 1, lift at 1. rewrite copy_from_ret by lia.
  unfold bind at 1. rewrite E1. rewrite blit_all by (rewrite length_slice; lia).
  pose proof (block_part inode (r_block r) 0 bs Hok ltac:(lia) ltac:(lia) ltac:(lia)) as Hp.
  rewrite Z.add_0_r, <- Hat, slice_whole in Hp by lia. rewrite Hp. unfold bind, lift. rewrite Eb. by rewrite u32_small by lia.
Qed.

Lemma last_run n r s : idle s -> read_up_to n r -> at_block n r -> len - n < bs ->
  exists r' s', read_last_block uninit ext2 inode r s = (Ret r', s') /\ idle s' /\ read_up_to len r'.
Proof.
  pose proof block_size_pos as Hb. intros Hi Hr Hat Hlt. pose proof Hr as (Hn & El & _). unfold read_last_block.
  destruct (Z.ltb_spec 0 (r_len r)) as [Hpos|Hz].
  - destruct Hat as [?|Hat]; [lia|]. destruct (block_here n (r_block r)) as [Hblk Hok]; [lia|done|].
    destruct (take_part_run n 0 (r_len r) r s Hr Hi) as (r' & s' & E & Hi' & Hr' & _); try (done || lia).
    exists r', s'. replace (n + r_len r) with len in Hr' by lia. done.
  - assert (n = len) as -> by lia. by exists r, s.
Qed.
End Read.

(** The bytes a read gives: those up to the end of the file. *)
Definition available (inode : list Z) (off len : Z) : Z := Z.min len (Z.max 0 (ext2_file_len ext2 inode - off)).

Lemma read_inode_run uninit inode buf off len s : idle s -> 0 <= off -> 0 <= len -> off + len < 2 ^ 64 -> 0 <= ext2_file_len ext2 inode < 2 ^ 64 ->
  available inode off len <= Z.of_nat (length buf) -> (forall n, length (uninit n) = Z.to_nat n) ->
  (forall k, off / bs <= k -> k * bs < off + available inode off len -> block_ok inode k) ->
  exists s', ext2_read_inode uninit ext2 inode buf off len s =
    (Ret (available inode off len, blit buf 0 (file_bytes inode off (available inode off len))), s') /\ idle s'.
Proof.
  intros Hi Hoff Hlen Hend Hsize Hfits Hun Hok. pose proof block_size_pos as Hb. unfold ext2_read_inode, available in *.
  set (sz := ext2_file_len ext2 inode) in *. rewrite u64_small by lia.
  destruct (Z.ltb_spec sz off).
  { exists s. replace (Z.min len (Z.max 0 (sz - off))) with 0 by lia. done. }
  replace (if sz <=? off + len then sz - off else len) with (Z.min len (Z.max 0 (sz - off))) by (destruct (Z.leb_spec sz (off + len)); lia).
  set (n := Z.min len (Z.max 0 (sz - off))) in *. destruct (Z.eqb_spec n 0) as [->|Hn]; [by exists s|].
  unfold bind at 1, lift at 1, div_by. destruct (Z.eqb_spec bs 0); [lia|].
  destruct (first_run uninit inode buf off n) with (s := s) as (n1 & r1 & s1 & E1 & Hi1 & Hr1 & Hat1); [done || lia ..|].
  unfold bind at 1. rewrite E1. pose proof Hr1 as (Hn1 & El1 & _). rewrite El1.
  assert (Hq : 0 <= (n - n1) / bs) by (apply Z.div_pos; lia). pose proof (Z.div_mod (n - n1) bs ltac:(lia)) as Hdm.
  pose proof (Z.mod_pos_bound (n - n1) bs ltac:(lia)) as Hm.
  destruct (middle_run inode buf off n) with (k := Z.to_nat ((n - n1) / bs)) (n := n1) (r := r1) (s := s1) as (r2 & s2 & E2 & Hi2 & Hr2 & Hat2);
    [rewrite ?Z2Nat.id by done; done || lia ..|].
  unfold bind at 1. rewrite E2. rewrite Z2Nat.id in Hr2, Hat2 by done.
  destruct (last_run uninit inode buf off n) with (n := n1 + (n - n1) / bs * bs) (r := r2) (s := s2) as (r3 & s3 & E3 & Hi3 & (_ & _ & Eb & Ebuf));
    [done || lia ..|].
  exists s3. unfold bind. rewrite E3. by rewrite Eb, Ebuf.
Qed.
End Reading.

(** ** The format *)

Section Format.
Context {S D C : Type} `{FsStore S D C} (ext2 : ext2_t D C) (vol : Z -> list Z).
Notation sb := (super_blk ext2).
Notation per := (E2FS_ADDR_PER_BLOCK sb).
Notation bs := (E2FS_BLOCK_SIZE sb).

(** The block the format means: one entry of four bytes per table. *)
Definition format_block (inode : list Z) (k : Z) : Z :=
  match ext2_calculate_block_pointer_pos sb k with
  | Some (_, first :: digits) => descend vol digits (pointer inode first)
  | _ => 0
  end.

(** The tables and the block are on the disk. *)
Definition format_ok (ok : Z -> Prop) (inode : list Z) (k : Z) : Prop :=
  match ext2_calculate_block_pointer_pos sb k with
  | Some (_, first :: digits) => tables_ok vol ok bs digits (pointer inode first) /\
      (format_block inode k = 0 \/ ok (format_block inode k))
  | _ => False
  end.

(** Block [k] of the file, zeros for a hole, and the [n] bytes from [off]. *)
Definition format_content (inode : list Z) (k : Z) : list Z :=
  if format_block inode k =? 0 then repeat 0 (Z.to_nat bs) else vol (format_block inode k).
Definition format_bytes (inode : list Z) (off n : Z) : list Z :=
  (fun j => ld8 (format_content inode (j / bs)) (Z.to_nat (j mod bs))) <$> seqZ off n.

(** In front of the second table the code uses the indices of the format. *)
Lemma first_digits k : small_blocks sb -> 0 <= k < EXT2_NDIR_BLOCKS + per ->
  exists l first ds, ext2_calculate_block_pointer_pos sb k = Some (l, first :: ds) /\ code_indices ds = ds.
Proof.
  intros Hs Hk. unfold EXT2_NDIR_BLOCKS in *. destruct (addr_per_block sb Hs) as (p & Ep & _ & Hp & _). rewrite Ep in *.
  unfold ext2_calculate_block_pointer_pos, EXT2_NDIR_BLOCKS. destruct (Z.ltb_spec k 12); [by eexists _, _, []|]. rewrite Ep, u64_small by lia.
  destruct (Z.ltb_spec (k - 12) p); [by eexists _, _, [_]|lia].
Qed.

Lemma format_start inode k : small_blocks sb -> 0 <= k < EXT2_NDIR_BLOCKS + per -> reached_block ext2 vol inode k = format_block inode k.
Proof.
  intros Hs Hk. destruct (first_digits k Hs Hk) as (l & first & ds & E & Ed). unfold reached_block, format_block. by rewrite E, Ed.
Qed.

Lemma format_start_ok ok inode k : small_blocks sb -> 0 <= k < EXT2_NDIR_BLOCKS + per -> format_ok ok inode k -> block_ok ext2 vol ok inode k.
Proof.
  intros Hs Hk. unfold block_ok, format_ok. rewrite (format_start inode k Hs Hk).
  destruct (first_digits k Hs Hk) as (l & first & ds & E & Ed). by rewrite E, Ed.
Qed.

Lemma format_start_content inode k : small_blocks sb -> 0 <= k < EXT2_NDIR_BLOCKS + per -> file_block ext2 vol inode k = format_content inode k.
Proof. intros Hs Hk. unfold file_block, format_content. by rewrite format_start. Qed.

Lemma format_start_bytes inode off n : small_blocks sb -> 0 <= off -> off + n <= (EXT2_NDIR_BLOCKS + per) * bs ->
  file_bytes ext2 vol inode off n = format_bytes inode off n.
Proof.
  intros Hs Hoff Hend. unfold file_bytes, format_bytes. apply list_fmap_ext. intros i j Hj. apply lookup_seqZ in Hj as [-> Hi].
  unfold byte_at. rewrite format_start_content; [done|done|].
  assert (0 < bs) by (destruct (block_size_cases sb Hs) as [E|[E|E]]; rewrite E; lia).
  split; [apply Z.div_pos; lia|]. apply Z.div_lt_upper_bound; lia.
Qed.

Lemma double_position a b : small_blocks sb -> 0 <= a < per -> 0 <= b < per ->
  ext2_calculate_block_pointer_pos sb (EXT2_NDIR_BLOCKS + per + a * per + b) = Some (2%nat, [EXT2_DIND_BLOCK; a; b]).
Proof.
  intros Hs Ha Hb. destruct (addr_per_block sb Hs) as (p & Ep & _ & Hp & _). rewrite Ep in *. unfold ext2_calculate_block_pointer_pos, EXT2_NDIR_BLOCKS.
  destruct (Z.ltb_spec (12 + p + a * p + b) 12); [nia|]. rewrite Ep, (u64_small (12 + p + a * p + b - 12)) by nia.
  destruct (Z.ltb_spec (12 + p + a * p + b - 12) p); [nia|]. rewrite (u64_small (12 + p + a * p + b - 12 - p)) by nia. rewrite (u32_small (p * p)) by nia.
  destruct (Z.ltb_spec (12 + p + a * p + b - 12 - p) (p * p)); [|nia].
  replace (12 + p + a * p + b - 12 - p) with (b + a * p) by lia. rewrite Z.div_add, Z.mod_add, Z.div_small, Z.mod_small by lia.
  by rewrite Z.add_0_l, !u32_small by lia.
Qed.
End Format.

(** C37.  The position of a block pointer is the number of the block, written in the
    base of the pointers a block holds: the digits are in range, as many as there are
    tables, and their value plus the blocks that need fewer tables is the number.  So
    no two blocks share a position.  A number is refused exactly when it lies behind
    the blocks that three tables reach. *)
Theorem block_positions sb k : small_blocks sb -> 0 <= k < 2 ^ 64 ->
  let per := E2FS_ADDR_PER_BLOCK sb in
  position_ok per k (ext2_calculate_block_pointer_pos sb k) /\
  (ext2_calculate_block_pointer_pos sb k = None <-> blocks_below per 4 <= k) /\
  forall k', 0 <= k' < 2 ^ 64 -> k < blocks_below per 4 -> ext2_calculate_block_pointer_pos sb k' = ext2_calculate_block_pointer_pos sb k -> k' = k.
Proof.
  intros Hs Hk per. pose proof (calculate_ok sb k Hs Hk) as Hp. fold per in Hp. split; [done|].
  assert (Hsome : k < blocks_below per 4 -> exists l first ds, ext2_calculate_block_pointer_pos sb k = Some (l, first :: ds)).
  { intros Hlt. destruct (ext2_calculate_block_pointer_pos sb k) as [[l [|first ds]]|]; [done|by eexists _, _, _|cbn [position_ok] in Hp; lia]. }
  split; [split|].
  - intros En. by rewrite En in Hp.
  - intros Hle. destruct (ext2_calculate_block_pointer_pos sb k) as [[l [|first ds]]|] eqn:Ek; [done| |done]. exfalso.
    destruct (addr_per_block sb Hs) as (p & Ep & _ & Hper & _). fold per in Ep. rewrite Ep in *.
    destruct Hp as (Hl & Hd & Hlev & Hf). cbn in Hle. unfold EXT2_NDIR_BLOCKS in *. destruct (decide (l = 0%nat)) as [->|]; [nia|].
    destruct Hf as [_ ->]. unfold digits_value in Hle. destruct ds as [|d1 [|d2 [|d3 [|? ?]]]]; cbn in Hl; subst l; try (cbn in Hlev; lia);
      repeat match goal with H1 : Forall _ (_ :: _) |- _ => inversion_clear H1 end; cbn in Hle; unfold EXT2_NDIR_BLOCKS in *; nia.
  - intros k' Hk' Hlt Eq. destruct (Hsome Hlt) as (l & first & ds & Ek). pose proof (calculate_ok sb k' Hs Hk') as Hp'. fold per in Hp'.
    rewrite Eq in Hp'. rewrite Ek in Hp, Hp'. destruct Hp as (_ & _ & _ & Hf), Hp' as (_ & _ & _ & Hf').
    destruct (decide (l = 0%nat)); [by destruct Hf as [<- _], Hf' as [<- _]|]. by destruct Hf as [_ ->], Hf' as [_ ->].
Qed.

Definition sample_sb : list Z := repeat 0 1024.

Lemma block_positions_witness : small_blocks sample_sb /\
  position_ok 256 70000 (ext2_calculate_block_pointer_pos sample_sb 70000).
Proof.
  assert (Hs : small_blocks sample_sb) by (vm_compute; split; discriminate). split; [done|].
  assert (E : E2FS_ADDR_PER_BLOCK sample_sb = 256) by (vm_compute; reflexivity).
  pose proof (block_positions sample_sb 70000 Hs ltac:(lia)) as Hp. cbv zeta in Hp. rewrite E in Hp. exact (proj1 Hp).
Defined.

(** C35.  A block of a file is mapped by following the tables.  For the direct blocks
    and those of the single table this is the mapping of the format, holes included,
    and no block stays held.  Behind them the code goes wrong: it reads the pointer
    to the second table at twice the index, and for the upper half of the indices it
    reads behind the block. *)
Theorem file_blocks_mapped {S D C} `{FsStore S D C} (ext2 : ext2_t D C) (vol : Z -> list Z) (ok : Z -> Prop)
    `{!ReadStore (cache ext2) (E2FS_BLOCK_SIZE (super_blk ext2)) vol ok} inode s :
  small_blocks (super_blk ext2) -> idle s ->
  let per := E2FS_ADDR_PER_BLOCK (super_blk ext2) in
  (forall k, 0 <= k < EXT2_NDIR_BLOCKS + per -> block_ok ext2 vol ok inode k ->
    exists s', file_block_to_fs_block ext2 inode k s = (Ret (format_block ext2 vol inode k), s') /\ idle s') /\
  (forall a b, 0 <= a < per -> 0 <= b < per -> let k := EXT2_NDIR_BLOCKS + per + a * per + b in
    format_block ext2 vol inode k = descend vol [a; b] (pointer inode EXT2_DIND_BLOCK) /\
    (block_ok ext2 vol ok inode k ->
       exists s', file_block_to_fs_block ext2 inode k s = (Ret (descend vol [2 * a; b] (pointer inode EXT2_DIND_BLOCK)), s') /\ idle s') /\
    (per <= 2 * a -> pointer inode EXT2_DIND_BLOCK <> 0 -> ok (pointer inode EXT2_DIND_BLOCK) ->
       (file_block_to_fs_block ext2 inode k s).1 = Undef)).
Proof.
  intros Hs Hi per. destruct (addr_per_block _ Hs) as (p & Ep & Ebs & Hp & _). split.
  - intros k Hk Hok. rewrite <- format_start by done. apply (file_block_run ext2 vol ok Hs); [|done|done].
    subst per. rewrite Ep in *. unfold EXT2_NDIR_BLOCKS in *. lia.
  - intros a b Ha Hb k. pose proof (double_position ext2 a b Hs Ha Hb) as Epos. fold per k in Epos. split; [|split].
    + unfold format_block. by rewrite Epos.
    + intros Hok. assert (Hk : 0 <= k < 2 ^ 64) by (subst k per; rewrite Ep in *; unfold EXT2_NDIR_BLOCKS; nia).
      destruct (file_block_run ext2 vol ok Hs inode k s Hk Hi Hok) as (s' & E & Hi'). exists s'. split; [|done]. rewrite E. unfold reached_block. by rewrite Epos.
    + intros Ha2 Hne Hd. destruct (get_block_law s _ Hi Hd) as (s1 & q & E1 & Hh). unfold file_block_to_fs_block. rewrite Epos.
      cbn [default from_option id Nat.eqb]. unfold bind at 1, ext2_get_indirect_block_pointer_cache_block. cbn [Nat.ltb Nat.leb Nat.eqb orb].
      unfold bind at 1, lift at 1. change (e2di_block inode EXT2_DIND_BLOCK) with (Ret (pointer inode EXT2_DIND_BLOCK)). unfold LE32. cbn [dig].
      destruct (Z.eqb_spec (pointer inode EXT2_DIND_BLOCK) 0); [done|]. unfold bind at 1, ext2_get_block. rewrite E1. change (0 <? 0) with false.
      cbv beta iota. cbn [Nat.ltb Nat.leb]. unfold bind at 1. rewrite (deref_law _ _ _ Hh). unfold bind at 1, lift. cbn [lookup list_lookup].
      unfold bind, field. pose proof (vol_length _ Hd) as Hl. rewrite Ebs in Hl. subst per. rewrite Ep in *.
      destruct (Z.leb_spec (8 * a + Z.of_nat 8) (Z.of_nat (length (vol (pointer inode EXT2_DIND_BLOCK))))); [lia|]. by rewrite andb_false_r.
Qed.
