(* ===== verification/Ext4.v ===== *)
(** * Ext4: files in extents, and their directories

    lib/fs/ext4/ext4.c up to [ext4_dir_lookup].  The header of a list of extents is
    the start of a byte list: the block pointers of an inode with what follows them
    there, or a block.  A buffer that is filled in place is an address and its
    content, and the content is returned. *)
From stdpp Require Import base list.
From S2P Require Import Prelude BlockDev Ext2.
#[local] Open Scope Z_scope.

Definition E4FS_EXTENTS_MAGIC : Z := 0xF30A.
Definition FLAG_EXTENTS : Z := 0x00080000.
Definition FLAG_HASHED_INDEX : Z := 0x00001000.
Definition IS_EXTENTS (flags : Z) : bool := Z.land flags FLAG_EXTENTS =? FLAG_EXTENTS.
Definition IS_HASHED_INDEX (flags : Z) : bool := Z.land flags FLAG_HASHED_INDEX =? FLAG_HASHED_INDEX.
Definition SZ_64K : Z := 65536.

(** [struct ext4_extent_header], 12 bytes, and behind it entries of 12 bytes:
    [struct ext4_extent] in a leaf, [struct ext4_extent_idx] elsewhere. *)
Definition eh_magic (h : list Z) : outcome Z := field 2 h 0.
Definition eh_entries (h : list Z) : outcome Z := field 2 h 2.
Definition eh_depth (h : list Z) : outcome Z := field 2 h 6.
Definition EXTENT_HEADER_LEN : Z := 12.

Record ext4_extent := mk_extent { ee_block : Z; ee_len : Z; ee_start_hi : Z; ee_start_lo : Z }.
Definition extent_at (h : list Z) (i : Z) : outcome ext4_extent :=
  let o := EXTENT_HEADER_LEN + 12 * i in
  let? b := field 4 h o in let? l := field 2 h (o + 4) in let? hi := field 2 h (o + 6) in let? lo := field 4 h (o + 8) in
  Ret (mk_extent b l hi lo).

(** The block the first index entry leads to. *)
Definition first_leaf (h : list Z) : outcome Z :=
  let? lo := field 4 h (EXTENT_HEADER_LEN + 4) in let? hi := field 2 h (EXTENT_HEADER_LEN + 8) in
  Ret (Z.lor (Z.shiftl hi 32) lo).

Definition validate_extents_magic (h : list Z) : outcome bool := let? m := eh_magic h in Ret (m =? E4FS_EXTENTS_MAGIC).

(** [inode->e2di_blocks] as the header of a list of extents. *)
Definition extents_of (inode : list Z) : list Z := drop 40 inode.

(** ** Directory entries *)

(** [memcmp(name, p + at, strlen(name)) == 0], byte by byte. *)
Fixpoint same_name (name p : list Z) (at_ : Z) : outcome bool :=
  match name with
  | [] => Ret true
  | c :: name => let? x := field 1 p at_ in if x =? c then same_name name p (at_ + 1) else Ret false
  end.

Definition ROUNDUP4 (x : Z) : Z := Z.land (x + 3) (Z.lnot 3).

(** The search through the entries of a block, from [pos] on: the inode number of
    the entry of that name. *)
Fixpoint find_entry (fuel : nat) (bs : Z) (buf name : list Z) (pos : Z) : outcome (option Z) :=
  if pos <? bs then
    match fuel with
    | O => Fuel
    | S fuel =>
        let? rec_len := field 2 buf (pos + 4) in
        if rec_len =? 0 then Ret None
        else
          let? name_len := field 1 buf (pos + 6) in
          let? same := (if name_len =? Z.of_nat (length name) then same_name name buf (pos + 8) else Ret false) in
          if same then let? inode := field 4 buf pos in Ret (Some (LE32 inode))
          else find_entry fuel bs buf name (u32 (pos + ROUNDUP4 rec_len))
    end
  else Ret None.

(** ** Extents *)

Section Extents.
Context {S D C : Type} `{FsStore S D C}.
Variables (ERR_GENERIC ERR_NO_MEMORY ERR_NOT_VALID ERR_NOT_FOUND ERR_NOT_DIR : Z) (ext2 : ext2_t D C).
Notation sb := (super_blk ext2).
Notation bs := (E2FS_BLOCK_SIZE sb).

(** The first extent that ends behind block [num]; zero if there is none. *)
Fixpoint find_extent (n : nat) (i : Z) (h : list Z) (num : Z) : outcome Z :=
  match n with
  | O => Ret 0
  | Datatypes.S n =>
      let? e := extent_at h i in
      if num <? u32 (ee_block e + ee_len e) then
        Ret (u64 (Z.lor (Z.shiftl (ee_start_hi e) 32) (ee_start_lo e) + u32 (num - ee_block e)))
      else find_extent n (i + 1) h num
  end.

Definition blk_addr (blk : Z) : Z := u64 (u64 (blk * bs) + fs_offset ext2).

(** The result and the buffer. *)
Definition extents_blk_lookup (h : list Z) (num addr : Z) (buf : list Z) : M S (Z * list Z) :=
  let! entries := lift (eh_entries h) in
  let! blk_num := lift (find_extent (Z.to_nat entries) 0 h num) in
  let! r := code (store_device_read (dev ext2) addr buf (blk_addr blk_num) bs) in
  match r with inl buf => ret (0, buf) | inr _ => ret (ERR_GENERIC, buf) end.

Definition get_extents_blk (inode : list Z) (num addr : Z) (buf : list Z) : M S (Z * list Z) :=
  let h := extents_of inode in
  let! depth := lift (eh_depth h) in
  if 0 <? depth then
    let! leaf := lift (first_leaf h) in
    let! buf2 := store_memalign SZ_64K bs in
    match buf2 with
    | None => ret (ERR_NO_MEMORY, buf)
    | Some (addr2, data) =>
        let! r := code (store_device_read (dev ext2) addr2 data (blk_addr leaf) bs) in
        match r with
        | inr _ => store_free addr2 ;;; ret (ERR_GENERIC, buf)
        | inl data =>
            let! (_, buf) := extents_blk_lookup data num addr buf in
            store_free addr2 ;;; ret (0, buf)
        end
    end
  else let! (_, buf) := extents_blk_lookup h num addr buf in ret (0, buf).

(** A read into the buffer from byte [off] on. *)
Definition read_at (addr : Z) (buf : list Z) (off from n : Z) : M S (list Z) :=
  let! part := lift (copy_from buf off n) in
  let! part := store_device_read (dev ext2) (u64 (addr + off)) part from n in
  lift (copy_to buf off part).

(** What [ext4_read_extent] knows between extents: [bytes_read], the place of the
    last extent and its length, and the buffer. *)
Record extent_state := mk_extents { x_bytes : Z; x_at : Z; x_len : Z; x_buf : list Z }.

Fixpoint read_extents (n : nat) (i : Z) (h : list Z) (addr base : Z) (x : extent_state) : M S (Z * extent_state) :=
  match n with
  | O => ret (0, x)
  | Datatypes.S n =>
      let! e := lift (extent_at h i) in
      let at_ := u32 (ee_block e * bs) in
      let n_bytes := u32 (ee_len e * bs) in
      let! r := code (read_at addr (x_buf x) (base + at_) (blk_addr (Z.lor (Z.shiftl (ee_start_hi e) 32) (ee_start_lo e))) n_bytes) in
      match r with
      | inr _ => ret (ERR_GENERIC, mk_extents (x_bytes x) at_ n_bytes (x_buf x))
      | inl buf => read_extents n (i + 1) h addr base (mk_extents (u64 (x_bytes x + n_bytes)) at_ n_bytes buf)
      end
  end.

(** The list of extents [h] is read into the buffer from byte [base] on.  The
    result, [*total_bytes_read], which an error leaves alone, and the buffer. *)
Definition ext4_read_extent (h : list Z) (addr base : Z) (buf : list Z) (total : Z) : M S (Z * Z * list Z) :=
  let! entries := lift (eh_entries h) in
  let! (err, x) := read_extents (Z.to_nat entries) 0 h addr base (mk_extents 0 0 0 buf) in
  if err =? 0 then ret (0, if x_at x =? 0 then x_bytes x else u64 (x_at x + x_len x), x_buf x)
  else ret (err, total, x_buf x).

(** [err], [bytes_read], [total_bytes_read], the distance of [buf_ptr] from the start,
    and the buffer. *)
Record data_state := mk_data { d_err : Z; d_read : Z; d_total : Z; d_base : Z; d_buf : list Z }.

(** [n] bytes in blocks, rounded up. *)
Definition in_blocks (n : Z) : Z := u32 (u32 (n / bs) + (if negb (n mod bs =? 0) then 1 else 0)).

(** A list of extents is read behind what is there; [true] when that is more than
    the file has. *)
Definition read_node (h : list Z) (addr len : Z) (d : data_state) : M S (bool * data_state) :=
  let! (err, bytes_read, buf) := ext4_read_extent h addr (d_base d) (d_buf d) (d_read d) in
  let total := u64 (d_total d + bytes_read) in
  let base := u64 (d_base d + bytes_read) in
  if negb (len =? 0) && (in_blocks len <? in_blocks total)
  then ret (true, mk_data ERR_NOT_VALID bytes_read total base buf)
  else ret (false, mk_data err bytes_read total base buf).

(** The index node: for every entry its first one is read again, and the buffer for
    the node is kept. *)
Fixpoint read_index (n : nat) (h : list Z) (addr len : Z) (d : data_state) : M S data_state :=
  match n with
  | O => ret d
  | Datatypes.S n =>
      let fail (e : Z) := ret (mk_data e (d_read d) (d_total d) (d_base d) (d_buf d)) in
      let! leaf := lift (first_leaf h) in
      let! buf2 := store_memalign SZ_64K bs in
      match buf2 with
      | None => fail ERR_NO_MEMORY
      | Some (addr2, data) =>
          let! r := code (store_device_read (dev ext2) addr2 data (blk_addr leaf) bs) in
          match r with
          | inr _ => fail ERR_GENERIC
          | inl data =>
              let! (stop, d) := read_node data addr len d in
              if stop then ret d else read_index n h addr len d
          end
      end
  end.

(** The number of bytes or an error, and the buffer. *)
Definition ext4_read_data_from_extent (inode : list Z) (addr : Z) (buf : list Z) (len : Z) : M S (Z * list Z) :=
  let h := extents_of inode in
  let! valid := lift (validate_extents_magic h) in
  if negb valid then ret (if ERR_NOT_VALID <? 0 then ERR_NOT_VALID else 0, buf)
  else
    let! _ := lift (div_by bs (Ret tt)) in
    let! depth := lift (eh_depth h) in
    let! entries := lift (eh_entries h) in
    let d := mk_data 0 0 0 0 buf in
    let! d := (if 0 <? depth then read_index (Z.to_nat entries) h addr len d
               else let! (_, d) := read_node h addr len d in ret d) in
    ret (if d_err d <? 0 then d_err d else s64 (d_total d), d_buf d).

(** ** Directories *)

Definition DX_ROOT_LEN : Z := 40.

(** The blocks of the hash entries, one after the other. *)
Fixpoint search_blocks (blocks : list Z) (inode name : list Z) (addr : Z) (buf : list Z) : M S (Z * option Z * list Z) :=
  match blocks with
  | [] => ret (ERR_NOT_FOUND, None, buf)
  | b :: blocks =>
      let! buf := lift (copy_to buf 0 (repeat 0 (Z.to_nat bs))) in
      let! (err, buf) := get_extents_blk inode b addr buf in
      if negb (err =? 0) then ret (err, None, buf)
      else
        let! found := lift (find_entry (Z.to_nat bs) bs buf name 0) in
        match found with
        | Some inum => ret (0, Some inum, buf)
        | None => search_blocks blocks inode name addr buf
        end
  end.

(** [entry[0 .. n - 1].block] *)
Definition entry_blocks (entries : list Z) (n : Z) : outcome (list Z) :=
  if 8 * n <=? Z.of_nat (length entries) then Ret ((fun i => ld32 entries (8 * i + 4)) <$> seq 0 (Z.to_nat n)) else Undef.

(** The result, [*inum] when it is written, and the buffer. *)
Definition lookup_hashed_dir (dir_inode name : list Z) (addr : Z) (buf : list Z) : M S (Z * option Z * list Z) :=
  let! (err, buf) := get_extents_blk dir_inode 0 addr buf in
  if negb (err =? 0) then ret (err, None, buf)
  else
    let! count := lift (field 2 buf 34) in
    let! block := lift (field 4 buf 36) in
    let! entry := store_alloc (u64 (count * 8)) in
    match entry with
    | None => ret (ERR_NO_MEMORY, None, buf)
    | Some (a, mem) =>
        let! mem := lift (copy_to mem 0 (le 4 0 ++ le 4 block)) in
        let! rest := lift (copy_from buf DX_ROOT_LEN (u64 (u32 (count - 1) * 8))) in
        let! mem := lift (copy_to mem 8 rest) in
        let! blocks := lift (entry_blocks mem count) in
        let! r := search_blocks blocks dir_inode name addr buf in
        store_free a ;;; ret r
    end.

(** Every turn reads the whole directory into the buffer of one block and searches
    the first block. *)
Fixpoint linear_turns (n : nat) (dir_inode name : list Z) (addr : Z) (buf : list Z) : M S (Z * option Z * list Z) :=
  match n with
  | O => ret (-1, None, buf)
  | Datatypes.S n =>
      let! (size, buf) := ext4_read_data_from_extent dir_inode addr buf 0 in
      let err := s32 size in
      if err <=? 0 then ret (-1, None, buf)
      else
        let! found := lift (find_entry (Z.to_nat bs) bs buf name 0) in
        match found with
        | Some inum => ret (err, Some inum, buf)
        | None => linear_turns n dir_inode name addr buf
        end
  end.

Definition lookup_linear_dir (dir_inode name : list Z) (addr : Z) (buf : list Z) : M S (Z * option Z * list Z) :=
  linear_turns 1025 dir_inode name addr buf.

(** The result, and [*inum] when it is written. *)
Definition ext4_dir_lookup (dir_inode name : list Z) : M S (Z * option Z) :=
  if negb (S_ISDIR (e2di_mode dir_inode)) then ret (ERR_NOT_DIR, None)
  else
    let! valid := lift (validate_extents_magic (extents_of dir_inode)) in
    if negb valid then ret (ERR_NOT_VALID, None)
    else
      let! buf := store_memalign SZ_64K bs in
      match buf with
      | None => ret (ERR_NO_MEMORY, None)
      | Some (addr, mem) =>
          let! (err, inum, _) := (if IS_HASHED_INDEX (e2di_flags dir_inode) then lookup_hashed_dir dir_inode name addr mem
                                  else lookup_linear_dir dir_inode name addr mem) in
          store_free addr ;;; ret (err, inum)
      end.
End Extents.
