(* ===== verification/ExtDir.v ===== *)
(** * Directories, paths, files and mounts of ext2 and ext4

    lib/fs/ext2/dir.c, file.c and the mounts of ext2.c and ext4.c.  A string is the
    list of characters before its zero.  A handle is the structure it points to;
    where it is released its address is an argument. *)
From stdpp Require Import base list.
From S2P Require Import Prelude BlockDev FsPath Ext2 Ext4.
#[local] Open Scope Z_scope.

(** The error codes, from a header outside the repository. *)
Record fs_errors := mk_errors {
  ERR_GENERIC : Z; ERR_NOT_FOUND : Z; ERR_NO_MEMORY : Z; ERR_NOT_VALID : Z; ERR_NOT_DIR : Z; ERR_RECURSE_TOO_DEEP : Z;
}.

Definition EXT2_T_LEN : Z := 1224.
Definition EXT2_FILE_LEN : Z := 216.
Definition EXT2F_ROCOMPAT_SPARSESUPER : Z := 1.
(** The features [ext4_mount] lets pass. *)
Definition EXT4_ROCOMPAT : Z := Z.lor 0x1 (Z.lor 0x2 (Z.lor 0x8 (Z.lor 0x10 (Z.lor 0x20 (Z.lor 0x40 0x400))))).

(** [ext2_file_t] *)
Record ext2_file_t (D C : Type) := mk_file { f_ext2 : ext2_t D C; ind_cache : list (Z * Z); f_inode : list Z }.
Arguments mk_file {D C}. Arguments f_ext2 {D C}. Arguments ind_cache {D C}. Arguments f_inode {D C}.

Section Ext.
Context {S D C : Type} `{FsStore S D C}.
Variables (E : fs_errors) (uninit : Z -> list Z).

Section Paths.
Variable ext2 : ext2_t D C.
Notation sb := (super_blk ext2).
Notation bs := (E2FS_BLOCK_SIZE sb).

(** ** Directories *)

(** The blocks of the directory, [n] turns left. *)
Fixpoint search_dir (n : nat) (dir_inode name : list Z) (file_blocknum : Z) (buf : list Z) : M S (Z * option Z) :=
  match n with
  | O => ret (-1, None)
  | Datatypes.S n =>
      let! (size, buf) := ext2_read_inode uninit ext2 dir_inode buf (u32 (file_blocknum * bs)) bs in
      if s32 size <=? 0 then ret (-1, None)
      else
        let! found := lift (find_entry (Z.to_nat bs) bs buf name 0) in
        match found with
        | Some inum => ret (1, Some inum)
        | None => search_dir n dir_inode name (file_blocknum + 1) buf
        end
  end.

Definition ext2_dir_lookup (dir_inode name : list Z) : M S (Z * option Z) :=
  if negb (S_ISDIR (e2di_mode dir_inode)) then ret (ERR_NOT_DIR E, None)
  else
    let! buf := store_alloc bs in
    match buf with
    | None => ret (ERR_NO_MEMORY E, None)
    | Some (a, mem) => let! r := search_dir 1025 dir_inode name 0 mem in store_free a ;;; ret r
    end.

(** The directory's format chooses the search. *)
Definition dir_lookup (dir_inode name : list Z) : M S (Z * option Z) :=
  if IS_EXTENTS (e2di_flags dir_inode)
  then ext4_dir_lookup (ERR_GENERIC E) (ERR_NO_MEMORY E) (ERR_NOT_VALID E) (ERR_NOT_FOUND E) (ERR_NOT_DIR E) ext2 dir_inode name
  else ext2_dir_lookup dir_inode name.

(** ** Paths *)


(** The first component, and what is behind the separator if there is one. *)
Fixpoint split_component (path : list Z) : list Z * option (list Z) :=
  match path with
  | [] => ([], None)
  | c :: r => if c =? slash then ([], Some r) else let '(a, b) := split_component r in (c :: a, b)
  end.

(** [walk start path] is a walk one level deeper.  The components from [ptr] on;
    behind a link the rest of the path is walked, which has to be there. *)
Fixpoint walk_components (fuel : nat) (walk : list Z -> list Z -> M S (Z * option Z)) (ptr dir_inode : list Z) (inum : option Z) :
    M S (Z * option Z) :=
  match fuel with
  | O => nofuel
  | Datatypes.S fuel =>
      let '(name, rest) := split_component ptr in
      let! (err, found) := dir_lookup dir_inode name in
      let inum := match found with Some i => Some i | None => inum end in
      if err <? 0 then ret (err, inum)
      else
        match inum with
        | None => undef
        | Some i =>
            let! (err, inode) := ext2_load_inode ext2 i in
            if err <? 0 then ret (err, inum)
            else
              match inode with
              | None => undef
              | Some inode =>
                  if S_ISLNK (e2di_mode inode) then
                    let! (err, link) := ext2_read_link (ERR_NO_MEMORY E) uninit ext2 inode (uninit 512) 512 in
                    if err <? 0 then ret (err, inum)
                    else
                      match rest with
                      | None => undef
                      | Some rest =>
                          let! (err, found) := walk (skip slash rest) (if default 0 (head link) =? slash then root_inode ext2 else dir_inode) in
                          let inum := match found with Some i => Some i | None => inum end in
                          if err <? 0 then ret (err, inum) else ret (0, inum)
                      end
                  else
                    match rest with
                    | None => ret (0, inum)
                    | Some rest =>
                        if S_ISDIR (e2di_mode inode) then walk_components fuel walk (skip slash rest) inode inum
                        else ret (ERR_NOT_FOUND E, inum)
                    end
              end
        end
  end.

(** [n] more levels are allowed. *)
Fixpoint ext2_walk (n : nat) (path start_inode : list Z) : M S (Z * option Z) :=
  match n with
  | O => ret (ERR_RECURSE_TOO_DEEP E, None)
  | Datatypes.S n => walk_components (Datatypes.S (length path)) (ext2_walk n) (skip slash path) start_inode None
  end.

(** [recurse] counts from one, and five is too deep. *)
Definition ext2_lookup (path : list Z) : M S (Z * option Z) := ext2_walk 4 (take 511 path) (root_inode ext2).

(** ** Files *)

Definition no_ind_cache : list (Z * Z) := [(0, 0); (0, 0); (0, 0)].

(** The result and the handle with its address. *)
Definition ext2_open_file (path : list Z) : M S (Z * option (Z * ext2_file_t D C)) :=
  let! (err, inum) := ext2_lookup path in
  if err <? 0 then ret (err, None)
  else
    match inum with
    | None => undef
    | Some inum =>
        let! file := store_alloc EXT2_FILE_LEN in
        match file with
        | None => ret (ERR_NO_MEMORY E, None)
        | Some (a, _) =>
            let! (err, inode) := ext2_load_inode ext2 inum in
            if err <? 0 then store_free a ;;; ret (err, None)
            else match inode with
                 | None => undef
                 | Some inode => ret (0, Some (a, mk_file ext2 no_ind_cache inode))
                 end
        end
    end.

(** [ext4_open_file] returns the result of loading the inode, and finds inode zero
    when the lookup writes none. *)
Definition ext4_open_file (path : list Z) : M S (Z * option (Z * ext2_file_t D C)) :=
  let! (err, inum) := ext2_lookup path in
  if err <? 0 then ret (err, None)
  else
    let! file := store_alloc EXT2_FILE_LEN in
    match file with
    | None => ret (ERR_NO_MEMORY E, None)
    | Some (a, _) =>
        let! (err, inode) := ext2_load_inode ext2 (default 0 inum) in
        if err <? 0 then store_free a ;;; ret (err, None)
        else match inode with
             | None => undef
             | Some inode => ret (err, Some (a, mk_file ext2 no_ind_cache inode))
             end
    end.
End Paths.

(** The result, which is an [int] on the way, and the buffer. *)
Definition ext2_read_file (file : ext2_file_t D C) (buf : list Z) (offset len : Z) : M S (Z * list Z) :=
  if len =? 0 then ret (-1, buf)
  else if negb (S_ISREG (e2di_mode (f_inode file))) then ret (-1, buf)
  else let! (n, buf) := ext2_read_inode uninit (f_ext2 file) (f_inode file) buf offset len in ret (s32 n, buf).

Definition ext4_read_file (file : ext2_file_t D C) (addr : Z) (buf : list Z) (offset len : Z) : M S (Z * list Z) :=
  if len =? 0 then ret (-1, buf)
  else if negb (offset =? 0) then ret (-1, buf)
  else if negb (S_ISREG (e2di_mode (f_inode file))) then ret (-1, buf)
  else ext4_read_data_from_extent (ERR_GENERIC E) (ERR_NO_MEMORY E) (ERR_NOT_VALID E) (f_ext2 file) (f_inode file) addr buf len.

Fixpoint free_ind_cache (l : list (Z * Z)) : M S unit :=
  match l with
  | [] => ret tt
  | (num, p) :: l => (if negb (num =? 0) then store_free p else ret tt) ;;; free_ind_cache l
  end.

Definition ext2_close_file (a : Z) (file : ext2_file_t D C) : M S Z :=
  free_ind_cache (ind_cache file) ;;; store_free a ;;; ret 0.

(** [stat->size] and [stat->is_dir]. *)
Definition ext2_stat_file (file : ext2_file_t D C) : Z * bool :=
  (ext2_file_len (f_ext2 file) (f_inode file), S_ISDIR (e2di_mode (f_inode file))).

(** ** Mounts *)

(** [ext2_endian_swap_group_desc] of the descriptor at [o]. *)
Definition swap_desc_at (o : Z) (descs : list Z) : outcome (list Z) :=
  if o + 18 <=? Z.of_nat (length descs)
  then Ret (take (Z.to_nat o) descs ++ ext2_endian_swap_group_desc (drop (Z.to_nat o) descs)) else Undef.

(** [n] descriptors, [stride] bytes apart. *)
Fixpoint swap_descs (n : nat) (i stride : Z) (descs : list Z) : outcome (list Z) :=
  match n with
  | O => Ret descs
  | Datatypes.S n => let? descs := swap_desc_at (i * stride) descs in swap_descs n (i + 1) stride descs
  end.

Definition group_count_of (sb : list Z) : outcome Z :=
  div_by (e2fs_bpg sb) (Ret (s32 (u32 (e2fs_bcount sb + e2fs_bpg sb - 1) / e2fs_bpg sb))).

Definition gd_size_of (sb : list Z) : Z := if 32 <? e3fs_desc_size sb then E2FS_64BIT_GD_SIZE else E2FS_GD_SIZE.
Definition gd_offset_of (sb : list Z) : Z := if E2FS_BLOCK_SIZE sb =? 4096 then 4096 else 2048.

(** The end of both mounts: the cache and the root inode. *)
Definition finish_mount (dev : D) (sb : list Z) (count gd_at : Z) (descs : list Z) (fs_offset : Z) (fail : Z -> M S (Z * option (ext2_t D C))) :
    M S (Z * option (ext2_t D C)) :=
  let! cache := store_create dev (E2FS_BLOCK_SIZE sb) 4 fs_offset in
  match cache with
  | None => fail (ERR_GENERIC E)
  | Some cache =>
      let e := mk_ext2 dev cache sb count gd_at descs [] fs_offset in
      let! (err, root) := ext2_load_inode e EXT2_ROOTINO in
      if err <? 0 then fail err
      else match root with
           | None => undef
           | Some root => ret (0, Some (mk_ext2 dev cache sb count gd_at descs root fs_offset))
           end
  end.

(** The result and the cookie with its address.  A superblock that is not accepted
    is answered without the cleanup. *)
Definition ext2_mount (dev : option D) (start_sector : Z) : M S (Z * option (Z * ext2_t D C)) :=
  match dev with
  | None => ret (ERR_NOT_FOUND E, None)
  | Some dev =>
      let! mem := store_alloc EXT2_T_LEN in
      match mem with
      | None => ret (ERR_NO_MEMORY E, None)
      | Some (a, mem) =>
          let fail e := store_free a ;;; ret (e, None) in
          let fs_offset := u64 (start_sector * store_sector dev) in
          let! r := code (store_device_read dev (a + 16) (slice mem 16 1024) (u64 (fs_offset + 1024)) SUPER_BLOCK_LEN) in
          match r with
          | inr _ => fail (ERR_GENERIC E)
          | inl sb =>
              let sb := ext2_endian_swap_superblock sb in
              if negb (e2fs_magic sb =? E2FS_MAGIC) then ret (-1, None)
              else
                let! count := lift (group_count_of sb) in
                if E2FS_REV1 <? e2fs_rev sb then ret (-2, None)
                else if truthy (Z.land (e2fs_features_rocompat sb) (Z.lnot (Z.lor EXT2F_ROCOMPAT_SPARSESUPER EXT2F_ROCOMPAT_LARGEFILE)))
                then ret (-3, None)
                else
                  let size := u32 (gd_size_of sb * count) in
                  let! gd := store_alloc size in
                  match gd with
                  | None => fail (ERR_NO_MEMORY E)
                  | Some (gd_at, descs) =>
                      let! r := code (store_device_read dev gd_at descs (u64 (fs_offset + gd_offset_of sb)) size) in
                      match r with
                      | inr _ => fail (ERR_GENERIC E)
                      | inl descs =>
                          let! descs := lift (swap_descs (Z.to_nat count) 0 E2FS_64BIT_GD_SIZE descs) in
                          let! (err, e) := finish_mount dev sb count gd_at descs fs_offset (fun e => store_free a ;;; ret (e, None)) in
                          ret (err, (fun e => (a, e)) <$> e)
                      end
                  end
          end
      end
  end.

(** The buffer for the superblock is kept when the mount succeeds; it is [NULL]
    when there was no memory for it. *)
Definition ext4_mount (dev : option D) (start_sector : Z) : M S (Z * option (Z * ext2_t D C)) :=
  match dev with
  | None => ret (ERR_NOT_FOUND E, None)
  | Some dev =>
      let! mem := store_alloc EXT2_T_LEN in
      match mem with
      | None => ret (ERR_NO_MEMORY E, None)
      | Some (a, _) =>
          let! buf := store_memalign SZ_64K SUPER_BLOCK_LEN in
          match buf with
          | None => store_free a ;;; ret (ERR_NO_MEMORY E, None)
          | Some (b, mem) =>
              let fail e := store_free b ;;; store_free a ;;; ret (e, None) in
              let! mem := lift (copy_to mem 0 (repeat 0 (Z.to_nat SUPER_BLOCK_LEN))) in
              let fs_offset := u64 (start_sector * store_sector dev) in
              let! r := code (store_device_read dev b mem (u64 (fs_offset + 1024)) SUPER_BLOCK_LEN) in
              match r with
              | inr _ => fail (ERR_GENERIC E)
              | inl mem =>
                  let! sb := lift (copy_from mem 0 SUPER_BLOCK_LEN) in
                  let sb := ext2_endian_swap_superblock sb in
                  if negb (e2fs_magic sb =? E2FS_MAGIC) then fail (-1)
                  else
                    let! count := lift (group_count_of sb) in
                    if E2FS_REV1 <? e2fs_rev sb then fail (-2)
                    else if truthy (Z.land (e2fs_features_rocompat sb) (Z.lnot EXT4_ROCOMPAT)) then fail (-3)
                    else
                      let size := u64 (gd_size_of sb * u64 count) in
                      let! gd := store_memalign SZ_64K size in
                      match gd with
                      | None => fail (ERR_NO_MEMORY E)
                      | Some (gd_at, descs) =>
                          let! r := code (store_device_read dev gd_at descs (u64 (fs_offset + gd_offset_of sb)) size) in
                          match r with
                          | inr _ => fail (ERR_GENERIC E)
                          | inl descs =>
                              let! descs := lift (swap_descs (Z.to_nat count) 0 (gd_size_of sb) descs) in
                              let! (err, e) := finish_mount dev sb count gd_at descs fs_offset
                                                 (fun e => store_free b ;;; store_free a ;;; ret (e, None)) in
                              ret (err, (fun e => (a, e)) <$> e)
                          end
                      end
              end
          end
      end
  end.

Definition ext2_unmount (a : Z) (ext2 : ext2_t D C) : M S Z :=
  store_destroy (cache ext2) ;;; store_free (grp_desc_at ext2) ;;; store_free a ;;; ret 0.

(** ** Finding out what is there *)

Definition EXT2F_INCOMPAT_EXTENTS : Z := 0x0040.
Definition ext2_name : list Z := [101; 120; 116; 50].
Definition ext4_name : list Z := [101; 120; 116; 52].

(** [addr] and [buf] are the superblock of the local [ext2]. *)
Definition fs_detect (addr : Z) (buf : list Z) (dev : D) (start_sector : Z) : M S (option (list Z)) :=
  let offset := u64 (u64 (start_sector * store_sector dev) + 1024) in
  let! r := code (store_device_read dev addr buf offset SUPER_BLOCK_LEN) in
  match r with
  | inr _ => ret None
  | inl sb =>
      if e2fs_magic sb =? E2FS_MAGIC then
        ret (Some (if truthy (Z.land (e2fs_features_incompat sb) EXT2F_INCOMPAT_EXTENTS) then ext4_name else ext2_name))
      else ret None
  end.
End Ext.
