(* ===== verification/ExtDirSpec.v ===== *)
(** * Directories and paths

    What the entries of a directory are, as a list of names with their inodes; that
    the lookup is the search in that list; and that walking a path without links is
    looking up its components one after the other. *)
From stdpp Require Import base list.
From S2P Require Import Prelude BlockDev BlockSpec FsPath FsPathSpec Ext2 Ext2Spec Ext4 ExtDir.
#[local] Open Scope Z_scope.

(** ** Entries *)

(** An entry on the disk: what is behind the name up to the next entry is [pad]. *)
Record dirent := mk_dirent { d_ino : Z; d_type : Z; d_name : list Z; d_pad : list Z }.
Definition rec_len (e : dirent) : Z := 8 + Z.of_nat (length (d_name e) + length (d_pad e)).
Definition encode (e : dirent) : list Z :=
  le 4 (d_ino e) ++ le 2 (rec_len e) ++ [Z.of_nat (length (d_name e)); d_type e] ++ d_name e ++ d_pad e.
Definition entry_ok (e : dirent) : Prop :=
  in_word 32 (d_ino e) /\ (length (d_name e) < 256)%nat /\ rec_len e mod 4 = 0 /\ rec_len e < 2 ^ 16 /\ bytes (d_name e).

(** The inode of the first entry with the name. *)
Fixpoint first_entry (name : list Z) (es : list dirent) : option Z :=
  match es with
  | [] => None
  | e :: es => if bool_decide (d_name e = name) then Some (d_ino e) else first_entry name es
  end.

(** The entries fill the block. *)
Definition encodes (bs : Z) (es : list dirent) (block : list Z) : Prop :=
  Forall entry_ok es /\ block = concat (map encode es) /\ Z.of_nat (length block) = bs.

Lemma length_encode e : Z.of_nat (length (encode e)) = rec_len e.
Proof. unfold encode, rec_len. rewrite !length_app, !length_le. cbn. lia. Qed.

Lemma field_app n pre l o : field n (pre ++ l) (Z.of_nat (length pre) + Z.of_nat o) =
  (if (o + n <=? length l)%nat then Ret (ldn n l o) else Undef).
Proof.
  unfold field. rewrite length_app. destruct (Z.leb_spec 0 (Z.of_nat (length pre) + Z.of_nat o)); [|lia]. cbn [andb].
  rewrite <- Nat2Z.inj_add, Nat2Z.id, ldn_app.
  destruct (Z.leb_spec (Z.of_nat (length pre + o) + Z.of_nat n) (Z.of_nat (length pre + length l))); destruct (Nat.leb_spec (o + n) (length l)); lia || done.
Qed.

Lemma same_name_app name p rest : forall pre, same_name name (pre ++ p ++ rest) (Z.of_nat (length pre)) = Ret (bool_decide (name = p)) \/ length name <> length p.
Proof.
  revert p. induction name as [|c name IH]; intros [|x p] pre; cbn [length]; try (right; lia); [left; done|].
  destruct (IH p (pre ++ [x])) as [IH'|]; [left|right; lia]. cbn [same_name app].
  pose proof (field_app 1 pre (x :: p ++ rest) 0) as Hf. rewrite Z.add_0_r in Hf. rewrite Hf. cbn.
  rewrite <- app_assoc, length_app, Nat2Z.inj_add in IH'. cbn [app length Z.of_nat] in IH'. rewrite Z.mul_0_r, Z.add_0_r.
  unfold ld8. cbn. destruct (Z.eqb_spec x c) as [->|Hne].
  - change (Z.of_nat 1) with 1 in IH'. rewrite IH'. f_equal. apply bool_decide_ext. split; [by intros ->|by intros [=]].
  - f_equal. rewrite bool_decide_false; [done|]. by intros [= -> _].
Qed.

Lemma roundup4 x : 0 <= x -> x mod 4 = 0 -> ROUNDUP4 x = x.
Proof.
  intros Hx Hm. unfold ROUNDUP4. change (Z.lnot 3) with (Z.lnot (Z.ones 2)). rewrite <- Z.ldiff_land, Z.ldiff_ones_r by lia.
  rewrite Z.shiftr_div_pow2, Z.shiftl_mul_pow2 by lia. change (2 ^ 2) with 4. Z.div_mod_to_equations. lia.
Qed.

(** Reading the entry behind [pre]. *)
Section Entry.
Variables (pre rest : list Z) (e : dirent).
Hypothesis Hok : entry_ok e.
Notation buf := (pre ++ encode e ++ rest).
Notation pos := (Z.of_nat (length pre)).

Lemma entry_len : field 2 buf (pos + 4) = Ret (rec_len e).
Proof.
  pose proof (field_app 2 pre (encode e ++ rest) 4) as Hf. change (Z.of_nat 4) with 4 in Hf. rewrite Hf.
  destruct (Nat.leb_spec (4 + 2) (length (encode e ++ rest))) as [_|Hl].
  2: { rewrite length_app in Hl. pose proof (length_encode e). unfold rec_len in *. lia. }
  unfold encode. rewrite <- !app_assoc. pose proof (fun c => ldn_field 2 (le 4 (d_ino e)) (rec_len e) c) as Hx. rewrite length_le in Hx.
  rewrite Hx. destruct Hok as (_ & _ & _ & Hr & _).
  rewrite Z.mod_small; [done|]. unfold rec_len in *. change (256 ^ Z.of_nat 2) with (2 ^ 16). lia.
Qed.

Lemma entry_name_len : field 1 buf (pos + 6) = Ret (Z.of_nat (length (d_name e))).
Proof.
  pose proof (field_app 1 pre (encode e ++ rest) 6) as Hf. change (Z.of_nat 6) with 6 in Hf. rewrite Hf.
  destruct (Nat.leb_spec (6 + 1) (length (encode e ++ rest))) as [_|Hl].
  2: { rewrite length_app in Hl. pose proof (length_encode e). unfold rec_len in *. lia. }
  unfold encode. rewrite <- !app_assoc. rewrite (app_assoc (le 4 _)).
  assert (length (le 4 (d_ino e) ++ le 2 (rec_len e)) = 6%nat) as Hl by (by rewrite length_app, !length_le).
  pose proof (fun c => ldn_app 1 (le 4 (d_ino e) ++ le 2 (rec_len e)) c 0) as Hx. rewrite Hl in Hx. rewrite Hx.
  unfold ldn, ld8. cbn. f_equal. lia.
Qed.

Lemma entry_name name : length name = length (d_name e) -> same_name name buf (pos + 8) = Ret (bool_decide (name = d_name e)).
Proof.
  intros Hl. unfold encode. rewrite <- !app_assoc.
  set (h := pre ++ le 4 (d_ino e) ++ le 2 (rec_len e) ++ [Z.of_nat (length (d_name e)); d_type e]).
  assert (Hh : pos + 8 = Z.of_nat (length h)) by (subst h; rewrite !length_app, !length_le; cbn; lia). rewrite Hh.
  assert (pre ++ le 4 (d_ino e) ++ le 2 (rec_len e) ++ [Z.of_nat (length (d_name e)); d_type e] ++ d_name e ++ d_pad e ++ rest =
    h ++ d_name e ++ (d_pad e ++ rest)) as -> by (subst h; by rewrite <- !app_assoc).
  by destruct (same_name_app name (d_name e) (d_pad e ++ rest) h).
Qed.

Lemma entry_ino : field 4 buf pos = Ret (d_ino e).
Proof.
  pose proof (field_app 4 pre (encode e ++ rest) 0) as Hf. rewrite Z.add_0_r in Hf. rewrite Hf.
  destruct (Nat.leb_spec (0 + 4) (length (encode e ++ rest))) as [_|Hl].
  2: { rewrite length_app in Hl. pose proof (length_encode e). unfold rec_len in *. lia. }
  unfold encode. rewrite <- !app_assoc, ldn_le. destruct Hok as (Hi & _). by rewrite Z.mod_small.
Qed.
End Entry.

(** The search in a block is the search in its entries. *)
Lemma find_entry_from bs es name : forall pre fuel, Forall entry_ok es ->
  Z.of_nat (length pre) + Z.of_nat (length (concat (map encode es))) = bs -> bs < 2 ^ 32 -> (length es <= fuel)%nat ->
  find_entry fuel bs (pre ++ concat (map encode es)) name (Z.of_nat (length pre)) = Ret (first_entry name es).
Proof.
  induction es as [|e es IH]; intros pre fuel Hok Hlen Hbs Hfuel.
  { cbn in Hlen. destruct fuel; cbn; destruct (Z.ltb_spec (Z.of_nat (length pre)) bs); lia || done. }
  inversion_clear Hok as [|? ? He Hes]. cbn [map concat] in *. rewrite length_app in Hlen. pose proof (length_encode e) as Hle.
  destruct fuel as [|fuel]; [cbn in Hfuel; lia|]. pose proof He as (_ & Hname & Hm & Hr & _). assert (8 <= rec_len e) by (unfold rec_len; lia).
  cbn [find_entry]. destruct (Z.ltb_spec (Z.of_nat (length pre)) bs); [|lia].
  rewrite entry_len by done. cbn [obind]. destruct (Z.eqb_spec (rec_len e) 0); [lia|]. rewrite entry_name_len by done. cbn [obind first_entry].
  destruct (Z.eqb_spec (Z.of_nat (length (d_name e))) (Z.of_nat (length name))) as [El|El].
  - rewrite entry_name by (done || lia). cbn [obind]. rewrite (bool_decide_ext (d_name e = name) (name = d_name e)) by done.
    case_bool_decide as En; [by rewrite entry_ino|]. rewrite roundup4, wrapw_small by (done || unfold in_word; lia).
    specialize (IH (pre ++ encode e) fuel Hes). rewrite length_app, Nat2Z.inj_add, <- app_assoc, Hle in IH. apply IH; [lia|done|cbn in Hfuel; lia].
  - cbn [obind]. rewrite bool_decide_false by (intros En; by rewrite En in El). rewrite roundup4, wrapw_small by (done || unfold in_word; lia).
    specialize (IH (pre ++ encode e) fuel Hes). rewrite length_app, Nat2Z.inj_add, <- app_assoc, Hle in IH. apply IH; [lia|done|cbn in Hfuel; lia].
Qed.

Lemma entries_fit es : Forall entry_ok es -> (8 * length es <= length (concat (map encode es)))%nat.
Proof.
  induction 1 as [|e es He _ IH]; [done|]. cbn [map concat length]. rewrite length_app. pose proof (length_encode e). unfold rec_len in *. lia.
Qed.

Lemma find_entry_block bs es block name : encodes bs es block -> bs < 2 ^ 32 ->
  find_entry (Z.to_nat bs) bs block name 0 = Ret (first_entry name es).
Proof.
  intros (Hok & -> & Hl) Hbs. pose proof (entries_fit es Hok). apply (find_entry_from bs es name [] (Z.to_nat bs)); cbn; try done; lia.
Qed.

(** ** Storing what is there *)

Lemma st8_ld8 b o : bytes b -> st8 b o (ld8 b o) = b.
Proof.
  intros Hb. unfold st8. pose proof (ld8_byte b o Hb) as Hr. rewrite Z.mod_small by exact Hr. unfold ld8.
  destruct (b !! o) as [x|] eqn:Ex; cbn; [by apply list_insert_id|]. apply list_insert_ge. by apply lookup_ge_None.
Qed.

Lemma stn_ldn n : forall b o, bytes b -> stn n b o (ldn n b o) = b.
Proof.
  induction n as [|n IH]; intros b o Hb; [done|]. cbn [stn ldn]. pose proof (ld8_byte b o Hb) as Hr. unfold is_byte in Hr.
  assert (st8 b o (ld8 b o + 256 * ldn n b (Datatypes.S o)) = b) as ->.
  { transitivity (st8 b o (ld8 b o)); [|by apply st8_ld8]. unfold st8. f_equal. rewrite Z.mul_comm. by apply Z.mod_add. }
  replace ((ld8 b o + 256 * ldn n b (Datatypes.S o)) / 256) with (ldn n b (Datatypes.S o)) by (Z.div_mod_to_equations; lia). by apply IH.
Qed.

Lemma swap_id fs b : bytes b -> Forall (fun f => forall b, bytes b -> f b = b) fs -> swap fs b = b.
Proof. intros Hb Hf. unfold swap. induction Hf as [|f fs Hx _ IH]; [done|]. cbn. by rewrite Hx. Qed.

Lemma swap_inode_id b : bytes b -> ext2_endian_swap_inode b = b.
Proof. intros Hb. apply swap_id; [done|]. repeat constructor; intros c Hc; by apply stn_ldn. Qed.
Lemma swap_superblock_id b : bytes b -> ext2_endian_swap_superblock b = b.
Proof. intros Hb. apply swap_id; [done|]. repeat constructor; intros c Hc; by apply stn_ldn. Qed.
Lemma swap_desc_id b : bytes b -> ext2_endian_swap_group_desc b = b.
Proof. intros Hb. apply swap_id; [done|]. repeat constructor; intros c Hc; by apply stn_ldn. Qed.

(** ** On a mounted file system *)

Section Tree.
Context {S D C : Type} `{FsStore S D C} (E : fs_errors) (ext2 : ext2_t D C) (uninit : Z -> list Z).
Notation sb := (super_blk ext2).
Notation bs := (E2FS_BLOCK_SIZE sb).
Context (vol : Z -> list Z) (ok : Z -> Prop) `{!ReadStore (cache ext2) bs vol ok}.
Hypotheses (Hsb : small_blocks sb) (Huninit : forall n, length (uninit n) = Z.to_nat n).

(** An inode in a block that is there. *)
Definition inode_is (i : Z) (inode : list Z) : Prop :=
  exists b o, get_inode_addr ext2 i = Ret (b, o) /\ ok b /\ 0 <= o /\ o + DINODE_LEN <= bs /\ inode = slice (vol b) (Z.to_nat o) (Z.to_nat DINODE_LEN).

Lemma load_inode_run i inode s : idle s -> inode_is i inode ->
  exists s', ext2_load_inode ext2 i s = (Ret (0, Some inode), s') /\ idle s'.
Proof.
  intros Hi (b & o & Ea & Hb & Ho & Hle & ->). destruct (get_block_law s b Hi Hb) as (s1 & p & E1 & Hh).
  destruct (put_block_law s1 b p Hh) as (s2 & e & E2 & Hi2). exists s2. split; [|done]. unfold ext2_load_inode.
  unfold bind at 1, lift at 1. rewrite Ea. unfold bind at 1, ext2_get_block. rewrite E1. change (0 <? 0) with false. cbv beta iota.
  unfold bind at 1. rewrite (deref_law _ _ _ Hh). pose proof (vol_length _ Hb). pose proof (block_size_pos ext2 Hsb). unfold DINODE_LEN in *.
  unfold bind at 1, lift at 1. rewrite copy_from_ret by lia. unfold bind, ext2_put_block. rewrite E2.
  by rewrite swap_inode_id by (by apply bytes_slice, vol_bytes).
Qed.

(** A directory in plain blocks, and its entries in the blocks the code reads. *)
Definition dir_is (inode : list Z) (blocks : list (list dirent)) : Prop :=
  S_ISDIR (e2di_mode inode) = true /\ IS_EXTENTS (e2di_flags inode) = false /\
  ext2_file_len ext2 inode = Z.of_nat (length blocks) * bs /\ Z.of_nat (length blocks) < 2 ^ 32 /\
  forall k es, blocks !! k = Some es -> block_ok ext2 vol ok inode (Z.of_nat k) /\ encodes bs es (file_block ext2 vol inode (Z.of_nat k)).

(** The search looks at 1025 blocks. *)
Definition in_dir (blocks : list (list dirent)) (name : list Z) : option Z := first_entry name (concat (take 1025 blocks)).

Lemma first_entry_app name l l' : first_entry name (l ++ l') = match first_entry name l with Some i => Some i | None => first_entry name l' end.
Proof. induction l as [|e l IH]; [done|]. cbn. by case_bool_decide. Qed.

Lemma search_dir_run inode blocks name : dir_is inode blocks -> forall n k buf s, idle s -> length buf = Z.to_nat bs -> (k + n <= 1025)%nat -> (k <= length blocks)%nat ->
  exists s', search_dir uninit ext2 n inode name (Z.of_nat k) buf s =
    (Ret (match first_entry name (concat (take n (drop k blocks))) with Some i => (1, Some i) | None => (-1, None) end), s') /\ idle s'.
Proof.
  intros (_ & _ & Hlen & Hmax & Hblocks). pose proof (block_size_pos ext2 Hsb) as Hb. induction n as [|n IH]; intros k buf s Hi Hbuf Hn Hk; [by exists s|].
  cbn [search_dir]. rewrite u32_small by nia.
  assert (Hin : forall j, Z.of_nat k * bs / bs <= j -> j * bs < Z.of_nat k * bs + available ext2 inode (Z.of_nat k * bs) bs ->
    block_ok ext2 vol ok inode j).
  { unfold available. rewrite Hlen, Z.div_mul by lia. intros j Hj1 Hj2. assert (j = Z.of_nat k /\ (k < length blocks)%nat) as [-> Hlt] by nia.
    destruct (lookup_lt_is_Some_2 blocks k Hlt) as [es Ek]. by apply (Hblocks k es). }
  destruct (read_inode_run ext2 vol ok Hsb uninit inode buf (Z.of_nat k * bs) bs s Hi ltac:(nia) ltac:(lia) ltac:(nia) ltac:(rewrite Hlen; nia)
    ltac:(unfold available; lia) Huninit Hin) as (s1 & E1 & Hi1).
  unfold bind at 1. rewrite E1. unfold available. rewrite Hlen.
  destruct (decide (k < length blocks)%nat) as [Hlt|Hge].
  - destruct (lookup_lt_is_Some_2 blocks k Hlt) as [es Ek]. destruct (Hblocks k es Ek) as [Hok Henc].
    replace (Z.min bs (Z.max 0 (Z.of_nat (length blocks) * bs - Z.of_nat k * bs))) with bs by nia.
    assert (s32 bs = bs) as ->.
    { unfold signedw. rewrite wrapw_small by (unfold in_word; lia). destruct (Z.ltb_spec bs (2 ^ (32 - 1))); lia. }
    destruct (Z.leb_spec bs 0); [lia|]. pose proof (block_part ext2 vol ok Hsb inode (Z.of_nat k) 0 bs Hok ltac:(lia) ltac:(lia) ltac:(lia)) as Hp.
    pose proof (length_file_block ext2 vol ok inode _ Hok) as Hl. rewrite Z.add_0_r, slice_whole in Hp by lia. rewrite <- Hp.
    rewrite blit_all by lia. unfold bind at 1, lift. rewrite (find_entry_block bs es _ name Henc) by lia.
    rewrite (drop_S _ _ _ Ek). cbn [take concat]. rewrite first_entry_app.
    destruct (first_entry name es) as [i|]; [by exists s1|].
    destruct (IH (Datatypes.S k) (file_block ext2 vol inode (Z.of_nat k)) s1 Hi1 Hl ltac:(lia) ltac:(lia)) as (s2 & E2 & Hi2).
    exists s2. split; [|done]. replace (Z.of_nat k + 1) with (Z.of_nat (Datatypes.S k)) by lia. exact E2.
  - assert (k = length blocks) as -> by lia. rewrite Z.sub_diag. rewrite Z.max_id, Z.min_r by lia. rewrite drop_all, take_nil. by exists s1.
Qed.

Lemma dir_lookup_run inode blocks name s : idle s -> dir_is inode blocks ->
  exists s', dir_lookup E uninit ext2 inode name s =
    (Ret (match in_dir blocks name with Some i => (1, Some i) | None => (-1, None) end), s') /\ idle s'.
Proof.
  intros Hi Hdir. pose proof (block_size_pos ext2 Hsb) as Hb. pose proof Hdir as (Hd & Hx & _). unfold dir_lookup. rewrite Hx.
  unfold ext2_dir_lookup. rewrite Hd. cbn [negb]. destruct (alloc_law s bs Hi ltac:(lia)) as (s1 & a & mem & E1 & Hm & Hi1).
  destruct (search_dir_run inode blocks name Hdir 1025 0 mem s1 Hi1 Hm ltac:(lia) ltac:(lia)) as (s2 & E2 & Hi2). rewrite drop_0 in E2.
  destruct (free_law s2 a Hi2) as (s3 & E3 & Hi3). exists s3. split; [|done]. unfold bind at 1. rewrite E1. unfold bind at 1.
  change (Z.of_nat 0) with 0 in E2. rewrite E2. unfold bind. by rewrite E3.
Qed.

(** ** Walking a path *)

(** What looking up the components one after the other gives, where [is_dir] says which
    inodes are directories with which entries: an inode, or the error of the first step
    that fails.  Links are not part of it. *)
Inductive finds_in (is_dir : list Z -> list (list dirent) -> Prop) : list Z -> list (list Z) -> Z + Z -> Prop :=
| finds_missing dir blocks c cs : is_dir dir blocks -> in_dir blocks c = None -> finds_in is_dir dir (c :: cs) (inr (-1))
| finds_last dir blocks c i inode : is_dir dir blocks -> in_dir blocks c = Some i -> inode_is i inode ->
    S_ISLNK (e2di_mode inode) = false -> finds_in is_dir dir [c] (inl i)
| finds_nondir dir blocks c c' cs i inode : is_dir dir blocks -> in_dir blocks c = Some i -> inode_is i inode ->
    S_ISLNK (e2di_mode inode) = false -> S_ISDIR (e2di_mode inode) = false -> finds_in is_dir dir (c :: c' :: cs) (inr (ERR_NOT_FOUND E))
| finds_step dir blocks c c' cs i inode r : is_dir dir blocks -> in_dir blocks c = Some i -> inode_is i inode ->
    S_ISLNK (e2di_mode inode) = false -> S_ISDIR (e2di_mode inode) = true -> finds_in is_dir inode (c' :: cs) r ->
    finds_in is_dir dir (c :: c' :: cs) r.
Definition finds : list Z -> list (list Z) -> Z + Z -> Prop := finds_in dir_is.

Lemma finds_in_mono (P Q : list Z -> list (list dirent) -> Prop) dir cs r : (forall i b, P i b -> Q i b) -> finds_in P dir cs r -> finds_in Q dir cs r.
Proof using.
  intros HPQ. induction 1; [eapply finds_missing|eapply finds_last|eapply finds_nondir|eapply finds_step]; by eauto.
Qed.

(** A directory the way the format lays it out, in the blocks in front of the second
    table. *)
Definition format_dir (inode : list Z) (blocks : list (list dirent)) : Prop :=
  S_ISDIR (e2di_mode inode) = true /\ IS_EXTENTS (e2di_flags inode) = false /\
  ext2_file_len ext2 inode = Z.of_nat (length blocks) * bs /\ Z.of_nat (length blocks) <= EXT2_NDIR_BLOCKS + E2FS_ADDR_PER_BLOCK sb /\
  forall k es, blocks !! k = Some es -> format_ok ext2 vol ok inode (Z.of_nat k) /\ encodes bs es (format_content ext2 vol inode (Z.of_nat k)).

Lemma format_dir_is inode blocks : format_dir inode blocks -> dir_is inode blocks.
Proof using Hsb.
  intros (Hd & Hx & Hl & Hn & Hb). destruct (addr_per_block sb Hsb) as (p & Ep & _ & Hp & _). unfold EXT2_NDIR_BLOCKS in *.
  split; [done|]. split; [done|]. split; [done|]. split; [lia|]. intros k es Hk. destruct (Hb k es Hk) as [Hok He].
  pose proof (lookup_lt_Some _ _ _ Hk). assert (Hlt : 0 <= Z.of_nat k < EXT2_NDIR_BLOCKS + E2FS_ADDR_PER_BLOCK sb) by (unfold EXT2_NDIR_BLOCKS; lia).
  rewrite format_start_content by done. split; [by apply format_start_ok|done].
Qed.

(** A directory of one direct block. *)
Lemma one_format_block inode blk size es : S_ISDIR (e2di_mode inode) = true -> IS_EXTENTS (e2di_flags inode) = false ->
  ext2_file_len ext2 inode = size -> bs = size -> pointer inode 0 = blk -> blk <> 0 -> ok blk -> 0 < size ->
  encodes size es (vol blk) -> format_dir inode [es].
Proof using Hsb.
  intros Hd Hx Hl Hbs Hp Hne Hv Hpos He. destruct (addr_per_block sb Hsb) as (p & Ep & _ & Hper & _).
  split; [done|]. split; [done|]. rewrite Hl, Hbs. cbn [length]. split; [lia|]. split; [unfold EXT2_NDIR_BLOCKS; lia|].
  intros k es' Hk. apply list_lookup_singleton_Some in Hk as [-> <-]. unfold format_ok, format_content.
  assert (format_block ext2 vol inode (Z.of_nat 0) = blk) as -> by exact Hp. destruct (Z.eqb_spec blk 0); [done|]. split; [|done].
  split; [exact I|by right].
Qed.

(** The components with a separator between them. *)
Fixpoint joined (cs : list (list Z)) : list Z :=
  match cs with
  | [] => []
  | [c] => c
  | c :: cs => c ++ slash :: joined cs
  end.

Lemma split_last c : clean c -> split_component c = (c, None).
Proof.
  intros [_ Hc]. induction Hc as [|x c Hx _ IH]; [done|]. cbn. destruct (Z.eqb_spec x slash); [done|]. by rewrite IH.
Qed.
Lemma split_first c r : clean c -> split_component (c ++ slash :: r) = (c, Some r).
Proof.
  intros [_ Hc]. induction Hc as [|x c Hx _ IH]; [done|]. cbn. destruct (Z.eqb_spec x slash); [done|]. by rewrite IH.
Qed.
Lemma skip_clean c r : clean c -> skip slash (c ++ r) = c ++ r.
Proof. intros [Hne Hc]. destruct Hc as [|x c Hx _]; [done|]. cbn. by destruct (Z.eqb_spec x slash). Qed.
Lemma joined_start c cs : exists r, joined (c :: cs) = c ++ r.
Proof. destruct cs; [exists []; by rewrite app_nil_r|by eexists]. Qed.
Lemma joined_long cs : Forall clean cs -> (length cs <= length (joined cs))%nat.
Proof.
  induction 1 as [|c cs [Hne _] _ IH]; [done|]. destruct c as [|x c]; [done|]. destruct cs as [|c' cs]; [cbn; lia|].
  change (joined ((x :: c) :: c' :: cs)) with ((x :: c) ++ slash :: joined (c' :: cs)). rewrite length_app. cbn [length] in *. lia.
Qed.

(** The result of a walk. *)
Definition walked (r : Z + Z) (o : outcome (Z * option Z)) : Prop :=
  match r with inl i => o = Ret (0, Some i) | inr e => exists i, o = Ret (e, i) end.

Lemma walk_run walk dir cs r : finds dir cs r -> Forall clean cs -> forall fuel inum s, idle s -> (length cs <= fuel)%nat ->
  exists o s', walk_components E uninit ext2 fuel walk (joined cs) dir inum s = (o, s') /\ idle s' /\ walked r o.
Proof.
  induction 1 as [dir blocks c cs Hd Hn|dir blocks c i inode Hd Hn Hino Hlnk|dir blocks c c' cs i inode Hd Hn Hino Hlnk Hnd|
    dir blocks c c' cs i inode r Hd Hn Hino Hlnk Hdir _ IH]; intros Hc fuel inum s Hi Hf; inversion_clear Hc as [|? ? Hc1 Hcs];
    destruct fuel as [|fuel]; try (cbn in Hf; lia).
  - destruct (dir_lookup_run dir blocks c s Hi Hd) as (s1 & E1 & Hi1). rewrite Hn in E1. eexists _, s1. split; [|split; [done|by eexists]].
    cbn [walk_components]. destruct cs as [|c' cs]; cbn [joined]; rewrite ?split_last, ?split_first by done; cbv beta iota; unfold bind; by rewrite E1.
  - destruct (dir_lookup_run dir blocks c s Hi Hd) as (s1 & E1 & Hi1). rewrite Hn in E1.
    destruct (load_inode_run i inode s1 Hi1 Hino) as (s2 & E2 & Hi2). exists (Ret (0, Some i)), s2. split; [|done].
    cbn [walk_components joined]. rewrite split_last by done. cbv beta iota. unfold bind at 1. rewrite E1. change (1 <? 0) with false. cbv beta iota.
    unfold bind at 1. rewrite E2. change (0 <? 0) with false. cbv beta iota. by rewrite Hlnk.
  - destruct (dir_lookup_run dir blocks c s Hi Hd) as (s1 & E1 & Hi1). rewrite Hn in E1.
    destruct (load_inode_run i inode s1 Hi1 Hino) as (s2 & E2 & Hi2). eexists _, s2. split; [|split; [done|by eexists]].
    cbn [walk_components]. change (joined (c :: c' :: cs)) with (c ++ slash :: joined (c' :: cs)).
    rewrite split_first by done. cbv beta iota. unfold bind at 1. rewrite E1. change (1 <? 0) with false. cbv beta iota.
    unfold bind at 1. rewrite E2. change (0 <? 0) with false. cbv beta iota. by rewrite Hlnk, Hnd.
  - destruct (dir_lookup_run dir blocks c s Hi Hd) as (s1 & E1 & Hi1). rewrite Hn in E1.
    destruct (load_inode_run i inode s1 Hi1 Hino) as (s2 & E2 & Hi2).
    destruct (IH Hcs fuel (Some i) s2 Hi2 ltac:(cbn [length] in Hf |- *; lia)) as (o & s3 & E3 & Hi3 & Ho). exists o, s3. split; [|done].
    cbn [walk_components]. change (joined (c :: c' :: cs)) with (c ++ slash :: joined (c' :: cs)).
    rewrite split_first by done. cbv beta iota. unfold bind at 1. rewrite E1. change (1 <? 0) with false. cbv beta iota.
    unfold bind at 1. rewrite E2. change (0 <? 0) with false. cbv beta iota. rewrite Hlnk, Hdir.
    destruct (joined_start c' cs) as [rest Ej]. rewrite Ej in *. inversion_clear Hcs. by rewrite skip_clean.
Qed.

Lemma lookup_run cs r s : cs <> [] -> Forall clean cs -> (length (joined cs) < 511)%nat -> finds (root_inode ext2) cs r -> idle s ->
  exists o s', ext2_lookup E uninit ext2 (slash :: joined cs) s = (o, s') /\ idle s' /\ walked r o.
Proof.
  intros Hne Hc Hl Hf Hi. unfold ext2_lookup. rewrite take_ge by (cbn; lia). cbn [ext2_walk skip]. rewrite Z.eqb_refl.
  destruct cs as [|c cs]; [done|]. destruct (joined_start c cs) as [rest Ej].
  assert (skip slash (joined (c :: cs)) = joined (c :: cs)) as -> by (rewrite Ej; inversion_clear Hc; by apply skip_clean).
  apply walk_run; [done|done|done|]. pose proof (joined_long _ Hc). cbn [length] in *. lia.
Qed.

Lemma open_file_run cs i inode s : cs <> [] -> Forall clean cs -> (length (joined cs) < 511)%nat -> finds (root_inode ext2) cs (inl i) ->
  inode_is i inode -> idle s ->
  exists s' a, ext2_open_file E uninit ext2 (slash :: joined cs) s = (Ret (0, Some (a, mk_file ext2 no_ind_cache inode)), s') /\ idle s'.
Proof.
  intros Hne Hc Hl Hf Hino Hi. destruct (lookup_run cs (inl i) s Hne Hc Hl Hf Hi) as (o & s1 & E1 & Hi1 & ->).
  destruct (alloc_law s1 EXT2_FILE_LEN Hi1 ltac:(done)) as (s2 & a & mem & E2 & _ & Hi2). destruct (load_inode_run i inode s2 Hi2 Hino) as (s3 & E3 & Hi3).
  exists s3, a. split; [|done]. unfold ext2_open_file, bind at 1. rewrite E1. change (0 <? 0) with false. cbv beta iota.
  unfold bind at 1. rewrite E2. unfold bind. rewrite E3. reflexivity.
Qed.

(** A file is opened and read. *)
Definition open_and_read (path buf : list Z) (off len : Z) : M S (Z * list Z) :=
  let! (err, f) := ext2_open_file E uninit ext2 path in
  match f with
  | Some (_, f) => ext2_read_file uninit f buf off len
  | None => ret (err, buf)
  end.

Lemma open_and_read_run cs i inode buf off len s : cs <> [] -> Forall clean cs -> (length (joined cs) < 511)%nat ->
  finds (root_inode ext2) cs (inl i) -> inode_is i inode -> S_ISREG (e2di_mode inode) = true -> idle s ->
  0 <= off -> 0 < len -> off + len < 2 ^ 64 -> 0 <= ext2_file_len ext2 inode < 2 ^ 64 ->
  let n := available ext2 inode off len in
  n <= Z.of_nat (length buf) -> n < 2 ^ 31 -> (forall k, off / bs <= k -> k * bs < off + n -> block_ok ext2 vol ok inode k) ->
  exists s', open_and_read (slash :: joined cs) buf off len s = (Ret (n, blit buf 0 (file_bytes ext2 vol inode off n)), s') /\ idle s'.
Proof.
  intros Hne Hc Hl Hf Hino Hreg Hi Hoff Hlen Hend Hsz n Hn Hmax Hok.
  destruct (open_file_run cs i inode s Hne Hc Hl Hf Hino Hi) as (s1 & a & E1 & Hi1).
  destruct (read_inode_run ext2 vol ok Hsb uninit inode buf off len s1 Hi1 Hoff ltac:(lia) Hend Hsz Hn Huninit Hok) as (s2 & E2 & Hi2).
  exists s2. split; [|done]. unfold open_and_read, bind at 1. rewrite E1. unfold ext2_read_file. cbn [f_inode f_ext2].
  destruct (Z.eqb_spec len 0); [lia|]. rewrite Hreg. cbn [negb]. unfold bind. rewrite E2. fold n.
  assert (s32 n = n) as ->; [|done]. assert (0 <= n) by (subst n; unfold available; lia).
  unfold signedw. rewrite wrapw_small by (unfold in_word; lia). destruct (Z.ltb_spec n (2 ^ (32 - 1))); lia.
Qed.
End Tree.

(** C34.  Walking a path is looking up its components one after the other, from the
    root, each in the list of the entries of its directory, block after block: the
    result is the inode the last one leads to, or the error of the first step that
    fails, a name that is missing or a component that is no directory.  There are no
    links on the way. *)
Theorem path_resolves {S D C} `{FsStore S D C} (E : fs_errors) (ext2 : ext2_t D C) (uninit : Z -> list Z) (vol : Z -> list Z) (ok : Z -> Prop)
    `{!ReadStore (cache ext2) (E2FS_BLOCK_SIZE (super_blk ext2)) vol ok} cs r s :
  small_blocks (super_blk ext2) -> (forall n, length (uninit n) = Z.to_nat n) -> idle s ->
  cs <> [] -> Forall clean cs -> (length (joined cs) < 511)%nat -> finds E ext2 vol ok (root_inode ext2) cs r ->
  exists s', idle s' /\
    match r with
    | inl i => ext2_lookup E uninit ext2 (slash :: joined cs) s = (Ret (0, Some i), s')
    | inr err => exists inum, ext2_lookup E uninit ext2 (slash :: joined cs) s = (Ret (err, inum), s')
    end.
Proof.
  intros Hs Hu Hi Hne Hc Hl Hf. destruct (lookup_run E ext2 uninit vol ok Hs Hu cs r s Hne Hc Hl Hf Hi) as (o & s' & Er & Hi' & Hw).
  exists s'. split; [done|]. destruct r as [i|err]; cbn in Hw; [by rewrite Er, Hw|]. destruct Hw as [inum ->]. by exists inum.
Qed.
