(* ===== verification/Ext4Spec.v ===== *)
(** * Files and directories in extents

    What reading through the extents of an inode does: where the extents follow one
    another it lays their blocks one after the other into the buffer, all of them,
    whatever length was asked for. *)
From stdpp Require Import base list.
From S2P Require Import Prelude BlockDev BlockSpec Ext2 Ext2Spec FsPath FsPathSpec Ext4 ExtDir ExtDirSpec.
#[local] Open Scope Z_scope.

(** The device under a mounted file system reads what [image] holds; the heap gives
    aligned memory.  [quiet]: the states between calls. *)
Class ReadDevice {S D C : Type} `{FsStore S D C} (d : D) (quiet : S -> Prop) (image : list Z) := {
  device_read_law s addr buf from n : quiet s -> 0 < addr -> 0 <= from -> 0 < n -> from + n <= Z.of_nat (length image) ->
    n <= Z.of_nat (length buf) ->
    exists s', store_device_read d addr buf from n s = (Ret (blit buf 0 (slice image (Z.to_nat from) (Z.to_nat n))), s') /\ quiet s';
  memalign_law s al n : quiet s -> 0 < n < 2 ^ 32 -> exists s' a mem, store_memalign al n s = (Ret (Some (a, mem)), s') /\
    length mem = Z.to_nat n /\ 0 < a /\ a + n < 2 ^ 64 /\ quiet s';
  release_law s a : quiet s -> exists s', store_free a s = (Ret tt, s') /\ quiet s';
}.

(** A list of extents, and extents without a gap from block [b] on. *)
Definition extents_are (h : list Z) (es : list ext4_extent) : Prop :=
  eh_entries h = Ret (Z.of_nat (length es)) /\ forall i e, es !! i = Some e -> extent_at h (Z.of_nat i) = Ret e.
Fixpoint follow (b : Z) (es : list ext4_extent) : Prop :=
  match es with
  | [] => True
  | e :: es => ee_block e = b /\ 0 < ee_len e /\ follow (b + ee_len e) es
  end.
Definition ee_start (e : ext4_extent) : Z := Z.lor (Z.shiftl (ee_start_hi e) 32) (ee_start_lo e).
Definition covers (e : ext4_extent) (num : Z) : Prop := ee_block e <= num < ee_block e + ee_len e.
Definition total_len (es : list ext4_extent) : Z := fold_right (fun e n => ee_len e + n) 0 es.

Lemma follow_len b es : follow b es -> 0 <= total_len es.
Proof. revert b. induction es as [|e es IH]; intros b; [done|]. intros (_ & ? & Hf). specialize (IH _ Hf). unfold total_len in *. cbn [fold_right]. lia. Qed.

Section Extents.
Context {S D C : Type} `{FsStore S D C} (ERR_GENERIC ERR_NO_MEMORY ERR_NOT_VALID ERR_NOT_FOUND ERR_NOT_DIR : Z) (ext2 : ext2_t D C).
Notation sb := (super_blk ext2).
Notation bs := (E2FS_BLOCK_SIZE sb).
Context (quiet : S -> Prop) (image : list Z) `{!ReadDevice (dev ext2) quiet image}.
Hypotheses (Hsb : small_blocks sb) (Hfs : 0 <= fs_offset ext2).

(** The bytes of an extent, which lie on the device. *)
Definition extent_from (e : ext4_extent) : Z := ee_start e * bs + fs_offset ext2.
Definition on_device (e : ext4_extent) : Prop := 0 <= ee_start e /\ extent_from e + ee_len e * bs <= Z.of_nat (length image) < 2 ^ 64.
Definition extent_bytes (e : ext4_extent) : list Z := slice image (Z.to_nat (extent_from e)) (Z.to_nat (ee_len e * bs)).
Definition file_data (es : list ext4_extent) : list Z := concat (map extent_bytes es).

Lemma length_extent_bytes e : 0 <= ee_len e -> on_device e -> Z.of_nat (length (extent_bytes e)) = ee_len e * bs.
Proof.
  intros Hl [Hd0 Hd1]. pose proof (block_size_pos ext2 Hsb) as Hb. unfold extent_bytes. rewrite length_slice. unfold extent_from in *.
  assert (0 <= ee_start e * bs) by nia. assert (0 <= ee_len e * bs) by nia. lia.
Qed.

Lemma length_file_data b es : follow b es -> Forall on_device es -> Z.of_nat (length (file_data es)) = total_len es * bs.
Proof.
  revert b. induction es as [|e es IH]; intros b Hf Ho; [done|]. destruct Hf as (_ & Hl & Hf). inversion_clear Ho as [|? ? He Hes].
  unfold file_data in *. cbn [map concat total_len fold_right]. rewrite length_app, Nat2Z.inj_add, (IH _ Hf Hes), length_extent_bytes by (done || lia).
  unfold total_len. lia.
Qed.

Lemma extent_addr e : 0 < ee_len e -> on_device e -> blk_addr ext2 (ee_start e) = extent_from e.
Proof.
  intros Hl [Hd0 [Hd1 Hd2]]. pose proof (block_size_pos ext2 Hsb) as Hb. unfold blk_addr, extent_from in *. assert (0 <= ee_start e * bs) by nia.
  assert (0 < ee_len e * bs) by nia. rewrite (u64_small (ee_start e * bs)) by lia. apply u64_small. lia.
Qed.

(** One extent into the buffer. *)
Lemma read_at_run addr buf off e s : quiet s -> 0 < addr -> addr + Z.of_nat (length buf) < 2 ^ 64 -> 0 <= off -> 0 < ee_len e -> on_device e ->
  off + ee_len e * bs <= Z.of_nat (length buf) ->
  exists s', read_at ext2 addr buf off (extent_from e) (ee_len e * bs) s = (Ret (blit buf (Z.to_nat off) (extent_bytes e)), s') /\ quiet s'.
Proof.
  intros Hq Ha Haddr Hoff Hl Hd Hfit. pose proof (block_size_pos ext2 Hsb) as Hb. pose proof Hd as [Hd0 Hd1]. assert (0 < ee_len e * bs) by nia.
  assert (0 <= extent_from e) by (unfold extent_from; nia).
  destruct (device_read_law s (u64 (addr + off)) (slice buf (Z.to_nat off) (Z.to_nat (ee_len e * bs))) (extent_from e) (ee_len e * bs) Hq) as (s' & E & Hq');
    [rewrite u64_small by lia; lia|done|done|lia|rewrite length_slice; lia|].
  exists s'. split; [|done]. unfold read_at, bind at 1, lift at 1. rewrite copy_from_ret by lia. unfold bind. rewrite E. unfold lift.
  pose proof (length_extent_bytes e ltac:(lia) ltac:(done)) as Hx. fold (extent_bytes e). rewrite blit_all by (rewrite length_slice; lia).
  by rewrite copy_to_ret by lia.
Qed.

(** Up to block [b] the extents are in the buffer. *)
Definition laid (b : Z) (x : extent_state) : Prop := x_bytes x = b * bs /\ (x_at x = 0 \/ x_at x + x_len x = b * bs).

Lemma blit_then b o x y : (o + length x + length y <= length b)%nat -> blit (blit b o x) (o + length x) y = blit b o (x ++ y).
Proof.
  intros Hl. apply list_eq. intros i. rewrite !lookup_blit by (rewrite ?length_blit, ?length_app; lia). rewrite length_app.
  destruct (decide (o + length x <= i < o + length x + length y)%nat) as [Hi|Hi].
  - destruct (decide (o <= i < o + (length x + length y))%nat); [|lia]. rewrite lookup_app_r by lia. f_equal. lia.
  - destruct (decide (o <= i < o + length x)%nat).
    + destruct (decide (o <= i < o + (length x + length y))%nat); [|lia]. by rewrite lookup_app_l by lia.
    + by destruct (decide (o <= i < o + (length x + length y))%nat); [lia|].
Qed.

(** The extents of index [i] on, which begin at block [b]. *)
Lemma read_extents_run h addr : forall es i b x s, (forall j e, es !! j = Some e -> extent_at h (i + Z.of_nat j) = Ret e) ->
  follow b es -> Forall on_device es -> 0 <= b -> quiet s -> 0 < addr -> addr + Z.of_nat (length (x_buf x)) < 2 ^ 64 ->
  (b + total_len es) * bs <= Z.of_nat (length (x_buf x)) < 2 ^ 32 -> laid b x ->
  exists x' s', read_extents ERR_GENERIC ext2 (length es) i h addr 0 x s = (Ret (0, x'), s') /\ quiet s' /\
    x_buf x' = blit (x_buf x) (Z.to_nat (b * bs)) (file_data es) /\ laid (b + total_len es) x'.
Proof.
  pose proof (block_size_pos ext2 Hsb) as Hb. induction es as [|e es IH]; intros i b x s Hes Hf Ho H0 Hq Ha Haddr Hfit Hx.
  { exists x, s. split; [done|]. split; [done|]. cbn. rewrite Z.add_0_r. split; [|done]. unfold blit. cbn. rewrite Nat.add_0_r. by rewrite take_drop. }
  destruct Hf as (Eb & Hl & Hf). inversion_clear Ho as [|? ? He Hos]. cbn [length read_extents total_len fold_right] in *.
  change (fold_right _ 0 es) with (total_len es) in *. pose proof (follow_len _ _ Hf) as Hn. assert (0 <= total_len es * bs) by nia. assert (0 < ee_len e * bs) by nia.
  assert (0 <= b * bs) by nia. pose proof (length_extent_bytes e ltac:(lia) He) as Hle.
  pose proof (Hes 0%nat e eq_refl) as E0. rewrite Z.add_0_r in E0. unfold bind at 1, lift at 1. rewrite E0. rewrite Eb, !u32_small by lia.
  change (Z.lor (Z.shiftl (ee_start_hi e) 32) (ee_start_lo e)) with (ee_start e). rewrite extent_addr, Z.add_0_l by done.
  destruct (read_at_run addr (x_buf x) (b * bs) e s Hq Ha Haddr ltac:(lia) Hl He ltac:(lia)) as (s1 & E1 & Hq1).
  unfold bind at 1, code. rewrite E1. destruct Hx as [Hx1 Hx2]. rewrite (u64_small (x_bytes x + _)) by lia.
  destruct (IH (i + 1) (b + ee_len e) (mk_extents (x_bytes x + ee_len e * bs) (b * bs) (ee_len e * bs) (blit (x_buf x) (Z.to_nat (b * bs)) (extent_bytes e))) s1)
    as (x' & s' & E' & Hq' & Hbuf & Hlaid); try (done || lia).
  { intros j e' Hj. replace (i + 1 + Z.of_nat j) with (i + Z.of_nat (Datatypes.S j)) by lia. by apply Hes. }
  { cbn [x_buf]. rewrite length_blit by lia. lia. }
  { cbn [x_buf]. rewrite length_blit by lia. lia. }
  { split; cbn; [lia|]. right. lia. }
  exists x', s'. split; [exact E'|]. split; [done|]. split; [|by replace (b + (ee_len e + total_len es)) with (b + ee_len e + total_len es) by lia].
  rewrite Hbuf. cbn [x_buf file_data map concat]. pose proof (length_file_data _ _ Hf Hos) as Hld. unfold file_data in *.
  replace (Z.to_nat ((b + ee_len e) * bs)) with (Z.to_nat (b * bs) + length (extent_bytes e))%nat by lia. rewrite blit_then by lia. done.
Qed.

(** The extents of a leaf into the buffer. *)
Lemma read_extent_run h es addr buf s total : extents_are h es -> follow 0 es -> Forall on_device es -> quiet s -> 0 < addr ->
  addr + Z.of_nat (length buf) < 2 ^ 64 -> total_len es * bs <= Z.of_nat (length buf) < 2 ^ 32 ->
  exists s', ext4_read_extent ERR_GENERIC ext2 h addr 0 buf total s = (Ret (0, total_len es * bs, blit buf 0 (file_data es)), s') /\ quiet s'.
Proof.
  intros [He Hes] Hf Ho Hq Ha Haddr Hfit. pose proof (block_size_pos ext2 Hsb). pose proof (follow_len _ _ Hf).
  destruct (read_extents_run h addr es 0 0 (mk_extents 0 0 0 buf) s) as (x & s' & E & Hq' & Hbuf & [Hx1 Hx2]); try (done || lia).
  { split; cbn; [lia|by left]. }
  exists s'. split; [|done]. unfold ext4_read_extent, bind at 1, lift at 1. rewrite He, Nat2Z.id. unfold bind. rewrite E. cbn [Z.eqb].
  rewrite Z.add_0_l in *. rewrite Hbuf, Hx1. cbn [x_buf]. change (Z.to_nat (0 * bs)) with 0%nat. destruct (Z.eqb_spec (x_at x) 0); [done|].
  destruct Hx2 as [Hz|Hz]; [done|rewrite Hz]. by rewrite u64_small by nia.
Qed.

(** A buffer that ends before the extents do is overrun. *)
Lemma read_extents_overrun h addr : forall es i b x s, (forall j e, es !! j = Some e -> extent_at h (i + Z.of_nat j) = Ret e) ->
  follow b es -> Forall on_device es -> 0 <= b -> quiet s -> 0 < addr -> addr + Z.of_nat (length (x_buf x)) < 2 ^ 64 ->
  b * bs <= Z.of_nat (length (x_buf x)) < (b + total_len es) * bs -> (b + total_len es) * bs < 2 ^ 32 ->
  (read_extents ERR_GENERIC ext2 (length es) i h addr 0 x s).1 = Undef.
Proof.
  pose proof (block_size_pos ext2 Hsb) as Hb. induction es as [|e es IH]; intros i b x s Hes Hf Ho H0 Hq Ha Haddr Hfit Hmax.
  { cbn in Hfit. lia. }
  destruct Hf as (Eb & Hl & Hf). inversion_clear Ho as [|? ? He Hos]. cbn [length read_extents total_len fold_right] in *.
  change (fold_right _ 0 es) with (total_len es) in *. pose proof (follow_len _ _ Hf) as Hn. assert (0 <= total_len es * bs) by nia. assert (0 < ee_len e * bs) by nia.
  assert (0 <= b * bs) by nia. pose proof (length_extent_bytes e ltac:(lia) He) as Hle.
  pose proof (Hes 0%nat e eq_refl) as E0. rewrite Z.add_0_r in E0. unfold bind at 1, lift at 1. rewrite E0. rewrite Eb, !u32_small by lia.
  change (Z.lor (Z.shiftl (ee_start_hi e) 32) (ee_start_lo e)) with (ee_start e). rewrite extent_addr, Z.add_0_l by done.
  destruct (decide (b * bs + ee_len e * bs <= Z.of_nat (length (x_buf x)))) as [Hin|Hout].
  - destruct (read_at_run addr (x_buf x) (b * bs) e s Hq Ha Haddr ltac:(lia) Hl He Hin) as (s1 & E1 & Hq1).
    unfold bind at 1, code. rewrite E1.
    assert (Hbl : length (blit (x_buf x) (Z.to_nat (b * bs)) (extent_bytes e)) = length (x_buf x)) by (apply length_blit; lia).
    apply (IH (i + 1) (b + ee_len e)); cbn [x_buf]; rewrite ?Hbl; try (done || lia).
    intros j e' Hj. replace (i + 1 + Z.of_nat j) with (i + Z.of_nat (Datatypes.S j)) by lia. by apply Hes.
  - unfold bind at 1, code, read_at, bind at 1, lift at 1, copy_from.
    by destruct (Z.leb_spec (b * bs + ee_len e * bs) (Z.of_nat (length (x_buf x)))); [lia|].
Qed.

(** ** A file in one leaf *)

Lemma in_blocks_whole n : 0 <= n -> n * bs < 2 ^ 32 -> in_blocks ext2 (n * bs) = n.
Proof.
  intros H0 H1. pose proof (block_size_pos ext2 Hsb) as Hb. assert (n <= n * bs) by nia. unfold in_blocks. rewrite Z.div_mul, Z.mod_mul by lia. cbn. rewrite !(u32_small n) by lia. rewrite Z.add_0_r, u32_small by lia. done.
Qed.

Lemma in_blocks_lt len n : 0 <= len < 2 ^ 32 -> (in_blocks ext2 len <? n) = negb (n * bs <? len + bs).
Proof.
  intros H0. pose proof (block_size_pos ext2 Hsb) as Hb. unfold in_blocks. pose proof (Z.div_mod len bs ltac:(lia)) as Hd.
  pose proof (Z.mod_pos_bound len bs ltac:(lia)) as Hm. assert (0 <= len / bs) by (apply Z.div_pos; lia).
  assert (len / bs < 2 ^ 32 - 1) by (destruct (block_size_cases sb Hsb) as [E|[E|E]]; rewrite E in *; lia).
  rewrite (u32_small (len / bs)) by lia.
  destruct (Z.eqb_spec (len mod bs) 0); cbn [negb]; rewrite u32_small by lia; apply eq_true_iff_eq; rewrite negb_true_iff, Z.ltb_lt, Z.ltb_ge; nia.
Qed.

(** The leaf gives all of the file, or more blocks than were asked for. *)
Definition too_long (len : Z) (es : list ext4_extent) : bool := negb (len =? 0) && negb (total_len es * bs <? len + bs).

Lemma read_node_run h es addr len buf s : extents_are h es -> follow 0 es -> Forall on_device es -> quiet s -> 0 < addr ->
  addr + Z.of_nat (length buf) < 2 ^ 64 -> total_len es * bs <= Z.of_nat (length buf) < 2 ^ 32 -> 0 <= len < 2 ^ 32 ->
  exists s' d, read_node ERR_GENERIC ERR_NOT_VALID ext2 h addr len (mk_data 0 0 0 0 buf) s = (Ret (too_long len es, d), s') /\ quiet s' /\
    d_err d = (if too_long len es then ERR_NOT_VALID else 0) /\ d_total d = total_len es * bs /\ d_buf d = blit buf 0 (file_data es).
Proof.
  intros He Hf Ho Hq Ha Haddr Hfit Hlen. pose proof (block_size_pos ext2 Hsb) as Hb. pose proof (follow_len _ _ Hf) as Hn. assert (0 <= total_len es * bs) by nia.
  destruct (read_extent_run h es addr buf s 0 He Hf Ho Hq Ha Haddr Hfit) as (s' & E & Hq').
  unfold read_node, bind. cbn [d_base d_buf d_read d_total]. rewrite E. cbv beta iota. rewrite !Z.add_0_l, !(u64_small (total_len es * bs)) by lia.
  rewrite in_blocks_whole by lia. rewrite in_blocks_lt by lia. fold (too_long len es). exists s'. destruct (too_long len es); by eexists.
Qed.

(** Where the extents of a file are listed: in the inode, or in the one block its
    index leads to. *)
Definition leaf_of (inode h : list Z) : Prop :=
  let r := extents_of inode in
  eh_magic r = Ret E4FS_EXTENTS_MAGIC /\
  ((eh_depth r = Ret 0 /\ h = r) \/
   exists depth leaf, eh_depth r = Ret depth /\ 0 < depth /\ eh_entries r = Ret 1 /\ first_leaf r = Ret leaf /\ 0 <= leaf /\
     leaf * bs + fs_offset ext2 + bs <= Z.of_nat (length image) < 2 ^ 64 /\
     h = slice image (Z.to_nat (leaf * bs + fs_offset ext2)) (Z.to_nat bs)).

Lemma leaf_entries inode h es : leaf_of inode h -> extents_are h es -> exists n, eh_entries (extents_of inode) = Ret n.
Proof. intros [_ [[_ ->]|(? & ? & _ & _ & -> & _)]] [He _]; by eexists. Qed.

Definition data_result (d : data_state) : Z * list Z := (if d_err d <? 0 then d_err d else s64 (d_total d), d_buf d).

(** The leaf is read, wherever it is. *)
Lemma data_from_leaf inode h es addr len buf s : leaf_of inode h -> extents_are h es -> quiet s ->
  exists s1, quiet s1 /\ ext4_read_data_from_extent ERR_GENERIC ERR_NO_MEMORY ERR_NOT_VALID ext2 inode addr buf len s =
    (let! (_, d) := read_node ERR_GENERIC ERR_NOT_VALID ext2 h addr len (mk_data 0 0 0 0 buf) in ret (data_result d)) s1.
Proof.
  intros Hleaf He Hq. destruct (leaf_entries inode h es Hleaf He) as [n En]. pose proof (block_size_pos ext2 Hsb) as Hb. destruct Hleaf as [Em Hleaf].
  unfold ext4_read_data_from_extent. unfold bind at 1, lift at 1, validate_extents_magic. rewrite Em. cbn [obind]. rewrite Z.eqb_refl. cbn [negb].
  unfold bind at 1, lift at 1, div_by. destruct (Z.eqb_spec bs 0); [lia|]. unfold bind at 1, lift at 1.
  destruct Hleaf as [[Ed ->]|(depth & leaf & Ed & Hdepth & Ee & Ef & Hl0 & Hl1 & ->)]; rewrite Ed; unfold bind at 1, lift at 1; rewrite En.
  - exists s. split; [done|]. cbn [Z.ltb Z.compare]. unfold bind, ret. by destruct (read_node _ _ _ _ _ _ _ s) as [[[? ?]|?| | |] ?].
  - destruct (Z.ltb_spec 0 depth); [|lia]. assert (n = 1) as -> by congruence. change (Z.to_nat 1) with 1%nat. cbn [read_index].
    destruct (memalign_law s SZ_64K bs Hq) as (s1 & a & mem & E1 & Hm & Ha & Ha2 & Hq1); [lia|]. assert (0 <= leaf * bs) by nia.
    destruct (device_read_law s1 a mem (leaf * bs + fs_offset ext2) bs Hq1 Ha) as (s2 & E2 & Hq2); [lia..|].
    exists s2. split; [done|]. unfold bind at 1 2, lift at 1. rewrite Ef. unfold bind at 1. rewrite E1.
    assert (blk_addr ext2 leaf = leaf * bs + fs_offset ext2) as -> by (unfold blk_addr; rewrite (u64_small (leaf * bs)) by lia; apply u64_small; lia).
    unfold bind at 1, code. rewrite E2, blit_all by (rewrite length_slice; lia). unfold bind, ret.
    by destruct (read_node _ _ _ _ _ _ _ s2) as [[[[] ?]|?| | |] ?].
Qed.

Hypothesis Hnotvalid : ERR_NOT_VALID < 0.

Lemma data_run inode h es addr len buf s : leaf_of inode h -> extents_are h es -> follow 0 es -> Forall on_device es -> quiet s -> 0 < addr ->
  addr + Z.of_nat (length buf) < 2 ^ 64 -> total_len es * bs <= Z.of_nat (length buf) < 2 ^ 32 -> 0 <= len < 2 ^ 32 ->
  exists s', ext4_read_data_from_extent ERR_GENERIC ERR_NO_MEMORY ERR_NOT_VALID ext2 inode addr buf len s =
    (Ret (if too_long len es then ERR_NOT_VALID else total_len es * bs, blit buf 0 (file_data es)), s') /\ quiet s'.
Proof.
  intros Hleaf He Hf Ho Hq Ha Haddr Hfit Hlen. destruct (data_from_leaf inode h es addr len buf s Hleaf He Hq) as (s1 & Hq1 & ->).
  destruct (read_node_run h es addr len buf s1 He Hf Ho Hq1 Ha Haddr Hfit Hlen) as (s2 & d & E2 & Hq2 & Ed & Et & Eb). exists s2. split; [|done].
  pose proof (block_size_pos ext2 Hsb) as Hb. pose proof (follow_len _ _ Hf). assert (0 <= total_len es * bs) by nia.
  unfold bind. rewrite E2. cbn [ret]. unfold data_result. rewrite Ed, Et, Eb. destruct (too_long len es).
  - by destruct (Z.ltb_spec ERR_NOT_VALID 0); [|lia].
  - change (0 <? 0) with false. do 3 f_equal. unfold signedw. rewrite wrapw_small by (unfold in_word; lia).
    by destruct (Z.ltb_spec (total_len es * bs) (2 ^ (64 - 1))); [|lia].
Qed.

Lemma data_overrun inode h es addr len buf s : leaf_of inode h -> extents_are h es -> follow 0 es -> Forall on_device es -> quiet s -> 0 < addr ->
  addr + Z.of_nat (length buf) < 2 ^ 64 -> Z.of_nat (length buf) < total_len es * bs < 2 ^ 32 ->
  (ext4_read_data_from_extent ERR_GENERIC ERR_NO_MEMORY ERR_NOT_VALID ext2 inode addr buf len s).1 = Undef.
Proof.
  intros Hleaf He Hf Ho Hq Ha Haddr Hfit. destruct (data_from_leaf inode h es addr len buf s Hleaf He Hq) as (s1 & Hq1 & ->).
  destruct He as [He Hes]. unfold bind, read_node, bind, ext4_read_extent, bind, lift. rewrite He, Nat2Z.id.
  pose proof (read_extents_overrun h addr es 0 0 (mk_extents 0 0 0 buf) s1) as Hr. cbn [d_base d_buf]. 
  destruct (read_extents _ _ _ _ _ _ _ _ s1) as [r s2]. cbn [fst] in Hr. rewrite Hr; try (done || lia). cbn [x_buf]. lia.
Qed.

(** ** Directories without an index *)

Definition plain_dir (inode : list Z) : Prop := S_ISDIR (e2di_mode inode) = true /\ IS_HASHED_INDEX (e2di_flags inode) = false.

Lemma one_block_bytes inode h es : leaf_of inode h -> follow 0 es -> Forall on_device es -> total_len es = 1 -> length (file_data es) = Z.to_nat bs.
Proof. intros _ Hf Ho Ht. pose proof (length_file_data 0 es Hf Ho) as Hl. rewrite Ht in Hl. lia. Qed.

Lemma linear_run inode h es ents name addr : leaf_of inode h -> extents_are h es -> follow 0 es -> Forall on_device es -> total_len es = 1 ->
  encodes bs ents (file_data es) -> 0 < addr -> addr + bs < 2 ^ 64 -> forall n buf s, quiet s -> length buf = Z.to_nat bs ->
  exists s' b, quiet s' /\ linear_turns ERR_GENERIC ERR_NO_MEMORY ERR_NOT_VALID ext2 n inode name addr buf s =
    (Ret (match n, first_entry name ents with Datatypes.S _, Some i => (bs, Some i, b) | _, _ => (-1, None, b) end), s').
Proof.
  intros Hleaf He Hf Ho Ht Henc Ha Haddr. pose proof (block_size_pos ext2 Hsb) as Hb. induction n as [|n IH]; intros buf s Hq Hbuf; [by exists s, buf|].
  destruct (data_run inode h es addr 0 buf s Hleaf He Hf Ho Hq Ha) as (s1 & E1 & Hq1); [lia|rewrite Ht; lia|lia|].
  pose proof (one_block_bytes inode h es Hleaf Hf Ho Ht) as Hl. unfold too_long in E1. cbn [Z.eqb negb andb] in E1. rewrite Ht, Z.mul_1_l, blit_all in E1 by lia.
  cbn [linear_turns]. unfold bind at 1. rewrite E1.
  assert (s32 bs = bs) as ->.
  { unfold signedw. rewrite wrapw_small by (unfold in_word; lia). by destruct (Z.ltb_spec bs (2 ^ (32 - 1))); [|lia]. }
  destruct (Z.leb_spec bs 0); [lia|]. unfold bind at 1, lift. rewrite (find_entry_block bs ents _ name Henc) by lia.
  destruct (first_entry name ents) as [i|] eqn:En; [by exists s1, (file_data es)|].
  destruct (IH (file_data es) s1 Hq1 Hl) as (s2 & b & Hq2 & E2). exists s2, b. split; [done|]. rewrite E2. by destruct n.
Qed.

Lemma dir4_run inode h es ents name s : plain_dir inode -> leaf_of inode h -> extents_are h es -> follow 0 es -> Forall on_device es -> quiet s ->
  total_len es = 1 -> encodes bs ents (file_data es) ->
  exists s', quiet s' /\ ext4_dir_lookup ERR_GENERIC ERR_NO_MEMORY ERR_NOT_VALID ERR_NOT_FOUND ERR_NOT_DIR ext2 inode name s =
    (Ret (match first_entry name ents with Some i => (bs, Some i) | None => (-1, None) end), s').
Proof.
  intros [Hd Hx] Hleaf He Hf Ho Hq Ht Henc. pose proof (block_size_pos ext2 Hsb) as Hb. pose proof Hleaf as [Em _].
  destruct (memalign_law s SZ_64K bs Hq) as (s1 & a & mem & E1 & Hm & Ha & Ha2 & Hq1); [lia|].
  destruct (linear_run inode h es ents name a Hleaf He Hf Ho Ht Henc Ha Ha2 1025 mem s1 Hq1 Hm) as (s2 & b & Hq2 & E2).
  destruct (release_law s2 a Hq2) as (s3 & E3 & Hq3). exists s3. split; [done|].
  unfold ext4_dir_lookup. rewrite Hd. cbn [negb]. unfold bind at 1, lift at 1, validate_extents_magic. rewrite Em. cbn [obind]. rewrite Z.eqb_refl. cbn [negb].
  unfold bind at 1. rewrite E1, Hx. unfold bind at 1, lookup_linear_dir. rewrite E2. change (Z.to_nat 1025) with 1025%nat.
  destruct (first_entry name ents); unfold bind; by rewrite E3.
Qed.

Lemma dir4_overrun inode h es name s : plain_dir inode -> leaf_of inode h -> extents_are h es -> follow 0 es -> Forall on_device es -> quiet s ->
  1 < total_len es -> total_len es * bs < 2 ^ 32 ->
  (ext4_dir_lookup ERR_GENERIC ERR_NO_MEMORY ERR_NOT_VALID ERR_NOT_FOUND ERR_NOT_DIR ext2 inode name s).1 = Undef.
Proof.
  intros [Hd Hx] Hleaf He Hf Ho Hq Ht Hmax. pose proof (block_size_pos ext2 Hsb) as Hb. pose proof Hleaf as [Em _].
  destruct (memalign_law s SZ_64K bs Hq) as (s1 & a & mem & E1 & Hm & Ha & Ha2 & Hq1); [lia|].
  pose proof (data_overrun inode h es a 0 mem s1 Hleaf He Hf Ho Hq1 Ha) as Hr.
  unfold ext4_dir_lookup. rewrite Hd. cbn [negb]. unfold bind at 1, lift at 1, validate_extents_magic. rewrite Em. cbn [obind]. rewrite Z.eqb_refl. cbn [negb].
  unfold bind at 1. rewrite E1, Hx. unfold bind at 1, lookup_linear_dir, linear_turns. unfold bind at 1.
  destruct (ext4_read_data_from_extent _ _ _ _ _ _ _ _ s1) as [r s2]. cbn [fst] in Hr. rewrite Hr; [done|lia|nia].
Qed.
End Extents.

(** C36.  Reading a file in extents.  When the extents follow one another from the
    first block, in the inode or in the one block its index leads to, a read from
    offset zero lays all their blocks one after the other into the buffer and reports
    their size, or an error when that is more than the blocks that were asked for.
    The bytes asked for do not bound it: a buffer that is shorter than the extents is
    written behind its end, also when it is as long as the file. *)
Theorem ext4_reads_extents {S D C} `{FsStore S D C} (E : fs_errors) (ext2 : ext2_t D C) (quiet : S -> Prop) image `{!ReadDevice (dev ext2) quiet image}
    ind inode h es addr buf len s :
  let file := mk_file ext2 ind inode in let bs := E2FS_BLOCK_SIZE (super_blk ext2) in
  small_blocks (super_blk ext2) -> 0 <= fs_offset ext2 -> ERR_NOT_VALID E < 0 -> S_ISREG (e2di_mode inode) = true -> 0 < len < 2 ^ 32 ->
  leaf_of ext2 image inode h -> extents_are h es -> follow 0 es -> Forall (on_device ext2 image) es -> quiet s ->
  0 < addr -> addr + Z.of_nat (length buf) < 2 ^ 64 ->
  (total_len es * bs <= Z.of_nat (length buf) < 2 ^ 32 ->
     exists s', ext4_read_file E file addr buf 0 len s =
       (Ret (if total_len es * bs <? len + bs then total_len es * bs else ERR_NOT_VALID E, blit buf 0 (file_data ext2 image es)), s') /\ quiet s') /\
  (Z.of_nat (length buf) < total_len es * bs < 2 ^ 32 -> (ext4_read_file E file addr buf 0 len s).1 = Undef).
Proof.
  intros file bs Hs Hfs He Hreg Hlen Hleaf Hes Hf Ho Hq Ha Haddr. unfold ext4_read_file. subst file. cbn [f_inode f_ext2]. rewrite Hreg.
  destruct (Z.eqb_spec len 0); [lia|]. cbn [Z.eqb negb]. split; intros Hfit.
  - edestruct (data_run (ERR_GENERIC E) (ERR_NO_MEMORY E) (ERR_NOT_VALID E) ext2 quiet image Hs Hfs He inode h es addr len buf s) as (s' & E' & Hq'); [done..|lia|].
    exists s'. split; [|done]. rewrite E'. do 3 f_equal. unfold too_long. destruct (Z.eqb_spec len 0); [lia|]. cbn [negb andb]. fold bs.
    by destruct (total_len es * bs <? len + bs).
  - by eapply (data_overrun _ _ _ ext2 quiet image Hs Hfs).
Qed.

(** A lookup in a directory in extents without an index is the search in its
    entries when the directory is one block.  The buffer is of that size: a longer
    directory is read into it all the same, behind its end. *)
Theorem ext4_directories {S D C} `{FsStore S D C} (E : fs_errors) (ext2 : ext2_t D C) (quiet : S -> Prop) image `{!ReadDevice (dev ext2) quiet image}
    inode h es name s :
  let lookup := ext4_dir_lookup (ERR_GENERIC E) (ERR_NO_MEMORY E) (ERR_NOT_VALID E) (ERR_NOT_FOUND E) (ERR_NOT_DIR E) ext2 inode name s in
  let bs := E2FS_BLOCK_SIZE (super_blk ext2) in
  small_blocks (super_blk ext2) -> 0 <= fs_offset ext2 -> ERR_NOT_VALID E < 0 -> plain_dir inode -> leaf_of ext2 image inode h -> extents_are h es ->
  follow 0 es -> Forall (on_device ext2 image) es -> quiet s ->
  (forall ents, total_len es = 1 -> encodes bs ents (file_data ext2 image es) ->
     exists s', quiet s' /\ lookup = (Ret (match first_entry name ents with Some i => (bs, Some i) | None => (-1, None) end), s')) /\
  (1 < total_len es -> total_len es * bs < 2 ^ 32 -> lookup.1 = Undef).
Proof.
  intros lookup bs Hs Hfs He Hd Hleaf Hes Hf Ho Hq. split.
  - intros ents Ht Henc. by eapply dir4_run.
  - intros Ht Hmax. by eapply dir4_overrun.
Qed.
