(* ===== verification/ExtStore.v ===== *)
(** * The file systems over the block cache

    The block cache and the device as the store of the file systems ([FsStore]), and
    that they keep the promise of [ReadStore]. *)
From stdpp Require Import gmap.
From S2P Require Import Prelude Interfaces BlockDev BlockSpec Bcache BcacheSpec Ext2 Ext2Spec FsPath FsPathSpec Ext4 ExtDir ExtDirSpec Ext4Spec.
#[local] Open Scope Z_scope.

Section CacheStore.
Context {W : Type} `{DmaHeap W} `{HeapApi W}.
Variables (debug : bool) (code : Z) (fresh : Z -> Z -> list Z) (memalign : Z -> Z -> M W (option Z)).

Definition with_content (n : Z) (a : option Z) : option (Z * list Z) := (fun a => (a, fresh a n)) <$> a.

Definition cache_store : FsStore (cache_mem W) (bdev W) (bcache W) := {|
  store_read_block c buf b := bcache_read_block debug code c buf b;
  store_get_block c b := bcache_get_block debug code c b;
  store_deref p := deref_buffer p;
  store_put_block c b := bcache_put_block debug c b;
  store_create d bsz n off := bcache_create fresh (Some d) bsz n off;
  store_destroy c := bcache_destroy debug c (free_list c - 56);
  store_sector d := TEGRABL_BLOCKDEV_BLOCK_SIZE d;
  store_device_read d addr buf off n := on_world (tegrabl_blockdev_read (Some d) addr buf off n);
  store_alloc n := let! a := on_world (heap_malloc n) in ret (with_content n a);
  store_memalign al n := let! a := on_world (memalign al n) in ret (with_content n a);
  store_free a := on_world (heap_free a);
|}.

(** A heap that has memory and leaves the device alone. *)
Class QuietHeap (d : bdev W) `{!FlatDevice d} := {
  quiet_malloc n w : exists a w', heap_malloc n w = (Ret (Some a), w') /\ content (d := d) w' = content (d := d) w;
  quiet_free a w : exists w', heap_free a w = (Ret tt, w') /\ content (d := d) w' = content (d := d) w;
  quiet_fresh a n : length (fresh a n) = Z.to_nat n;
}.

Section Laws.
Context (d : bdev W) `{!FlatDevice d} `{!QuietHeap d} (c : bcache W) (bsz : Z) (K : nat) (image : list Z).
Hypotheses (Hdev : Bcache.dev c = Some d) (Hread : read d = default_hook) (Hwrite : write d = default_hook) (Hok : ~ may_fail)
  (Hbsz : block_size c = bsz) (Hbs : 0 < block_size c) (Hfs : 0 <= Bcache.fs_offset c) (HK : (0 < K)%nat).
Hypotheses (Himage : Z.of_nat (length image) = BlockDev.size d) (Hbytes : bytes image).

Notation vol := (block_of c image).

Lemma drop_ptrs s ptrs : serves c d s vol ∅ ptrs K -> serves c d s vol ∅ ∅ K.
Proof.
  intros (fl & ll & Hr & Hco & Hl & Hv & Hc & Hp & _). exists fl, ll. split_and!; try done.
  intros e He Hne. pose proof (Hp e He). assert (E : (∅ : gmap Z Z) !! e_num e = Some (e_ref e)); [|by rewrite lookup_empty in E].
  apply Hc. split; [lia|by exists e].
Qed.

Lemma serves_quiet s w cnt ptrs : serves c d s vol cnt ptrs K -> content (d := d) w = content (d := d) (bc_world s) ->
  serves c d (mk_mem (nodes s) (block_at s) (buffer s) (stats s) w) vol cnt ptrs K.
Proof.
  intros (fl & ll & Hr & Hco & Hl & Hv & Hc & Hp & Hq) Hw. exists fl, ll. split; [by apply rep_world|]. unfold disk in *. cbn [bc_world]. rewrite Hw.
  by split_and!.
Qed.

#[export] Instance cache_reads : @ReadStore _ _ _ cache_store c bsz vol (valid c d).
Proof.
  refine {| idle s := serves c d s vol ∅ ∅ K; holds s b p := serves c d s vol {[b := 1]} {[b := p]} K |}.
  - intros b [Hb Hv]. unfold block_of. rewrite <- Hbsz, length_slice. unfold place in *. lia.
  - intros b _. by apply bytes_slice.
  - intros s b buf Hs Hv Hbuf. rewrite <- Hbsz in Hbuf.
    destruct (step_read debug code c d Hdev Hread Hwrite Hok Hbs Hfs s vol ∅ ∅ K b buf Hs) as (s' & ptrs & E & Hs'); [split; [done|left; rewrite map_size_empty; lia]|done|].
    exists s'. unfold client_run in E. apply bind_inv in E as ([rc x] & s1 & E1 & E2). cbn in E2, E1 |- *. destruct (Z.eqb_spec rc 0) as [->|]; [|done].
    injection E2 as -> <- <-. split; [exact E1|done].
  - intros s b Hs Hv.
    destruct (step_get debug code c d Hdev Hread Hwrite Hok Hbs Hfs s vol ∅ ∅ K b Hs) as (s' & ptrs & E & Hs'); [split; [done|left; rewrite map_size_empty; lia]|rewrite lookup_empty; cbn; lia|].
    rewrite lookup_empty in Hs'. cbn in Hs'. unfold client_run in E. apply bind_inv in E as ([rc x] & s1 & E1 & E2). cbn in E1, E2 |- *.
    injection E2 as -> <- <-. destruct x as [p|].
    + exists s1, p. split; [exact E1|]. by rewrite insert_empty in Hs'.
    + exfalso. destruct Hs' as (fl & ll & _ & _ & _ & _ & Hc & _ & Hq). destruct (Hc b 1) as [(_ & e & He & Hn & Hr) _]; [by rewrite lookup_insert_eq|].
      pose proof (Hq e He ltac:(lia)) as Hx. by rewrite lookup_empty in Hx.
  - intros s b p Hs. destruct (step_look debug code c d s vol {[b := 1]} {[b := p]} K b Hs) as (s' & ptrs & E & _); [by rewrite lookup_singleton_eq|].
    unfold client_run in E. rewrite lookup_singleton_eq in E. apply bind_inv in E as (x & s1 & E1 & E2). cbn. injection E2 as -> _ _.
    unfold deref_buffer in *. destruct (buffer s !! p); [|done]. by injection E1 as ->.
  - intros s b p Hs. destruct (step_put debug code c d Hbs s vol {[b := 1]} {[b := p]} K b 1 Hs) as (s' & ptrs & E & Hs'); [by rewrite lookup_singleton_eq|lia|].
    unfold client_run in E. apply bind_inv in E as (x & s1 & E1 & E2). cbn in E1, E2 |- *. injection E2 as -> <- <-. exists s1, 0. split; [exact E1|].
    unfold set_count in Hs'. cbn in Hs'. rewrite delete_singleton_eq in Hs'. by apply (drop_ptrs _ _ Hs').
  - intros s n Hs _. destruct (quiet_malloc n (bc_world s)) as (a & w & E & Hw). cbn. unfold bind, on_world. rewrite E. cbn.
    eexists _, a, _. split; [done|]. split; [apply quiet_fresh|]. by apply serves_quiet.
  - intros s a Hs. destruct (quiet_free a (bc_world s)) as (w & E & Hw). cbn. unfold on_world. rewrite E. eexists. split; [done|]. by apply serves_quiet.
Defined.
End Laws.

(** The device itself, for what is not read through the cache. *)
Class AlignedHeap (d : bdev W) `{!FlatDevice d} := {
  aligned_memalign al n w : 0 < n < 2 ^ 32 ->
    exists a w', memalign al n w = (Ret (Some a), w') /\ content (d := d) w' = content (d := d) w /\ 0 < a /\ a + n < 2 ^ 64;
}.

#[export] Instance disk_reads (d : bdev W) `{!FlatDevice d} `{!QuietHeap d} `{!AlignedHeap d} image :
  read d = default_hook -> ~ may_fail -> Z.of_nat (length image) = BlockDev.size d ->
  @ReadDevice _ _ _ cache_store d (fun s => content (d := d) (bc_world s) = image) image.
Proof.
  intros Hread Hok Himage. split.
  - intros s addr buf from n Hq Ha Hf Hn Hin Hfit.
    change (@store_device_read _ _ _ cache_store d addr buf from n s) with (on_world (tegrabl_blockdev_read (Some d) addr buf from n) s). unfold on_world.
    pose proof (t_blockdev_read d addr from n buf image Ha Hf Hn ltac:(lia) Hfit Himage Hread (bc_world s) (eq_sym Hq)) as Ht.
    destruct (tegrabl_blockdev_read _ _ _ _ _ (bc_world s)) as [[b|e| | |] w']; destruct Ht as [_ Ht]; try done; [|by destruct Ht].
    destruct Ht as [Hc ->]. eexists. split; [done|]. cbn. congruence.
  - intros s al n Hq Hn. destruct (aligned_memalign al n (bc_world s) Hn) as (a & w & E & Hw & Ha & Ha2). cbn. unfold bind, on_world. rewrite E. cbn.
    eexists _, a, _. split; [done|]. split; [apply quiet_fresh|]. split; [done|]. split; [done|]. cbn. congruence.
  - intros s a Hq. destruct (quiet_free a (bc_world s)) as (w & E & Hw). cbn. unfold on_world. rewrite E. eexists. split; [done|]. cbn. congruence.
Qed.
End CacheStore.

(** ** Theorems *)

(** C33.  From the disk to the caller: a read of less than 2^31 bytes, in front of the
    blocks of the second table (the first 12 blocks and those of the single table), from
    a file that is opened by its path gives the bytes of the file: those of the blocks
    the format maps it to ([format_block]), and zeros for a hole.  The walk goes over
    directories that lie in the same reach, then over the tables, the block cache with
    its evictions and the byte functions of the device.  The end of the file cuts the
    read short, bytes of the buffer behind those that are read stay as they were, and no
    block stays held. *)
Theorem ext2_reads_files {W} `{DmaHeap W} `{HeapApi W} (E : fs_errors) (debug : bool) code fresh memalign (uninit : Z -> list Z)
    (d : bdev W) `{!FlatDevice d} `{!QuietHeap fresh d} (ext2 : ext2_t (bdev W) (bcache W)) K image s cs i inode buf off len :
  let c := cache ext2 in let bs := E2FS_BLOCK_SIZE (super_blk ext2) in let vol := block_of c image in let st := cache_store debug code fresh memalign in
  Bcache.dev c = Some d -> read d = default_hook -> write d = default_hook -> ~ may_fail -> block_size c = bs -> 0 <= Bcache.fs_offset c -> (0 < K)%nat ->
  Z.of_nat (length image) = BlockDev.size d -> bytes image -> small_blocks (super_blk ext2) -> (forall n, length (uninit n) = Z.to_nat n) ->
  serves c d s vol ∅ ∅ K ->
  cs <> [] -> Forall clean cs -> (length (joined cs) < 511)%nat ->
  finds_in E ext2 vol (valid c d) (format_dir ext2 vol (valid c d)) (root_inode ext2) cs (inl i) ->
  inode_is ext2 vol (valid c d) i inode -> S_ISREG (e2di_mode inode) = true ->
  0 <= off -> 0 < len -> off + len < 2 ^ 64 -> 0 <= ext2_file_len ext2 inode < 2 ^ 64 ->
  let n := available ext2 inode off len in
  n <= Z.of_nat (length buf) -> n < 2 ^ 31 -> off + n <= (EXT2_NDIR_BLOCKS + E2FS_ADDR_PER_BLOCK (super_blk ext2)) * bs ->
  (forall k, off / bs <= k -> k * bs < off + n -> format_ok ext2 vol (valid c d) inode k) ->
  exists s', @open_and_read _ _ _ st E ext2 uninit (slash :: joined cs) buf off len s =
    (Ret (n, blit buf 0 (format_bytes ext2 vol inode off n)), s') /\ serves c d s' vol ∅ ∅ K.
Proof.
  intros c bs vol st Hdev Hrd Hwr Hok Hbsz Hfs HK Himg Hbytes Hsb Hun Hs Hne Hc Hl Hf Hino Hreg Hoff Hlen Hend Hsz n Hn Hmax Hfront Hblk.
  pose proof (block_size_pos ext2 Hsb) as Hb. fold bs in Hb. rewrite <- format_start_bytes by done.
  assert (Hbs : 0 < block_size c) by (rewrite Hbsz; lia).
  pose (R := cache_reads debug code fresh memalign d c bs K image Hdev Hrd Hwr Hok Hbsz Hbs Hfs HK Himg Hbytes).
  apply (finds_in_mono _ _ _ _ _ (dir_is ext2 vol (valid c d))) in Hf; [|by intros; apply format_dir_is].
  refine (open_and_read_run E ext2 uninit vol (valid c d) (ReadStore0 := R) Hsb Hun cs i inode buf off len s Hne Hc Hl Hf Hino Hreg Hs Hoff Hlen Hend Hsz Hn Hmax _).
  intros k Hk1 Hk2. apply format_start_ok; [done| |by apply Hblk].
  split; [transitivity (off / bs); [apply Z.div_pos; lia|exact Hk1]|]. apply (Z.mul_lt_mono_pos_r bs); [lia|]. eapply Z.lt_le_trans; [exact Hk2|exact Hfront].
Qed.

(** ** A disk with a file system *)

(** Sixteen blocks: [/boot/k] has 2500 bytes, in block 9, a hole and block 10. *)
Definition img_bytes (o : Z) (x b : list Z) : list Z := blit b (Z.to_nat o) x.
Definition img_words (l : list Z) : list Z := concat (map (le 4) l).
Definition img_inode (mode size : Z) (blocks : list Z) : list Z := le 4 mode ++ le 4 size ++ repeat 0 32 ++ img_words blocks.
Definition root_entries : list dirent := [mk_dirent 2 2 [46] [0; 0; 0]; mk_dirent 11 2 [98; 111; 111; 116] (repeat 0 1000)].
Definition boot_entries : list dirent := [mk_dirent 12 1 [107] (repeat 0 1015)].
Definition img_content : list Z :=
  fold_left (fun b p => img_bytes p.1 p.2 b)
    [(1024, img_words [16; 16; 0; 0; 0; 1; 0; 0; 16; 16; 16; 0; 0] ++ le 4 0 ++ le 2 E2FS_MAGIC); (1100, le 4 1); (1112, le 2 256);
     (2048, img_words [0; 0; 3]);
     (3328, img_inode 0x4000 1024 [7]); (5632, img_inode 0x4000 1024 [8]); (5888, img_inode 0x8000 2500 [9; 0; 10]);
     (7168, concat (map encode root_entries)); (8192, concat (map encode boot_entries));
     (9216, repeat 107 1024); (10240, repeat 97 452)] (repeat 0 (Z.to_nat 16384)).
Definition img_disk : bdev (list Z) := ram_disk 9 32 0x30000.
#[export] Instance img_device : FlatDevice img_disk.
Proof. apply disk_device; unfold in_word; lia. Defined.

Definition img_fresh (a n : Z) : list Z := repeat 99 (Z.to_nat n).
Definition img_uninit (n : Z) : list Z := repeat 5 (Z.to_nat n).
Definition img_errors : fs_errors := mk_errors (-1) (-2) (-5) (-7) (-18) (-30).
Definition img_store : FsStore (cache_mem (list Z)) (bdev (list Z)) (bcache (list Z)) :=
  @cache_store (list Z) _ bump_heap true (-1) img_fresh (fun _ n => @heap_malloc (list Z) bump_heap n).
Definition img_start : cache_mem (list Z) := mk_mem ∅ ∅ ∅ stats0 img_content.

(** Mounting, opening and reading, by running the model. *)
Example mount_open_read :
  match @ext2_mount _ _ _ img_store img_errors (Some img_disk) 0 img_start with
  | (Ret (err, Some (a, e)), s) => err = 0 /\
      (@open_and_read _ _ _ img_store img_errors e img_uninit ([47; 98; 111; 111; 116; 47; 107]) (repeat 1 1503) 1000 2000 s).1 =
        Ret (1500, repeat 107 24 ++ repeat 0 1024 ++ repeat 97 452 ++ [1; 1; 1])
  | _ => False
  end.
Proof. vm_compute. by split. Qed.

(** What is on that disk, at its start and where nothing is. *)
Example detect_image :
  (@fs_detect _ _ _ img_store 4096 (repeat 0 1024) img_disk 0 img_start).1 = Ret (Some ext2_name) /\
  (@fs_detect _ _ _ img_store 4096 (repeat 0 1024) img_disk 2 img_start).1 = Ret None.
Proof. vm_compute. by split. Qed.

(** The cache over that disk when it is new, and the file system on it. *)
Definition img_created : outcome (option (bcache (list Z))) * cache_mem (list Z) :=
  @bcache_create (list Z) bump_heap img_fresh (Some img_disk) 1024 4 0 img_start.
Definition img_cache : bcache (list Z) :=
  mk_bcache (Some img_disk) 1024 4 0 266296 266312 267776.
Definition img_mem : cache_mem (list Z) := img_created.2.
Lemma img_created_ok : match img_created.1 with
  | Ret (Some c) => (block_size c, Bcache.count c, Bcache.fs_offset c, free_list c, lru_list c, blocks c) =
      (block_size img_cache, Bcache.count img_cache, Bcache.fs_offset img_cache, free_list img_cache, lru_list img_cache, blocks img_cache)
  | _ => False
  end.
Proof. vm_compute. reflexivity. Qed.
Definition img_entry (i : Z) : entry :=
  let a := 267776 + 40 * i in
  mk_entry a 0 0 false (default 0 (ptr <$> block_at img_mem !! a)) (img_fresh 0 1024).
Definition img_entries : list entry := [img_entry 3; img_entry 2; img_entry 1; img_entry 0].

Lemma img_rep : rep img_cache img_mem img_entries [].
Proof.
  split.
  - split; [refine (bool_decide_unpack _ _); vm_compute; exact I|vm_compute; by split_and!].
  - split; [refine (bool_decide_unpack _ _); vm_compute; exact I|vm_compute; by split_and!].
  - refine (bool_decide_unpack _ _); vm_compute; exact I.
  - refine (bool_decide_unpack _ _); vm_compute; exact I.
  - intros e He. unfold img_entries in He. rewrite app_nil_r, !elem_of_cons, elem_of_nil in He.
    destruct He as [->|[->|[->|[->|[]]]]]; split_and!; vm_compute; reflexivity.
Qed.

Lemma img_length : length img_content = disk_size 9 32.
Proof. vm_compute. reflexivity. Qed.

Lemma disk_more lg count w n : disk lg count (w ++ repeat 0 n) = disk lg count w.
Proof.
  unfold disk. rewrite <- app_assoc, <- repeat_app, Nat.add_comm, repeat_app, app_assoc. apply take_app_le.
  rewrite length_app, repeat_length. lia.
Qed.

#[export] Instance img_heap : @QuietHeap (list Z) _ bump_heap img_fresh img_disk _.
Proof.
  split; cbn.
  - intros n w. eexists _, _. split; [done|]. apply disk_more.
  - intros a w. by eexists.
  - intros a n. apply repeat_length.
Qed.

(** The disk is as it was: what the heap has taken lies behind it. *)
Lemma img_on_disk : content (d := img_disk) (bc_world img_mem) = img_content.
Proof.
  cbn [content img_device disk_device]. assert (exists n, bc_world img_mem = img_content ++ repeat 0 n) as [n ->].
  { exists (length (bc_world img_mem) - length img_content)%nat. refine (bool_decide_unpack _ _). vm_compute. exact I. }
  rewrite disk_more. apply disk_id, img_length.
Qed.

Lemma img_serves : serves img_cache img_disk img_mem (block_of img_cache img_content) ∅ ∅ 4.
Proof.
  exists img_entries, []. split; [apply img_rep|]. rewrite img_on_disk. split.
  { split; try (intros e He; by apply elem_of_nil in He); [constructor|].
    intros e He. unfold img_entries in He. rewrite !elem_of_cons, elem_of_nil in He. by destruct He as [->|[->|[->|[->|[]]]]]. }
  split_and!; [done| | |intros e He; by apply elem_of_nil in He|intros e He; by apply elem_of_nil in He].
  - intros n _. unfold view. cbn [find]. reflexivity.
  - intros n k. rewrite lookup_empty. split; [done|]. intros (_ & e & He & _). by apply elem_of_nil in He.
Qed.

Lemma img_is_bytes : bytes img_content.
Proof. apply bytes_dec. vm_compute. reflexivity. Qed.

Definition img_block (b : Z) : list Z := block_of img_cache img_content b.
Definition img_sb : list Z := img_block 1.
Definition img_inode_at (b o : Z) : list Z := slice (img_block b) (Z.to_nat o) (Z.to_nat DINODE_LEN).
Definition img_root : list Z := img_inode_at 3 256.
Definition img_boot : list Z := img_inode_at 5 512.
Definition img_file : list Z := img_inode_at 5 768.
Definition img_ext2 : ext2_t (bdev (list Z)) (bcache (list Z)) :=
  mk_ext2 img_disk img_cache img_sb 1 4096 (slice (img_block 2) 0 32) img_root 0.
Notation img_ok := (valid img_cache img_disk).

Lemma img_encodes es blk : forallb (fun e => (0 <=? d_ino e) && (d_ino e <? 2 ^ 32) && (length (d_name e) <? 256)%nat && (rec_len e mod 4 =? 0) &&
    (rec_len e <? 2 ^ 16) && forallb (fun x => (0 <=? x) && (x <? 256)) (d_name e)) es = true ->
  bool_decide (img_block blk = concat (map encode es)) = true -> Z.of_nat (length (img_block blk)) = 1024 -> encodes 1024 es (img_block blk).
Proof.
  intros Hes He Hl. split; [|split; [by apply bool_decide_eq_true in He|done]]. apply Forall_forall. intros e Hin. rewrite forallb_forall in Hes.
  specialize (Hes e (proj1 (list_elem_of_In _ _) Hin)). rewrite !andb_true_iff in Hes. destruct Hes as [[[[[? ?] Hn] ?] ?] Hb].
  apply bytes_dec in Hb. apply Nat.ltb_lt in Hn. unfold entry_ok, in_word. split_and!; try lia; done.
Qed.

Ltac img_dir Hs b := apply (one_format_block _ _ _ Hs _ b 1024); [vm_compute; reflexivity..|done|done|lia|apply img_encodes; vm_compute; reflexivity].

#[export] Instance img_cached : @ReadStore _ _ _ img_store (cache img_ext2) (E2FS_BLOCK_SIZE (super_blk img_ext2)) img_block img_ok.
Proof.
  apply (cache_reads (H0 := bump_heap) true (-1) img_fresh _ img_disk img_cache _ 4 img_content); [done..|by intros ?| |done|done|lia| |apply img_is_bytes];
    vm_compute; reflexivity.
Defined.

Lemma img_root_dir : format_dir img_ext2 img_block img_ok img_root [root_entries].
Proof. assert (Hsb : small_blocks (super_blk img_ext2)) by (vm_compute; split; discriminate). assert (Hok7 : img_ok 7) by (split; vm_compute; discriminate). img_dir Hsb 7. Qed.
Lemma img_boot_dir : format_dir img_ext2 img_block img_ok img_boot [boot_entries].
Proof. assert (Hsb : small_blocks (super_blk img_ext2)) by (vm_compute; split; discriminate). assert (Hok8 : img_ok 8) by (split; vm_compute; discriminate). img_dir Hsb 8. Qed.
Lemma img_inodes : inode_is img_ext2 img_block img_ok 11 img_boot /\ inode_is img_ext2 img_block img_ok 12 img_file.
Proof.
  assert (Hok5 : img_ok 5) by (split; vm_compute; discriminate).
  split; [exists 5, 512|exists 5, 768]; (split; [vm_compute; reflexivity|]; split; [done|]; split; [done|]; split; [vm_compute; discriminate|reflexivity]).
Qed.

Lemma file_blocks_mapped_witness : exists s', @file_block_to_fs_block _ _ _ img_store img_ext2 img_file 2 img_mem = (Ret 10, s').
Proof.
  assert (Hs : small_blocks (super_blk img_ext2)) by (vm_compute; split; discriminate).
  destruct (file_blocks_mapped (H := img_store) img_ext2 img_block img_ok (ReadStore0 := img_cached) img_file img_mem Hs img_serves) as [Hb _].
  destruct (Hb 2) as (s' & E & _).
  - vm_compute; split; [discriminate|reflexivity].
  - split; [exact I|right; split; vm_compute; discriminate].
  - exists s'. etransitivity; [exact E|]. do 2 f_equal.
Defined.

(** [/boot/k/x] goes through a file. *)
Lemma path_resolves_witness : exists s' inum,
  @ext2_lookup _ _ _ img_store img_errors img_uninit img_ext2 [47; 98; 111; 111; 116; 47; 107; 47; 120] img_mem = (Ret (-2, inum), s').
Proof.
  assert (Hs : small_blocks (super_blk img_ext2)) by (vm_compute; split; discriminate). destruct img_inodes as [Hi11 Hi12].
  destruct (path_resolves (H := img_store) img_errors img_ext2 img_uninit img_block img_ok (ReadStore0 := img_cached) [[98; 111; 111; 116]; [107]; [120]] (inr (-2)) img_mem)
    as (s' & _ & inum & E).
  - exact Hs.
  - intros n. apply repeat_length.
  - exact img_serves.
  - done.
  - repeat constructor; done.
  - cbn; lia.
  - eapply (finds_step _ _ _ _ _ img_root [root_entries] _ _ _ 11 img_boot); [by apply format_dir_is, img_root_dir|vm_compute; reflexivity|exact Hi11|vm_compute; reflexivity..|].
    apply (finds_nondir img_errors _ _ _ _ img_boot [boot_entries] _ _ _ 12 img_file); [by apply format_dir_is, img_boot_dir|vm_compute; reflexivity|exact Hi12|vm_compute; reflexivity..].
  - exists s', inum. exact E.
Defined.

Lemma ext2_reads_files_witness : exists s',
  @open_and_read _ _ _ img_store img_errors img_ext2 img_uninit [47; 98; 111; 111; 116; 47; 107] (repeat 1 1503) 1000 2000 img_mem =
    (Ret (1500, repeat 107 24 ++ repeat 0 1024 ++ repeat 97 452 ++ [1; 1; 1]), s') /\
  serves img_cache img_disk s' (block_of img_cache img_content) ∅ ∅ 4.
Proof.
  destruct img_inodes as [Hi11 Hi12].
  destruct (ext2_reads_files (H0 := bump_heap) img_errors true (-1) img_fresh (fun _ n => @heap_malloc (list Z) bump_heap n) img_uninit img_disk
    img_ext2 4 img_content img_mem [[98; 111; 111; 116]; [107]] 12 img_file (repeat 1 1503) 1000 2000) as (s' & E & Hs').
  - done.
  - done.
  - done.
  - by intros ?.
  - vm_compute; reflexivity.
  - done.
  - lia.
  - vm_compute; reflexivity.
  - apply img_is_bytes.
  - vm_compute; split; discriminate.
  - intros n. apply repeat_length.
  - apply img_serves.
  - done.
  - repeat constructor; done.
  - cbn; lia.
  - eapply (finds_step _ _ _ _ _ img_root [root_entries] _ _ _ 11 img_boot); [exact img_root_dir|vm_compute; reflexivity|exact Hi11|vm_compute; reflexivity..|].
    eapply (finds_last _ _ _ _ _ img_boot [boot_entries] _ 12 img_file); [exact img_boot_dir|vm_compute; reflexivity|exact Hi12|vm_compute; reflexivity].
  - exact Hi12.
  - vm_compute; reflexivity.
  - done.
  - done.
  - done.
  - vm_compute; split; [discriminate|reflexivity].
  - vm_compute; discriminate.
  - vm_compute; reflexivity.
  - vm_compute; discriminate.
  - intros k Hk1 Hk2. assert (Ea : available img_ext2 img_file 1000 2000 = 1500) by (vm_compute; reflexivity). rewrite Ea in Hk2.
    assert (Ebs : E2FS_BLOCK_SIZE (super_blk (img_ext2)) = 1024) by (vm_compute; reflexivity). rewrite Ebs in *. change (1000 / 1024) with 0 in Hk1.
    assert (k = 0 \/ k = 1 \/ k = 2) as [->|[->| ->]] by lia.
    + split; [exact I|right; split; vm_compute; discriminate].
    + split; [exact I|left; vm_compute; reflexivity].
    + split; [exact I|right; split; vm_compute; discriminate].
  - exists s'. split; [|exact Hs']. match type of E with _ = (Ret (?n, ?b), _) =>
      assert (En : n = 1500) by (vm_compute; reflexivity);
      assert (Eb : b = repeat 107 24 ++ repeat 0 1024 ++ repeat 97 452 ++ [1; 1; 1]) by (refine (bool_decide_unpack _ _); vm_compute; exact I) end.
    rewrite Eb, En in E. exact E.
Defined.

(** ** A file and a directory in extents on that disk *)

Definition img_extent_inode (mode : Z) (es : list (Z * Z * Z)) : list Z :=
  le 4 mode ++ le 4 0 ++ repeat 0 24 ++ le 4 FLAG_EXTENTS ++ le 4 0 ++
  le 2 E4FS_EXTENTS_MAGIC ++ le 2 (Z.of_nat (length es)) ++ le 2 4 ++ le 2 0 ++ le 4 0 ++
  concat (map (fun e => le 4 e.1.1 ++ le 2 e.1.2 ++ le 2 0 ++ le 4 e.2) es) ++ repeat 0 60.
Definition img_file4 : list Z := img_extent_inode 0x8000 [(0, 1, 9); (1, 1, 10)].
Definition img_dir4 : list Z := img_extent_inode 0x4000 [(0, 1, 8)].
Definition img_align (al n : Z) : M (list Z) (option Z) := ret (Some SZ_64K).

#[export] Instance img_aligned : AlignedHeap img_align img_disk.
Proof. split. intros al n w Hn. exists SZ_64K, w. repeat split. unfold SZ_64K. lia. Qed.

Definition img_store4 : FsStore (cache_mem (list Z)) (bdev (list Z)) (bcache (list Z)) :=
  @cache_store (list Z) _ bump_heap true (-1) img_fresh img_align.
#[export] Instance img_reads : @ReadDevice _ _ _ img_store4 img_disk (fun s => content (d := img_disk) (bc_world s) = img_content) img_content.
Proof. apply disk_reads; [apply _|apply _|done|by intros ?|vm_compute; reflexivity]. Qed.

Ltac img_extents := split; [vm_compute; reflexivity|intros [|[|i]] e Hi; cbn in Hi; try discriminate Hi; injection Hi as <-; vm_compute; reflexivity].
Ltac img_placed := repeat constructor; vm_compute; first [discriminate|split; [discriminate|reflexivity]].
Ltac img_leaf := split; [vm_compute; reflexivity|left; split; [vm_compute; reflexivity|reflexivity]].

Lemma ext4_reads_extents_witness : exists s',
  @ext4_read_file _ _ _ img_store4 img_errors (mk_file img_ext2 [] img_file4) 4096 (repeat 1 2050) 0 1500 img_mem =
    (Ret (2048, repeat 107 1024 ++ repeat 97 452 ++ repeat 0 572 ++ [1; 1]), s').
Proof.
  destruct (ext4_reads_extents (H := img_store4) img_errors img_ext2 _ img_content (ReadDevice0 := img_reads) [] img_file4 (extents_of img_file4)
    [mk_extent 0 1 0 9; mk_extent 1 1 0 10] 4096 (repeat 1 2050) 1500 img_mem) as [Hr _].
  - vm_compute; split; discriminate.
  - done.
  - done.
  - vm_compute; reflexivity.
  - done.
  - img_leaf.
  - img_extents.
  - cbn; lia.
  - img_placed.
  - apply img_on_disk.
  - done.
  - vm_compute; reflexivity.
  - destruct Hr as (s' & E & _); [vm_compute; split; [discriminate|reflexivity]|]. exists s'. etransitivity; [exact E|]. do 2 f_equal.
Defined.

Lemma ext4_directories_witness : exists s',
  @ext4_dir_lookup _ _ _ img_store4 (-1) (-5) (-7) (-2) (-18) img_ext2 img_dir4 [107] img_mem = (Ret (1024, Some 12), s').
Proof.
  destruct (ext4_directories (H := img_store4) img_errors img_ext2 _ img_content (ReadDevice0 := img_reads) img_dir4 (extents_of img_dir4)
    [mk_extent 0 1 0 8] [107] img_mem) as [Hr _].
  - vm_compute; split; discriminate.
  - done.
  - done.
  - split; vm_compute; reflexivity.
  - img_leaf.
  - img_extents.
  - cbn; lia.
  - img_placed.
  - apply img_on_disk.
  - destruct (Hr boot_entries) as (s' & _ & E); [done| |exists s'; exact E].
    assert (file_data img_ext2 img_content [mk_extent 0 1 0 8] = img_block 8) as -> by (refine (bool_decide_unpack _ _); vm_compute; exact I).
    apply img_encodes; vm_compute; reflexivity.
Defined.
