(* ===== verification/Lz4.v ===== *)
(** * Decoding of LZ4 blocks

    [LZ4_decompress_safe] of lib/external/lz4/lz4.c, the only entry point the boot
    loader calls: [LZ4_decompress_generic] at the constant arguments it is inlined
    with (the input ends the block, whole blocks, no dictionary).  It runs on the
    memory of [Clib] and copies with its [memcpy]. *)
From stdpp Require Import gmap.
From S2P Require Import Prelude Interfaces Clib.
#[local] Open Scope Z_scope.

Definition MINMATCH : Z := 4.
Definition COPYLENGTH : Z := 8.
Definition LASTLITERALS : Z := 5.
Definition MFLIMIT : Z := COPYLENGTH + MINMATCH.
Definition ML_BITS : Z := 4.
Definition ML_MASK : Z := Z.shiftl 1 ML_BITS - 1.
Definition RUN_BITS : Z := 8 - ML_BITS.
Definition RUN_MASK : Z := Z.shiftl 1 RUN_BITS - 1.

Definition dec32table : list Z := [4; 1; 2; 1; 4; 4; 4; 4].
Definition dec64table : list Z := [0; 0; 0; -1; 0; 1; 2; 3].

Definition LZ4_readLE16 (memPtr : Z) : M mem Z := let! b := load_bytes 2 memPtr in ret (ld16 b 0).

(** [dec32table[i]]; a subscript outside of the table is [Undef]. *)
Definition table_at (table : list Z) (i : Z) : M mem Z :=
  lift (match table !! Z.to_nat i with Some v => if 0 <=? i then Ret v else Undef | None => Undef end).

Section Decode.
Variable dma : tegrabl_clib_dma.

Definition LZ4_copy4 (dst_ptr src_ptr : Z) : M mem unit := memcpy dma dst_ptr src_ptr 4 ;;; ret tt.
Definition LZ4_copy8 (dst_ptr src_ptr : Z) : M mem unit := memcpy dma dst_ptr src_ptr 8 ;;; ret tt.

(** [do { LZ4_copy8(d,s); d+=8; s+=8; } while (d<e);] *)
Fixpoint wild_copy (fuel : nat) (d s e : Z) : M mem unit :=
  match fuel with
  | O => nofuel
  | S fuel =>
      LZ4_copy8 d s ;;;
      let d := d + 8 in
      let s := s + 8 in
      if d <? e then wild_copy fuel d s e else ret tt
  end.
Definition LZ4_wildCopy (dstPtr srcPtr dstEnd : Z) : M mem unit :=
  wild_copy (S (Z.to_nat ((dstEnd - dstPtr) / 8))) dstPtr srcPtr dstEnd.

(** [while (op<cpy) *op++ = *match++;] *)
Definition copy_up_to (op from cpy : Z) : M mem unit := copy_bytes (Z.to_nat (cpy - op)) op from.

Section Block.
Variables (source dest iend oend : Z).

(** The position behind the bytes that lengthen [length], and the sum. *)
Fixpoint literal_length (fuel : nat) (ip length : Z) : M mem (Z * Z) :=
  match fuel with
  | O => nofuel
  | S fuel =>
      let! s := load ip in
      let ip := ip + 1 in
      let length := u64 (length + s) in
      if (ip <? iend - RUN_MASK) && (s =? 255) then literal_length fuel ip length else ret (ip, length)
  end.

(** [inl ip] is a jump to [_output_error] with the position it finds. *)
Fixpoint match_length (fuel : nat) (ip length : Z) : M mem (Z + Z * Z) :=
  match fuel with
  | O => nofuel
  | S fuel =>
      if iend - LASTLITERALS <? ip then ret (inl ip)
      else
        let! s := load ip in
        let ip := ip + 1 in
        let length := u64 (length + s) in
        if s =? 255 then match_length fuel ip length else ret (inr (ip, length))
  end.

(** The first eight bytes of a repeated sequence, and the positions behind them. *)
Definition match_head (op from : Z) : M mem (Z * Z) :=
  if op - from <? 8 then
    let! dec64 := table_at dec64table (op - from) in
    (let! v := load from in store op v) ;;;
    (let! v := load (from + 1) in store (op + 1) v) ;;;
    (let! v := load (from + 2) in store (op + 2) v) ;;;
    (let! v := load (from + 3) in store (op + 3) v) ;;;
    let! dec32 := table_at dec32table (op - from) in
    let from := from + dec32 in
    LZ4_copy4 (op + 4) from ;;;
    ret (op + 8, from - dec64)
  else LZ4_copy8 op from ;;; ret (op + 8, from + 8).

(** The copy of a repeated sequence of [length] bytes to [op]; [false] is a jump to
    [_output_error]. *)
Definition copy_match (op from length : Z) : M mem bool :=
  let cpy := op + length in
  let! (op, from) := match_head op from in
  if oend - 12 <? cpy then
    if oend - LASTLITERALS <? cpy then ret false
    else
      let! (op, from) :=
        if op <? oend - 8 then
          LZ4_wildCopy op from (oend - 8) ;;; ret (oend - 8, from + (oend - 8 - op))
        else ret (op, from) in
      copy_up_to op from cpy ;;; ret true
  else LZ4_wildCopy op from cpy ;;; ret true.

(** Where a turn of the main loop leads. *)
Inductive progress :=
  | output_error (ip : Z)
  | finished (op : Z)
  | next (ip op : Z).

(** The copy of the literals, the offset and the match behind them. *)
Definition after_length (fuel : nat) (token ip op length : Z) : M mem progress :=
  let cpy := op + length in
  if (oend - MFLIMIT <? cpy) || (iend - (2 + 1 + LASTLITERALS) <? ip + length) then
    if negb (ip + length =? iend) || (oend <? cpy) then ret (output_error ip)
    else memcpy dma op ip length ;;; ret (finished (op + length))
  else
    LZ4_wildCopy op ip cpy ;;;
    let ip := ip + length in
    let op := cpy in
    let! offset := LZ4_readLE16 ip in
    let from := cpy - offset in
    let ip := ip + 2 in
    if from <? dest then ret (output_error ip)
    else
      let length := Z.land token ML_MASK in
      let! r :=
        if length =? ML_MASK then
          let! r := match_length fuel ip length in
          ret (match r with
               | inr (ip, length) => if u64 (op + length) <? op then inl ip else inr (ip, length)
               | inl ip => inl ip
               end)
        else ret (inr (ip, length)) in
      match r with
      | inl ip => ret (output_error ip)
      | inr (ip, length) =>
          let length := u64 (length + MINMATCH) in
          let! ok := copy_match op from length in
          ret (if ok then next ip (op + length) else output_error ip)
      end.

Definition decode_turn (fuel : nat) (ip op : Z) : M mem progress :=
  let! token := load ip in
  let ip := ip + 1 in
  let length := Z.shiftr token ML_BITS in
  if length =? RUN_MASK then
    let! (ip, length) := literal_length fuel ip length in
    if (u64 (op + length) <? op) || (u64 (ip + length) <? ip) then ret (output_error ip)
    else after_length fuel token ip op length
  else after_length fuel token ip op length.

Fixpoint decode_loop (fuel : nat) (ip op : Z) : M mem Z :=
  match fuel with
  | O => nofuel
  | S fuel' =>
      let! p := decode_turn fuel ip op in
      match p with
      | output_error ip => ret (signedw 32 (- (ip - source)) - 1)
      | finished op => ret (signedw 32 (op - dest))
      | next ip op => decode_loop fuel' ip op
      end
  end.
End Block.

(** Every turn of a loop consumes a byte of the input, but the first may look at one
    byte more than there is. *)
Definition LZ4_decompress_safe (source dest compressedSize maxDecompressedSize : Z) : M mem Z :=
  let iend := source + compressedSize in
  let oend := dest + maxDecompressedSize in
  if maxDecompressedSize =? 0 then
    if compressedSize =? 1 then (let! b := load source in ret (if b =? 0 then 0 else -1)) else ret (-1)
  else decode_loop source dest iend oend (2 + Z.to_nat compressedSize) source dest.
End Decode.
