(* ===== verification/Lz4Spec.v ===== *)
(** * LZ4 blocks: safety and correctness

    Whatever the input, the decoder writes only the output buffer, reads only its
    input and what it has a place for, and ends; and what the format means for a
    well-formed block is what it leaves in the buffer. *)
From stdpp Require Import gmap.
From S2P Require Import Prelude Interfaces Clib ClibSpec CString CStringSpec MemSpec Lz4.
#[local] Open Scope Z_scope.

(** ** Safety *)

Lemma table_at_run table i v (m : mem) : 0 <= i -> table !! Z.to_nat i = Some v -> table_at table i m = (Ret v, m).
Proof. intros Hi Hv. unfold table_at, lift. rewrite Hv. by destruct (Z.leb_spec 0 i); [|lia]. Qed.

(** What a match at a distance below eight is moved by. *)
Lemma tables k : 0 <= k < 8 -> exists a b, dec32table !! Z.to_nat k = Some a /\ dec64table !! Z.to_nat k = Some b /\
  1 <= a <= 4 /\ 1 <= a - b <= 4 /\ (0 < k -> a <= k /\ 8 <= 8 + k - (a - b) /\ (4 + k - a) mod k = 0 /\ (8 + k - (a - b)) mod k = 0).
Proof.
  intros Hk. assert (k ∈ [0; 1; 2; 3; 4; 5; 6; 7]) as Hin by (rewrite !elem_of_cons; lia).
  rewrite !elem_of_cons in Hin. repeat destruct Hin as [->|Hin]; try (by apply not_elem_of_nil in Hin).
  all: eexists _, _; split; [reflexivity|split; [reflexivity|]]; repeat split; (lia || done).
Qed.

Lemma error_value x : 0 <= x < 2 ^ 31 -> signedw 32 (- x) = - x.
Proof.
  intros Hx. unfold signedw, wrapw. destruct (decide (x = 0)) as [->|]; [done|].
  replace (- x mod 2 ^ 32) with (2 ^ 32 - x) by (Z.div_mod_to_equations; lia). destruct (Z.ltb_spec (2 ^ 32 - x) (2 ^ (32 - 1))); lia.
Qed.

Section Safety.
Variables (D : Z -> Prop) (U E : Prop) (dma : tegrabl_clib_dma) (source dest iend oend : Z).
Hypothesis Law : forall f, memcpy_callback dma = Some f -> engine_contained f.
(** What is not mapped is the reason of a failed access. *)
Hypothesis Hsource : forall x, source <= x < Z.max iend (source + 2) -> ~ D x -> U.
Hypothesis Hbuffer : forall x, dest <= x < oend -> ~ D x -> U.
Hypothesis Hdest : 4 <= dest.

Abbreviation inside := (contained D U E dest oend).

Lemma input_reads a n : source <= a -> a + n <= Z.max iend (source + 2) -> reads D U a n.
Proof using Hsource. intros ?? x Hx. apply Hsource. lia. Qed.
Lemma output_reads a n : dest <= a -> a + n <= oend -> reads D U a n.
Proof using Hbuffer. intros ?? x Hx. apply Hbuffer. lia. Qed.
Lemma output_writes a n : dest <= a -> a + n <= oend -> writes D U dest oend a n.
Proof using Hbuffer. intros ??. right. split; [done|]. split; [done|by apply output_reads]. Qed.

Lemma LZ4_copy8_safe d s : dest <= d -> d + 8 <= oend -> reads D U s 8 -> inside (fun _ => True) (LZ4_copy8 dma d s).
Proof using Law Hbuffer.
  intros ???. eapply contained_bind; [apply contained_memcpy; [done|lia|by apply output_writes|done]|]. intros _ _. by apply contained_ret.
Qed.

Lemma wild_copy_safe fuel : forall d s e n, (Z.to_nat ((e - d) / 8) < fuel)%nat -> n = Z.max 8 (e - d + 7) ->
  dest <= d -> d + n <= oend -> reads D U s n -> inside (fun _ => True) (wild_copy dma fuel d s e).
Proof using Law Hbuffer.
  induction fuel as [|fuel IH]; intros d s e n Hf -> Hd He Hs; [lia|]. cbn [wild_copy].
  eapply contained_bind; [apply LZ4_copy8_safe; [done|lia|eapply reads_sub; [exact Hs|lia|lia]]|]. intros _ _.
  destruct (Z.ltb_spec (d + 8) e); [|by apply contained_ret].
  apply (IH _ _ _ (Z.max 8 (e - (d + 8) + 7))); [|done|lia|lia|eapply reads_sub; [exact Hs|lia|lia]].
  assert (1 <= (e - d) / 8) by (Z.div_mod_to_equations; lia). replace ((e - (d + 8)) / 8) with ((e - d) / 8 - 1) by (Z.div_mod_to_equations; lia). lia.
Qed.

Lemma LZ4_wildCopy_safe d s e n : n = Z.max 8 (e - d + 7) -> dest <= d -> d + n <= oend -> reads D U s n ->
  inside (fun _ => True) (LZ4_wildCopy dma d s e).
Proof using Law Hbuffer. intros. eapply wild_copy_safe; [lia|done..]. Qed.

(** A lengthened length stops in front of the last bytes of the input. *)
Lemma literal_length_safe fuel : forall ip length, source <= ip -> ip + 1 <= Z.max iend (source + 2) ->
  (Z.to_nat (iend - ip) < fuel)%nat -> 0 <= length ->
  inside (fun r => ip < fst r <= Z.max (ip + 1) (iend - 15) /\ 0 <= snd r < 2 ^ 64) (literal_length iend fuel ip length).
Proof using Hsource.
  induction fuel as [|fuel IH]; intros ip length Hip Hip2 Hf Hl; [lia|]. cbn [literal_length].
  apply (contained_bind _ _ _ _ _ is_byte); [apply contained_load, input_reads; lia|]. intros s Hs. change RUN_MASK with 15.
  pose proof (wrapw_range 64 (length + s) ltac:(lia)) as Hw. unfold in_word in Hw. destruct (Z.ltb_spec (ip + 1) (iend - 15)); cbn [andb].
  - destruct (s =? 255); [|apply contained_ret; cbn; lia].
    eapply contained_weaken; [apply IH; lia|]. intros [ip' length'] Hr. cbn in *. lia.
  - apply contained_ret. cbn. lia.
Qed.

Lemma match_length_safe fuel : forall ip length, source <= ip -> (Z.to_nat (iend - ip) < fuel)%nat -> 0 <= length ->
  inside (fun r => match r with inl ip' => ip <= ip' <= Z.max ip (iend - 4) | inr (ip', length') => ip < ip' <= iend - 4 /\ 0 <= length' < 2 ^ 64 end)
    (match_length iend fuel ip length).
Proof using Hsource.
  induction fuel as [|fuel IH]; intros ip length Hip Hf Hl; [lia|]. cbn [match_length]. change LASTLITERALS with 5.
  destruct (Z.ltb_spec (iend - 5) ip); [apply contained_ret; lia|].
  apply (contained_bind _ _ _ _ _ is_byte); [apply contained_load, input_reads; lia|]. intros s Hs.
  pose proof (wrapw_range 64 (length + s) ltac:(lia)) as Hw. unfold in_word in Hw. destruct (s =? 255); [|apply contained_ret; lia].
  eapply contained_weaken; [apply IH; lia|]. intros [|[ip' length']] Hr; cbn in *; lia.
Qed.

Lemma byte_safe d s : dest <= d < oend -> dest <= s < oend -> inside (fun _ => True) (let! v := load s in store d v).
Proof using Hbuffer.
  intros Hd Hs. apply (contained_bind _ _ _ _ _ is_byte); [apply contained_load, output_reads; lia|]. intros v Hv.
  apply contained_store; [apply output_writes; lia|done].
Qed.

Lemma table_at_safe table k v : 0 <= k -> table !! Z.to_nat k = Some v -> inside (eq v) (table_at table k).
Proof using. intros Hk Hv m G. by rewrite (table_at_run _ _ _ _ Hk Hv). Qed.

Lemma match_head_safe op from : dest <= from <= op -> op <= oend - 12 ->
  inside (fun r => fst r = op + 8 /\ from <= snd r <= op + 4) (match_head dma op from).
Proof using Law Hbuffer.
  intros Hfrom Hop. unfold match_head. destruct (Z.ltb_spec (op - from) 8).
  - destruct (tables (op - from)) as (a & b & Ha & Hb & ? & ? & _); [lia|].
    eapply contained_bind; [apply (table_at_safe _ _ b); [lia|done]|]. intros ? <-.
    do 4 (eapply contained_bind; [apply byte_safe; lia|]; intros _ _).
    eapply contained_bind; [apply (table_at_safe _ _ a); [lia|done]|]. intros ? <-.
    apply (contained_bind _ _ _ _ _ (fun _ => True)); [|intros _ _; apply contained_ret; cbn; lia].
    eapply contained_bind; [apply contained_memcpy; [done|lia|apply output_writes; lia|apply output_reads; lia]|]. intros _ _. by apply contained_ret.
  - eapply contained_bind; [apply LZ4_copy8_safe; [lia|lia|apply output_reads; lia]|]. intros _ _. apply contained_ret. cbn. lia.
Qed.

Lemma copy_match_safe op from length : dest <= from <= op -> op <= oend - 12 -> 4 <= length ->
  inside (fun ok => ok = true -> op + length <= oend - 5) (copy_match dma oend op from length).
Proof using Law Hbuffer.
  intros Hfrom Hop Hl. unfold copy_match. eapply contained_bind; [by apply match_head_safe|]. intros [o f] (Ho & Hf). cbn in Ho, Hf. subst o.
  change LASTLITERALS with 5. destruct (Z.ltb_spec (oend - 12) (op + length)).
  - destruct (Z.ltb_spec (oend - 5) (op + length)); [by apply contained_ret|].
    apply (contained_bind _ _ _ _ _ (fun r => dest <= snd r <= fst r)).
    { destruct (Z.ltb_spec (op + 8) (oend - 8)); [|apply contained_ret; cbn; lia].
      eapply contained_bind; [eapply LZ4_wildCopy_safe; [done|lia|lia|apply output_reads; lia]|]. intros _ _. apply contained_ret. cbn. lia. }
    intros [o f'] Hr. cbn in Hr. eapply contained_bind; [|intros _ _; apply contained_ret; lia].
    unfold copy_up_to. apply contained_copy_bytes; (destruct (decide (o <= op + length)); [|first [left; lia|intros x ?; lia]]).
    + apply output_writes; lia.
    + apply output_reads; lia.
  - eapply contained_bind; [eapply LZ4_wildCopy_safe; [done|lia|lia|apply output_reads; lia]|]. intros _ _. apply contained_ret. lia.
Qed.

Lemma readLE16_safe ip : source <= ip -> ip + 2 <= Z.max iend (source + 2) -> inside (fun v => 0 <= v < 65536) (LZ4_readLE16 ip).
Proof using Hsource.
  intros ??. eapply contained_bind; [apply (contained_load_bytes _ _ _ _ _ 2), input_reads; lia|]. intros b [Hb Hb']. apply contained_ret. by apply (ldn_range 2).
Qed.

(** Where a turn of the main loop can lead. *)
Definition turn_ok (ip0 top : Z) (p : progress) : Prop :=
  match p with
  | output_error ip => ip0 <= ip <= Z.max top iend
  | finished op => dest <= op <= oend
  | next ip op => ip0 < ip <= iend - 4 /\ dest <= op <= oend
  end.

Lemma after_length_safe fuel token ip op length : source <= ip -> dest <= op <= oend ->
  (Z.to_nat (iend - ip) < fuel)%nat -> 0 <= length < 2 ^ 64 ->
  inside (turn_ok ip ip) (after_length dma dest iend oend fuel token ip op length).
Proof using Law Hsource Hbuffer Hdest.
  intros Hip Hop Hf Hl. unfold after_length. change MFLIMIT with 12. change (2 + 1 + LASTLITERALS) with 8.
  destruct ((oend - 12 <? op + length) || (iend - 8 <? ip + length)) eqn:Ee.
  - destruct (negb (ip + length =? iend) || (oend <? op + length)) eqn:E2; [apply contained_ret; cbn; lia|]. zbool.
    eapply contained_bind; [apply contained_memcpy; [done|lia|apply output_writes; lia|apply input_reads; lia]|].
    intros _ _. apply contained_ret. cbn. lia.
  - zbool. eapply contained_bind; [eapply LZ4_wildCopy_safe; [done|lia|lia|apply input_reads; lia]|]. intros _ _.
    eapply contained_bind; [apply readLE16_safe; lia|]. intros offset Hoff. cbn beta in Hoff.
    destruct (Z.ltb_spec (op + length - offset) dest); [apply contained_ret; cbn; lia|].
    apply (contained_bind _ _ _ _ _ (fun r => match r with inl ip' => ip <= ip' <= iend | inr (ip', len') => ip < ip' <= iend - 4 /\ 0 <= len' /\ len' + MINMATCH < 2 ^ 64 end)).
    { assert (Hland : Z.land token ML_MASK = token mod 16) by (apply (Z.land_ones token 4); lia).
      rewrite Hland. change ML_MASK with 15. change MINMATCH with 4. destruct (Z.eqb_spec (token mod 16) 15) as [->|Hne].
      - eapply contained_bind; [apply match_length_safe; lia|]. intros [ip'|[ip' len']] Hr; apply contained_ret; [lia|].
        destruct (Z.ltb_spec (u64 (op + length + len')) (op + length)) as [|Hwrap]; [lia|]. unfold wrapw in Hwrap. Z.div_mod_to_equations. lia.
      - apply contained_ret. Z.div_mod_to_equations. lia. }
    intros [ip'|[ip' len']] Hr; [apply contained_ret; cbn; lia|]. rewrite wrapw_small by (unfold in_word, MINMATCH in *; lia).
    change MINMATCH with 4 in *. eapply contained_bind; [apply copy_match_safe; lia|]. intros ok Hok. cbn beta in Hok.
    apply contained_ret. destruct ok; cbn; [specialize (Hok eq_refl)|]; lia.
Qed.

Lemma decode_turn_safe fuel ip op : source <= ip -> ip + 2 <= Z.max iend (source + 2) -> dest <= op <= oend ->
  (Z.to_nat (iend - ip) < fuel)%nat -> inside (turn_ok ip (ip + 2)) (decode_turn dma dest iend oend fuel ip op).
Proof using Law Hsource Hbuffer Hdest.
  intros Hip Hip2 Hop Hf. unfold decode_turn.
  apply (contained_bind _ _ _ _ _ is_byte); [apply contained_load, input_reads; lia|]. intros token Ht.
  assert (Hlen : 0 <= Z.shiftr token ML_BITS < 16) by (change ML_BITS with 4; rewrite Z.shiftr_div_pow2 by lia; unfold is_byte in Ht; Z.div_mod_to_equations; lia).
  assert (After : forall ip1 length, ip < ip1 <= Z.max (ip + 2) (iend - 15) -> 0 <= length < 2 ^ 64 ->
    inside (turn_ok ip (ip + 2)) (after_length dma dest iend oend fuel token ip1 op length)).
  { intros ip1 length H1 H2. eapply contained_weaken; [apply after_length_safe; lia|]. intros [] Hp; cbn in *; lia. }
  destruct (_ =? RUN_MASK); [|apply After; lia].
  eapply contained_bind; [apply literal_length_safe; lia|]. intros [ip' length'] Hr. cbn in Hr.
  destruct (_ || _); [apply contained_ret; cbn; lia|]. apply After; lia.
Qed.

Lemma decode_loop_safe fuel : forall ip op, source <= ip -> dest <= op <= oend -> (Z.to_nat (iend - ip) < fuel)%nat ->
  0 <= oend - dest < 2 ^ 31 -> iend - source < 2 ^ 31 -> ip = source \/ ip <= iend - 4 ->
  inside (fun r => - 2 ^ 31 <= r <= oend - dest) (decode_loop dma source dest iend oend fuel ip op).
Proof using Law Hsource Hbuffer Hdest.
  induction fuel as [|fuel IH]; intros ip op Hip Hop Hf Hmax Hin Hat; [lia|]. cbn [decode_loop].
  eapply contained_bind; [apply decode_turn_safe; lia|]. intros [ip'|op'|ip' op'] Hp; cbn in Hp.
  - apply contained_ret. rewrite error_value by lia. lia.
  - apply contained_ret. unfold signedw. rewrite wrapw_small by (unfold in_word; lia). destruct (Z.ltb_spec (op' - dest) (2 ^ (32 - 1))); lia.
  - apply IH; lia.
Qed.

(** The decoder as a part of others. *)
Lemma LZ4_decompress_contained : iend - source < 2 ^ 31 -> 0 <= oend - dest < 2 ^ 31 ->
  inside (fun r => - 2 ^ 31 <= r <= oend - dest) (LZ4_decompress_safe dma source dest (iend - source) (oend - dest)).
Proof using Law Hsource Hbuffer Hdest.
  intros Hin Hmax. unfold LZ4_decompress_safe. destruct (Z.eqb_spec (oend - dest) 0).
  - destruct (_ =? 1); [|apply contained_ret; lia]. apply (contained_bind _ _ _ _ _ is_byte); [apply contained_load, input_reads; lia|].
    intros b _. apply contained_ret. destruct (b =? 0); lia.
  - replace (source + (iend - source)) with iend by lia. replace (dest + (oend - dest)) with oend by lia. apply decode_loop_safe; lia.
Qed.
End Safety.

(** C7.  Whatever bytes a block holds and whatever size is claimed for it, the decoder
    returns; it has written only the output buffer and says how much of it, or an
    error.  An access fails only where a byte of the buffers, or the byte behind an
    input of one byte, is not there. *)
Theorem decoder_contained dma m source dest compressedSize maxDecompressedSize :
  (forall f, memcpy_callback dma = Some f -> engine_contained f) -> byte_memory m -> 4 <= dest ->
  compressedSize < 2 ^ 31 -> 0 <= maxDecompressedSize < 2 ^ 31 ->
  let '(o, m') := LZ4_decompress_safe dma source dest compressedSize maxDecompressedSize m in
  overwritten m m' dest maxDecompressedSize /\
  match o with
  | Ret r => - 2 ^ 31 <= r <= maxDecompressedSize
  | Undef => exists x, (source <= x < source + Z.max compressedSize 2 \/ dest <= x < dest + maxDecompressedSize) /\ m !! x = None
  | _ => False
  end.
Proof.
  intros Law Hb Hd Hc Hmax.
  set (U := exists x, (source <= x < source + Z.max compressedSize 2 \/ dest <= x < dest + maxDecompressedSize) /\ m !! x = None).
  assert (HU : forall x, (source <= x < source + Z.max compressedSize 2 \/ dest <= x < dest + maxDecompressedSize) -> ~ is_Some (m !! x) -> U).
  { intros x Hx Hn. exists x. split; [done|]. by apply eq_None_not_Some. }
  pose proof (LZ4_decompress_contained (fun x => is_Some (m !! x)) U False dma source dest (source + compressedSize) (dest + maxDecompressedSize) Law) as H.
  replace (source + compressedSize - source) with compressedSize in H by lia. replace (dest + maxDecompressedSize - dest) with maxDecompressedSize in H by lia.
  specialize (H ltac:(intros x ?; apply HU; lia) ltac:(intros x ?; apply HU; lia) Hd Hc Hmax m ltac:(by split)).
  destruct (LZ4_decompress_safe _ _ _ _ _ m) as [o m']. destruct H as ([Hdom _] & Ho & H). cbn in *.
  split; [split; [intros x Hx; by apply Hdom|done]|]. by destruct o.
Qed.

(** ** What a block means *)

Record sequence := mk_sequence { literals : list Z; distance : Z; match_len : Z }.

(** A length above fourteen goes on in bytes. *)
Definition extension (n : Z) : list Z := replicate (Z.to_nat (n / 255)) 255 ++ [n mod 255].
Definition lengthened (n : Z) : list Z := if n <? 15 then [] else extension (n - 15).
Definition nibble (n : Z) : Z := Z.min n 15.

Definition encode_sequence (s : sequence) : list Z :=
  [nibble (len (literals s)) * 16 + nibble (match_len s - 4)] ++ lengthened (len (literals s)) ++ literals s ++
  le 2 (distance s) ++ lengthened (match_len s - 4).
Definition encode_last (last : list Z) : list Z := [nibble (len last) * 16] ++ lengthened (len last) ++ last.
Definition encode (seqs : list sequence) (last : list Z) : list Z := concat (map encode_sequence seqs) ++ encode_last last.

(** A match repeats what stands [d] bytes earlier, byte by byte. *)
Fixpoint repeat_at (n : nat) (d : Z) (out : list Z) : list Z :=
  match n with O => out | S n => repeat_at n d (out ++ [default 0 (out !! Z.to_nat (len out - d))]) end.
Fixpoint expand (out : list Z) (seqs : list sequence) (last : list Z) : list Z :=
  match seqs with
  | [] => out ++ last
  | s :: seqs => expand (repeat_at (Z.to_nat (match_len s)) (distance s) (out ++ literals s)) seqs last
  end.

(** [n] bytes have been expanded already.  The format demands that the last five
    bytes are literals and that no match begins in the last twelve. *)
Fixpoint expanded_len (n : Z) (seqs : list sequence) (last : list Z) : Z :=
  match seqs with [] => n + len last | s :: seqs => expanded_len (n + len (literals s) + match_len s) seqs last end.
Fixpoint well_formed (n : Z) (seqs : list sequence) (last : list Z) : Prop :=
  match seqs with
  | [] => bytes last
  | s :: seqs =>
      bytes (literals s) /\ 4 <= match_len s /\ 0 < distance s < 65536 /\ distance s <= n + len (literals s) /\
      5 <= len last /\ n + len (literals s) + 12 <= expanded_len n (s :: seqs) last /\
      well_formed (n + len (literals s) + match_len s) seqs last
  end.

Lemma length_repeat_at n : forall d out, length (repeat_at n d out) = (length out + n)%nat.
Proof. induction n as [|n IH]; intros d out; cbn [repeat_at]; [lia|]. rewrite IH, length_app. cbn. lia. Qed.
Lemma length_expand seqs last : forall out, Forall (fun s => 4 <= match_len s) seqs -> len (expand out seqs last) = expanded_len (len out) seqs last.
Proof.
  induction seqs as [|s seqs IH]; intros out H; cbn [expand expanded_len]; [rewrite length_app; lia|].
  apply Forall_cons in H as [Hs H]. rewrite IH by done. f_equal. rewrite length_repeat_at, length_app. lia.
Qed.

(** ** Copies that repeat *)

(** From [a] to [b] every byte is the one [d] bytes earlier. *)
Definition periodic (m : mem) (d a b : Z) : Prop := forall x, a <= x < b -> m !! x = m !! (x - d).

Lemma periodic_multiple (m : mem) d a b : 0 < d -> periodic m d a b ->
  forall k x, 0 <= k -> a - d <= x - k * d -> x < b -> m !! x = m !! (x - k * d).
Proof.
  intros Hd Hp k x Hk. revert k Hk x. apply (natlike_ind (fun k => forall x, a - d <= x - k * d -> x < b -> m !! x = m !! (x - k * d))).
  - intros x _ _. f_equal. lia.
  - intros k Hk IH x H1 H2. rewrite Z.mul_succ_l in *. rewrite Hp by nia. rewrite IH by lia. f_equal. lia.
Qed.

Lemma periodic_extend (m : mem) d D op b c : 0 < d -> D mod d = 0 -> d <= D <= b - op + d -> periodic m d op b ->
  (forall x, b <= x < c -> m !! x = m !! (x - D)) -> periodic m d op c.
Proof.
  intros Hd HD Hb Hp Hx. assert (Hk : exists k, D - d = k * d /\ 0 <= k) by (exists (D / d - 1); Z.div_mod_to_equations; nia).
  destruct Hk as (k & Hk & Hk0).
  assert (P : forall y, b <= y -> periodic m d op (Z.min y c)).
  { apply Zlt_lower_bound_ind with (P := fun y => periodic m d op (Z.min y c)). intros y IH Hy x Hxy.
    destruct (decide (x < b)); [apply Hp; lia|]. rewrite Hx by lia.
    assert (Px : periodic m d op x) by (destruct (decide (x = b)) as [->|]; [done|]; specialize (IH x ltac:(lia)); by rewrite Z.min_l in IH by lia).
    rewrite (periodic_multiple m d op x Hd Px k (x - d)) by lia. f_equal. lia. }
  destruct (decide (c <= b)); [intros x Hc; apply Hp; lia|]. specialize (P c ltac:(lia)). by rewrite Z.min_id in P.
Qed.

(** [n] bytes copied in pieces, each read when it is due. *)
Definition spread (m m' : mem) (d s n : Z) : Prop :=
  (forall x, d <= x < d + n -> m' !! x = m' !! (x - d + s)) /\ overwritten m m' d n.

Section Copies.
Variable dma : tegrabl_clib_dma.
Hypothesis Law : forall f, memcpy_callback dma = Some f -> engine_copies f.

Lemma wild_copy_spread fuel : forall m d s e N, (Z.to_nat ((e - d) / 8) < fuel)%nat -> N = Z.max 8 (e - d + 7) ->
  mapped m d N -> mapped m s N -> 0 < d -> 0 < s -> 8 <= d - s \/ apart d s N ->
  exists n m', wild_copy dma fuel d s e m = (Ret tt, m') /\ 8 <= n <= N /\ e - d <= n /\ spread m m' d s n.
Proof using Law.
  induction fuel as [|fuel IH]; intros m d s e N Hf -> Md Ms Hd Hs Ha; [lia|]. cbn [wild_copy]. unfold apart in Ha.
  destruct (memcpy_run dma m d s 8 Law) as (m1 & E1 & H1); [lia|lia|lia|eapply mapped_sub; [exact Md|lia|lia]|eapply mapped_sub; [exact Ms|lia|lia]|right; left; unfold apart; lia|].
  assert (O1 : overwritten m m1 d 8) by (apply (moved_overwritten m m1 d s 8); [eapply mapped_sub; [exact Ms|lia|lia]|done]).
  assert (S1 : forall x, d <= x < d + 8 -> m1 !! x = m1 !! (x - d + s)).
  { intros x Hx. rewrite !H1. destruct (decide (d <= x < d + 8)); [|lia]. destruct (decide (d <= x - d + s < d + 8)); [lia|done]. }
  assert (E2 : LZ4_copy8 dma d s m = (Ret tt, m1)) by (unfold LZ4_copy8; by rewrite (bind_run _ _ _ _ _ E1)).
  rewrite (bind_run _ _ _ _ _ E2). destruct (Z.ltb_spec (d + 8) e); [|exists 8, m1; split; [done|]; split; [lia|]; split; [lia|done]].
  destruct (IH m1 (d + 8) (s + 8) e (Z.max 8 (e - (d + 8) + 7))) as (n & m' & E & Hn & Hn2 & S & O).
  - assert (1 <= (e - d) / 8) by (Z.div_mod_to_equations; lia). replace ((e - (d + 8)) / 8) with ((e - d) / 8 - 1) by (Z.div_mod_to_equations; lia). lia.
  - done.
  - eapply overwritten_mapped; [exact O1|]. eapply mapped_sub; [exact Md|lia|lia].
  - eapply overwritten_mapped; [exact O1|]. eapply mapped_sub; [exact Ms|lia|lia].
  - lia.
  - lia.
  - unfold apart. lia.
  - exists (8 + n), m'. split; [exact E|]. split; [lia|]. split; [lia|]. split.
    + intros x Hx. destruct (decide (x < d + 8)); [|rewrite S by lia; f_equal; lia]. destruct O as [_ O]. rewrite !O by lia. apply S1. lia.
    + eapply overwritten_trans; eapply overwritten_wider; [exact O1|lia|lia|exact O|lia|lia].
Qed.

(** A byte of a match that starts [d] bytes earlier. *)
Lemma byte_periodic m d op k : 0 < d -> 0 <= k -> periodic m d op (op + k) -> is_Some (m !! (op + k)) -> is_Some (m !! (op - d + k)) ->
  exists m', (let! v := load (op - d + k) in store (op + k) v) m = (Ret tt, m') /\ periodic m' d op (op + k + 1) /\ overwritten m m' (op + k) 1.
Proof.
  intros Hd Hk Hp Ho [v Ev]. rewrite (bind_run _ _ _ _ _ (load_run _ _ _ Ev)), store_run by done.
  exists (<[op + k := v]> m). split; [done|]. split; [|apply insert_overwritten]. intros x Hx. rewrite (lookup_insert_ne _ _ (x - d)) by lia.
  destruct (decide (x = op + k)) as [->|]; [rewrite lookup_insert_eq, <- Ev; f_equal; lia|]. rewrite lookup_insert_ne by lia. apply Hp. lia.
Qed.

(** The distance [D] at which the copy goes on is a multiple of the match's. *)
Lemma match_head_periodic m op d lo : 0 < d -> 0 < lo <= op - d -> mapped m lo (op + 8 - lo) ->
  exists D m', match_head dma op (op - d) m = (Ret (op + 8, op + 8 - D), m') /\ periodic m' d op (op + 8) /\ overwritten m m' op 8 /\
    8 <= D /\ d <= D < 8 + d /\ D mod d = 0.
Proof using Law.
  intros Hd Hlo Hm. unfold match_head. replace (op - (op - d)) with d by lia. destruct (Z.ltb_spec d 8).
  - destruct (tables d) as (a & b & Ha & Hb & Ha4 & Hab & Ht); [lia|]. specialize (Ht ltac:(lia)) as (? & ? & ? & ?).
    rewrite (bind_run _ _ _ _ _ (table_at_run dec64table d b m ltac:(lia) Hb)).
    assert (Step : forall k m0, 0 <= k < 4 -> overwritten m m0 op 8 -> periodic m0 d op (op + k) ->
      exists m', (let! v := load (op - d + k) in store (op + k) v) m0 = (Ret tt, m') /\ periodic m' d op (op + k + 1) /\ overwritten m m' op 8).
    { intros k m0 Hk O P. destruct (byte_periodic m0 d op k Hd ltac:(lia) P) as (m' & E & P' & O'); [apply O, Hm; lia|apply O, Hm; lia|].
      exists m'. split; [done|]. split; [done|]. eapply overwritten_trans; [exact O|]. eapply overwritten_wider; [exact O'|lia|lia]. }
    destruct (Step 0 m) as (m1 & E1 & P1 & O1); [lia|apply overwritten_refl|intros x ?; lia|]. replace (op - d + 0) with (op - d) in E1 by lia. replace (op + 0) with op in E1, P1 by lia. rewrite (bind_run _ _ _ _ _ E1).
    destruct (Step 1 m1) as (m2 & E2 & P2 & O2); [lia|done|done|]. rewrite (bind_run _ _ _ _ _ E2).
    destruct (Step 2 m2) as (m3 & E3 & P3 & O3); [lia|done|by replace (op + 2) with (op + 1 + 1) by lia|]. rewrite (bind_run _ _ _ _ _ E3).
    destruct (Step 3 m3) as (m4 & E4 & P4 & O4); [lia|done|by replace (op + 3) with (op + 2 + 1) by lia|]. rewrite (bind_run _ _ _ _ _ E4).
    rewrite (bind_run _ _ _ _ _ (table_at_run dec32table d a m4 ltac:(lia) Ha)). replace (op + 3 + 1) with (op + 4) in P4 by lia.
    destruct (memcpy_run dma m4 (op + 4) (op - d + a) 4 Law) as (m5 & E5 & H5);
      [lia|lia|lia|eapply overwritten_mapped; [exact O4|]; eapply mapped_sub; [exact Hm|lia|lia]|eapply overwritten_mapped; [exact O4|]; eapply mapped_sub; [exact Hm|lia|lia]|right; left; unfold apart; lia|].
    assert (E6 : LZ4_copy4 dma (op + 4) (op - d + a) m4 = (Ret tt, m5)) by (unfold LZ4_copy4; by rewrite (bind_run _ _ _ _ _ E5)).
    rewrite (bind_run _ _ _ _ _ E6). exists (8 + d - (a - b)), m5. split; [by replace (op - d + a - b) with (op + 8 - (8 + d - (a - b))) by lia|].
    assert (O5 : overwritten m4 m5 (op + 4) 4) by (apply (moved_overwritten m4 m5 (op + 4) (op - d + a) 4); [eapply overwritten_mapped; [exact O4|]; eapply mapped_sub; [exact Hm|lia|lia]|done]).
    split; [|split; [eapply overwritten_trans; [exact O4|]; eapply overwritten_wider; [exact O5|lia|lia]|]].
    2: { assert (d <= 8 + d - (a - b)) by lia. lia. }
    apply (periodic_extend m5 d (4 + d - a) op (op + 4) (op + 8)); [lia|done|lia| |].
    + intros x Hx. destruct O5 as [_ O5]. rewrite !O5 by lia. by apply P4.
    + intros x Hx. rewrite !H5. destruct (decide _); [|lia]. destruct (decide _); [lia|]. f_equal. lia.
  - destruct (memcpy_run dma m op (op - d) 8 Law) as (m1 & E1 & H1);
      [lia|lia|lia|eapply mapped_sub; [exact Hm|lia|lia]|eapply mapped_sub; [exact Hm|lia|lia]|right; left; unfold apart; lia|].
    assert (E6 : LZ4_copy8 dma op (op - d) m = (Ret tt, m1)) by (unfold LZ4_copy8; by rewrite (bind_run _ _ _ _ _ E1)).
    rewrite (bind_run _ _ _ _ _ E6). exists d, m1. split; [by replace (op - d + 8) with (op + 8 - d) by lia|]. split.
    { intros x Hx. rewrite !H1. destruct (decide _); [|lia]. destruct (decide _); [lia|]. f_equal. lia. }
    split; [apply (moved_overwritten m m1 op (op - d) 8); [eapply mapped_sub; [exact Hm|lia|lia]|done]|]. rewrite Z.mod_same by lia. lia.
Qed.

Lemma periodic_over m m' d a b : periodic m d a b -> 0 <= d -> overwritten m m' b 0 \/ (exists n, overwritten m m' b n) -> periodic m' d a b.
Proof.
  intros P Hd [O|[n O]] x Hx; destruct O as [_ O]; rewrite !O by lia; by apply P.
Qed.

(** The match is repeated; behind it the copy may have left something. *)
Lemma copy_match_periodic m op d lo oend length : 0 < d -> 0 < lo <= op - d -> mapped m lo (oend - lo) ->
  op <= oend - 12 -> 4 <= length -> op + length <= oend - 5 ->
  exists m', copy_match dma oend op (op - d) length m = (Ret true, m') /\ periodic m' d op (op + length) /\ overwritten m m' op (oend - op).
Proof using Law.
  intros Hd Hlo Hm Hop Hl Hend. unfold copy_match.
  destruct (match_head_periodic m op d lo Hd Hlo) as (D & m1 & E1 & P1 & O1 & HD8 & HD & HDd); [eapply mapped_sub; [exact Hm|lia|lia]|].
  rewrite (bind_run _ _ _ _ _ E1). change LASTLITERALS with 5.
  assert (Wild : forall e, op + 8 <= e -> op + 16 <= oend -> e + 7 <= oend -> exists n m2, LZ4_wildCopy dma (op + 8) (op + 8 - D) e m1 = (Ret tt, m2) /\
    e - (op + 8) <= n /\ periodic m2 d op (op + 8 + n) /\ overwritten m m2 op (oend - op)).
  { intros e He Ho1 Ho2. destruct (wild_copy_spread (S (Z.to_nat ((e - (op + 8)) / 8))) m1 (op + 8) (op + 8 - D) e (Z.max 8 (e - (op + 8) + 7))) as (n & m2 & E2 & Hn & Hn2 & S2 & O2);
      [lia|done|eapply overwritten_mapped; [exact O1|]; eapply mapped_sub; [exact Hm|lia|lia]|eapply overwritten_mapped; [exact O1|]; eapply mapped_sub; [exact Hm|lia|lia]|lia|lia|lia|].
    exists n, m2. split; [exact E2|]. split; [done|]. split.
    - apply (periodic_extend m2 d D op (op + 8) (op + 8 + n)); [lia|done|lia|eapply periodic_over; [exact P1|lia|right; by eexists]|].
      intros x Hx. rewrite S2 by lia. f_equal. lia.
    - eapply overwritten_trans; eapply overwritten_wider; [exact O1|lia|lia|exact O2|lia|lia]. }
  destruct (Z.ltb_spec (oend - 12) (op + length)).
  - destruct (Z.ltb_spec (oend - 5) (op + length)); [lia|].
    assert (Hw : exists op' m2, (if op + 8 <? oend - 8 then LZ4_wildCopy dma (op + 8) (op + 8 - D) (oend - 8) ;;; ret (oend - 8, op + 8 - D + (oend - 8 - (op + 8))) else ret (op + 8, op + 8 - D)) m1 = (Ret (op', op' - D), m2)
      /\ overwritten m m2 op (oend - op) /\ periodic m2 d op op' /\ op + 8 <= op' /\ oend - 8 <= op').
    { destruct (Z.ltb_spec (op + 8) (oend - 8)).
      - destruct (Wild (oend - 8)) as (n & m2 & E2 & Hn & P2 & O2); [lia|lia|lia|]. rewrite (bind_run _ _ _ _ _ E2).
        exists (oend - 8), m2. split; [by replace (oend - 8 - D) with (op + 8 - D + (oend - 8 - (op + 8))) by lia|]. split; [done|]. split; [|lia]. intros x Hx. apply P2. lia.
      - exists (op + 8), m1. split; [done|]. split; [eapply overwritten_wider; [exact O1|lia|lia]|]. split; [done|lia]. }
    destruct Hw as (op' & m2 & E2 & O2 & P2 & ? & ?). rewrite (bind_run _ _ _ _ _ E2). unfold copy_up_to.
    destruct (copy_bytes_run (Z.to_nat (op + length - op')) m2 op' (op' - D)) as (m3 & E3 & H3).
    1-2: eapply overwritten_mapped; [exact O2|]; (destruct (decide (op' <= op + length)); [eapply mapped_sub; [exact Hm|lia|lia]|intros x ?; lia]).
    { right. lia. }
    rewrite (bind_run _ _ _ _ _ E3). exists m3. split; [done|]. set (k := Z.of_nat (Z.to_nat (op + length - op'))) in *.
    assert (O3 : overwritten m2 m3 op' k).
    { apply (moved_overwritten m2 m3 op' (op' - D) k); [|done]. eapply overwritten_mapped; [exact O2|]. destruct (decide (op' <= op + length)); [eapply mapped_sub; [exact Hm|lia|lia]|intros x ?; lia]. }
    split.
    + assert (P3 : periodic m3 d op (op' + k)).
      { apply (periodic_extend m3 d D op op' (op' + k)); [lia|done|lia|eapply periodic_over; [exact P2|lia|right; by eexists]|].
        intros x Hx. rewrite !H3. destruct (decide _); [|lia]. destruct (decide _); [lia|]. f_equal. lia. }
      intros x Hx. apply P3. lia.
    + eapply overwritten_trans; [exact O2|]. destruct (decide (k = 0)) as [->|]; [split; [apply O3|]; intros x _; apply O3; lia|]. eapply overwritten_wider; [exact O3|lia|lia].
  - destruct (Z.leb_spec (op + 8) (op + length)).
    + destruct (Wild (op + length)) as (n & m2 & E2 & Hn & P2 & O2); [lia|lia|lia|]. rewrite (bind_run _ _ _ _ _ E2). exists m2. split; [done|]. split; [|done]. intros x Hx. apply P2. lia.
    + destruct (Wild (op + 8)) as (n & m2 & E2 & Hn & P2 & O2); [lia|lia|lia|].
      assert (E3 : LZ4_wildCopy dma (op + 8) (op + 8 - D) (op + length) m1 = (Ret tt, m2)).
      { rewrite <- E2. unfold LZ4_wildCopy. cbn [wild_copy]. unfold bind. destruct (LZ4_copy8 _ _ _ m1) as [[] ?]; try done.
        destruct (Z.ltb_spec (op + 8 + 8) (op + length)); [lia|]. by destruct (Z.ltb_spec (op + 8 + 8) (op + 8)); [lia|]. }
      rewrite (bind_run _ _ _ _ _ E3). exists m2. split; [done|]. split; [|done]. intros x Hx. apply P2. lia.
Qed.

Lemma holds_repeat m dest d n : forall out, holds m dest out -> 0 < d <= len out ->
  periodic m d (dest + len out) (dest + len out + Z.of_nat n) -> mapped m dest (len out) -> holds m dest (repeat_at n d out).
Proof.
  induction n as [|n IH]; intros out Ho Hd Hp Hm; [done|]. cbn [repeat_at].
  assert (E : m !! (dest + len out) = Some (default 0 (out !! Z.to_nat (len out - d)))).
  { destruct (lookup_lt_is_Some_2 out (Z.to_nat (len out - d))) as [c Hc]; [lia|]. rewrite Hc. cbn. rewrite Hp by lia.
    apply Ho in Hc. rewrite <- Hc. f_equal. lia. }
  assert (H' : holds m dest (out ++ [default 0 (out !! Z.to_nat (len out - d))])).
  { apply holds_app. split; [done|]. apply holds_cons. split; [done|apply holds_nil]. }
  apply IH; [done|rewrite length_app; cbn; lia| |by apply holds_mapped].
  rewrite length_app. cbn [length]. intros x Hx. apply Hp. lia.
Qed.
End Copies.

(** ** The lengths *)

Lemma extension_255 n : 0 <= n -> extension (n + 255) = 255 :: extension n.
Proof.
  intros Hn. unfold extension. replace (n + 255) with (n + 1 * 255) by lia. rewrite Z.div_add, Z.mod_add by lia.
  assert (0 <= n / 255) by (Z.div_mod_to_equations; lia). by replace (Z.to_nat (n / 255 + 1)) with (S (Z.to_nat (n / 255))) by lia.
Qed.
Lemma extension_small n : 0 <= n < 255 -> extension n = [n].
Proof. intros Hn. unfold extension. by rewrite Z.div_small, Z.mod_small by lia. Qed.

(** By induction on the bytes. *)
Lemma extension_ind (P : Z -> Prop) : (forall n, 0 <= n < 255 -> P n) -> (forall n, 0 <= n -> P n -> P (n + 255)) -> forall n, 0 <= n -> P n.
Proof.
  intros H0 HS n Hn. assert (G : forall k, 0 <= k -> forall r, 0 <= r < 255 -> P (k * 255 + r)).
  { apply (natlike_ind (fun k => forall r, 0 <= r < 255 -> P (k * 255 + r))); [intros r Hr; by apply H0|].
    intros k Hk IH r Hr. replace (Z.succ k * 255 + r) with (k * 255 + r + 255) by lia. apply HS; [lia|by apply IH]. }
  replace n with (n / 255 * 255 + n mod 255) by (Z.div_mod_to_equations; lia). apply G; Z.div_mod_to_equations; lia.
Qed.

Lemma literal_length_run iend m n : 0 <= n -> forall ip fuel acc, holds m ip (extension n) -> 0 <= acc -> acc + n < 2 ^ 64 ->
  (length (extension n) <= fuel)%nat -> ip + len (extension n) + n + 15 <= iend ->
  literal_length iend fuel ip acc m = (Ret (ip + len (extension n), acc + n), m).
Proof.
  revert n. apply (extension_ind (fun n => forall ip fuel acc, holds m ip (extension n) -> 0 <= acc -> acc + n < 2 ^ 64 ->
    (length (extension n) <= fuel)%nat -> ip + len (extension n) + n + 15 <= iend -> literal_length iend fuel ip acc m = (Ret (ip + len (extension n), acc + n), m))).
  - intros n Hn ip fuel acc H Ha Hw Hf Hi. rewrite extension_small in * by done. cbn [length] in *. destruct fuel as [|fuel]; [lia|]. cbn [literal_length].
    apply holds_cons in H as [H _]. rewrite (bind_run _ _ _ _ _ (load_run _ _ _ H)). destruct (Z.eqb_spec n 255); [lia|]. rewrite andb_false_r.
    by rewrite wrapw_small by (unfold in_word; lia).
  - intros n Hn IH ip fuel acc H Ha Hw Hf Hi. rewrite extension_255 in * by done. cbn [length] in *. destruct fuel as [|fuel]; [lia|]. cbn [literal_length].
    apply holds_cons in H as [H1 H]. rewrite (bind_run _ _ _ _ _ (load_run _ _ _ H1)). change RUN_MASK with 15.
    destruct (Z.ltb_spec (ip + 1) (iend - 15)); [|lia]. change (255 =? 255) with true. cbn [andb]. rewrite wrapw_small by (unfold in_word; lia).
    rewrite IH by (done || lia). do 3 f_equal; lia.
Qed.

Lemma match_length_run iend m n : 0 <= n -> forall ip fuel acc, holds m ip (extension n) -> 0 <= acc -> acc + n < 2 ^ 64 ->
  (length (extension n) <= fuel)%nat -> ip + len (extension n) + 5 <= iend ->
  match_length iend fuel ip acc m = (Ret (inr (ip + len (extension n), acc + n)), m).
Proof.
  revert n. apply (extension_ind (fun n => forall ip fuel acc, holds m ip (extension n) -> 0 <= acc -> acc + n < 2 ^ 64 ->
    (length (extension n) <= fuel)%nat -> ip + len (extension n) + 5 <= iend -> match_length iend fuel ip acc m = (Ret (inr (ip + len (extension n), acc + n)), m))).
  - intros n Hn ip fuel acc H Ha Hw Hf Hi. rewrite extension_small in * by done. cbn [length] in *. destruct fuel as [|fuel]; [lia|]. cbn [match_length].
    change LASTLITERALS with 5. destruct (Z.ltb_spec (iend - 5) ip); [lia|].
    apply holds_cons in H as [H1 _]. rewrite (bind_run _ _ _ _ _ (load_run _ _ _ H1)). destruct (Z.eqb_spec n 255); [lia|].
    by rewrite wrapw_small by (unfold in_word; lia).
  - intros n Hn IH ip fuel acc H Ha Hw Hf Hi. rewrite extension_255 in * by done. cbn [length] in *. destruct fuel as [|fuel]; [lia|]. cbn [match_length].
    change LASTLITERALS with 5. destruct (Z.ltb_spec (iend - 5) ip); [lia|].
    apply holds_cons in H as [H1 H]. rewrite (bind_run _ _ _ _ _ (load_run _ _ _ H1)). change (255 =? 255) with true. cbn [andb]. rewrite wrapw_small by (unfold in_word; lia).
    rewrite IH by (done || lia). do 4 f_equal; lia.
Qed.

(** ** Blocks *)

Lemma lengthened_small n : n < 15 -> lengthened n = [].
Proof. intros Hn. unfold lengthened. by destruct (Z.ltb_spec n 15); [|lia]. Qed.
Lemma lengthened_large n : 15 <= n -> lengthened n = extension (n - 15).
Proof. intros Hn. unfold lengthened. by destruct (Z.ltb_spec n 15); [lia|]. Qed.

Lemma token_nibbles a b : 0 <= a < 16 -> 0 <= b < 16 -> Z.shiftr (a * 16 + b) ML_BITS = a /\ Z.land (a * 16 + b) ML_MASK = b.
Proof.
  intros Ha Hb. change ML_BITS with 4. change ML_MASK with (Z.ones 4). rewrite Z.shiftr_div_pow2, Z.land_ones by lia. change (2 ^ 4) with 16.
  Z.div_mod_to_equations; lia.
Qed.

Lemma expanded_len_least seqs last : forall n, well_formed n seqs last -> n + len last <= expanded_len n seqs last.
Proof.
  induction seqs as [|s seqs IH]; intros n H; cbn in *; [lia|]. destruct H as (_ & ? & _ & _ & _ & _ & H). apply IH in H. lia.
Qed.

Section Block.
Variables (dma : tegrabl_clib_dma) (source dest iend oend : Z).
Hypothesis Law : forall f, memcpy_callback dma = Some f -> engine_copies f.
Hypothesis Hdest : 0 < dest.
Hypothesis Hend : iend < 2 ^ 64 /\ oend < 2 ^ 64.

(** The token and the bytes that lengthen the literals. *)
Lemma decode_turn_literals fuel m ip op n b rest : 0 <= n -> 0 <= b < 16 -> 0 < ip -> 0 < op -> op + n < 2 ^ 64 ->
  holds m ip ([nibble n * 16 + b] ++ lengthened n ++ rest) -> n <= len rest ->
  ip + 1 + len (lengthened n) + len rest <= iend -> (length (lengthened n) <= fuel)%nat ->
  decode_turn dma dest iend oend fuel ip op m = after_length dma dest iend oend fuel (nibble n * 16 + b) (ip + 1 + len (lengthened n)) op n m.
Proof using Hend.
  intros Hn Hb Hip Hop Hw [Ht H]%holds_cons Hrest Hi Hf. unfold decode_turn. rewrite (bind_run _ _ _ _ _ (load_run _ _ _ Ht)).
  destruct (token_nibbles (nibble n) b) as [-> _]; [unfold nibble; lia|done|]. change RUN_MASK with 15. destruct (Z.eqb_spec (nibble n) 15) as [E|E]; unfold nibble in E.
  - rewrite lengthened_large in * by lia. apply holds_app in H as [H _].
    assert (Hx : nibble n = 15) by (unfold nibble; lia). rewrite Hx.
    rewrite (bind_run _ _ _ _ _ (literal_length_run iend m (n - 15) ltac:(lia) (ip + 1) fuel 15 H ltac:(lia) ltac:(lia) Hf ltac:(lia))).
    replace (15 + (n - 15)) with n by lia. rewrite !wrapw_small by (unfold in_word; lia).
    destruct (Z.ltb_spec (op + n) op); [lia|]. destruct (Z.ltb_spec (ip + 1 + len (extension (n - 15)) + n) (ip + 1 + len (extension (n - 15)))); [lia|]. done.
  - rewrite lengthened_small by lia. cbn [length]. rewrite Z.add_0_r. by replace (nibble n) with n by (unfold nibble; lia).
Qed.

(** The bytes that lengthen the match. *)
Lemma match_length_token fuel m ip op n : 0 <= n -> holds m ip (lengthened n) -> ip + len (lengthened n) + 5 <= iend ->
  (length (lengthened n) <= fuel)%nat -> 0 < op -> op + n < 2 ^ 64 ->
  (if nibble n =? ML_MASK then
     let! r := match_length iend fuel ip (nibble n) in
     ret (match r with
          | inr (ip, length) => if u64 (op + length) <? op then inl ip else inr (ip, length)
          | inl ip => inl ip
          end)
   else ret (inr (ip, nibble n))) m = (Ret (inr (ip + len (lengthened n), n)), m).
Proof using.
  intros Hn H Hi Hf Hop Hw. change ML_MASK with 15. destruct (Z.eqb_spec (nibble n) 15) as [E|E]; unfold nibble in *.
  - rewrite lengthened_large in * by lia. rewrite E.
    rewrite (bind_run _ _ _ _ _ (match_length_run iend m (n - 15) ltac:(lia) ip fuel 15 H ltac:(lia) ltac:(lia) Hf ltac:(lia))).
    replace (15 + (n - 15)) with n by lia. rewrite wrapw_small by (unfold in_word; lia). by destruct (Z.ltb_spec (op + n) op); [lia|].
  - rewrite lengthened_small by lia. cbn [length]. rewrite Z.add_0_r. by replace (Z.min n 15) with n by lia.
Qed.

(** What a block still expands to behind [out]. *)
Definition buffers (m : mem) (ip : Z) (input : list Z) (out : list Z) : Prop :=
  holds m ip input /\ holds m dest out /\ mapped m dest (oend - dest) /\ (ip + len input <= dest \/ oend <= ip).

Lemma last_literals fuel m ip n lits token out : buffers m ip lits out -> n = len lits -> ip + n = iend -> 0 < ip ->
  len out + n <= oend - dest ->
  exists m', after_length dma dest iend oend fuel token ip (dest + len out) n m = (Ret (finished (dest + len out + n)), m') /\
    holds m' dest (out ++ lits) /\ overwritten m m' dest (oend - dest).
Proof using Law Hdest.
  intros (Hl & Ho & Hm & Ha) -> Hi Hip Hfit. unfold after_length. change (2 + 1 + LASTLITERALS) with 8.
  destruct (Z.ltb_spec (iend - 8) (ip + len lits)); [|lia]. rewrite orb_true_r.
  rewrite (proj2 (Z.eqb_eq (ip + len lits) iend) Hi). destruct (Z.ltb_spec oend (dest + len out + len lits)); [lia|]. cbn [negb orb].
  pose proof (holds_mapped _ _ _ Hl) as Ml.
  destruct (memcpy_run dma m (dest + len out) ip (len lits) Law) as (m' & E & H'); [lia|lia|lia|eapply mapped_sub; [exact Hm|lia|lia]|done|right; left; unfold apart; lia|].
  rewrite (bind_run _ _ _ _ _ E). exists m'. split; [done|].
  assert (O : overwritten m m' (dest + len out) (len lits)) by by apply (moved_overwritten _ _ _ ip).
  split; [|eapply overwritten_wider; [exact O|lia|lia]]. apply holds_app. split; [eapply overwritten_holds; [exact O|lia|done]|].
  intros i c Hc. pose proof (lookup_lt_Some _ _ _ Hc). rewrite H'. destruct (decide _); [|lia]. apply Hl in Hc. rewrite <- Hc. f_equal. lia.
Qed.

Lemma one_sequence fuel m ip s out rest : buffers m ip (literals s ++ le 2 (distance s) ++ lengthened (match_len s - 4) ++ rest) out ->
  0 < ip -> ip + len (literals s) + 2 + len (lengthened (match_len s - 4)) + len rest = iend -> 6 <= len rest ->
  4 <= match_len s -> 0 < distance s < 65536 -> distance s <= len out + len (literals s) ->
  len out + len (literals s) + 12 <= oend - dest -> len out + len (literals s) + match_len s + 5 <= oend - dest ->
  (length (lengthened (match_len s - 4)) <= fuel)%nat ->
  let ip' := ip + len (literals s) + 2 + len (lengthened (match_len s - 4)) in
  let out' := repeat_at (Z.to_nat (match_len s)) (distance s) (out ++ literals s) in
  forall a, 0 <= a < 16 ->
  exists m', after_length dma dest iend oend fuel (a * 16 + nibble (match_len s - 4)) ip (dest + len out) (len (literals s)) m = (Ret (next ip' (dest + len out')), m') /\
    buffers m' ip' rest out' /\ overwritten m m' dest (oend - dest).
Proof using Law Hdest Hend.
  intros (Hl & Ho & Hm & Ha) Hip Hi Hrest Hml Hd Hdist Hfit1 Hfit2 Hf ip' out' a Haa. unfold after_length.
  change (2 + 1 + LASTLITERALS) with 8. change MFLIMIT with 12. set (n := len (literals s)) in *.
  destruct (Z.ltb_spec (oend - 12) (dest + len out + n)); [lia|]. destruct (Z.ltb_spec (iend - 8) (ip + n)); [lia|]. cbn [orb].
  assert (Hlen : length (le 2 (distance s)) = 2%nat) by apply length_le.
  rewrite !length_app, Hlen in Ha. pose proof (holds_mapped _ _ _ Hl) as Ml. rewrite !length_app, Hlen in Ml.
  destruct (wild_copy_spread dma Law (S (Z.to_nat ((dest + len out + n - (dest + len out)) / 8))) m (dest + len out) ip (dest + len out + n) (Z.max 8 (dest + len out + n - (dest + len out) + 7)))
    as (k & m1 & E1 & Hk & Hkn & S1 & O1); [lia|done|eapply mapped_sub; [exact Hm|lia|lia]|eapply mapped_sub; [exact Ml|lia|lia]|lia|lia|unfold apart; lia|].
  change (wild_copy _ _ _ _ _) with (LZ4_wildCopy dma (dest + len out) ip (dest + len out + n)) in E1.
  rewrite (bind_run _ _ _ _ _ E1).
  assert (B1 : holds m1 ip (literals s ++ le 2 (distance s) ++ lengthened (match_len s - 4) ++ rest) /\ holds m1 dest (out ++ literals s)).
  { assert (Hl1 : holds m1 ip (literals s ++ le 2 (distance s) ++ lengthened (match_len s - 4) ++ rest)).
    { eapply overwritten_holds; [exact O1|rewrite !length_app, Hlen; lia|done]. }
    split; [done|]. apply holds_app. split; [eapply overwritten_holds; [exact O1|lia|done]|]. apply holds_app in Hl1 as [Hl1 _].
    intros i c Hc. pose proof (lookup_lt_Some _ _ _ Hc). rewrite S1 by lia. apply Hl1 in Hc. rewrite <- Hc. f_equal. lia. }
  destruct B1 as [Hl1 Ho1]. pose proof Hl1 as [_ [H2 [H3 H4]%holds_app]%holds_app]%holds_app. rewrite Hlen in H3, H4. fold n in H2, H3, H4.
  assert (E2 : LZ4_readLE16 (ip + n) m1 = (Ret (distance s), m1)).
  { pose proof (load_bytes_holds _ _ _ H2) as E2. rewrite Hlen in E2. unfold LZ4_readLE16. rewrite (bind_run _ _ _ _ _ E2).
    rewrite <- (app_nil_r (le 2 _)), ldn_le. change (256 ^ Z.of_nat 2) with 65536. by rewrite Z.mod_small by lia. }
  rewrite (bind_run _ _ _ _ _ E2). destruct (Z.ltb_spec (dest + len out + n - distance s) dest); [lia|].
  destruct (token_nibbles a (nibble (match_len s - 4)) Haa) as [_ ->]; [unfold nibble; lia|].
  rewrite (bind_run _ _ _ _ _ (match_length_token fuel m1 (ip + n + 2) (dest + len out + n) (match_len s - 4) ltac:(lia) H3 ltac:(lia) Hf ltac:(lia) ltac:(lia))).
  change MINMATCH with 4. rewrite wrapw_small by (unfold in_word; lia). replace (match_len s - 4 + 4) with (match_len s) by lia.
  assert (Hm1 : mapped m1 dest (oend - dest)) by (eapply overwritten_mapped; [exact O1|done]).
  destruct (copy_match_periodic dma Law m1 (dest + len out + n) (distance s) dest oend (match_len s)) as (m2 & E3 & P2 & O2); [lia|lia|done|lia|lia|lia|].
  rewrite (bind_run _ _ _ _ _ E3). exists m2. cbv beta iota. unfold ip', out'. rewrite length_repeat_at, length_app.
  split; [unfold ret; do 3 f_equal; lia|]. assert (O : overwritten m m2 dest (oend - dest)) by (eapply overwritten_trans; eapply overwritten_wider; [exact O1|lia|lia|exact O2|lia|lia]).
  split; [|done]. split; [eapply overwritten_holds; [exact O2|lia|done]|].
  split; [|split; [by eapply overwritten_mapped|lia]].
  assert (Ho2 : holds m2 dest (out ++ literals s)) by (eapply overwritten_holds; [exact O2|rewrite length_app; lia|done]).
  apply holds_repeat; [done|rewrite length_app; lia| |by apply holds_mapped].
  rewrite length_app, Z2Nat.id by lia. intros x Hx. apply P2. lia.
Qed.

Lemma encode_cons s seqs last : encode (s :: seqs) last =
  [nibble (len (literals s)) * 16 + nibble (match_len s - 4)] ++ lengthened (len (literals s)) ++
  literals s ++ le 2 (distance s) ++ lengthened (match_len s - 4) ++ encode seqs last.
Proof using. unfold encode. cbn [map concat]. unfold encode_sequence. by rewrite <- !app_assoc. Qed.

Lemma encode_least seqs last : 1 + len last <= len (encode seqs last).
Proof using. unfold encode, encode_last. rewrite !length_app. cbn. lia. Qed.

Lemma decode_blocks last seqs : forall fuel m ip out, buffers m ip (encode seqs last) out -> 0 < ip -> ip + len (encode seqs last) = iend ->
  well_formed (len out) seqs last -> expanded_len (len out) seqs last <= oend - dest < 2 ^ 31 -> (length (encode seqs last) < fuel)%nat ->
  exists m', decode_loop dma source dest iend oend fuel ip (dest + len out) m = (Ret (expanded_len (len out) seqs last), m') /\
    holds m' dest (expand out seqs last) /\ overwritten m m' dest (oend - dest).
Proof using Law Hdest Hend.
  induction seqs as [|s seqs IH]; intros fuel m ip out (Hl & Ho & Hm & Ha) Hip Hi Hwf Hfit Hf; (destruct fuel as [|fuel]; [lia|]); cbn [decode_loop].
  - change (encode [] last) with ([nibble (len last) * 16] ++ lengthened (len last) ++ last) in *. rewrite <- (Z.add_0_r (nibble _ * 16)) in Hl.
    cbn [expanded_len expand] in *. rewrite !length_app in *. cbn [length] in *.
    assert (Et : decode_turn dma dest iend oend (S fuel) ip (dest + len out) m = after_length dma dest iend oend (S fuel) (nibble (len last) * 16 + 0) (ip + 1 + len (lengthened (len last))) (dest + len out) (len last) m).
    { apply (decode_turn_literals (S fuel) m ip (dest + len out) (len last) 0 last); [lia|lia|lia|lia|lia|exact Hl|lia|lia|lia]. }
    apply holds_cons in Hl as [_ [_ Hl]%holds_app].
    destruct (last_literals (S fuel) m (ip + 1 + len (lengthened (len last))) (len last) last (nibble (len last) * 16 + 0) out) as (m' & E & Ho' & O); [|done|lia|lia|lia|].
    { split; [done|]. split; [done|]. split; [done|lia]. }
    rewrite <- Et in E. rewrite (bind_run _ _ _ _ _ E). exists m'. split; [|done].
    replace (dest + len out + len last - dest) with (len out + len last) by lia. unfold ret, signedw.
    rewrite wrapw_small by (unfold in_word; lia). by destruct (Z.ltb_spec (len out + len last) (2 ^ (32 - 1))); [|lia].
  - rewrite encode_cons in *. cbn [well_formed] in Hwf. destruct Hwf as (Hb & Hml & Hd & Hdist & Hlast & Hend12 & Hwf).
    cbn [expanded_len expand] in *. pose proof (encode_least seqs last) as Hleast. pose proof (expanded_len_least _ _ _ Hwf) as Hle.
    assert (Hlen2 : length (le 2 (distance s)) = 2%nat) by apply length_le.
    set (rest := encode seqs last) in *. set (n := len (literals s)) in *. rewrite !length_app, Hlen2 in *. cbn [length] in *.
    assert (Et : decode_turn dma dest iend oend (S fuel) ip (dest + len out) m =
      after_length dma dest iend oend (S fuel) (nibble n * 16 + nibble (match_len s - 4)) (ip + 1 + len (lengthened n)) (dest + len out) n m).
    { eapply decode_turn_literals; [lia|unfold nibble; lia|lia|lia|lia|exact Hl|rewrite !length_app; lia|rewrite !length_app, Hlen2; lia|lia]. }
    apply holds_cons in Hl as [_ [_ Hl]%holds_app].
    destruct (one_sequence (S fuel) m (ip + 1 + len (lengthened n)) s out rest) with (a := nibble n) as (m1 & E & B & O);
      [|lia|lia|lia|lia|lia|lia|lia|lia|lia|unfold nibble; lia|].
    { split; [done|]. split; [done|]. split; [done|]. rewrite !length_app, Hlen2. lia. }
    fold n in E, B. rewrite <- Et in E. rewrite (bind_run _ _ _ _ _ E).
    assert (Hlo : len (repeat_at (Z.to_nat (match_len s)) (distance s) (out ++ literals s)) = len out + n + match_len s).
    { rewrite length_repeat_at, length_app. lia. }
    destruct (IH fuel m1 _ _ B) as (m' & E' & Ho' & O'); [lia|lia|by rewrite Hlo|rewrite Hlo; lia|lia|].
    exists m'. rewrite Hlo in E' |- *. split; [exact E'|]. split; [done|]. by eapply overwritten_trans.
Qed.
End Block.

(** A block of sequences that keeps to the format is decoded to what it means:
    literals are copied and matches repeat earlier output, also where they overlap
    themselves, whatever their lengths; nothing else is written. *)
Theorem decoder_expands dma m seqs last source dest cap :
  (forall f, memcpy_callback dma = Some f -> engine_copies f) ->
  holds m source (encode seqs last) -> well_formed 0 seqs last -> 0 < source -> source + len (encode seqs last) < 2 ^ 31 * 2 ^ 32 ->
  mapped m dest cap -> 0 < cap < 2 ^ 31 -> expanded_len 0 seqs last <= cap -> 0 < dest < 2 ^ 63 ->
  source + len (encode seqs last) <= dest \/ dest + cap <= source ->
  exists m', LZ4_decompress_safe dma source dest (len (encode seqs last)) cap m = (Ret (len (expand [] seqs last)), m') /\
    holds m' dest (expand [] seqs last) /\ overwritten m m' dest cap.
Proof.
  intros Law Hl Hwf Hs Hs2 Hm Hcap Hfit Hd Ha. unfold LZ4_decompress_safe. destruct (Z.eqb_spec cap 0); [lia|].
  destruct (decode_blocks dma source dest (source + len (encode seqs last)) (dest + cap) Law ltac:(lia) ltac:(lia) last seqs
    (2 + Z.to_nat (len (encode seqs last))) m source []) as (m' & E & Ho & O); [|done|done|done|cbn [length]; change (Z.of_nat 0) with 0; lia|lia|].
  { split; [done|]. split; [apply holds_nil|]. split; [by replace (dest + cap - dest) with cap by lia|lia]. }
  exists m'. cbn [length] in E. rewrite Z.add_0_r in E. rewrite E. rewrite length_expand.
  - split; [done|]. split; [done|]. by replace (dest + cap - dest) with cap in O by lia.
  - clear -Hwf. revert Hwf. generalize 0. induction seqs as [|s seqs IH]; intros k H; [done|]. cbn in H. destruct H as (_ & ? & _ & _ & _ & _ & H). constructor; [done|by eapply IH].
Qed.

(** [abc], twenty bytes that repeat it, the last of them five times more, and seven
    literals. *)
Definition repeating : list sequence := [mk_sequence [97; 98; 99] 3 20; mk_sequence [] 1 5].
Definition tail_text : list Z := [1; 2; 3; 4; 5; 6; 7].
Definition block_memory : mem := text_memory 16 (encode repeating tail_text) ∪ text_memory 64 (repeat 0 48).
Definition no_engine : tegrabl_clib_dma := mk_dma None 0 None 0.

Lemma decoder_expands_witness : exists m',
  LZ4_decompress_safe no_engine 16 64 (len (encode repeating tail_text)) 48 block_memory = (Ret 35, m') /\
  holds m' 64 ([97; 98; 99; 97; 98; 99; 97; 98; 99; 97; 98; 99; 97; 98; 99; 97; 98; 99; 97; 98; 99; 97; 98; 98; 98; 98; 98; 98] ++ tail_text).
Proof.
  destruct (decoder_expands no_engine block_memory repeating tail_text 16 64 48) as (m' & E & H & _);
    [discriminate|apply holds_check; vm_compute; reflexivity| |lia|vm_compute; reflexivity|apply mapped_check; vm_compute; reflexivity|lia|
     vm_compute; discriminate|lia|left; vm_compute; discriminate|].
  - cbn [well_formed repeating]. split; [by apply bytes_dec|]. split; [vm_compute; discriminate|]. split; [split; reflexivity|]. split; [vm_compute; discriminate|].
    split; [vm_compute; discriminate|]. split; [vm_compute; discriminate|]. split; [by apply bytes_dec|]. split; [vm_compute; discriminate|].
    split; [split; reflexivity|]. split; [vm_compute; discriminate|]. split; [vm_compute; discriminate|]. split; [vm_compute; discriminate|by apply bytes_dec].
  - exists m'. split; [exact E|exact H].
Defined.

(** The same block cut off, and in too small a buffer. *)
Lemma decoder_contained_witness :
  (let '(o, m') := LZ4_decompress_safe no_engine 16 64 5 20 block_memory in
   overwritten block_memory m' 64 20 /\
   match o with
   | Ret r => - 2 ^ 31 <= r <= 20
   | Undef => exists x, (16 <= x < 16 + Z.max 5 2 \/ 64 <= x < 64 + 20) /\ block_memory !! x = None
   | _ => False
   end) /\
  fst (LZ4_decompress_safe no_engine 16 64 15 20 block_memory) = Ret (-8).
Proof.
  split; [|vm_compute; reflexivity].
  apply (decoder_contained no_engine block_memory 16 64 5 20); [discriminate|apply byte_memory_check; vm_compute; reflexivity|lia|lia|lia].
Defined.

(** An input of one byte that announces more literals is read one byte behind its
    end. *)
Example one_byte_block : forall dma, fst (LZ4_decompress_safe dma 16 64 1 48 ({[16 := 0xF0]} ∪ text_memory 64 (repeat 0 48))) = Undef.
Proof. reflexivity. Qed.
