(* ===== verification/Decompress.v ===== *)
(** * Decompression

    lib/decompress: the choice of a method by its magic number and the three methods
    on the memory of [Clib].  The block decoder of LZ4 is [Lz4]; inflate (vendored
    zlib) and the block decoder of LZF, which is not in the repository, are
    parameters. *)
From Stdlib Require Import Ascii String.
From stdpp Require Import gmap.
From S2P Require Import Prelude Interfaces Errors Utils Clib Lz4.
#[local] Open Scope Z_scope.

Definition MODULE : Z := TEGRABL_ERR_DECOMPRESS.
Definition TEGRABL_ERROR (reason aux : Z) : Z := tegrabl_error_value MODULE aux reason.

(** ** LZ4 frames *)

Definition LZ4_LEGACY_MAGIC_NUMBER : Z := 0x184C2102.
Definition LZ4_CURRENT_MAGIC_NUMBER : Z := 0x184D2204.
Definition CONTENT_SIZE_FALG_MASK : Z := Z.shiftl 1 3.
Definition BLOCK_CHECKSUM_FLAG_MASK : Z := Z.shiftl 1 4.
Definition MAGIC_NUMBER_SZ : Z := 4.
Definition ORIGINAL_CONTENT_SZ : Z := 8.
Definition BLOCK_SIZE_SZ : Z := 4.
Definition BLOCK_CHECKSUM_SZ : Z := 4.

(** A little-endian word at any address. *)
Definition load_le (n : nat) (a : Z) : M mem Z := let! b := load_bytes n a in ret (ldn n b 0).

Section Lz4Frame.
Variable dma : tegrabl_clib_dma.

(** The blocks; gives the end of what has been written. *)
Fixpoint lz4_blocks (fuel : nat) (block_has_csum : bool) (cbuf cbuf_end dbuf dbuf_end : Z) : M mem Z :=
  match fuel with
  | O => nofuel
  | S fuel =>
      if cbuf <? cbuf_end then
        let! c_size := load_le 4 cbuf in
        let cbuf := cbuf + BLOCK_SIZE_SZ in
        if (c_size =? 0) || (cbuf_end <=? cbuf) then ret dbuf
        else
          let d_size := u32 (dbuf_end - dbuf) in
          let! e := LZ4_decompress_safe dma cbuf dbuf (s32 c_size) (s32 d_size) in
          fail_if (e <? 0) (TEGRABL_ERROR TEGRABL_ERR_BAD_PARAMETER 0) ;;;
          let cbuf := cbuf + c_size in
          let dbuf := dbuf + e in
          let cbuf := if block_has_csum then cbuf + BLOCK_CHECKSUM_SZ else cbuf in
          lz4_blocks fuel block_has_csum cbuf cbuf_end dbuf dbuf_end
      else ret dbuf
  end.

(** The header: where the blocks begin, whether they have checksums, the size of the
    content. *)
Definition lz4_header (in_buffer : Z) : M mem (Z * bool * Z) :=
  let! magic_number := load_le 4 in_buffer in
  let cbuf := in_buffer + MAGIC_NUMBER_SZ in
  if magic_number =? LZ4_LEGACY_MAGIC_NUMBER then ret (cbuf, false, 0)
  else if magic_number =? LZ4_CURRENT_MAGIC_NUMBER then
    let! frame_flag := load cbuf in
    let cbuf := cbuf + 1 in
    let block_has_csum := truthy (Z.land frame_flag BLOCK_CHECKSUM_FLAG_MASK) in
    let! block_descriptor := load cbuf in
    let cbuf := cbuf + 1 in
    let! (cbuf, content_size) :=
      if truthy (Z.land frame_flag CONTENT_SIZE_FALG_MASK) then
        let! content_size := load_le 8 cbuf in ret (cbuf + ORIGINAL_CONTENT_SZ, content_size)
      else ret (cbuf, 0) in
    let! header_csum := load cbuf in
    ret (cbuf + 1, block_has_csum, content_size)
  else err (TEGRABL_ERROR TEGRABL_ERR_INVALID 0).

(** Gives [*written_size]; every block takes four bytes at least. *)
Definition do_lz4_decompress (in_buffer in_size out_buffer outbuf_size : Z) : M mem Z :=
  let! (cbuf, block_has_csum, content_size) := lz4_header in_buffer in
  let! dbuf := lz4_blocks (S (Z.to_nat in_size)) block_has_csum cbuf (in_buffer + in_size) out_buffer (out_buffer + outbuf_size) in
  let written_size := u32 (dbuf - out_buffer) in
  fail_if (truthy content_size && negb (content_size =? written_size)) (TEGRABL_ERROR TEGRABL_ERR_INVALID 1) ;;;
  ret written_size.
End Lz4Frame.

(** ** The static contexts of the other methods *)

Record lzf_context := mk_lzf {
  hdr : Z; h_rem : Z; data : Z; data_compressed : bool; data_rem_size : Z;
  data_csize : Z; data_ucsize : Z; data_read : Z; csum : Z; csum_offset : Z;
}.

Section Methods.
(** What inflate keeps behind its stream. *)
Context {inflate_state : Type}.

Record z_stream := mk_stream { next_in : Z; avail_in : Z; next_out : Z; avail_out : Z; internal : inflate_state }.

Record contexts := mk_contexts { d_mem : mem; lzf : lzf_context; strm : z_stream; done : bool }.

Definition on_mem {A} (c : M mem A) : M contexts A := fun s =>
  let '(o, m) := c (d_mem s) in (o, mk_contexts m (lzf s) (strm s) (done s)).
Definition set_lzf (c : lzf_context) : M contexts unit := modify (fun s => mk_contexts (d_mem s) c (strm s) (done s)).
Definition set_strm (z : z_stream) : M contexts unit := modify (fun s => mk_contexts (d_mem s) (lzf s) z (done s)).
Definition set_done (b : bool) : M contexts unit := modify (fun s => mk_contexts (d_mem s) (lzf s) (strm s) b).

Variable dma : tegrabl_clib_dma.
(** [lzf_decompress(in_data, in_len, out_data, out_len)] of liblzf. *)
Variable lzf_decompress : Z -> Z -> Z -> Z -> M mem Z.
(** [inflateInit2], [inflate] and [inflateEnd] of zlib. *)
Variable inflateInit2 : z_stream -> Z -> Z * z_stream.
Variable inflate : z_stream -> Z -> M mem (Z * z_stream).
Variable inflateEnd : z_stream -> z_stream.

(** ** LZF *)

Definition TYPE0_HDR_SIZE : Z := 5.
Definition TYPE1_HDR_SIZE : Z := 7.
Definition MIN_HDR_SIZE : Z := 5.

Definition lzf_init (compressed_size : Z) : M contexts bool :=
  set_lzf (mk_lzf 0 0 0 false 0 0 0 0 0 (u32 (compressed_size - 4))) ;;; ret true.

(** The header is looked for; [false] leaves the loop. *)
Definition lzf_find_header (in_buffer unprocessed_size : Z) : M contexts bool :=
  let! c := gets lzf in
  if hdr c =? 0 then
    let at_header rem := mk_lzf in_buffer rem (data c) (data_compressed c) (data_rem_size c) (data_csize c) (data_ucsize c) (data_read c) (csum c) (csum_offset c) in
    set_lzf (at_header (h_rem c)) ;;;
    if unprocessed_size <? MIN_HDR_SIZE then set_lzf (at_header (u32 (MIN_HDR_SIZE - unprocessed_size))) ;;; ret false
    else
      let! h0 := on_mem (load in_buffer) in
      if h0 =? 0 then ret false
      else if negb (h0 =? 90) then err TEGRABL_ERR_INVALID
      else
        let! h1 := on_mem (load (in_buffer + 1)) in
        if negb (h1 =? 86) then err TEGRABL_ERR_INVALID else ret true
  else ret true.

(** Two bytes of the header, the high one first. *)
Definition load_be16 (a : Z) : M contexts Z :=
  let! hi := on_mem (load a) in
  let! lo := on_mem (load (a + 1)) in
  ret (Z.lor (Z.shiftl hi 8) lo).

(** The [switch] on the type of the block and the three assignments behind it; gives
    [processed_size]. *)
Definition lzf_read_header (unprocessed_size processed_size : Z) : M contexts Z :=
  let! c := gets lzf in
  let! type := on_mem (load (hdr c + 2)) in
  let! processed_size :=
    if type =? 0 then
      let! ucsize := load_be16 (hdr c + 3) in
      set_lzf (mk_lzf (hdr c) (h_rem c) (hdr c + TYPE0_HDR_SIZE) (data_compressed c) (data_rem_size c) (-1) ucsize
        (u32 (data_read c + TYPE0_HDR_SIZE)) (csum c) (csum_offset c)) ;;;
      ret (u32 (processed_size + TYPE0_HDR_SIZE))
    else if type =? 1 then
      if unprocessed_size <? TYPE1_HDR_SIZE then
        set_lzf (mk_lzf (hdr c) (u32 (TYPE1_HDR_SIZE - unprocessed_size)) (data c) (data_compressed c) (data_rem_size c)
          (data_csize c) (data_ucsize c) (data_read c) (csum c) (csum_offset c)) ;;;
        ret processed_size
      else
        let! csize := load_be16 (hdr c + 3) in
        let! ucsize := load_be16 (hdr c + 5) in
        set_lzf (mk_lzf (hdr c) (h_rem c) (hdr c + TYPE1_HDR_SIZE) (data_compressed c) (data_rem_size c) csize ucsize
          (u32 (data_read c + TYPE1_HDR_SIZE)) (csum c) (csum_offset c)) ;;;
        ret (u32 (processed_size + TYPE1_HDR_SIZE))
    else err TEGRABL_ERR_INVALID in
  let! c := gets lzf in
  set_lzf (mk_lzf (hdr c) (h_rem c) (data c) (negb (data_csize c =? -1))
    (u32 (if data_csize c =? -1 then data_ucsize c else data_csize c)) (data_csize c) (data_ucsize c) (data_read c) (csum c) (csum_offset c)) ;;;
  ret processed_size.

(** The local variables of the loop. *)
Record lzf_locals := mk_locals { processed_size : Z; lzf_in : Z; out : Z; written_size : Z }.

(** A block is copied or decompressed. *)
Definition lzf_payload (l : lzf_locals) : M contexts lzf_locals :=
  let! c := gets lzf in
  let! (in_buffer, consumed, csum) :=
    if negb (data_compressed c) then
      on_mem (memcpy dma (out l) (data c) (data_ucsize c)) ;;;
      let! b := on_mem (load_bytes (Z.to_nat (data_ucsize c)) (data c)) in
      ret (data c + data_ucsize c, data_ucsize c, tegrabl_utils_crc32 (csum c) b)
    else
      let! n := on_mem (lzf_decompress (data c) (u32 (data_csize c)) (out l) (u32 (data_ucsize c))) in
      fail_if (negb (n =? u32 (data_ucsize c))) TEGRABL_ERR_BAD_PARAMETER ;;;
      let! b := on_mem (load_bytes (Z.to_nat (data_ucsize c)) (out l)) in
      ret (data c + data_csize c, data_csize c, tegrabl_utils_crc32 (csum c) b) in
  set_lzf (mk_lzf 0 (h_rem c) 0 (data_compressed c) (data_rem_size c) (data_csize c) (data_ucsize c)
    (u32 (data_read c + consumed)) csum (csum_offset c)) ;;;
  ret (mk_locals (u32 (processed_size l + data_rem_size c)) in_buffer (out l + data_ucsize c) (u32 (written_size l + data_ucsize c))).

Fixpoint lzf_loop (fuel : nat) (in_size out_end : Z) (l : lzf_locals) : M contexts lzf_locals :=
  match fuel with
  | O => nofuel
  | S fuel =>
      let! c := gets lzf in
      if (processed_size l <? in_size) && (data_read c <? csum_offset c) then
        let unprocessed_size := u32 (in_size - processed_size l) in
        let! go_on := if data c =? 0 then lzf_find_header (lzf_in l) unprocessed_size else ret true in
        if negb go_on then ret l
        else
          let! processed := if data c =? 0 then lzf_read_header unprocessed_size (processed_size l) else ret (processed_size l) in
          let l := mk_locals processed (lzf_in l) (out l) (written_size l) in
          let! c := gets lzf in
          if unprocessed_size <? data_rem_size c then
            set_lzf (mk_lzf (hdr c) (h_rem c) (data c) (data_compressed c) (u32 (data_rem_size c - unprocessed_size))
              (data_csize c) (data_ucsize c) (data_read c) (csum c) (csum_offset c)) ;;;
            ret l
          else
            fail_if (out_end - out l <? data_ucsize c) TEGRABL_ERR_OVERFLOW ;;;
            let! l := lzf_payload l in
            lzf_loop fuel in_size out_end l
      else ret l
  end.

(** [memcmp(p, &csum, 4) != 0] *)
Fixpoint differs (p : Z) (b : list Z) : M mem bool :=
  match b with
  | [] => ret false
  | c :: b => let! v := load p in if negb (v =? c) then ret true else differs (p + 1) b
  end.

Definition do_lzf_decompress (in_buffer in_size out_buffer outbuf_size : Z) : M contexts Z :=
  let! l := lzf_loop (2 + Z.to_nat in_size) in_size (out_buffer + outbuf_size) (mk_locals 0 in_buffer out_buffer 0) in
  let! c := gets lzf in
  when (csum_offset c <=? data_read c)
    (let! d := on_mem (differs (lzf_in l) (le 4 (csum c))) in fail_if d TEGRABL_ERR_INVALID) ;;;
  ret (written_size l).

(** ** zlib *)

Definition CHUNKSIZE : Z := 2048 * 32 * 16.
Definition Z_OK : Z := 0.
Definition Z_STREAM_END : Z := 1.
Definition Z_NO_FLUSH : Z := 0.
Definition MAX_WBITS : Z := 15.

Definition zlib_init (compressed_size : Z) : M contexts bool :=
  let! z := gets strm in
  let '(ret_code, z) := inflateInit2 (mk_stream 0 0 (next_out z) (avail_out z) (internal z)) (32 + MAX_WBITS) in
  set_strm z ;;;
  ret (ret_code =? Z_OK).

(** Gives what the last call returned and the number of bytes written. *)
Fixpoint zlib_loop (fuel : nat) (out_end output written_size : Z) : M contexts (Z * Z) :=
  match fuel with
  | O => nofuel
  | S fuel =>
      fail_if (out_end - output <? CHUNKSIZE) (TEGRABL_ERROR TEGRABL_ERR_OVERFLOW 0) ;;;
      let! z := gets strm in
      let! (code, z) := on_mem (inflate (mk_stream (next_in z) (avail_in z) output CHUNKSIZE (internal z)) Z_NO_FLUSH) in
      set_strm z ;;;
      fail_if (negb (code =? Z_OK) && negb (code =? Z_STREAM_END)) (TEGRABL_ERROR TEGRABL_ERR_BAD_PARAMETER 0) ;;;
      let have := u32 (CHUNKSIZE - avail_out z) in
      let written_size := u32 (written_size + have) in
      let output := output + have in
      if avail_out z =? 0 then zlib_loop fuel out_end output written_size else ret (code, written_size)
  end.

(** Every turn but the last fills a chunk. *)
Definition zlib_decompress (in_buffer in_size out_buffer outbuf_size : Z) : M contexts Z :=
  let! z := gets strm in
  set_strm (mk_stream in_buffer in_size (next_out z) (avail_out z) (internal z)) ;;;
  set_done false ;;;
  let! (code, written_size) := zlib_loop (2 + Z.to_nat (outbuf_size / CHUNKSIZE)) (out_buffer + outbuf_size) out_buffer 0 in
  when (code =? Z_STREAM_END) (set_done true) ;;;
  ret written_size.

Definition zlib_end : M contexts unit :=
  let! z := gets strm in set_strm (inflateEnd z).

(** ** The table of methods *)

(** [init] says whether it gave a context. *)
Record decompressor := mk_decompressor {
  magic : Z * Z;
  name : string;
  init : option (Z -> M contexts bool);
  decompress : Z -> Z -> Z -> Z -> M contexts Z;
  end_ : option (M contexts unit);
}.

(** CONFIG_ENABLE_ZLIB, CONFIG_ENABLE_LZF and CONFIG_ENABLE_LZ4 *)
Variables (enable_zlib enable_lzf enable_lz4 : bool).

Definition lz4_method (in_buffer in_size out_buffer outbuf_size : Z) : M contexts Z :=
  on_mem (do_lz4_decompress dma in_buffer in_size out_buffer outbuf_size).

Definition decompressor_list : list decompressor :=
  (if enable_zlib then [mk_decompressor (0x1f, 0x8b) "zlib" (Some zlib_init) zlib_decompress (Some zlib_end)] else []) ++
  (if enable_lzf then [mk_decompressor (90, 86) "lzf" (Some lzf_init) do_lzf_decompress None] else []) ++
  (if enable_lz4 then [mk_decompressor (0x02, 0x21) "lz4-legacy" None lz4_method None;
                       mk_decompressor (0x04, 0x22) "lz4" None lz4_method None] else []).

(** The first entry with the magic number at [c_magic]. *)
Fixpoint find_method (methods : list decompressor) (c_magic : Z) : M mem (option decompressor) :=
  match methods with
  | [] => ret None
  | dc :: methods =>
      let! b0 := load c_magic in
      if fst (magic dc) =? b0 then
        let! b1 := load (c_magic + 1) in
        if snd (magic dc) =? b1 then ret (Some dc) else find_method methods c_magic
      else find_method methods c_magic
  end.

Definition decompress_method (c_magic len : Z) : M contexts (option decompressor) :=
  if len <? 2 then ret None else on_mem (find_method decompressor_list c_magic).

Definition is_compressed_content (head_buf : Z) : M contexts (bool * option decompressor) :=
  let! decomp := decompress_method head_buf 2 in
  ret (match decomp with Some _ => true | None => false end, decomp).

(** Gives the new [*outbuf_size]. *)
Definition do_decompress (decomp : decompressor) (read_buffer read_size out_buffer outbuf_size : Z) : M contexts Z :=
  when (negb (String.eqb (name decomp) "lz4") && negb (String.eqb (name decomp) "lz4-legacy"))
    (match init decomp with
     | None => err (TEGRABL_ERROR TEGRABL_ERR_INVALID 0)
     | Some f => let! context := f read_size in fail_if (negb context) (TEGRABL_ERROR TEGRABL_ERR_INIT_FAILED 0)
     end) ;;;
  let! written_size := decompress decomp read_buffer read_size out_buffer outbuf_size in
  match end_ decomp with Some f => f | None => ret tt end ;;;
  ret written_size.
End Methods.
