(* ===== verification/DecompressSpec.v ===== *)
(** * Decompression: safety and correctness

    Whatever the input is, a method writes only the output buffer and ends; an LZ4
    frame is decoded to the contents of its blocks. *)
From Stdlib Require Import Ascii String.
From stdpp Require Import gmap.
From S2P Require Import Prelude Interfaces Errors Utils Clib ClibSpec CString CStringSpec MemSpec Lz4 Lz4Spec Decompress.
#[local] Open Scope Z_scope.

(** ** Safety of LZ4 frames *)

Section Lz4Safety.
Variables (D : Z -> Prop) (dma : tegrabl_clib_dma) (lo hi : Z).
Hypothesis Law : forall f, memcpy_callback dma = Some f -> engine_contained f.
Hypothesis Hlo : 4 <= lo.
Hypothesis Hhi : lo <= hi < lo + 2 ^ 31.

Abbreviation inside := (contained D True True lo hi).

Lemma any_reads a n : reads D True a n.
Proof using. by intros x. Qed.

Lemma load_le_inside n a : inside (fun v => 0 <= v < 256 ^ Z.of_nat n) (load_le n a).
Proof using. eapply contained_bind; [apply contained_load_bytes, any_reads|]. intros b [_ Hb]. apply contained_ret. by apply ldn_range. Qed.

Lemma load_inside a : inside is_byte (load a).
Proof using. apply contained_load, any_reads. Qed.

Lemma lz4_blocks_inside fuel : forall csum cbuf cbuf_end dbuf, (Z.to_nat (cbuf_end - cbuf) < fuel)%nat -> lo <= dbuf <= hi ->
  inside (fun d => lo <= d <= hi) (lz4_blocks dma fuel csum cbuf cbuf_end dbuf hi).
Proof using Law Hlo Hhi.
  induction fuel as [|fuel IH]; intros csum cbuf cbuf_end dbuf Hf Hd; [lia|]. cbn [lz4_blocks].
  destruct (Z.ltb_spec cbuf cbuf_end); [|by apply contained_ret].
  eapply contained_bind; [apply load_le_inside|]. intros c_size Hc. cbn beta in Hc. change (256 ^ Z.of_nat 4) with (2 ^ 32) in Hc. change BLOCK_SIZE_SZ with 4.
  destruct (Z.eqb_spec c_size 0); [by apply contained_ret|]. destruct (Z.leb_spec cbuf_end (cbuf + 4)); [by apply contained_ret|]. cbn [orb].
  assert (Hs : s32 c_size < 2 ^ 31) by (unfold signedw; rewrite wrapw_small by done; destruct (Z.ltb_spec c_size (2 ^ (32 - 1))); lia).
  assert (Hh : s32 (u32 (hi - dbuf)) = hi - dbuf) by (rewrite wrapw_small by (unfold in_word; lia); unfold signedw; rewrite wrapw_small by (unfold in_word; lia); by destruct (Z.ltb_spec (hi - dbuf) (2 ^ (32 - 1))); [|lia]).
  rewrite Hh. apply (contained_bind _ _ _ _ _ (fun e => - 2 ^ 31 <= e <= hi - dbuf)).
  { pose proof (LZ4_decompress_contained D True True dma (cbuf + 4) dbuf (cbuf + 4 + s32 c_size) hi Law) as H'.
    replace (cbuf + 4 + s32 c_size - (cbuf + 4)) with (s32 c_size) in H' by lia.
    apply (contained_wider _ _ _ dbuf hi); [lia|lia|]. apply H'; [done|done|lia|done|lia]. }
  intros e He. cbn beta in He. eapply contained_bind; [by apply contained_fail_if|]. intros ? Hneg. cbn beta in Hneg. zbool.
  apply IH; [|lia]. change BLOCK_CHECKSUM_SZ with 4. destruct csum; lia.
Qed.

Lemma do_lz4_inside in_buffer in_size : 0 <= in_size ->
  inside (fun w => 0 <= w <= hi - lo) (do_lz4_decompress dma in_buffer in_size lo (hi - lo)).
Proof using Law Hlo Hhi.
  intros Hin. unfold do_lz4_decompress. apply (contained_bind _ _ _ _ _ (fun r => in_buffer <= fst (fst r))).
  { unfold lz4_header. eapply contained_bind; [apply load_le_inside|]. intros magic_number _. change MAGIC_NUMBER_SZ with 4.
    destruct (_ =? LZ4_LEGACY_MAGIC_NUMBER); [apply contained_ret; cbn; lia|]. destruct (_ =? LZ4_CURRENT_MAGIC_NUMBER); [|by apply contained_err].
    eapply contained_bind; [apply load_inside|]. intros flag _. eapply contained_bind; [apply load_inside|]. intros bd _. cbv zeta.
    apply (contained_bind _ _ _ _ _ (fun r => in_buffer <= fst r)).
    { destruct (truthy _); [|apply contained_ret; cbn; lia]. eapply contained_bind; [apply load_le_inside|]. intros size _. apply contained_ret. cbn. change ORIGINAL_CONTENT_SZ with 8. lia. }
    intros [c size] Hc. cbn in Hc. eapply contained_bind; [apply load_inside|]. intros hc _. apply contained_ret. cbn. lia. }
  intros [[cbuf csum] size] Hc. cbn in Hc. replace (lo + (hi - lo)) with hi by lia.
  eapply contained_bind; [apply lz4_blocks_inside; lia|]. intros d Hd. cbn beta in Hd. eapply contained_bind; [by apply contained_fail_if|]. intros ? _.
  apply contained_ret. rewrite wrapw_small by (unfold in_word; lia). lia.
Qed.
End Lz4Safety.

(** ** Safety of the methods with a context *)

Section MethodSafety.
Context {inflate_state : Type}.
Abbreviation contexts := (@contexts inflate_state).
Abbreviation z_stream := (@z_stream inflate_state).
Variables (D : Z -> Prop) (dma : tegrabl_clib_dma) (lo hi : Z).
Hypothesis Law : forall f, memcpy_callback dma = Some f -> engine_contained f.
Hypothesis Hlo : 4 <= lo.
Hypothesis Hhi : lo <= hi < lo + 2 ^ 31.
Hypothesis Hnull : ~ D 0.

(** From the LZF context [c]: memory outside the buffer is kept, and a result has
    [Q] with the context at the end. *)
Definition tame {A} (c : lzf_context) (Q : A -> lzf_context -> Prop) (x : M contexts A) : Prop := forall s, good D (d_mem s) -> lzf s = c ->
  good D (d_mem (snd (x s))) /\ (forall y, ~ lo <= y < hi -> d_mem (snd (x s)) !! y = d_mem s !! y) /\
  match fst (x s) with Ret a => Q a (lzf (snd (x s))) | Undef | Err _ => True | _ => False end.

Lemma tame_ret {A} c (Q : A -> lzf_context -> Prop) a : Q a c -> tame c Q (ret a).
Proof using. by intros H s G <-. Qed.
Lemma tame_err {A} c (Q : A -> lzf_context -> Prop) e : tame c Q (err e).
Proof using. by intros s G <-. Qed.
Lemma tame_bind {A B} c (Q : A -> lzf_context -> Prop) (R : B -> lzf_context -> Prop) x k :
  tame c Q x -> (forall a c', Q a c' -> tame c' R (k a)) -> tame c R (bind x k).
Proof using.
  intros Hx Hk s G Hc. destruct (Hx s G Hc) as (G1 & O1 & H1). unfold bind. destruct (x s) as [[a| | | |] s1]; cbn in *; try done.
  destruct (Hk a _ H1 s1 G1 eq_refl) as (G2 & O2 & H2). split; [done|]. split; [|done]. intros y Hy. by rewrite O2, O1.
Qed.
Lemma tame_weaken {A} c (Q R : A -> lzf_context -> Prop) x : tame c Q x -> (forall a c', Q a c' -> R a c') -> tame c R x.
Proof using. intros Hx HQ s G Hc. destruct (Hx s G Hc) as (? & ? & H). split; [done|]. split; [done|]. destruct (fst (x s)); by auto. Qed.
Lemma tame_gets {B} c (R : B -> lzf_context -> Prop) k : tame c R (k c) -> tame c R (bind (gets lzf) k).
Proof using. intros Hk s G Hc. specialize (Hk s G Hc). unfold bind, gets. by rewrite Hc. Qed.
Lemma tame_strm {B} c (R : B -> lzf_context -> Prop) k : (forall z, tame c R (k z)) -> tame c R (bind (gets strm) k).
Proof using. intros Hk s G Hc. exact (Hk (strm s) s G Hc). Qed.
Lemma tame_set_lzf {B} c c' (R : B -> lzf_context -> Prop) k : tame c' R (k tt) -> tame c R (bind (set_lzf c') k).
Proof using. intros Hk s G Hc. exact (Hk (mk_contexts (d_mem s) c' (strm s) (done s)) G eq_refl). Qed.
Lemma tame_set_strm {B} c z (R : B -> lzf_context -> Prop) k : tame c R (k tt) -> tame c R (bind (set_strm z) k).
Proof using. intros Hk s G Hc. exact (Hk (mk_contexts (d_mem s) (lzf s) z (done s)) G Hc). Qed.
Lemma tame_set_done c b (Q : unit -> lzf_context -> Prop) : Q tt c -> tame c Q (set_done b).
Proof using. by intros HQ s G <-. Qed.
Lemma tame_mem {A} c (P : A -> Prop) x : contained D True True lo hi P x -> tame c (fun a c' => P a /\ c' = c) (on_mem x).
Proof using.
  intros Hx s G Hc. destruct (Hx (d_mem s) G) as (G1 & O1 & H1). unfold on_mem. destruct (x (d_mem s)) as [o m1]. cbn in *.
  split; [done|]. split; [done|]. by destruct o.
Qed.
Lemma tame_on_mem {A B} c (P : A -> Prop) x (R : B -> lzf_context -> Prop) k :
  contained D True True lo hi P x -> (forall a, P a -> tame c R (k a)) -> tame c R (bind (on_mem x) k).
Proof using. intros Hx Hk. eapply tame_bind; [by apply tame_mem|]. intros a c' [Ha ->]. by apply Hk. Qed.
Lemma tame_fail_if {B} c b e (R : B -> lzf_context -> Prop) k : (b = false -> tame c R (k tt)) -> tame c R (bind (fail_if b e) k).
Proof using. intros Hk. destruct b; [|by apply Hk]. by intros s G <-. Qed.

(** ** zlib *)

Variable inflate : z_stream -> Z -> M mem (Z * z_stream).
(** The window of the stream is all that is written, and [avail_out] says how much
    of it is left. *)
Hypothesis Inflate : forall z flush, 0 <= avail_out z ->
  contained D True True (next_out z) (next_out z + avail_out z) (fun r => 0 <= avail_out (snd r) <= avail_out z) (inflate z flush).

Lemma zlib_loop_tame fuel : forall c output written_size, (Z.to_nat ((hi - output) / CHUNKSIZE) < fuel)%nat -> lo <= output <= hi ->
  written_size = output - lo -> tame c (fun r _ => 0 <= snd r <= hi - lo) (zlib_loop inflate fuel hi output written_size).
Proof using Hhi Inflate.
  induction fuel as [|fuel IH]; intros c output written_size Hf Ho ->; [lia|]. cbn [zlib_loop].
  apply tame_fail_if. intros Hroom. zbool. apply tame_strm. intros z.
  apply (tame_on_mem _ (fun r => 0 <= avail_out (snd r) <= CHUNKSIZE)).
  { apply (contained_wider _ _ _ output (output + CHUNKSIZE)); [lia|lia|]. apply (Inflate (mk_stream _ _ output CHUNKSIZE _)). done. }
  intros [code z'] Hz. cbn in Hz. apply tame_set_strm, tame_fail_if. intros _.
  assert (Hhave : u32 (CHUNKSIZE - avail_out z') = CHUNKSIZE - avail_out z') by (apply wrapw_small; unfold in_word, CHUNKSIZE in *; lia).
  rewrite Hhave. rewrite (wrapw_small 32 (output - lo + _)) by (unfold in_word; lia).
  destruct (Z.eqb_spec (avail_out z') 0) as [E|]; [|apply tame_ret; cbn; lia].
  rewrite E, Z.sub_0_r. apply IH; [|lia|lia].
  replace (hi - (output + CHUNKSIZE)) with (hi - output + (-1) * CHUNKSIZE) by lia. rewrite Z.div_add by done.
  assert (1 <= (hi - output) / CHUNKSIZE) by (apply Z.div_le_lower_bound; unfold CHUNKSIZE in *; lia). lia.
Qed.

Lemma zlib_decompress_tame c in_buffer in_size : tame c (fun w _ => 0 <= w <= hi - lo) (zlib_decompress inflate in_buffer in_size lo (hi - lo)).
Proof using Hhi Inflate.
  unfold zlib_decompress. apply tame_strm. intros z. apply tame_set_strm. eapply tame_bind; [by apply (tame_set_done _ _ (fun _ _ => True))|].
  intros _ c' _. replace (lo + (hi - lo)) with hi by lia.
  eapply tame_bind; [apply (zlib_loop_tame _ c'); lia|]. intros [code w] c1 Hw. cbn in Hw.
  eapply tame_bind; [|intros _ c2 _; by apply tame_ret]. unfold when. destruct (_ =? _); [by apply (tame_set_done _ _ (fun _ _ => True))|by apply tame_ret].
Qed.

(** ** LZF *)

Variable lzf_decompress : Z -> Z -> Z -> Z -> M mem Z.
(** Its output buffer is all it writes. *)
Hypothesis Lzf : forall i n o k, 0 <= k -> contained D True True o (o + k) (fun _ => True) (lzf_decompress i n o k).

Lemma load_not_null c a {B} (R : B -> lzf_context -> Prop) k : (forall v, is_byte v -> a <> 0 -> tame c R (k v)) -> tame c R (bind (on_mem (load a)) k).
Proof using Hnull.
  intros Hk. apply (tame_on_mem _ (fun v => is_byte v /\ a <> 0)); [|intros v [Hv Ha]; by apply Hk].
  intros m G. destruct (load_inside D lo hi a m G) as (G1 & O1 & H1). split; [done|]. split; [done|].
  destruct (fst (load a m)) eqn:E; try done. split; [done|]. intros ->. unfold load in E. destruct (m !! 0) eqn:E0; [|done]. apply Hnull, G. by eexists.
Qed.

Lemma be16_range h l : is_byte h -> is_byte l -> 0 <= Z.lor (Z.shiftl h 8) l < 65536.
Proof using.
  unfold is_byte. intros Hh Hl. rewrite Z.shiftl_mul_pow2 by lia. pose proof (Z.add_lor_land (h * 2 ^ 8) l) as Hs.
  assert (0 <= Z.land (h * 2 ^ 8) l) by (apply Z.land_nonneg; lia). assert (0 <= Z.lor (h * 2 ^ 8) l) by (apply Z.lor_nonneg; lia). lia.
Qed.

Lemma tame_be16 c a {B} (R : B -> lzf_context -> Prop) k : (forall v, 0 <= v < 65536 -> tame c R (k v)) -> tame c R (bind (load_be16 a) k).
Proof using.
  intros Hk. eapply tame_bind with (Q := fun v c' => 0 <= v < 65536 /\ c' = c); [|intros v c' [Hv ->]; by apply Hk].
  unfold load_be16. apply (tame_on_mem _ is_byte); [apply load_inside|]. intros h Hh. apply (tame_on_mem _ is_byte); [apply load_inside|]. intros l Hl.
  apply tame_ret. split; [by apply be16_range|done].
Qed.

(** The sizes of a block are two bytes each. *)
Definition sized (c : lzf_context) : Prop := 0 <= data_ucsize c < 65536 /\ (data_csize c = -1 \/ 0 <= data_csize c < 65536).
Definition between_blocks (c : lzf_context) : Prop := sized c /\ data c = 0 /\ hdr c = 0.

Lemma find_header_tame c in_buffer n : between_blocks c ->
  tame c (fun b c' => sized c' /\ (b = true -> in_buffer <> 0 /\ data c' = 0 /\ hdr c' = in_buffer)) (lzf_find_header in_buffer n).
Proof using Hnull.
  intros (Hs & Hd & Hh). unfold lzf_find_header. apply tame_gets. rewrite Hh. change (0 =? 0) with true. cbv zeta. apply tame_set_lzf.
  destruct (n <? MIN_HDR_SIZE); [apply tame_set_lzf, tame_ret; done|]. apply load_not_null. intros h0 _ Hin.
  destruct (h0 =? 0); [by apply tame_ret|]. destruct (negb (h0 =? 90)); [by apply tame_err|].
  apply (tame_on_mem _ is_byte); [apply load_inside|]. intros h1 _. destruct (negb (h1 =? 86)); [by apply tame_err|]. apply tame_ret. done.
Qed.

Lemma read_header_tame c n processed : sized c -> 0 <= processed -> processed + 7 < 2 ^ 32 ->
  tame c (fun p c' => sized c' /\ data_compressed c' = negb (data_csize c' =? -1) /\
      data_rem_size c' = (if data_csize c' =? -1 then data_ucsize c' else data_csize c') /\
      (p = processed /\ data c' = data c \/ processed < p <= processed + 7)) (lzf_read_header n processed).
Proof using.
  intros Hs Hp Hw. unfold lzf_read_header. apply tame_gets, (tame_on_mem _ is_byte); [apply load_inside|]. intros type _.
  apply (tame_bind _ (fun p c' => sized c' /\ (p = processed /\ data c' = data c \/ processed < p <= processed + 7))).
  - destruct (type =? 0); [|destruct (type =? 1); [|by apply tame_err]].
    + apply tame_be16. intros u Hu. apply tame_set_lzf, tame_ret. change TYPE0_HDR_SIZE with 5. rewrite (wrapw_small 32 (processed + 5)) by (unfold in_word; lia).
      split; [split; cbn; lia|lia].
    + destruct (n <? TYPE1_HDR_SIZE); [apply tame_set_lzf, tame_ret; split; [done|by left]|].
      apply tame_be16. intros v Hv. apply tame_be16. intros u Hu. apply tame_set_lzf, tame_ret. change TYPE1_HDR_SIZE with 7.
      rewrite (wrapw_small 32 (processed + 7)) by (unfold in_word; lia). split; [split; cbn; lia|lia].
  - intros p c1 [Hs1 Hp1]. apply tame_gets, tame_set_lzf, tame_ret. cbn. split; [done|]. split; [done|]. split; [|done].
    destruct Hs1 as [? Hs1]. destruct (Z.eqb_spec (data_csize c1) (-1)); apply wrapw_small; unfold in_word; lia.
Qed.

Lemma payload_tame c l : sized c -> data_compressed c = negb (data_csize c =? -1) -> data_rem_size c = (if data_csize c =? -1 then data_ucsize c else data_csize c) ->
  lo <= out l -> data_ucsize c <= hi - out l -> 0 <= processed_size l -> processed_size l + data_rem_size c < 2 ^ 32 -> written_size l = out l - lo ->
  tame c (fun l' c' => between_blocks c' /\ processed_size l' = processed_size l + data_rem_size c /\ lo <= out l' <= hi /\ written_size l' = out l' - lo /\
      lzf_in l' = data c + data_rem_size c) (lzf_payload dma lzf_decompress l).
Proof using Law Hhi Lzf.
  intros Hs Hc Hr Ho Hroom Hp Hw Hwr. unfold lzf_payload. apply tame_gets. rewrite Hc. pose proof Hs as [Hu Hcs].
  assert (Hrem : 0 <= data_rem_size c) by (rewrite Hr; destruct (Z.eqb_spec (data_csize c) (-1)); lia).
  assert (Hu32 : u32 (data_ucsize c) = data_ucsize c) by (apply wrapw_small; unfold in_word; lia).
  apply (tame_bind _ (fun r c' => fst (fst r) = data c + data_rem_size c /\ c' = c)).
  - rewrite Hr. destruct (Z.eqb_spec (data_csize c) (-1)) as [E|E]; cbn [negb].
    + apply (tame_on_mem _ (fun _ => True)); [apply contained_memcpy; [done|lia|right; split; [lia|]; split; [lia|apply any_reads]|apply any_reads]|]. intros _ _.
      eapply tame_on_mem; [apply contained_load_bytes, any_reads|]. intros b _. by apply tame_ret.
    + rewrite Hu32. apply (tame_on_mem _ (fun _ => True)).
      { apply (contained_wider _ _ _ (out l) (out l + data_ucsize c)); [lia|lia|]. apply Lzf. lia. }
      intros n _. apply tame_fail_if. intros _. eapply tame_on_mem; [apply contained_load_bytes, any_reads|]. intros b _. by apply tame_ret.
  - intros [[i k] crc] c' [Hi ->]. cbn in Hi. apply tame_set_lzf, tame_ret. cbn. split; [done|].
    rewrite (wrapw_small 32 (processed_size l + _)) by (unfold in_word; lia).
    rewrite (wrapw_small 32 (written_size l + _)) by (unfold in_word; lia). split; [done|]. split; [lia|]. split; [lia|done].
Qed.

Lemma lzf_loop_tame fuel : forall c in_size l, between_blocks c -> 0 <= in_size < 2 ^ 32 - 8 ->
  (Z.to_nat (in_size - processed_size l) + (if decide (lzf_in l = 0%Z) then 0%nat else 1%nat) < fuel)%nat ->
  0 <= processed_size l -> lo <= out l <= hi -> written_size l = out l - lo ->
  tame c (fun l' _ => 0 <= written_size l' <= hi - lo) (lzf_loop dma lzf_decompress fuel in_size hi l).
Proof using Law Hhi Hnull Lzf.
  induction fuel as [|fuel IH]; intros c in_size l Hb Hin Hf Hp Ho Hw; [lia|]. cbn [lzf_loop]. apply tame_gets.
  destruct (Z.ltb_spec (processed_size l) in_size); [|apply tame_ret; lia]. destruct (data_read c <? csum_offset c); [|apply tame_ret; lia]. cbn [andb].
  pose proof Hb as (Hs & Hd & Hh). rewrite Hd. change (0 =? 0) with true. cbv iota.
  rewrite (wrapw_small 32 (in_size - _)) by (unfold in_word; lia).
  eapply tame_bind; [by apply find_header_tame|]. intros b c1 [Hs1 Hb1]. destruct b; cbn [negb]; [|apply tame_ret; lia].
  destruct (Hb1 eq_refl) as (Hin0 & Hd1 & Hh1). eapply tame_bind; [apply read_header_tame; [done|lia|lia]|].
  intros p c2 (Hs2 & Hc2 & Hr2 & Hp2). apply tame_gets. cbv zeta. destruct (Z.ltb_spec (in_size - processed_size l) (data_rem_size c2)); [apply tame_set_lzf, tame_ret; cbn; lia|].
  apply tame_fail_if. cbn [out]. intros Hroom. zbool. pose proof Hs2 as [Hu Hcs].
  assert (Hrem : 0 <= data_rem_size c2) by (rewrite Hr2; destruct (Z.eqb_spec (data_csize c2) (-1)); lia).
  eapply tame_bind; [apply payload_tame; cbn; try done; lia|]. intros l' c3 (Hb3 & Hp3 & Ho3 & Hw3 & Hi3). cbn in Hp3.
  apply IH; [done|done| |lia|lia|lia].
  destruct (decide (lzf_in l = 0)); [done|]. destruct Hp2 as [[-> Hd2]|Hp2]; [|destruct (decide _); lia].
  rewrite Hd2, Hd1 in Hi3. destruct (decide (data_rem_size c2 = 0)) as [E|]; [|destruct (decide _); lia].
  rewrite E in *. destruct (decide (lzf_in l' = 0)); lia.
Qed.

Lemma differs_inside b : forall p, contained D True True lo hi (fun _ => True) (differs p b).
Proof using.
  induction b as [|c b IH]; intros p; cbn [differs]; [by apply contained_ret|].
  eapply contained_bind; [apply load_inside|]. intros v _. destruct (negb _); [by apply contained_ret|apply IH].
Qed.

Lemma do_lzf_tame c in_buffer in_size : between_blocks c -> 0 <= in_size < 2 ^ 32 - 8 ->
  tame c (fun w _ => 0 <= w <= hi - lo) (do_lzf_decompress dma lzf_decompress in_buffer in_size lo (hi - lo)).
Proof using Law Hhi Hnull Lzf.
  intros Hb Hin. unfold do_lzf_decompress. replace (lo + (hi - lo)) with hi by lia.
  eapply tame_bind; [apply lzf_loop_tame; cbn; try done; [destruct (decide _); lia|lia|lia]|]. intros l c1 Hl. cbn beta in Hl. apply tame_gets.
  eapply (tame_bind _ (fun _ _ => True)); [|intros _ c2 _; by apply tame_ret]. unfold when. destruct (_ <=? _); [|by apply tame_ret].
  eapply tame_on_mem; [apply differs_inside|]. intros d _. destruct d; [by apply tame_err|by apply tame_ret].
Qed.

(** ** The table *)

Variable inflateInit2 : z_stream -> Z -> Z * z_stream.
Variable inflateEnd : z_stream -> z_stream.

Lemma method_tame zlib lzf_on lz4 d c read_buffer read_size :
  d ∈ decompressor_list dma lzf_decompress inflateInit2 inflate inflateEnd zlib lzf_on lz4 -> 0 <= read_size < 2 ^ 32 - 8 ->
  tame c (fun w _ => 0 <= w <= hi - lo) (do_decompress d read_buffer read_size lo (hi - lo)).
Proof using Law Hlo Hhi Hnull Inflate Lzf.
  intros Hd Hr. unfold decompressor_list in Hd. rewrite !elem_of_app in Hd.
  assert (Hm : forall (x : M contexts Z) (e : option (M contexts unit)) c1, tame c1 (fun w _ => 0 <= w <= hi - lo) x ->
    (forall f, e = Some f -> forall c2, tame c2 (fun _ _ => True) f) ->
    tame c1 (fun w _ => 0 <= w <= hi - lo) (let! w := x in match e with Some f => f | None => ret tt end ;;; ret w)).
  { intros x e c1 Hx He. eapply tame_bind; [exact Hx|]. intros w c2 Hw. cbn beta in Hw. apply (tame_bind _ (fun _ _ => True)); [|intros _ c3 _; by apply tame_ret].
    destruct e as [f|]; [by apply He|by apply tame_ret]. }
  destruct Hd as [Hd|[Hd|Hd]].
  - destruct zlib; [|by apply not_elem_of_nil in Hd]. apply list_elem_of_singleton in Hd as ->. unfold do_decompress. cbn [name init decompress end_].
    apply (tame_bind _ (fun _ _ => True)).
    { unfold when. cbn. eapply (tame_bind _ (fun _ _ => True)); [|intros b c1 _; by destruct b; [apply tame_ret|apply tame_err]].
      unfold zlib_init. apply tame_strm. intros z. destruct (inflateInit2 _ _) as [code z']. apply tame_set_strm. by apply tame_ret. }
    intros _ c1 _. apply (Hm _ (Some (zlib_end inflateEnd))); [apply zlib_decompress_tame|]. intros f [= <-] c2. apply tame_strm. by intros z s G <-.
  - destruct lzf_on; [|by apply not_elem_of_nil in Hd]. apply list_elem_of_singleton in Hd as ->. unfold do_decompress. cbn [name init decompress end_].
    apply (tame_bind _ (fun _ c' => between_blocks c')).
    { unfold when. cbn. eapply (tame_bind _ (fun b c' => b = true /\ between_blocks c')); [|intros b c1 [-> Hb]; by apply tame_ret].
      unfold lzf_init. apply tame_set_lzf, tame_ret. split; [done|]. split; [split; cbn; lia|done]. }
    intros _ c1 Hb. by apply (Hm _ None); [apply do_lzf_tame|].
  - destruct lz4; [|by apply not_elem_of_nil in Hd].
    assert (Hl : forall nm mg, d = mk_decompressor mg nm None (lz4_method dma) None -> nm = "lz4"%string \/ nm = "lz4-legacy"%string ->
      tame c (fun w _ => 0 <= w <= hi - lo) (do_decompress d read_buffer read_size lo (hi - lo))).
    { intros nm mg -> Hnm. unfold do_decompress. cbn [name init decompress end_]. apply (tame_bind _ (fun _ _ => True)); [by destruct Hnm as [-> | ->]; apply tame_ret|].
      intros _ c1 _. apply (Hm _ None); [|done]. eapply tame_weaken; [apply tame_mem, do_lz4_inside; (done || lia)|]. intros w c' [Hw _]. done. }
    apply elem_of_cons in Hd as [->|Hd]; [eapply Hl; [done|by right]|]. apply list_elem_of_singleton in Hd as ->. eapply Hl; [done|by left].
Qed.
End MethodSafety.

(** ** LZ4 frames *)

Definition block : Type := list sequence * list Z.
Definition contents (b : block) : list Z := expand [] (fst b) (snd b).
Definition block_bytes (sums : bool) (b : block) : list Z :=
  le 4 (len (encode (fst b) (snd b))) ++ encode (fst b) (snd b) ++ (if sums then le 4 0 else []).

(** The four-byte magic number, or with it the flags, the block descriptor, the size
    of the content when the flags announce it, and the checksum of the header. *)
Inductive frame_header :=
  | legacy
  | current (flag descriptor size header_csum : Z).
Definition header_bytes (h : frame_header) : list Z :=
  match h with
  | legacy => le 4 LZ4_LEGACY_MAGIC_NUMBER
  | current flag descriptor size hc =>
      le 4 LZ4_CURRENT_MAGIC_NUMBER ++ [flag] ++ [descriptor] ++ (if truthy (Z.land flag CONTENT_SIZE_FALG_MASK) then le 8 size else []) ++ [hc]
  end.
Definition has_sums (h : frame_header) : bool :=
  match h with legacy => false | current flag _ _ _ => truthy (Z.land flag BLOCK_CHECKSUM_FLAG_MASK) end.
(** Zero where no size is announced. *)
Definition announced (h : frame_header) : Z :=
  match h with legacy => 0 | current flag _ size _ => if truthy (Z.land flag CONTENT_SIZE_FALG_MASK) then size else 0 end.

Definition block_ok (b : block) : Prop :=
  well_formed 0 (fst b) (snd b) /\ 0 < len (contents b) /\ len (encode (fst b) (snd b)) < 2 ^ 31.
Definition total (bs : list block) : list Z := concat (map contents bs).

Lemma load_field m a l o n : holds m a l -> (o + n <= length l)%nat -> load_le n (a + Z.of_nat o) m = (Ret (ldn n l o), m).
Proof. intros H Hn. unfold load_le. rewrite (bind_run _ _ _ _ _ (load_slice _ _ _ _ _ H Hn)). by rewrite ldn_slice. Qed.

Lemma load_le_holds m a n v r : holds m a (le n v ++ r) -> 0 <= v < 256 ^ Z.of_nat n -> load_le n a m = (Ret v, m).
Proof.
  intros [H _]%holds_app Hv. unfold load_le. pose proof (load_bytes_holds _ _ _ H) as E. rewrite length_le in E. rewrite (bind_run _ _ _ _ _ E).
  rewrite <- (app_nil_r (le n v)), ldn_le. by rewrite Z.mod_small.
Qed.

Lemma well_formed_lens seqs last n : well_formed n seqs last -> Forall (fun s => 4 <= match_len s) seqs.
Proof. revert n. induction seqs as [|s seqs IH]; intros n H; [done|]. cbn in H. destruct H as (_ & ? & _ & _ & _ & _ & H). constructor; [done|by eapply IH]. Qed.

Section Frame.
Variables (dma : tegrabl_clib_dma) (lo hi : Z).
Hypothesis Law : forall f, memcpy_callback dma = Some f -> engine_copies f.
Hypothesis Hhi : 0 < lo <= hi /\ hi < 2 ^ 63 /\ hi - lo < 2 ^ 31.

Lemma lz4_blocks_run sums trailer bs : (trailer = [] \/ exists r, trailer = le 4 0 ++ r) -> Forall block_ok bs ->
  forall fuel m cbuf dbuf, let input := concat (map (block_bytes sums) bs) ++ trailer in
  holds m cbuf input -> 0 < cbuf -> cbuf + len input < 2 ^ 62 -> cbuf + len input <= lo \/ hi <= cbuf -> lo <= dbuf -> dbuf + len (total bs) <= hi ->
  mapped m lo (hi - lo) -> (length input < fuel)%nat ->
  exists m', lz4_blocks dma fuel sums cbuf (cbuf + len input) dbuf hi m = (Ret (dbuf + len (total bs)), m') /\
    holds m' dbuf (total bs) /\ overwritten m m' dbuf (hi - dbuf).
Proof using Law Hhi.
  intros Htr Hbs. induction Hbs as [|b bs (Hwf & Hpos & H31) Hbs IH]; intros fuel m cbuf dbuf input Hin Hc Hc62 Ha Hd Hfit Hm Hf; (destruct fuel as [|fuel]; [lia|]); cbn [lz4_blocks].
  - unfold total. cbn [map concat length]. rewrite Z.add_0_r. exists m. split; [|split; [apply holds_nil|apply overwritten_refl]].
    unfold input in *. cbn [map concat app] in *. destruct Htr as [->|[r ->]]; [cbn; by rewrite Z.add_0_r, Z.ltb_irrefl|].
    rewrite length_app, length_le. destruct (Z.ltb_spec cbuf (cbuf + Z.of_nat (4 + length r))); [|done].
    rewrite (bind_run _ _ _ _ _ (load_le_holds m cbuf 4 0 r Hin ltac:(done))). done.
  - assert (Hinput : input = le 4 (len (encode (fst b) (snd b))) ++ encode (fst b) (snd b) ++ (if sums then le 4 0 else []) ++ concat (map (block_bytes sums) bs) ++ trailer).
    { unfold input. cbn [map concat]. unfold block_bytes. by rewrite <- !app_assoc. }
    set (rest := concat (map (block_bytes sums) bs) ++ trailer) in *. set (e := encode (fst b) (snd b)) in *.
    pose proof (encode_least (fst b) (snd b)) as Hleast. fold e in Hleast.
    set (pad := if sums then le 4 0 else []) in *.
    assert (Hpad : 0 <= len pad <= 4) by (unfold pad; destruct sums; [rewrite length_le|cbn]; lia).
    assert (Hskip : forall a, (if sums then a + BLOCK_CHECKSUM_SZ else a) = a + len pad) by (intros a; unfold pad; destruct sums; [by rewrite length_le|cbn; lia]).
    assert (Hlen : len input = 4 + len e + len pad + len rest) by (rewrite Hinput, !length_app, length_le; lia).
    rewrite Hlen in *. rewrite Hinput in Hin. clear Hinput. clearbody pad input. destruct (Z.ltb_spec cbuf (cbuf + (4 + len e + len pad + len rest))); [|lia].
    rewrite (bind_run _ _ _ _ _ (load_le_holds m cbuf 4 (len e) _ Hin ltac:(change (256 ^ Z.of_nat 4) with (2 ^ 32); lia))). change BLOCK_SIZE_SZ with 4.
    destruct (Z.eqb_spec (len e) 0); [lia|]. destruct (Z.leb_spec (cbuf + (4 + len e + len pad + len rest)) (cbuf + 4)); [lia|]. cbn [orb].
    apply holds_app in Hin as [_ [He [_ Hrest]%holds_app]%holds_app]. rewrite length_le in He, Hrest. change (Z.of_nat 4) with 4 in He, Hrest.
    unfold total in Hfit. cbn [map concat] in Hfit. rewrite length_app in Hfit. fold (total bs) in Hfit.
    assert (Hs : s32 (len e) = len e) by (unfold signedw; rewrite wrapw_small by (unfold in_word; lia); by destruct (Z.ltb_spec (len e) (2 ^ (32 - 1))); [|lia]).
    assert (Hh : s32 (u32 (hi - dbuf)) = hi - dbuf) by (rewrite wrapw_small by (unfold in_word; lia); unfold signedw; rewrite wrapw_small by (unfold in_word; lia); by destruct (Z.ltb_spec (hi - dbuf) (2 ^ (32 - 1))); [|lia]).
    assert (Hexp : expanded_len 0 (fst b) (snd b) = len (contents b)) by (unfold contents; rewrite length_expand; [done|by eapply well_formed_lens]).
    destruct (decoder_expands dma m (fst b) (snd b) (cbuf + 4) dbuf (hi - dbuf) Law He Hwf) as (m1 & E1 & M1 & O1); fold e; [lia|lia| |lia|lia|lia|lia|].
    { eapply mapped_sub; [exact Hm|lia|lia]. }
    fold (contents b) in E1, M1. rewrite Hs, Hh. rewrite (bind_run _ _ _ _ _ E1). unfold fail_if. destruct (Z.ltb_spec (len (contents b)) 0); [lia|]. rewrite bind_ret_l, Hskip.
    destruct (IH fuel m1 (cbuf + 4 + len e + len pad) (dbuf + len (contents b))) as (m2 & E2 & M2 & O2);
      [eapply overwritten_holds; [exact O1|lia|exact Hrest]|lia|lia|lia|lia|lia|by eapply overwritten_mapped|lia|].
    exists m2. unfold total. cbn [map concat]. fold (total bs). rewrite length_app.
    replace (dbuf + Z.of_nat (length (contents b) + length (total bs))) with (dbuf + len (contents b) + len (total bs)) by lia.
    replace (cbuf + (4 + len e + len pad + len rest)) with (cbuf + 4 + len e + len pad + len rest) by lia.
    split; [exact E2|]. split; [apply holds_app; split; [|done]; eapply overwritten_holds; [exact O2|lia|exact M1]|].
    eapply overwritten_trans; [exact O1|]. eapply overwritten_wider; [exact O2|lia|lia].
Qed.
End Frame.

Definition header_ok (h : frame_header) : Prop :=
  match h with legacy => True | current flag descriptor size hc => 0 <= size < 2 ^ 64 end.

Lemma lz4_header_run m a h r : holds m a (header_bytes h ++ r) -> header_ok h ->
  lz4_header a m = (Ret (a + len (header_bytes h), has_sums h, announced h), m).
Proof.
  intros H Hok. unfold lz4_header. destruct h as [|flag descriptor size hc].
  - cbn [header_bytes] in *. rewrite (bind_run _ _ _ _ _ (load_le_holds m a 4 _ _ H ltac:(split; [done|reflexivity]))). rewrite length_le. reflexivity.
  - cbn [header_bytes has_sums announced header_ok] in *. rewrite <- !app_assoc in H.
    rewrite (bind_run _ _ _ _ _ (load_le_holds m a 4 _ _ H ltac:(split; [done|reflexivity]))).
    change (LZ4_CURRENT_MAGIC_NUMBER =? LZ4_LEGACY_MAGIC_NUMBER) with false. rewrite Z.eqb_refl. cbv iota.
    apply holds_app in H as [_ H]. rewrite length_le in H. change MAGIC_NUMBER_SZ with 4. change (Z.of_nat 4) with 4 in H.
    apply holds_cons in H as [Hf H]. rewrite (bind_run _ _ _ _ _ (load_run _ _ _ Hf)).
    apply holds_cons in H as [Hd H]. rewrite (bind_run _ _ _ _ _ (load_run _ _ _ Hd)). cbv zeta.
    destruct (truthy (Z.land flag CONTENT_SIZE_FALG_MASK)).
    + unfold bind at 1. unfold bind at 1. rewrite (load_le_holds m (a + 4 + 1 + 1) 8 size _ H Hok). cbn [ret].
      apply holds_app in H as [_ H]. rewrite length_le in H. change ORIGINAL_CONTENT_SZ with 8. change (Z.of_nat 8) with 8 in H. cbn [app] in H. apply holds_cons in H as [Hh _].
      unfold ret at 1. rewrite (bind_run _ _ _ _ _ (load_run _ _ _ Hh)). rewrite !length_app, !length_le. cbn [length].
      unfold ret. by replace (a + Z.of_nat _) with (a + 4 + 1 + 1 + 8 + 1) by lia.
    + cbn [app] in H. apply holds_cons in H as [Hh _]. rewrite bind_ret_l. rewrite (bind_run _ _ _ _ _ (load_run _ _ _ Hh)). cbn [app].
      rewrite length_app, length_le. cbn [length]. unfold ret. by replace (a + Z.of_nat _) with (a + 4 + 1 + 1 + 1) by lia.
Qed.

(** C8.  A frame, old or current, with or without block checksums and an announced
    size, is decoded to the contents of its blocks, one behind the other, when they
    fit the buffer; nothing outside the buffer is written. *)
Theorem frame_roundtrip dma m h bs trailer in_buffer out_buffer outbuf_size :
  (forall f, memcpy_callback dma = Some f -> engine_copies f) ->
  let frame := header_bytes h ++ concat (map (block_bytes (has_sums h)) bs) ++ trailer in
  holds m in_buffer frame -> header_ok h -> Forall block_ok bs -> trailer = [] \/ (exists r, trailer = le 4 0 ++ r) ->
  announced h = 0 \/ announced h = len (total bs) ->
  0 < in_buffer -> in_buffer + len frame < 2 ^ 62 -> in_buffer + len frame <= out_buffer \/ out_buffer + outbuf_size <= in_buffer ->
  0 < out_buffer < 2 ^ 62 -> 0 <= outbuf_size < 2 ^ 31 -> mapped m out_buffer outbuf_size -> len (total bs) <= outbuf_size ->
  exists m', do_lz4_decompress dma in_buffer (len frame) out_buffer outbuf_size m = (Ret (len (total bs)), m') /\
    holds m' out_buffer (total bs) /\ overwritten m m' out_buffer outbuf_size.
Proof.
  intros Law frame Hin Hh Hbs Htr Hann Hi Hi62 Ha Ho Hos Hm Hfit. unfold do_lz4_decompress.
  rewrite (bind_run _ _ _ _ _ (lz4_header_run m in_buffer h _ Hin Hh)). apply holds_app in Hin as [_ Hin].
  unfold frame in *. rewrite length_app in *. set (input := concat _ ++ trailer) in *.
  destruct (lz4_blocks_run dma out_buffer (out_buffer + outbuf_size) Law ltac:(lia) (has_sums h) trailer bs Htr Hbs
    (S (Z.to_nat (Z.of_nat (length (header_bytes h) + length input)))) m (in_buffer + len (header_bytes h)) out_buffer) as (m' & E & H & O);
    fold input; [exact Hin|lia|lia|lia|lia|lia|by replace (out_buffer + outbuf_size - out_buffer) with outbuf_size by lia|lia|].
  fold input in E. replace (in_buffer + Z.of_nat (length (header_bytes h) + length input)) with (in_buffer + len (header_bytes h) + len input) by lia.
  rewrite (bind_run _ _ _ _ _ E). replace (out_buffer + len (total bs) - out_buffer) with (len (total bs)) by lia.
  replace (out_buffer + outbuf_size - out_buffer) with outbuf_size in O by lia. rewrite wrapw_small by (unfold in_word; lia).
  exists m'. split; [|done]. unfold fail_if, truthy. destruct Hann as [-> | ->]; [done|]. by rewrite Z.eqb_refl, andb_false_r.
Qed.

(** Two blocks behind a header that announces 42 bytes. *)
Definition two_blocks : list block := [(repeating, tail_text); ([], tail_text)].
Definition sized_header : frame_header := current 0x78 0x40 42 0.
Definition sized_frame : list Z := header_bytes sized_header ++ concat (map (block_bytes true) two_blocks) ++ le 4 0.
Definition frame_memory : mem := text_memory 16 sized_frame ∪ text_memory 128 (repeat 0 48).

Lemma frame_roundtrip_witness : exists m',
  do_lz4_decompress no_engine 16 (len sized_frame) 128 48 frame_memory = (Ret 42, m') /\ holds m' 128 (total two_blocks).
Proof.
  destruct (frame_roundtrip no_engine frame_memory sized_header two_blocks (le 4 0) 16 128 48) as (m' & E & H & _);
    [discriminate|apply holds_check; vm_compute; reflexivity|vm_compute; split; [discriminate|reflexivity]| |right; by exists []|right; vm_compute; reflexivity|
     lia|vm_compute; reflexivity|left; vm_compute; discriminate|lia|lia|apply mapped_check; vm_compute; reflexivity|vm_compute; discriminate|].
  - constructor; [|constructor; [|constructor]]; (split; [|split; vm_compute; reflexivity]).
    + cbn [well_formed repeating fst snd]. split; [by apply bytes_dec|]. split; [vm_compute; discriminate|]. split; [split; reflexivity|]. split; [vm_compute; discriminate|].
      split; [vm_compute; discriminate|]. split; [vm_compute; discriminate|]. split; [by apply bytes_dec|]. split; [vm_compute; discriminate|].
      split; [split; reflexivity|]. split; [vm_compute; discriminate|]. split; [vm_compute; discriminate|]. split; [vm_compute; discriminate|by apply bytes_dec].
    + by apply bytes_dec.
  - exists m'. split; [exact E|exact H].
Defined.

(** C9.  Whatever the input and whichever method takes it, decompression ends; it has
    written only the output buffer, and a size it returns is one that fits.  It is
    enough that inflate and the LZF decoder keep to the output they are given, and
    that nothing is mapped at NULL. *)
Theorem decompression_contained {inflate_state} dma lzf_decompress inflateInit2 (inflate : @z_stream inflate_state -> Z -> M mem (Z * z_stream)) inflateEnd
    zlib lzf_on lz4 d s read_buffer read_size out_buffer outbuf_size :
  (forall f, memcpy_callback dma = Some f -> engine_contained f) ->
  (forall D z flush, 0 <= avail_out z -> contained D True True (next_out z) (next_out z + avail_out z) (fun r => 0 <= avail_out (snd r) <= avail_out z) (inflate z flush)) ->
  (forall D i n o k, 0 <= k -> contained D True True o (o + k) (fun _ => True) (lzf_decompress i n o k)) ->
  d ∈ decompressor_list dma lzf_decompress inflateInit2 inflate inflateEnd zlib lzf_on lz4 ->
  byte_memory (d_mem s) -> d_mem s !! 0 = None -> 4 <= out_buffer -> 0 <= outbuf_size < 2 ^ 31 -> 0 <= read_size < 2 ^ 32 - 8 ->
  let '(o, s') := do_decompress d read_buffer read_size out_buffer outbuf_size s in
  overwritten (d_mem s) (d_mem s') out_buffer outbuf_size /\
  match o with Ret w => 0 <= w <= outbuf_size | Err _ | Undef => True | _ => False end.
Proof.
  intros Law Linf Llzf Hd Hb H0 Ho Hos Hr.
  assert (Hn : ~ is_Some (d_mem s !! 0)) by (rewrite H0; by intros [? ?]).
  pose proof (method_tame (fun x => is_Some (d_mem s !! x)) dma out_buffer (out_buffer + outbuf_size) Law Ho ltac:(lia) Hn inflate (Linf _) lzf_decompress (Llzf _)
    inflateInit2 inflateEnd zlib lzf_on lz4 d (lzf s) read_buffer read_size Hd Hr s) as H.
  specialize (H ltac:(by split) eq_refl). replace (out_buffer + outbuf_size - out_buffer) with outbuf_size in H by lia.
  destruct (do_decompress _ _ _ _ _ s) as [o s']. destruct H as ([Hdom _] & Hout & H). cbn in *.
  split; [split; [intros x Hx; by apply Hdom|done]|]. by destruct o.
Qed.

(** An inflate that stores a byte, an LZF decoder that copies. *)
Definition toy_inflate (z : @z_stream unit) (flush : Z) : M mem (Z * z_stream) :=
  if avail_out z <=? 0 then ret (Z_STREAM_END, z)
  else (let! v := load (next_in z) in store (next_out z) v) ;;;
       ret (Z_STREAM_END, mk_stream (next_in z + 1) (avail_in z - 1) (next_out z + 1) (avail_out z - 1) tt).
Definition toy_lzf (i n o k : Z) : M mem Z := copy_bytes (Z.to_nat (Z.min n k)) o i ;;; ret k.
Definition idle (m : mem) : contexts := mk_contexts m (mk_lzf 0 0 0 false 0 0 0 0 0 0) (mk_stream 0 0 0 0 tt) false.
Definition toy_list : list decompressor := decompressor_list no_engine toy_lzf (fun z _ => (Z_OK, z)) toy_inflate id true true true.

Lemma toy_inflate_law D z flush : 0 <= avail_out z ->
  contained D True True (next_out z) (next_out z + avail_out z) (fun r => 0 <= avail_out (snd r) <= avail_out z) (toy_inflate z flush).
Proof.
  intros Hz. unfold toy_inflate. destruct (Z.leb_spec (avail_out z) 0); [apply contained_ret; cbn; lia|].
  apply (contained_bind _ _ _ _ _ (fun _ => True)); [|intros _ _; apply contained_ret; cbn; lia].
  apply (contained_bind _ _ _ _ _ is_byte); [apply contained_load, any_reads|]. intros v Hv. apply contained_store; [|done].
  right. split; [lia|]. split; [lia|apply any_reads].
Qed.

Lemma toy_lzf_law D i n o k : 0 <= k -> contained D True True o (o + k) (fun _ => True) (toy_lzf i n o k).
Proof.
  intros Hk. eapply contained_bind; [|intros _ _; by apply contained_ret]. apply contained_copy_bytes; [|apply any_reads].
  destruct (decide (Z.min n k <= 0)); [left; lia|]. right. split; [lia|]. split; [lia|apply any_reads].
Qed.

Lemma lz4_in_toy_list : mk_decompressor (0x04, 0x22) "lz4" None (lz4_method no_engine) None ∈ toy_list.
Proof. repeat (apply elem_of_cons; first [by left|right]). Qed.

Lemma decompression_contained_witness :
  let '(o, s') := do_decompress (mk_decompressor (0x04, 0x22) "lz4" None (lz4_method no_engine) None) 16 (len sized_frame) 128 48 (idle frame_memory) in
  overwritten frame_memory (d_mem s') 128 48 /\ match o with Ret w => 0 <= w <= 48 | Err _ | Undef => True | _ => False end.
Proof.
  apply (decompression_contained no_engine toy_lzf (fun z _ => (Z_OK, z)) toy_inflate id true true true _ (idle frame_memory));
    [discriminate|apply toy_inflate_law|apply toy_lzf_law|apply lz4_in_toy_list|apply byte_memory_check; vm_compute; reflexivity|vm_compute; reflexivity|lia|lia|].
  vm_compute. split; [discriminate|reflexivity].
Defined.

(** ** Inputs the methods take otherwise than their formats *)

(** A block that claims more bytes than there are is read past the end of the input. *)
Example block_past_the_input :
  fst (do_lz4_decompress no_engine 16 12 128 48
    (text_memory 16 (le 4 LZ4_LEGACY_MAGIC_NUMBER ++ le 4 200 ++ [0x70; 1; 2; 3]) ∪ text_memory 128 (repeat 0 48))) = Undef.
Proof. vm_compute. reflexivity. Qed.

(** The bit for a block that is stored as it is is taken as a part of its size. *)
Example stored_block_refused :
  fst (do_lz4_decompress no_engine 16 (4 + 3 + 8) 128 48
    (text_memory 16 (le 4 LZ4_CURRENT_MAGIC_NUMBER ++ [0x60; 0x40; 0] ++ le 4 (2 ^ 31 + 4) ++ [1; 2; 3; 4]) ∪ text_memory 128 (repeat 0 48))) =
  Err (TEGRABL_ERROR TEGRABL_ERR_BAD_PARAMETER 0).
Proof. vm_compute. reflexivity. Qed.

(** LZF: a header that begins with zero ends the input with success although the
    checksum has not been compared. *)
Example zero_header_accepted :
  fst ((lzf_init 32 ;;; do_lzf_decompress no_engine toy_lzf 16 32 128 48) (idle (text_memory 16 (repeat 0 32) ∪ text_memory 128 (repeat 0 48)))) = Ret 0.
Proof. vm_compute. reflexivity. Qed.

(** LZF: what is left of the input is not reduced by the header, so that a block may
    end behind it. *)
Example block_behind_the_input :
  fst ((lzf_init 20 ;;; do_lzf_decompress no_engine toy_lzf 16 9 128 48)
    (idle (text_memory 16 [90; 86; 0; 0; 9; 1; 2; 3; 4] ∪ text_memory 128 (repeat 0 48)))) = Undef.
Proof. vm_compute. reflexivity. Qed.

(** LZF: a header of the second type that is cut off is followed at NULL. *)
Example short_header_at_null :
  fst ((lzf_init 6 ;;; do_lzf_decompress no_engine toy_lzf 16 6 128 48)
    (idle (text_memory 16 [90; 86; 1; 0; 9; 1] ∪ text_memory 128 (repeat 0 48)))) = Undef.
Proof. vm_compute. reflexivity. Qed.
