(* ===== verification/BootImage.v ===== *)
(** * Boot images

    linuxboot_utils.c, linux_load.c and fixed_boot.c of lib/linuxboot: the order of
    carveouts, the header of a boot image, where kernel and ramdisk are put, the boot
    control of the recovery, and loading from the built-in storage with the options
    CONFIG_ENABLE_SECURE_BOOT and CONFIG_DT_SUPPORT.  The partition loader, the
    authentication and the memory map are not in the repository; they and libfdt are
    parameters. *)
From Stdlib Require Import Ascii String.
From stdpp Require Import gmap.
From S2P Require Import Prelude Interfaces Errors Utils Clib CString Printf Decompress.
#[local] Open Scope Z_scope.

Definition MODULE : Z := TEGRABL_ERR_LINUXBOOT.
Definition TEGRABL_ERROR (reason aux : Z) : Z := tegrabl_error_value MODULE aux reason.
Definition SET_HIGHEST_MODULE (e : Z) : Z := tegrabl_err_set_highest_module e MODULE.

(** ** Carveouts in the order of their addresses *)

(** The bases of the carveouts; reading behind the table is [Undef]. *)
Definition at_index {A} (l : list A) (i : Z) : outcome A :=
  if i <? 0 then Undef else match l !! Z.to_nat i with Some v => Ret v | None => Undef end.

Definition tegrabl_bom_compare (p_carveout : list Z) (a b : Z) : outcome Z :=
  let? base_a := at_index p_carveout a in
  let? base_b := at_index p_carveout b in
  Ret (if base_a <? base_b then -1 else if base_b <? base_a then 1 else 0).

(** The inner loop; [j1] is [j + 1].  Gives the place for [val]. *)
Fixpoint shift_up (p_carveout : list Z) (val : Z) (j1 : nat) (array : list Z) : outcome (nat * list Z) :=
  match j1 with
  | O => Ret (O, array)
  | S j =>
      let? x := at_index array (Z.of_nat j) in
      let? c := tegrabl_bom_compare p_carveout val x in
      if c <? 0 then
        if decide (S j < length array)%nat then shift_up p_carveout val j (<[S j := x]> array) else Undef
      else Ret (S j, array)
  end.

Fixpoint sort_from (p_carveout : list Z) (rounds i : nat) (array : list Z) : outcome (list Z) :=
  match rounds with
  | O => Ret array
  | S rounds =>
      let? val := at_index array (Z.of_nat i) in
      let? (j1, array) := shift_up p_carveout val i array in
      if decide (j1 < length array)%nat then sort_from p_carveout rounds (S i) (<[j1 := val]> array) else Undef
  end.

Definition tegrabl_sort (p_carveout array : list Z) (count : Z) : outcome (list Z) :=
  if count <? 2 then Ret array else sort_from p_carveout (Z.to_nat (count - 1)) 1 array.

(** ** The header of a boot image *)

Definition ANDROID_MAGIC : string := "ANDROID!".
Definition ANDROID_MAGIC_SIZE : Z := 8.
Definition ANDROID_HEADER_SIZE : Z := 2048.
Definition CRC32_SIZE : Z := 4.
Definition ARM64_MAGIC : Z := 0x644d5241.

(** Fields of [union tegrabl_bootimg_header] and [union tegrabl_arm64_header]. *)
Definition kernelsize (hdr : Z) : M mem Z := load_le 4 (hdr + 8).
Definition ramdisksize (hdr : Z) : M mem Z := load_le 4 (hdr + 16).
Definition secondsize (hdr : Z) : M mem Z := load_le 4 (hdr + 24).
Definition pagesize (hdr : Z) : M mem Z := load_le 4 (hdr + 36).
Definition cmdline (hdr : Z) : Z := hdr + 64.
Definition text_offset (ahdr : Z) : M mem Z := load_le 8 (ahdr + 8).
Definition arm64_magic (ahdr : Z) : M mem Z := load_le 4 (ahdr + 56).

Section Header.
Variable lit : string -> Z.

Definition HAS_BOOT_IMG_HDR (hdr : Z) : M mem bool :=
  let! d := memcmp hdr (lit ANDROID_MAGIC) ANDROID_MAGIC_SIZE in ret (d =? 0).

Definition tegrabl_verify_boot_img_hdr (hdr img_size : Z) : M mem unit :=
  let! d := memcmp hdr (lit ANDROID_MAGIC) ANDROID_MAGIC_SIZE in
  fail_if (truthy d) (TEGRABL_ERROR TEGRABL_ERR_VERIFY_FAILED 0) ;;;
  let! page := pagesize hdr in
  fail_if (page <? ANDROID_HEADER_SIZE) (TEGRABL_ERROR TEGRABL_ERR_INVALID 0) ;;;
  let hdr_size := page in
  let! kernel := kernelsize hdr in
  let! ramdisk := ramdisksize hdr in
  let! second := secondsize hdr in
  let hdr_fields_sum := u32 (u32 (u32 (hdr_size + kernel) + ramdisk) + second) in
  fail_if (img_size <? hdr_fields_sum) (TEGRABL_ERROR TEGRABL_ERR_INVALID 1) ;;;
  let! known_crc := load_le 4 (hdr + (ANDROID_HEADER_SIZE - CRC32_SIZE)) in
  when (truthy known_crc)
    (let! b := load_bytes (Z.to_nat ANDROID_HEADER_SIZE) hdr in
     let calculated_crc := tegrabl_utils_crc32 0 b in
     fail_if (negb (calculated_crc =? known_crc)) (TEGRABL_ERROR TEGRABL_ERR_VERIFY_FAILED 1)).
End Header.

(** [ROUND_UP_POW2] on [uint32_t]. *)
Definition ROUND_UP_POW2 (n w : Z) : Z := u32 (Z.land (u32 (n - 1)) (u32 (Z.lnot (u32 (w - 1)))) + w).

(** ** Kernel and ramdisk *)

Section Load.
Context {inflate_state : Type}.
Abbreviation contexts := (@contexts inflate_state).

Record boot := mk_boot { ctx : contexts; ramdisk_load : Z; ramdisk_size : Z; bootimg_cmdline : Z; fdt_handle_table : list Z }.

Definition on_ctx {A} (c : M contexts A) : M boot A := fun s =>
  let '(o, x) := c (ctx s) in (o, mk_boot x (ramdisk_load s) (ramdisk_size s) (bootimg_cmdline s) (fdt_handle_table s)).
Definition on_mem {A} (c : M mem A) : M boot A := on_ctx (Decompress.on_mem c).
Definition set_ramdisk_load (a : Z) : M boot unit := modify (fun s => mk_boot (ctx s) a (ramdisk_size s) (bootimg_cmdline s) (fdt_handle_table s)).
Definition set_ramdisk_size (n : Z) : M boot unit := modify (fun s => mk_boot (ctx s) (ramdisk_load s) n (bootimg_cmdline s) (fdt_handle_table s)).
Definition set_bootimg_cmdline (a : Z) : M boot unit := modify (fun s => mk_boot (ctx s) (ramdisk_load s) (ramdisk_size s) a (fdt_handle_table s)).
Definition set_fdt_table (t : list Z) : M boot unit := modify (fun s => mk_boot (ctx s) (ramdisk_load s) (ramdisk_size s) (bootimg_cmdline s) t).

Variable dma : tegrabl_clib_dma.
Variable lit : string -> Z.
(** The table of decompression methods. *)
Variable methods : list (@decompressor inflate_state).
(** The memory map of the board. *)
Variables (MAX_KERNEL_IMAGE_SIZE RAMDISK_MAX_SIZE BOOT_IMAGE_MAX_SIZE DTB_MAX_SIZE : Z).
Variables (tegrabl_get_kernel_text_offset tegrabl_get_kernel_load_addr tegrabl_get_ramdisk_load_addr : Z).

Definition tegrabl_get_ramdisk_info : M boot (Z * Z) := gets (fun s => (ramdisk_load s, ramdisk_size s)).
Definition tegrabl_get_bootimg_cmdline : M boot Z := gets bootimg_cmdline.

(** Gives [*kernel_load_addr]. *)
Definition extract_kernel (boot_img_load_addr kernel_bin_size : Z) : M boot Z :=
  let hdr := boot_img_load_addr in
  let! has := on_mem (HAS_BOOT_IMG_HDR lit hdr) in
  let! (payload_addr, kernel_size, kernel_text_offset) :=
    on_mem (if has then
      let! page := pagesize hdr in
      let! size := kernelsize hdr in
      ret (u64 (hdr + page), size, tegrabl_get_kernel_text_offset)
    else
      let! magic := arm64_magic hdr in
      let! offset := if magic =? ARM64_MAGIC then text_offset hdr else ret tegrabl_get_kernel_text_offset in
      ret (boot_img_load_addr, kernel_bin_size, offset)) in
  fail_if (MAX_KERNEL_IMAGE_SIZE <? kernel_size) (TEGRABL_ERROR TEGRABL_ERR_TOO_LARGE 0) ;;;
  let kernel_load_addr := u64 (tegrabl_get_kernel_load_addr + kernel_text_offset) in
  let! decomp := on_mem (find_method methods payload_addr) in
  match decomp with
  | None => on_mem (memmove dma kernel_load_addr payload_addr kernel_size) ;;; ret kernel_load_addr
  | Some decomp =>
      on_ctx (do_decompress decomp payload_addr kernel_size kernel_load_addr MAX_KERNEL_IMAGE_SIZE) ;;;
      ret kernel_load_addr
  end.

Definition extract_ramdisk (boot_img_load_addr : Z) : M boot unit :=
  set_ramdisk_load tegrabl_get_ramdisk_load_addr ;;;
  let hdr := boot_img_load_addr in
  let! size := on_mem (ramdisksize hdr) in
  fail_if (RAMDISK_MAX_SIZE <? size) (TEGRABL_ERROR TEGRABL_ERR_TOO_LARGE 1) ;;;
  let! page := on_mem (pagesize hdr) in
  let! kernel := on_mem (kernelsize hdr) in
  let ramdisk_offset := u64 (hdr + ROUND_UP_POW2 (u32 (page + kernel)) page) in
  set_ramdisk_size size ;;;
  when (negb (ramdisk_offset =? tegrabl_get_ramdisk_load_addr))
    (on_mem (memmove dma tegrabl_get_ramdisk_load_addr ramdisk_offset size) ;;; ret tt) ;;;
  set_bootimg_cmdline (cmdline hdr).

(** ** The boot control of the recovery *)

Definition KERNEL_BOOTCTRL_MAGIC_NUMBER : Z := 0x4C544342.
Definition KERNEL_BOOTCTRL_VERSION : Z := 1.
Definition BOOT_TO_NORMAL_MODE : Z := 0.
Definition BOOT_MODE_MAX : Z := 1.
Definition RECOVERY_CMD_NULL : Z := 0.
Definition RECOVERY_CMD_MAX : Z := 2.

(** [struct tegrabl_kernel_bootctrl]: the magic number, the mode, the command, the
    version and the crc, four bytes each. *)
Definition sizeof_bootctrl : nat := 20.
Definition dummy_kernel_bootctrl : list Z :=
  le 4 KERNEL_BOOTCTRL_MAGIC_NUMBER ++ le 4 BOOT_TO_NORMAL_MODE ++ le 4 RECOVERY_CMD_NULL ++ le 4 KERNEL_BOOTCTRL_VERSION ++ le 4 0x1cd6a971.

Definition bootctrl_valid (control : list Z) : bool :=
  (ld32 control 0 =? KERNEL_BOOTCTRL_MAGIC_NUMBER) &&
  (tegrabl_utils_crc32 0 (take (sizeof_bootctrl - 4) control) =? ld32 control 16) &&
  (ld32 control 12 =? KERNEL_BOOTCTRL_VERSION) && (ld32 control 4 <=? BOOT_MODE_MAX) && (ld32 control 8 <=? RECOVERY_CMD_MAX).

(** [tegrabl_load_binary_copy] of the partition loader: where a copy is. *)
Variable load_bootctrl_copy : bool -> M mem Z.

(** Gives the content of [*control]. *)
Definition tegrabl_get_kernel_bootctrl : M mem (list Z) :=
  let! primary := code (load_bootctrl_copy true) in
  let! found :=
    match primary with
    | inl a => ret (Some a)
    | inr _ => let! recovery := code (load_bootctrl_copy false) in ret (match recovery with inl a => Some a | inr _ => None end)
    end in
  match found with
  | Some a =>
      let! control := load_bytes sizeof_bootctrl a in
      ret (if bootctrl_valid control then control else dummy_kernel_bootctrl)
  | None => ret dummy_kernel_bootctrl
  end.

(** ** The handles of device trees *)

Definition TEGRABL_DT_KERNEL : Z := 1.
Definition TEGRABL_DT_COUNT : Z := 3.
Definition DT_ERROR (reason aux : Z) : Z := tegrabl_error_value TEGRABL_ERR_DEVICETREE aux reason.

Definition tegrabl_dt_set_fdt_handle (type fdt : Z) : M boot unit :=
  fail_if (TEGRABL_DT_COUNT <=? type) (DT_ERROR TEGRABL_ERR_NOT_SUPPORTED 0) ;;;
  let! t := gets fdt_handle_table in set_fdt_table (<[Z.to_nat type := fdt]> t).

Definition tegrabl_dt_get_fdt_handle (type : Z) : M boot Z :=
  fail_if (TEGRABL_DT_COUNT <=? type) (DT_ERROR TEGRABL_ERR_NOT_SUPPORTED 0) ;;;
  let! t := gets fdt_handle_table in
  let fdt := default 0 (t !! Z.to_nat type) in
  fail_if (fdt =? 0) (DT_ERROR TEGRABL_ERR_NOT_INITIALIZED 0) ;;;
  ret fdt.

(** [fdt_open_into] of libfdt makes room for [newlen] bytes; a negative result is an
    error. *)
Variable fdt_open_into : Z -> Z -> Z -> M mem Z.
Definition fdt_totalsize (fdt : Z) : M mem Z := let! b := load_bytes 4 (fdt + 4) in ret (be32tole32 (ld32 b 0)).

Definition tegrabl_dt_create_space (fdt inc_size max_size : Z) : M mem unit :=
  let! size := fdt_totalsize fdt in
  let newlen := u32 (size + inc_size) in
  let newlen := if max_size <? newlen then max_size else newlen in
  let! retval := fdt_open_into fdt fdt newlen in
  fail_if (retval <? 0) (DT_ERROR TEGRABL_ERR_EXPAND_FAILED 0).

(** ** Loading from the built-in storage *)

Variables (secure_boot dt_support : bool).
(** The partition loader: the address and the size of a binary. *)
Variable tegrabl_load_binary : Z -> M mem (Z * Z).
(** The authentication. *)
Variable tegrabl_do_ratchet_check : Z -> Z -> M mem bool.
Variable tegrabl_auth_get_binary_len : Z -> M mem Z.
Variable tegrabl_auth_payload : Z -> string -> Z -> Z -> M mem unit.
Variable tegrabl_auth_complete : M mem unit.
(** Updates of the kernel's device tree (libfdt). *)
Variable tegrabl_linuxboot_update_dtb : Z -> M mem unit.
(** [callbacks->verify_boot]; its result is not looked at. *)
Variable verify_boot : option (Z -> Z -> Z -> M mem unit).
(** Types of binaries. *)
Variables (TEGRABL_BINARY_KERNEL TEGRABL_BINARY_KERNEL_DTB : Z).

Definition FDT_SIZE_BL_DT_NODES : Z := 4048 + 4048.

(** Gives [*bin_len]. *)
Definition tegrabl_validate_binary (bin_type : Z) (bin_name : string) (bin_max_size load_addr : Z) : M mem Z :=
  let! ok := tegrabl_do_ratchet_check bin_type load_addr in
  fail_if (negb ok) (TEGRABL_ERROR TEGRABL_ERR_VERIFY_FAILED 2) ;;;
  let! bin_len := tegrabl_auth_get_binary_len load_addr in
  tegrabl_auth_payload bin_type bin_name load_addr bin_max_size ;;;
  ret bin_len.

Record kernel_bin := mk_kernel { load_from_storage : bool }.

(** Where the boot image is; one that is in memory already is not checked. *)
Definition load_boot_image (kernel : kernel_bin) (data data_size : Z) : M boot Z :=
  if negb (load_from_storage kernel) then
    fail_if (data =? 0) (TEGRABL_ERROR TEGRABL_ERR_INVALID 0) ;;; ret data
  else
    on_mem (let! (addr, size) := tegrabl_load_binary TEGRABL_BINARY_KERNEL in
      let! size := if secure_boot then tegrabl_validate_binary TEGRABL_BINARY_KERNEL "boot" BOOT_IMAGE_MAX_SIZE addr else ret BOOT_IMAGE_MAX_SIZE in
      tegrabl_verify_boot_img_hdr lit addr size ;;;
      ret addr).

(** Gives the addresses of the boot image and of the device tree. *)
Definition tegrabl_load_from_partition (kernel : kernel_bin) (data data_size : Z) : M boot (Z * Z) :=
  let! boot_img := load_boot_image kernel data data_size in
  if dt_support then
    let! handle := code (tegrabl_dt_get_fdt_handle TEGRABL_DT_KERNEL) in
    let! dtb :=
      match handle with
      | inl fdt => ret fdt
      | inr _ => on_mem (let! (addr, _) := tegrabl_load_binary TEGRABL_BINARY_KERNEL_DTB in ret addr)
      end in
    when secure_boot (on_mem (tegrabl_validate_binary TEGRABL_BINARY_KERNEL_DTB "kernel-dtb" DTB_MAX_SIZE dtb) ;;; ret tt) ;;;
    ret (boot_img, dtb)
  else ret (boot_img, 0).

(** CONFIG_ENABLE_L4T_RECOVERY, CONFIG_ENABLE_EXTLINUX_BOOT and
    CONFIG_ENABLE_A_B_SLOT unset. *)
Definition fixed_boot_load_kernel_and_dtb := tegrabl_load_from_partition.

Definition extract_kernel_dtb (kernel_dtb : Z) : M boot unit :=
  if dt_support then
    on_mem (map_err SET_HIGHEST_MODULE (tegrabl_dt_create_space kernel_dtb FDT_SIZE_BL_DT_NODES DTB_MAX_SIZE)) ;;;
    tegrabl_dt_set_fdt_handle TEGRABL_DT_KERNEL kernel_dtb ;;;
    on_mem (tegrabl_linuxboot_update_dtb kernel_dtb)
  else ret tt.

(** What [goto fail] leaves. *)
Definition load_steps (kernel : kernel_bin) (data data_size : Z) : M boot (Z * Z) :=
  let! (boot_img, dtb) := fixed_boot_load_kernel_and_dtb kernel data data_size in
  match verify_boot with Some f => on_mem (code (f boot_img dtb 0)) ;;; ret tt | None => ret tt end ;;;
  let! entry := extract_kernel boot_img 0 in
  let! has := on_mem (HAS_BOOT_IMG_HDR lit boot_img) in
  when has (extract_ramdisk boot_img) ;;;
  extract_kernel_dtb dtb ;;;
  ret (entry, dtb).

(** Behind the label [fail] the error is that of [tegrabl_auth_complete] when secure
    boot is compiled in.  Gives the entry point and the device tree, as far as they
    were set ([None]: not). *)
Definition tegrabl_load_kernel_and_dtb (kernel : kernel_bin) (data data_size : Z) : M boot (option (Z * Z)) :=
  let! r := code (load_steps kernel data data_size) in
  if secure_boot then
    on_mem tegrabl_auth_complete ;;; ret (match r with inl x => Some x | inr _ => None end)
  else
    match r with inl x => ret (Some x) | inr e => err e end.
End Load.
