(* ===== verification/BootImageSpec.v ===== *)
(** * Boot images: correctness

    Carveouts come out in the order of their addresses; what the checks of a header
    accept; kernel and ramdisk are put where they belong and nowhere else. *)
From Stdlib Require Import Ascii String.
From stdpp Require Import gmap sorting.
From S2P Require Import Prelude Interfaces Errors Utils Clib ClibSpec CString CStringSpec MemSpec Printf Lz4 Lz4Spec Decompress DecompressSpec BootImage.
#[local] Open Scope Z_scope.

(** ** Carveouts *)

Section Carveouts.
Variable p_carveout : list Z.

Definition base_of (i : Z) : Z := default 0 (p_carveout !! Z.to_nat i).
Definition known (i : Z) : Prop := 0 <= i < len p_carveout.
Definition ascending : Z -> Z -> Prop := fun a b => base_of a <= base_of b.

Lemma at_index_run {A} (l : list A) i v : l !! i = Some v -> at_index l (Z.of_nat i) = Ret v.
Proof using. intros E. unfold at_index. destruct (Z.ltb_spec (Z.of_nat i) 0); [lia|]. by rewrite Nat2Z.id, E. Qed.

Lemma base_run i : known i -> at_index p_carveout i = Ret (base_of i).
Proof using.
  intros Hi. unfold base_of. destruct (lookup_lt_is_Some_2 p_carveout (Z.to_nat i)) as [v Hv]; [unfold known in Hi; lia|].
  rewrite Hv. pose proof (at_index_run p_carveout (Z.to_nat i) v Hv) as E. unfold known in Hi. by rewrite Z2Nat.id in E by lia.
Qed.

Lemma bom_compare_run a b : known a -> known b -> exists c, tegrabl_bom_compare p_carveout a b = Ret c /\ (c < 0 <-> base_of a < base_of b).
Proof using.
  intros Ha Hb. unfold tegrabl_bom_compare. rewrite (base_run a Ha). cbn [obind]. rewrite (base_run b Hb). cbn [obind].
  eexists. split; [done|]. destruct (Z.ltb_spec (base_of a) (base_of b)); [lia|]. destruct (Z.ltb_spec (base_of b) (base_of a)); lia.
Qed.

(** The place of [val] in the sorted part [l], which ends where [gap] stands. *)
Lemma shift_up_run val : known val -> forall l gap rest, Forall known l ->
  exists l1 l2 array, l = l1 ++ l2 /\ shift_up p_carveout val (length l) (l ++ gap :: rest) = Ret (length l1, array) /\
    (length l1 < length array)%nat /\ <[length l1 := val]> array = l1 ++ val :: l2 ++ rest /\
    Forall (fun x => base_of val < base_of x) l2 /\ (forall x, last l1 = Some x -> base_of x <= base_of val).
Proof using.
  intros Hval l. induction l as [|x l IH] using rev_ind; intros gap rest Hl.
  - exists [], [], (gap :: rest). split; [done|]. split; [done|]. split; [cbn; lia|]. split; [done|]. split; [done|]. intros y Hy. done.
  - apply Forall_app in Hl as [Hl [Hx _]%Forall_cons]. rewrite length_app. cbn [length]. rewrite Nat.add_comm. cbn [Nat.add shift_up].
    rewrite <- !app_assoc. cbn [app].
    assert (Ex : at_index (l ++ x :: gap :: rest) (Z.of_nat (length l)) = Ret x) by (apply at_index_run; by rewrite list_lookup_middle).
    rewrite Ex. cbn [obind]. destruct (bom_compare_run val x Hval Hx) as (c & -> & Hc). cbn [obind].
    destruct (Z.ltb_spec c 0).
    + destruct (decide _) as [_|Hn]; [|rewrite length_app in Hn; cbn in Hn; lia].
      replace (<[S (length l) := x]> (l ++ x :: gap :: rest)) with (l ++ x :: x :: rest)
        by (rewrite insert_app_r_alt by lia; by replace (S (length l) - length l)%nat with 1%nat by lia).
      destruct (IH x (x :: rest) Hl) as (l1 & l2 & array & -> & E & Hlen & Hins & H2 & H1).
      exists l1, (l2 ++ [x]), array. split; [by rewrite app_assoc|]. split; [exact E|]. split; [done|]. split; [rewrite Hins; by rewrite <- !app_assoc|].
      split; [apply Forall_app; split; [done|constructor; [by apply Hc|done]]|done].
    + exists (l ++ [x]), [], (l ++ x :: gap :: rest). split; [by rewrite app_nil_r|]. split; [by rewrite length_app, Nat.add_comm|].
      rewrite !length_app. cbn [length]. split; [lia|]. split; [|split; [done|]].
      * rewrite insert_app_r_alt by lia. replace (length l + 1 - length l)%nat with 1%nat by lia. cbn. by rewrite <- app_assoc.
      * intros y. rewrite last_snoc. intros [= <-]. destruct (decide (base_of val < base_of x)) as [Hlt|]; [apply Hc in Hlt|]; lia.
Qed.

Lemma insert_sorted l1 l2 val : StronglySorted ascending (l1 ++ l2) -> Forall (fun x => base_of val < base_of x) l2 ->
  (forall x, last l1 = Some x -> base_of x <= base_of val) -> StronglySorted ascending (l1 ++ val :: l2).
Proof using.
  intros Hs H2 H1. apply StronglySorted_app in Hs as (H12 & Hs1 & Hs2). apply StronglySorted_app. split; [|split; [done|]].
  - intros a b Ha [->|Hb]%elem_of_cons; [|by apply H12].
    induction l1 as [|y l1 _] using rev_ind; [by apply not_elem_of_nil in Ha|]. specialize (H1 y ltac:(by rewrite last_snoc)).
    apply elem_of_app in Ha as [Ha|Ha]; [|apply list_elem_of_singleton in Ha as ->; exact H1].
    unfold ascending. pose proof (StronglySorted_app_1_elem_of _ _ _ a y Hs1 Ha ltac:(by apply list_elem_of_singleton)) as Hay. unfold ascending in Hay. lia.
  - apply StronglySorted_cons. split; [|done]. eapply Forall_impl; [exact H2|]. intros x Hx. unfold ascending. cbn in Hx. lia.
Qed.

Lemma sort_from_run rest : forall l, Forall known (l ++ rest) -> StronglySorted ascending l -> forall tail,
  exists l', sort_from p_carveout (length rest) (length l) (l ++ rest ++ tail) = Ret (l' ++ tail) /\ l' ≡ₚ l ++ rest /\ StronglySorted ascending l'.
Proof using.
  induction rest as [|val rest IH]; intros l Hk Hs tail.
  - exists l. split; [done|]. split; [by rewrite app_nil_r|done].
  - cbn [length sort_from app]. rewrite (at_index_run _ _ val) by (by rewrite list_lookup_middle). cbn [obind].
    apply Forall_app in Hk as [Hl Hk]. apply Forall_cons in Hk as [Hval Hrest].
    destruct (shift_up_run val Hval l val (rest ++ tail) Hl) as (l1 & l2 & array & -> & E & Hlen & Hins & H2 & H1).
    rewrite E. cbn [obind]. destruct (decide _); [|done]. rewrite Hins.
    destruct (IH (l1 ++ val :: l2)) with (tail := tail) as (l' & E' & Hp & Hs').
    + apply Forall_app in Hl as [Hl1 Hl2]. rewrite <- app_assoc. apply Forall_app. split; [done|]. cbn. constructor; [done|]. by apply Forall_app.
    + by apply insert_sorted.
    + exists l'. split; [|split; [|done]].
      * rewrite <- E'. f_equal; [rewrite !length_app; cbn; lia|]. by rewrite <- !app_assoc.
      * rewrite Hp. rewrite <- !app_assoc. cbn. f_equiv. by rewrite Permutation_middle.
Qed.
End Carveouts.

(** C3.  The first [count] indices are put in the order of the bases they stand for,
    whatever their order was; the rest of the array stays, and no entry outside of
    the two arrays is touched. *)
Theorem carveouts_sorted p_carveout front rest count :
  Forall (known p_carveout) front -> count = len front ->
  exists sorted, tegrabl_sort p_carveout (front ++ rest) count = Ret (sorted ++ rest) /\ sorted ≡ₚ front /\
    StronglySorted (ascending p_carveout) sorted.
Proof.
  intros Hk ->. unfold tegrabl_sort. destruct (Z.ltb_spec (len front) 2) as [H|H].
  - exists front. split; [done|]. split; [done|]. destruct front as [|x [|y front]]; cbn in H; [constructor|repeat constructor|lia].
  - destruct front as [|x front]; [cbn in H; lia|]. cbn [length].
    destruct (sort_from_run p_carveout front [x] Hk) with (tail := rest) as (l' & E & Hp & Hs); [repeat constructor|].
    exists l'. split; [|done]. replace (Z.to_nat (Z.of_nat (S (length front)) - 1)) with (length front) by lia. exact E.
Qed.

Lemma carveouts_sorted_witness : exists sorted, tegrabl_sort [30; 10; 20; 10] ([0; 1; 2; 3] ++ [7]) 4 = Ret (sorted ++ [7]) /\
  sorted ≡ₚ [0; 1; 2; 3] /\ StronglySorted (ascending [30; 10; 20; 10]) sorted.
Proof. apply carveouts_sorted; [repeat constructor; unfold known; cbn; lia|reflexivity]. Defined.

(** ** The crc of a buffer that holds a crc *)

Lemma crc32_bit_range c : in_word 32 c -> in_word 32 (crc32_bit c).
Proof.
  intros Hc. unfold crc32_bit. apply in_word_lxor; [lia|by apply in_word_shiftr|].
  destruct (Z.testbit c 0); unfold in_word, CRC32_POLY; lia.
Qed.
Lemma iter_bit_range n c : in_word 32 c -> in_word 32 (Nat.iter n crc32_bit c).
Proof. intros Hc. induction n; [done|]. cbn [Nat.iter nat_rect]. by apply crc32_bit_range. Qed.

(** One step loses nothing: the polynomial has the highest bit. *)
Lemma crc32_bit_zero c : in_word 32 c -> crc32_bit c = 0 -> c = 0.
Proof.
  unfold in_word, crc32_bit. intros Hc E. rewrite Z.shiftr_div_pow2 in E by lia. change (2 ^ 1) with 2 in E. rewrite Z.bit0_odd in E.
  pose proof (Zmod_odd c) as Ho. destruct (Z.odd c).
  - apply Z.lxor_eq in E. unfold CRC32_POLY in E. Z.div_mod_to_equations. lia.
  - rewrite Z.lxor_0_r in E. Z.div_mod_to_equations. lia.
Qed.
Lemma iter_bit_zero n c : in_word 32 c -> Nat.iter n crc32_bit c = 0 -> c = 0.
Proof.
  induction n as [|n IH]; intros Hc E; [done|]. cbn [Nat.iter nat_rect] in E.
  apply IH; [done|]. apply crc32_bit_zero in E; [done|by apply iter_bit_range].
Qed.

Lemma crc32_byte_range c b : in_word 32 c -> is_byte b -> in_word 32 (crc32_byte c b).
Proof. intros Hc Hb. apply iter_bit_range, in_word_lxor; [lia|done|]. unfold in_word, is_byte in *. lia. Qed.

(** The bytes of a word are shifted through as the word would be. *)
Lemma crc32_word n : forall w s, 0 <= w < 256 ^ Z.of_nat n -> fold_left crc32_byte (le n w) s = Nat.iter (8 * n) crc32_bit (Z.lxor s w).
Proof.
  induction n as [|n IH]; intros w s Hw.
  - change (256 ^ Z.of_nat 0) with 1 in Hw. replace w with 0 by lia. by rewrite Z.lxor_0_r.
  - cbn [le]. rewrite fold_left_cons, IH.
    2: { rewrite Nat2Z.inj_succ, Z.pow_succ_r in Hw by lia. Z.div_mod_to_equations; lia. }
    replace (8 * S n)%nat with (8 * n + 8)%nat by lia.
    assert (Hadd : forall i j c, Nat.iter (i + j) crc32_bit c = Nat.iter i crc32_bit (Nat.iter j crc32_bit c)) by (intros i j c; induction i as [|i IHi]; [done|]; cbn; by f_equal).
    rewrite Hadd. f_equal. unfold crc32_byte.
    rewrite <- (iter_bit_shift 8 (w / 256)) at 1. rewrite <- iter_bit_lxor. f_equal. rewrite Z.lxor_assoc. f_equal.
    rewrite (low_high w) at 3. by rewrite land_255, (Z.shiftr_div_pow2 w) by lia.
Qed.

Definition crc_state (b : list Z) : Z := fold_left crc32_byte b UINT_MAX.

Lemma crc_state_range b : bytes b -> in_word 32 (crc_state b).
Proof.
  unfold crc_state. assert (H : in_word 32 UINT_MAX) by (unfold in_word, UINT_MAX; lia). revert H. generalize UINT_MAX.
  induction b as [|x b IH]; intros c Hc Hb; [done|]. apply Forall_cons in Hb as [Hx Hb]. rewrite fold_left_cons. apply IH; [by apply crc32_byte_range|done].
Qed.

Lemma crc32_of_state b : bytes b -> tegrabl_utils_crc32 0 b = Z.lxor (crc_state b) UINT_MAX.
Proof. intros Hb. unfold tegrabl_utils_crc32. rewrite crc32_fold; [done|by compute|done]. Qed.

Lemma crc32_append b w : bytes b -> in_word 32 w ->
  tegrabl_utils_crc32 0 (b ++ le 4 w) = Z.lxor (Nat.iter 32 crc32_bit (Z.lxor (crc_state b) w)) UINT_MAX.
Proof.
  intros Hb Hw. rewrite crc32_of_state by (apply Forall_app; split; [done|apply bytes_le]). f_equal.
  unfold crc_state at 1. rewrite fold_left_app. change (fold_left crc32_byte b UINT_MAX) with (crc_state b). by rewrite (crc32_word 4).
Qed.

Definition RESIDUE : Z := 0x2144DF1C.

(** Behind its own crc every buffer has the same crc. *)
Lemma crc32_sealed b : bytes b -> tegrabl_utils_crc32 0 (b ++ le 4 (tegrabl_utils_crc32 0 b)) = RESIDUE.
Proof.
  intros Hb. pose proof (crc32_range b Hb) as Hr. rewrite crc32_append by done. rewrite crc32_of_state by done.
  rewrite <- Z.lxor_assoc, Z.lxor_nilpotent, Z.lxor_0_l. vm_compute. reflexivity.
Qed.

(** Over the crc of itself with the field zero, a buffer has another crc. *)
Lemma crc32_zeroed b : bytes b -> let w := tegrabl_utils_crc32 0 (b ++ le 4 0) in
  tegrabl_utils_crc32 0 (b ++ le 4 w) = w -> w = 0.
Proof.
  intros Hb w E. assert (Hw : in_word 32 w) by (apply crc32_range, Forall_app; split; [done|apply bytes_le]).
  rewrite crc32_append in E by done. unfold w in E at 2. rewrite crc32_append in E by (done || by unfold in_word).
  rewrite Z.lxor_0_r, iter_bit_lxor in E. apply (iter_bit_zero 32); [done|].
  assert (H : Z.lxor (Z.lxor (Z.lxor (Nat.iter 32 crc32_bit (crc_state b)) (Nat.iter 32 crc32_bit w)) UINT_MAX) UINT_MAX =
    Z.lxor (Z.lxor (Nat.iter 32 crc32_bit (crc_state b)) UINT_MAX) UINT_MAX) by congruence.
  rewrite !lxor_cancel in H. rewrite <- (lxor_cancel (Nat.iter 32 crc32_bit w) (Nat.iter 32 crc32_bit (crc_state b))).
  rewrite (Z.lxor_comm (Nat.iter 32 crc32_bit w)), H. apply Z.lxor_nilpotent.
Qed.

(** ** The header *)

Definition magic_text : list Z := chars ANDROID_MAGIC.

(** The magic number in the text [h] of an image. *)
Definition has_magic (h : list Z) : bool := bool_decide (take 8 h = magic_text).

Lemma magic_run m lit a h : holds m (lit ANDROID_MAGIC) magic_text -> holds m a h -> (8 <= length h)%nat ->
  exists d, memcmp a (lit ANDROID_MAGIC) ANDROID_MAGIC_SIZE m = (Ret d, m) /\ truthy d = negb (has_magic h).
Proof.
  intros Hl Hh H8. destruct (memcmp_run (take 8 h) magic_text m a (lit ANDROID_MAGIC)) as (d & E & Hd).
  - rewrite length_take. change (length magic_text) with 8%nat. lia.
  - rewrite <- (Z.add_0_r a). exact (holds_slice m a h 0 8 Hh).
  - done.
  - exists d. rewrite length_take, Nat.min_l in E by lia. split; [exact E|]. unfold truthy, has_magic. f_equal.
    apply eq_bool_prop_intro. rewrite Is_true_true, Z.eqb_eq, bool_decide_spec. exact Hd.
Qed.

(** What the header says, and what the check makes of it. *)
Definition h_kernel (h : list Z) : Z := ld32 h 8.
Definition h_ramdisk (h : list Z) : Z := ld32 h 16.
Definition h_second (h : list Z) : Z := ld32 h 24.
Definition h_page (h : list Z) : Z := ld32 h 36.
Definition h_crc (h : list Z) : Z := ld32 h 2044.

Definition verdict (h : list Z) (img_size : Z) : outcome unit :=
  if negb (has_magic h) then Err (TEGRABL_ERROR TEGRABL_ERR_VERIFY_FAILED 0)
  else if h_page h <? 2048 then Err (TEGRABL_ERROR TEGRABL_ERR_INVALID 0)
  else if img_size <? u32 (h_page h + h_kernel h + h_ramdisk h + h_second h) then Err (TEGRABL_ERROR TEGRABL_ERR_INVALID 1)
  else if negb (h_crc h =? 0) && negb (tegrabl_utils_crc32 0 (take 2048 h) =? h_crc h) then Err (TEGRABL_ERROR TEGRABL_ERR_VERIFY_FAILED 1)
  else Ret tt.

Lemma u32_add a b : u32 (u32 a + b) = u32 (a + b).
Proof. apply Zplus_mod_idemp_l. Qed.
Lemma u32_sum a b c d : u32 (u32 (u32 (a + b) + c) + d) = u32 (a + b + c + d).
Proof. by rewrite (u32_add (a + b) c), (u32_add (a + b + c) d). Qed.

Lemma verify_run m lit hdr h img_size : holds m (lit ANDROID_MAGIC) magic_text -> holds m hdr h -> (2048 <= length h)%nat ->
  tegrabl_verify_boot_img_hdr lit hdr img_size m = (verdict h img_size, m).
Proof.
  intros Hl Hh Hlen. unfold tegrabl_verify_boot_img_hdr, verdict.
  destruct (magic_run m lit hdr h Hl Hh ltac:(lia)) as (d & Ed & Hd). rewrite (bind_run _ _ _ _ _ Ed), Hd.
  destruct (has_magic h); cbn [negb fail_if]; [|done]. rewrite bind_ret_l.
  rewrite (bind_run _ _ _ _ _ (load_field m hdr h 36 4 Hh ltac:(lia))). change (ldn 4 h 36) with (h_page h).
  change ANDROID_HEADER_SIZE with 2048. unfold fail_if at 1. destruct (h_page h <? 2048); [done|]. rewrite bind_ret_l.
  rewrite (bind_run _ _ _ _ _ (load_field m hdr h 8 4 Hh ltac:(lia))). rewrite (bind_run _ _ _ _ _ (load_field m hdr h 16 4 Hh ltac:(lia))).
  rewrite (bind_run _ _ _ _ _ (load_field m hdr h 24 4 Hh ltac:(lia))).
  change (ldn 4 h 8) with (h_kernel h). change (ldn 4 h 16) with (h_ramdisk h). change (ldn 4 h 24) with (h_second h). rewrite u32_sum.
  unfold fail_if at 1. destruct (img_size <? _); [done|]. rewrite bind_ret_l.
  rewrite (bind_run _ _ _ _ _ (load_field m hdr h 2044 4 Hh ltac:(lia))). change (ldn 4 h 2044) with (h_crc h).
  unfold truthy, when. destruct (h_crc h =? 0); cbn [negb andb]; [done|].
  rewrite <- (Z.add_0_r hdr) at 1. rewrite (bind_run _ _ _ _ _ (load_slice m hdr h 0 2048 Hh ltac:(lia))).
  change (slice h 0 2048) with (take 2048 h). by destruct (_ =? _).
Qed.

(** C0.  The crc of a header is computed over the whole header, its own field
    included.  So a header is refused that carries the crc of the bytes in front of
    the field, unless that is zero or the residue of the polynomial; and so is one
    whose crc was computed with the field zero.  Only headers without a crc pass. *)
Theorem header_crc_refused m lit hdr b w img_size :
  holds m (lit ANDROID_MAGIC) magic_text -> bytes b -> length b = 2044%nat ->
  w = tegrabl_utils_crc32 0 b /\ w <> RESIDUE \/ w = tegrabl_utils_crc32 0 (b ++ le 4 0) -> w <> 0 ->
  holds m hdr (b ++ le 4 w) ->
  exists e, tegrabl_verify_boot_img_hdr lit hdr img_size m = (Err e, m) /\ e <> 0.
Proof.
  intros Hl Hb Hlen Hw Hw0 Hh. rewrite (verify_run _ _ _ _ _ Hl Hh) by (rewrite length_app, length_le; lia).
  assert (Hr : in_word 32 w) by (destruct Hw as [[-> _]| ->]; apply crc32_range; [done|apply Forall_app; split; [done|apply bytes_le]]).
  assert (Hcrc : h_crc (b ++ le 4 w) = w).
  { unfold h_crc. rewrite <- Hlen. rewrite <- (app_nil_r (le 4 w)), ldn_field. apply Z.mod_small. exact Hr. }
  assert (Hne : tegrabl_utils_crc32 0 (b ++ le 4 w) <> w).
  { destruct Hw as [[-> Hres]| ->]; intros E; [rewrite crc32_sealed in E by done; congruence|]. by apply Hw0, (crc32_zeroed b Hb). }
  unfold verdict. rewrite Hcrc. rewrite take_ge by (rewrite length_app, length_le; lia).
  apply Z.eqb_neq in Hw0, Hne. rewrite Hw0, Hne. cbn [negb andb].
  repeat (case_if; [eexists; split; [done|discriminate]|]). eexists. split; [done|discriminate].
Qed.

(** The header of an image without kernel and ramdisk, up to its crc. *)
Definition sample_header : list Z := magic_text ++ repeat 0 28 ++ le 4 2048 ++ repeat 0 2004.
Definition sealed_header : list Z := sample_header ++ le 4 (tegrabl_utils_crc32 0 sample_header).
Definition header_memory : mem := ranges_memory [(16, magic_text); (4096, sealed_header)].

Lemma header_crc_refused_witness :
  exists e, tegrabl_verify_boot_img_hdr (fun _ => 16) 4096 0x4000000 header_memory = (Err e, header_memory) /\ e <> 0.
Proof.
  apply (header_crc_refused header_memory (fun _ => 16) 4096 sample_header (tegrabl_utils_crc32 0 sample_header)).
  - apply ranges_hold; [vm_compute; reflexivity|in_ranges].
  - apply bytes_dec. vm_compute. reflexivity.
  - reflexivity.
  - left. split; [reflexivity|]. vm_compute. discriminate.
  - vm_compute. discriminate.
  - apply ranges_hold; [vm_compute; reflexivity|in_ranges].
Defined.

(** The sum of the sizes wraps around: a kernel of almost four gigabytes passes. *)
Example sizes_wrap : verdict (magic_text ++ le 4 (2 ^ 32 - 2048) ++ repeat 0 24 ++ le 4 2048 ++ repeat 0 2008) 0 = Ret tt.
Proof. vm_compute. reflexivity. Qed.

(** ** What the extraction writes *)

Section Extraction.
Context {inflate_state : Type}.
Abbreviation boot := (@boot inflate_state).
Abbreviation z_stream := (@z_stream inflate_state).
(** [D]: what is mapped.  [P]: where may be written. *)
Variables (D P : Z -> Prop).
Hypothesis Hnull : ~ D 0.

Definition memory (s : boot) : mem := d_mem (ctx s).

Abbreviation confines := (MemSpec.confines memory (fun _ => True) D P False).

Lemma confines_field {B} f (R : B -> Prop) k : (forall s, memory (f s) = memory s) -> confines R (k tt) -> confines R (bind (modify f) k).
Proof using. intros Hf Hk. apply (confines_bind (fun _ => True)); [|by intros []]. apply confines_modify. intros s. by rewrite Hf. Qed.
Lemma confines_mem {A} lo hi (Q : A -> Prop) x : contained D True True lo hi Q x -> (forall y, lo <= y < hi -> P y) -> confines Q (on_mem x).
Proof using.
  intros Hx HP s G. destruct (Hx (memory s) G) as (G1 & O1 & H1). unfold on_mem, on_ctx, Decompress.on_mem, memory in *. destruct (x (d_mem (ctx s))) as [o m1]. cbn in *.
  split; [done|]. split; [intros y Hy; apply O1; by intros ?%HP|]. split; [done|by destruct o].
Qed.
Lemma confines_ctx {A} lo hi (Q : A -> Prop) x : (forall c, tame D lo hi c (fun a _ => Q a) x) -> (forall y, lo <= y < hi -> P y) -> confines Q (on_ctx x).
Proof using.
  intros Hx HP s G. destruct (Hx _ (ctx s) G eq_refl) as (G1 & O1 & H1). unfold on_ctx, memory in *. destruct (x (ctx s)) as [o c1]. cbn in *.
  split; [done|]. split; [intros y Hy; apply O1; by intros ?%HP|]. split; [done|by destruct o].
Qed.

(** Reading. *)
Lemma reads_load_le n a : contained D True True 0 0 (fun v => 0 <= v < 256 ^ Z.of_nat n) (load_le n a).
Proof using. eapply contained_bind; [apply contained_load_bytes, any_reads|]. intros b [_ Hb]. apply contained_ret. by apply ldn_range. Qed.
Lemma reads_memcmp n : forall p q, contained D True True 0 0 (fun _ => True) (memcmp_loop n p q).
Proof using.
  induction n as [|n IH]; intros p q; cbn [memcmp_loop]; [by apply contained_ret|].
  eapply contained_bind; [apply contained_load, any_reads|]. intros v _. eapply contained_bind; [apply contained_load, any_reads|]. intros w _. cbn zeta.
  destruct (negb _); [by apply contained_ret|apply IH].
Qed.
Lemma reads_magic lit a : contained D True True 0 0 (fun _ => True) (HAS_BOOT_IMG_HDR lit a).
Proof using. eapply contained_bind; [apply reads_memcmp|]. intros d _. by apply contained_ret. Qed.
Lemma reads_method (methods : list (@decompressor inflate_state)) a :
  contained D True True 0 0 (fun o => forall d, o = Some d -> d ∈ methods) (find_method methods a).
Proof using.
  induction methods as [|d l IH]; cbn [find_method]; [by apply contained_ret|].
  assert (H : contained D True True 0 0 (fun o => forall d0, o = Some d0 -> d0 ∈ d :: l) (find_method l a)) by (eapply contained_weaken; [exact IH|]; intros o Ho d0 E; right; by apply Ho).
  eapply contained_bind; [apply contained_load, any_reads|]. intros v _. destruct (_ =? _); [|done].
  eapply contained_bind; [apply contained_load, any_reads|]. intros w _. destruct (_ =? _); [|done]. apply contained_ret. intros d0 [= ->]. left.
Qed.
Lemma confines_read {A} (Q : A -> Prop) x : contained D True True 0 0 Q x -> confines Q (on_mem x).
Proof using. intros Hx. apply (confines_mem 0 0); [done|lia]. Qed.

Variables (dma : tegrabl_clib_dma) (lit : string -> Z).
Hypothesis Law : forall f, memcpy_callback dma = Some f -> engine_contained f.
Variable inflate : z_stream -> Z -> M mem (Z * z_stream).
Hypothesis Inflate : forall z flush, 0 <= avail_out z ->
  contained D True True (next_out z) (next_out z + avail_out z) (fun r => 0 <= avail_out (snd r) <= avail_out z) (inflate z flush).
Variable lzf_decompress : Z -> Z -> Z -> Z -> M mem Z.
Hypothesis Lzf : forall i n o k, 0 <= k -> contained D True True o (o + k) (fun _ => True) (lzf_decompress i n o k).
Variables (inflateInit2 : z_stream -> Z -> Z * z_stream) (inflateEnd : z_stream -> z_stream) (zlib lzf_on lz4 : bool).
Abbreviation methods := (decompressor_list dma lzf_decompress inflateInit2 inflate inflateEnd zlib lzf_on lz4).

Lemma confines_memmove d a n k : 0 <= n <= k -> k < 2 ^ 32 -> (forall y, d <= y < d + k -> P y) -> confines (fun _ => True) (on_mem (memmove dma d a n)).
Proof using Law.
  intros Hn Hk HP. apply (confines_mem d (d + k)); [|done]. apply contained_memmove; [done|lia| |apply any_reads].
  destruct (decide (n = 0)); [left; lia|]. right. split; [lia|]. split; [lia|apply any_reads].
Qed.

(** The kernel goes into the room for it. *)
Lemma install_confines K MAX payload size : 4 <= K -> 0 <= MAX < 2 ^ 31 -> (forall y, K <= y < K + MAX -> P y) -> 0 <= size ->
  confines (fun e => e = K)
    (fail_if (MAX <? size) (TEGRABL_ERROR TEGRABL_ERR_TOO_LARGE 0) ;;;
     let! decomp := on_mem (find_method methods payload) in
     match decomp with
     | None => on_mem (memmove dma K payload size) ;;; ret K
     | Some decomp => on_ctx (do_decompress decomp payload size K MAX) ;;; ret K
     end).
Proof using Hnull Law Inflate Lzf.
  intros HK HM HP Hs. apply confines_fail_if. intros Hle. zbool.
  eapply confines_bind; [apply confines_read, reads_method|]. intros [d|] Hd; cbn beta in Hd; (apply (confines_bind (fun _ => True)); [|intros; by apply confines_ret]).
  - apply (confines_ctx K (K + MAX)); [|done]. intros c. eapply tame_weaken; [|by intros].
    pose proof (method_tame D dma K (K + MAX) Law HK ltac:(lia) Hnull inflate Inflate lzf_decompress Lzf inflateInit2 inflateEnd zlib lzf_on lz4 d c payload size (Hd d eq_refl) ltac:(lia)) as H.
    replace (K + MAX - K) with MAX in H by lia. exact H.
  - apply (confines_memmove _ _ _ MAX); [lia|lia|done].
Qed.

Lemma extract_ramdisk_confines R RMAX a : 0 <= RMAX < 2 ^ 32 -> (forall y, R <= y < R + RMAX -> P y) ->
  confines (fun _ => True) (extract_ramdisk dma RMAX R a).
Proof using Law.
  intros HR HP. apply confines_field; [done|]. eapply confines_bind; [apply confines_read, (reads_load_le 4)|]. intros size Hs. cbn beta in Hs.
  apply confines_fail_if. intros Hle. zbool.
  eapply confines_bind; [apply confines_read, (reads_load_le 4)|]. intros page _. eapply confines_bind; [apply confines_read, (reads_load_le 4)|]. intros kernel _. cbn zeta.
  apply confines_field; [done|]. apply (confines_bind (fun _ => True)).
  { unfold when. destruct (negb _); [|by apply confines_ret]. eapply confines_bind; [apply (confines_memmove _ _ _ RMAX); [lia|lia|done]|]. intros _ _. by apply confines_ret. }
  intros _ _. intros s G. done.
Qed.
End Extraction.

Definition with_memory {I} (m : mem) (s : @boot I) : boot :=
  mk_boot (mk_contexts m (lzf (ctx s)) (strm (ctx s)) (done (ctx s))) (ramdisk_load s) (ramdisk_size s) (bootimg_cmdline s) (fdt_handle_table s).
Lemma with_memory_same {I} (s : @boot I) : with_memory (memory s) s = s.
Proof. by destruct s as [[]]. Qed.
Lemma on_boot_mem_run {I A} (x : M mem A) o m (s : @boot I) : x (memory s) = (o, m) -> on_mem x s = (o, with_memory m s).
Proof. intros E. unfold on_mem, on_ctx, Decompress.on_mem. change (d_mem (ctx s)) with (memory s). by rewrite E. Qed.
Lemma on_boot_mem_read {I A} (x : M mem A) o (s : @boot I) : x (memory s) = (o, memory s) -> on_mem x s = (o, s).
Proof. intros E. rewrite (on_boot_mem_run _ _ _ _ E). by rewrite with_memory_same. Qed.

Lemma has_run m lit a img : holds m (lit ANDROID_MAGIC) magic_text -> holds m a img -> (8 <= length img)%nat ->
  HAS_BOOT_IMG_HDR lit a m = (Ret (has_magic img), m).
Proof.
  intros Hl Ha Hn. unfold HAS_BOOT_IMG_HDR. destruct (magic_run m lit a img Hl Ha Hn) as (d & Ed & Hd). rewrite (bind_run _ _ _ _ _ Ed).
  unfold truthy in Hd. apply (f_equal negb) in Hd. rewrite !negb_involutive in Hd. by rewrite Hd.
Qed.

Lemma bind_first {S A B C} (c : M S A) (k : A -> M S B) (K : B -> M S C) s b s' :
  c s = (Ret b, s') -> bind (bind c k) K s = bind (k b) K s'.
Proof. unfold bind. by intros ->. Qed.

(** What is done with the boot image once it is in memory. *)
Abbreviation extract dma lit methods MAX RMAX text_offset K R a n :=
  (let! entry := extract_kernel dma lit methods MAX text_offset K a n in
   let! has := on_mem (HAS_BOOT_IMG_HDR lit a) in
   when has (extract_ramdisk dma RMAX R a) ;;;
   ret entry).

(** C1.  Whatever a boot image says, its extraction ends, and writes memory only in
    the room for the kernel and in the room for the ramdisk. *)
Theorem boot_image_contained {inflate_state} dma lit lzf_decompress inflateInit2 (inflate : @z_stream inflate_state -> Z -> M mem (Z * z_stream)) inflateEnd
    zlib lzf_on lz4 MAX RMAX text_offset load_addr R K (s : boot) a n :
  (forall f, memcpy_callback dma = Some f -> engine_contained f) ->
  (forall D z flush, 0 <= avail_out z -> contained D True True (next_out z) (next_out z + avail_out z) (fun r => 0 <= avail_out (snd r) <= avail_out z) (inflate z flush)) ->
  (forall D i n o k, 0 <= k -> contained D True True o (o + k) (fun _ => True) (lzf_decompress i n o k)) ->
  byte_memory (memory s) -> memory s !! 0 = None ->
  holds (memory s) (lit ANDROID_MAGIC) magic_text -> holds (memory s) a magic_text ->
  K = u64 (load_addr + text_offset) -> 4 <= K -> 0 <= MAX < 2 ^ 31 -> 0 <= RMAX < 2 ^ 32 ->
  let methods := decompressor_list dma lzf_decompress inflateInit2 inflate inflateEnd zlib lzf_on lz4 in
  let '(o, s') := extract dma lit methods MAX RMAX text_offset load_addr R a n s in
  (forall x, is_Some (memory s' !! x) <-> is_Some (memory s !! x)) /\
  (forall x, ~ K <= x < K + MAX -> ~ R <= x < R + RMAX -> memory s' !! x = memory s !! x) /\
  match o with Ret entry => entry = K | Err _ | Undef => True | _ => False end.
Proof.
  intros Law Linf Llzf Hb H0 Hl Ha HK HK4 HM HR methods.
  set (D := fun x => is_Some (memory s !! x)). set (P := fun x => K <= x < K + MAX \/ R <= x < R + RMAX).
  assert (Hn : ~ D 0) by (unfold D; rewrite H0; by intros [? ?]).
  enough (H : forall x, x = extract dma lit methods MAX RMAX text_offset load_addr R a n s ->
    good D (memory (snd x)) /\ (forall y, ~ P y -> memory (snd x) !! y = memory s !! y) /\
    match fst x with Ret e => e = K | Undef | Err _ => True | _ => False end).
  { destruct (H _ eq_refl) as ([HD _] & Ho & Hr). destruct (extract _ _ _ _ _ _ _ _ _ _ s) as [o s']. cbn in *. split; [done|]. split; [|done].
    intros x Hx1 Hx2. apply Ho. by intros [?|?]. }
  intros x ->. unfold extract_kernel.
  pose proof (on_boot_mem_read _ _ s (has_run (memory s) lit a magic_text Hl Ha ltac:(cbn; lia))) as Eh. change (has_magic magic_text) with true in Eh.
  rewrite (bind_first _ _ _ _ _ _ Eh).
  match goal with |- context [bind ?x ?k s] => assert (HK' : MemSpec.confines memory (fun _ => True) D P False (fun e => e = K) (bind x k)) end; [|by destruct (HK' s ltac:(by split) Logic.I) as (G1 & O1 & _ & R1)].
  apply (confines_bind (fun e => e = K)).
  - apply (confines_bind (fun p => 0 <= snd (fst p) /\ snd p = text_offset)).
    { apply confines_read. eapply contained_bind; [apply (reads_load_le _ 4)|]. intros page _. eapply contained_bind; [apply (reads_load_le _ 4)|].
      intros size Hsize. cbn beta in Hsize. apply contained_ret. cbn. lia. }
    intros [[payload size] off] [Hsize Hoff]. cbn in Hsize, Hoff. subst off. rewrite <- HK. apply install_confines; try done; [apply Linf|apply Llzf|]. intros y ?. by left.
  - intros e ->. eapply confines_bind; [apply confines_read, reads_magic|]. intros has _. apply (confines_bind (fun _ => True)); [|intros _ _; by apply confines_ret].
    unfold when. destruct has; [|by apply confines_ret]. apply extract_ramdisk_confines; [done|done|]. intros y ?. by right.
Qed.

(** ** An image that is not compressed *)

(** The multiple of [page] at or above [n]. *)
Definition page_up (page n : Z) : Z := page * ((n + page - 1) / page).

Lemma land_u32 x y : in_word 32 x -> Z.land x (u32 y) = Z.land x y.
Proof.
  intros Hx. unfold u32, wrapw. rewrite <- Z.land_ones by lia. rewrite (Z.land_comm y), Z.land_assoc. f_equal.
  rewrite Z.land_ones by lia. by apply Z.mod_small.
Qed.

Lemma round_up_run k n : 0 <= k < 32 -> 1 <= n -> n + 2 ^ k <= 2 ^ 32 -> ROUND_UP_POW2 n (2 ^ k) = u32 (page_up (2 ^ k) n).
Proof.
  intros Hk Hn Hs. assert (0 < 2 ^ k) by (apply Z.pow_pos_nonneg; lia). assert (2 ^ k < 2 ^ 32) by (apply Z.pow_lt_mono_r; lia).
  unfold ROUND_UP_POW2. rewrite (wrapw_small 32 (n - 1)) by (unfold in_word; lia). rewrite (wrapw_small 32 (2 ^ k - 1)) by (unfold in_word; lia).
  rewrite land_u32 by (unfold in_word; lia). replace (2 ^ k - 1) with (Z.ones k) by (rewrite Z.ones_equiv; lia).
  rewrite <- Z.ldiff_land, Z.ldiff_ones_r, Z.shiftl_mul_pow2, Z.shiftr_div_pow2 by lia. f_equal. unfold page_up.
  replace (n + 2 ^ k - 1) with (n - 1 + 1 * 2 ^ k) by lia. rewrite Z.div_add by lia. lia.
Qed.

Lemma page_up_bounds page n : 0 < page -> n <= page_up page n < n + page.
Proof. intros Hp. unfold page_up. pose proof (Z.div_mod (n + page - 1) page ltac:(lia)). pose proof (Z.mod_pos_bound (n + page - 1) page ltac:(lia)). lia. Qed.

Lemma moved_holds m m' d s n l : moved m m' d s n -> len l = n -> holds m s l -> holds m' d l.
Proof.
  intros Hm Hl Hs i c E. rewrite Hm. pose proof (lookup_lt_Some _ _ _ E). destruct (decide _); [|lia]. apply Hs in E. rewrite <- E. f_equal. lia.
Qed.

(** No method is for contents that begin with [b0] and [b1]. *)
Definition not_compressed {I} (methods : list (@decompressor I)) (b0 b1 : Z) : Prop := Forall (fun d => magic d <> (b0, b1)) methods.

Lemma not_compressed_check {I} (methods : list (@decompressor I)) b0 b1 :
  forallb (fun d => negb ((fst (magic d) =? b0) && (snd (magic d) =? b1))) methods = true -> not_compressed methods b0 b1.
Proof.
  intros H. apply Forall_forall. intros d Hd E. rewrite forallb_forall in H. apply list_elem_of_In, H in Hd. rewrite E in Hd. cbn in Hd. by rewrite !Z.eqb_refl in Hd.
Qed.

Lemma find_method_none {I} (methods : list (@decompressor I)) m p b0 b1 r : holds m p (b0 :: b1 :: r) -> not_compressed methods b0 b1 ->
  find_method methods p m = (Ret None, m).
Proof.
  intros Hh Hn. apply holds_cons in Hh as [E0 Hh]. apply holds_cons in Hh as [E1 _].
  induction methods as [|d l IH]; [done|]. apply Forall_cons in Hn as [Hd Hn]. cbn [find_method].
  rewrite (bind_run _ _ _ _ _ (load_run _ _ _ E0)). destruct (Z.eqb_spec (fst (magic d)) b0) as [<-|]; [|by apply IH].
  rewrite (bind_run _ _ _ _ _ (load_run _ _ _ E1)). destruct (Z.eqb_spec (snd (magic d)) b1) as [<-|]; [|by apply IH].
  exfalso. apply Hd. by destruct (magic d).
Qed.

Lemma field_range img o : bytes img -> 0 <= ldn 4 img o < 2 ^ 32.
Proof. intros Hb. pose proof (ldn_range 4 img o Hb). lia. Qed.

Section Installation.
Context {inflate_state : Type}.
Abbreviation boot := (@boot inflate_state).
Variables (dma : tegrabl_clib_dma) (lit : string -> Z) (methods : list (@decompressor inflate_state)).
Variables (MAX RMAX text_offset load_addr R K a : Z) (img : list Z).
Hypothesis Law : forall f, memcpy_callback dma = Some f -> engine_copies f.
Hypothesis Hmagic : has_magic img = true.
Hypothesis Hlen : (2048 <= length img)%nat.
Hypothesis Haddr : 0 < a /\ a + len img < 2 ^ 64.

Abbreviation page := (h_page img).
Abbreviation kernel_at := (a + page).
Abbreviation ramdisk_offset := (page_up page (page + h_kernel img)).

Lemma extract_kernel_run (s : boot) n : bytes img -> holds (memory s) (lit ANDROID_MAGIC) magic_text -> holds (memory s) a img ->
  page + h_kernel img <= len img -> 2 <= h_kernel img <= MAX ->
  not_compressed methods (ld8 img (Z.to_nat page)) (ld8 img (S (Z.to_nat page))) ->
  K = u64 (load_addr + text_offset) -> K <> 0 -> mapped (memory s) K (h_kernel img) ->
  apart K kernel_at (h_kernel img) \/ memcpy_callback dma = None ->
  exists m', extract_kernel dma lit methods MAX text_offset load_addr a n s = (Ret K, with_memory m' s) /\
    moved (memory s) m' K kernel_at (h_kernel img).
Proof using Law Hmagic Hlen Haddr.
  intros Hb Hl Ha Hin Hk Hn HK HK0 Hmap Hov.
  pose proof (field_range img 36 Hb) as Hp. fold (h_page img) in Hp. pose proof (field_range img 8 Hb) as Hks. fold (h_kernel img) in Hks.
  unfold extract_kernel. rewrite (bind_run _ _ _ _ _ (on_boot_mem_read _ _ s (has_run _ lit a img Hl Ha ltac:(lia)))), Hmagic.
  assert (Ef : (let! p := pagesize a in let! size := kernelsize a in ret (u64 (a + p), size, text_offset)) (memory s) =
    (Ret (kernel_at, h_kernel img, text_offset), memory s)).
  { unfold pagesize, kernelsize. rewrite (bind_run _ _ _ _ _ (load_field _ a img 36 4 Ha ltac:(lia))), (bind_run _ _ _ _ _ (load_field _ a img 8 4 Ha ltac:(lia))).
    change (ldn 4 img 36) with page. change (ldn 4 img 8) with (h_kernel img). by rewrite (wrapw_small 64) by (unfold in_word; lia). }
  rewrite (bind_run _ _ _ _ _ (on_boot_mem_read _ _ s Ef)). unfold fail_if. destruct (Z.ltb_spec MAX (h_kernel img)); [lia|]. rewrite bind_ret_l, <- HK.
  pose proof (holds_slice _ a img (Z.to_nat page) (Z.to_nat (h_kernel img)) Ha) as Hpay. rewrite Z2Nat.id in Hpay by lia.
  assert (Em : find_method methods kernel_at (memory s) = (Ret None, memory s)).
  { apply (find_method_none _ _ _ (ld8 img (Z.to_nat page)) (ld8 img (S (Z.to_nat page))) []); [|done].
    intros i c E. assert (Hi : (i < 2)%nat) by (by apply lookup_lt_Some in E).
    destruct (lookup_lt_is_Some_2 img (Z.to_nat page + i)) as [v Hv]; [lia|]. replace (kernel_at + Z.of_nat i) with (a + Z.of_nat (Z.to_nat page + i)) by lia.
    rewrite (Ha _ _ Hv). f_equal. destruct i as [|[|]]; [| |lia]; injection E as <-; unfold ld8.
    - rewrite Nat.add_0_r in Hv. by rewrite Hv.
    - replace (Z.to_nat page + 1)%nat with (S (Z.to_nat page)) in Hv by lia. by rewrite Hv. }
  rewrite (bind_run _ _ _ _ _ (on_boot_mem_read _ _ s Em)).
  destruct (memmove_run dma (memory s) K kernel_at (h_kernel img)) as (m' & E & Hm); [done|done|lia|done|lia|done| |].
  { intros x Hx. apply (holds_mapped _ _ _ Hpay). rewrite length_slice. lia. }
  exists m'. split; [|done]. by rewrite (bind_run _ _ _ _ _ (on_boot_mem_run _ _ _ s E)).
Qed.

Lemma extract_ramdisk_run (s : boot) k : bytes img -> holds (memory s) a (take 2048 img) -> page = 2 ^ k -> 0 <= k < 32 ->
  page + h_kernel img + page <= 2 ^ 32 -> ramdisk_offset < 2 ^ 32 -> ramdisk_offset + h_ramdisk img <= len img -> h_ramdisk img <= RMAX ->
  holds (memory s) (a + ramdisk_offset) (slice img (Z.to_nat ramdisk_offset) (Z.to_nat (h_ramdisk img))) ->
  R <> 0 -> mapped (memory s) R (h_ramdisk img) ->
  apart R (a + ramdisk_offset) (h_ramdisk img) \/ memcpy_callback dma = None \/ R = a + ramdisk_offset ->
  exists m', extract_ramdisk dma RMAX R a s =
      (Ret tt, mk_boot (ctx (with_memory m' s)) R (h_ramdisk img) (a + 64) (fdt_handle_table s)) /\
    moved (memory s) m' R (a + ramdisk_offset) (h_ramdisk img).
Proof using Law Hlen Haddr.
  intros Hb Ha Hp Hk Hsum Hoff Hin Hr Hsrc HR0 Hmap Hov.
  pose proof (field_range img 36 Hb) as Hp32. fold (h_page img) in Hp32. pose proof (field_range img 8 Hb) as Hks. fold (h_kernel img) in Hks.
  pose proof (field_range img 16 Hb) as Hrs. fold (h_ramdisk img) in Hrs. assert (0 < 2 ^ k) by (apply Z.pow_pos_nonneg; lia).
  pose proof (page_up_bounds page (page + h_kernel img) ltac:(lia)) as Hup.
  assert (Hf : forall o, (o + 4 <= 2048)%nat -> forall s : boot, holds (memory s) a (take 2048 img) -> on_mem (load_le 4 (a + Z.of_nat o)) s = (Ret (ldn 4 img o), s)).
  { intros o Ho s0 Ha0. rewrite <- (ldn_within 2048 4 img o Ho). apply on_boot_mem_read, load_field; [done|]. rewrite length_take. lia. }
  unfold extract_ramdisk, set_ramdisk_load. set (s1 := mk_boot (ctx s) R (ramdisk_size s) (bootimg_cmdline s) (fdt_handle_table s)).
  change (bind (modify _) ?f s) with (f tt s1).
  cbv beta. rewrite (bind_run _ _ _ _ _ (Hf 16%nat ltac:(lia) s1 Ha)). change (ldn 4 img 16) with (h_ramdisk img).
  unfold fail_if. destruct (Z.ltb_spec RMAX (h_ramdisk img)); [lia|]. rewrite bind_ret_l.
  rewrite (bind_run _ _ _ _ _ (Hf 36%nat ltac:(lia) s1 Ha)), (bind_run _ _ _ _ _ (Hf 8%nat ltac:(lia) s1 Ha)).
  change (ldn 4 img 36) with page. change (ldn 4 img 8) with (h_kernel img). cbv zeta.
  assert (Eoff : u64 (a + ROUND_UP_POW2 (u32 (page + h_kernel img)) page) = a + ramdisk_offset).
  { rewrite (wrapw_small 32 (page + h_kernel img)) by (unfold in_word; lia). rewrite Hp. rewrite round_up_run by lia. rewrite <- Hp.
    rewrite (wrapw_small 32 ramdisk_offset) by (unfold in_word; lia). apply wrapw_small. unfold in_word. lia. }
  rewrite Eoff. unfold set_ramdisk_size. set (s2 := mk_boot (ctx s1) (ramdisk_load s1) (h_ramdisk img) (bootimg_cmdline s1) (fdt_handle_table s1)).
  change (bind (modify _) ?f s1) with (f tt s2). cbv beta.
  destruct (Z.eqb_spec (a + ramdisk_offset) R) as [He|He]; cbn [negb when].
  - exists (memory s). split; [unfold memory; rewrite bind_ret_l; by destruct s as [[]]|]. rewrite <- He. intros x. destruct (decide _); [f_equal; lia|done].
  - destruct (memmove_run dma (memory s) R (a + ramdisk_offset) (h_ramdisk img)) as (m' & E & Hm); [done| |lia|done|lia|done| |].
    { destruct Hov as [|[|]]; [by left|by right|congruence]. }
    { intros x Hx. apply (holds_mapped _ _ _ Hsrc). rewrite length_slice. lia. }
    exists m'. split; [|done]. by rewrite (bind_first _ _ _ _ _ _ (on_boot_mem_run _ _ m' s2 E)).
Qed.
End Installation.

(** C2.  An image whose kernel is not compressed is installed: kernel and ramdisk
    lie, byte for byte, where the system expects them, the ramdisk read from the page
    behind the kernel; the ramdisk's place and size and the image's command line are
    published; and the rest of memory is as it was. *)
Theorem boot_image_installed {inflate_state} dma lit (methods : list (@decompressor inflate_state)) MAX RMAX text_offset load_addr R K (s : boot) a n img k :
  (forall f, memcpy_callback dma = Some f -> engine_copies f) ->
  holds (memory s) (lit ANDROID_MAGIC) magic_text -> holds (memory s) a img ->
  bytes img -> has_magic img = true -> (2048 <= length img)%nat -> 0 < a /\ a + len img < 2 ^ 64 ->
  h_page img = 2 ^ k -> 0 <= k < 32 -> h_page img + h_kernel img + h_page img <= 2 ^ 32 ->
  let kernel_at := a + h_page img in
  let offset := page_up (h_page img) (h_page img + h_kernel img) in
  offset < 2 ^ 32 -> offset + h_ramdisk img <= len img -> 2 <= h_kernel img <= MAX -> h_ramdisk img <= RMAX ->
  not_compressed methods (ld8 img (Z.to_nat (h_page img))) (ld8 img (S (Z.to_nat (h_page img)))) ->
  K = u64 (load_addr + text_offset) -> K <> 0 -> R <> 0 -> mapped (memory s) K (h_kernel img) -> mapped (memory s) R (h_ramdisk img) ->
  apart K kernel_at (h_kernel img) \/ memcpy_callback dma = None ->
  apart R (a + offset) (h_ramdisk img) \/ memcpy_callback dma = None \/ R = a + offset ->
  (K + h_kernel img <= a \/ a + 2048 <= K) -> (K + h_kernel img <= a + offset \/ a + offset + h_ramdisk img <= K) ->
  (K + h_kernel img <= lit ANDROID_MAGIC \/ lit ANDROID_MAGIC + 8 <= K) -> (K + h_kernel img <= R \/ R + h_ramdisk img <= K) ->
  exists m', extract dma lit methods MAX RMAX text_offset load_addr R a n s =
      (Ret K, mk_boot (ctx (with_memory m' s)) R (h_ramdisk img) (a + 64) (fdt_handle_table s)) /\
    holds m' K (slice img (Z.to_nat (h_page img)) (Z.to_nat (h_kernel img))) /\
    holds m' R (slice img (Z.to_nat offset) (Z.to_nat (h_ramdisk img))) /\
    (forall x, ~ K <= x < K + h_kernel img -> ~ R <= x < R + h_ramdisk img -> m' !! x = memory s !! x).
Proof.
  intros Law Hl Ha Hb Hm Hlen Haddr Hp Hk Hsum kernel_at offset Hoff Hin Hks Hrs Hnc HK HK0 HR0 HmK HmR HoK HoR Ah Ar Al AR.
  pose proof (field_range img 36 Hb) as Hp32. fold (h_page img) in Hp32. pose proof (field_range img 16 Hb) as Hr32. fold (h_ramdisk img) in Hr32.
  assert (0 < 2 ^ k) by (apply Z.pow_pos_nonneg; lia). pose proof (page_up_bounds (h_page img) (h_page img + h_kernel img) ltac:(lia)) as Hup. fold offset in Hup.
  destruct (extract_kernel_run dma lit methods MAX text_offset load_addr K a img Law Hm Hlen Haddr s n) as (m1 & E1 & H1); try done; [lia|].
  pose proof (holds_slice _ _ _ (Z.to_nat (h_page img)) (Z.to_nat (h_kernel img)) Ha) as Hsk. rewrite Z2Nat.id in Hsk by lia.
  pose proof (holds_slice _ _ _ (Z.to_nat offset) (Z.to_nat (h_ramdisk img)) Ha) as Hsr. rewrite Z2Nat.id in Hsr by lia.
  assert (Lk : len (slice img (Z.to_nat (h_page img)) (Z.to_nat (h_kernel img))) = h_kernel img) by (rewrite length_slice; lia).
  assert (Lr : len (slice img (Z.to_nat offset) (Z.to_nat (h_ramdisk img))) = h_ramdisk img) by (rewrite length_slice; lia).
  assert (O1 : overwritten (memory s) m1 K (h_kernel img)) by (eapply moved_overwritten; [|exact H1]; intros x Hx; apply (holds_mapped _ _ _ Hsk); lia).
  assert (Hh : holds m1 a (take 2048 img)).
  { eapply overwritten_holds; [exact O1|rewrite length_take; lia|]. rewrite <- (Z.add_0_r a). apply (holds_slice _ _ _ 0 2048 Ha). }
  assert (Hs1 : holds m1 (a + offset) (slice img (Z.to_nat offset) (Z.to_nat (h_ramdisk img)))) by (eapply overwritten_holds; [exact O1|lia|exact Hsr]).
  destruct (extract_ramdisk_run dma RMAX R a img Law Hlen Haddr (with_memory m1 s) k) as (m2 & E2 & H2); try done; [by eapply overwritten_mapped|].
  assert (O2 : overwritten m1 m2 R (h_ramdisk img)) by (eapply moved_overwritten; [|exact H2]; intros x Hx; apply (holds_mapped _ _ _ Hs1); lia).
  exists m2. split; [|split; [|split]].
  - rewrite (bind_run _ _ _ _ _ E1).
    assert (Eh : HAS_BOOT_IMG_HDR lit a m1 = (Ret true, m1)).
    { rewrite (has_run m1 lit a (take 2048 img)); [|eapply overwritten_holds; [exact O1|change (len magic_text) with 8; lia|exact Hl]|done|rewrite length_take; lia].
      rewrite <- Hm. unfold has_magic. rewrite take_take. done. }
    rewrite (bind_run _ _ _ _ _ (on_boot_mem_read _ _ (with_memory m1 s) Eh)). cbn [when]. by rewrite (bind_run _ _ _ _ _ E2).
  - eapply overwritten_holds; [exact O2|lia|]. by eapply moved_holds.
  - by eapply moved_holds.
  - intros x Hx1 Hx2. rewrite (proj2 O2 x Hx2). by apply O1.
Qed.

(** An image with a kernel of twelve bytes, not compressed, and a ramdisk of five. *)
Definition sample_kernel : list Z := [77; 90; 1; 2; 3; 4; 5; 6; 7; 8; 9; 10].
Definition sample_ramdisk : list Z := [48; 55; 48; 55; 48].
Definition sample_image (kernel ramdisk : list Z) : list Z :=
  magic_text ++ le 4 (len kernel) ++ repeat 0 4 ++ le 4 (len ramdisk) ++ repeat 0 16 ++ le 4 2048 ++ repeat 0 2008 ++
  kernel ++ repeat 0 (2048 - length kernel) ++ ramdisk.
Definition image_memory (img : list Z) : mem :=
  ranges_memory [(16, magic_text); (8192, img); (16384, repeat 0 64); (20480, repeat 0 64)].
Definition before (m : mem) : boot := mk_boot (idle m) 0 0 0 [0; 0; 0].

Lemma boot_image_installed_witness :
  let img := sample_image sample_kernel sample_ramdisk in
  exists m', extract no_engine (fun _ => 16) toy_list 64 64 0 16384 20480 8192 0 (before (image_memory img)) =
      (Ret 16384, mk_boot (ctx (with_memory m' (before (image_memory img)))) 20480 5 8256 [0; 0; 0]) /\
    holds m' 16384 (slice img 2048 12) /\ holds m' 20480 (slice img 4096 5) /\
    (forall x, ~ 16384 <= x < 16396 -> ~ 20480 <= x < 20485 -> m' !! x = image_memory img !! x).
Proof.
  intros img.
  apply (boot_image_installed no_engine (fun _ => 16) toy_list 64 64 0 16384 20480 16384 (before (image_memory img)) 8192 0 img 11).
  - discriminate.
  - apply ranges_hold; [vm_compute; reflexivity|in_ranges].
  - apply ranges_hold; [vm_compute; reflexivity|in_ranges].
  - apply bytes_dec. vm_compute. reflexivity.
  - vm_compute. reflexivity.
  - apply Nat.leb_le. vm_compute. reflexivity.
  - split; [lia|]. vm_compute. reflexivity.
  - vm_compute. reflexivity.
  - lia.
  - apply Z.leb_le. vm_compute. reflexivity.
  - vm_compute. reflexivity.
  - apply Z.leb_le. vm_compute. reflexivity.
  - split; apply Z.leb_le; vm_compute; reflexivity.
  - apply Z.leb_le. vm_compute. reflexivity.
  - apply not_compressed_check. vm_compute. reflexivity.
  - vm_compute. reflexivity.
  - lia.
  - lia.
  - apply ranges_mapped. vm_compute. reflexivity.
  - apply ranges_mapped. vm_compute. reflexivity.
  - right. reflexivity.
  - right. left. reflexivity.
  - right. apply Z.leb_le. vm_compute. reflexivity.
  - right. apply Z.leb_le. vm_compute. reflexivity.
  - right. apply Z.leb_le. vm_compute. reflexivity.
  - left. apply Z.leb_le. vm_compute. reflexivity.
Defined.

(** The kernel of the image is an LZ4 frame. *)
Definition packed_image : list Z := sample_image sized_frame sample_ramdisk.

Lemma boot_image_contained_witness :
  let '(o, s') := extract no_engine (fun _ => 16) toy_list 64 64 0 16384 20480 8192 0 (before (image_memory packed_image)) in
  (forall x, is_Some (memory s' !! x) <-> is_Some (image_memory packed_image !! x)) /\
  (forall x, ~ 16384 <= x < 16384 + 64 -> ~ 20480 <= x < 20480 + 64 -> memory s' !! x = image_memory packed_image !! x) /\
  match o with Ret entry => entry = 16384 | Err _ | Undef => True | _ => False end.
Proof.
  apply (boot_image_contained no_engine (fun _ => 16) toy_lzf (fun z _ => (Z_OK, z)) toy_inflate id true true true 64 64 0 16384 20480 16384
    (before (image_memory packed_image)) 8192 0).
  - discriminate.
  - apply toy_inflate_law.
  - apply toy_lzf_law.
  - refine (ranges_bytes _ _). repeat (apply Forall_cons; split; [apply bytes_dec; vm_compute; reflexivity|]). constructor.
  - apply ranges_none. vm_compute. reflexivity.
  - apply ranges_hold; [vm_compute; reflexivity|in_ranges].
  - apply (ranges_hold_prefix _ _ _ (drop 8 packed_image)); [vm_compute; reflexivity|in_ranges].
  - vm_compute. reflexivity.
  - lia.
  - lia.
  - lia.
Defined.

(** The frame is decompressed to the kernel's address. *)
Example packed_image_installed :
  let '(o, s') := extract no_engine (fun _ => 16) toy_list 64 64 0 16384 20480 8192 0 (before (image_memory packed_image)) in
  o = Ret 16384 /\ fst (load_bytes 5 20480 (memory s')) = Ret sample_ramdisk /\ ramdisk_size s' = 5.
Proof. vm_compute. auto. Qed.

(** ** The boot control *)

(** A record is used that passes the checks, or the default. *)
Lemma bootctrl_checked load m c m' : tegrabl_get_kernel_bootctrl load m = (Ret c, m') -> bootctrl_valid c = true \/ c = dummy_kernel_bootctrl.
Proof.
  intros E. unfold tegrabl_get_kernel_bootctrl in E. apply bind_inv in E as (r & m1 & _ & E). apply bind_inv in E as (found & m2 & _ & E).
  destruct found as [a|]; [|right; by injection E]. apply bind_inv in E as (control & m3 & _ & E). injection E as <- _.
  destruct (bootctrl_valid control) eqn:Ev; [by left|by right].
Qed.

(** The default does not pass them: its crc is that of a record with the version in
    front of the mode. *)
Example dummy_bootctrl_invalid : bootctrl_valid dummy_kernel_bootctrl = false.
Proof. vm_compute. reflexivity. Qed.
Example dummy_bootctrl_crc :
  tegrabl_utils_crc32 0 (le 4 KERNEL_BOOTCTRL_MAGIC_NUMBER ++ le 4 KERNEL_BOOTCTRL_VERSION ++ le 4 BOOT_TO_NORMAL_MODE ++ le 4 RECOVERY_CMD_NULL) = ld32 dummy_kernel_bootctrl 16.
Proof. vm_compute. reflexivity. Qed.

(** ** Errors with secure boot *)

(** The steps fail, the authentication completes: the caller sees no error. *)
Example error_replaced :
  let load_fails (_ : Z) : M mem (Z * Z) := err 5 in
  fst (tegrabl_load_kernel_and_dtb no_engine (fun _ => 16) toy_list 64 64 64 64 0 16384 20480 (fun _ _ _ => ret 0) true true load_fails
    (fun _ _ => ret true) (fun _ => ret 0) (fun _ _ _ _ => ret tt) (ret tt) (fun _ => ret tt) None 0 1 (mk_kernel true) 0 0
    (before (image_memory packed_image))) = Ret None.
Proof. vm_compute. reflexivity. Qed.
