(* ===== verification/NvBlob.v ===== *)
(** * Blobs of images

    lib/nvblob/tegrabl_nvblob.c and lib/nvblob_bmp/tegrabl_parse_bmp.c: a blob in
    memory or from a partition, its header, its entries and their data.  A handle is
    the address of a [struct blob_info], zero for NULL; structures are read and
    written where they are. *)
From Stdlib Require Import Ascii String.
From stdpp Require Import gmap.
From S2P Require Import Prelude Interfaces Errors Clib CString Printf Decompress.
#[local] Open Scope Z_scope.

Definition MODULE : Z := TEGRABL_ERR_NVBLOB.
Definition TEGRABL_ERROR (reason aux : Z) : Z := tegrabl_error_value MODULE aux reason.

Definition UPDATE_MAGIC : string := "NVIDIA__BLOB__V2".
Definition UPDATE_MAGIC_SIZE : Z := 16.
Definition SIGNED_UPDATE_MAGIC : string := "SIGNED-BY-TEGRASIGN-".
Definition SIGNED_UPDATE_MAGIC_SIZE : Z := 20.
Definition LEGACY_BLOB_HEADER_LEN : Z := 36.
Definition MAX_BLOB_SIZE : Z := 60 * 1024 * 1024.
Definition TEGRABL_BLOB_TYPE_MAX_BLOB_SIZE : Z := 1.
Definition TEGRABL_BLOB_TYPE_UNCOMP_SIZE : Z := 2.
Definition TEGRABL_BLOB_TYPE_DATA_SIZE : Z := 3.
Definition PARTITION_NAME_LENGTH : Z := 40.
Definition IMG_SPEC_INFO_LENGTH : Z := 64.
Definition BLOB_UPDATE : Z := 0.
Definition BLOB_BMP : Z := 1.
Definition BLOB_NONE : Z := 2.

Definition store_le (n : nat) (a v : Z) : M mem unit := store_bytes a (le n v).

(** ** Structures *)

(** [struct signed_header] *)
Definition sizeof_signed_header : Z := 28.
Definition actual_blob_size (shdr : Z) : M mem Z := load_le 4 (shdr + 20).
Definition signature_size (shdr : Z) : M mem Z := load_le 4 (shdr + 24).

(** [struct blob_header] *)
Definition sizeof_blob_header : Z := 48.
Definition h_size (h : Z) : M mem Z := load_le 4 (h + 20).
Definition entries_offset (h : Z) : M mem Z := load_le 4 (h + 24).
Definition num_entries (h : Z) : M mem Z := load_le 4 (h + 28).
Definition h_type (h : Z) : M mem Z := load_le 4 (h + 32).
Definition uncomp_size (h : Z) : M mem Z := load_le 4 (h + 36).

(** [struct blob_info]; four bytes of padding end it. *)
Definition sizeof_blob_info : Z := 24.
Definition start (bh : Z) : M mem Z := load_le 8 bh.
Definition offset (bh : Z) : M mem Z := load_le 4 (bh + 8).
Definition data_mem_size (bh : Z) : M mem Z := load_le 4 (bh + 12).
Definition set_start (bh v : Z) : M mem unit := store_le 8 bh v.
Definition set_offset (bh v : Z) : M mem unit := store_le 4 (bh + 8) v.
Definition set_data_mem_size (bh v : Z) : M mem unit := store_le 4 (bh + 12) v.
Definition set_info_mem_size (bh v : Z) : M mem unit := store_le 4 (bh + 16) v.

(** [struct tegrabl_image_entry] *)
Definition sizeof_image_entry : Z := 120.
Definition partname (e : Z) : Z := e.
Definition image_offset (e : Z) : M mem Z := load_le 4 (e + 40).
Definition image_size (e : Z) : M mem Z := load_le 4 (e + 44).
Definition op_mode (e : Z) : M mem Z := load_le 4 (e + 52).
Definition spec_info (e : Z) : Z := e + 56.

(** [struct tegrabl_bmp_entry] *)
Definition sizeof_bmp_entry : Z := 52.
Definition bmp_type (e : Z) : M mem Z := load_le 4 e.
Definition bmp_offset (e : Z) : M mem Z := load_le 4 (e + 4).
Definition bmp_size (e : Z) : M mem Z := load_le 4 (e + 8).
Definition bmp_res (e : Z) : M mem Z := load_le 4 (e + 12).

(** ** Reading a blob *)

(** Casts the handle to a header. *)
Definition tegrabl_blob_get_size (bh : Z) : M mem Z := h_size bh.

(** The address of the blob behind its signed header; fails for a handle without a
    blob. *)
Definition blob_header (b : Z) : M mem Z :=
  fail_if (b =? 0) (TEGRABL_ERROR TEGRABL_ERR_INVALID 0) ;;;
  let! s := start b in
  fail_if (s =? 0) (TEGRABL_ERROR TEGRABL_ERR_INVALID 0) ;;;
  let! o := offset b in
  ret (u64 (s + o)).

Definition tegrabl_blob_is_signed (b : Z) : M mem bool :=
  if b =? 0 then ret false
  else
    let! s := start b in
    if s =? 0 then ret false else let! o := offset b in ret (0 <? o).

Definition tegrabl_blob_get_type (b : Z) : M mem Z := let! h := blob_header b in h_type h.

(** Gives [*blob] and [*bloblen]. *)
Definition tegrabl_blob_get_details (b : Z) : M mem (Z * Z) :=
  let! h := blob_header b in let! n := h_size h in ret (h, n).

(** Gives [*size] and [*signature]. *)
Definition tegrabl_blob_get_signature (b : Z) : M mem (Z * Z) :=
  fail_if (b =? 0) (TEGRABL_ERROR TEGRABL_ERR_INVALID 0) ;;;
  let! s := start b in
  fail_if (s =? 0) (TEGRABL_ERROR TEGRABL_ERR_INVALID 0) ;;;
  let! o := offset b in
  fail_if (o =? 0) (TEGRABL_ERROR TEGRABL_ERR_INVALID 0) ;;;
  let! signed := tegrabl_blob_is_signed b in
  fail_if (negb signed) (TEGRABL_ERROR TEGRABL_ERR_INVALID 0) ;;;
  let! actual := actual_blob_size s in
  let! size := signature_size s in
  ret (size, u64 (s + sizeof_signed_header + actual)).

Definition tegrabl_blob_get_num_entries (b : Z) : M mem Z := let! h := blob_header b in num_entries h.

(** The entry at [index] of a table of a type. *)
Definition entry_at (type table index : Z) : option Z :=
  if type =? BLOB_UPDATE then Some (u64 (table + sizeof_image_entry * index))
  else if type =? BLOB_BMP then Some (u64 (table + sizeof_bmp_entry * index))
  else None.

Definition tegrabl_blob_get_entry (b index : Z) : M mem Z :=
  let! h := blob_header b in
  let! o := entries_offset h in
  let! type := h_type h in
  match entry_at type (u64 (h + o)) index with
  | None => err (TEGRABL_ERROR TEGRABL_ERR_INVALID 0)
  | Some e => ret e
  end.

(** Gives [*offset] and [*length]. *)
Definition parse_entry (t e : Z) : M mem (option (Z * Z)) :=
  if t =? BLOB_UPDATE then let! o := image_offset e in let! n := image_size e in ret (Some (o, n))
  else if t =? BLOB_BMP then let! o := bmp_offset e in let! n := bmp_size e in ret (Some (o, n))
  else ret None.

(** Gives [*data] and [*size]. *)
Definition tegrabl_blob_get_entry_data (b index : Z) : M mem (Z * Z) :=
  let! h := blob_header b in
  let! o := entries_offset h in
  let! type := h_type h in
  match entry_at type (u64 (h + o)) index with
  | None => err (TEGRABL_ERROR TEGRABL_ERR_INVALID 0)
  | Some e =>
      let! type := tegrabl_blob_get_type b in
      let! r := parse_entry type e in
      match r with
      | None => err (TEGRABL_ERROR TEGRABL_ERR_INVALID 0)
      | Some (o, n) => ret (u64 (h + o), n)
      end
  end.

(** ** Opening and closing a blob *)

Section Blob.
Context {inflate_state W H : Type} `{PartitionApi W H} `{HeapApi W}.
Abbreviation contexts := (@contexts inflate_state).

Record host := mk_host { h_ctx : contexts; h_world : W }.
Definition on_ctx {A} (c : M contexts A) : M host A := fun s => let '(o, x) := c (h_ctx s) in (o, mk_host x (h_world s)).
Definition on_mem {A} (c : M mem A) : M host A := on_ctx (Decompress.on_mem c).
Definition on_world {A} (c : M W A) : M host A := fun s => let '(o, w) := c (h_world s) in (o, mk_host (h_ctx s) w).

(** NULL is zero. *)
Definition tegrabl_malloc (n : Z) : M host Z := let! a := on_world (heap_malloc n) in ret (default 0 a).
Definition tegrabl_free (a : Z) : M host unit := on_world (heap_free a).

Variable dma : tegrabl_clib_dma.
Variable lit : string -> Z.
(** The table of decompression methods. *)
Variable methods : list (@decompressor inflate_state).

(** Gives [*blob_buf] and [*blob_asize]. *)
Definition blob_decompress (header hdr_size data_size : Z) (decomp : decompressor) : M host (Z * Z) :=
  fail_if (header =? 0) (TEGRABL_ERROR TEGRABL_ERR_INVALID 0) ;;;
  let! o := on_mem (entries_offset header) in
  let! outbuf_size := if o =? LEGACY_BLOB_HEADER_LEN then ret MAX_BLOB_SIZE else on_mem (uncomp_size header) in
  let! outbuf := tegrabl_malloc outbuf_size in
  fail_if (outbuf =? 0) (TEGRABL_ERROR TEGRABL_ERR_NO_MEMORY 0) ;;;
  on_mem (memmove dma outbuf header hdr_size) ;;;
  let! r := code (on_ctx (do_decompress decomp (header + hdr_size) (u32 (data_size - hdr_size)) (outbuf + hdr_size) outbuf_size)) in
  match r with
  | inr e => tegrabl_free outbuf ;;; err e
  | inl _ =>
      on_mem (store_le 4 (outbuf + 20) outbuf_size) ;;;
      ret (outbuf, outbuf_size)
  end.

(** The local variables at the label [fail]: the error, the address of the header and
    how much has been allocated for it. *)
Record locals := mk_locals { l_error : Z; l_header : Z; l_header_asize : Z }.

(** The header of the blob, given or read from the partition into memory. *)
Definition open_header (part_name : list Z) (bptr hdr_size : Z) : M host (locals * option H) :=
  if negb (bptr =? 0) then ret (mk_locals 0 bptr 0, None)
  else
    let! p := code (on_world (partition_open part_name)) in
    match p with
    | inr e => ret (mk_locals e 0 0, None)
    | inl p =>
        let! header := tegrabl_malloc hdr_size in
        if header =? 0 then ret (mk_locals (TEGRABL_ERROR TEGRABL_ERR_NO_MEMORY 0) 0 0, Some p)
        else
          let! r := code (on_world (partition_read p hdr_size)) in
          match r with
          | inr e => ret (mk_locals e header hdr_size, Some p)
          | inl (data, p) => on_mem (store_bytes header data) ;;; ret (mk_locals 0 header hdr_size, Some p)
          end
    end.

(** The size of the blob; the offset goes into the handle. *)
Definition identify (bh header : Z) : M mem Z :=
  let! d := strncmp header (lit SIGNED_UPDATE_MAGIC) SIGNED_UPDATE_MAGIC_SIZE in
  if d =? 0 then
    set_offset bh sizeof_signed_header ;;;
    let! actual := actual_blob_size header in
    let! size := signature_size header in
    ret (u32 (actual + size + sizeof_signed_header))
  else
    let! d := strncmp header (lit UPDATE_MAGIC) UPDATE_MAGIC_SIZE in
    if d =? 0 then set_offset bh 0 ;;; h_size header
    else err (TEGRABL_ERROR TEGRABL_ERR_INVALID 0).

(** The blob read whole, and decompressed.  [inr e]: the function returns [e] at
    once. *)
Definition read_blob (part : H) (header hdr_size data_size : Z) : M host (locals + Z) :=
  tegrabl_free header ;;;
  let! header := tegrabl_malloc data_size in
  if header =? 0 then ret (inl (mk_locals (TEGRABL_ERROR TEGRABL_ERR_NO_MEMORY 0) 0 hdr_size))
  else
    let! p := code (on_world (partition_seek part 0 0)) in
    match p with
    | inr e => ret (inl (mk_locals e header data_size))
    | inl p =>
        let! r := code (on_world (partition_read p data_size)) in
        match r with
        | inr e => ret (inl (mk_locals e header data_size))
        | inl (data, _) =>
            on_mem (store_bytes header data) ;;;
            let! o := on_mem (entries_offset header) in
            let! decomp := on_mem (find_method methods (header + o)) in
            match decomp with
            | None => ret (inl (mk_locals 0 header data_size))
            | Some decomp =>
                let! small := if o =? LEGACY_BLOB_HEADER_LEN then ret false else on_mem (let! size := uncomp_size header in ret (size <? o)) in
                if (o =? LEGACY_BLOB_HEADER_LEN) && (MAX_BLOB_SIZE <? o)
                then ret (inr (TEGRABL_ERROR TEGRABL_ERR_INVALID TEGRABL_BLOB_TYPE_MAX_BLOB_SIZE))
                else if small
                then ret (inr (TEGRABL_ERROR TEGRABL_ERR_INVALID TEGRABL_BLOB_TYPE_UNCOMP_SIZE))
                else if data_size <? o
                then ret (inr (TEGRABL_ERROR TEGRABL_ERR_INVALID TEGRABL_BLOB_TYPE_DATA_SIZE))
                else
                  let! r := code (blob_decompress header o data_size decomp) in
                  match r with
                  | inr e => ret (inl (mk_locals e header data_size))
                  | inl (blob_buf, blob_asize) => tegrabl_free header ;;; ret (inl (mk_locals 0 blob_buf blob_asize))
                  end
            end
        end
    end.

(** Behind the label [fail]: the error and the handle. *)
Definition blob_fail (bh : Z) (l : locals) : M host (Z * option Z) :=
  if negb (l_error l =? 0) then
    when (negb (l_header l =? 0) && negb (l_header_asize l =? 0)) (tegrabl_free (l_header l)) ;;;
    tegrabl_free bh ;;;
    ret (l_error l, Some 0)
  else ret (0, Some bh).

(** Gives the error and [*bhdl], [None] where that is left as it was. *)
Definition tegrabl_blob_init (part_name : list Z) (bptr : Z) : M host (Z * option Z) :=
  let hdr_size := Z.max sizeof_signed_header sizeof_blob_header in
  let! bh := tegrabl_malloc sizeof_blob_info in
  if bh =? 0 then ret (TEGRABL_ERROR TEGRABL_ERR_NO_MEMORY 0, Some 0)
  else
    on_mem (memset dma bh 0 sizeof_blob_info ;;; set_info_mem_size bh sizeof_blob_info) ;;;
    let! (l, part) := open_header part_name bptr hdr_size in
    if negb (l_error l =? 0) then blob_fail bh l
    else
      let! r := code (on_mem (identify bh (l_header l))) in
      match r with
      | inr e => blob_fail bh (mk_locals e (l_header l) (l_header_asize l))
      | inl data_size =>
          let! r :=
            match part with
            | None => ret (inl l)
            | Some p => read_blob p (l_header l) hdr_size data_size
            end in
          match r with
          | inr e => ret (e, None)
          | inl l =>
              if negb (l_error l =? 0) then blob_fail bh l
              else on_mem (set_start bh (l_header l) ;;; set_data_mem_size bh data_size) ;;; ret (0, Some bh)
          end
      end.

Definition tegrabl_blob_close (b : Z) : M host unit :=
  if b =? 0 then ret tt
  else
    let! s := on_mem (start b) in
    let! n := on_mem (data_mem_size b) in
    when (negb (s =? 0) && negb (n =? 0)) (tegrabl_free s) ;;;
    tegrabl_free b.

(** [get_casted_entry]: an entry of an update is copied; [None] is NULL. *)
Definition get_casted_entry (t in_entry : Z) : M host Z :=
  if t =? BLOB_UPDATE then
    let! e := tegrabl_malloc sizeof_image_entry in
    fail_if (e =? 0) (TEGRABL_ERROR TEGRABL_ERR_NO_MEMORY 0) ;;;
    on_mem (memset dma e 0 sizeof_image_entry ;;;
      memcpy dma (partname e) (partname in_entry) PARTITION_NAME_LENGTH ;;;
      let! v := image_offset in_entry in store_le 4 (e + 40) v ;;;
      let! v := image_size in_entry in store_le 4 (e + 44) v ;;;
      let! v := load_le 4 (in_entry + 48) in store_le 4 (e + 48) v ;;;
      let! v := op_mode in_entry in store_le 4 (e + 52) v ;;;
      memcpy dma (spec_info e) (spec_info in_entry) IMG_SPEC_INFO_LENGTH) ;;;
    ret e
  else if t =? BLOB_BMP then ret in_entry
  else err (TEGRABL_ERROR TEGRABL_ERR_INVALID 0).

(** ** Bitmaps *)

Definition BMPRES_480P : Z := 0.
Definition BMPRES_720P : Z := 1.
Definition BMPRES_810P : Z := 2.
Definition BMPRES_1080P : Z := 3.
Definition BMPRES_4K : Z := 4.
Definition BMPRES_1200P_P : Z := 5.

Definition get_optimal_bmp_resolution (panel_resolution : Z) (is_panel_portrait : bool) (rotation_angle : Z) : Z :=
  let is_bmp_portrait := if (rotation_angle =? 0) || (rotation_angle =? 180) then is_panel_portrait else negb is_panel_portrait in
  if is_bmp_portrait then BMPRES_1200P_P
  else if 2160 <=? panel_resolution then BMPRES_4K
  else if (1080 <=? panel_resolution) && (panel_resolution <? 2160) then BMPRES_1080P
  else if (810 <=? panel_resolution) && (panel_resolution <? 1080) then BMPRES_810P
  else if (720 <=? panel_resolution) && (panel_resolution <? 810) then BMPRES_720P
  else BMPRES_480P.

(** The static variables of the file, and the rest. *)
Record bmp := mk_bmp { b_host : host; bh : Z; is_initialized : bool; num_images : Z }.
Definition on_host {A} (c : M host A) : M bmp A := fun s =>
  let '(o, h) := c (b_host s) in (o, mk_bmp h (bh s) (is_initialized s) (num_images s)).
Definition set_bh (v : Z) : M bmp unit := modify (fun s => mk_bmp (b_host s) v (is_initialized s) (num_images s)).
Definition set_initialized (b : bool) : M bmp unit := modify (fun s => mk_bmp (b_host s) (bh s) b (num_images s)).
Definition set_num_images (n : Z) : M bmp unit := modify (fun s => mk_bmp (b_host s) (bh s) (is_initialized s) n).

Definition tegrabl_load_bmp_blob (part_name : list Z) : M bmp unit :=
  let! b := gets bh in
  when (b =? 0)
    (let! (error, handle) := on_host (tegrabl_blob_init part_name 0) in
     set_bh (default b handle) ;;;
     fail_if (negb (error =? 0)) error) ;;;
  let! b := gets bh in
  let! r := code (on_host (on_mem (tegrabl_blob_get_type b))) in
  match r with
  | inr e => set_bh 0 ;;; err e
  | inl btype =>
      if negb (btype =? BLOB_BMP) then
        on_host (tegrabl_blob_close b) ;;; set_bh 0 ;;; err (TEGRABL_ERROR TEGRABL_ERR_INVALID 0)
      else
        let! n := on_host (on_mem (tegrabl_blob_get_num_entries b)) in
        set_num_images n ;;;
        set_initialized true
  end.

(** The handle is kept. *)
Definition tegrabl_unload_bmp_blob : M bmp unit :=
  let! b := gets bh in on_host (tegrabl_blob_close b) ;;; set_initialized false.

(** The last entry of the type with the highest resolution that is not above
    [optimal].  [default_res] and [desired] are what was found so far; where there is
    no entry, that of the turn before is looked at again. *)
Fixpoint search_bmp (n : nat) (b i img_type optimal image_info default_res : Z) (desired : option Z) : M mem (option Z) :=
  match n with
  | O => ret desired
  | S n =>
      let! r := code (tegrabl_blob_get_entry b i) in
      let image_info := match r with inl e => e | inr _ => image_info end in
      let! t := bmp_type image_info in
      let! res := if t =? img_type then bmp_res image_info else ret (-1) in
      if (t =? img_type) && (default_res <=? res) && (res <=? optimal)
      then search_bmp n b (i + 1) img_type optimal image_info res (Some i)
      else search_bmp n b (i + 1) img_type optimal image_info default_res desired
  end.

(** [img], and the fields of [struct tegrabl_bmp_image] that are read; gives
    [img->bmp] and [img->image_size]. *)
Definition tegrabl_get_bmp (img img_type panel_resolution : Z) (is_panel_portrait : bool) (rotation_angle : Z) : M bmp (Z * Z) :=
  fail_if (img =? 0) (TEGRABL_ERROR TEGRABL_ERR_INVALID 0) ;;;
  let! init := gets is_initialized in
  fail_if (negb init) (TEGRABL_ERROR TEGRABL_ERR_NOT_FOUND 1) ;;;
  let optimal_image_res := get_optimal_bmp_resolution panel_resolution is_panel_portrait rotation_angle in
  let! b := gets bh in
  let! n := gets num_images in
  let! desired := on_host (on_mem (search_bmp (Z.to_nat n) b 0 img_type optimal_image_res 0 BMPRES_480P None)) in
  match desired with
  | None => err (TEGRABL_ERROR TEGRABL_ERR_NOT_FOUND 2)
  | Some i => on_host (on_mem (tegrabl_blob_get_entry_data b i))
  end.
End Blob.
