(* ===== verification/NvBlobSpec.v ===== *)
(** * Blobs of images: correctness

    A blob put together from images is read back, image by image; what the functions
    make of other blobs. *)
From Stdlib Require Import Ascii String.
From stdpp Require Import gmap.
From S2P Require Import Prelude Interfaces Errors Clib ClibSpec CString CStringSpec MemSpec Printf Lz4 Lz4Spec Decompress DecompressSpec NvBlob.
#[local] Open Scope Z_scope.

(** ** Putting a blob together *)

Record image := mk_image { im_name : list Z; im_version : Z; im_mode : Z; im_spec : list Z; im_data : list Z }.

Definition image_ok (im : image) : Prop :=
  length (im_name im) = 40%nat /\ length (im_spec im) = 64%nat.

Definition entry_bytes (off : Z) (im : image) : list Z :=
  im_name im ++ le 4 off ++ le 4 (len (im_data im)) ++ le 4 (im_version im) ++ le 4 (im_mode im) ++ im_spec im.

(** The table, for data from [off] on. *)
Fixpoint table (off : Z) (ims : list image) : list Z :=
  match ims with [] => [] | im :: ims => entry_bytes off im ++ table (off + len (im_data im)) ims end.
Definition data_of (ims : list image) : list Z := concat (map im_data ims).
Definition data_at (ims : list image) : Z := sizeof_blob_header + sizeof_image_entry * len ims.
Definition total (ims : list image) : Z := data_at ims + len (data_of ims).

Definition header_bytes (ims : list image) : list Z :=
  chars UPDATE_MAGIC ++ le 4 2 ++ le 4 (total ims) ++ le 4 sizeof_blob_header ++ le 4 (len ims) ++ le 4 BLOB_UPDATE ++
  le 4 (total ims) ++ repeat 0 8.
Definition blob_bytes (ims : list image) : list Z := header_bytes ims ++ table (data_at ims) ims ++ data_of ims.

Lemma length_header ims : length (header_bytes ims) = 48%nat.
Proof. unfold header_bytes. rewrite !length_app, !length_le. reflexivity. Qed.

Lemma length_entry off im : image_ok im -> length (entry_bytes off im) = 120%nat.
Proof. intros [H1 H2]. unfold entry_bytes. rewrite !length_app, !length_le. lia. Qed.

Lemma length_table ims : forall off, Forall image_ok ims -> len (table off ims) = 120 * len ims.
Proof.
  induction ims as [|im ims IH]; intros off H; [done|]. apply Forall_cons in H as [Hi H]. cbn [table List.length].
  rewrite length_app, length_entry by done. specialize (IH (off + len (im_data im)) H). lia.
Qed.

Lemma length_blob ims : Forall image_ok ims -> len (blob_bytes ims) = total ims.
Proof.
  intros H. unfold blob_bytes. rewrite !length_app, length_header. pose proof (length_table ims (data_at ims) H).
  unfold total, data_at, sizeof_blob_header, sizeof_image_entry in *. lia.
Qed.

(** Where the data of image [i] begins. *)
Definition offset_of (ims : list image) (i : nat) : Z := data_at ims + len (data_of (take i ims)).

Lemma holds_entry m a ims : forall off i im, Forall image_ok ims -> holds m a (table off ims) -> ims !! i = Some im ->
  holds m (a + 120 * Z.of_nat i) (entry_bytes (off + len (data_of (take i ims))) im).
Proof.
  revert a. induction ims as [|im0 ims IH]; intros a off i im Hok Hh Hi; [done|]. apply Forall_cons in Hok as [H0 Hok].
  cbn [table] in Hh. apply holds_app in Hh as [Hh0 Hh]. rewrite length_entry in Hh by done. destruct i as [|i].
  - injection Hi as ->. cbn [take data_of map concat List.length]. by rewrite Z.mul_0_r, !Z.add_0_r.
  - cbn [lookup list_lookup] in Hi. pose proof (IH _ _ i im Hok Hh Hi) as H. cbn [take data_of map concat]. rewrite length_app.
    replace (a + 120 * Z.of_nat (S i)) with (a + Z.of_nat 120 + 120 * Z.of_nat i) by lia.
    by replace (off + Z.of_nat (length (im_data im0) + length (concat (map im_data (take i ims))))) with (off + len (im_data im0) + len (data_of (take i ims))) by (unfold data_of; lia).
Qed.

Lemma holds_data m a ims : forall i im, holds m a (data_of ims) -> ims !! i = Some im -> holds m (a + len (data_of (take i ims))) (im_data im).
Proof.
  revert a. induction ims as [|im0 ims IH]; intros a i im Hh Hi; [done|]. cbn [data_of map concat] in Hh. apply holds_app in Hh as [Hh0 Hh]. destruct i as [|i].
  - injection Hi as ->. cbn [take data_of map concat List.length]. by rewrite Z.add_0_r.
  - cbn [lookup list_lookup] in Hi. cbn [take data_of map concat]. rewrite length_app.
    replace (a + Z.of_nat _) with (a + len (im_data im0) + len (data_of (take i ims))) by (unfold data_of; lia). by apply IH.
Qed.

(** ** The structures in memory *)

(** Memory has a [struct blob_info] at [b]. *)
Definition info_bytes (start offset data_size : Z) : list Z := le 8 start ++ le 4 offset ++ le 4 data_size ++ le 4 24 ++ [0; 0; 0; 0].

Lemma ldn_first n v c : ldn n (le n v ++ c) 0 = v mod 256 ^ Z.of_nat n.
Proof. exact (ldn_field n [] v c). Qed.

Lemma load_struct m a n pre v post : holds m a (pre ++ le n v ++ post) -> 0 <= v < 256 ^ Z.of_nat n ->
  load_le n (a + len pre) m = (Ret v, m).
Proof.
  intros H Hv. rewrite (load_field _ _ _ _ _ H) by (rewrite !length_app, length_le; lia). rewrite ldn_field. by rewrite Z.mod_small.
Qed.

Lemma blob_header_run m b s o d : holds m b (info_bytes s o d) -> b <> 0 -> s <> 0 -> 0 <= s -> 0 <= o < 2 ^ 32 -> s + o < 2 ^ 64 ->
  blob_header b m = (Ret (s + o), m).
Proof.
  intros H Hb Hs Hs0 Ho Hso. unfold blob_header, start, offset. apply Z.eqb_neq in Hb, Hs. rewrite Hb. cbn [fail_if]. rewrite bind_ret_l.
  pose proof (load_struct m b 8 [] s _ H ltac:(lia)) as E1. rewrite Z.add_0_r in E1. rewrite (bind_run _ _ _ _ _ E1), Hs. cbn [fail_if]. rewrite bind_ret_l.
  pose proof (load_struct m b 4 (le 8 s) o _ H ltac:(lia)) as E2. rewrite length_le in E2. change (Z.of_nat 8) with 8 in E2. rewrite (bind_run _ _ _ _ _ E2).
  unfold ret. do 2 f_equal. apply wrapw_small. unfold in_word. lia.
Qed.

Lemma header_field m h ims o v pre post : holds m h (blob_bytes ims) -> header_bytes ims = pre ++ le 4 v ++ post -> len pre = o -> 0 <= v < 2 ^ 32 ->
  load_le 4 (h + o) m = (Ret v, m).
Proof.
  intros H E <- Hv. unfold blob_bytes in H. rewrite E, <- !app_assoc in H. by apply (load_struct m h 4 pre v _ H).
Qed.

Lemma header_fields m h ims : holds m h (blob_bytes ims) -> total ims < 2 ^ 32 ->
  h_size h m = (Ret (total ims), m) /\ entries_offset h m = (Ret 48, m) /\ num_entries h m = (Ret (len ims), m) /\ h_type h m = (Ret BLOB_UPDATE, m).
Proof.
  intros H Ht. assert (Hn : 0 <= total ims /\ 0 <= len ims < 2 ^ 32) by (unfold total, data_at, sizeof_blob_header, sizeof_image_entry in *; lia).
  unfold h_size, entries_offset, num_entries, h_type. repeat split.
  - eapply (header_field m h ims 20 _ (chars UPDATE_MAGIC ++ le 4 2)); [exact H|unfold header_bytes; rewrite <- !app_assoc; reflexivity|reflexivity|lia].
  - eapply (header_field m h ims 24 _ (chars UPDATE_MAGIC ++ le 4 2 ++ le 4 (total ims))); [exact H|unfold header_bytes; rewrite <- !app_assoc; reflexivity|reflexivity|lia].
  - eapply (header_field m h ims 28 _ (chars UPDATE_MAGIC ++ le 4 2 ++ le 4 (total ims) ++ le 4 sizeof_blob_header)); [exact H|unfold header_bytes; rewrite <- !app_assoc; reflexivity|reflexivity|lia].
  - eapply (header_field m h ims 32 _ (chars UPDATE_MAGIC ++ le 4 2 ++ le 4 (total ims) ++ le 4 sizeof_blob_header ++ le 4 (len ims))); [exact H|unfold header_bytes; rewrite <- !app_assoc; reflexivity|reflexivity|by unfold BLOB_UPDATE].
Qed.

(** ** Reading entries *)

Section Reading.
Variables (m : mem) (b h d : Z) (ims : list image).
Hypotheses (Hb : b <> 0) (Hh : 0 < h) (Hinfo : holds m b (info_bytes h 0 d)) (Hblob : holds m h (blob_bytes ims)).
Hypotheses (Hok : Forall image_ok ims) (Ht : total ims < 2 ^ 32) (Hend : h + total ims < 2 ^ 64).

Lemma blob_run : blob_header b m = (Ret h, m).
Proof using Hb Hh Hinfo Hend. rewrite (blob_header_run m b h 0 d Hinfo) by (unfold total, data_at, sizeof_blob_header, sizeof_image_entry in *; lia). by rewrite Z.add_0_r. Qed.

Lemma get_type_run : tegrabl_blob_get_type b m = (Ret BLOB_UPDATE, m).
Proof using All. unfold tegrabl_blob_get_type. rewrite (bind_run _ _ _ _ _ blob_run). by apply (header_fields m h ims). Qed.

Lemma get_num_entries_run : tegrabl_blob_get_num_entries b m = (Ret (len ims), m).
Proof using All. unfold tegrabl_blob_get_num_entries. rewrite (bind_run _ _ _ _ _ blob_run). by apply (header_fields m h ims). Qed.

Lemma entry_position i : (i < length ims)%nat -> u64 (u64 (h + 48) + sizeof_image_entry * Z.of_nat i) = h + 48 + 120 * Z.of_nat i.
Proof using Hh Hend. intros Hi. unfold total, data_at, sizeof_image_entry, sizeof_blob_header in *. rewrite (wrapw_small 64 (h + 48)) by (unfold in_word; lia). apply wrapw_small. unfold in_word. lia. Qed.

Lemma get_entry_run i : (i < length ims)%nat -> tegrabl_blob_get_entry b (Z.of_nat i) m = (Ret (h + 48 + 120 * Z.of_nat i), m).
Proof using All.
  intros Hi. unfold tegrabl_blob_get_entry. rewrite (bind_run _ _ _ _ _ blob_run). destruct (header_fields m h ims Hblob Ht) as (_ & E1 & _ & E2).
  rewrite (bind_run _ _ _ _ _ E1), (bind_run _ _ _ _ _ E2). unfold entry_at. change (BLOB_UPDATE =? BLOB_UPDATE) with true. cbn match. by rewrite entry_position.
Qed.

Lemma entry_held i im : ims !! i = Some im -> holds m (h + 48 + 120 * Z.of_nat i) (entry_bytes (offset_of ims i) im).
Proof using Hblob Hok.
  intros Hi. unfold blob_bytes in Hblob. apply holds_app in Hblob as [_ Hr]. rewrite length_header in Hr. apply holds_app in Hr as [Htab _].
  exact (holds_entry _ _ _ _ _ _ Hok Htab Hi).
Qed.

Lemma data_held i im : ims !! i = Some im -> holds m (h + offset_of ims i) (im_data im).
Proof using Hblob Hok.
  intros Hi. unfold blob_bytes in Hblob. apply holds_app in Hblob as [_ Hr]. rewrite length_header in Hr. apply holds_app in Hr as [_ Hd].
  rewrite length_table in Hd by done. pose proof (holds_data _ _ _ _ _ Hd Hi) as H. unfold offset_of, data_at, sizeof_blob_header, sizeof_image_entry.
  by replace (h + (48 + 120 * len ims + len (data_of (take i ims)))) with (h + Z.of_nat 48 + 120 * len ims + len (data_of (take i ims))) by lia.
Qed.

Lemma offset_bound i im : ims !! i = Some im -> 0 <= offset_of ims i /\ offset_of ims i + len (im_data im) <= total ims.
Proof using.
  intros Hi. unfold offset_of, total, data_at, sizeof_blob_header, sizeof_image_entry. split; [lia|].
  assert (E : data_of ims = data_of (take i ims) ++ im_data im ++ data_of (drop (S i) ims)).
  { rewrite <- (take_drop_middle ims i im Hi) at 1. unfold data_of. by rewrite map_app, concat_app. }
  rewrite E, !length_app. lia.
Qed.

Lemma get_entry_data_run i im : ims !! i = Some im ->
  tegrabl_blob_get_entry_data b (Z.of_nat i) m = (Ret (h + offset_of ims i, len (im_data im)), m).
Proof using All.
  intros Hi. assert (Hl : (i < length ims)%nat) by (by apply lookup_lt_Some in Hi).
  unfold tegrabl_blob_get_entry_data. rewrite (bind_run _ _ _ _ _ blob_run). destruct (header_fields m h ims Hblob Ht) as (_ & E1 & _ & E2).
  rewrite (bind_run _ _ _ _ _ E1), (bind_run _ _ _ _ _ E2). unfold entry_at. change (BLOB_UPDATE =? BLOB_UPDATE) with true. cbn match.
  rewrite entry_position by done. rewrite (bind_run _ _ _ _ _ get_type_run).
  pose proof (entry_held i im Hi) as He. pose proof (offset_bound i im Hi) as Ho.
  assert (Hn : length (im_name im) = 40%nat) by (eapply Forall_lookup_1 in Hok; [apply Hok|exact Hi]).
  assert (Ep : parse_entry BLOB_UPDATE (h + 48 + 120 * Z.of_nat i) m = (Ret (Some (offset_of ims i, len (im_data im))), m)).
  { unfold entry_bytes in He. pose proof (load_struct _ _ 4 (im_name im) (offset_of ims i) _ He ltac:(lia)) as F1. rewrite Hn in F1.
    rewrite app_assoc in He. pose proof (load_struct _ _ 4 _ (len (im_data im)) _ He ltac:(lia)) as F2. rewrite length_app, Hn, length_le in F2.
    unfold parse_entry. change (BLOB_UPDATE =? BLOB_UPDATE) with true. cbn match. unfold image_offset, image_size.
    rewrite (bind_run _ _ _ _ _ F1). by rewrite (bind_run _ _ _ _ _ F2). }
  rewrite (bind_run _ _ _ _ _ Ep). unfold ret. do 3 f_equal. apply wrapw_small. unfold in_word. lia.
Qed.
End Reading.

(** ** Opening a blob in memory *)

Lemma strncmp_same l : forall m a b n, holds m a l -> holds m b l -> length l = n -> strncmp_loop n a b m = (Ret 0, m).
Proof.
  induction l as [|c l IH]; intros m a b [|n] Ha Hb Hn; try done. apply holds_cons in Ha as [Ea Ha]. apply holds_cons in Hb as [Eb Hb].
  cbn [strncmp_loop]. rewrite (bind_run _ _ _ _ _ (load_run _ _ _ Ea)), (bind_run _ _ _ _ _ (load_run _ _ _ Eb)), Z.eqb_refl. cbn [negb].
  destruct (c =? 0); [done|]. by apply IH; [done|done|injection Hn].
Qed.

Lemma strncmp_first m a b n x y : m !! a = Some x -> m !! b = Some y -> x <> y -> exists d, strncmp_loop (S n) a b m = (Ret d, m) /\ d <> 0.
Proof.
  intros Ea Eb Hxy. cbn [strncmp_loop]. rewrite (bind_run _ _ _ _ _ (load_run _ _ _ Ea)), (bind_run _ _ _ _ _ (load_run _ _ _ Eb)).
  rewrite (proj2 (Z.eqb_neq _ _) Hxy). cbn [negb]. eexists. split; [done|]. by destruct (x <? y).
Qed.

Lemma store_le_run m a n v : mapped m a (Z.of_nat n) -> exists m', store_le n a v m = (Ret tt, m') /\ written m m' a (le n v).
Proof.
  intros Hm. destruct (store_bytes_run (le n v) m a) as (m' & E & H); [by rewrite length_le|]. exists m'. split; [exact E|].
  intros x. rewrite H. done.
Qed.

Section Opening.
Context {inflate_state W H : Type} `{PartitionApi W H} `{HeapApi W}.
Abbreviation host := (@host inflate_state W).
Variables (dma : tegrabl_clib_dma) (lit : string -> Z) (methods : list (@decompressor inflate_state)).
Hypothesis Law : forall f, memset_callback dma = Some f -> engine_fills f.

Definition host_mem (s : host) : mem := d_mem (h_ctx s).
Definition with_mem (m : mem) (s : host) : host :=
  mk_host (mk_contexts m (lzf (h_ctx s)) (strm (h_ctx s)) (done (h_ctx s))) (h_world s).

Lemma host_mem_run {A} (x : M mem A) o m (s : host) : x (host_mem s) = (o, m) -> on_mem x s = (o, with_mem m s).
Proof using. intros E. unfold on_mem, on_ctx, Decompress.on_mem. change (d_mem (h_ctx s)) with (host_mem s). by rewrite E. Qed.
Lemma with_mem_same (s : host) : with_mem (host_mem s) s = s.
Proof using. by destruct s as [[]]. Qed.
Lemma host_mem_read {A} (x : M mem A) o (s : host) : x (host_mem s) = (o, host_mem s) -> on_mem x s = (o, s).
Proof using. intros E. rewrite (host_mem_run _ _ _ _ E). by rewrite with_mem_same. Qed.

(** What memory has to hold: the literals and the blob, and room for the handle. *)
Definition ready (m : mem) (buf b : Z) (ims : list image) : Prop :=
  holds m (lit SIGNED_UPDATE_MAGIC) (chars SIGNED_UPDATE_MAGIC) /\ holds m (lit UPDATE_MAGIC) (chars UPDATE_MAGIC) /\
  holds m buf (blob_bytes ims) /\ mapped m b 24 /\ 0 < b /\ b + 24 <= 2 ^ 64 /\
  (b + 24 <= lit SIGNED_UPDATE_MAGIC \/ lit SIGNED_UPDATE_MAGIC + 20 <= b) /\ (b + 24 <= lit UPDATE_MAGIC \/ lit UPDATE_MAGIC + 16 <= b) /\
  (b + 24 <= buf \/ buf + total ims <= b).

Lemma identify_run m buf b ims : Forall image_ok ims -> total ims < 2 ^ 32 -> ready m buf b ims ->
  exists m', identify lit b buf m = (Ret (total ims), m') /\ written m m' (b + 8) (le 4 0).
Proof using.
  intros Hok Ht (Hs & Hu & Hh & Hm & Hb & _ & As & Au & Ab). unfold identify.
  destruct (strncmp_first m buf (lit SIGNED_UPDATE_MAGIC) 19 78 83) as (d & E & Hd); [|rewrite <- (Z.add_0_r (lit _)); by apply (Hs 0%nat)|done|].
  { rewrite <- (Z.add_0_r buf). by apply (Hh 0%nat). }
  unfold strncmp at 1. change (Z.to_nat SIGNED_UPDATE_MAGIC_SIZE) with 20%nat. rewrite (bind_run _ _ _ _ _ E). apply Z.eqb_neq in Hd. rewrite Hd.
  assert (E2 : strncmp buf (lit UPDATE_MAGIC) UPDATE_MAGIC_SIZE m = (Ret 0, m)).
  { apply (strncmp_same (chars UPDATE_MAGIC)); [|done|done]. unfold blob_bytes, header_bytes in Hh. rewrite <- !app_assoc in Hh. by apply holds_app in Hh as [Hh _]. }
  rewrite (bind_run _ _ _ _ _ E2). change (0 =? 0) with true. cbn match.
  destruct (store_le_run m (b + 8) 4 0) as (m' & Es & Hw); [intros x Hx; apply Hm; lia|]. exists m'. unfold set_offset. rewrite (bind_run _ _ _ _ _ Es). split; [|done].
  destruct (header_fields m' buf ims) as (-> & _); [|done|done]. pose proof (length_blob ims Hok). eapply overwritten_holds; [by eapply written_overwritten|rewrite length_le; lia|done].
Qed.

Lemma init_run part_name (s : host) buf b w ims : Forall image_ok ims -> total ims < 2 ^ 32 -> 0 < buf -> buf < 2 ^ 64 -> ready (host_mem s) buf b ims ->
  heap_malloc sizeof_blob_info (h_world s) = (Ret (Some b), w) ->
  exists s', tegrabl_blob_init dma lit methods part_name buf s = (Ret (0, Some b), s') /\ h_world s' = w /\
    written (host_mem s) (host_mem s') b (info_bytes buf 0 (total ims)).
Proof using Law.
  intros Hok Ht Hbuf Hb64 Hr Em. pose proof Hr as (Hs & Hu & Hh & Hm & Hb & He & As & Au & Ab). unfold tegrabl_blob_init.
  set (s1 := mk_host (h_ctx s) w). assert (Ea : tegrabl_malloc sizeof_blob_info s = (Ret b, s1)).
  { unfold tegrabl_malloc, on_world. unfold bind at 1. by rewrite Em. }
  rewrite (bind_run _ _ _ _ _ Ea). rewrite (proj2 (Z.eqb_neq b 0)) by lia.
  destruct (memset_fills dma (host_mem s) b 0 24) as (m1 & E1 & Fd1); [done|lia|lia|lia|done|].
  assert (Hm1 : forall m, same_extent (host_mem s) m -> mapped m b 24) by (intros m Hx; by eapply mapped_extent).
  apply (fill_written 24) in Fd1. change (u8 0) with 0 in Fd1. pose proof (written_extent _ _ _ _ Fd1) as X1.
  destruct (store_le_run m1 (b + 16) 4 24) as (m2 & E2 & Fd2); [intros x Hx; apply (Hm1 _ X1); lia|].
  pose proof (written_blit _ _ _ _ _ 16 _ Fd1 Fd2 ltac:(cbn; lia)) as W2. pose proof (written_extent _ _ _ _ W2) as X2.
  assert (E12 : on_mem (memset dma b 0 sizeof_blob_info ;;; set_info_mem_size b sizeof_blob_info) s1 = (Ret tt, with_mem m2 s1)).
  { apply host_mem_run. rewrite (bind_run _ _ _ _ _ E1). exact E2. }
  rewrite (bind_run _ _ _ _ _ E12). unfold open_header. rewrite (proj2 (Z.eqb_neq buf 0)) by lia. cbn [negb]. rewrite bind_ret_l. cbn [l_error l_header]. change (negb (0 =? 0)) with false. cbn match.
  pose proof (length_blob ims Hok) as Hlen. pose proof (written_overwritten _ _ _ _ W2) as O2.
  assert (L : len (blit (replicate 24 0) 16 (le 4 24)) = 24) by reflexivity. rewrite L in O2.
  assert (Hr2 : ready m2 buf b ims).
  { split; [eapply overwritten_holds; [exact O2|change (len (chars SIGNED_UPDATE_MAGIC)) with 20; lia|done]|].
    split; [eapply overwritten_holds; [exact O2|change (len (chars UPDATE_MAGIC)) with 16; lia|done]|].
    split; [eapply overwritten_holds; [exact O2|lia|done]|]. split; [by apply Hm1|]. repeat (split; [lia|]). lia. }
  destruct (identify_run m2 buf b ims Hok Ht Hr2) as (m3 & E3 & Fd3).
  rewrite (bind_run _ _ _ _ _ (code_run _ _ _ _ (host_mem_run _ _ _ (with_mem m2 s1) E3))). cbn match.
  rewrite bind_ret_l. cbn [l_error l_header]. change (negb (0 =? 0)) with false. cbn match.
  pose proof (written_blit _ _ _ _ _ 8 _ W2 Fd3 ltac:(cbn; lia)) as W3. pose proof (written_extent _ _ _ _ W3) as X3.
  destruct (store_le_run m3 b 8 buf) as (m4 & E4 & Fd4); [intros x Hx; apply (Hm1 _ X3); lia|]. rewrite <- (Z.add_0_r b) in Fd4 at 1.
  pose proof (written_blit _ _ _ _ _ 0 _ W3 Fd4 ltac:(cbn; lia)) as W4. pose proof (written_extent _ _ _ _ W4) as X4.
  destruct (store_le_run m4 (b + 12) 4 (total ims)) as (m5 & E5 & Fd5); [intros x Hx; apply (Hm1 _ X4); lia|].
  pose proof (written_blit _ _ _ _ _ 12 _ W4 Fd5 ltac:(cbn; lia)) as W5.
  assert (E45 : on_mem (set_start b buf ;;; set_data_mem_size b (total ims)) (with_mem m3 s1) = (Ret tt, with_mem m5 s1)).
  { apply (host_mem_run _ _ m5 (with_mem m3 s1)). unfold set_start. rewrite (bind_run _ _ _ _ _ E4). exact E5. }
  rewrite (bind_run _ _ _ _ _ E45). exists (with_mem m5 s1). split; [done|]. split; [done|]. exact W5.
Qed.
End Opening.

(** C5.  A blob put together from images and opened in memory is read back: its type
    and number of entries are those of its header, entry [i] is where the name of
    image [i] is, and the address and size given for it are those of its data.
    Opening writes the handle only. *)
Theorem blob_round_trip {inflate_state W H} `{PartitionApi W H} `{HeapApi W} dma lit (methods : list (@decompressor inflate_state))
    part_name (s : @host inflate_state W) buf b w ims :
  (forall f, memset_callback dma = Some f -> engine_fills f) ->
  Forall image_ok ims -> total ims < 2 ^ 32 -> 0 < buf -> buf + total ims < 2 ^ 64 -> ready lit (host_mem s) buf b ims ->
  heap_malloc sizeof_blob_info (h_world s) = (Ret (Some b), w) ->
  exists s', tegrabl_blob_init dma lit methods part_name buf s = (Ret (0, Some b), s') /\
    let m := host_mem s' in
    overwritten (host_mem s) m b 24 /\
    tegrabl_blob_get_type b m = (Ret BLOB_UPDATE, m) /\ tegrabl_blob_get_num_entries b m = (Ret (len ims), m) /\
    forall i im, ims !! i = Some im -> exists e a,
      tegrabl_blob_get_entry b (Z.of_nat i) m = (Ret e, m) /\ holds m e (im_name im) /\
      tegrabl_blob_get_entry_data b (Z.of_nat i) m = (Ret (a, len (im_data im)), m) /\ holds m a (im_data im).
Proof.
  intros Law Hok Ht Hbuf Hend Hr Em. pose proof Hr as (Hs & Hu & Hh & Hm & Hb & He & As & Au & Ab).
  assert (0 <= total ims) by (unfold total, data_at, sizeof_blob_header, sizeof_image_entry; lia).
  destruct (init_run dma lit methods Law part_name s buf b w ims Hok Ht Hbuf ltac:(lia) Hr Em) as (s' & Ei & _ & Hw). exists s'. split; [done|]. cbn zeta.
  pose proof (written_holds _ _ _ _ Hw) as Hinfo. pose proof (written_overwritten _ _ _ _ Hw) as Ho. change (len (info_bytes buf 0 (total ims))) with 24 in Ho.
  assert (Hblob : holds (host_mem s') buf (blob_bytes ims)) by (eapply overwritten_holds; [exact Ho|rewrite length_blob by done; lia|done]).
  assert (Hb0 : b <> 0) by lia.
  split; [done|]. split; [by apply (get_type_run _ _ _ _ _ Hb0 Hbuf Hinfo Hblob Hok Ht Hend)|]. split; [by apply (get_num_entries_run _ _ _ _ _ Hb0 Hbuf Hinfo Hblob Hok Ht Hend)|].
  intros i im Hi. exists (buf + 48 + 120 * Z.of_nat i), (buf + offset_of ims i). split; [|split; [|split]].
  - apply (get_entry_run _ _ _ _ _ Hb0 Hbuf Hinfo Hblob Hok Ht Hend). by apply lookup_lt_Some in Hi.
  - pose proof (entry_held _ _ _ Hblob Hok i im Hi) as He'. unfold entry_bytes in He'. by apply holds_app in He' as [He' _].
  - by apply (get_entry_data_run _ _ _ _ _ Hb0 Hbuf Hinfo Hblob Hok Ht Hend).
  - by apply (data_held _ _ _ Hblob Hok).
Qed.

(** Two images; the heap gives address 64. *)
Definition sample_images : list image :=
  [mk_image (chars "mb2" ++ repeat 0 37) 1 0 (repeat 0 64) [1; 2; 3; 4; 5];
   mk_image (chars "BCT" ++ repeat 0 37) 1 2 (repeat 0 64) [9; 8; 7]].
Definition blob_memory : mem :=
  ranges_memory [(16, chars SIGNED_UPDATE_MAGIC); (40, chars UPDATE_MAGIC); (64, repeat 7 24); (4096, blob_bytes sample_images)].
#[local] Instance no_partitions : PartitionApi unit unit :=
  {| partition_open _ := err 1; partition_seek p _ _ := ret p; partition_read p n := ret (repeat 0 (Z.to_nat n), p);
     partition_write p _ := ret p; partition_erase _ _ := ret tt; partition_storage_type _ := 0 |}.
#[local] Instance heap_at_64 : HeapApi unit := {| heap_malloc _ := ret (Some 64); heap_free _ := ret tt |}.
Definition at_text (s : string) : Z := if String.eqb s SIGNED_UPDATE_MAGIC then 16 else 40.
Definition blob_host : @host unit unit :=
  mk_host (mk_contexts blob_memory (mk_lzf 0 0 0 false 0 0 0 0 0 0) (mk_stream 0 0 0 0 tt) false) tt.

Lemma blob_round_trip_witness :
  exists s', tegrabl_blob_init (mk_dma None 0 None 0) at_text [] [] 4096 blob_host = (Ret (0, Some 64), s') /\
    let m := host_mem s' in
    overwritten blob_memory m 64 24 /\
    tegrabl_blob_get_type 64 m = (Ret BLOB_UPDATE, m) /\ tegrabl_blob_get_num_entries 64 m = (Ret 2, m) /\
    forall i im, sample_images !! i = Some im -> exists e a,
      tegrabl_blob_get_entry 64 (Z.of_nat i) m = (Ret e, m) /\ holds m e (im_name im) /\
      tegrabl_blob_get_entry_data 64 (Z.of_nat i) m = (Ret (a, len (im_data im)), m) /\ holds m a (im_data im).
Proof.
  apply (blob_round_trip (mk_dma None 0 None 0) at_text [] [] blob_host 4096 64 tt sample_images).
  - discriminate.
  - repeat constructor.
  - vm_compute. reflexivity.
  - lia.
  - vm_compute. reflexivity.
  - split; [apply ranges_hold; [reflexivity|in_ranges]|]. split; [apply ranges_hold; [reflexivity|in_ranges]|].
    split; [apply ranges_hold; [reflexivity|in_ranges]|]. split; [apply ranges_mapped; reflexivity|].
    split; [lia|]. split; [lia|]. split; [right; discriminate|]. split; [right; discriminate|]. left. discriminate.
  - reflexivity.
Defined.

(** ** The size of a blob

    The function takes the handle for the header: it reads the padding that ends the
    handle, zero since the handle was cleared. *)
Lemma get_size_run m b s o d : holds m b (info_bytes s o d) -> tegrabl_blob_get_size b m = (Ret 0, m).
Proof. intros Hi. apply (load_struct m b 4 (le 8 s ++ le 4 o ++ le 4 d ++ le 4 24) 0 []); [exact Hi|lia]. Qed.

(** ** Decompression

    The header is copied in front of the output, but the size given for the output
    is that of both: what does not fit behind the header is written past the end of
    the block.  Here 42 bytes behind a header of 48, in a block of 60. *)
Definition packed_blob : list Z :=
  chars UPDATE_MAGIC ++ le 4 2 ++ le 4 (48 + len sized_frame) ++ le 4 48 ++ le 4 0 ++ le 4 BLOB_UPDATE ++ le 4 60 ++ repeat 0 8 ++ sized_frame.
#[local] Instance heap_at_8192 : HeapApi bool := {| heap_malloc _ := ret (Some 8192); heap_free _ := ret tt |}.
Definition packed_host : @host unit bool :=
  mk_host (idle (ranges_memory [(4096, packed_blob); (8192, repeat 255 128)])) true.

Example decompressed_blob_overruns :
  let '(o, s') := blob_decompress no_engine 4096 48 (48 + len sized_frame) (mk_decompressor (0x04, 0x22) "lz4" None (lz4_method no_engine) None) packed_host in
  o = Ret (8192, 60) /\ (load_bytes 30 (8192 + 60) (host_mem s')).1 = Ret (drop 12 (DecompressSpec.total two_blocks)).
Proof. vm_compute. auto. Qed.
