(* ===== verification/Nct.v ===== *)
(** * The table of the board (NCT)

    lib/nct/tegrabl_nct.c: loading the table, its items, and the specification of
    the board among them.  Local variables are arrays at given addresses. *)
From Stdlib Require Import Ascii String.
From stdpp Require Import gmap.
From S2P Require Import Prelude Interfaces Errors Clib ClibSpec CString CStringSpec MemSpec Printf Decompress DecompressSpec.
#[local] Open Scope Z_scope.

Definition MODULE : Z := TEGRABL_ERR_NCT.
Definition TEGRABL_ERROR (reason aux : Z) : Z := tegrabl_error_value MODULE aux reason.
Definition SET_HIGHEST_MODULE (e : Z) : Z := tegrabl_err_set_highest_module e MODULE.

Definition NCT_MAGIC_ID : string := "nVCt".
Definition NCT_MAGIC_ID_LEN : Z := 4.
Definition NCT_ENTRY_OFFSET : Z := 0x4000.
Definition MAX_NCT_DATA_SIZE : Z := 1024.
Definition NCT_MAX_SPEC_LENGTH : Z := 64.
Definition NCT_ID_SPEC : Z := 42.
Definition NCT_ID_END : Z := 43.
Definition QUOTE : ascii := ascii_of_nat 34.
Definition NCT_SPEC_ID_NAME : string := String QUOTE ("id" ++ String QUOTE (":" ++ String QUOTE EmptyString)).
Definition NCT_SPEC_CFG_NAME : string := String QUOTE ("config" ++ String QUOTE (":" ++ String QUOTE EmptyString)).

(** [struct nct_entry]: the index, two reserved words, the item and a checksum. *)
Definition sizeof_nct_entry : Z := 1040.
Definition index (entry : Z) : M mem Z := load_le 4 entry.
Definition data (entry : Z) : Z := entry + 12.

(** The static variables, and memory. *)
Record nct := mk_nct { n_mem : mem; tegra_nct_initialized : Z; nct_ptr : Z }.
Definition on_mem {A} (c : M mem A) : M nct A := fun s =>
  let '(o, m) := c (n_mem s) in (o, mk_nct m (tegra_nct_initialized s) (nct_ptr s)).
Definition set_initialized (v : Z) : M nct unit := modify (fun s => mk_nct (n_mem s) v (nct_ptr s)).
Definition set_nct_ptr (p : Z) : M nct unit := modify (fun s => mk_nct (n_mem s) (tegra_nct_initialized s) p).

Section Nct.
Variables (fuel : nat) (dma : tegrabl_clib_dma) (lit : string -> Z).
(** [tegrabl_load_binary] of the partition loader: where the table has been loaded. *)
Variable load_nct : M mem Z.

Definition tegrabl_nct_read_item (id buf : Z) : M nct unit :=
  let! init := gets tegra_nct_initialized in
  fail_if (init =? 0) (TEGRABL_ERROR TEGRABL_ERR_NOT_INITIALIZED 0) ;;;
  fail_if (NCT_ID_END <? id) (TEGRABL_ERROR TEGRABL_ERR_INVALID 1) ;;;
  fail_if (buf =? 0) (TEGRABL_ERROR TEGRABL_ERR_BAD_ADDRESS 2) ;;;
  let! p := gets nct_ptr in
  let entry := p + NCT_ENTRY_OFFSET + id * sizeof_nct_entry in
  let! i := on_mem (index entry) in
  fail_if (negb (id =? i)) (TEGRABL_ERROR TEGRABL_ERR_BAD_PARAMETER 4) ;;;
  on_mem (memcpy dma buf (data entry) MAX_NCT_DATA_SIZE) ;;;
  ret tt.

(** Copies up to the next quotation mark. *)
Fixpoint copy_quoted (fuel : nat) (dst p : Z) : M mem unit :=
  match fuel with
  | O => nofuel
  | S fuel =>
      let! c := load p in
      if negb (c =? 34) then store dst c ;;; copy_quoted fuel (dst + 1) (p + 1) else store dst 0
  end.

(** The text behind the name [key] of the item at [item]. *)
Definition copy_field (key : string) (item dst aux : Z) : M mem unit :=
  let! p := strstr fuel item (lit key) in
  fail_if (p =? 0) (TEGRABL_ERROR TEGRABL_ERR_NOT_FOUND aux) ;;;
  let! n := strlen fuel (lit key) in
  copy_quoted fuel dst (p + n).

(** [item] is the local variable. *)
Definition tegrabl_nct_get_spec (item id config : Z) : M nct unit :=
  fail_if ((id =? 0) || (config =? 0)) (TEGRABL_ERROR TEGRABL_ERR_INVALID 0) ;;;
  tegrabl_nct_read_item NCT_ID_SPEC item ;;;
  on_mem (copy_field NCT_SPEC_CFG_NAME item config 0) ;;;
  on_mem (copy_field NCT_SPEC_ID_NAME item id 1).

Definition tegrabl_nct_init : M nct unit :=
  let! init := gets tegra_nct_initialized in
  if negb (init =? 0) then ret tt
  else
    let! p := map_err SET_HIGHEST_MODULE (on_mem load_nct) in
    set_nct_ptr p ;;;
    let! d := on_mem (memcmp p (lit NCT_MAGIC_ID) NCT_MAGIC_ID_LEN) in
    fail_if (negb (d =? 0)) (TEGRABL_ERROR TEGRABL_ERR_BAD_PARAMETER 0) ;;;
    set_initialized 1.
End Nct.

(** ** What is read *)

Section Reading.
Variables (fuel : nat) (dma : tegrabl_clib_dma) (lit : string -> Z).
Hypothesis Law : forall f, memcpy_callback dma = Some f -> engine_copies f.

Lemma nct_mem_run {A} (x : M mem A) o m s : x (n_mem s) = (o, m) -> on_mem x s = (o, mk_nct m (tegra_nct_initialized s) (nct_ptr s)).
Proof using. intros E. unfold on_mem. by rewrite E. Qed.

Lemma copy_quoted_run l : forall k m d p, holds m p (l ++ [34]) -> Forall (fun c => c <> 34) l -> mapped m d (len l + 1) ->
  d + len l + 1 <= p \/ p + len l + 1 <= d -> (length l < k)%nat ->
  exists m', copy_quoted k d p m = (Ret tt, m') /\ written m m' d (l ++ [0]).
Proof using.
  induction l as [|c l IH]; intros [|k] m d p Hh Hq Hm Ha Hk; try (cbn in Hk; lia); cbn [copy_quoted app List.length] in *; apply holds_cons in Hh as [Ec Hh];
    rewrite (bind_run _ _ _ _ _ (load_run _ _ _ Ec)).
  - change (negb (34 =? 34)) with false. cbn match. rewrite store_run by (apply Hm; lia). eexists. split; [done|].
    intros x. cbn [List.length]. destruct (decide _) as [Hx|Hx]; [replace x with d by lia; by rewrite lookup_insert_eq, Z.sub_diag|]. by rewrite lookup_insert_ne by lia.
  - apply Forall_cons in Hq as [Hc Hq]. rewrite (proj2 (Z.eqb_neq _ _) Hc). cbn [negb]. unfold bind at 1. rewrite store_run by (apply Hm; lia).
    destruct (IH k (<[d := c]> m) (d + 1) (p + 1)) as (m' & E & Hw); [|done| |lia|lia|].
    + eapply overwritten_holds; [apply insert_overwritten|rewrite length_app; cbn; lia|done].
    + intros x Hx. rewrite lookup_insert_ne by lia. apply Hm. lia.
    + exists m'. split; [done|]. by apply written_cons.
Qed.

(** [t] has the field [key] with the value [v], at its first occurrence. *)
Definition has_field (t key v : list Z) : Prop :=
  Forall (fun c => c <> 34 /\ 0 < c < 256) v /\
  exists pre post, t = pre ++ key ++ v ++ [34] ++ post /\ forall j, (j < length pre)%nat -> ~ key `prefix_of` drop j t.

Lemma copy_field_run key t v m item dst aux : has_field t (chars key) v -> key <> EmptyString -> cstr m item t -> cstr m (lit key) (chars key) -> 0 < item ->
  mapped m dst (len v + 1) -> dst + len v + 1 <= item \/ item + len t + 1 <= dst -> (length t + length (chars key) < fuel)%nat -> len t < 2 ^ 31 ->
  exists m', copy_field fuel lit key item dst aux m = (Ret tt, m') /\ written m m' dst (v ++ [0]).
Proof using.
  intros (Hv & pre & post & -> & Hfirst) Hne Ht Hk Hi Hm Ha Hf H31. rewrite !length_app in Hf. unfold copy_field.
  destruct key as [|a key]; [done|]. change (chars (String a key)) with (Z.of_N (N_of_ascii a) :: chars key) in *. set (x := Z.of_N (N_of_ascii a)) in *.
  destruct (load_cons _ _ _ _ Hk) as (El & Hx & _).
  destruct (strstr_run (x :: chars key) _ ltac:(done) m item (lit (String a key)) fuel Ht Hk) as (r & Er & Hr); [rewrite !length_app; lia|].
  assert (Hr' : r = item + len pre).
  { destruct Hr as [(i & Hi' & -> & Hp & Hj)|(-> & Hj)].
    - f_equal. destruct (decide (i < length pre)%nat) as [Hlt|]; [by apply Hfirst in Hlt|]. destruct (decide (length pre < i)%nat) as [Hlt|]; [|lia].
      exfalso. apply (Hj _ Hlt). rewrite drop_app_length. by apply prefix_app_r.
    - exfalso. apply (Hj (length pre)); [rewrite !length_app; cbn [List.length]; lia|]. rewrite drop_app_length. by apply prefix_app_r. }
  assert (Es : strstr fuel item (lit (String a key)) m = (Ret r, m)) by (unfold strstr; rewrite (bind_run _ _ _ _ _ El), Hx; exact Er).
  rewrite (bind_run _ _ _ _ _ Es), Hr'. rewrite (proj2 (Z.eqb_neq _ 0)) by lia. cbn [fail_if]. rewrite bind_ret_l.
  rewrite (bind_run _ _ _ _ _ (strlen_run _ _ _ fuel Hk ltac:(lia) ltac:(rewrite !length_app in H31; lia))).
  assert (Hq : holds m (item + len pre + len (x :: chars key)) (v ++ [34])).
  { apply cstr_holds in Ht. rewrite <- !app_assoc in Ht. apply holds_app in Ht as [_ Ht]. apply holds_app in Ht as [_ Ht]. rewrite app_assoc in Ht. by apply holds_app in Ht as [Ht _]. }
  apply (copy_quoted_run v); [done| |done| |lia].
  - eapply Forall_impl; [exact Hv|]. by intros c [? _].
  - rewrite !length_app in Ha. cbn [List.length] in *. lia.
Qed.
End Reading.

Definition apart_ranges (a n b k : Z) : Prop := a + n <= b \/ b + k <= a.

Lemma read_item_run dma s id buf d r : (forall f, memcpy_callback dma = Some f -> engine_copies f) ->
  tegra_nct_initialized s <> 0 -> 0 <= id <= NCT_ID_END -> 0 < buf -> 0 <= nct_ptr s ->
  let entry := nct_ptr s + NCT_ENTRY_OFFSET + id * sizeof_nct_entry in
  holds (n_mem s) entry (le 4 id ++ r ++ d) -> length r = 8%nat -> len d = MAX_NCT_DATA_SIZE -> mapped (n_mem s) buf MAX_NCT_DATA_SIZE ->
  apart_ranges buf MAX_NCT_DATA_SIZE (entry + 12) MAX_NCT_DATA_SIZE ->
  exists m', tegrabl_nct_read_item dma id buf s = (Ret tt, mk_nct m' (tegra_nct_initialized s) (nct_ptr s)) /\ written (n_mem s) m' buf d.
Proof.
  intros Law Hinit Hid Hbuf Hp entry Hh Hr Hd Hm Ha. unfold tegrabl_nct_read_item. unfold NCT_ID_END, MAX_NCT_DATA_SIZE, NCT_ENTRY_OFFSET, sizeof_nct_entry in *.
  unfold bind at 1. unfold gets at 1. rewrite (proj2 (Z.eqb_neq _ _) Hinit). cbn [fail_if]. rewrite bind_ret_l.
  unfold fail_if at 1. destruct (Z.ltb_spec 43 id); [lia|]. rewrite bind_ret_l. rewrite (proj2 (Z.eqb_neq buf 0)) by lia. cbn [fail_if]. rewrite bind_ret_l.
  unfold bind at 1. unfold gets at 1. cbv zeta. fold entry.
  assert (Ei : index entry (n_mem s) = (Ret id, n_mem s)).
  { unfold index. pose proof (load_field _ _ _ 0 4 Hh) as E. rewrite Z.add_0_r in E. rewrite E by (rewrite length_app, length_le; lia).
    pose proof (ldn_field 4 [] id (r ++ d)) as F. cbn [app List.length] in F. rewrite F. by rewrite Z.mod_small by lia. }
  assert (Es : mk_nct (n_mem s) (tegra_nct_initialized s) (nct_ptr s) = s) by (by destruct s).
  rewrite (bind_run _ _ _ _ _ (nct_mem_run _ _ _ s Ei)), Es, Z.eqb_refl. cbn [negb fail_if]. rewrite bind_ret_l.
  assert (Hdat : holds (n_mem s) (data entry) d).
  { unfold data. rewrite app_assoc in Hh. apply holds_app in Hh as [_ Hh]. rewrite length_app, length_le, Hr in Hh. exact Hh. }
  unfold apart_ranges in Ha. destruct (memcpy_run dma (n_mem s) buf (data entry) 1024 Law) as (m' & Em & Hmv); [lia|unfold data; lia|lia|done| |right; left; unfold apart, data; lia|].
  { rewrite <- Hd. by apply holds_mapped. }
  rewrite (bind_run _ _ _ _ _ (nct_mem_run _ _ _ s Em)). exists m'. split; [done|]. cbn [n_mem].
  intros x. rewrite Hmv, Hd. destruct (decide _) as [Hx|]; [|done]. destruct (lookup_lt_is_Some_2 d (Z.to_nat (x - buf))) as [v Hv]; [lia|]. rewrite Hv. apply Hdat in Hv. rewrite <- Hv. f_equal. lia.
Qed.

(** Reading the specification writes the item, the configuration and the identifier. *)
Lemma get_spec_run fuel dma lit s item id config t rest r cv iv :
  (forall f, memcpy_callback dma = Some f -> engine_copies f) ->
  tegra_nct_initialized s <> 0 -> 0 <= nct_ptr s -> 0 < item -> 0 < id -> 0 < config ->
  let entry := nct_ptr s + NCT_ENTRY_OFFSET + NCT_ID_SPEC * sizeof_nct_entry in
  holds (n_mem s) entry (le 4 NCT_ID_SPEC ++ r ++ (t ++ [0]) ++ rest) -> length r = 8%nat -> len ((t ++ [0]) ++ rest) = MAX_NCT_DATA_SIZE ->
  Forall (fun c => 0 < c < 256) t -> has_field t (chars NCT_SPEC_CFG_NAME) cv -> has_field t (chars NCT_SPEC_ID_NAME) iv ->
  cstr (n_mem s) (lit NCT_SPEC_CFG_NAME) (chars NCT_SPEC_CFG_NAME) -> cstr (n_mem s) (lit NCT_SPEC_ID_NAME) (chars NCT_SPEC_ID_NAME) ->
  mapped (n_mem s) item 1024 -> mapped (n_mem s) config (len cv + 1) -> mapped (n_mem s) id (len iv + 1) ->
  apart_ranges item 1024 (entry + 12) 1024 -> apart_ranges item 1024 (lit NCT_SPEC_CFG_NAME) 11 -> apart_ranges item 1024 (lit NCT_SPEC_ID_NAME) 7 ->
  apart_ranges config (len cv + 1) item 1024 -> apart_ranges config (len cv + 1) (lit NCT_SPEC_ID_NAME) 7 ->
  apart_ranges id (len iv + 1) item 1024 -> apart_ranges id (len iv + 1) config (len cv + 1) ->
  (1100 < fuel)%nat ->
  exists m1 m2 m3, tegrabl_nct_get_spec fuel dma lit item id config s = (Ret tt, mk_nct m3 (tegra_nct_initialized s) (nct_ptr s)) /\
    written (n_mem s) m1 item ((t ++ [0]) ++ rest) /\ written m1 m2 config (cv ++ [0]) /\ written m2 m3 id (iv ++ [0]) /\
    Forall (fun c => 0 < c < 256) cv /\ Forall (fun c => 0 < c < 256) iv.
Proof.
  intros Law Hinit Hp Hi Hid Hc entry He Hr Hd Ht Hcv Hiv Lc Li Mi Mc Md A1 A2 A3 A4 A5 A6 A7 Hf. unfold apart_ranges in *. unfold MAX_NCT_DATA_SIZE in *.
  unfold tegrabl_nct_get_spec. rewrite (proj2 (Z.eqb_neq id 0)), (proj2 (Z.eqb_neq config 0)) by lia. cbn [orb fail_if]. rewrite bind_ret_l.
  destruct (read_item_run dma s NCT_ID_SPEC item ((t ++ [0]) ++ rest) r Law Hinit) as (m1 & E1 & W1); try done; [].
  rewrite (bind_run _ _ _ _ _ E1). pose proof (written_overwritten _ _ _ _ W1) as O1. rewrite Hd in O1.
  pose proof (written_holds _ _ _ _ W1) as Hw. apply holds_app in Hw as [Hw _]. pose proof (holds_cstr _ _ _ Ht Hw) as Ct.
  assert (Lt : len t + 1 <= 1024) by (rewrite !length_app in Hd; cbn [List.length] in Hd; lia).
  assert (Vc : len cv + 11 <= len t /\ Forall (fun c => 0 < c < 256) cv /\ len iv + 7 <= len t /\ Forall (fun c => 0 < c < 256) iv).
  { destruct Hcv as (H1 & pre & post & Eq & _), Hiv as (H2 & pre' & post' & Eq' & _).
    split; [rewrite Eq, !length_app; change (length (chars NCT_SPEC_CFG_NAME)) with 10%nat; cbn [List.length]; lia|]. split; [eapply Forall_impl; [exact H1|by intros ? [_ ?]]|].
    split; [rewrite Eq', !length_app; change (length (chars NCT_SPEC_ID_NAME)) with 6%nat; cbn [List.length]; lia|]. eapply Forall_impl; [exact H2|by intros ? [_ ?]]. }
  destruct Vc as (Lc' & Fc & Li' & Fi).
  assert (Lc1 : cstr m1 (lit NCT_SPEC_CFG_NAME) (chars NCT_SPEC_CFG_NAME)).
  { apply (cstr_ext (n_mem s)); [|done]. change (len (chars NCT_SPEC_CFG_NAME)) with 10. intros x Hx. apply (proj2 O1). lia. }
  destruct (copy_field_run fuel lit NCT_SPEC_CFG_NAME t cv m1 item config 0 Hcv ltac:(done) Ct Lc1 Hi) as (m2 & E2 & W2);
    [by eapply overwritten_mapped|lia|change (length (chars NCT_SPEC_CFG_NAME)) with 10%nat; lia|lia|].
  rewrite (bind_run _ _ _ _ _ (nct_mem_run _ _ m2 (mk_nct m1 _ _) E2)). pose proof (written_overwritten _ _ _ _ W2) as O2. rewrite length_app in O2. cbn [List.length] in O2.
  assert (Ct2 : cstr m2 item t) by (apply (cstr_ext m1); [|done]; intros x Hx; apply (proj2 O2); lia).
  assert (Li2 : cstr m2 (lit NCT_SPEC_ID_NAME) (chars NCT_SPEC_ID_NAME)).
  { apply (cstr_ext (n_mem s)); [|done]. change (len (chars NCT_SPEC_ID_NAME)) with 6. intros x Hx. rewrite (proj2 O2) by lia. apply (proj2 O1). lia. }
  destruct (copy_field_run fuel lit NCT_SPEC_ID_NAME t iv m2 item id 1 Hiv ltac:(done) Ct2 Li2 Hi) as (m3 & E3 & W3);
    [eapply overwritten_mapped; [exact O2|]; by eapply overwritten_mapped|lia|change (length (chars NCT_SPEC_ID_NAME)) with 6%nat; lia|lia|].
  exists m1, m2, m3. by rewrite (nct_mem_run _ _ m3 (mk_nct m2 _ _) E3).
Qed.

(** C6.  When the item with the specification of the board has a configuration and an
    identifier, [tegrabl_nct_get_spec] leaves both, as strings, in the buffers of
    the caller, and changes nothing else but its local item. *)
Theorem nct_spec_read fuel dma lit s item id config t rest r cv iv :
  (forall f, memcpy_callback dma = Some f -> engine_copies f) ->
  tegra_nct_initialized s <> 0 -> 0 <= nct_ptr s -> 0 < item -> 0 < id -> 0 < config ->
  let entry := nct_ptr s + NCT_ENTRY_OFFSET + NCT_ID_SPEC * sizeof_nct_entry in
  holds (n_mem s) entry (le 4 NCT_ID_SPEC ++ r ++ (t ++ [0]) ++ rest) -> length r = 8%nat -> len ((t ++ [0]) ++ rest) = MAX_NCT_DATA_SIZE ->
  Forall (fun c => 0 < c < 256) t -> has_field t (chars NCT_SPEC_CFG_NAME) cv -> has_field t (chars NCT_SPEC_ID_NAME) iv ->
  cstr (n_mem s) (lit NCT_SPEC_CFG_NAME) (chars NCT_SPEC_CFG_NAME) -> cstr (n_mem s) (lit NCT_SPEC_ID_NAME) (chars NCT_SPEC_ID_NAME) ->
  mapped (n_mem s) item 1024 -> mapped (n_mem s) config (len cv + 1) -> mapped (n_mem s) id (len iv + 1) ->
  apart_ranges item 1024 (entry + 12) 1024 -> apart_ranges item 1024 (lit NCT_SPEC_CFG_NAME) 11 -> apart_ranges item 1024 (lit NCT_SPEC_ID_NAME) 7 ->
  apart_ranges config (len cv + 1) item 1024 -> apart_ranges config (len cv + 1) (lit NCT_SPEC_ID_NAME) 7 ->
  apart_ranges id (len iv + 1) item 1024 -> apart_ranges id (len iv + 1) config (len cv + 1) ->
  (1100 < fuel)%nat ->
  exists s', tegrabl_nct_get_spec fuel dma lit item id config s = (Ret tt, s') /\
    cstr (n_mem s') config cv /\ cstr (n_mem s') id iv /\
    forall x, ~ item <= x < item + 1024 -> ~ config <= x < config + (len cv + 1) -> ~ id <= x < id + (len iv + 1) -> n_mem s' !! x = n_mem s !! x.
Proof.
  intros Law Hinit Hp Hi Hid Hc entry He Hr Hd Ht Hcv Hiv Lc Li Mi Mc Md A1 A2 A3 A4 A5 A6 A7 Hf.
  destruct (get_spec_run fuel dma lit s item id config t rest r cv iv Law) as (m1 & m2 & m3 & E & W1 & W2 & W3 & Fc & Fi); try done; [].
  pose proof (written_overwritten _ _ _ _ W1) as O1. pose proof (written_overwritten _ _ _ _ W2) as O2. pose proof (written_overwritten _ _ _ _ W3) as O3.
  rewrite Hd in O1. rewrite length_app in O2, O3. cbn [List.length] in O2, O3. unfold apart_ranges, MAX_NCT_DATA_SIZE in *.
  eexists. split; [exact E|]. cbn [n_mem]. split; [|split].
  - apply (cstr_ext m2); [intros x Hx; apply (proj2 O3); lia|]. by apply (written_cstr m1).
  - by apply (written_cstr m2).
  - intros x H1 H2 H3. rewrite (proj2 O3), (proj2 O2) by lia. apply (proj2 O1). lia.
Qed.

(** ** A table *)

Definition has_field_b (t pre key v post : list Z) : bool :=
  forallb (fun c => negb (c =? 34) && (0 <? c) && (c <? 256)) v && bool_decide (t = pre ++ key ++ v ++ [34] ++ post) &&
  forallb (fun j => negb (bool_decide (key `prefix_of` drop j t))) (seq 0 (length pre)).
Lemma has_field_check t pre key v post : has_field_b t pre key v post = true -> has_field t key v.
Proof.
  intros H. apply andb_prop in H as [H H3]. apply andb_prop in H as [H1 H2]. apply bool_decide_eq_true in H2. split.
  - apply Forall_forall. intros c Hc. rewrite forallb_forall in H1. apply list_elem_of_In, H1 in Hc. lia.
  - exists pre, post. split; [done|]. intros j Hj Hp. rewrite forallb_forall in H3.
    specialize (H3 j ltac:(apply in_seq; lia)). by rewrite bool_decide_eq_true_2 in H3.
Qed.

Definition spec_text : list Z :=
  [123] ++ chars NCT_SPEC_ID_NAME ++ chars "2888-0001" ++ [34; 44] ++ chars NCT_SPEC_CFG_NAME ++ chars "B01" ++ [34; 125].
Definition spec_rest : list Z := repeat 0 (1023 - length spec_text).
Definition nct_memory : nct :=
  mk_nct (ranges_memory [(100, chars NCT_SPEC_CFG_NAME ++ [0]); (200, chars NCT_SPEC_ID_NAME ++ [0]);
    (60064, le 4 NCT_ID_SPEC ++ repeat 0 8 ++ (spec_text ++ [0]) ++ spec_rest); (80000, repeat 7 1024); (90000, repeat 7 64); (90064, repeat 7 64)]) 1 0.
Definition nct_text (s : string) : Z := if String.eqb s NCT_SPEC_CFG_NAME then 100 else 200.

Lemma spec_fields : has_field spec_text (chars NCT_SPEC_CFG_NAME) (chars "B01") /\ has_field spec_text (chars NCT_SPEC_ID_NAME) (chars "2888-0001").
Proof.
  split.
  - apply (has_field_check _ ([123] ++ chars NCT_SPEC_ID_NAME ++ chars "2888-0001" ++ [34; 44]) _ _ [125]). vm_compute. reflexivity.
  - apply (has_field_check _ [123] _ _ ([44] ++ chars NCT_SPEC_CFG_NAME ++ chars "B01" ++ [34; 125])). vm_compute. reflexivity.
Qed.

Lemma nct_spec_read_witness :
  exists s', tegrabl_nct_get_spec 2000 (mk_dma None 0 None 0) nct_text 80000 90064 90000 nct_memory = (Ret tt, s') /\
    cstr (n_mem s') 90000 (chars "B01") /\ cstr (n_mem s') 90064 (chars "2888-0001") /\
    forall x, ~ 80000 <= x < 80000 + 1024 -> ~ 90000 <= x < 90000 + (len (chars "B01") + 1) -> ~ 90064 <= x < 90064 + (len (chars "2888-0001") + 1) ->
      n_mem s' !! x = n_mem nct_memory !! x.
Proof.
  apply (nct_spec_read 2000 (mk_dma None 0 None 0) nct_text nct_memory 80000 90064 90000 spec_text spec_rest (repeat 0 8) (chars "B01") (chars "2888-0001")).
  - discriminate.
  - discriminate.
  - discriminate.
  - lia.
  - lia.
  - lia.
  - apply ranges_hold; [vm_compute; reflexivity|in_ranges].
  - reflexivity.
  - vm_compute. reflexivity.
  - repeat constructor.
  - apply spec_fields.
  - apply spec_fields.
  - apply ranges_cstr; [vm_compute; reflexivity|in_ranges|vm_compute; reflexivity].
  - apply ranges_cstr; [vm_compute; reflexivity|in_ranges|vm_compute; reflexivity].
  - apply ranges_mapped. vm_compute. reflexivity.
  - apply ranges_mapped. vm_compute. reflexivity.
  - apply ranges_mapped. vm_compute. reflexivity.
  - right. vm_compute. discriminate.
  - right. vm_compute. discriminate.
  - right. vm_compute. discriminate.
  - right. vm_compute. discriminate.
  - right. vm_compute. discriminate.
  - right. vm_compute. discriminate.
  - right. vm_compute. discriminate.
  - lia.
Defined.
