(* ===== verification/BlUpdate.v ===== *)
(** * Updating the bootloader

    lib/bootloader_update/tegrabl_bootloader_update.c: writing the images of a blob to
    their partitions, each behind the one it depends on, to one slot or to all.
    Names are addresses of strings; local and global arrays are at given addresses;
    what is printed is left out. *)
From Stdlib Require Import Ascii String.
From stdpp Require Import gmap.
From S2P Require Import Prelude Interfaces Errors Clib CString Printf Decompress NvBlob Nct.
#[local] Open Scope Z_scope.

Definition MODULE : Z := TEGRABL_ERR_BOOTLOADER_UPDATE.
Definition TEGRABL_ERROR (reason aux : Z) : Z := tegrabl_error_value MODULE aux reason.
Definition SET_HIGHEST_MODULE (e : Z) : Z := tegrabl_err_set_highest_module e MODULE.

Definition GPT_PART_NAME_LEN : Z := 36.
Definition BR_BCT_PARTITION_NAME : string := "BCT".
Definition MB2_BL_PARTITION_NAME : string := "mb2".
Definition MB1_PARTITION_NAME : string := "mb1".
Definition TEGRABL_BLOCKDEV_MEM_ALIGN_SIZE : Z := 8.
Definition TEGRABL_STORAGE_QSPI_FLASH : Z := 3.

(** The build options CONFIG_ENABLE_QSPI, CONFIG_ENABLE_BLOB_SIGNING, and
    CONFIG_ENABLE_A_B_SLOT with CONFIG_ENABLE_A_B_UPDATE. *)
Record options := mk_options { qspi : bool; blob_signing : bool; a_b : bool }.

(** [struct part_dependency], and the table of them. *)
Definition update_sequence (o : options) : list (string * string) :=
  (BR_BCT_PARTITION_NAME, MB2_BL_PARTITION_NAME) :: (if a_b o then [(MB1_PARTITION_NAME, BR_BCT_PARTITION_NAME)] else []).

(** The text at an address, as the functions behind an interface get it. *)
Fixpoint string_at (fuel : nat) (a : Z) : M mem (list Z) :=
  match fuel with
  | O => nofuel
  | S fuel => let! c := load a in if c =? 0 then ret [] else let! l := string_at fuel (a + 1) in ret (c :: l)
  end.

Section Update.
Context {inflate_state W H : Type} `{PartitionApi W H} `{HeapApi W}.
Abbreviation host := (@host inflate_state W).

(** [struct tegrabl_bl_update_callbacks] *)
Record tegrabl_bl_update_callbacks := mk_callbacks {
  verify_payload : option (Z -> M host unit);
  update_bct : option (Z -> Z -> M host unit);
  get_slot_num : option (M host Z);
  get_slot_via_suffix : option (Z -> M host Z);
  get_slot_suffix : option (Z -> Z -> bool -> M host unit);
  is_ratchet_update_required : option (Z -> M host bool);
  is_always_ab_partition : option (Z -> M host bool);
}.

(** [struct updated_partition]: the address of the node and the name. *)
Record updated_partition := mk_updated { node : Z; name : Z }.

(** The static variables: those of nct.c, and those of this file. *)
Record bl := mk_bl {
  b_host : host;
  b_nct : Z * Z;
  update_slot_suffix : Z;
  callbacks : tegrabl_bl_update_callbacks;
  updated : list updated_partition;
  is_new_bup_checked : bool;
  is_required : bool;
}.

Definition on_host {A} (c : M host A) : M bl A := fun s =>
  let '(o, h) := c (b_host s) in
  (o, mk_bl h (b_nct s) (update_slot_suffix s) (callbacks s) (updated s) (is_new_bup_checked s) (is_required s)).
Definition on_mem {A} (c : M mem A) : M bl A := on_host (NvBlob.on_mem c).
Definition on_world {A} (c : M W A) : M bl A := on_host (NvBlob.on_world c).
Definition on_nct {A} (c : M nct A) : M bl A := fun s =>
  let x := h_ctx (b_host s) in
  let '(o, n) := c (mk_nct (d_mem x) (fst (b_nct s)) (snd (b_nct s))) in
  (o, mk_bl (mk_host (mk_contexts (n_mem n) (lzf x) (strm x) (done x)) (h_world (b_host s))) (tegra_nct_initialized n, nct_ptr n)
        (update_slot_suffix s) (callbacks s) (updated s) (is_new_bup_checked s) (is_required s)).
Definition set_suffix (a : Z) : M bl unit :=
  modify (fun s => mk_bl (b_host s) (b_nct s) a (callbacks s) (updated s) (is_new_bup_checked s) (is_required s)).
Definition set_callbacks (c : tegrabl_bl_update_callbacks) : M bl unit :=
  modify (fun s => mk_bl (b_host s) (b_nct s) (update_slot_suffix s) c (updated s) (is_new_bup_checked s) (is_required s)).
Definition set_updated (l : list updated_partition) : M bl unit :=
  modify (fun s => mk_bl (b_host s) (b_nct s) (update_slot_suffix s) (callbacks s) l (is_new_bup_checked s) (is_required s)).
Definition set_checked (b : bool) : M bl unit :=
  modify (fun s => mk_bl (b_host s) (b_nct s) (update_slot_suffix s) (callbacks s) (updated s) b (is_required s)).
Definition set_required (b : bool) : M bl unit :=
  modify (fun s => mk_bl (b_host s) (b_nct s) (update_slot_suffix s) (callbacks s) (updated s) (is_new_bup_checked s) b).

Variables (fuel : nat) (dma : tegrabl_clib_dma) (lit : string -> Z) (options : options).
Variable methods : list (@decompressor inflate_state).
(** [global_nct_spec], and the local arrays of [get_spec_info],
    [tegrabl_nct_get_spec], [partition_has_slot] and [write_a_b_partition]. *)
Variables (global_nct_spec id_ config_ item_ partition_name_ full_part_name_ : Z).
(** [tegrabl_memalign] of the allocator; [tegrabl_partition_manager_flush_cache]; the
    fuse. *)
Variable heap_memalign : Z -> Z -> M W (option Z).
Variable partition_manager_flush_cache : M W unit.
Variable fuse_is_nv_production_mode : bool.

Definition tegrabl_bl_update_set_callbacks (cbs : option tegrabl_bl_update_callbacks) : M bl unit :=
  match cbs with None => ret tt | Some c => set_callbacks c end.

(** [!strncmp(a, b, n)] *)
Definition same_name (a b n : Z) : M mem bool := let! d := strncmp a b n in ret (d =? 0).

Fixpoint walk_updated (l : list updated_partition) (part_name : Z) : M mem bool :=
  match l with
  | [] => ret false
  | current :: l => let! same := same_name (name current) part_name GPT_PART_NAME_LEN in if same then ret true else walk_updated l part_name
  end.
Definition is_partition_updated (part_name : Z) : M bl bool := let! l := gets updated in on_mem (walk_updated l part_name).

(** NULL is zero. *)
Fixpoint find_dependency (l : list (string * string)) (part_name : Z) : M mem Z :=
  match l with
  | [] => ret 0
  | (partition, dependency) :: l =>
      let! same := same_name part_name (lit partition) GPT_PART_NAME_LEN in
      if same then ret (lit dependency) else find_dependency l part_name
  end.
Definition get_dependency (part_name : Z) : M mem Z := find_dependency (update_sequence options) part_name.

Definition get_spec_info : M bl unit :=
  let! n := on_mem (strlen fuel global_nct_spec) in
  if negb (n =? 0) then ret tt
  else
    on_nct (tegrabl_nct_get_spec fuel dma lit item_ id_ config_) ;;;
    on_mem (tegrabl_snprintf fuel global_nct_spec NCT_MAX_SPEC_LENGTH (chars "%s.%s") [id_; config_]) ;;;
    ret tt.

Definition is_update_all_slots_required (blob : Z) : M bl bool :=
  let! checked := gets is_new_bup_checked in
  when (negb checked)
    (let! c := gets callbacks in
     match is_ratchet_update_required c with
     | None => set_required false
     | Some f =>
         let! r := code (on_host (f blob)) in
         set_required (match r with inl b => b | inr _ => false end)
     end ;;;
     set_checked true) ;;;
  gets is_required.

Definition get_full_part_name (slot part_name : Z) : M bl unit :=
  let! c := gets callbacks in
  match get_slot_suffix c with None => ret tt | Some f => on_host (f slot part_name false) end.

Definition get_slot_num_ : M bl Z :=
  let! c := gets callbacks in
  match get_slot_num c with None => err (TEGRABL_ERROR TEGRABL_ERR_NOT_SUPPORTED 0) | Some f => on_host f end.

(** The pointer tested is not the one that is called. *)
Definition get_slot_via_suffix_ (suffix : Z) : M bl Z :=
  let! c := gets callbacks in
  match get_slot_suffix c with
  | None => err (TEGRABL_ERROR TEGRABL_ERR_NOT_SUPPORTED 0)
  | Some _ => match get_slot_via_suffix c with None => undef | Some f => on_host (f suffix) end
  end.

(** [strncpy(buf, part_name, size - 1); buf[size - 1] = '\0'] *)
Definition copy_name (buf part_name : Z) : M mem unit :=
  strncpy buf part_name (GPT_PART_NAME_LEN - 1) ;;; store (buf + (GPT_PART_NAME_LEN - 1)) 0.

Definition partition_has_slot (part_name : Z) : M bl bool :=
  on_mem (copy_name partition_name_ part_name) ;;;
  get_full_part_name 1 partition_name_ ;;;
  let! text := on_mem (string_at fuel partition_name_) in
  let! r := code (on_world (partition_open text)) in
  ret (match r with inl _ => true | inr _ => false end).

Definition is_always_ab_partition_ (part_name : Z) : M bl bool :=
  let! c := gets callbacks in
  match is_always_ab_partition c with None => err (TEGRABL_ERROR TEGRABL_ERR_NOT_SUPPORTED 0) | Some f => on_host (f part_name) end.

(** Erasing the partition of a flash device in front of a write. *)
Definition erase_flash (part : H) : M bl unit :=
  when (qspi options && (partition_storage_type part =? TEGRABL_STORAGE_QSPI_FLASH))
    (map_err SET_HIGHEST_MODULE (on_world (partition_erase part false))).

Definition write_partition (part_name data size : Z) : M bl unit :=
  let! text := on_mem (string_at fuel part_name) in
  let! part := on_world (partition_open text) in
  erase_flash part ;;;
  let! bct := on_mem (same_name part_name (lit BR_BCT_PARTITION_NAME) 3) in
  let! c := gets callbacks in
  match (if bct then update_bct c else None) with
  | Some f => on_host (f data size)
  | None =>
      let! bytes := on_mem (load_bytes (Z.to_nat size) data) in
      on_world (partition_write part bytes) ;;; ret tt
  end.

(** The slots from [i] on, without [update_slot]. *)
Fixpoint write_slots (n : nat) (i update_slot part_name data size : Z) : M bl unit :=
  match n with
  | O => ret tt
  | S n =>
      when (negb (i =? update_slot))
        (on_mem (copy_name full_part_name_ part_name) ;;;
         get_full_part_name i full_part_name_ ;;;
         write_partition full_part_name_ data size) ;;;
      write_slots n (i + 1) update_slot part_name data size
  end.

Definition write_a_b_partition (part_name data size : Z) : M bl unit :=
  let! suffix := gets update_slot_suffix in
  let! update_slot := get_slot_via_suffix_ suffix in
  let! has_slot := partition_has_slot part_name in
  if negb has_slot then write_partition part_name data size
  else
    on_mem (copy_name full_part_name_ part_name) ;;;
    get_full_part_name update_slot full_part_name_ ;;;
    write_partition full_part_name_ data size ;;;
    let! num_slots := get_slot_num_ in
    if num_slots =? 1 then ret tt
    else
      let! always_ab_update := is_always_ab_partition_ part_name in
      let! update_all_slots := is_update_all_slots_required 0 in
      when (update_all_slots || always_ab_update) (write_slots (Z.to_nat num_slots) 0 update_slot part_name data size).

(** Whether the entry [e] is for this partition and this board. *)
Definition entry_applies (e part_name : Z) : M mem bool :=
  let! same := same_name (partname e) part_name GPT_PART_NAME_LEN in
  if negb same then ret false
  else
    let! n := strlen fuel (spec_info e) in
    let! same := if negb (n =? 0) then same_name (spec_info e) global_nct_spec NCT_MAX_SPEC_LENGTH else ret true in
    if negb same then ret false
    else
      let! mode := op_mode e in
      ret ((mode =? 0) || (u32 (mode - 1) =? (if fuse_is_nv_production_mode then 1 else 0))).

(** The first of [n] entries from [i] on that applies. *)
Fixpoint find_entry (n : nat) (bh i part_name : Z) : M mem (option (Z * Z)) :=
  match n with
  | O => ret None
  | S n =>
      let! e := tegrabl_blob_get_entry bh i in
      let! applies := entry_applies e part_name in
      if applies then ret (Some (i, e)) else find_entry n bh (i + 1) part_name
  end.

(** The buffer to write from: [data], or an aligned copy of it, and what is to be
    freed. *)
Definition align_data (data size : Z) : M bl (Z * option Z) :=
  if Z.land data (TEGRABL_BLOCKDEV_MEM_ALIGN_SIZE - 1) =? 0 then ret (data, None)
  else
    let! a := on_world (heap_memalign TEGRABL_BLOCKDEV_MEM_ALIGN_SIZE size) in
    match a with
    | None => err (TEGRABL_ERROR TEGRABL_ERR_NO_MEMORY 0)
    | Some a => on_mem (memcpy dma a data size) ;;; ret (a, Some a)
    end.

Definition update_partition (bh part_name num_entries : Z) : M bl unit :=
  let! r := code get_spec_info in
  match r with
  | inr _ => ret tt
  | inl _ =>
      let! found := on_mem (find_entry (Z.to_nat num_entries) bh 0 part_name) in
      match found with
      | None => ret tt
      | Some (i, entry) =>
          let! (data, size) := on_mem (tegrabl_blob_get_entry_data bh i) in
          when (qspi options)
            (let! text := on_mem (string_at fuel (partname entry)) in
             let! part := on_world (partition_open text) in
             erase_flash part) ;;;
          let! (data, aligned) := align_data data size in
          let! image_size := on_mem (image_size entry) in
          let! r := code (if a_b options then write_a_b_partition (partname entry) data image_size
                          else write_partition (partname entry) data image_size) in
          match aligned with Some a => on_host (tegrabl_free a) | None => ret tt end ;;;
          match r with inl _ => ret tt | inr e => err e end
      end
  end.

(** [depth] bounds the chain of dependencies. *)
Fixpoint update_partition_recursive (depth : nat) (bh part_name num_entries : Z) : M bl unit :=
  match depth with
  | O => nofuel
  | S depth =>
      let! done := is_partition_updated part_name in
      if done then ret tt
      else
        let! part := on_mem (get_dependency part_name) in
        when (negb (part =? 0)) (update_partition_recursive depth bh part num_entries) ;;;
        update_partition bh part_name num_entries ;;;
        let! new := on_host (tegrabl_malloc 16) in
        fail_if (new =? 0) (TEGRABL_ERROR TEGRABL_ERR_NO_MEMORY 0) ;;;
        let! l := gets updated in
        set_updated (mk_updated new part_name :: l)
  end.

(** The loop over the entries, with its index of eight bits; gives what the last turn
    left in [status]. *)
Fixpoint update_entries (loop : nat) (bh i num_entries status : Z) : M bl Z :=
  match loop with
  | O => nofuel
  | S loop =>
      if i <? num_entries then
        let! r := code (on_mem (tegrabl_blob_get_entry bh i)) in
        match r with
        | inr e => update_entries loop bh (u8 (i + 1)) num_entries e
        | inl entry =>
            update_partition_recursive 3 bh (partname entry) num_entries ;;;
            update_entries loop bh (u8 (i + 1)) num_entries 0
        end
      else ret status
  end.

(** What [goto end] leaves. *)
Definition update_steps (bh buff suffix : Z) : M bl unit :=
  when (blob_signing options)
    (let! c := gets callbacks in
     match verify_payload c with None => ret tt | Some f => on_host (f bh) end) ;;;
  let! r := code (on_mem (tegrabl_blob_get_type bh)) in
  let btype := match r with inl t => t | inr _ => BLOB_UPDATE end in
  if negb (btype =? BLOB_UPDATE) then ret tt
  else
    when (a_b options) (is_update_all_slots_required buff ;;; set_suffix suffix) ;;;
    let! r := code (on_mem (tegrabl_blob_get_num_entries bh)) in
    let! num_entries := match r with inl n => ret n | inr _ => undef end in
    fail_if (num_entries =? 0) (TEGRABL_ERROR TEGRABL_ERR_NOT_FOUND 0) ;;;
    let! status := update_entries (S (Z.to_nat num_entries)) bh 0 num_entries 0 in
    fail_if (negb (status =? 0)) status ;;;
    on_world partition_manager_flush_cache ;;;
    when (a_b options) (set_checked false).

Fixpoint free_updated (l : list updated_partition) : M bl unit :=
  match l with [] => ret tt | u :: l => on_host (tegrabl_free (node u)) ;;; free_updated l end.

Definition tegrabl_check_and_update_bl_payload (buff size suffix : Z) : M bl unit :=
  fail_if (buff =? 0) (TEGRABL_ERROR TEGRABL_ERR_INVALID 0) ;;;
  let! (status, bh) := on_host (tegrabl_blob_init dma lit methods [] buff) in
  if TEGRABL_ERROR_REASON status =? TEGRABL_ERR_INVALID then ret tt
  else
    match bh with
    | None => undef
    | Some bh =>
      if bh =? 0 then (if status =? 0 then ret tt else err status)
      else
        let! n := on_mem (tegrabl_blob_get_size bh) in
        fail_if (size <? n) (TEGRABL_ERROR TEGRABL_ERR_INVALID 0) ;;;
        let! r := code (update_steps bh buff suffix) in
        let! l := gets updated in
        free_updated l ;;;
        set_updated [] ;;;
        match r with inl _ => ret tt | inr e => err e end
    end.
End Update.
