(* ===== verification/BlUpdateSpec.v ===== *)
(** * Updating the bootloader: correctness

    In which order the partitions of a blob are updated, and that each is updated
    once. *)
From Stdlib Require Import Ascii String.
From stdpp Require Import gmap.
From S2P Require Import Prelude Interfaces Errors Clib ClibSpec CString CStringSpec MemSpec Printf PrintfSpec Decompress NvBlob NvBlobSpec Nct BlUpdate.
#[local] Open Scope Z_scope.

(** ** The order

    A partition is the address of its name and the name, at most 36 characters. *)

Section Order.
Variables (lit : string -> Z) (ab : bool).
Abbreviation part := (Z * list Z)%type.

Definition named (s : string) : part := (lit s, chars s).

(** What is to be updated in front of a partition of that name. *)
Definition depends (x : list Z) : option part :=
  if bool_decide (x = chars BR_BCT_PARTITION_NAME) then Some (named MB2_BL_PARTITION_NAME)
  else if ab && bool_decide (x = chars MB1_PARTITION_NAME) then Some (named BR_BCT_PARTITION_NAME)
  else None.

(** The length of the chain of dependencies that begins at a partition. *)
Definition rank (x : list Z) : nat :=
  if bool_decide (x = chars BR_BCT_PARTITION_NAME) then 2
  else if ab && bool_decide (x = chars MB1_PARTITION_NAME) then 3 else 1.

Lemma rank_depends x d : depends x = Some d -> S (rank (snd d)) = rank x.
Proof.
  unfold depends, rank. destruct (bool_decide (x = chars BR_BCT_PARTITION_NAME)); [intros [= <-]; by rewrite andb_false_r|].
  destruct (ab && bool_decide (x = chars MB1_PARTITION_NAME)) eqn:E; [|done]. by intros [= <-].
Qed.
Lemma rank_bound x : (1 <= rank x <= 3)%nat.
Proof. unfold rank. repeat destruct (_ : bool); lia. Qed.

(** What a partition adds to those updated so far: what it depends on, and itself. *)
Fixpoint need (k : nat) (dn : list part) (p : part) : list part :=
  match k with
  | O => []
  | S k =>
      if bool_decide (snd p ∈ map snd dn) then []
      else match depends (snd p) with Some d => need k dn d | None => [] end ++ [p]
  end.

(** The partitions of [ps] behind those of [dn], each with what it depends on. *)
Fixpoint plan (dn ps : list part) : list part :=
  match ps with [] => dn | p :: ps => plan (dn ++ need 3 dn p) ps end.

(** Every partition is in the list once and behind what it depends on. *)
Definition ordered (l : list part) : Prop :=
  NoDup (map snd l) /\
  forall l1 p l2 d, l = l1 ++ p :: l2 -> depends (snd p) = Some d -> snd d ∈ map snd l1.

Lemma ordered_nil : ordered [].
Proof. split; [constructor|]. by intros [|] q l2 d Hl. Qed.

Lemma ordered_snoc l p : ordered l -> snd p ∉ map snd l -> (forall d, depends (snd p) = Some d -> snd d ∈ map snd l) -> ordered (l ++ [p]).
Proof.
  intros [Hn Ho] Hp Hd. split.
  - rewrite map_app. apply NoDup_app. split; [done|]. split; [|apply NoDup_singleton]. by intros x Hx ->%list_elem_of_singleton.
  - intros l1 q l2 d E Ed. destruct l2 as [|r l2 _] using rev_ind.
    + apply app_inj_tail in E as [-> ->]. by apply Hd.
    + rewrite app_comm_cons, app_assoc in E. apply app_inj_tail in E as [-> ->]. by apply (Ho l1 q l2 d).
Qed.

Lemma need_rank k : forall dn p q, q ∈ need k dn p -> (rank (snd q) <= rank (snd p))%nat.
Proof.
  induction k as [|k IH]; intros dn p q H; cbn [need] in H; [by apply elem_of_nil in H|]. destruct (bool_decide _); [by apply elem_of_nil in H|].
  apply elem_of_app in H as [H|H]; [|apply list_elem_of_singleton in H as ->; lia]. destruct (depends (snd p)) as [d|] eqn:Ed; [|by apply elem_of_nil in H].
  apply IH in H. apply rank_depends in Ed. lia.
Qed.

Lemma need_ordered k : forall dn p, ordered dn -> (rank (snd p) <= k)%nat ->
  ordered (dn ++ need k dn p) /\ snd p ∈ map snd (dn ++ need k dn p).
Proof.
  induction k as [|k IH]; intros dn p Ho Hk; [pose proof (rank_bound (snd p)); lia|]. cbn [need]. case_bool_decide as Hin; [by rewrite app_nil_r|].
  rewrite app_assoc. split; [|rewrite map_app; apply elem_of_app; right; by apply list_elem_of_singleton].
  destruct (depends (snd p)) as [d|] eqn:Ed; [|rewrite app_nil_r; by apply ordered_snoc; [done|done|intros d; rewrite Ed]].
  pose proof (rank_depends _ _ Ed) as Er. destruct (IH dn d Ho ltac:(lia)) as [Ho' Hd']. apply ordered_snoc; [done| |intros d' [= <-]%(eq_trans (eq_sym Ed)); done].
  rewrite map_app. intros [H|H]%elem_of_app; [done|]. apply list_elem_of_fmap in H as (q & Eq & H). apply need_rank in H. rewrite <- Eq in H. lia.
Qed.

Lemma plan_extends ps : forall dn, exists l, plan dn ps = dn ++ l.
Proof. induction ps as [|p ps IH]; intros dn; cbn [plan]; [exists []; by rewrite app_nil_r|]. destruct (IH (dn ++ need 3 dn p)) as [l ->]. exists (need 3 dn p ++ l). by rewrite app_assoc. Qed.

Lemma plan_ordered ps : forall dn, ordered dn -> ordered (plan dn ps) /\ forall p, p ∈ ps -> snd p ∈ map snd (plan dn ps).
Proof.
  induction ps as [|p ps IH]; intros dn Ho; cbn [plan]; [split; [done|]; intros p H; by apply elem_of_nil in H|].
  destruct (need_ordered 3 dn p Ho) as [Ho' Hp]; [apply rank_bound|]. destruct (IH _ Ho') as [H1 H2]. split; [done|].
  intros q [->|Hq]%elem_of_cons; [|by apply H2]. destruct (plan_extends ps (dn ++ need 3 dn p)) as [l ->]. rewrite map_app. apply elem_of_app. by left.
Qed.

(** Nothing else is in it. *)
Lemma need_members k : forall dn p q, q ∈ need k dn p -> q = p \/ exists r d, r ∈ need k dn p /\ depends (snd r) = Some d /\ q = d.
Proof.
  induction k as [|k IH]; intros dn p q H; cbn [need] in *; [by apply elem_of_nil in H|]. destruct (bool_decide _); [by apply elem_of_nil in H|].
  apply elem_of_app in H as [H|H]; [|left; by apply list_elem_of_singleton in H]. destruct (depends (snd p)) as [d|] eqn:Ed; [|by apply elem_of_nil in H].
  right. destruct (IH _ _ _ H) as [->|(r & d' & Hr & Ed' & ->)].
  - exists p, d. split; [apply elem_of_app; right; by apply list_elem_of_singleton|done].
  - exists r, d'. split; [apply elem_of_app; by left|done].
Qed.

Lemma plan_members ps : forall dn q, q ∈ plan dn ps -> q ∈ dn \/ q ∈ ps \/ exists r d, r ∈ plan dn ps /\ depends (snd r) = Some d /\ q = d.
Proof.
  induction ps as [|p ps IH]; intros dn q H; cbn [plan] in *; [by left|]. destruct (IH _ _ H) as [H1|[H1|H1]].
  - apply elem_of_app in H1 as [H1|H1]; [by left|]. right. destruct (need_members _ _ _ _ H1) as [->|(r & d & Hr & Ed & ->)]; [left; left|right].
    exists r, d. split; [|done]. destruct (plan_extends ps (dn ++ need 3 dn p)) as [l ->]. apply elem_of_app. left. apply elem_of_app. by right.
  - right. left. by right.
  - by right; right.
Qed.
End Order.

(** ** Names in memory *)

Definition text_chars (l : list Z) : Prop := Forall (fun c => 0 < c < 256) l.

(** [l] is what [strncmp] with [n] looks at from [a] on. *)
Definition ntext (n : nat) (m : mem) (a : Z) (l : list Z) : Prop :=
  (length l < n)%nat /\ holds m a (l ++ [0]) \/ length l = n /\ holds m a l.
Definition cname (m : mem) (a : Z) (l : list Z) : Prop := text_chars l /\ ntext 36 m a l.

Lemma ntext_cons n m a c l : ntext (S n) m a (c :: l) -> m !! a = Some c /\ ntext n m (a + 1) l.
Proof. intros [[H1 H2]|[H1 H2]]; cbn in H1, H2; apply holds_cons in H2 as [H2 H3]; (split; [done|]); [left|right]; (split; [lia|done]). Qed.
Lemma ntext_nil n m a : ntext (S n) m a [] -> m !! a = Some 0.
Proof. intros [[_ H]|[H _]]; [|done]. by apply holds_cons in H as [H _]. Qed.

Lemma strncmp_names n : forall x y m a b, text_chars x -> text_chars y -> ntext n m a x -> ntext n m b y ->
  exists r, strncmp_loop n a b m = (Ret r, m) /\ (r = 0 <-> x = y).
Proof.
  induction n as [|n IH]; intros x y m a b Cx Cy Hx Hy.
  { exists 0. split; [done|]. split; [|done]. intros _. destruct Hx as [[? _]|[Hx _]], Hy as [[? _]|[Hy _]]; try lia. by destruct x, y. }
  assert (Hd : forall v w : Z, m !! a = Some v -> m !! b = Some w -> v <> w -> x <> y -> exists r, strncmp_loop (S n) a b m = (Ret r, m) /\ (r = 0 <-> x = y)).
  { intros v w Ev Ew Hne Hxy. destruct (strncmp_first m a b n v w Ev Ew Hne) as (r & E & Hr). by exists r. }
  destruct x as [|v x], y as [|w y].
  - apply ntext_nil in Hx, Hy. exists 0. cbn [strncmp_loop]. by rewrite (bind_run _ _ _ _ _ (load_run _ _ _ Hx)), (bind_run _ _ _ _ _ (load_run _ _ _ Hy)).
  - apply ntext_nil in Hx. apply ntext_cons in Hy as [Hy _]. apply Forall_cons in Cy as [Cy _]. by apply (Hd 0 w); [done|done|lia|].
  - apply ntext_nil in Hy. apply ntext_cons in Hx as [Hx _]. apply Forall_cons in Cx as [Cx _]. by apply (Hd v 0); [done|done|lia|].
  - apply ntext_cons in Hx as [Ex Hx]. apply ntext_cons in Hy as [Ey Hy]. apply Forall_cons in Cx as [Cv Cx]. apply Forall_cons in Cy as [Cw Cy].
    destruct (decide (v = w)) as [->|Hne]; [|apply (Hd v w); [done|done|done|congruence]].
    destruct (IH x y m (a + 1) (b + 1) Cx Cy Hx Hy) as (r & E & Hr). exists r. split; [|rewrite Hr; split; congruence].
    cbn [strncmp_loop]. rewrite (bind_run _ _ _ _ _ (load_run _ _ _ Ex)), (bind_run _ _ _ _ _ (load_run _ _ _ Ey)), Z.eqb_refl. cbn [negb].
    rewrite (proj2 (Z.eqb_neq w 0)) by lia. exact E.
Qed.

Lemma same_name_run m a b x y : cname m a x -> cname m b y -> same_name a b GPT_PART_NAME_LEN m = (Ret (bool_decide (x = y)), m).
Proof.
  intros [Cx Hx] [Cy Hy]. destruct (strncmp_names 36 x y m a b Cx Cy Hx Hy) as (r & E & Hr). unfold same_name.
  rewrite (bind_run _ _ _ _ _ E). unfold ret. do 2 f_equal. case_bool_decide; destruct (Z.eqb_spec r 0); tauto.
Qed.

(** The name in a field of at least 36 bytes. *)
Fixpoint until_zero (n : nat) (l : list Z) : list Z :=
  match n, l with S n, c :: l => if c =? 0 then [] else c :: until_zero n l | _, _ => [] end.
Definition name_of (field : list Z) : list Z := until_zero 36 field.

Lemma until_zero_ntext n : forall l m a, bytes l -> (n <= length l)%nat -> holds m a l -> text_chars (until_zero n l) /\ ntext n m a (until_zero n l).
Proof.
  induction n as [|n IH]; intros l m a Hb Hl Hh; [split; [constructor|right; split; [done|apply holds_nil]]|].
  destruct l as [|c l]; [cbn in Hl; lia|]. apply Forall_cons in Hb as [Hc Hb]. apply holds_cons in Hh as [Ec Hh]. cbn [until_zero].
  destruct (Z.eqb_spec c 0) as [->|Hc0].
  - split; [constructor|]. left. split; [cbn; lia|]. apply holds_cons. split; [done|apply holds_nil].
  - destruct (IH l m (a + 1) Hb ltac:(cbn in Hl; lia) Hh) as [H1 H2]. split; [constructor; [unfold is_byte in Hc; lia|done]|].
    destruct H2 as [[H2 H3]|[H2 H3]]; [left|right]; (split; [cbn; lia|]); cbn [app]; by apply holds_cons.
Qed.

Lemma name_of_cname m a l : bytes l -> (36 <= length l)%nat -> holds m a l -> cname m a (name_of l).
Proof. apply until_zero_ntext. Qed.

(** The bytes a name takes. *)
Lemma cname_ext m m' a l : (forall y, a <= y < a + Z.min 36 (len l + 1) -> m' !! y = m !! y) -> cname m a l -> cname m' a l.
Proof.
  intros E [C [[H1 H2]|[H1 H2]]]; (split; [done|]); [left|right]; (split; [done|]); (eapply holds_ext; [|exact H2]).
  - rewrite length_app. cbn [List.length]. intros y Hy. apply E. lia.
  - intros y Hy. apply E. lia.
Qed.

(** ** Reading memory *)

Lemma load_reader a : keeps eq (load a).
Proof. intros m. unfold load. by destruct (m !! a). Qed.
#[export] Hint Resolve load_reader : keeps.
Lemma load_bytes_reader n : forall a, keeps eq (load_bytes n a).
Proof. induction n as [|n IH]; intros a; cbn [load_bytes]; keeps_tac. Qed.
#[export] Hint Resolve load_bytes_reader : keeps.
Lemma load_le_reader n a : keeps eq (load_le n a).
Proof. unfold load_le. keeps_tac. Qed.
#[export] Hint Resolve load_le_reader : keeps.
Lemma strncmp_reader n : forall a b, keeps eq (strncmp_loop n a b).
Proof. induction n as [|n IH]; intros a b; cbn [strncmp_loop]; keeps_tac. Qed.
#[export] Hint Resolve strncmp_reader : keeps.
Lemma same_name_reader a b n : keeps eq (same_name a b n).
Proof. unfold same_name, strncmp. keeps_tac. Qed.
#[export] Hint Resolve same_name_reader : keeps.
Lemma string_end_reader n : forall a, keeps eq (string_end n a).
Proof. induction n as [|n IH]; intros a; cbn [string_end]; keeps_tac. Qed.
#[export] Hint Resolve string_end_reader : keeps.
Lemma strlen_reader n a : keeps eq (strlen n a).
Proof. unfold strlen. keeps_tac. Qed.
#[export] Hint Resolve strlen_reader : keeps.
Lemma string_at_reader n : forall a, keeps eq (string_at n a).
Proof. induction n as [|n IH]; intros a; cbn [string_at]; keeps_tac. Qed.
#[export] Hint Resolve string_at_reader : keeps.
Lemma get_entry_reader b i : keeps eq (tegrabl_blob_get_entry b i).
Proof. unfold tegrabl_blob_get_entry, blob_header, start, offset, entries_offset, h_type. keeps_tac. Qed.
#[export] Hint Resolve get_entry_reader : keeps.
Lemma entry_applies_reader fuel g mode e p : keeps eq (entry_applies fuel g mode e p).
Proof. unfold entry_applies, op_mode. keeps_tac. Qed.
#[export] Hint Resolve entry_applies_reader : keeps.
Lemma find_entry_reader fuel g mode n : forall bh i p, keeps eq (find_entry fuel g mode n bh i p).
Proof. induction n as [|n IH]; intros bh i p; cbn [find_entry]; keeps_tac. Qed.
#[export] Hint Resolve find_entry_reader : keeps.

(** ** What an update writes *)

Section Writing.
Variables (D : Z -> Prop) (lo hi : Z).
Abbreviation inside := (contained D True True lo hi).

Lemma inside_range a n : lo <= a -> a + n <= hi -> writes D True lo hi a n.
Proof using. intros H1 H2. right. split; [done|]. split; [done|]. by intros x. Qed.

Lemma inside_fill_bytes n : forall a, lo <= a -> a + Z.of_nat n <= hi -> inside (fun _ => True) (fill_bytes n a 0).
Proof using.
  induction n as [|n IH]; intros a H1 H2; [by apply contained_ret|]. cbn [fill_bytes].
  eapply contained_bind; [apply contained_store; [apply inside_range; lia|unfold is_byte; lia]|]. intros _ _. apply IH; lia.
Qed.

Lemma inside_strncpy n : forall a b, lo <= a -> a + Z.of_nat n <= hi -> inside (fun _ => True) (strncpy_loop n a b).
Proof using.
  induction n as [|n IH]; intros a b H1 H2; [by apply contained_ret|]. cbn [strncpy_loop].
  apply (contained_bind _ _ _ _ _ is_byte); [apply contained_load; by intros x|]. intros v Hv.
  eapply contained_bind; [apply contained_store; [apply inside_range; lia|done]|]. intros _ _.
  destruct (v =? 0); [apply inside_fill_bytes; lia|apply IH; lia].
Qed.

Lemma inside_copy_name buf p : lo <= buf -> buf + GPT_PART_NAME_LEN <= hi -> inside (fun _ => True) (copy_name buf p).
Proof using.
  intros H1 H2. unfold copy_name, strncpy, GPT_PART_NAME_LEN in *.
  apply (contained_bind _ _ _ _ _ (fun _ => True)); [eapply contained_bind; [apply inside_strncpy; lia|]; intros _ _; by apply contained_ret|].
  intros _ _. apply contained_store; [apply inside_range; lia|unfold is_byte; lia].
Qed.

Lemma inside_load_le n a : inside (fun v => 0 <= v) (load_le n a).
Proof using.
  eapply contained_bind; [apply contained_load_bytes; by intros x|]. intros b [_ Hb]. apply contained_ret.
  by apply ldn_range.
Qed.

Lemma inside_fail_if {B} b e (R : B -> Prop) k : (b = false -> inside R (k tt)) -> inside R (bind (fail_if b e) k).
Proof using. intros Hk. destruct b; [by intros m G|by apply Hk]. Qed.

Lemma inside_blob_header b : inside (fun _ => True) (blob_header b).
Proof using.
  unfold blob_header. apply inside_fail_if. intros _. eapply contained_bind; [apply inside_load_le|]. intros s _. apply inside_fail_if. intros _.
  eapply contained_bind; [apply inside_load_le|]. intros o _. by apply contained_ret.
Qed.

(** The size of an entry is that of a word. *)
Lemma inside_entry_data b i : inside (fun r => 0 <= snd r) (tegrabl_blob_get_entry_data b i).
Proof using.
  unfold tegrabl_blob_get_entry_data, tegrabl_blob_get_type. eapply contained_bind; [apply inside_blob_header|]. intros h _.
  eapply contained_bind; [apply inside_load_le|]. intros o _. eapply contained_bind; [apply inside_load_le|]. intros t _.
  destruct (entry_at _ _ _) as [e|]; [|by apply contained_err].
  apply (contained_bind _ _ _ _ _ (fun _ => True)); [eapply contained_bind; [apply inside_blob_header|]; intros h' _; eapply contained_weaken; [apply inside_load_le|done]|].
  intros t' _. apply (contained_bind _ _ _ _ _ (fun r => match r with Some p => 0 <= snd p | None => True end)).
  - unfold parse_entry. destruct (_ =? _); [|destruct (_ =? _)]; [| |by apply contained_ret].
    all: eapply contained_bind; [apply inside_load_le|]; intros u _; eapply contained_bind; [apply inside_load_le|]; intros v Hv; by apply contained_ret.
  - intros [[o' n]|] Hr; [by apply contained_ret|by apply contained_err].
Qed.
End Writing.

(** Texts are bytes, and so is what a byte memory holds. *)
Lemma string_bytes l : text_chars l -> bytes (l ++ [0]).
Proof. intros H. apply Forall_app. split; [eapply Forall_impl; [exact H|]; unfold is_byte; cbn; lia|]. repeat constructor; unfold is_byte; lia. Qed.
Lemma bytes_held D m a l : good D m -> holds m a l -> bytes l.
Proof. intros [_ Hb] Hh. apply Forall_lookup_2. intros i c Hi. eapply Hb, Hh, Hi. Qed.

(** ** What an update leaves alone *)

Definition table_names : list string := [BR_BCT_PARTITION_NAME; MB2_BL_PARTITION_NAME; MB1_PARTITION_NAME].
Lemma bct_in_table : BR_BCT_PARTITION_NAME ∈ table_names.
Proof. set_solver. Qed.
Lemma mb2_in_table : MB2_BL_PARTITION_NAME ∈ table_names.
Proof. set_solver. Qed.
Lemma mb1_in_table : MB1_PARTITION_NAME ∈ table_names.
Proof. set_solver. Qed.

Section Kept.
Context {inflate_state W H : Type} {PA : PartitionApi W H} {HA : HeapApi W}.
Abbreviation host := (@host inflate_state W).
Abbreviation bl := (@bl inflate_state W).
Variables (fuel : nat) (dma : tegrabl_clib_dma) (lit : string -> Z) (o : options).
Variables (global_nct_spec id_ config_ item_ partition_name_ full_part_name_ : Z).
Variables (heap_memalign : Z -> Z -> M W (option Z)) (mode : bool).

(** [P]: where the engine, the callbacks and the heap may write.  [cbs]: the callbacks.
    [l]: the partitions updated so far. *)
Variables (D P : Z -> Prop) (cbs : @tegrabl_bl_update_callbacks inflate_state W).

(** The arrays in which the specification of the board is put together, and all that an
    update may write. *)
Definition spec_arrays (y : Z) : Prop :=
  item_ <= y < item_ + MAX_NCT_DATA_SIZE \/ id_ <= y < id_ + NCT_MAX_SPEC_LENGTH \/ config_ <= y < config_ + NCT_MAX_SPEC_LENGTH \/
  global_nct_spec <= y < global_nct_spec + NCT_MAX_SPEC_LENGTH.
Definition touched (y : Z) : Prop := P y \/ spec_arrays y.

Definition memory (s : bl) : mem := host_mem (b_host s).

(** The item of the table of the board at [p]: a text with a configuration and an
    identifier that together fit into the array of the specification. *)
Definition spec_entry (p : Z) : Z := p + NCT_ENTRY_OFFSET + NCT_ID_SPEC * sizeof_nct_entry.
Record spec_item (m : mem) (p : Z) (t r rest cv iv : list Z) : Prop := {
  si_held : holds m (spec_entry p) (le 4 NCT_ID_SPEC ++ r ++ (t ++ [0]) ++ rest);
  si_size : length r = 8%nat /\ len ((t ++ [0]) ++ rest) = MAX_NCT_DATA_SIZE;
  si_text : text_chars t;
  si_fields : has_field t (chars NCT_SPEC_CFG_NAME) cv /\ has_field t (chars NCT_SPEC_ID_NAME) iv;
  si_fits : len iv + 1 + len cv < NCT_MAX_SPEC_LENGTH;
  si_literals : cstr m (lit NCT_SPEC_CFG_NAME) (chars NCT_SPEC_CFG_NAME) /\ cstr m (lit NCT_SPEC_ID_NAME) (chars NCT_SPEC_ID_NAME);
}.
(** Where the item, the literals and the arrays lie. *)
Record spec_places (p : Z) : Prop := {
  sp_start : 0 <= p /\ 0 < item_ /\ 0 < id_ /\ 0 < config_;
  sp_mapped : forall y, spec_arrays y -> D y;
  sp_item : apart_ranges item_ MAX_NCT_DATA_SIZE (spec_entry p + 12) MAX_NCT_DATA_SIZE /\
    apart_ranges item_ MAX_NCT_DATA_SIZE (lit NCT_SPEC_CFG_NAME) 11 /\ apart_ranges item_ MAX_NCT_DATA_SIZE (lit NCT_SPEC_ID_NAME) 7;
  sp_config : apart_ranges config_ NCT_MAX_SPEC_LENGTH item_ MAX_NCT_DATA_SIZE /\ apart_ranges config_ NCT_MAX_SPEC_LENGTH (lit NCT_SPEC_ID_NAME) 7;
  sp_id : apart_ranges id_ NCT_MAX_SPEC_LENGTH item_ MAX_NCT_DATA_SIZE /\ apart_ranges id_ NCT_MAX_SPEC_LENGTH config_ NCT_MAX_SPEC_LENGTH;
  sp_spec : apart_ranges global_nct_spec NCT_MAX_SPEC_LENGTH id_ NCT_MAX_SPEC_LENGTH /\
    apart_ranges global_nct_spec NCT_MAX_SPEC_LENGTH config_ NCT_MAX_SPEC_LENGTH;
  sp_kept : forall y, spec_entry p <= y < spec_entry p + sizeof_nct_entry \/ lit NCT_SPEC_CFG_NAME <= y < lit NCT_SPEC_CFG_NAME + 11 \/
    lit NCT_SPEC_ID_NAME <= y < lit NCT_SPEC_ID_NAME + 7 -> ~ P y;
}.

(** The specification has been read; or it has not been yet, as at the first update
    after a start, and there is no table of the board, or one with a specification. *)
Definition spec_read (s : bl) : Prop := exists spec, spec <> [] /\ len spec < NCT_MAX_SPEC_LENGTH /\ cstr (memory s) global_nct_spec spec.
Definition spec_unread (s : bl) : Prop := cstr (memory s) global_nct_spec [] /\
  (fst (b_nct s) = 0 \/
   fst (b_nct s) <> 0 /\ spec_places (snd (b_nct s)) /\ exists t r rest cv iv, spec_item (memory s) (snd (b_nct s)) t r rest cv iv).
Definition settled (l : list updated_partition) (s : bl) : Prop := callbacks s = cbs /\ updated s = l /\ (spec_read s \/ spec_unread s).

(** What a function behind an interface does to memory. *)
Definition polite {A} (x : M host A) : Prop := confines host_mem (fun _ => True) D P True (fun _ => True) x.

(** The engine of [memcpy], the callbacks and the heap. *)
Record environment : Prop := {
  env_fuel : (1100 < fuel)%nat;
  env_engine : forall f, memcpy_callback dma = Some f -> engine_contained f /\ engine_copies f;
  env_spec : forall y, global_nct_spec <= y < global_nct_spec + NCT_MAX_SPEC_LENGTH -> ~ P y;
  env_partition_name : forall y, partition_name_ <= y < partition_name_ + GPT_PART_NAME_LEN -> P y;
  env_full_part_name : forall y, full_part_name_ <= y < full_part_name_ + GPT_PART_NAME_LEN -> P y;
  env_memalign : forall n a w w', heap_memalign TEGRABL_BLOCKDEV_MEM_ALIGN_SIZE n w = (Ret (Some a), w') -> forall y, a <= y < a + n -> P y;
  env_update_bct : forall f data size, update_bct cbs = Some f -> polite (f data size);
  env_get_slot_num : forall f, get_slot_num cbs = Some f -> polite f;
  env_get_slot_via_suffix : forall f suffix, get_slot_via_suffix cbs = Some f -> polite (f suffix);
  env_get_slot_suffix : forall f slot buf full, get_slot_suffix cbs = Some f -> polite (f slot buf full);
  env_ratchet : forall f blob, is_ratchet_update_required cbs = Some f -> polite (f blob);
  env_always : forall f name, is_always_ab_partition cbs = Some f -> polite (f name);
}.
Hypothesis Env : environment.

Section Round.
Variable l : list updated_partition.
Abbreviation keeping := (confines memory (settled l) D touched True).

Lemma spec_item_ext p m m' t r rest cv iv : spec_places p -> (forall y, ~ P y -> m' !! y = m !! y) ->
  spec_item m p t r rest cv iv -> spec_item m' p t r rest cv iv.
Proof using.
  intros Hp E [H1 [H2 H2'] H3 H4 H5 [H6 H7]]. pose proof (sp_kept _ Hp) as K. split; [|done..|].
  - eapply holds_ext; [|exact H1]. intros y Hy. apply E, K. left. rewrite !length_app, length_le in Hy. rewrite length_app in H2'.
    rewrite length_app in H2'. unfold MAX_NCT_DATA_SIZE, sizeof_nct_entry in *. lia.
  - split; (eapply cstr_ext; [|eassumption]); intros y Hy; apply E, K; [right; left|right; right];
      [change (len (chars NCT_SPEC_CFG_NAME)) with 10 in Hy|change (len (chars NCT_SPEC_ID_NAME)) with 6 in Hy]; lia.
Qed.

Lemma settled_kept (s s' : bl) : settled l s -> callbacks s' = callbacks s -> updated s' = updated s -> b_nct s' = b_nct s ->
  (forall y, ~ P y -> memory s' !! y = memory s !! y) -> settled l s'.
Proof using Env.
  intros (H1 & H2 & H3) E1 E2 E3 E. split; [congruence|]. split; [congruence|].
  assert (K : forall spec, len spec < NCT_MAX_SPEC_LENGTH -> cstr (memory s) global_nct_spec spec -> cstr (memory s') global_nct_spec spec).
  { intros spec Hl Hc. eapply cstr_ext; [|exact Hc]. intros y Hy. apply E, (env_spec Env). lia. }
  destruct H3 as [(spec & Hne & Hl & Hc)|[Hc Hn]]; [left; exists spec; by auto|right]. split; [by apply K|]. rewrite E3.
  destruct Hn as [?|(Hi & Hp & t & r & rest & cv & iv & Hs)]; [by left|right]. split; [done|]. split; [done|].
  exists t, r, rest, cv, iv. by eapply spec_item_ext.
Qed.

Lemma keeping_host {A} (x : M host A) : polite x -> keeping (fun _ => True) (on_host x).
Proof using Env.
  intros Hx s G HI. destruct (Hx (b_host s) G Logic.I) as (G1 & O1 & _ & _). unfold on_host. destruct (x (b_host s)) as [r h]. cbn in *.
  split; [done|]. split; [intros y Hy; apply O1; intros ?; apply Hy; by left|]. split; [by eapply settled_kept|by destruct r].
Qed.
Lemma keeping_mem {A} lo hi (Q : A -> Prop) x : contained D True True lo hi Q x -> (forall y, lo <= y < hi -> P y) -> keeping Q (on_mem x).
Proof using Env.
  intros Hx HP s G HI. destruct (Hx (memory s) G) as (G1 & O1 & H1). unfold on_mem, on_host, NvBlob.on_mem, on_ctx, Decompress.on_mem.
  change (d_mem (h_ctx (b_host s))) with (memory s). destruct (x (memory s)) as [r m1]. cbn in *.
  assert (O2 : forall y, ~ P y -> m1 !! y = memory s !! y) by (intros y Hy; apply O1; by intros ?%HP).
  split; [done|]. split; [intros y Hy; apply O2; intros ?; apply Hy; by left|]. split; [by eapply settled_kept|by destruct r].
Qed.
Lemma keeping_reader {A} (x : M mem A) : keeps eq x -> keeping (fun _ => True) (on_mem x).
Proof using Env.
  intros Hx s G HI. unfold on_mem, on_host, NvBlob.on_mem, on_ctx, Decompress.on_mem. change (d_mem (h_ctx (b_host s))) with (memory s).
  specialize (Hx (memory s)). destruct (x (memory s)) as [r m1]. cbn in *. subst m1. split; [done|]. split; [done|]. split; [by eapply settled_kept|by destruct r].
Qed.
Lemma polite_world {A} (x : M W A) : polite (NvBlob.on_world x).
Proof using. intros s G _. unfold NvBlob.on_world. destruct (x (h_world s)) as [r w]. cbn. do 3 (split; [done|]). by destruct r. Qed.
Lemma keeping_world {A} (x : M W A) : keeping (fun _ => True) (on_world x).
Proof using Env.
  intros s G HI. unfold on_world, on_host, NvBlob.on_world. destruct (x (h_world (b_host s))) as [r w]. cbn in *.
  split; [done|]. split; [done|]. split; [by eapply settled_kept|by destruct r].
Qed.
Lemma keeping_any {A} (Q : A -> Prop) x : keeping Q x -> keeping (fun _ => True) x.
Proof using. intros Hx. by eapply confines_weaken. Qed.

(** One step of a computation whose results do not matter. *)
Ltac keep_as a := eapply confines_bind; [|intros a _; cbn beta].
Ltac keep := let a := fresh "a" in keep_as a.

Lemma spec_length_run spec s : len spec < NCT_MAX_SPEC_LENGTH -> cstr (memory s) global_nct_spec spec ->
  on_mem (strlen fuel global_nct_spec) s = (Ret (len spec), s).
Proof using Env.
  intros Hl Hs. pose proof (env_fuel Env). unfold NCT_MAX_SPEC_LENGTH in *. unfold on_mem, on_host.
  rewrite (host_mem_read _ _ (b_host s) (strlen_run _ _ _ fuel Hs ltac:(lia) ltac:(lia))). by destruct s.
Qed.

(** Another memory. *)
Definition with_memory (m : mem) (s : bl) : bl :=
  mk_bl (with_mem m (b_host s)) (b_nct s) (update_slot_suffix s) (callbacks s) (updated s) (is_new_bup_checked s) (is_required s).

(** The first reading of the specification. *)
Lemma spec_info_first t r rest cv iv s : good D (memory s) -> cstr (memory s) global_nct_spec [] -> fst (b_nct s) <> 0 -> spec_places (snd (b_nct s)) ->
  spec_item (memory s) (snd (b_nct s)) t r rest cv iv ->
  exists m, get_spec_info fuel dma lit global_nct_spec id_ config_ item_ s = (Ret tt, with_memory m s) /\
    good D m /\ (forall y, ~ spec_arrays y -> m !! y = memory s !! y) /\ cstr m global_nct_spec (iv ++ [46] ++ cv).
Proof using Env.
  intros G He Hinit [(Hp & Hi & Hid & Hc) Hmap (A1 & A2 & A3) (A4 & A5) (A6 & A7) (A8 & A9) Hk] [Hh [Hr Hd] Ht [Fc Fi] Hfit [Lc Li]].
  assert (Hm : forall a n, (forall y, a <= y < a + n -> spec_arrays y) -> mapped (memory s) a n) by (intros a n Ha y Hy; apply (proj1 G), Hmap, Ha, Hy).
  pose proof (env_fuel Env). pose proof (env_engine Env) as Eng. unfold apart_ranges, NCT_MAX_SPEC_LENGTH, MAX_NCT_DATA_SIZE in *.
  destruct (get_spec_run fuel dma lit (mk_nct (memory s) (fst (b_nct s)) (snd (b_nct s))) item_ id_ config_ t rest r cv iv) as (m1 & m2 & m3 & E & W1 & W2 & W3 & Tc & Ti);
    cbn [n_mem tegra_nct_initialized nct_ptr]; try done; try (unfold apart_ranges, spec_entry in *; lia).
  { intros f Hf. by apply Eng. }
  { apply Hm. intros y Hy. unfold spec_arrays, MAX_NCT_DATA_SIZE. lia. }
  { apply Hm. intros y Hy. unfold spec_arrays, NCT_MAX_SPEC_LENGTH. lia. }
  { apply Hm. intros y Hy. unfold spec_arrays, NCT_MAX_SPEC_LENGTH. lia. }
  cbn [n_mem tegra_nct_initialized nct_ptr] in *.
  assert (Hl : forall x : list Z, len (x ++ [0]) = len x + 1) by (intros x; rewrite length_app; cbn [List.length]; lia).
  assert (G1 : good D m1).
  { eapply good_written; [exact G| | |exact W1]; [intros y Hy; apply Hmap; unfold spec_arrays, MAX_NCT_DATA_SIZE; lia|].
    rewrite app_assoc in Hh. apply holds_app in Hh as [_ Hh]. by eapply bytes_held. }
  assert (G2 : good D m2).
  { eapply good_written; [exact G1| | |exact W2]; [rewrite Hl; intros y Hy; apply Hmap; unfold spec_arrays, NCT_MAX_SPEC_LENGTH; lia|by apply string_bytes]. }
  assert (G3 : good D m3).
  { eapply good_written; [exact G2| | |exact W3]; [rewrite Hl; intros y Hy; apply Hmap; unfold spec_arrays, NCT_MAX_SPEC_LENGTH; lia|by apply string_bytes]. }
  pose proof (proj2 (written_overwritten _ _ _ _ W1)) as O1. pose proof (proj2 (written_overwritten _ _ _ _ W2)) as O2. pose proof (proj2 (written_overwritten _ _ _ _ W3)) as O3.
  rewrite Hd in O1. rewrite Hl in O2, O3.
  assert (Cc : cstr m3 config_ cv) by (apply (cstr_ext m2); [intros x Hx; apply O3; lia|by apply (written_cstr m1)]).
  assert (Ci : cstr m3 id_ iv) by by apply (written_cstr m2).
  assert (Hf : formats m3 global_nct_spec (global_nct_spec + 64) fuel (chars "%s.%s") 32 [id_; config_] [iv; [46]; cv]).
  { eapply formats_string; [reflexivity|reflexivity|exact Ci|lia|lia|lia|]. apply formats_char; [lia|lia|].
    eapply formats_string; [reflexivity|reflexivity|exact Cc|lia|lia|lia|]. apply formats_end. }
  assert (Hfm : mapped m3 global_nct_spec 64) by (intros y Hy; apply (proj1 G3), Hmap; unfold spec_arrays, NCT_MAX_SPEC_LENGTH; lia).
  destruct (vsnprintf_run m3 fuel global_nct_spec 64 _ _ _ ltac:(lia) Hfm Hf) as (m4 & E4 & W4).
  assert (Efit : fit (64 - 1) [iv; [46]; cv] = iv ++ [46] ++ cv).
  { cbn [fit]. rewrite (proj2 (Z.leb_le (len iv) _)), (proj2 (Z.ltb_lt 0 (64 - 1))), (proj2 (Z.ltb_lt 0 (64 - 1 - len iv))), (proj2 (Z.leb_le (len [46]) _)), (proj2 (Z.leb_le (len cv) _)) by (cbn [List.length]; lia).
    cbn [andb]. destruct (Z.ltb_spec 0 (64 - 1 - len iv - len [46])); cbn [andb]; [by rewrite app_nil_r|]. destruct cv; [done|cbn [List.length] in *; lia]. }
  rewrite Efit in *. assert (Tall : Forall (fun c => 0 < c < 256) (iv ++ [46] ++ cv)) by (apply Forall_app; split; [done|]; constructor; [lia|done]).
  exists m4. split; [|split; [|split]].
  - unfold get_spec_info. rewrite (bind_run _ _ _ _ _ (spec_length_run [] s ltac:(done) He)). change (negb (len [] =? 0)) with false. cbv beta iota.
    assert (E1 : on_nct (tegrabl_nct_get_spec fuel dma lit item_ id_ config_) s = (Ret tt, with_memory m3 s)).
    { unfold on_nct. change (d_mem (h_ctx (b_host s))) with (memory s). rewrite E. unfold with_memory. by destruct s as [? [] ? ? ? ? ?]. }
    rewrite (bind_run _ _ _ _ _ E1). unfold bind, on_mem, on_host, NCT_MAX_SPEC_LENGTH. change (tegrabl_snprintf fuel) with (tegrabl_vsnprintf fuel).
    rewrite (host_mem_run _ _ m4 (b_host (with_memory m3 s)) E4). done.
  - eapply good_written; [exact G3| | |exact W4].
    + rewrite Hl, !length_app. cbn [List.length]. intros y Hy. apply Hmap. unfold spec_arrays, NCT_MAX_SPEC_LENGTH. lia.
    + by apply string_bytes.
  - intros y Hy. unfold spec_arrays, MAX_NCT_DATA_SIZE, NCT_MAX_SPEC_LENGTH in Hy. pose proof (proj2 (written_overwritten _ _ _ _ W4)) as O4.
    rewrite Hl, !length_app in O4. cbn [List.length] in O4. rewrite O4, O3, O2, O1 by lia. done.
  - by apply (written_cstr m3).
Qed.

Lemma keeping_spec_info : keeping (fun _ => True) (get_spec_info fuel dma lit global_nct_spec id_ config_ item_).
Proof using Env.
  intros s G HI. pose proof HI as (Hcb & Hup & [(spec & Hne & Hl & Hs)|[Hs [Hn|(Hn & Hp & t & r & rest & cv & iv & Hi)]]]).
  - assert (E : get_spec_info fuel dma lit global_nct_spec id_ config_ item_ s = (Ret tt, s)); [|by rewrite E].
    unfold get_spec_info. rewrite (bind_run _ _ _ _ _ (spec_length_run spec s Hl Hs)). by destruct spec.
  - assert (E : exists e, get_spec_info fuel dma lit global_nct_spec id_ config_ item_ s = (Err e, s)); [|by destruct E as [e ->]].
    unfold get_spec_info. rewrite (bind_run _ _ _ _ _ (spec_length_run [] s ltac:(done) Hs)). change (negb (len [] =? 0)) with false. cbv beta iota.
    unfold bind at 1, on_nct, tegrabl_nct_get_spec. destruct s as [[[] ?] [i p]]. cbn in Hn. subst i. destruct (_ || _); by eexists.
  - destruct (spec_info_first t r rest cv iv s G Hs Hn Hp Hi) as (m & -> & G1 & O1 & C1). cbn [fst snd].
    split; [done|]. split; [intros y Hy; apply O1; intros ?; apply Hy; by right|]. split; [|done].
    split; [done|]. split; [done|]. left. exists (iv ++ [46] ++ cv). split; [by destruct iv|]. split; [|done].
    pose proof (si_fits _ _ _ _ _ _ _ Hi). rewrite !length_app. cbn [List.length]. lia.
Qed.

Lemma keeping_callbacks {B} (R : B -> Prop) k : keeping R (k cbs) -> keeping R (bind (gets callbacks) k).
Proof using. intros Hk. apply confines_gets. by intros s (-> & _). Qed.

Lemma keeping_erase part : keeping (fun _ => True) (erase_flash o part).
Proof using Env. unfold erase_flash. apply confines_when. intros _. apply confines_map_err, keeping_world. Qed.

Lemma keeping_write_partition name data size : keeping (fun _ => True) (write_partition fuel lit o name data size).
Proof using Env.
  unfold write_partition. keep; [apply keeping_reader, string_at_reader|]. keep; [apply keeping_world|]. keep; [apply keeping_erase|].
  keep_as bct; [apply keeping_reader, same_name_reader|]. apply keeping_callbacks.
  destruct (if bct then update_bct cbs else None) as [f|] eqn:Ef.
  - apply keeping_host. destruct bct; [by apply (env_update_bct Env)|done].
  - keep; [apply keeping_reader, load_bytes_reader|]. keep; [apply keeping_world|]. by apply confines_ret.
Qed.

Lemma keeping_full_part_name slot buf : keeping (fun _ => True) (get_full_part_name slot buf).
Proof using Env.
  unfold get_full_part_name. apply keeping_callbacks. destruct (get_slot_suffix cbs) as [f|] eqn:Ef; [|by apply confines_ret].
  by apply keeping_host, (env_get_slot_suffix Env).
Qed.
Lemma keeping_copy_full name : keeping (fun _ => True) (on_mem (copy_name full_part_name_ name)).
Proof using Env. eapply keeping_mem; [by apply inside_copy_name|apply (env_full_part_name Env)]. Qed.

Lemma keeping_has_slot name : keeping (fun _ => True) (partition_has_slot fuel partition_name_ name).
Proof using Env.
  unfold partition_has_slot. keep; [eapply keeping_mem; [by apply inside_copy_name|apply (env_partition_name Env)]|]. keep; [apply keeping_full_part_name|].
  keep; [apply keeping_reader, string_at_reader|]. keep; [apply (keeping_any _ _ (confines_code _ _ (keeping_world _)))|]. by apply confines_ret.
Qed.

Lemma keeping_write_slots n : forall i slot name data size, keeping (fun _ => True) (write_slots fuel lit o full_part_name_ n i slot name data size).
Proof using Env.
  induction n as [|n IH]; intros i slot name data size; cbn [write_slots]; [by apply confines_ret|]. keep; [|apply IH].
  apply confines_when. intros _. keep; [apply keeping_copy_full|]. keep; [apply keeping_full_part_name|apply keeping_write_partition].
Qed.

Lemma keeping_all_slots blob : keeping (fun _ => True) (is_update_all_slots_required blob).
Proof using Env.
  unfold is_update_all_slots_required. apply confines_gets. intros s _. keep; [|apply (confines_gets _ _ ret); intros ? _; by apply confines_ret].
  apply confines_when. intros _. apply keeping_callbacks. keep; [|by apply confines_modify].
  destruct (is_ratchet_update_required cbs) as [f|] eqn:Ef; [|by apply confines_modify].
  keep; [apply (keeping_any _ _ (confines_code _ _ (keeping_host _ (env_ratchet Env _ blob Ef))))|]. by apply confines_modify.
Qed.

Lemma keeping_write_a_b name data size : keeping (fun _ => True) (write_a_b_partition fuel lit o partition_name_ full_part_name_ name data size).
Proof using Env.
  unfold write_a_b_partition. apply confines_gets. intros s _. keep.
  { unfold get_slot_via_suffix_. apply keeping_callbacks. destruct (get_slot_suffix cbs); [|apply confines_err].
    destruct (get_slot_via_suffix cbs) as [f|] eqn:Ef; [by apply keeping_host, (env_get_slot_via_suffix Env)|apply confines_undef]. }
  keep; [apply keeping_has_slot|]. destruct (negb _); [apply keeping_write_partition|].
  keep; [apply keeping_copy_full|]. keep; [apply keeping_full_part_name|]. keep; [apply keeping_write_partition|]. keep.
  { unfold get_slot_num_. apply keeping_callbacks. destruct (get_slot_num cbs) as [f|] eqn:Ef; [by apply keeping_host, (env_get_slot_num Env)|apply confines_err]. }
  destruct (_ =? 1); [by apply confines_ret|]. keep.
  { unfold is_always_ab_partition_. apply keeping_callbacks. destruct (is_always_ab_partition cbs) as [f|] eqn:Ef; [by apply keeping_host, (env_always Env)|apply confines_err]. }
  keep; [apply keeping_all_slots|]. apply confines_when. intros _. apply keeping_write_slots.
Qed.

Lemma keeping_align data size : 0 <= size -> keeping (fun _ => True) (align_data dma heap_memalign data size).
Proof using Env.
  intros Hs. unfold align_data. destruct (_ =? 0); [by apply confines_ret|].
  apply (confines_bind (fun r => match r with Some a => forall y, a <= y < a + size -> P y | None => True end)).
  - intros s G HI. destruct (keeping_world (heap_memalign TEGRABL_BLOCKDEV_MEM_ALIGN_SIZE size) s G HI) as (G1 & O1 & I1 & _).
    split; [done|]. split; [done|]. split; [done|]. unfold on_world, on_host, NvBlob.on_world.
    destruct (heap_memalign TEGRABL_BLOCKDEV_MEM_ALIGN_SIZE size (h_world (b_host s))) as [[[a|]| | | |] w] eqn:E; try done. cbn. by apply (env_memalign Env _ _ _ _ E).
  - intros [a|] Ha; [|apply confines_err]. keep; [|by apply confines_ret]. apply (keeping_mem a (a + size)); [|done].
    apply contained_memcpy; [by apply (env_engine Env)|done|apply inside_range; lia|by intros x].
Qed.

(** Updating a partition writes the local arrays, the aligned copy and what the
    callbacks write, and leaves the list of updated partitions alone. *)
Lemma keeping_update_partition bh name n :
  keeping (fun _ => True) (update_partition fuel dma lit o global_nct_spec id_ config_ item_ partition_name_ full_part_name_ heap_memalign mode bh name n).
Proof using Env.
  unfold update_partition. keep_as r; [apply (keeping_any _ _ (confines_code _ _ keeping_spec_info))|]. destruct r; [|by apply confines_ret].
  keep_as e; [apply keeping_reader, find_entry_reader|]. destruct e as [[i entry]|]; [|by apply confines_ret].
  eapply confines_bind; [apply (keeping_mem 0 0); [apply inside_entry_data|lia]|]. intros [data size] Hs. cbn in Hs.
  keep; [apply confines_when; intros _; keep; [apply keeping_reader, string_at_reader|]; keep; [apply keeping_world|apply keeping_erase]|].
  keep_as d; [by apply keeping_align|]. destruct d as [data' aligned]. keep; [apply keeping_reader; apply load_le_reader|].
  keep_as r; [destruct (a_b o); [apply (keeping_any _ _ (confines_code _ _ (keeping_write_a_b _ _ _)))|apply (keeping_any _ _ (confines_code _ _ (keeping_write_partition _ _ _)))]|].
  keep; [destruct aligned; [|by apply (confines_ret (fun _ => True))]; apply keeping_host, polite_world|].
  destruct r; [by apply confines_ret|apply confines_err].
Qed.
End Round.

(** ** The turns of the loop *)

Lemma elem_of_rev {A} (x : A) l : x ∈ rev l <-> x ∈ l.
Proof using. by rewrite !list_elem_of_In, <- in_rev. Qed.

Variables (bh n : Z) (m0 : mem).
Abbreviation update := (update_partition fuel dma lit o global_nct_spec id_ config_ item_ partition_name_ full_part_name_ heap_memalign mode bh).
Abbreviation recursive := (update_partition_recursive fuel dma lit o global_nct_spec id_ config_ item_ partition_name_ full_part_name_ heap_memalign mode).
Abbreviation part := (Z * list Z)%type.


(** A partition is updated and put on the list. *)
Definition apply_step (p : Z) : M bl unit :=
  update p n ;;;
  let! new := on_host (tegrabl_malloc 16) in
  fail_if (new =? 0) (BlUpdate.TEGRABL_ERROR TEGRABL_ERR_NO_MEMORY 0) ;;;
  let! l := gets updated in
  set_updated (mk_updated new p :: l).
Fixpoint apply_steps (ps : list part) : M bl unit :=
  match ps with [] => ret tt | p :: ps => apply_step (fst p) ;;; apply_steps ps end.

Lemma apply_steps_app ps qs s : apply_steps (ps ++ qs) s = (apply_steps ps ;;; apply_steps qs) s.
Proof using.
  revert s. induction ps as [|p ps IH]; intros s; [done|]. cbn [apply_steps app]. unfold bind. by destruct (apply_step (fst p) s) as [[]].
Qed.

(** After the partitions of [dn]. *)
Definition after (dn : list part) (s : bl) : Prop :=
  good D (memory s) /\ (forall y, ~ touched y -> memory s !! y = m0 !! y) /\
  exists l, settled l s /\ map name l = rev (map fst dn).
Definition kept_name (p : part) : Prop :=
  cname m0 (fst p) (snd p) /\ forall y, fst p <= y < fst p + Z.min 36 (len (snd p) + 1) -> ~ touched y.

Lemma kept_now dn s p : after dn s -> kept_name p -> cname (memory s) (fst p) (snd p).
Proof using. intros (_ & Hm & _) [Hc Hp]. eapply cname_ext; [|exact Hc]. intros y Hy. by apply Hm, Hp. Qed.

Lemma step_after dn p s s' : after dn s -> apply_step (fst p) s = (Ret tt, s') -> after (dn ++ [p]) s'.
Proof using Env.
  intros (G & Hm & l & Hl & Hn) E. destruct (keeping_update_partition l bh (fst p) n s G Hl) as (G1 & O1 & I1 & _).
  unfold apply_step, bind in E. destruct (update (fst p) n s) as [[[]| | | |] s1]; try done. cbn [snd] in *.
  unfold on_host, tegrabl_malloc, NvBlob.on_world, bind in E. destruct (heap_malloc 16 (h_world (b_host s1))) as [[a| | | |] w]; try done.
  cbn in E. destruct (default 0 a =? 0); [done|]. injection E as <-.
  split; [done|]. split; [intros y Hy; cbn; etransitivity; [by apply O1|by apply Hm]|].
  destruct I1 as (C1 & U1 & S1). eexists. split; [split; [exact C1|split; [reflexivity|exact S1]]|].
  cbn [map name updated]. rewrite U1, Hn, map_app, rev_app_distr. done.
Qed.

Lemma steps_after ps : forall dn s s', after dn s -> apply_steps ps s = (Ret tt, s') -> after (dn ++ ps) s'.
Proof using Env.
  induction ps as [|p ps IH]; intros dn s s' Ha E; cbn [apply_steps] in E; [injection E as <-; by rewrite app_nil_r|].
  unfold bind in E. destruct (apply_step (fst p) s) as [[[]| | | |] s1] eqn:E1; try done.
  replace (dn ++ p :: ps) with ((dn ++ [p]) ++ ps) by (by rewrite <- app_assoc). eapply IH; [by eapply step_after|exact E].
Qed.

Lemma walk_updated_run m x a l : forall qs, map name l = map fst qs -> (forall q, q ∈ qs -> cname m (fst q) (snd q)) -> cname m a x ->
  walk_updated l a m = (Ret (bool_decide (x ∈ map snd qs)), m).
Proof using.
  induction l as [|u l IH]; intros [|q qs] E Hq Hx; try done. injection E as E1 E2. cbn [walk_updated map].
  rewrite (bind_run _ _ _ _ _ (same_name_run m (name u) a (snd q) x ltac:(rewrite E1; by apply Hq, elem_of_cons; left) Hx)).
  case_bool_decide as Hd; [rewrite bool_decide_eq_true_2; [done|]; subst x; by left|].
  rewrite (IH qs E2) by (try done; intros r Hr; apply Hq; by right). unfold ret. do 2 f_equal. apply bool_decide_ext. rewrite elem_of_cons. split; [by right|]. by intros [->|?].
Qed.

Lemma mem_run {A} (x : M mem A) r (s : bl) : x (memory s) = (r, memory s) -> on_mem x s = (r, s).
Proof using. intros E. unfold on_mem, on_host. rewrite (host_mem_read _ _ (b_host s) E). by destruct s. Qed.

Lemma is_updated_run dn p s : after dn s -> Forall kept_name dn -> kept_name p ->
  is_partition_updated (fst p) s = (Ret (bool_decide (snd p ∈ map snd dn)), s).
Proof using.
  intros Ha Hd Hp. pose proof Ha as (_ & _ & l & (_ & Eu & _) & Hn). unfold is_partition_updated, bind, gets. apply mem_run. rewrite Eu.
  rewrite (walk_updated_run (memory s) (snd p) (fst p) l (rev dn)).
  - unfold ret. do 2 f_equal. apply bool_decide_ext. by rewrite map_rev, elem_of_rev.
  - by rewrite map_rev.
  - intros q Hq. rewrite elem_of_rev in Hq. eapply kept_now; [exact Ha|]. rewrite Forall_forall in Hd. by apply Hd.
  - by eapply kept_now.
Qed.

(** The names of the table. *)
Hypothesis Names : forall x, x ∈ table_names -> lit x <> 0 /\ kept_name (named lit x).

Lemma depends_kept x d : depends lit (a_b o) x = Some d -> fst d <> 0 /\ kept_name d.
Proof using Names.
  unfold depends. destruct (bool_decide _); [intros [= <-]; apply (Names MB2_BL_PARTITION_NAME mb2_in_table)|].
  destruct (_ && _); [intros [= <-]; apply (Names BR_BCT_PARTITION_NAME bct_in_table)|done].
Qed.

Lemma dependency_run dn p s : after dn s -> kept_name p ->
  get_dependency lit o (fst p) (memory s) = (Ret (match depends lit (a_b o) (snd p) with Some d => fst d | None => 0 end), memory s).
Proof using Names.
  intros Ha Hp. pose proof (kept_now _ _ _ Ha Hp) as Cp.
  assert (Hn : forall x, x ∈ table_names -> cname (memory s) (lit x) (chars x)) by (intros x Hx; apply (kept_now dn s (named lit x) Ha), Names, Hx).
  unfold get_dependency, update_sequence, depends. cbn [find_dependency].
  rewrite (bind_run _ _ _ _ _ (same_name_run _ _ _ _ _ Cp (Hn BR_BCT_PARTITION_NAME bct_in_table))). destruct (bool_decide _); [done|].
  destruct (a_b o); [|done]. cbn [find_dependency andb].
  rewrite (bind_run _ _ _ _ _ (same_name_run _ _ _ _ _ Cp (Hn MB1_PARTITION_NAME mb1_in_table))). by destruct (bool_decide _).
Qed.

Lemma need_kept k : forall dn p, kept_name p -> Forall kept_name (need lit (a_b o) k dn p).
Proof using Names.
  induction k as [|k IH]; intros dn p Hp; cbn [need]; [done|]. destruct (bool_decide _); [done|]. apply Forall_app. split; [|by constructor].
  destruct (depends lit (a_b o) (snd p)) as [d|] eqn:Ed; [|done]. by apply IH, (depends_kept _ _ Ed).
Qed.


(** The recursion does what it depends on first, where that is not done yet. *)
Lemma recursive_run k : forall dn p s, after dn s -> Forall kept_name dn -> kept_name p -> (rank (a_b o) (snd p) <= k)%nat ->
  recursive k bh (fst p) n s = apply_steps (need lit (a_b o) k dn p) s.
Proof using Env Names.
  induction k as [|k IH]; intros dn p s Ha Hd Hp Hk; [pose proof (rank_bound (a_b o) (snd p)); lia|]. cbn [update_partition_recursive need].
  rewrite (bind_run _ _ _ _ _ (is_updated_run _ _ _ Ha Hd Hp)). destruct (bool_decide _); [done|].
  rewrite (bind_run _ _ _ _ _ (mem_run _ _ s (dependency_run _ _ _ Ha Hp))). rewrite apply_steps_app.
  destruct (depends lit (a_b o) (snd p)) as [d|] eqn:Ed.
  - destruct (depends_kept _ _ Ed) as [Hd0 Hdk]. pose proof (rank_depends lit _ _ _ Ed) as Hr. rewrite (proj2 (Z.eqb_neq _ _) Hd0). cbn [negb when].
    apply bind_same; [apply IH; (done || lia)|]. intros [] s1 _. exact (eq_sym (bind_unit _ s1)).
  - cbn [apply_steps when negb Z.eqb]. rewrite !bind_ret_l. exact (eq_sym (bind_unit _ s)).
Qed.

(** ** The loop *)

Variables (h d : Z) (ims : list image).
Hypotheses (Hb : bh <> 0) (Hh : 0 < h) (Hinfo : holds m0 bh (info_bytes h 0 d)) (Hblob : holds m0 h (blob_bytes ims)).
Hypotheses (Hok : Forall image_ok ims) (Hnames : Forall (fun im => bytes (im_name im)) ims).
Hypotheses (Ht : total ims < 2 ^ 32) (Hend : h + total ims < 2 ^ 64) (Hn : n = len ims) (Hfew : n <= 255).
Hypotheses (Kinfo : forall y, bh <= y < bh + 24 -> ~ touched y) (Kblob : forall y, h <= y < h + total ims -> ~ touched y).

(** The entries, from entry [i] on, with their names. *)
Fixpoint parts_from (i : nat) (l : list image) : list part :=
  match l with [] => [] | im :: l => (h + 48 + 120 * Z.of_nat i, name_of (im_name im)) :: parts_from (S i) l end.

Lemma length_parts l : forall i, length (parts_from i l) = length l.
Proof using. induction l as [|im l IH]; intros i; [done|]. cbn. by rewrite IH. Qed.

Lemma entry_kept i im : ims !! i = Some im -> kept_name (h + 48 + 120 * Z.of_nat i, name_of (im_name im)).
Proof using Hblob Hok Hnames Kblob.
  intros Hi. pose proof (entry_held _ _ _ Hblob Hok i im Hi) as He. apply holds_app in He as [He _].
  assert (Hl : length (im_name im) = 40%nat) by (eapply Forall_lookup_1 in Hok; [apply Hok|exact Hi]).
  assert (Hc : bytes (im_name im)) by (by eapply Forall_lookup_1 in Hnames).
  split; [apply name_of_cname; [done|lia|done]|]. intros y Hy. cbn [fst snd] in Hy. apply Kblob. apply lookup_lt_Some in Hi.
  unfold total, data_at, sizeof_blob_header, sizeof_image_entry. lia.
Qed.

Lemma blob_stays dn s : after dn s -> holds (memory s) bh (info_bytes h 0 d) /\ holds (memory s) h (blob_bytes ims).
Proof using Hinfo Hblob Hok Kinfo Kblob.
  intros (_ & Hm & _). split; (eapply holds_ext; [|eassumption]); intros y Hy; apply Hm; [by apply Kinfo|apply Kblob].
  by rewrite length_blob in Hy.
Qed.

Lemma entries_run l : forall i dn s, drop i ims = l -> after dn s -> Forall kept_name dn ->
  exists ps, plan lit (a_b o) dn (parts_from i l) = dn ++ ps /\
    update_entries fuel dma lit o global_nct_spec id_ config_ item_ partition_name_ full_part_name_ heap_memalign mode (S (length l)) bh (Z.of_nat i) n 0 s =
    (apply_steps ps ;;; ret 0) s.
Proof using All.
  induction l as [|im l IH]; intros i dn s El Ha Hd; cbn [update_entries parts_from plan].
  - exists []. split; [by rewrite app_nil_r|]. assert (length ims - i = 0)%nat by (rewrite <- length_drop, El; done).
    destruct (Z.ltb_spec (Z.of_nat i) n); [lia|done].
  - assert (Hi : ims !! i = Some im) by (rewrite <- (Nat.add_0_r i), <- lookup_drop, El; done). pose proof (lookup_lt_Some _ _ _ Hi) as Hlt.
    destruct (Z.ltb_spec (Z.of_nat i) n); [|lia]. destruct (blob_stays _ _ Ha) as [Si Sb].
    pose proof (get_entry_run _ _ _ _ _ Hb Hh Si Sb Hok Ht Hend i Hlt) as Eg. rewrite (bind_run _ _ _ _ _ (code_run _ _ _ _ (mem_run _ _ s Eg))).
    pose proof (entry_kept i im Hi) as Hk. set (p := (h + 48 + 120 * Z.of_nat i, name_of (im_name im))) in *.
    assert (Er : recursive 3 bh (partname (fst p)) n s = apply_steps (need lit (a_b o) 3 dn p) s) by (apply recursive_run; try done; apply rank_bound).
    assert (Hd' : Forall kept_name (dn ++ need lit (a_b o) 3 dn p)) by (apply Forall_app; split; [done|by apply need_kept]).
    assert (El' : drop (S i) ims = l) by (rewrite <- Nat.add_1_r, <- drop_drop, El; done).
    assert (Ei : u8 (Z.of_nat i + 1) = Z.of_nat (S i)) by (rewrite wrapw_small; unfold in_word; lia).
    destruct (plan_extends lit (a_b o) (parts_from (S i) l) (dn ++ need lit (a_b o) 3 dn p)) as [ps Eps].
    exists (need lit (a_b o) 3 dn p ++ ps). split; [by rewrite app_assoc|].
    transitivity ((apply_steps (need lit (a_b o) 3 dn p) ;;; (apply_steps ps ;;; ret 0)) s).
    + apply bind_same; [exact Er|]. intros [] s1 E1. rewrite Ei.
      destruct (IH (S i) _ s1 El' (steps_after _ _ _ _ Ha E1) Hd') as (ps' & Eps' & E). rewrite Eps in Eps'. apply app_inv_head in Eps' as <-. exact E.
    + unfold bind. rewrite apply_steps_app. unfold bind. by destruct (apply_steps (need lit (a_b o) 3 dn p) s) as [[[]| | | |] s1].
Qed.
End Kept.

(** ** A whole update *)

Section Whole.
Context {inflate_state W H : Type} {PA : PartitionApi W H} {HA : HeapApi W}.
Abbreviation bl := (@bl inflate_state W).

(** What is done in front of the entries: the payload is verified, it is found out
    whether all slots are to be updated, and the slot is stored. *)
Definition prepare (o : options) (bh buff suffix : Z) : M bl unit :=
  when (blob_signing o) (let! c := gets callbacks in match verify_payload c with None => ret tt | Some f => on_host (f bh) end) ;;;
  when (a_b o) (is_update_all_slots_required buff ;;; set_suffix suffix).
(** And behind them. *)
Definition finish (flush : M W unit) (o : options) : M bl unit := on_world flush ;;; when (a_b o) (set_checked false).

(** A blob of images, opened, in memory that an update leaves alone. *)
Record payload (m : mem) (P : Z -> Prop) (bh h d : Z) (ims : list image) : Prop := {
  pl_handle : bh <> 0 /\ holds m bh (info_bytes h 0 d);
  pl_blob : 0 < h /\ h + total ims < 2 ^ 64 /\ total ims < 2 ^ 32 /\ holds m h (blob_bytes ims);
  pl_images : Forall (fun im => image_ok im /\ bytes (im_name im)) ims;
  pl_kept : forall y, bh <= y < bh + 24 \/ h <= y < h + total ims -> ~ P y;
}.

(** C4.  Updating from a blob of at most 255 images updates the partitions one after
    the other in an order in which each comes once, behind what it depends on: that
    of the entries, with what they depend on in front of them, as far as it is not
    done yet.  That holds whatever the updates do, if what the callbacks, the heap and
    the engine write are not the names, the blob or the specification of the board.
    The specification may have been read before; at the first update after a start it
    has not, and then there is a table of the board that holds one of at most 63
    characters, which the first partition reads into its array, or no table at all. *)
Theorem update_in_dependency_order fuel dma lit o global_nct_spec id_ config_ item_ partition_name_ full_part_name_ heap_memalign flush mode
    D P cbs (s : bl) bh h d ims buff suffix :
  environment fuel dma global_nct_spec partition_name_ full_part_name_ heap_memalign D P cbs ->
  (forall f, verify_payload cbs = Some f -> polite D P (f bh)) ->
  good D (memory s) -> settled lit global_nct_spec id_ config_ item_ D P cbs [] s ->
  payload (memory s) (touched global_nct_spec id_ config_ item_ P) bh h d ims -> 0 < len ims <= 255 ->
  (forall x, x ∈ table_names -> lit x <> 0 /\ kept_name global_nct_spec id_ config_ item_ P (memory s) (named lit x)) ->
  let entries := parts_from h 0 ims in
  exists ps, ordered lit (a_b o) ps /\
    (forall p, p ∈ entries -> snd p ∈ map snd ps) /\
    (forall q, q ∈ ps -> q ∈ entries \/ exists r e, r ∈ ps /\ depends lit (a_b o) (snd r) = Some e /\ q = e) /\
    update_steps fuel dma lit o global_nct_spec id_ config_ item_ partition_name_ full_part_name_ heap_memalign flush mode bh buff suffix s =
    (prepare o bh buff suffix ;;;
     apply_steps fuel dma lit o global_nct_spec id_ config_ item_ partition_name_ full_part_name_ heap_memalign mode bh (len ims) ps ;;;
     finish flush o) s.
Proof.
  intros Env Hv G HI [[Hb Hinfo] (Hh & Hend & Ht & Hblob) Him Hkept] Hn Names entries.
  assert (Hok : Forall image_ok ims) by (eapply Forall_impl; [exact Him|by intros ? []]). assert (Hnm : Forall (fun im => bytes (im_name im)) ims) by (eapply Forall_impl; [exact Him|by intros ? []]).
  exists (plan lit (a_b o) [] entries). destruct (plan_ordered lit (a_b o) entries []) as [Ho He]; [apply ordered_nil|]. split; [done|]. split; [done|].
  split; [intros q Hq; apply plan_members in Hq as [Hq|Hq]; [by apply elem_of_nil in Hq|done]|].
  assert (Hstart : after lit global_nct_spec id_ config_ item_ D P cbs (memory s) [] s) by (split; [done|]; split; [done|]; exists []; done).
  assert (Hkeep : forall (x : M bl unit) s0, confines memory (settled lit global_nct_spec id_ config_ item_ D P cbs []) D (touched global_nct_spec id_ config_ item_ P) True (fun _ => True) x ->
    after lit global_nct_spec id_ config_ item_ D P cbs (memory s) [] s0 -> after lit global_nct_spec id_ config_ item_ D P cbs (memory s) [] (snd (x s0))).
  { intros x s0 Hx (G0 & M0 & l & I0 & N0). destruct l; [|done]. destruct (Hx s0 G0 I0) as (G1 & O1 & I1 & _).
    split; [done|]. split; [intros y Hy; by rewrite O1, M0|]. by exists []. }
  assert (Hblobs : forall s0, after lit global_nct_spec id_ config_ item_ D P cbs (memory s) [] s0 -> holds (memory s0) bh (info_bytes h 0 d) /\ holds (memory s0) h (blob_bytes ims)).
  { intros s0 Ha. eapply blob_stays; try done; intros y Hy; apply Hkept; [by left|by right]. }
  unfold update_steps, prepare. rewrite bind_assoc. apply bind_same; [done|]. intros [] s1 E1.
  assert (H1 : after lit global_nct_spec id_ config_ item_ D P cbs (memory s) [] s1).
  { replace s1 with (snd (when (blob_signing o) (let! c := gets callbacks in match verify_payload c with Some f => on_host (f bh) | None => ret tt end) s)) by (by rewrite E1).
    apply Hkeep; [|done]. apply confines_when. intros _. apply confines_gets. intros s0 (-> & _). destruct (verify_payload cbs) as [f|] eqn:Ef; [|by apply confines_ret].
    by apply (keeping_host fuel dma lit global_nct_spec id_ config_ item_ partition_name_ full_part_name_ heap_memalign _ _ _ Env), Hv. }
  destruct (Hblobs s1 H1) as [I1 B1].
  rewrite (bind_run _ _ _ _ _ (code_run _ _ _ _ (mem_run _ _ s1 (get_type_run _ _ _ _ _ Hb Hh I1 B1 Hok Ht Hend)))). change (negb (BLOB_UPDATE =? BLOB_UPDATE)) with false. cbv beta iota zeta.
  apply bind_same; [done|]. intros [] s2 E2.
  assert (H2 : after lit global_nct_spec id_ config_ item_ D P cbs (memory s) [] s2).
  { replace s2 with (snd (when (a_b o) (is_update_all_slots_required buff ;;; set_suffix suffix) s1)) by (by rewrite E2). apply Hkeep; [|done].
    apply confines_when. intros _. eapply confines_bind; [by eapply keeping_all_slots|]. intros _ _. apply confines_modify. done. }
  destruct (Hblobs s2 H2) as [I2 B2].
  rewrite (bind_run _ _ _ _ _ (code_run _ _ _ _ (mem_run _ _ s2 (get_num_entries_run _ _ _ _ _ Hb Hh I2 B2 Hok Ht Hend)))). cbv beta iota. rewrite bind_ret_l.
  rewrite (proj2 (Z.eqb_neq (len ims) 0)) by lia. cbn [fail_if]. rewrite bind_ret_l, Nat2Z.id.
  destruct (entries_run fuel dma lit o global_nct_spec id_ config_ item_ partition_name_ full_part_name_ heap_memalign mode D P cbs Env bh (len ims) (memory s) Names h d ims
    Hb Hh Hinfo Hblob Hok Hnm Ht Hend eq_refl ltac:(lia) ltac:(intros y Hy; apply Hkept; by left) ltac:(intros y Hy; apply Hkept; by right) ims 0%nat [] s2 eq_refl H2 ltac:(constructor)) as (ps & Eps & E).
  cbn [app] in Eps. unfold entries. rewrite Eps. unfold bind at 1. change (Z.of_nat 0) with 0 in E. rewrite E. unfold bind, finish. by destruct (apply_steps _ _ _ _ _ _ _ _ _ _ _ _ _ _ ps s2) as [[[]| | | |] s3].
Qed.
End Whole.

(** The index of the loop has eight bits: with more entries it never ends. *)
Lemma update_of_256_entries_never_ends {inflate_state W H} {PA : PartitionApi W H} {HA : HeapApi W} fuel dma lit o g id c item p full al mode
    loop : forall bh i n status (s : @bl inflate_state W) r s', 256 <= n -> 0 <= i < 256 ->
  update_entries fuel dma lit o g id c item p full al mode loop bh i n status s <> (Ret r, s').
Proof.
  induction loop as [|loop IH]; intros bh i n status s r s' Hn Hi; cbn [update_entries]; [done|]. destruct (Z.ltb_spec i n); [|lia].
  assert (Hu : 0 <= u8 (i + 1) < 256) by (apply wrapw_range; lia).
  unfold bind. destruct (code _ s) as [[[e|e]| | | |] s1]; try done; [|by apply IH].
  destruct (update_partition_recursive _ _ _ _ _ _ _ _ _ _ _ _ _ _ _ _ s1) as [[[]| | | |] s2]; try done. by apply IH.
Qed.

(** ** An update *)

Lemma short_cname m a l : text_chars l -> (length l < 36)%nat -> holds m a (l ++ [0]) -> cname m a l.
Proof. intros H1 H2 H3. split; [done|]. by left. Qed.

Definition name_field (s : string) : list Z := chars s ++ repeat 0 (40 - length (chars s)).
Definition update_images : list image :=
  [mk_image (name_field "mb1") 1 0 (repeat 0 64) [1; 2; 3]; mk_image (name_field "cboot") 1 0 (repeat 0 64) [4; 5];
   mk_image (name_field "mb2") 1 0 (repeat 0 64) [6]; mk_image (name_field "BCT") 1 0 (repeat 0 64) [7; 8]].
Definition update_text (s : string) : Z :=
  if String.eqb s BR_BCT_PARTITION_NAME then 16 else if String.eqb s MB2_BL_PARTITION_NAME then 24
  else if String.eqb s MB1_PARTITION_NAME then 32 else if String.eqb s NCT_SPEC_CFG_NAME then 40 else 56.
(** After a start: the array of the specification is zero, and the table is in memory. *)
Definition update_memory : mem :=
  ranges_memory [(16, chars "BCT" ++ [0]); (24, chars "mb2" ++ [0]); (32, chars "mb1" ++ [0]);
    (40, chars NCT_SPEC_CFG_NAME ++ [0]); (56, chars NCT_SPEC_ID_NAME ++ [0]); (64, info_bytes 4096 0 (total update_images));
    (100, repeat 0 64); (200, repeat 7 36); (300, repeat 7 36); (400, repeat 7 64); (500, repeat 7 64); (1000, repeat 7 1024);
    (4096, blob_bytes update_images); (60064, le 4 NCT_ID_SPEC ++ repeat 0 8 ++ (spec_text ++ [0]) ++ spec_rest)].
Definition one_slot : @tegrabl_bl_update_callbacks unit unit :=
  mk_callbacks None None (Some (ret 1)) (Some (fun _ => ret 0)) (Some (fun _ _ _ => ret tt)) None None.
Definition update_state : @bl unit unit :=
  mk_bl (mk_host (mk_contexts update_memory (mk_lzf 0 0 0 false 0 0 0 0 0 0) (mk_stream 0 0 0 0 tt) false) tt) (1, 0) 0 one_slot [] false false.
Definition update_options : options := mk_options false false true.
Definition local_arrays (y : Z) : Prop := 200 <= y < 236 \/ 300 <= y < 336.
Abbreviation local_touched := (touched 100 400 500 1000 local_arrays).
#[local] Instance nowhere : PartitionApi unit unit :=
  {| partition_open _ := ret tt; partition_seek p _ _ := ret p; partition_read p n := ret (repeat 0 (Z.to_nat n), p);
     partition_write p _ := ret p; partition_erase _ _ := ret tt; partition_storage_type _ := 0 |}.
#[local] Instance heap_at_8192 : HeapApi unit := {| heap_malloc _ := ret (Some 8192); heap_free _ := ret tt |}.

Example update_plan :
  map snd (plan update_text true [] (parts_from 4096 0 update_images)) = [chars "mb2"; chars "BCT"; chars "mb1"; chars "cboot"].
Proof. vm_compute. reflexivity. Qed.

Ltac untouched := unfold touched, spec_arrays, local_arrays, MAX_NCT_DATA_SIZE, NCT_MAX_SPEC_LENGTH; intros y Hy Ht; cbn in Hy; lia.

Lemma update_names : forall x, x ∈ table_names -> update_text x <> 0 /\ kept_name 100 400 500 1000 local_arrays update_memory (named update_text x).
Proof.
  intros x [->|[->|[->|[]%elem_of_nil]%elem_of_cons]%elem_of_cons]%elem_of_cons; (split; [done|]).
  all: split; [|untouched].
  all: apply short_cname; [repeat constructor|cbn; lia|apply ranges_hold; [reflexivity|in_ranges]].
Qed.

Lemma update_spec_item : spec_item update_text update_memory 0 spec_text (repeat 0 8) spec_rest (chars "B01") (chars "2888-0001").
Proof.
  split.
  - apply ranges_hold; [reflexivity|in_ranges].
  - split; [reflexivity|vm_compute; reflexivity].
  - repeat constructor.
  - apply spec_fields.
  - vm_compute. reflexivity.
  - split; (apply ranges_cstr; [reflexivity|in_ranges|reflexivity]).
Qed.

Lemma update_spec_places : spec_places update_text 100 400 500 1000 (fun x => is_Some (update_memory !! x)) local_arrays 0.
Proof.
  assert (Hm : forall a n, mapped_b update_memory a (Z.to_nat n) = true -> forall y, a <= y < a + n -> is_Some (update_memory !! y)) by (intros a n H; by apply mapped_check).
  split.
  - lia.
  - intros y [?|[?|[?|?]]]; [apply (Hm 1000 1024)|apply (Hm 400 64)|apply (Hm 500 64)|apply (Hm 100 64)]; first [assumption|vm_compute; reflexivity].
  - repeat split; vm_compute; ((left; discriminate) || (right; discriminate)).
  - repeat split; vm_compute; ((left; discriminate) || (right; discriminate)).
  - repeat split; vm_compute; ((left; discriminate) || (right; discriminate)).
  - repeat split; vm_compute; ((left; discriminate) || (right; discriminate)).
  - change (update_text NCT_SPEC_CFG_NAME) with 40. change (update_text NCT_SPEC_ID_NAME) with 56. change (spec_entry 0) with 60064.
    unfold sizeof_nct_entry, local_arrays. intros y Hy Hp. lia.
Qed.

Lemma update_in_dependency_order_witness :
  exists ps, ordered update_text true ps /\
    (forall p, p ∈ parts_from 4096 0 update_images -> snd p ∈ map snd ps) /\
    (forall q, q ∈ ps -> q ∈ parts_from 4096 0 update_images \/ exists r e, r ∈ ps /\ depends update_text true (snd r) = Some e /\ q = e) /\
    update_steps 2000 (mk_dma None 0 None 0) update_text update_options 100 400 500 1000 200 300 (fun _ _ => ret None) (ret tt) false 64 4096 0 update_state =
    (prepare update_options 64 4096 0 ;;;
     apply_steps 2000 (mk_dma None 0 None 0) update_text update_options 100 400 500 1000 200 300 (fun _ _ => ret None) false 64 (len update_images) ps ;;;
     finish (ret tt) update_options) update_state.
Proof.
  apply (update_in_dependency_order 2000 (mk_dma None 0 None 0) update_text update_options 100 400 500 1000 200 300 (fun _ _ => ret None) (ret tt) false
    (fun x => is_Some (update_memory !! x)) local_arrays one_slot update_state 64 4096 (total update_images) update_images 4096 0).
  - split.
    + lia.
    + intros f. discriminate.
    + unfold NCT_MAX_SPEC_LENGTH, local_arrays. intros y Hy Hp. lia.
    + intros y Hy. left. exact Hy.
    + intros y Hy. right. exact Hy.
    + intros n a w w'. discriminate.
    + intros f data size. discriminate.
    + intros f [= <-]. by apply confines_ret.
    + intros f suffix [= <-]. by apply confines_ret.
    + intros f slot buf full [= <-]. by apply confines_ret.
    + intros f blob. discriminate.
    + intros f x. discriminate.
  - intros f. discriminate.
  - split; [done|]. apply byte_memory_check. vm_compute. reflexivity.
  - split; [done|]. split; [done|]. right.
    assert (Hz : holds update_memory 100 (repeat 0 64)) by (apply ranges_hold; [reflexivity|in_ranges]).
    split; [exact (Hz 0%nat 0 eq_refl)|]. right. split; [done|]. split; [exact update_spec_places|]. exists spec_text, (repeat 0 8), spec_rest, (chars "B01"), (chars "2888-0001"). exact update_spec_item.
  - split.
    + split; [done|]. apply ranges_hold; [reflexivity|in_ranges].
    + split; [done|]. split; [done|]. split; [done|]. apply ranges_hold; [reflexivity|in_ranges].
    + repeat constructor; vm_compute; discriminate.
    + untouched.
  - vm_compute. split; [reflexivity|discriminate].
  - exact update_names.
Defined.
